(* ===== verification/_CoqProject ===== *)
-Q . S2P
Prelude.v
JsNumber.v
JsString.v
Json.v
JsonFacts.v
Value.v
ClientName.v
RateLimit.v
Shared.v
SharedFacts.v
Timers.v
Utf.v
MemoryStore.v
StoreFacts.v
TokenBucket.v
TokenBucketFacts.v
TokenBucketProps.v
Concurrency.v
MultiLimit.v
Queue.v
Cost.v
Freeze.v
Backend.v
Observe.v
StoreProps.v
SharedProps.v
Invariant.v
Atomicity.v
CostProps.v
AdmissionProps.v
SettlementProps.v
ConcurrencyFacts.v
ConcurrencyProps.v
Election.v
ElectionProps.v
Requests.v
Client.v
Metered.v
Completions.v
Attempts.v
Encryption.v
Authenticate.v
Templates.v
TemplateClients.v
Process.v
Lifecycle.v
Handler.v
Redact.v
Drain.v
DrainSpec.v
DrainProps.v
Footprint.v
MemoryDrain.v
QueueProps.v
AuthProps.v
TemplateProps.v
LifecycleProps.v
RedactProps.v
MeteredProps.v
RequestFacts.v
CompletionProps.v
AttemptProps.v
PacingProps.v
RedisServer.v
RedisFacts.v
RedisModel.v
RedisBucket.v
RedisMulti.v
RedisQueue.v
RedisFreeze.v
RedisBackend.v
RedisTypes.v
RedisTwins.v
RedisClaims.v
RedisAgree.v
RedisUpkeep.v
RedisSettle.v
RedisTwinsProps.v
RedisTyped.v
RedisTypedProps.v
