(* ===== verification/Prelude.v ===== *)
(** * Dianemo: a verification library

    Dianemo meters calls to third-party APIs across many replicas of a service.
    This library models its core ([packages/core]) and its Redis backend
    ([packages/backend-redis]) as executable definitions, and proves what makes
    them correct.

    ** The program

    A _client_ stands for one credential at one vendor.  It carries a list of
    limits: request budgets (token buckets), concurrency ceilings (slot ledgers)
    and shared limits, which spend another client's budget.  A caller's request
    is admitted on a fast path when nobody waits, or queued; one replica at a
    time drains a queue, claims the budgets for the next request and announces
    it ready; the replica that holds the request sends it, classifies the answer,
    retries, and announces every attempt's end; the client's _controller_ replica
    applies those ends: it frees slots, settles budgets, freezes the client.
    All state that replicas share lives in a _backend_, of which there are two:
    an in-process one, and Lua scripts on a Redis server.

    ** The files

    Numbers, text and data that every part uses:
    - [JsNumber]: doubles as units of [2 ^ -1074] with one rounding,
      infinities and NaN; the two zeros are one value.  Units are divided by powers
      of two first ([zdiv], [zmod]), which keeps evaluation quick.
    - [JsString], [Utf]: strings, [Number], [String(n)], [parseFloat],
      surrogates and UTF-8.  [Json], [JsonFacts]: [JSON.parse] and [JSON.stringify].
      [Value]: JavaScript values a caller may pass where the types promise less.

    The core's data and arithmetic:
    - [Shared], [SharedFacts], [SharedProps]: [core/src/backend/*.ts] but the
      memory backend (leases, tolerances, scores, stored numbers, TTLs, settlement).
    - [ClientName], [RateLimit], [Cost], [Timers], [CostProps]: [core/src/utils].

    The memory backend, [core/src/backend/memory.ts], a section to a file:
    - [MemoryStore], [StoreFacts], [StoreProps]: entries, lazy expiry, key-value
      operations, batches, locks, publish and subscribe.
    - [TokenBucket], [Concurrency], [MultiLimit], [Queue], [Freeze]: the limiter's
      own operations; [Backend] collects the whole [DianemoBackend] interface into
      calls and a class that clients are written against.
    - [Observe], [Invariant], [Atomicity], [Footprint]: what holds of every call;
      [TokenBucketFacts], [TokenBucketProps], [AdmissionProps], [SettlementProps],
      [ConcurrencyFacts], [ConcurrencyProps], [QueueProps]: of
      particular ones.

    The client, [core/src/client]:
    - [Requests], [RequestFacts]: requests and completions, and both on the wire.
    - [Client] (state, keys, timers, waiting requests, queue, freezes), [Metered]
      (budgets, and shared limits), [Completions] (applying and forwarding ends),
      [Attempts] (one request's tries), [Drain] (the drain loop).
    - [Encryption] and [Authenticate] ([utils/encryption.ts], [methods/authenticate.ts]):
      sealing credentials, and obtaining, storing and serving tokens; [AuthProps].
    - [DrainSpec]: what the drain loop asks of a backend, which [MemoryDrain]
      proves of the memory backend and [MeteredProps] of a metered client on it;
      it also watches a program's announcements; [DrainProps], [CompletionProps],
      [AttemptProps], [PacingProps]: what the client promises.

    The handler, [core/src/index.ts] and [core/src/utils]:
    - [Election], [ElectionProps]: who controls a client.
    - [Templates] and [TemplateClients] ([createClients.ts], [templateClients.ts]):
      declarations, plans and overrides as functions, and building, loading,
      rebuilding and removing tenants as programs; [TemplateProps].
    - [Lifecycle], [LifecycleProps]: starting, stopping and watching peers, a machine
      of labels, elections one at a time and work on one tenant likewise; [Process]:
      the signals of all handlers of a process; [Handler]: the constructor's checks, polling waits, and what a
      message on each channel sets off ([startSubscriptions.ts]).
    - [Redact], [RedactProps] ([redact.ts], [tryHandleRequest.ts], [errors.ts]).

    The Redis backend, [backend-redis/src]:
    - [RedisServer]: what a server holds and what commands do to it, as a class
      with the laws of the manual; Lua's number texts likewise; the fragments
      scripts share ([lua/fragments.ts]).  [RedisModel]: a server that keeps the laws.
    - [RedisBucket] (and slots), [RedisMulti], [RedisQueue], [RedisFreeze]: the
      scripts of [lua/*.ts] with the operations of [ops/*.ts] that call them and
      [requestCodec.ts]; [RedisBackend]: [index.ts], the key-value operations, and
      the whole collected into the calls of [Backend].
    - [RedisTypes], [RedisTyped], [RedisTypedProps]: a type for each key, the
      commands' rules for it, and that every operation keeps it.
    - [RedisFacts], [RedisTwins], [RedisClaims], [RedisAgree], [RedisUpkeep],
      [RedisSettle], [RedisTwinsProps]: the simulation between the two backends.

    ** How code became definitions

    An operation of the memory backend is a function of the clock and the store
    ([M]) that returns or throws and keeps what it wrote before throwing.  A
    client method is a program over a state and any backend ([Prog], with
    [outcome]s: a value, one of the program's errors, or a foreign error).  A
    script is a function from server state to server state ([Script]).
    - The clock is read once in a body that does not suspend.  Time passes between
      operations.
    - A [Map] or a [Set] is a list in insertion order; an object used as one is a
      [gmap] where its order is never seen.
    - [merge_sort] stands for the stable [Array.sort].  Locale collation and
      [Date.parse] are arguments.
    - Strings are code units below 256 where their order is not at stake; order is
      stated over sequences of 16-bit units.
    - The vendor, the hooks, the abort signal, deadlines and the event loop's
      choice of who runs next are a [Host]: the theorems hold whatever it does.
      To a request, obtaining credentials is one of its programs; [Authenticate]
      models that one, against a host of its own.
    - What [node:crypto] and the platform's URL functions compute are class
      parameters with their documented laws.
    - Where calls of the handler overlap, a machine takes a step for each call that
      comes in and for each awaited step that settles, with either outcome.
    - A drain that is started and not awaited is counted ([c_passes]); a pass is
      alone on its replica, as the code's own flag has it, with the calls of
      [processRequests] that come in during each turn an argument of it, and other
      replicas act between its calls through the shared store.  So with the pass over kept
      completions.
    - A theorem about amounts assumes integers, and says how large, where doubles
      round; the rest holds for every double.

    Fuel: the parser of JSON takes twice the length of its text; the drain loop
    more than the open entries and grants ([drain_ends] proves that enough); a
    request's tries [maxRetries + 1] ([attempts_announced_once]); the wait for a
    peer's refresh its deadline in polls ([wait_ends]); the handler's polling
    waits likewise ([while_before_ends]); comparing and redacting values take
    their depth and their size ([redact_fuel]).  No other definition needs any.

    ** What is proved

    - Budgets: no stretch of time is granted more than what a bucket holds and its
      refill since it was last refilled (C1), the wait of a claim a bucket can
      cover is exact (C2), the fast path is the queued claim behind
      a gate (C13), refunds are bounded (C14), a claim is settled once (C15, C11)
      and settling at once replaces the estimate (C16).
    - Ceilings: a claim's decision (C17) and the ceiling itself (C18).
    - The store: lazy expiry is unobservable (C3), calls that throw change nothing
      (C12), locks exclude (C5), sets stay sorted by score and then bytes (C6, C7),
      calls keep to their footprint (C30).
    - The queue: its order (C8), the drain loop's end, and the pass after
      it when one was asked for (C29), and that everyone who
      waits is served in turn (C38).
    - Configurations and costs: what the checks accept is what can be admitted
      (C20 to C23), stored numbers read back (C10), names parse back
      (C19), delays and lifetimes (C25, C26).
    - Replicas: one controller to a client (C28); a completion is applied once
      (C31), an attempt published and handed over once, and a stream once for each
      of its phases (C32), but for one path (C33); freezes outlast what asked for
      them (C34).
    - Redis: the token-bucket scripts refine the memory backend's operations (C36),
      and no operation meets a key of another type (C37).
    - Credentials: a token that is saved is the token served, as long as it should
      be (C39), and what is logged and thrown shows none (C9).
    - Tenants: plans and overrides keep the kind of every client (C40), and work
      on one tenant is serial (C35).
    - The lifecycle: one start or stop at a time, every message heard once, nothing
      after a stop (C4), which always ends (C24); a signal ends the process once
      every handler has stopped (C27).

    ** What is not modelled

    - Connecting to and closing a Redis server, and loading the scripts on it.
    - Closing the streams that a shutdown finds open, and startup hooks that are
      registered once a start has passed them.
    - [logger.ts] and [plugin.ts], which are types; what is logged, but that it is
      redacted.  Statistics and stream bookkeeping beyond counting.
    - Interleaving within one tenant: [Lifecycle.entry_work_serial] has work on a
      tenant serial, so a pass of [TemplateClients] is a program run to its end.

    This file holds what all others share: fallible results and ordered maps. *)
From stdpp Require Export base tactics numbers list sorting strings gmap fin_maps.
From Stdlib Require Export ZArith Lia Ascii.
From Stdlib Require List.

Create HintDb num.

(** ** Fallible computations

    A JavaScript function either returns or throws.  The program throws two
    kinds of error from the code modelled here: a [RangeError], and its own
    [ConfigurationError] with a code and a message. *)

Inductive js_error :=
  | RangeError (message : string)
  | ConfigurationError (code message : string).

#[export] Instance js_error_eq_dec : EqDecision js_error.
Proof. solve_decision. Defined.

Inductive result (A : Type) :=
  | Ok (a : A)
  | Throw (e : js_error).
Arguments Ok {A} a.
Arguments Throw {A} e.

Definition rbind {A B} (m : result A) (f : A -> result B) : result B :=
  match m with Ok a => f a | Throw e => Throw e end.

Definition is_ok {A} (m : result A) : bool :=
  match m with Ok _ => true | Throw _ => false end.

#[export] Instance result_ret : MRet result := fun A a => Ok a.
#[export] Instance result_bind : MBind result := fun A B f m => rbind m f.

(** ** Insertion-ordered maps and sets

    A JavaScript [Map] or [Set] iterates in insertion order: writing a key
    that is present keeps its place. *)

Section ordered.
Context {K V : Type} `{EqDecision K}.

Fixpoint omap_get (k : K) (l : list (K * V)) : option V :=
  match l with
  | [] => None
  | (k', v) :: l' => if decide (k = k') then Some v else omap_get k l'
  end.

Fixpoint omap_set (k : K) (v : V) (l : list (K * V)) : list (K * V) :=
  match l with
  | [] => [(k, v)]
  | (k', v') :: l' =>
      if decide (k = k') then (k, v) :: l' else (k', v') :: omap_set k v l'
  end.

Fixpoint omap_delete (k : K) (l : list (K * V)) : list (K * V) :=
  match l with
  | [] => []
  | (k', v') :: l' =>
      if decide (k = k') then omap_delete k l' else (k', v') :: omap_delete k l'
  end.

Definition oset_add (k : K) (l : list K) : list K :=
  if decide (k ∈ l) then l else l ++ [k].

Definition oset_delete (k : K) (l : list K) : list K :=
  filter (fun k' => k' <> k) l.

Lemma omap_get_set k k' v l :
  omap_get k' (omap_set k v l) = if decide (k = k') then Some v else omap_get k' l.
Proof.
  induction l as [|[k0 v0] l IH]; repeat (case_decide || simplify_eq/=); auto.
Qed.

Lemma omap_get_elem k v l : omap_get k l = Some v -> (k, v) ∈ l.
Proof.
  induction l as [|[k0 v0] l IH]; [done|]. cbn [omap_get]. case_decide; intros Hg.
  - subst k0. injection Hg as ->. by left.
  - right. auto.
Qed.

Lemma omap_get_delete k k' l :
  omap_get k' (omap_delete k l) = if decide (k = k') then None else omap_get k' l.
Proof.
  induction l as [|[k0 v0] l IH]; repeat (case_decide || simplify_eq/=); auto.
Qed.

Lemma elem_of_omap_keys_set k v l k' :
  k' ∈ (omap_set k v l).*1 <-> k' = k \/ k' ∈ l.*1.
Proof.
  induction l as [|[k0 v0] l IH]; simpl; [set_solver|].
  case_decide; subst; simpl; set_solver.
Qed.

Lemma elem_of_omap_keys_delete k l k' :
  k' ∈ (omap_delete k l).*1 <-> k' <> k /\ k' ∈ l.*1.
Proof.
  induction l as [|[k0 v0] l IH]; simpl; [set_solver|].
  case_decide; subst; simpl; set_solver.
Qed.

Lemma NoDup_omap_set k v l : NoDup l.*1 -> NoDup (omap_set k v l).*1.
Proof.
  induction l as [|[k0 v0] l IH]; simpl; [intros _; apply NoDup_singleton|].
  intros [Hn Hd]%NoDup_cons. case_decide; subst; simpl; apply NoDup_cons; split; auto.
  rewrite elem_of_omap_keys_set. naive_solver.
Qed.

Lemma NoDup_omap_delete k l : NoDup l.*1 -> NoDup (omap_delete k l).*1.
Proof.
  induction l as [|[k0 v0] l IH]; simpl; [done|].
  intros [Hn Hd]%NoDup_cons. case_decide; subst; simpl; [auto|].
  apply NoDup_cons; split; auto. rewrite elem_of_omap_keys_delete. naive_solver.
Qed.

Lemma elem_of_oset_add k' k l : k' ∈ oset_add k l <-> k' = k \/ k' ∈ l.
Proof. unfold oset_add. case_decide; set_solver. Qed.

Lemma NoDup_oset_add k l : NoDup l -> NoDup (oset_add k l).
Proof.
  intros Hl. unfold oset_add. case_decide; [done|]. apply NoDup_app. split_and!; [done| |].
  - intros x Hx ->%list_elem_of_singleton. done.
  - apply NoDup_singleton.
Qed.
End ordered.

(** ** Lists *)

Lemma filter_nil_iff {A} (P : A -> Prop) `{forall x, Decision (P x)} (l : list A) :
  filter P l = [] <-> forall x, x ∈ l -> ~ P x.
Proof.
  split; [intros E x Hx HP; exact (filter_nil_not_elem_of P l x E HP Hx)|].
  intros Hn. induction l as [|x l IH]; [done|]. rewrite filter_cons, decide_False by (apply Hn; left).
  apply IH. intros y Hy. apply Hn. by right.
Qed.

Lemma Sorted_impl_in {A} (R S : A -> A -> Prop) l :
  (forall a b, a ∈ l -> b ∈ l -> R a b -> S a b) -> Sorted R l -> Sorted S l.
Proof.
  intros H Hl. induction Hl as [|a l Hl IH Hd]; constructor.
  - apply IH. intros. apply H; [by right|by right|done].
  - destruct Hd as [|b l Hab]; constructor. apply H; [by left|by right; left|done].
Qed.

(** ** Strings *)

Lemma string_length_app (s t : string) :
  String.length (s +:+ t) = (String.length s + String.length t)%nat.
Proof. induction s as [|c s IH]; simpl; [done|]. by rewrite IH. Qed.

(** A key with a suffix is another key. *)
Lemma string_app_ne (s t : string) : t <> "" -> s +:+ t <> s.
Proof.
  intros Ht H%(f_equal String.length). rewrite string_length_app in H.
  destruct t; [done|]. simpl in H. lia.
Qed.

(** ** Tactics *)

(** Case analysis on the innermost [match] or [if] of the goal. *)
Ltac split_match :=
  match goal with
  | |- context [match ?x with _ => _ end] =>
      lazymatch x with
      | context [match _ with _ => _ end] => fail
      | _ => destruct x eqn:?
      end
  end.

(** Turn boolean comparisons in the context into arithmetic. *)
Ltac bool_lia :=
  repeat match goal with
  | H : andb _ _ = true |- _ => apply andb_true_iff in H as [? ?]
  | H : orb _ _ = false |- _ => apply orb_false_iff in H as [? ?]
  | H : negb _ = true |- _ => apply negb_true_iff in H
  | H : negb _ = false |- _ => apply negb_false_iff in H
  | H : Z.leb _ _ = true |- _ => apply Z.leb_le in H
  | H : Z.leb _ _ = false |- _ => apply Z.leb_gt in H
  | H : Z.ltb _ _ = true |- _ => apply Z.ltb_lt in H
  | H : Z.ltb _ _ = false |- _ => apply Z.ltb_ge in H
  | H : Z.eqb _ _ = true |- _ => apply Z.eqb_eq in H
  | H : Z.eqb _ _ = false |- _ => apply Z.eqb_neq in H
  end; try lia.
