(* ===== verification/JsNumber.v ===== *)
(** * JavaScript numbers

    The IEEE-754 binary64 numbers the program computes with, executable and
    with round-to-nearest-even written out.  A finite double is the integer
    number of units [2^-1074] it holds, so every sum of two doubles is exact
    before it is rounded and no real-number library is needed.  The two zeros
    are one value: the program never divides by a negative zero and never
    tests the sign of a zero. *)
From S2P Require Import Prelude.
Local Open Scope Z_scope.

(** ** Values *)

Inductive num :=
  | NaN
  | Inf (neg : bool)
  | Fin (units : Z).

#[export] Instance num_eq_dec : EqDecision num.
Proof. solve_decision. Defined.

(** The number of units in 1. *)
Definition unit1 : Z := 2 ^ 1074.

(** The double holding the integer [z] (meant for safe integers). *)
Definition int (z : Z) : num := Fin (z * unit1).

(** ** Rounding *)

(** Division that drops the factors of two its operands share first: most
    operands are multiples of a large power of two. *)
Fixpoint strip (a b : positive) : positive * positive :=
  match a, b with
  | xO a', xO b' => strip a' b'
  | _, _ => (a, b)
  end.

Definition zdiv (a b : Z) : Z :=
  match a, b with
  | Zpos p, Zpos q =>
      let '(p, q) := strip p q in match q with xH => Zpos p | _ => Zpos p / Zpos q end
  | Zneg p, Zpos q =>
      let '(p, q) := strip p q in match q with xH => Zneg p | _ => Zneg p / Zpos q end
  | _, _ => a / b
  end.

Definition zmod (a b : Z) : Z := a - zdiv a b * b.

(** [a / b] to the nearest integer, ties to even ([b > 0]). *)
Definition rne_div (a b : Z) : Z :=
  let q := zdiv a b in
  match Z.compare (2 * zmod a b) b with
  | Lt => q
  | Gt => q + 1
  | Eq => if Z.even q then q else q + 1
  end.

(** How many low bits of a magnitude of [q] units a 53-bit significand drops. *)
Definition ulp_exp (q : Z) : Z := Z.max 0 (Z.log2 q - 52).

(** The number of units the rational [a / b] units rounds to, exponent
    unbounded above. *)
Definition round_units (a b : Z) : Z :=
  let e := ulp_exp (zdiv (Z.abs a) b) in rne_div a (b * 2 ^ e) * 2 ^ e.

Definition overflow_units : Z := 2 ^ 1024 * unit1.

(** The double nearest to [a / b] units. *)
Definition round_ratio (a b : Z) : num :=
  let m := round_units a b in
  if Z.abs m <? overflow_units then Fin m else Inf (m <? 0).

Definition rnd (a : Z) : num := round_ratio a 1.

(** ** Arithmetic *)

Definition neg (x : num) : num :=
  match x with
  | NaN => NaN
  | Inf s => Inf (negb s)
  | Fin a => Fin (- a)
  end.

Definition add (x y : num) : num :=
  match x, y with
  | Fin a, Fin b => rnd (a + b)
  | NaN, _ | _, NaN => NaN
  | Inf s, Inf t => if Bool.eqb s t then Inf s else NaN
  | Inf s, Fin _ | Fin _, Inf s => Inf s
  end.

Definition sub (x y : num) : num := add x (neg y).

Definition mul (x y : num) : num :=
  match x, y with
  | Fin a, Fin b => round_ratio (a * b) unit1
  | NaN, _ | _, NaN => NaN
  | Inf s, Inf t => Inf (xorb s t)
  | Inf s, Fin a | Fin a, Inf s =>
      if a =? 0 then NaN else Inf (xorb s (a <? 0))
  end.

Definition div (x y : num) : num :=
  match x, y with
  | Fin a, Fin b =>
      if b =? 0 then (if a =? 0 then NaN else Inf (a <? 0))
      else round_ratio (Z.sgn b * a * unit1) (Z.abs b)
  | NaN, _ | _, NaN => NaN
  | Inf _, Inf _ => NaN
  | Inf s, Fin b => Inf (xorb s (b <? 0))
  | Fin _, Inf _ => Fin 0
  end.

(** ** Comparison: every comparison with [NaN] is false *)

Definition ltb (x y : num) : bool :=
  match x, y with
  | NaN, _ | _, NaN => false
  | Fin a, Fin b => a <? b
  | Inf s, Inf t => s && negb t
  | Inf s, Fin _ => s
  | Fin _, Inf t => negb t
  end.

Definition leb (x y : num) : bool :=
  match x, y with
  | NaN, _ | _, NaN => false
  | Fin a, Fin b => a <=? b
  | Inf s, Inf t => s || negb t
  | Inf s, Fin _ => s
  | Fin _, Inf t => negb t
  end.

Definition gtb (x y : num) : bool := ltb y x.
Definition geb (x y : num) : bool := leb y x.

Definition eqb (x y : num) : bool :=
  match x, y with
  | NaN, _ | _, NaN => false
  | _, _ => bool_decide (x = y)
  end.

(** ** [Number.*] and [Math.*] *)

Definition isNaN (x : num) : bool := match x with NaN => true | _ => false end.

Definition isFinite (x : num) : bool :=
  match x with Fin _ => true | _ => false end.

Definition max_safe : Z := 2 ^ 53 - 1.

Definition isSafeInteger (x : num) : bool :=
  match x with
  | Fin a => (zmod a unit1 =? 0) && (Z.abs a <=? max_safe * unit1)
  | _ => false
  end.

Definition EPSILON : num := Fin (2 ^ 1022).
Definition MAX_SAFE_INTEGER : num := int max_safe.

Definition fmax (x y : num) : num :=
  match x, y with
  | NaN, _ | _, NaN => NaN
  | _, _ => if ltb x y then y else x
  end.

Definition fmin (x y : num) : num :=
  match x, y with
  | NaN, _ | _, NaN => NaN
  | _, _ => if ltb y x then y else x
  end.

Definition floor (x : num) : num :=
  match x with Fin a => Fin (zdiv a unit1 * unit1) | _ => x end.

Definition ceil (x : num) : num :=
  match x with Fin a => Fin (- zdiv (- a) unit1 * unit1) | _ => x end.

Definition trunc (x : num) : num :=
  match x with Fin a => Fin (Z.quot a unit1 * unit1) | _ => x end.

Declare Scope num_scope.
Delimit Scope num_scope with num.
Bind Scope num_scope with num.
Infix "+" := add : num_scope.
Infix "-" := sub : num_scope.
Infix "*" := mul : num_scope.
Infix "/" := div : num_scope.
Notation "- x" := (neg x) : num_scope.
Infix "<?" := ltb : num_scope.
Infix "<=?" := leb : num_scope.
Infix ">?" := gtb : num_scope.
Infix ">=?" := geb : num_scope.
Infix "=?" := eqb : num_scope.


(** The integers a double holds together with all their neighbours. *)
Definition safe (z : Z) : Prop := Z.abs z <= 2 ^ 53.

(** The magnitudes a 53-bit significand and a non-negative exponent spell. *)
Definition is_dbl (m : Z) : Prop :=
  exists k e, 0 <= e /\ safe k /\ m = k * 2 ^ e.

(** Values an operation can have produced: finite ones are doubles. *)
Definition wf_num (x : num) : Prop :=
  match x with Fin m => is_dbl m /\ Z.abs m < overflow_units | _ => True end.

#[global] Opaque unit1 overflow_units.

(** ** Facts about rounding *)

Lemma strip_spec a b : exists k,
  0 <= k /\ Zpos a = Zpos (strip a b).1 * 2 ^ k /\ Zpos b = Zpos (strip a b).2 * 2 ^ k.
Proof.
  revert b. induction a as [a|a IH|]; intros [b|b|]; simpl; try (exists 0; lia).
  destruct (IH b) as (k & Hk & Ha & Hb). exists (k + 1).
  rewrite Z.pow_add_r by lia. change (2 ^ 1) with 2. lia.
Qed.

Lemma zdiv_eq a b : zdiv a b = a / b.
Proof.
  destruct a as [|a|a], b as [|b|b]; try done; cbn [zdiv];
    destruct (strip_spec a b) as (k & Hk & Ha & Hb); pose proof (Z.pow_pos_nonneg 2 k ltac:(lia) Hk);
    destruct (strip a b) as [p q]; cbn [fst snd] in *;
    rewrite <- ?Pos2Z.opp_pos, ?Ha, ?Hb, <- ?Z.mul_opp_l, Z.div_mul_cancel_r by lia;
    destruct q; rewrite ?Z.div_1_r; done.
Qed.

Lemma zmod_eq a b : zmod a b = a mod b.
Proof.
  unfold zmod. rewrite zdiv_eq. destruct (Z.eq_dec b 0) as [->|Hb]; [rewrite Zmod_0_r; lia|].
  rewrite Z.mod_eq by done. lia.
Qed.

#[global] Arguments zdiv : simpl never.
#[global] Arguments zmod : simpl never.

Lemma unit1_pos : 0 < unit1.
Proof. reflexivity. Qed.

Lemma unit1_pow : unit1 = 2 ^ 1074.
Proof. reflexivity. Qed.

Lemma overflow_units_eq : overflow_units = 2 ^ 2098.
Proof. reflexivity. Qed.

#[export] Hint Resolve unit1_pos : num.

Lemma rne_div_bound a b :
  0 < b -> - b <= 2 * (rne_div a b * b - a) <= b.
Proof.
  intros Hb. pose proof (Z.div_mod a b ltac:(lia)) as Hd.
  pose proof (Z.mod_pos_bound a b Hb). unfold rne_div. rewrite ?zdiv_eq, ?zmod_eq.
  destruct (Z.compare_spec (2 * (a mod b)) b);
    [destruct (Z.even (a / b))|..]; nia.
Qed.

Lemma rne_div_near a b : 0 < b -> a / b <= rne_div a b <= a / b + 1.
Proof.
  intros Hb. unfold rne_div. rewrite ?zdiv_eq, ?zmod_eq. destruct (_ ?= _); [destruct (Z.even _)|..]; lia.
Qed.

Lemma rne_div_exact k b : 0 < b -> rne_div (k * b) b = k.
Proof.
  intros Hb. unfold rne_div. rewrite ?zdiv_eq, ?zmod_eq. rewrite Z.mod_mul, Z.div_mul by lia.
  destruct (Z.compare_spec (2 * 0) b); [lia|done|lia].
Qed.

Lemma rne_div_mono a a' b : 0 < b -> a <= a' -> rne_div a b <= rne_div a' b.
Proof.
  intros Hb Ha. pose proof (Z.div_le_mono a a' b Hb Ha) as Hq.
  destruct (Z.eq_dec (a / b) (a' / b)) as [E|E].
  - pose proof (Z.div_mod a b ltac:(lia)). pose proof (Z.div_mod a' b ltac:(lia)).
    assert (a mod b <= a' mod b) by nia.
    unfold rne_div. rewrite ?zdiv_eq, ?zmod_eq. rewrite <- E.
    destruct (Z.compare_spec (2 * (a mod b)) b),
      (Z.compare_spec (2 * (a' mod b)) b); try destruct (Z.even _); lia.
  - pose proof (rne_div_near a b Hb). pose proof (rne_div_near a' b Hb). lia.
Qed.

Lemma rne_div_opp a b : 0 < b -> rne_div (- a) b = - rne_div a b.
Proof.
  intros Hb. destruct (Z.eq_dec (a mod b) 0) as [E|E].
  - apply Z.mod_divide in E as [k ->]; [|lia].
    replace (- (k * b)) with (- k * b) by lia. by rewrite !rne_div_exact.
  - unfold rne_div. rewrite ?zdiv_eq, ?zmod_eq. rewrite Z.mod_opp_l_nz, Z.div_opp_l_nz by lia.
    rewrite Z.even_sub, Z.even_opp. pose proof (Z.mod_pos_bound a b Hb).
    destruct (Z.compare_spec (2 * (b - a mod b)) b),
      (Z.compare_spec (2 * (a mod b)) b); try lia.
    destruct (Z.even (a / b)); simpl; lia.
Qed.

Lemma rne_div_scale a b k :
  0 < b -> 0 < k -> rne_div (a * k) (b * k) = rne_div a b.
Proof.
  intros Hb Hk. unfold rne_div. rewrite ?zdiv_eq, ?zmod_eq.
  rewrite Z.div_mul_cancel_r, Z.mul_mod_distr_r by lia.
  replace (2 * (a mod b * k)) with (2 * (a mod b) * k) by lia.
  by rewrite <- Zmult_compare_compat_r by lia.
Qed.

Lemma ulp_exp_nonneg q : 0 <= ulp_exp q.
Proof. unfold ulp_exp. lia. Qed.

Lemma ulp_exp_mono q q' : q <= q' -> ulp_exp q <= ulp_exp q'.
Proof. intros H. unfold ulp_exp. pose proof (Z.log2_le_mono q q' H). lia. Qed.

Lemma pow2_pos e : 0 <= e -> 0 < 2 ^ e.
Proof. intros. apply Z.pow_pos_nonneg; lia. Qed.

Lemma ulp_exp_upper q : 0 <= q -> q < 2 ^ (53 + ulp_exp q).
Proof.
  intros Hq. destruct (Z.eq_dec q 0) as [->|]; [done|].
  pose proof (Z.log2_spec q ltac:(lia)) as [_ H].
  eapply Z.lt_le_trans; [exact H|]. apply Z.pow_le_mono_r; unfold ulp_exp; lia.
Qed.

Lemma ulp_exp_lower q : 0 < ulp_exp q -> 2 ^ (52 + ulp_exp q) <= q.
Proof.
  unfold ulp_exp. intros H. destruct (Z.le_gt_cases q 0).
  - rewrite Z.log2_nonpos in H by lia. lia.
  - pose proof (Z.log2_spec q ltac:(lia)) as [H1 _].
    replace (52 + Z.max 0 (Z.log2 q - 52)) with (Z.log2 q) by lia. done.
Qed.

Lemma round_units_opp a b : 0 < b -> round_units (- a) b = - round_units a b.
Proof.
  intros Hb. unfold round_units. rewrite ?zdiv_eq. rewrite Z.abs_opp.
  pose proof (pow2_pos _ (ulp_exp_nonneg (Z.abs a / b))).
  rewrite rne_div_opp by nia. lia.
Qed.

Lemma round_units_scale a b k :
  0 < b -> 0 < k -> round_units (a * k) (b * k) = round_units a b.
Proof.
  intros Hb Hk. unfold round_units. rewrite ?zdiv_eq.
  replace (Z.abs (a * k)) with (Z.abs a * k) by lia.
  rewrite Z.div_mul_cancel_r by lia. set (e := ulp_exp _).
  pose proof (pow2_pos e (ulp_exp_nonneg _)).
  replace (b * k * 2 ^ e) with (b * 2 ^ e * k) by lia.
  by rewrite rne_div_scale by nia.
Qed.

(** The magnitude that rounds stays inside its own binade, ends included. *)
Lemma round_units_binade a b :
  0 < b -> 0 <= a ->
  let e := ulp_exp (a / b) in
  (0 < e -> 2 ^ (52 + e) <= round_units a b) /\
  0 <= round_units a b <= 2 ^ (53 + e).
Proof.
  intros Hb Ha e. unfold round_units. rewrite ?zdiv_eq. rewrite (Z.abs_eq a) by lia. fold e.
  pose proof (ulp_exp_nonneg (a / b)) as He. fold e in He.
  pose proof (pow2_pos e He) as Hp.
  assert (0 <= a / b) as Hq by (apply Z.div_pos; lia).
  pose proof (Z.div_mod a b ltac:(lia)). pose proof (Z.mod_pos_bound a b Hb).
  rewrite !Z.pow_add_r by lia.
  split; [|split].
  - intros Hpos. pose proof (ulp_exp_lower (a / b) Hpos) as Hl. fold e in Hl.
    rewrite Z.pow_add_r in Hl by lia.
    rewrite <- (rne_div_exact (2 ^ 52) (b * 2 ^ e)) at 1 by nia.
    apply Z.mul_le_mono_nonneg_r; [lia|]. apply rne_div_mono; nia.
  - pose proof (rne_div_mono 0 a (b * 2 ^ e) ltac:(nia) Ha) as Hm.
    replace 0 with (0 * (b * 2 ^ e)) in Hm at 1 by lia.
    rewrite rne_div_exact in Hm by nia. nia.
  - pose proof (ulp_exp_upper (a / b) Hq) as Hu. fold e in Hu.
    rewrite Z.pow_add_r in Hu by lia.
    rewrite <- (rne_div_exact (2 ^ 53) (b * 2 ^ e)) by nia.
    apply Z.mul_le_mono_nonneg_r; [lia|]. apply rne_div_mono; nia.
Qed.

Lemma round_units_mono_nonneg a a' b :
  0 < b -> 0 <= a <= a' -> round_units a b <= round_units a' b.
Proof.
  intros Hb Ha.
  pose proof (Z.div_le_mono a a' b Hb ltac:(lia)) as Hq.
  destruct (Z.eq_dec (ulp_exp (a / b)) (ulp_exp (a' / b))) as [E|E].
  - unfold round_units. rewrite ?zdiv_eq. rewrite !Z.abs_eq, <- E by lia.
    pose proof (pow2_pos _ (ulp_exp_nonneg (a / b))).
    apply Z.mul_le_mono_nonneg_r; [lia|]. apply rne_div_mono; nia.
  - pose proof (ulp_exp_mono _ _ Hq). pose proof (ulp_exp_nonneg (a / b)).
    destruct (round_units_binade a b Hb ltac:(lia)) as [_ [_ H1]].
    destruct (round_units_binade a' b Hb ltac:(lia)) as [H2 _].
    etransitivity; [exact H1|]. etransitivity; [|apply H2; lia].
    apply Z.pow_le_mono_r; lia.
Qed.

Lemma round_units_mono a a' b :
  0 < b -> a <= a' -> round_units a b <= round_units a' b.
Proof.
  intros Hb Ha. destruct (Z.le_gt_cases 0 a).
  { apply round_units_mono_nonneg; lia. }
  destruct (Z.le_gt_cases 0 a') as [Ha'|Ha'].
  - transitivity 0; [|by apply round_units_binade].
    destruct (round_units_binade (- a) b Hb ltac:(lia)) as [_ [H1 _]].
    rewrite round_units_opp in H1; lia.
  - pose proof (round_units_mono_nonneg (- a') (- a) b Hb ltac:(lia)) as H1.
    rewrite !round_units_opp in H1; lia.
Qed.

(** Rounding moves a value by at most half a unit, or by at most one part in
    [2 ^ 53]. *)
Lemma round_units_err a b :
  0 < b ->
  2 * Z.abs (round_units a b * b - a) <= b \/
  2 ^ 53 * Z.abs (round_units a b * b - a) <= Z.abs a.
Proof.
  intros Hb. unfold round_units. rewrite ?zdiv_eq. set (e := ulp_exp _).
  assert (0 <= e) as He by apply ulp_exp_nonneg.
  pose proof (pow2_pos e He) as Hp.
  pose proof (rne_div_bound a (b * 2 ^ e) ltac:(nia)) as Hr.
  destruct (Z.eq_dec e 0) as [E|E].
  - left. rewrite E in *. rewrite Z.pow_0_r, !Z.mul_1_r in *. lia.
  - right. pose proof (ulp_exp_lower (Z.abs a / b) ltac:(fold e; lia)) as Hl.
    fold e in Hl. rewrite Z.pow_add_r in Hl by lia.
    pose proof (Z.mul_div_le (Z.abs a) b Hb).
    change (2 ^ 53) with (2 * 2 ^ 52). nia.
Qed.

Lemma is_dbl_round a b : 0 < b -> is_dbl (round_units a b).
Proof.
  intros Hb. unfold round_units. rewrite ?zdiv_eq. set (e := ulp_exp _).
  exists (rne_div a (b * 2 ^ e)), e.
  assert (0 <= e) as He by apply ulp_exp_nonneg. split_and!; [done| |done].
  pose proof (pow2_pos e He) as Hp.
  pose proof (ulp_exp_upper (Z.abs a / b) ltac:(apply Z.div_pos; lia)) as Hu.
  fold e in Hu. rewrite Z.pow_add_r in Hu by lia.
  pose proof (Z.div_mod (Z.abs a) b ltac:(lia)).
  pose proof (Z.mod_pos_bound (Z.abs a) b Hb).
  assert (Z.abs a <= 2 ^ 53 * (b * 2 ^ e)) as Hm by nia.
  assert (0 < b * 2 ^ e) as Hd by nia.
  pose proof (rne_div_mono a (2 ^ 53 * (b * 2 ^ e)) _ Hd ltac:(lia)) as H1.
  pose proof (rne_div_mono (- 2 ^ 53 * (b * 2 ^ e)) a _ Hd ltac:(lia)) as H2.
  rewrite rne_div_exact in H1, H2 by nia. unfold safe. lia.
Qed.

Lemma round_units_exact m b : 0 < b -> is_dbl m -> round_units (m * b) b = m.
Proof.
  intros Hb (k & e & He & Hk & ->). unfold round_units. rewrite ?zdiv_eq.
  replace (Z.abs (k * 2 ^ e * b) / b) with (Z.abs k * 2 ^ e).
  2:{ pose proof (pow2_pos e He).
      replace (Z.abs (k * 2 ^ e * b)) with (Z.abs k * 2 ^ e * b) by lia.
      by rewrite Z.div_mul by lia. }
  set (q := Z.abs k * 2 ^ e). set (e' := ulp_exp q).
  assert (0 <= e') as He' by apply ulp_exp_nonneg.
  assert (exists j, k * 2 ^ e = j * 2 ^ e') as [j Hj].
  { destruct (Z.le_gt_cases e' e) as [H|H].
    - exists (k * 2 ^ (e - e')). rewrite <- Z.mul_assoc, <- Z.pow_add_r by lia.
      do 2 f_equal. lia.
    - pose proof (ulp_exp_lower q ltac:(fold e'; lia)) as Hl. fold e' in Hl.
      unfold q, safe in *. pose proof (pow2_pos e He).
      assert (2 ^ (52 + e') <= 2 ^ (53 + e)).
      { rewrite (Z.pow_add_r 2 53 e) by lia. nia. }
      apply Z.pow_le_mono_r_iff in H1; [|lia..].
      assert (e' = e + 1) as Ee by lia. rewrite Ee in *.
      replace (52 + (e + 1)) with (53 + e) in Hl by lia.
      rewrite (Z.pow_add_r 2 53 e) in Hl by lia.
      assert (Z.abs k = 2 ^ 53) by nia.
      exists (Z.sgn k * 2 ^ 52). rewrite Z.pow_add_r by lia.
      rewrite <- (Z.abs_sgn k) at 1. nia. }
  pose proof (pow2_pos e' He').
  rewrite Hj. replace (j * 2 ^ e' * b) with (j * (b * 2 ^ e')) by lia.
  by rewrite rne_div_exact by nia.
Qed.

(** ** Facts about results *)

Lemma round_ratio_finite a b :
  Z.abs (round_units a b) < overflow_units ->
  round_ratio a b = Fin (round_units a b).
Proof. intros H. unfold round_ratio. by rewrite (proj2 (Z.ltb_lt _ _) H). Qed.

Lemma wf_round_ratio a b : 0 < b -> wf_num (round_ratio a b).
Proof.
  intros Hb. unfold round_ratio. destruct (Z.ltb_spec (Z.abs (round_units a b)) overflow_units); [|done].
  split; [by apply is_dbl_round|done].
Qed.

Lemma rnd_exact m : wf_num (Fin m) -> rnd m = Fin m.
Proof.
  intros [Hm Hb]. unfold rnd.
  pose proof (round_units_exact m 1 ltac:(lia) Hm) as E. rewrite Z.mul_1_r in E.
  rewrite round_ratio_finite; by rewrite E.
Qed.

Lemma round_ratio_mono a a' b :
  0 < b -> a <= a' -> leb (round_ratio a b) (round_ratio a' b) = true.
Proof.
  intros Hb Ha. pose proof (round_units_mono a a' b Hb Ha). unfold round_ratio.
  destruct (Z.ltb_spec (Z.abs (round_units a b)) overflow_units),
    (Z.ltb_spec (Z.abs (round_units a' b)) overflow_units); simpl.
  - by apply Z.leb_le.
  - rewrite (proj2 (Z.ltb_ge _ _)); [done|lia].
  - rewrite (proj2 (Z.ltb_lt _ _)); [done|lia].
  - destruct (Z.ltb_spec (round_units a b) 0),
      (Z.ltb_spec (round_units a' b) 0); simpl; try done; lia.
Qed.

Lemma round_ratio_scale a b k :
  0 < b -> 0 < k -> round_ratio (a * k) (b * k) = round_ratio a b.
Proof. intros. unfold round_ratio. by rewrite round_units_scale. Qed.

Lemma is_dbl_int z : safe z -> is_dbl (z * unit1).
Proof. intros Hz. exists z, 1074. rewrite unit1_pow. done. Qed.

Lemma safe_no_overflow z : safe z -> Z.abs (z * unit1) < overflow_units.
Proof.
  unfold safe. intros Hz. rewrite overflow_units_eq.
  assert (unit1 * 2 ^ 1024 = 2 ^ 2098) by reflexivity.
  pose proof unit1_pos. assert (2 ^ 53 < 2 ^ 1024) by reflexivity. nia.
Qed.

Lemma wf_int z : safe z -> wf_num (int z).
Proof. intros Hz. split; [by apply is_dbl_int|by apply safe_no_overflow]. Qed.

Lemma rnd_int z : safe z -> rnd (z * unit1) = int z.
Proof. intros Hz. apply rnd_exact, wf_int, Hz. Qed.

Lemma wf_neg x : wf_num x -> wf_num (neg x).
Proof.
  destruct x as [| |m]; simpl; try done. intros [(k & e & He & Hk & ->) Hb].
  split; [|lia]. exists (- k), e. unfold safe in *. split_and!; lia.
Qed.

Lemma wf_add x y : wf_num (add x y).
Proof.
  destruct x as [|s|a], y as [|t|b]; simpl; try done.
  - by destruct (Bool.eqb s t).
  - by apply wf_round_ratio.
Qed.

Lemma wf_sub x y : wf_num (sub x y).
Proof. apply wf_add. Qed.

Lemma wf_mul x y : wf_num (mul x y).
Proof.
  destruct x as [|s|a], y as [|t|b]; simpl; try done.
  - by destruct (b =? 0).
  - by destruct (a =? 0).
  - apply wf_round_ratio, unit1_pos.
Qed.

Lemma wf_div x y : wf_num (div x y).
Proof.
  destruct x as [|s|a], y as [|t|b]; simpl; try done.
  - split; [exists 0, 0; done|done].
  - destruct (Z.eqb_spec b 0); [by destruct (a =? 0)|].
    apply wf_round_ratio. lia.
Qed.

#[export] Hint Resolve wf_int wf_neg wf_add wf_sub wf_mul wf_div : num.

(** ** The integer regime: safe integers compute exactly *)

Lemma add_int a b : safe (a + b) -> (int a + int b)%num = int (a + b).
Proof. intros H. simpl. rewrite <- Z.mul_add_distr_r. by apply rnd_int. Qed.

Lemma neg_int a : (- int a)%num = int (- a).
Proof. simpl. unfold int. f_equal. lia. Qed.

Lemma sub_int a b : safe (a - b) -> (int a - int b)%num = int (a - b).
Proof. intros H. unfold sub. rewrite neg_int, add_int; [done|by rewrite Z.add_opp_r]. Qed.

Lemma mul_int a b : safe (a * b) -> (int a * int b)%num = int (a * b).
Proof.
  intros H. simpl. pose proof unit1_pos.
  replace (a * unit1 * (b * unit1)) with (a * b * unit1 * unit1) by lia.
  rewrite round_ratio_finite; rewrite round_units_exact; auto using is_dbl_int.
  by apply safe_no_overflow.
Qed.

Lemma ltb_int a b : (int a <? int b)%num = (a <? b).
Proof.
  pose proof unit1_pos. simpl. apply Bool.eq_iff_eq_true. rewrite !Z.ltb_lt. nia.
Qed.

Lemma leb_int a b : (int a <=? int b)%num = (a <=? b).
Proof.
  pose proof unit1_pos. simpl. apply Bool.eq_iff_eq_true. rewrite !Z.leb_le. nia.
Qed.

Lemma gtb_int a b : (int a >? int b)%num = (b <? a).
Proof. apply ltb_int. Qed.

Lemma geb_int a b : (int a >=? int b)%num = (b <=? a).
Proof. apply leb_int. Qed.

#[export] Instance int_inj : Inj (=) (=) int.
Proof. intros a b [= H]. pose proof unit1_pos. nia. Qed.

Lemma eqb_int a b : (int a =? int b)%num = (a =? b).
Proof.
  change (bool_decide (int a = int b) = (a =? b)).
  destruct (Z.eqb_spec a b) as [->|]; case_bool_decide; naive_solver.
Qed.

Lemma fmax_int a b : fmax (int a) (int b) = int (Z.max a b).
Proof.
  change (fmax (int a) (int b)) with (if (int a <? int b)%num then int b else int a).
  rewrite ltb_int. destruct (Z.ltb_spec a b); f_equal; lia.
Qed.

Lemma fmin_int a b : fmin (int a) (int b) = int (Z.min a b).
Proof.
  change (fmin (int a) (int b)) with (if (int b <? int a)%num then int b else int a).
  rewrite ltb_int. destruct (Z.ltb_spec b a); f_equal; lia.
Qed.

Lemma floor_int a : floor (int a) = int a.
Proof. simpl. rewrite zdiv_eq. pose proof unit1_pos. by rewrite Z.div_mul by lia. Qed.

Lemma ceil_int a : ceil (int a) = int a.
Proof.
  simpl. rewrite zdiv_eq. pose proof unit1_pos. unfold int. f_equal.
  rewrite <- Z.mul_opp_l, Z.div_mul by lia. lia.
Qed.

Lemma ceil_Fin a : ceil (Fin a) = Fin (- (- a / unit1) * unit1).
Proof. unfold ceil. by rewrite zdiv_eq. Qed.

Lemma trunc_int a : trunc (int a) = int a.
Proof. simpl. pose proof unit1_pos. unfold int. by rewrite Z.quot_mul by lia. Qed.

Lemma isSafeInteger_int a : isSafeInteger (int a) = (Z.abs a <=? max_safe).
Proof.
  pose proof unit1_pos. simpl. rewrite zmod_eq, Z.mod_mul by lia. simpl.
  apply Bool.eq_iff_eq_true. rewrite !Z.leb_le. nia.
Qed.

Lemma isSafeInteger_inv x :
  isSafeInteger x = true -> exists z, x = int z /\ Z.abs z <= max_safe.
Proof.
  destruct x as [| |m]; try done. simpl. rewrite zmod_eq. pose proof unit1_pos.
  rewrite andb_true_iff, Z.eqb_eq, Z.leb_le. intros [H1 H2].
  apply Z.mod_divide in H1 as [z ->]; [|lia]. exists z. split; [done|nia].
Qed.

(** The quotient of two positive safe integers, rounded: off by less than what
    could carry it past a neighbouring integer. *)
Lemma div_int_units a b :
  0 < b -> (int a / int b)%num = round_ratio (a * unit1) b.
Proof.
  intros Hb. pose proof unit1_pos. simpl. rewrite (proj2 (Z.eqb_neq _ _)) by nia.
  replace (Z.sgn (b * unit1)) with 1 by nia.
  replace (Z.abs (b * unit1)) with (b * unit1) by nia.
  rewrite Z.mul_1_l. by apply round_ratio_scale.
Qed.

Lemma div_int_err a b :
  0 < b <= max_safe -> Z.abs a <= max_safe ->
  Z.abs (round_units (a * unit1) b * b - a * unit1) < unit1.
Proof.
  intros Hb Ha. unfold max_safe in *.
  assert (2 ^ 53 < unit1) by reflexivity.
  destruct (round_units_err (a * unit1) b ltac:(lia)); nia.
Qed.

Lemma div_int_finite a b :
  0 < b <= max_safe -> Z.abs a <= max_safe ->
  (int a / int b)%num = Fin (round_units (a * unit1) b).
Proof.
  intros Hb Ha. rewrite div_int_units by lia. apply round_ratio_finite.
  pose proof (div_int_err a b Hb Ha).
  pose proof (safe_no_overflow (2 ^ 53) ltac:(done)) as Ho.
  unfold max_safe in *. pose proof unit1_pos. nia.
Qed.

Lemma floor_div_int a b :
  0 < b <= max_safe -> Z.abs a <= max_safe ->
  floor (int a / int b)%num = int (a / b).
Proof.
  intros Hb Ha. rewrite div_int_finite by done. simpl. rewrite zdiv_eq. unfold int. do 2 f_equal.
  pose proof (div_int_err a b Hb Ha) as He. pose proof unit1_pos as Hu.
  pose proof (Z.mul_div_le a b ltac:(lia)) as H1.
  pose proof (Z.mul_succ_div_gt a b ltac:(lia)) as H2.
  assert (safe (a / b)) as Hs.
  { unfold safe, max_safe in *. nia. }
  pose proof (round_units_mono (a / b * unit1 * b) (a * unit1) b ltac:(lia) ltac:(nia)) as Hm.
  rewrite round_units_exact in Hm by (lia || by apply is_dbl_int).
  symmetry. apply Z.div_unique with (round_units (a * unit1) b - a / b * unit1); [|lia].
  left. split; [lia|]. nia.
Qed.

Lemma ceil_div_int a b :
  0 < b <= max_safe -> Z.abs a <= max_safe ->
  ceil (int a / int b)%num = int (- (- a / b)).
Proof.
  intros Hb Ha.
  pose proof (floor_div_int (- a) b Hb ltac:(lia)) as Hf.
  rewrite div_int_finite in Hf |- * by lia. simpl in *. rewrite zdiv_eq in *. unfold int in *.
  injection Hf as Hf. f_equal. pose proof unit1_pos.
  replace (- a * unit1) with (- (a * unit1)) in Hf by lia.
  rewrite round_units_opp in Hf by lia. nia.
Qed.

(** ** Order *)

Lemma leb_trans a b c : (a <=? b)%num = true -> (b <=? c)%num = true -> (a <=? c)%num = true.
Proof.
  unfold leb. destruct a as [|[]|a], b as [|[]|b], c as [|[]|c]; try done.
  rewrite !Z.leb_le. lia.
Qed.

Lemma leb_neg_ltb x y : isFinite x = true -> isFinite y = true -> leb x y = negb (y <? x)%num.
Proof. destruct x, y; try done. intros _ _. unfold leb, ltb. by rewrite Z.leb_antisym. Qed.

Lemma ltb_neg_leb x y : isFinite x = true -> isFinite y = true -> (x <? y)%num = negb (y <=? x)%num.
Proof. destruct x, y; try done. intros _ _. unfold leb, ltb. by rewrite Z.ltb_antisym. Qed.

Lemma ltb_false_trans (c b n : num) : (n <? b)%num = true -> (c <? b)%num = false -> (c <? n)%num = false.
Proof.
  unfold ltb. destruct c as [|[]|c], b as [|[]|b], n as [|[]|n]; try done; simpl.
  intros H1 H2. apply Z.ltb_lt in H1. apply Z.ltb_ge in H2. apply Z.ltb_ge. lia.
Qed.

Lemma ltb_irrefl (x : num) : (x <? x)%num = false.
Proof. unfold ltb. destruct x as [|[]|x]; try done. apply Z.ltb_irrefl. Qed.

(** * Order facts about JavaScript numbers

    Transitivity, bounds and extrema over all doubles, the infinities and [NaN]
    included. *)
Local Open Scope num_scope.

(** ** Numbers above a positive one *)

Lemma leb_refl_num x : isNaN x = false -> (x <=? x) = true.
Proof. destruct x as [| [] |]; simpl; try done. intros _. by apply Z.leb_le. Qed.

Lemma ltb_leb_trans a b c : (a <? b) = true -> (b <=? c) = true -> (a <? c) = true.
Proof.
  destruct a as [| [] |], b as [| [] |], c as [| [] |]; simpl; try done; intros H1 H2;
    apply Z.ltb_lt in H1; apply Z.leb_le in H2;
    apply Z.ltb_lt; lia.
Qed.

Lemma ltb_not_nan a b : (a <? b) = true -> isNaN a = false /\ isNaN b = false.
Proof. destruct a, b; simpl; done. Qed.

Lemma leb_not_nan a b : (a <=? b) = true -> isNaN a = false /\ isNaN b = false.
Proof. destruct a, b; simpl; done. Qed.

Lemma fmax_ge x y : isNaN x = false -> isNaN y = false -> (x <=? fmax x y) = true /\ (y <=? fmax x y) = true.
Proof.
  destruct x as [|s|a], y as [|t|b]; simpl; try done; intros _ _.
  - destruct s, t; done.
  - destruct s; simpl; split; try done; apply Z.leb_refl.
  - destruct t; simpl; split; try done; apply Z.leb_refl.
  - unfold fmax, ltb. destruct (Z.ltb_spec a b); split; apply Z.leb_le; lia.
Qed.

(** A whole multiple of a positive number is no less. *)
Lemma mul_int_ge k x :
  (1 <= k)%Z -> wf_num x -> (int 0 <? x) = true -> (x <=? int k * x) = true.
Proof.
  intros Hk Hwf Hx. pose proof unit1_pos as Hu. destruct x as [|s|b]; [done| |].
  - simpl in Hx. destruct s; [done|]. unfold mul, int.
    destruct (Z.eqb_spec (k * unit1) 0); [nia|]. destruct (Z.ltb_spec (k * unit1) 0); [nia|done].
  - unfold ltb, int in Hx. apply Z.ltb_lt in Hx. unfold mul, int.
    assert (Hone : round_ratio (b * unit1) unit1 = Fin b).
    { pose proof (round_ratio_scale b 1 unit1 ltac:(lia) Hu) as E. rewrite Z.mul_1_l in E.
      rewrite E. by apply rnd_exact. }
    rewrite <-Hone at 1. apply round_ratio_mono; [done|]. nia.
Qed.

Lemma fmin_either x y : isNaN x = false -> isNaN y = false -> fmin x y = x \/ fmin x y = y.
Proof. destruct x, y; try done; unfold fmin; destruct (ltb _ _); by auto. Qed.

Lemma fmax_either x y : isNaN x = false -> isNaN y = false -> fmax x y = x \/ fmax x y = y.
Proof. destruct x, y; try done; unfold fmax; destruct (ltb _ _); by auto. Qed.

Lemma leb_trans_num a b c : (a <=? b) = true -> (b <=? c) = true -> (a <=? c) = true.
Proof.
  destruct a as [| [] |], b as [| [] |], c as [| [] |]; simpl; try done. intros H1 H2.
  apply Z.leb_le in H1, H2. apply Z.leb_le. lia.
Qed.
