(* ===== verification/JsString.v ===== *)
(** * JavaScript strings and the number conversions

    A JS string is a Rocq [string] whose characters are UTF-16 code units
    below 256.  Holds the parts of the language's library the program uses:
    [String(n)], [Number(s)], [parseFloat], [parseInt(s, 10)], [trim] and the
    few string tests, with the theorem that [Number] reads back what [String]
    wrote. *)
From S2P Require Import Prelude JsNumber.
Local Open Scope Z_scope.

(** ** Characters *)

Definition code (c : ascii) : Z := Z.of_N (N_of_ascii c).

Definition is_space (c : ascii) : bool :=
  ((9 <=? code c) && (code c <=? 13)) || (code c =? 32) || (code c =? 160).

Definition char_digit (c : ascii) : option Z :=
  if (48 <=? code c) && (code c <=? 57) then Some (code c - 48) else None.

Definition digit_char (d : Z) : ascii := ascii_of_N (Z.to_N (48 + d)).

(** ** String operations *)

Fixpoint trimStart (s : string) : string :=
  match s with
  | EmptyString => EmptyString
  | String c s' => if is_space c then trimStart s' else s
  end.

Definition trim (s : string) : string :=
  String.rev (trimStart (String.rev (trimStart s))).

Fixpoint startsWith (p s : string) : bool :=
  match p, s with
  | EmptyString, _ => true
  | String a p', String b s' => bool_decide (a = b) && startsWith p' s'
  | String _ _, EmptyString => false
  end.

Fixpoint drop_prefix (p s : string) : option string :=
  match p, s with
  | EmptyString, _ => Some s
  | String a p', String b s' =>
      if bool_decide (a = b) then drop_prefix p' s' else None
  | String _ _, EmptyString => None
  end.

Fixpoint includes_char (c : ascii) (s : string) : bool :=
  match s with
  | EmptyString => false
  | String a s' => bool_decide (a = c) || includes_char c s'
  end.

Definition lower (c : ascii) : ascii :=
  if (65 <=? code c) && (code c <=? 90)
  then ascii_of_N (Z.to_N (code c + 32)) else c.

Fixpoint toLowerCase (s : string) : string :=
  match s with
  | EmptyString => EmptyString
  | String c s' => String (lower c) (toLowerCase s')
  end.

(** ** Decimal digits, most significant first *)

Fixpoint digits_aux (fuel : nat) (z : Z) (acc : list Z) : list Z :=
  match fuel with
  | O => acc
  | S f => let acc' := (z mod 10) :: acc in
           if z / 10 =? 0 then acc' else digits_aux f (z / 10) acc'
  end.

Definition digits (z : Z) : list Z := digits_aux (S (Z.to_nat (Z.log2 z))) z [].

Definition dval (l : list Z) : Z := fold_left (fun a d => a * 10 + d) l 0.

Fixpoint str_of_digits (l : list Z) : string :=
  match l with
  | [] => EmptyString
  | d :: l' => String (digit_char d) (str_of_digits l')
  end.

Fixpoint read_digits (s : string) : list Z * string :=
  match s with
  | EmptyString => ([], s)
  | String c s' =>
      match char_digit c with
      | Some d => let '(l, r) := read_digits s' in (d :: l, r)
      | None => ([], s)
      end
  end.

(** ** Reading a number *)

Definition num_of_decimal (m e : Z) : num :=
  if 0 <=? e then round_ratio (m * 10 ^ e * unit1) 1
  else round_ratio (m * unit1) (10 ^ (- e)).

Definition read_sign (s : string) : bool * string :=
  match s with
  | String "-" s' => (true, s')
  | String "+" s' => (false, s')
  | _ => (false, s)
  end.

(** An unsigned decimal literal at the head of [s]: its digits as one integer,
    the power of ten to scale them by, and the rest. *)
Definition read_decimal (s : string) : option (Z * Z * string) :=
  let '(ip, r1) := read_digits s in
  let '(fp, r2) :=
    match r1 with
    | String "." r => read_digits r
    | _ => ([], r1)
    end in
  match ip ++ fp with
  | [] => None
  | ds =>
      let e0 := - Z.of_nat (length fp) in
      let plain := Some (dval ds, e0, r2) in
      match r2 with
      | String ("e" | "E") r =>
          let '(sg, r3) := read_sign r in
          match read_digits r3 with
          | ([], _) => plain
          | (ep, r4) =>
              Some (dval ds, e0 + (if sg then - dval ep else dval ep), r4)
          end
      | _ => plain
      end
  end.

(** A signed decimal literal or [Infinity] at the head of [s]. *)
Definition read_signed (s : string) : option (num * string) :=
  let '(sg, s1) := read_sign s in
  match drop_prefix "Infinity" s1 with
  | Some r => Some (Inf sg, r)
  | None =>
      match read_decimal s1 with
      | Some (m, e, r) => Some (num_of_decimal (if sg then - m else m) e, r)
      | None => None
      end
  end.

Definition radix_digit (c : ascii) : option Z :=
  match char_digit c with
  | Some d => Some d
  | None =>
      let n := code (lower c) in
      if (97 <=? n) && (n <=? 122) then Some (n - 87) else None
  end.

Fixpoint read_radix (b acc : Z) (s : string) : option Z :=
  match trimStart s with
  | EmptyString => Some acc
  | _ =>
      match s with
      | EmptyString => Some acc
      | String c s' =>
          match radix_digit c with
          | Some d => if d <? b then read_radix b (acc * b + d) s' else None
          | None => None
          end
      end
  end.

(** [0x], [0o] and [0b] literals, which take no sign. *)
Definition read_prefixed (s : string) : option num :=
  match s with
  | String "0" (String p (String c s')) =>
      let b := match p with
               | "x"%char | "X"%char => 16
               | "o"%char | "O"%char => 8
               | "b"%char | "B"%char => 2
               | _ => 0
               end in
      if (b =? 0) || is_space c then None
      else option_map (fun z => rnd (z * unit1)) (read_radix b 0 (String c s'))
  | _ => None
  end.

(** [Number(s)]. *)
Definition Number (s : string) : num :=
  match trimStart s with
  | EmptyString => int 0
  | s1 =>
      match read_prefixed s1 with
      | Some x => x
      | None =>
          match read_signed s1 with
          | Some (x, r) =>
              match trimStart r with EmptyString => x | _ => NaN end
          | None => NaN
          end
      end
  end.

Definition parseFloat (s : string) : num :=
  match read_signed (trimStart s) with Some (x, _) => x | None => NaN end.

(** [parseInt(s, 10)]. *)
Definition parseInt (s : string) : num :=
  let '(sg, s1) := read_sign (trimStart s) in
  match read_digits s1 with
  | ([], _) => NaN
  | (ds, _) => rnd ((if sg then - dval ds else dval ds) * unit1)
  end.

(** ** Writing a number *)

(** How many leading zeros follow the point of a value below one tenth. *)
Fixpoint lead_zeros (fuel : nat) (m : Z) : Z :=
  match fuel with
  | O => 0
  | S f => if m * 10 <? unit1 then 1 + lead_zeros f (m * 10) else 0
  end.

(** The [n] with [10^(n-1) <= m * 2^-1074 < 10^n]. *)
Definition dec_exp (m : Z) : Z :=
  if m <? unit1 then - lead_zeros 1100 m
  else Z.of_nat (length (digits (m / unit1))).

Fixpoint drop_zeros (fuel : nat) (s e : Z) : Z * Z :=
  match fuel with
  | O => (s, e)
  | S f => if s mod 10 =? 0 then drop_zeros f (s / 10) (e + 1) else (s, e)
  end.

(** The decimals of [k] significant digits on either side of [m], nearest
    first. *)
Definition candidates (m n k : Z) : list (Z * Z) :=
  let e := n - k in
  let '(a, b) := if 0 <=? e then (m, unit1 * 10 ^ e) else (m * 10 ^ (- e), unit1) in
  map (fun s => drop_zeros 20 s e) [rne_div a b; a / b; a / b + 1].

Definition reads_as (m : Z) (c : Z * Z) : bool :=
  (0 <? fst c) && bool_decide (num_of_decimal (fst c) (snd c) = Fin m).

(** The shortest decimal that reads back as [m], by the number of digits; the
    last resort is the exact value. *)
Fixpoint shortest_from (fuel : nat) (m n k : Z) : Z * Z :=
  match fuel with
  | O => (m * 5 ^ 1074, - 1074)
  | S f =>
      match List.find (reads_as m) (candidates m n k) with
      | Some c => c
      | None => shortest_from f m n (k + 1)
      end
  end.

(** A safe integer is its own digits without the trailing zeros: no other
    integer reads back as it. *)
Definition shortest (m : Z) : Z * Z :=
  if (zmod m unit1 =? 0) && (zdiv m unit1 <=? max_safe)
  then drop_zeros 20 (zdiv m unit1) 0
  else shortest_from 17 m (dec_exp m) 1.

Definition zeros (n : Z) : list Z := replicate (Z.to_nat n) 0.

(** The layout of [Number::toString], steps 6 to 10. *)
Definition layout (s e : Z) : string :=
  let ds := digits s in
  let k := Z.of_nat (length ds) in
  let n := e + k in
  if (k <=? n) && (n <=? 21) then str_of_digits (ds ++ zeros (n - k))
  else if (0 <? n) && (n <=? 21) then
    str_of_digits (take (Z.to_nat n) ds) +:+ "." +:+ str_of_digits (drop (Z.to_nat n) ds)
  else if (-6 <? n) && (n <=? 0) then
    "0." +:+ str_of_digits (zeros (- n) ++ ds)
  else
    str_of_digits (take 1 ds)
    +:+ (if k =? 1 then "" else "." +:+ str_of_digits (drop 1 ds))
    +:+ "e" +:+ (if 0 <? n then "+" else "-")
    +:+ str_of_digits (digits (Z.abs (n - 1))).

Definition pos_to_string (m : Z) : string :=
  let '(s, e) := shortest m in layout s e.

(** [String(x)] for a number. *)
Definition num_to_string (x : num) : string :=
  match x with
  | NaN => "NaN"
  | Inf false => "Infinity"
  | Inf true => "-Infinity"
  | Fin m =>
      if m =? 0 then "0"
      else if m <? 0 then "-" +:+ pos_to_string (- m)
      else pos_to_string m
  end.


(** ** Digits *)

Definition is_digit (d : Z) : Prop := 0 <= d < 10.

Lemma char_digit_char d : is_digit d -> char_digit (digit_char d) = Some d.
Proof.
  unfold is_digit. intros Hd.
  assert (d = 0 \/ d = 1 \/ d = 2 \/ d = 3 \/ d = 4 \/ d = 5 \/ d = 6 \/ d = 7
          \/ d = 8 \/ d = 9) as H by lia.
  by destruct_or! H; subst.
Qed.

Lemma fold_dval l a :
  fold_left (fun a d => a * 10 + d) l a = a * 10 ^ Z.of_nat (length l) + dval l.
Proof.
  unfold dval. revert a. induction l as [|d l IH]; intros a; cbn [fold_left length].
  - simpl. lia.
  - rewrite IH, (IH (0 * 10 + d)), Nat2Z.inj_succ, Z.pow_succ_r by lia. lia.
Qed.

Lemma dval_app l1 l2 : dval (l1 ++ l2) = dval l1 * 10 ^ Z.of_nat (length l2) + dval l2.
Proof. unfold dval at 1. by rewrite fold_left_app, fold_dval. Qed.

Lemma dval_snoc l d : dval (l ++ [d]) = dval l * 10 + d.
Proof. rewrite dval_app. done. Qed.

Lemma dval_zeros n : dval (zeros n) = 0.
Proof.
  unfold zeros. induction (Z.to_nat n) as [|k IH]; [done|].
  rewrite replicate_S_end, dval_snoc, IH. done.
Qed.

Lemma digits_aux_spec fuel z acc :
  0 <= z < 2 ^ Z.of_nat fuel ->
  exists l, digits_aux fuel z acc = l ++ acc /\ dval l = z /\ Forall is_digit l /\
            (fuel <> O -> l <> []).
Proof.
  revert z acc. induction fuel as [|f IH]; intros z acc Hz.
  { exists []. simpl in *. split_and!; try done. unfold dval; simpl. lia. }
  cbn [digits_aux]. rewrite Nat2Z.inj_succ, Z.pow_succ_r in Hz by lia.
  pose proof (Z.mod_pos_bound z 10 ltac:(lia)) as Hm.
  pose proof (Z.div_mod z 10 ltac:(lia)) as Hd.
  destruct (Z.eqb_spec (z / 10) 0) as [E|E].
  - exists [z mod 10]. split_and!; try done.
    + unfold dval; simpl. lia.
    + by constructor.
  - destruct (IH (z / 10) (z mod 10 :: acc)) as (l & -> & Hl & Hf & _); [lia|].
    exists (l ++ [z mod 10]). split_and!.
    + by rewrite <- app_assoc.
    + rewrite dval_snoc, Hl. lia.
    + apply Forall_app. split; [done|by apply Forall_singleton].
    + by destruct l.
Qed.

Lemma digits_spec z :
  0 <= z -> dval (digits z) = z /\ Forall is_digit (digits z) /\ digits z <> [].
Proof.
  intros Hz. destruct (digits_aux_spec (S (Z.to_nat (Z.log2 z))) z []) as (l & E & ? & ? & ?).
  { split; [done|]. rewrite Nat2Z.inj_succ, Z2Nat.id by apply Z.log2_nonneg.
    destruct (Z.eq_dec z 0) as [->|]; [done|]. apply Z.log2_spec. lia. }
  unfold digits. rewrite E, app_nil_r. auto.
Qed.

(** A string that does not continue a run of digits. *)
Definition ends_digits (s : string) : Prop :=
  match s with EmptyString => True | String c _ => char_digit c = None end.

Lemma read_digits_str l r :
  Forall is_digit l -> ends_digits r ->
  read_digits (str_of_digits l +:+ r) = (l, r).
Proof.
  intros Hl Hr. induction Hl as [|d l Hd Hl IH].
  - destruct r as [|c r]; [done|]. change (read_digits (String c r) = ([], String c r)).
    simpl in *. by rewrite Hr.
  - change (str_of_digits (d :: l) +:+ r) with (String (digit_char d) (str_of_digits l +:+ r)).
    cbn [read_digits]. rewrite char_digit_char by done. by rewrite IH.
Qed.

Lemma string_app_nil_r s : s +:+ "" = s.
Proof. induction s as [|c s IH]; [done|]. change (String c (s +:+ "") = String c s). by rewrite IH. Qed.

Lemma string_app_assoc s1 s2 s3 : s1 +:+ s2 +:+ s3 = (s1 +:+ s2) +:+ s3.
Proof.
  induction s1 as [|c s1 IH]; [done|].
  change (String c (s1 +:+ s2 +:+ s3) = String c ((s1 +:+ s2) +:+ s3)). by rewrite IH.
Qed.

Lemma str_of_digits_app l1 l2 : str_of_digits (l1 ++ l2) = str_of_digits l1 +:+ str_of_digits l2.
Proof.
  induction l1 as [|d l1 IH]; [done|].
  change (String (digit_char d) (str_of_digits (l1 ++ l2))
          = String (digit_char d) (str_of_digits l1 +:+ str_of_digits l2)). by rewrite IH.
Qed.

Lemma read_digits_all l : Forall is_digit l -> read_digits (str_of_digits l) = (l, "").
Proof. intros. rewrite <- (string_app_nil_r (str_of_digits l)). by apply read_digits_str. Qed.

(** ** Reading back a laid-out decimal *)

Lemma Forall_digit_zeros n : Forall is_digit (zeros n).
Proof. apply Forall_replicate. done. Qed.

Lemma length_zeros n : 0 <= n -> Z.of_nat (length (zeros n)) = n.
Proof. intros. unfold zeros. rewrite length_replicate. lia. Qed.

#[local] Hint Resolve Forall_digit_zeros Forall_take Forall_drop : core.

Lemma read_decimal_int l :
  Forall is_digit l -> l <> [] ->
  read_decimal (str_of_digits l) = Some (dval l, 0, "").
Proof.
  intros Hl Hn. unfold read_decimal. rewrite read_digits_all by done.
  rewrite app_nil_r. by destruct l.
Qed.

Lemma read_decimal_point l1 l2 :
  Forall is_digit l1 -> Forall is_digit l2 -> l1 ++ l2 <> [] ->
  read_decimal (str_of_digits l1 +:+ "." +:+ str_of_digits l2)
  = Some (dval (l1 ++ l2), - Z.of_nat (length l2), "").
Proof.
  intros H1 H2 Hn. unfold read_decimal.
  change ("." +:+ str_of_digits l2) with (String "." (str_of_digits l2)).
  rewrite read_digits_str by done. cbv iota. rewrite read_digits_all by done.
  by destruct (l1 ++ l2).
Qed.

(** The exponent part of a literal. *)
Definition exp_text (neg : bool) (le : list Z) : string :=
  String "e" (String (if neg then "-"%char else "+"%char) (str_of_digits le)).

Lemma read_exp_text (neg : bool) le :
  read_sign (String (if neg then "-"%char else "+"%char) (str_of_digits le))
  = (neg, str_of_digits le).
Proof. by destruct neg. Qed.

Lemma read_decimal_exp l1 l2 (neg : bool) le :
  Forall is_digit l1 -> l1 <> [] -> Forall is_digit l2 ->
  Forall is_digit le -> le <> [] ->
  read_decimal (str_of_digits l1
    +:+ (match l2 with [] => "" | _ => "." +:+ str_of_digits l2 end) +:+ exp_text neg le)
  = Some (dval (l1 ++ l2),
          - Z.of_nat (length l2) + (if neg then - dval le else dval le), "").
Proof.
  intros H1 Hn1 H2 He Hne. unfold read_decimal.
  destruct l2 as [|d l2].
  - change ("" +:+ exp_text neg le) with (exp_text neg le).
    rewrite read_digits_str by done. rewrite app_nil_r.
    unfold exp_text at 1. cbv iota. rewrite app_nil_r.
    destruct l1 as [|d1 l1]; [done|]. unfold exp_text.
    rewrite read_exp_text, read_digits_all by done. by destruct le.
  - rewrite <- string_app_assoc.
    change ("." +:+ ?x) with (String "." x).
    rewrite read_digits_str by done. cbv iota.
    rewrite read_digits_str by done.
    destruct (l1 ++ d :: l2) eqn:E; [by destruct l1|]. unfold exp_text.
    rewrite read_exp_text, read_digits_all by done. by destruct le.
Qed.

Lemma exp_text_plus le : "e" +:+ "+" +:+ str_of_digits le = exp_text false le.
Proof. done. Qed.

Lemma exp_text_minus le : "e" +:+ "-" +:+ str_of_digits le = exp_text true le.
Proof. done. Qed.

(** Two decimals with the same value. *)
Definition same_decimal (m k s e : Z) : Prop :=
  exists j, 0 <= j /\ m = s * 10 ^ j /\ k + j = e.

Lemma same_decimal_refl m k : same_decimal m k m k.
Proof. exists 0. split_and!; lia. Qed.

Lemma layout_fraction ds :
  ds <> [] ->
  (if Z.of_nat (length ds) =? 1 then "" else "." +:+ str_of_digits (drop 1 ds))
  = match drop 1 ds with [] => "" | _ => "." +:+ str_of_digits (drop 1 ds) end.
Proof.
  intros Hn. destruct ds as [|d [|d' ds]]; [done|done|].
  by rewrite (proj2 (Z.eqb_neq _ 1)) by (cbn [length]; lia).
Qed.

(** [layout s e] reads back as a decimal of the same value. *)
Lemma read_layout s e :
  0 < s ->
  exists m k, read_decimal (layout s e) = Some (m, k, "") /\ same_decimal m k s e.
Proof.
  intros Hs. destruct (digits_spec s ltac:(lia)) as (Hv & Hf & Hn).
  unfold layout. set (ds := digits s) in *. set (k := Z.of_nat (length ds)).
  set (n := e + k).
  assert (0 < k) as Hk by (destruct ds; [done|]; unfold k; simpl; lia).
  destruct (Z.leb_spec k n), (Z.leb_spec n 21), (Z.ltb_spec 0 n),
    (Z.ltb_spec (-6) n), (Z.leb_spec n 0); simpl; try lia.
  all: try (rewrite read_decimal_int;
    [|apply Forall_app; auto|by destruct ds];
    do 2 eexists; split; [done|]; exists (n - k);
    rewrite dval_app, dval_zeros, Hv, length_zeros by lia; lia).
  all: try (rewrite read_decimal_point; rewrite ?take_drop; auto;
    do 2 eexists; split; [done|]; exists 0; rewrite Hv, length_drop; lia).
  all: try (
    change ("0." +:+ str_of_digits (zeros (- n) ++ ds))
      with (str_of_digits [0] +:+ "." +:+ str_of_digits (zeros (- n) ++ ds));
    rewrite read_decimal_point; [|by repeat constructor|apply Forall_app; auto|done];
    do 2 eexists; split; [done|]; exists 0;
    rewrite !dval_app, dval_zeros, Hv, length_app, Nat2Z.inj_add, length_zeros by lia;
    change (dval [0]) with 0; lia).
  all: unfold k; rewrite layout_fraction by done; fold k.
  all: rewrite ?exp_text_plus, ?exp_text_minus; destruct (digits_spec (Z.abs (n - 1)) ltac:(lia)) as (Hv' & Hf' & Hn').
  all: rewrite ?(read_decimal_exp (take 1 ds) (drop 1 ds) false),
    ?(read_decimal_exp (take 1 ds) (drop 1 ds) true), ?take_drop; auto;
    try (by destruct ds).
  all: do 2 eexists; split; [done|]; exists 0; rewrite Hv, Hv', length_drop; lia.
Qed.

(** ** [Number] reads back what [String] wrote *)

Lemma round_ratio_opp a b : 0 < b -> round_ratio (- a) b = (- round_ratio a b)%num.
Proof.
  intros Hb. unfold round_ratio. rewrite round_units_opp, Z.abs_opp by done.
  destruct (Z.ltb_spec (Z.abs (round_units a b)) overflow_units) as [|Ho]; [done|].
  assert (0 < overflow_units) by done. simpl. f_equal.
  destruct (Z.ltb_spec (- round_units a b) 0), (Z.ltb_spec (round_units a b) 0); simpl; lia.
Qed.

Lemma pow10_pos e : 0 <= e -> 0 < 10 ^ e.
Proof. intros. apply Z.pow_pos_nonneg; lia. Qed.

Lemma num_of_decimal_opp m e : num_of_decimal (- m) e = (- num_of_decimal m e)%num.
Proof.
  unfold num_of_decimal. destruct (Z.leb_spec 0 e).
  - rewrite <- round_ratio_opp by lia. f_equal. lia.
  - rewrite <- round_ratio_opp by (apply pow10_pos; lia). f_equal. lia.
Qed.

Lemma num_of_decimal_same m k s e :
  same_decimal m k s e -> num_of_decimal m k = num_of_decimal s e.
Proof.
  intros (j & Hj & -> & <-). unfold num_of_decimal.
  pose proof (pow10_pos j Hj).
  destruct (Z.leb_spec 0 k), (Z.leb_spec 0 (k + j)); try lia.
  - rewrite Z.pow_add_r by lia. f_equal. lia.
  - pose proof (pow10_pos (- k) ltac:(lia)).
    rewrite <- (round_ratio_scale (s * 10 ^ (k + j) * unit1) 1 (10 ^ (- k))) by lia.
    f_equal; [|lia]. replace j with ((k + j) + - k) at 1 by lia.
    rewrite Z.pow_add_r by lia. lia.
  - pose proof (pow10_pos (- (k + j)) ltac:(lia)).
    rewrite <- (round_ratio_scale (s * unit1) (10 ^ (- (k + j))) (10 ^ j)) by lia.
    f_equal; [lia|]. rewrite <- Z.pow_add_r by lia. f_equal. lia.
Qed.

Lemma same_decimal_trans m1 k1 m2 k2 m3 k3 :
  same_decimal m1 k1 m2 k2 -> same_decimal m2 k2 m3 k3 -> same_decimal m1 k1 m3 k3.
Proof.
  intros (j & Hj & -> & <-) (j' & Hj' & -> & <-). exists (j' + j).
  rewrite Z.pow_add_r by lia. split_and!; lia.
Qed.

Lemma drop_zeros_spec fuel s e :
  0 < s -> let '(s', e') := drop_zeros fuel s e in 0 < s' /\ same_decimal s e s' e'.
Proof.
  revert s e. induction fuel as [|f IH]; intros s e Hs; cbn [drop_zeros].
  { split; [done|apply same_decimal_refl]. }
  destruct (Z.eqb_spec (s mod 10) 0) as [E|]; [|split; [done|apply same_decimal_refl]].
  pose proof (Z.div_mod s 10 ltac:(lia)).
  specialize (IH (s / 10) (e + 1) ltac:(lia)).
  destruct (drop_zeros f (s / 10) (e + 1)) as [s' e'] eqn:Ed.
  destruct IH as [? IH]. split; [done|]. eapply same_decimal_trans; [|exact IH].
  exists 1. lia.
Qed.

Lemma num_of_decimal_int z : num_of_decimal z 0 = rnd (z * unit1).
Proof. unfold num_of_decimal. simpl. by rewrite Z.mul_1_r. Qed.

Lemma shortest_from_reads fuel m n k :
  0 < m -> wf_num (Fin m) ->
  let '(s, e) := shortest_from fuel m n k in 0 < s /\ num_of_decimal s e = Fin m.
Proof.
  intros Hm Hw. revert k. induction fuel as [|f IH]; intros k; cbn [shortest_from].
  - split; [assert (0 < 5 ^ 1074) by reflexivity; nia|].
    assert (5 ^ 1074 * unit1 = 10 ^ 1074) as E
      by by rewrite unit1_pow, <- Z.pow_mul_l.
    assert (0 < 10 ^ 1074) by by apply pow10_pos.
    unfold num_of_decimal. change (0 <=? -1074) with false. cbv iota.
    rewrite <- Z.mul_assoc, E. change (- - 1074) with 1074.
    revert E H. generalize (10 ^ 1074). intros q _ Hq.
    rewrite <- (Z.mul_1_l q) at 2. rewrite round_ratio_scale by lia. by apply rnd_exact.
  - destruct (List.find (reads_as m) (candidates m n k)) as [[s e]|] eqn:E; [|apply IH].
    apply List.find_some in E as [_ E]. unfold reads_as in E.
    apply andb_true_iff in E as [E1 E2]. apply Z.ltb_lt in E1.
    by apply bool_decide_eq_true in E2.
Qed.

Lemma shortest_reads m :
  0 < m -> wf_num (Fin m) ->
  let '(s, e) := shortest m in 0 < s /\ num_of_decimal s e = Fin m.
Proof.
  intros Hm Hw. unfold shortest. rewrite zmod_eq, zdiv_eq.
  destruct ((m mod unit1 =? 0) && (m / unit1 <=? max_safe)) eqn:E;
    [|by apply shortest_from_reads].
  apply andb_true_iff in E as [E1 E2]. apply Z.eqb_eq in E1. apply Z.leb_le in E2.
  pose proof unit1_pos. pose proof (Z.div_mod m unit1 ltac:(lia)) as Hd.
  assert (0 < m / unit1) as Hz by nia.
  pose proof (drop_zeros_spec 20 (m / unit1) 0 Hz) as Hs.
  destruct (drop_zeros 20 (m / unit1) 0) as [s e]. destruct Hs as [? Hs]. split; [done|].
  apply num_of_decimal_same in Hs. rewrite <- Hs, num_of_decimal_int.
  replace (m / unit1 * unit1) with m by lia. by apply rnd_exact.
Qed.

Lemma char_digit_not_space c : is_space c = true -> char_digit c = None.
Proof.
  unfold is_space, char_digit. destruct ((48 <=? code c) && (code c <=? 57)) eqn:E; [|done].
  apply andb_true_iff in E as [?%Z.leb_le ?%Z.leb_le].
  rewrite !orb_true_iff, andb_true_iff, !Z.eqb_eq, !Z.leb_le. lia.
Qed.

(** A literal starts with a digit or a point. *)
Lemma read_decimal_head s x :
  read_decimal s = Some x ->
  exists c s', s = String c s' /\ (is_Some (char_digit c) \/ c = "."%char).
Proof.
  unfold read_decimal. destruct s as [|c s']; [done|]. intros H. exists c, s'. split; [done|].
  cbn [read_digits] in H. destruct (char_digit c) as [d|] eqn:E; [by left|right].
  destruct (decide (c = "."%char)) as [|Hne]; [done|]. exfalso.
  by destruct c as [[] [] [] [] [] [] [] []].
Qed.

Lemma read_decimal_plain s x :
  read_decimal s = Some x ->
  read_sign s = (false, s) /\ drop_prefix "Infinity" s = None /\ trimStart s = s.
Proof.
  intros (c & s' & -> & Hc)%read_decimal_head. split_and!.
  - destruct Hc as [[d Hd]| ->]; [|done]. by destruct c as [[] [] [] [] [] [] [] []].
  - destruct Hc as [[d Hd]| ->]; [|done]. by destruct c as [[] [] [] [] [] [] [] []].
  - simpl. destruct (is_space c) eqn:E; [|done].
    destruct Hc as [[d Hd]| ->]; [|done]. apply char_digit_not_space in E. congruence.
Qed.

Lemma read_decimal_not_prefixed s m k :
  read_decimal s = Some (m, k, "") -> read_prefixed s = None.
Proof.
  destruct s as [|[[] [] [] [] [] [] [] []] [|p [|c s]]]; try done.
  intros H. unfold read_prefixed.
  destruct (decide (p ∈ ["x"; "X"; "o"; "O"; "b"; "B"]%char)) as [Hp|Hp].
  - exfalso. by repeat (apply elem_of_cons in Hp as [->|Hp]; [done|]); set_solver.
  - rewrite !not_elem_of_cons in Hp. destruct_and! Hp.
    by destruct p as [[] [] [] [] [] [] [] []].
Qed.

Lemma Number_decimal s m k :
  read_decimal s = Some (m, k, "") -> Number s = num_of_decimal m k.
Proof.
  intros H. destruct (read_decimal_plain _ _ H) as (Hs & Hi & Ht).
  destruct (read_decimal_head _ _ H) as (c & s' & E & _).
  unfold Number, read_signed. rewrite Ht, E, <- E.
  by rewrite (read_decimal_not_prefixed _ _ _ H), Hs, Hi, H.
Qed.

Lemma Number_neg_decimal s m k :
  read_decimal s = Some (m, k, "") -> Number ("-" +:+ s) = num_of_decimal (- m) k.
Proof.
  intros H. destruct (read_decimal_plain _ _ H) as (_ & Hi & _).
  change ("-" +:+ s) with (String "-" s). unfold Number, read_signed. cbn [trimStart].
  change (is_space "-") with false. cbv iota.
  change (read_prefixed (String "-" s)) with (@None num). cbv iota. cbn [read_sign].
  by rewrite Hi, H.
Qed.

(** A positive double's text is a decimal that reads as it. *)
Lemma pos_text_reads p :
  0 < p -> wf_num (Fin p) ->
  exists s e, read_decimal (pos_to_string p) = Some (s, e, "") /\ num_of_decimal s e = Fin p.
Proof.
  intros Hp Hwp. unfold pos_to_string.
  pose proof (shortest_reads p Hp Hwp) as H. destruct (shortest p) as [s e].
  destruct H as [Hs <-]. destruct (read_layout s e Hs) as (m' & k & E & Hk).
  exists m', k. split; [done|]. by apply num_of_decimal_same.
Qed.

(** [Number(String(x))] is [x]. *)
Lemma Number_num_to_string x : wf_num x -> Number (num_to_string x) = x.
Proof.
  intros Hw. destruct x as [|[]|m]; [done..|]. simpl.
  destruct (Z.eqb_spec m 0) as [->|]; [done|]. destruct (Z.ltb_spec m 0).
  - destruct (pos_text_reads (- m)) as (s & e & E1 & E2); [lia|by apply (wf_neg (Fin m))|].
    rewrite (Number_neg_decimal _ _ _ E1), num_of_decimal_opp, E2. simpl. f_equal. lia.
  - destruct (pos_text_reads m) as (s & e & E1 & E2); [lia|done|]. by rewrite (Number_decimal _ _ _ E1).
Qed.

(** So does [parseFloat], which reads a number off the front of a text. *)
Lemma parseFloat_num_to_string x : wf_num x -> isFinite x = true -> parseFloat (num_to_string x) = x.
Proof.
  intros Hw Hf. destruct x as [| |m]; try done. unfold parseFloat, num_to_string.
  destruct (Z.eqb_spec m 0) as [->|]; [done|]. destruct (Z.ltb_spec m 0).
  - destruct (pos_text_reads (- m)) as (s & e & E1 & E2); [lia|by apply (wf_neg (Fin m))|].
    destruct (read_decimal_plain _ _ E1) as (_ & Hi & _).
    change (trimStart ("-" +:+ ?t)) with (String "-" t). unfold read_signed. cbn [read_sign].
    rewrite Hi, E1, num_of_decimal_opp, E2. unfold neg. by rewrite Z.opp_involutive.
  - destruct (pos_text_reads m) as (s & e & E1 & E2); [lia|done|].
    destruct (read_decimal_plain _ _ E1) as (Hs & Hi & Ht). unfold read_signed.
    by rewrite Ht, Hs, Hi, E1.
Qed.

(** From here on numbers are computed by their lemmas. *)
#[global] Arguments int : simpl never.
#[global] Arguments add : simpl never.
#[global] Arguments sub : simpl never.
#[global] Arguments mul : simpl never.
#[global] Arguments div : simpl never.
#[global] Arguments rnd : simpl never.
#[global] Arguments round_ratio : simpl never.
#[global] Arguments ltb : simpl never.
#[global] Arguments leb : simpl never.
#[global] Arguments gtb : simpl never.
#[global] Arguments geb : simpl never.
#[global] Arguments eqb : simpl never.
#[global] Arguments floor : simpl never.
#[global] Arguments ceil : simpl never.
#[global] Arguments trunc : simpl never.
#[global] Arguments fmax : simpl never.
#[global] Arguments fmin : simpl never.
#[global] Arguments neg : simpl never.
#[global] Arguments num_to_string : simpl never.
#[global] Arguments Number : simpl never.
#[global] Arguments num_of_decimal : simpl never.
