(* ===== verification/Json.v ===== *)
(** * JSON

    [JSON.stringify] and [JSON.parse] over the strings of the model, used by
    the per-limit costs a queue entry stores.  Two limits: a [\u] escape above
    [\u00ff] does not parse, since model strings hold code units below 256, and
    an object keeps its properties in the order they were written, without the
    language's rule that moves integer-like names first. *)
From S2P Require Import Prelude JsNumber JsString.
Local Open Scope Z_scope.

Inductive json :=
  | JNull
  | JBool (b : bool)
  | JNum (n : num)
  | JStr (s : string)
  | JArr (l : list json)
  | JObj (l : list (string * json)).

(** ** JSON.stringify *)

Definition hex_digit (d : Z) : ascii :=
  if d <? 10 then digit_char d else ascii_of_N (Z.to_N (87 + d)).

Definition quote_char (c : ascii) : string :=
  match c with
  | "034"%char => String "\" (String "034" "")
  | "\"%char => "\\"
  | "008"%char => "\b"
  | "012"%char => "\f"
  | "010"%char => "\n"
  | "013"%char => "\r"
  | "009"%char => "\t"
  | _ =>
      if code c <? 32
      then "\u00" +:+ String (hex_digit (code c / 16)) (String (hex_digit (code c mod 16)) "")
      else String c ""
  end.

Fixpoint quote_chars (s : string) : string :=
  match s with
  | EmptyString => ""
  | String c s' => quote_char c +:+ quote_chars s'
  end.

Definition dquote : ascii := "034"%char.

Definition quote (s : string) : string :=
  String dquote (quote_chars s +:+ String dquote "").

Fixpoint stringify (v : json) : string :=
  match v with
  | JNull => "null"
  | JBool true => "true"
  | JBool false => "false"
  | JNum n => if isFinite n then num_to_string n else "null"
  | JStr s => quote s
  | JArr l =>
      "[" +:+ (fix elems l := match l with
               | [] => ""
               | [x] => stringify x
               | x :: l' => stringify x +:+ "," +:+ elems l'
               end) l +:+ "]"
  | JObj l =>
      "{" +:+ (fix members l := match l with
               | [] => ""
               | [(k, x)] => quote k +:+ ":" +:+ stringify x
               | (k, x) :: l' => quote k +:+ ":" +:+ stringify x +:+ "," +:+ members l'
               end) l +:+ "}"
  end.

(** ** JSON.parse *)

Definition json_space (c : ascii) : bool :=
  match c with " "%char | "009"%char | "010"%char | "013"%char => true | _ => false end.

Fixpoint skip_ws (s : string) : string :=
  match s with
  | EmptyString => EmptyString
  | String c s' => if json_space c then skip_ws s' else s
  end.

Definition hex_value (c : ascii) : option Z :=
  match radix_digit c with
  | Some d => if d <? 16 then Some d else None
  | None => None
  end.

(** The body of a string literal after its opening quote. *)
Fixpoint parse_chars (s : string) : option (string * string) :=
  match s with
  | EmptyString => None
  | String c s' =>
      if bool_decide (c = dquote) then Some ("", s')
      else if bool_decide (c = "\"%char) then
        let keep x r := option_map (fun p => (String x p.1, p.2)) (parse_chars r) in
        match s' with
        | String "034" r => keep "034"%char r
        | String "\" r => keep "\"%char r
        | String "/" r => keep "/"%char r
        | String "b" r => keep "008"%char r
        | String "f" r => keep "012"%char r
        | String "n" r => keep "010"%char r
        | String "r" r => keep "013"%char r
        | String "t" r => keep "009"%char r
        | String "u" (String "0" (String "0" (String a (String b r)))) =>
            match hex_value a, hex_value b with
            | Some x, Some y => keep (ascii_of_N (Z.to_N (16 * x + y))) r
            | _, _ => None
            end
        | _ => None
        end
      else if code c <? 32 then None
      else option_map (fun p => (String c p.1, p.2)) (parse_chars s')
  end.

(** A JSON number: no leading zeros, and digits on both sides of a point. *)
Definition json_number_shape (s : string) : bool :=
  let '(ip, r1) := read_digits s in
  match ip with
  | [] => false
  | 0 :: _ :: _ => false
  | _ =>
      let r2 := match r1 with
                | String "." r => match read_digits r with ([], _) => None | (_, r') => Some r' end
                | _ => Some r1
                end in
      match r2 with
      | None => false
      | Some (String ("e" | "E") r) =>
          match read_digits (read_sign r).2 with ([], _) => false | _ => true end
      | Some _ => true
      end
  end.

Definition parse_number (s : string) : option (num * string) :=
  let '(sg, s1) := match s with String "-" s' => (true, s') | _ => (false, s) end in
  if json_number_shape s1 then
    match read_decimal s1 with
    | Some (m, e, r) => Some (num_of_decimal (if sg then - m else m) e, r)
    | None => None
    end
  else None.

Fixpoint parse_value (fuel : nat) (s : string) : option (json * string) :=
  match fuel with
  | O => None
  | S f =>
      match skip_ws s with
      | String "{" r =>
          match skip_ws r with
          | String "}" r' => Some (JObj [], r')
          | _ => parse_members f [] r
          end
      | String "[" r =>
          match skip_ws r with
          | String "]" r' => Some (JArr [], r')
          | _ => parse_elems f [] r
          end
      | String "034" r => option_map (fun p => (JStr p.1, p.2)) (parse_chars r)
      | s1 =>
          match drop_prefix "null" s1, drop_prefix "true" s1, drop_prefix "false" s1 with
          | Some r, _, _ => Some (JNull, r)
          | _, Some r, _ => Some (JBool true, r)
          | _, _, Some r => Some (JBool false, r)
          | _, _, _ => option_map (fun p => (JNum p.1, p.2)) (parse_number s1)
          end
      end
  end
with parse_members (fuel : nat) (acc : list (string * json)) (s : string)
    : option (json * string) :=
  match fuel with
  | O => None
  | S f =>
      match skip_ws s with
      | String "034" r =>
          match parse_chars r with
          | None => None
          | Some (k, r1) =>
              match skip_ws r1 with
              | String ":" r2 =>
                  match parse_value f r2 with
                  | None => None
                  | Some (v, r3) =>
                      let acc' := omap_set k v acc in
                      match skip_ws r3 with
                      | String "," r4 => parse_members f acc' r4
                      | String "}" r4 => Some (JObj acc', r4)
                      | _ => None
                      end
                  end
              | _ => None
              end
          end
      | _ => None
      end
  end
with parse_elems (fuel : nat) (acc : list json) (s : string) : option (json * string) :=
  match fuel with
  | O => None
  | S f =>
      match parse_value f s with
      | None => None
      | Some (v, r1) =>
          match skip_ws r1 with
          | String "," r2 => parse_elems f (acc ++ [v]) r2
          | String "]" r2 => Some (JArr (acc ++ [v]), r2)
          | _ => None
          end
      end
  end.

(** [JSON.parse(s)]; [None] where it throws.  Every call consumes a character
    or hands the same text to the next level once, so twice the length is fuel
    enough. *)
Definition parse (s : string) : option json :=
  match parse_value (S (2 * String.length s)) s with
  | Some (v, r) => match skip_ws r with EmptyString => Some v | _ => None end
  | None => None
  end.

