(* ===== verification/JsonFacts.v ===== *)
(** * JSON reads back what it wrote

    [JSON.parse (JSON.stringify v)] is [v] for every value JSON can hold: its
    numbers finite, and no property named twice.  Numbers go through the
    shortest decimal, strings through their escapes, and arrays and objects
    through the fuel the parser is given. *)
From S2P Require Import Prelude JsNumber JsString Json.
Local Open Scope Z_scope.

(** ** Numbers *)

(** Text that cannot continue a number. *)
Definition ends_number (r : string) : Prop :=
  match r with
  | EmptyString => True
  | String c _ => char_digit c = None /\ c <> "."%char /\ c <> "e"%char /\ c <> "E"%char
  end.

Lemma read_digits_frame s r :
  let '(l, t) := read_digits s in
  t = "" -> ends_digits r -> read_digits (s +:+ r) = (l, r).
Proof.
  induction s as [|c s IH]; cbn [read_digits].
  { intros _ Hr. destruct r as [|c r]; [done|]. change ("" +:+ String c r) with (String c r).
    cbn [read_digits]. by rewrite Hr. }
  change (String c s +:+ r) with (String c (s +:+ r)). destruct (char_digit c) as [d|] eqn:E; [|done].
  destruct (read_digits s) as [l t]. intros Ht Hr. cbn [read_digits]. by rewrite E, IH.
Qed.

Lemma read_digits_stop s r :
  let '(l, t) := read_digits s in
  t <> "" -> read_digits (s +:+ r) = (l, t +:+ r).
Proof.
  induction s as [|c s IH]; cbn [read_digits]; [done|].
  change (String c s +:+ r) with (String c (s +:+ r)). cbn [read_digits].
  destruct (char_digit c) as [d|] eqn:E; [|done].
  destruct (read_digits s) as [l t]. intros Ht. by rewrite IH.
Qed.

Lemma ends_number_digits r : ends_number r -> ends_digits r.
Proof. destruct r; [done|]. by intros []. Qed.

(** [read_digits], as a case: the digits run to the end, or stop at a character. *)
Lemma read_digits_cases s :
  (exists l, read_digits s = (l, "") /\ forall r, ends_digits r -> read_digits (s +:+ r) = (l, r)) \/
  (exists l c t, read_digits s = (l, String c t) /\ forall r, read_digits (s +:+ r) = (l, String c (t +:+ r))).
Proof.
  pose proof (fun r => read_digits_frame s r) as Hf. pose proof (fun r => read_digits_stop s r) as Hs.
  destruct (read_digits s) as [l [|c t]].
  - left. exists l. split; [done|]. intros r. by apply Hf.
  - right. exists l, c, t. split; [done|]. intros r. by apply Hs.
Qed.

(** What follows an exponent mark: a sign and digits, to the end. *)
Lemma exponent_frame t r :
  (read_digits (read_sign t).2).2 = "" -> (read_digits (read_sign t).2).1 <> [] -> ends_digits r ->
  (read_sign (t +:+ r)).1 = (read_sign t).1 /\
  read_digits (read_sign (t +:+ r)).2 = ((read_digits (read_sign t).2).1, r).
Proof.
  intros H2 H1 Hr.
  assert (read_sign (t +:+ r) = ((read_sign t).1, (read_sign t).2 +:+ r)) as ->.
  { destruct t as [|c t]; [done|]. change (String c t +:+ r) with (String c (t +:+ r)).
    by destruct c as [[] [] [] [] [] [] [] []]. }
  split; [done|]. cbn [snd]. destruct (read_digits_cases (read_sign t).2) as [(l & E & H)|(l & c & u & E & _)].
  - rewrite E. by apply H.
  - rewrite E in H2. done.
Qed.

(** The two halves of [read_decimal] and of [json_number_shape] after the
    integer part. *)
Definition after_point (r1 : string) : list Z * string :=
  match r1 with String "." r => read_digits r | _ => ([], r1) end.

Definition is_exp (c : ascii) : bool := bool_decide (c = "e"%char) || bool_decide (c = "E"%char).

Definition after_digits (ds : list Z) (e0 : Z) (r2 : string) : option (Z * Z * string) :=
  match r2 with
  | EmptyString => Some (dval ds, e0, r2)
  | String c r =>
      if is_exp c then
        match read_digits (read_sign r).2 with
        | ([], _) => Some (dval ds, e0, r2)
        | (ep, r4) => Some (dval ds, e0 + (if (read_sign r).1 then - dval ep else dval ep), r4)
        end
      else Some (dval ds, e0, r2)
  end.

Lemma read_decimal_unfold s :
  read_decimal s =
    let '(ip, r1) := read_digits s in
    let '(fp, r2) := after_point r1 in
    match ip ++ fp with [] => None | ds => after_digits ds (- Z.of_nat (length fp)) r2 end.
Proof.
  unfold read_decimal, after_point. destruct (read_digits s) as [ip r1].
  destruct (match r1 with String "." r => read_digits r | _ => ([], r1) end) as [fp r2].
  destruct (ip ++ fp) as [|d ds]; [done|]. destruct r2 as [|c r]; [done|]. cbn [after_digits].
  destruct (decide (c = "e"%char)) as [->|H1]; [|destruct (decide (c = "E"%char)) as [->|H2]].
  - cbn. by destruct (read_sign r) as [sg r3].
  - cbn. by destruct (read_sign r) as [sg r3].
  - unfold is_exp. rewrite !bool_decide_false by done. cbn.
    by destruct c as [[] [] [] [] [] [] [] []].
Qed.

Definition shape_exp (r2 : string) : bool :=
  match r2 with
  | String c r => if is_exp c then match read_digits (read_sign r).2 with ([], _) => false | _ => true end else true
  | EmptyString => true
  end.

Definition shape_point (r1 : string) : option string :=
  match r1 with
  | String "." r => match read_digits r with ([], _) => None | (_, r') => Some r' end
  | _ => Some r1
  end.

Lemma json_number_shape_unfold s :
  json_number_shape s =
    match (read_digits s).1 with
    | [] | 0 :: _ :: _ => false
    | _ => match shape_point (read_digits s).2 with None => false | Some r2 => shape_exp r2 end
    end.
Proof.
  unfold json_number_shape. destruct (read_digits s) as [ip r1]. cbn [fst snd].
  assert ((match shape_point r1 with None => false
           | Some (String ("e" | "E") r) => match read_digits (read_sign r).2 with ([], _) => false | _ => true end
           | Some _ => true end)
    = match shape_point r1 with None => false | Some r2 => shape_exp r2 end) as H.
  { destruct (shape_point r1) as [[|c r]|]; try done. unfold shape_exp, is_exp.
    destruct (decide (c = "e"%char)) as [->|H1]; [done|]. destruct (decide (c = "E"%char)) as [->|H2]; [done|].
    rewrite !bool_decide_false by done. by destruct c as [[] [] [] [] [] [] [] []]. }
  fold (shape_point r1). by destruct ip as [|[] [|]].
Qed.

Lemma ends_number_exp r : ends_number r -> match r with String c _ => is_exp c = false | _ => True end.
Proof. destruct r as [|c r]; [done|]. intros (_ & _ & H1 & H2). unfold is_exp. by rewrite !bool_decide_false. Qed.

Lemma after_digits_frame ds e0 r2 m k r :
  after_digits ds e0 r2 = Some (m, k, "") -> ends_number r ->
  after_digits ds e0 (r2 +:+ r) = Some (m, k, r) /\ shape_exp (r2 +:+ r) = shape_exp r2.
Proof.
  intros H Hr. pose proof (ends_number_exp r Hr) as Hx. destruct r2 as [|c t].
  - injection H as <- <-. change ("" +:+ r) with r. destruct r as [|c r]; [done|]. cbn. by rewrite Hx.
  - change (String c t +:+ r) with (String c (t +:+ r)). cbn [after_digits shape_exp] in *.
    destruct (is_exp c); [|done].
    pose proof (exponent_frame t r) as Hf. destruct (read_digits (read_sign t).2) as [[|d ep] r4]; [done|].
    injection H as <- <- ->. destruct (Hf eq_refl ltac:(done) (ends_number_digits r Hr)) as [-> ->]. done.
Qed.

Lemma number_frame s m k r :
  read_decimal s = Some (m, k, "") -> ends_number r ->
  read_decimal (s +:+ r) = Some (m, k, r) /\ json_number_shape (s +:+ r) = json_number_shape s.
Proof.
  intros H Hr. rewrite read_decimal_unfold in H |- *. rewrite !json_number_shape_unfold.
  pose proof (ends_number_digits r Hr) as Hd.
  destruct (read_digits_cases s) as [(l & E & Hs)|(l & c & t & E & Hs)]; rewrite E in H |- *; rewrite Hs by done.
  - assert (after_point r = ([], r) /\ shape_point r = Some r) as [Hp Hp'].
    { destruct r as [|c r]; [done|]. destruct Hr as (_ & Hc & _). by destruct c as [[] [] [] [] [] [] [] []]. }
    rewrite Hp. cbn [after_point fst snd] in *. rewrite app_nil_r in *.
    destruct l as [|d l]; [done|]. change (after_digits (d :: l) 0 "" = Some (m, k, "")) in H.
    destruct (after_digits_frame _ _ "" _ _ r H Hr) as [Ha Hsh]. split; [exact Ha|]. rewrite Hp'.
    change ("" +:+ r) with r in Hsh. by rewrite Hsh.
  - cbn [fst snd]. destruct (decide (c = "."%char)) as [->|Hc].
    + change (after_point (String "." ?x)) with (read_digits x) in *.
      cbn [shape_point]. destruct (read_digits_cases t) as [(fp & Et & Ht)|(fp & c' & t' & Et & Ht)];
        rewrite Et in H |- *; rewrite Ht by done.
      * destruct (l ++ fp) as [|d ds] eqn:El; [done|].
        destruct (after_digits_frame _ _ "" _ _ r H Hr) as [Ha Hsh]. split; [exact Ha|].
        destruct fp; [done|]. change ("" +:+ r) with r in Hsh. by rewrite Hsh.
      * destruct (l ++ fp) as [|d ds] eqn:El; [done|].
        destruct (after_digits_frame _ _ (String c' t') _ _ r H Hr) as [Ha Hsh]. split; [exact Ha|].
        destruct fp; [done|]. change (String c' t' +:+ r) with (String c' (t' +:+ r)) in Hsh. by rewrite Hsh.
    + assert (forall x, after_point (String c x) = ([], String c x) /\ shape_point (String c x) = Some (String c x)) as Hp.
      { intros x. by destruct c as [[] [] [] [] [] [] [] []]. }
      rewrite (proj1 (Hp t)) in H. rewrite (proj1 (Hp (t +:+ r))), (proj2 (Hp (t +:+ r))), (proj2 (Hp t)).
      destruct (l ++ []) as [|d ds] eqn:El; [done|].
      destruct (after_digits_frame _ _ (String c t) _ _ r H Hr) as [Ha Hsh]. split; [exact Ha|].
      change (String c t +:+ r) with (String c (t +:+ r)) in Hsh. by rewrite Hsh.
Qed.

(** *** No leading zero *)

(** Digits a JSON integer part may have. *)
Definition plain_digits (l : list Z) : Prop :=
  match l with [] => False | d :: l' => d <> 0 \/ l' = [] end.

Lemma digits_aux_plain fuel z acc :
  0 < z < 2 ^ Z.of_nat fuel -> exists d l, digits_aux fuel z acc = d :: l /\ d <> 0.
Proof.
  revert z acc. induction fuel as [|f IH]; intros z acc Hz; [simpl in Hz; lia|].
  cbn [digits_aux]. rewrite Nat2Z.inj_succ, Z.pow_succ_r in Hz by lia.
  pose proof (Z.div_mod z 10 ltac:(lia)) as Hd. pose proof (Z.mod_pos_bound z 10 ltac:(lia)).
  destruct (Z.eqb_spec (z / 10) 0) as [E|E].
  - exists (z mod 10), acc. split; [done|lia].
  - apply IH. lia.
Qed.

Lemma digits_plain z : 0 < z -> exists d l, digits z = d :: l /\ d <> 0.
Proof.
  intros Hz. unfold digits. apply digits_aux_plain. split; [done|].
  rewrite Nat2Z.inj_succ, Z2Nat.id by apply Z.log2_nonneg. apply Z.log2_spec. lia.
Qed.

Lemma shape_of s l r :
  read_digits s = (l, r) -> plain_digits l ->
  json_number_shape s = match shape_point r with None => false | Some r2 => shape_exp r2 end.
Proof.
  intros E Hp. rewrite json_number_shape_unfold, E. cbn [fst snd].
  destruct l as [|d [|d' l]]; [done|by destruct d|]. destruct Hp as [Hp|]; [|done]. by destruct d.
Qed.

Lemma shape_int l : Forall is_digit l -> plain_digits l -> json_number_shape (str_of_digits l) = true.
Proof. intros Hl Hp. by rewrite (shape_of _ l "") by (done || by apply read_digits_all). Qed.

Lemma shape_fraction l1 l2 :
  Forall is_digit l1 -> plain_digits l1 -> Forall is_digit l2 -> l2 <> [] ->
  json_number_shape (str_of_digits l1 +:+ "." +:+ str_of_digits l2) = true.
Proof.
  intros H1 Hp H2 Hn. rewrite (shape_of _ l1 (String "." (str_of_digits l2))) by (done || by apply read_digits_str).
  cbn [shape_point]. rewrite read_digits_all by done. by destruct l2.
Qed.

Lemma shape_exponent l1 l2 (neg : bool) le :
  Forall is_digit l1 -> plain_digits l1 -> Forall is_digit l2 -> Forall is_digit le -> le <> [] ->
  json_number_shape (str_of_digits l1
    +:+ (match l2 with [] => "" | _ => "." +:+ str_of_digits l2 end) +:+ exp_text neg le) = true.
Proof.
  intros H1 Hp H2 He Hn.
  assert (shape_exp (exp_text neg le) = true) as Hx.
  { unfold exp_text. cbn [shape_exp]. rewrite read_exp_text. cbn [snd].
    rewrite read_digits_all by done. by destruct le. }
  destruct l2 as [|d l2].
  - change ("" +:+ exp_text neg le) with (exp_text neg le).
    rewrite (shape_of _ l1 (exp_text neg le)) by (done || by apply read_digits_str). done.
  - rewrite <- string_app_assoc. change ("." +:+ ?x) with (String "." x).
    rewrite (shape_of _ l1 (String "." (str_of_digits (d :: l2) +:+ exp_text neg le)))
      by (done || by apply read_digits_str).
    cbn [shape_point]. by rewrite read_digits_str.
Qed.

Lemma shape_layout s e : 0 < s -> json_number_shape (layout s e) = true.
Proof.
  intros Hs. destruct (digits_spec s ltac:(lia)) as (Hv & Hf & Hn).
  destruct (digits_plain s Hs) as (d0 & ds0 & Eds & Hd0).
  unfold layout. set (ds := digits s) in *. set (k := Z.of_nat (length ds)). set (n := e + k).
  assert (0 < k) as Hk by (unfold k; rewrite Eds; simpl; lia).
  destruct ((k <=? n) && (n <=? 21)) eqn:C1.
  { apply shape_int; [apply Forall_app; split; [done|apply Forall_digit_zeros]|]. rewrite Eds. by left. }
  destruct ((0 <? n) && (n <=? 21)) eqn:C2.
  { bool_lia. apply andb_false_iff in C1. assert (n < k) by (destruct C1; bool_lia; lia).
    apply shape_fraction; auto using Forall_take, Forall_drop.
    - rewrite Eds. destruct (Z.to_nat n) eqn:En; [lia|]. by left.
    - intros Hnil%(f_equal length). rewrite length_drop in Hnil. unfold k in *. simpl in Hnil. lia. }
  destruct ((-6 <? n) && (n <=? 0)) eqn:C3.
  { change ("0." +:+ ?x) with (str_of_digits [0] +:+ "." +:+ x).
    apply shape_fraction; [by repeat constructor|by right| |].
    - apply Forall_app; split; [apply Forall_digit_zeros|done].
    - rewrite Eds. by destruct (zeros _). }
  unfold k. rewrite layout_fraction by done. fold k.
  destruct (digits_spec (Z.abs (n - 1)) ltac:(lia)) as (_ & Hf' & Hn').
  assert (plain_digits (take 1 ds)) as Hp by (rewrite Eds; by left).
  destruct (0 <? n); rewrite ?exp_text_plus, ?exp_text_minus; apply shape_exponent; auto using Forall_take, Forall_drop.
Qed.

(** A finite number reads back from the front of a text, unless what follows
    could continue it. *)
Lemma parse_number_back n r :
  wf_num n -> isFinite n = true -> ends_number r ->
  parse_number (num_to_string n +:+ r) = Some (n, r).
Proof.
  intros Hw Hfin Hr. destruct n as [| |m]; try done.
  assert (forall p, 0 < p -> wf_num (Fin p) ->
    exists s e, pos_to_string p = layout s e /\ 0 < s /\ num_of_decimal s e = Fin p) as Hp.
  { intros p Hp Hwp. unfold pos_to_string. pose proof (shortest_reads p Hp Hwp) as H.
    destruct (shortest p) as [s e]. by exists s, e. }
  assert (forall p, 0 < p -> wf_num (Fin p) ->
    (exists c t, pos_to_string p +:+ r = String c t /\ c <> "-"%char) /\
    json_number_shape (pos_to_string p +:+ r) = true /\
    exists m k, read_decimal (pos_to_string p +:+ r) = Some (m, k, r) /\ num_of_decimal m k = Fin p) as Hread.
  { intros p Hpos Hwp. destruct (Hp p Hpos Hwp) as (s & e & -> & Hs & Hv).
    destruct (read_layout s e Hs) as (m' & k & E & Hk).
    destruct (number_frame _ _ _ r E Hr) as [E' Hsh]. rewrite Hsh, (shape_layout s e Hs), E'. split_and!; [|done|].
    - destruct (read_decimal_head _ _ E') as (c & t & -> & Hc). exists c, t. split; [done|].
      intros ->. destruct Hc as [[d Hc]|Hc]; [|done]. vm_compute in Hc. discriminate.
    - exists m', k. split; [done|]. rewrite <- Hv. by apply num_of_decimal_same. }
  unfold parse_number, num_to_string. destruct (Z.eqb_spec m 0) as [->|].
  {
    assert (read_decimal "0" = Some (0, 0, "")) as E0 by done.
    destruct (number_frame _ _ _ r E0 Hr) as [E Hsh]. change ("0" +:+ r) with (String "0" r) in *.
    cbv iota. rewrite Hsh, E. change (json_number_shape "0") with true. reflexivity. }
  destruct (Z.ltb_spec m 0).
  - destruct (Hread (- m)) as (_ & Hsh & m' & k & E & Hv); [lia|by apply (wf_neg (Fin m))|].
    change (("-" +:+ ?x) +:+ r) with (String "-" (x +:+ r)). cbv iota. rewrite Hsh, E.
    rewrite num_of_decimal_opp, Hv. unfold neg. by rewrite Z.opp_involutive.
  - destruct (Hread m) as ((c & t & Ec & Hc) & Hsh & m' & k & E & Hv); [lia|done|].
    assert ((match pos_to_string m +:+ r with String "-" s' => (true, s') | _ => (false, pos_to_string m +:+ r) end)
      = (false, pos_to_string m +:+ r)) as ->.
    { rewrite Ec. by destruct c as [[] [] [] [] [] [] [] []]. }
    by rewrite Hsh, E, Hv.
Qed.

(** ** Strings *)

Lemma parse_quote_char c t :
  parse_chars (quote_char c +:+ t) = option_map (fun p => (String c p.1, p.2)) (parse_chars t).
Proof. destruct c as [[] [] [] [] [] [] [] []]; reflexivity. Qed.

Lemma parse_chars_back s r :
  parse_chars (quote_chars s +:+ String dquote r) = Some (s, r).
Proof.
  induction s as [|c s IH]; [done|]. cbn [quote_chars].
  rewrite <- string_app_assoc, parse_quote_char, IH. done.
Qed.

(** ** Values *)

Section json_ind.
Variable P : json -> Prop.
Hypothesis Hnull : P JNull.
Hypothesis Hbool : forall b, P (JBool b).
Hypothesis Hnum : forall n, P (JNum n).
Hypothesis Hstr : forall s, P (JStr s).
Hypothesis Harr : forall l, Forall P l -> P (JArr l).
Hypothesis Hobj : forall l, Forall (fun p => P p.2) l -> P (JObj l).

Fixpoint json_ind' (v : json) : P v :=
  match v with
  | JNull => Hnull
  | JBool b => Hbool b
  | JNum n => Hnum n
  | JStr s => Hstr s
  | JArr l =>
      Harr l ((fix go l : Forall P l :=
        match l with
        | [] => List.Forall_nil _
        | x :: l' => List.Forall_cons _ _ _ (json_ind' x) (go l')
        end) l)
  | JObj l =>
      Hobj l ((fix go l : Forall (fun p : string * json => P p.2) l :=
        match l with
        | [] => List.Forall_nil _
        | p :: l' => List.Forall_cons _ _ _ (json_ind' p.2) (go l')
        end) l)
  end.
End json_ind.

(** What JSON can hold: finite numbers, and each property once. *)
Inductive json_ok : json -> Prop :=
  | ok_null : json_ok JNull
  | ok_bool b : json_ok (JBool b)
  | ok_num n : wf_num n -> isFinite n = true -> json_ok (JNum n)
  | ok_str s : json_ok (JStr s)
  | ok_arr l : Forall json_ok l -> json_ok (JArr l)
  | ok_obj l : NoDup l.*1 -> Forall (fun p => json_ok p.2) l -> json_ok (JObj l).

(** The text of the elements of an array, and of the members of an object. *)
Fixpoint elems_text (l : list json) : string :=
  match l with
  | [] => ""
  | [x] => stringify x
  | x :: l' => stringify x +:+ "," +:+ elems_text l'
  end.

Definition member_text (p : string * json) : string := quote p.1 +:+ ":" +:+ stringify p.2.

Fixpoint members_text (l : list (string * json)) : string :=
  match l with
  | [] => ""
  | [p] => member_text p
  | p :: l' => member_text p +:+ "," +:+ members_text l'
  end.

Lemma stringify_arr l : stringify (JArr l) = "[" +:+ elems_text l +:+ "]".
Proof. reflexivity. Qed.

Lemma stringify_obj l : stringify (JObj l) = "{" +:+ members_text l +:+ "}".
Proof.
  cbn [stringify]. do 2 f_equal. induction l as [|[k x] [|y l] IH]; [done..|].
  etransitivity; [exact (f_equal (fun t => quote k +:+ ":" +:+ stringify x +:+ "," +:+ t) IH)|].
  change (members_text ((k, x) :: y :: l)) with (member_text (k, x) +:+ "," +:+ members_text (y :: l)).
  unfold member_text at 1. cbn [fst snd]. by rewrite <- !string_app_assoc.
Qed.

(** A levels of fuel a value takes: no more than its text is long. *)
Fixpoint fuel_of (v : json) : nat :=
  match v with
  | JArr l => S ((fix go l := match l with [] => O | x :: l' => S (fuel_of x `max` go l') end) l)
  | JObj l => S ((fix go l := match l with [] => O | p :: l' => S (fuel_of p.2 `max` go l') end) l)
  | _ => 1%nat
  end.

Fixpoint fuel_list (l : list nat) : nat :=
  match l with [] => O | n :: l' => S (n `max` fuel_list l') end.

Lemma fuel_arr l : fuel_of (JArr l) = S (fuel_list (fuel_of <$> l)).
Proof. cbn [fuel_of]. f_equal. induction l as [|x l IH]; [done|]. cbn. by rewrite IH. Qed.

Lemma fuel_obj l : fuel_of (JObj l) = S (fuel_list ((fun p => fuel_of p.2) <$> l)).
Proof. cbn [fuel_of]. f_equal. induction l as [|x l IH]; [done|]. cbn. by rewrite IH. Qed.

(** *** Parsing back *)

Lemma omap_set_new {V} k (v : V) (l : list (string * V)) : k ∉ l.*1 -> omap_set k v l = l ++ [(k, v)].
Proof.
  induction l as [|[k' v'] l IH]; [done|]. rewrite fmap_cons, not_elem_of_cons. intros [Hk Hl].
  cbn [omap_set app]. cbn [fst] in Hk. rewrite decide_False by done. by rewrite IH.
Qed.

(** A number's text starts with a digit or a minus sign. *)
Lemma num_text_head n r :
  wf_num n -> isFinite n = true -> ends_number r ->
  exists c t, num_to_string n +:+ r = String c t /\ (is_Some (char_digit c) \/ c = "-"%char).
Proof.
  intros Hw Hf Hr. pose proof (parse_number_back n r Hw Hf Hr) as H.
  unfold parse_number in H. destruct (num_to_string n +:+ r) as [|c t] eqn:E; [done|].
  exists c, t. split; [done|]. destruct (decide (c = "-"%char)) as [->|Hc]; [by right|left].
  assert ((match String c t with String "-" s' => (true, s') | _ => (false, String c t) end) = (false, String c t)) as Hm
    by by destruct c as [[] [] [] [] [] [] [] []].
  rewrite Hm in H. rewrite json_number_shape_unfold in H. cbn [read_digits] in H.
  destruct (char_digit c); [done|]. discriminate.
Qed.

Lemma parse_value_number f c t :
  is_Some (char_digit c) \/ c = "-"%char ->
  parse_value (S f) (String c t) = option_map (fun p => (JNum p.1, p.2)) (parse_number (String c t)).
Proof.
  intros [[d Hd]| ->]; [|reflexivity].
  destruct c as [[] [] [] [] [] [] [] []]; try discriminate Hd; reflexivity.
Qed.

(** What may follow a value: the end, or a separator. *)
Definition ends_value (r : string) : Prop :=
  match r with EmptyString => True | String c _ => c = ","%char \/ c = "]"%char \/ c = "}"%char end.

Lemma ends_value_number r : ends_value r -> ends_number r.
Proof. destruct r; [done|]. intros [->|[->| ->]]; split_and!; done. Qed.

(** Reads back at any fuel its text pays for. *)
Definition reads_back (v : json) : Prop :=
  forall fuel r, (fuel_of v <= fuel)%nat -> ends_value r -> parse_value fuel (stringify v +:+ r) = Some (v, r).

Lemma parse_elems_back l : forall acc fuel r,
  l <> [] -> Forall reads_back l -> (fuel_list (fuel_of <$> l) <= fuel)%nat ->
  parse_elems fuel acc (elems_text l +:+ String "]" r) = Some (JArr (acc ++ l), r).
Proof.
  induction l as [|x l IH]; intros acc fuel r Hn Hl Hf; [done|].
  apply Forall_cons in Hl as [Hx Hl]. cbn [fmap list_fmap fuel_list] in Hf.
  destruct fuel as [|fuel]; [lia|]. cbn [parse_elems]. destruct l as [|y l].
  - cbn [elems_text]. rewrite Hx by (lia || by right; left). reflexivity.
  - change (elems_text (x :: y :: l)) with (stringify x +:+ "," +:+ elems_text (y :: l)).
    rewrite <- string_app_assoc. change (("," +:+ ?a) +:+ ?b) with (String "," (a +:+ b)).
    rewrite Hx by (lia || by left). cbn [skip_ws json_space].
    rewrite (IH (acc ++ [x])) by (done || lia). by rewrite <- app_assoc.
Qed.

Lemma parse_members_back l : forall acc fuel r,
  l <> [] -> Forall (fun p => reads_back p.2) l -> NoDup (acc ++ l).*1 ->
  (fuel_list ((fun p => fuel_of p.2) <$> l) <= fuel)%nat ->
  parse_members fuel acc (members_text l +:+ String "}" r) = Some (JObj (acc ++ l), r).
Proof.
  induction l as [|[k x] l IH]; intros acc fuel r Hn Hl Hd Hf; [done|].
  apply Forall_cons in Hl as [Hx Hl]. cbn [fst snd fmap list_fmap fuel_list] in Hx, Hf.
  assert (k ∉ acc.*1) as Hk.
  { rewrite fmap_app in Hd. apply NoDup_app in Hd as (_ & Hd & _). intros Hin. apply (Hd k Hin). left. }
  destruct fuel as [|fuel]; [lia|].
  assert (forall t, ends_value t -> parse_members (S fuel) acc (member_text (k, x) +:+ t)
    = match skip_ws t with
      | String "," r4 => parse_members fuel (acc ++ [(k, x)]) r4
      | String "}" r4 => Some (JObj (acc ++ [(k, x)]), r4)
      | _ => None
      end) as Hstep.
  { intros t Ht. unfold member_text, quote. cbn [fst snd].
    assert ((String dquote (quote_chars k +:+ String dquote "") +:+ ":" +:+ stringify x) +:+ t
      = String dquote (quote_chars k +:+ String dquote (String ":" (stringify x +:+ t)))) as ->.
    { rewrite <- string_app_assoc. change (String ?c ?a +:+ ?b) with (String c (a +:+ b)).
      by rewrite <- string_app_assoc. }
    cbn [parse_members]. change (skip_ws (String dquote ?a)) with (String dquote a). unfold dquote at 1. cbv iota.
    rewrite parse_chars_back. cbv iota beta. change (skip_ws (String ":" ?a)) with (String ":" a). cbv iota.
    rewrite Hx by (lia || done). cbv iota beta zeta. by rewrite omap_set_new. }
  destruct l as [|p l].
  - cbn [members_text]. rewrite Hstep by (right; by right). reflexivity.
  - change (members_text ((k, x) :: p :: l)) with (member_text (k, x) +:+ "," +:+ members_text (p :: l)).
    rewrite <- string_app_assoc. change (("," +:+ ?a) +:+ ?b) with (String "," (a +:+ b)).
    rewrite Hstep by by left. cbn [skip_ws json_space].
    rewrite (IH (acc ++ [(k, x)])); [by rewrite <- app_assoc|done|done|by rewrite <- app_assoc|lia].
Qed.

(** What a value's text starts with does not close an array. *)
Lemma value_not_bracket {A} f s x (a : string -> A) (b : A) :
  parse_value f s = Some x -> match skip_ws s with String "]" r => a r | _ => b end = b.
Proof.
  destruct f as [|f]; [done|]. cbn [parse_value]. destruct (skip_ws s) as [|c t]; [done|].
  destruct (decide (c = "]"%char)) as [->|Hc]; [discriminate|].
  intros _. by destruct c as [[] [] [] [] [] [] [] []].
Qed.

Lemma json_ok_reads_back v : json_ok v -> reads_back v.
Proof.
  induction v as [|b|n|s|l IH|l IH] using json_ind'; intros Hok fuel r Hf Hr.
  - destruct fuel; [cbn in Hf; lia|]. reflexivity.
  - destruct fuel; [cbn in Hf; lia|]. by destruct b.
  - destruct fuel; [cbn in Hf; lia|]. cbn [stringify].
    assert (wf_num n /\ isFinite n = true) as [Hw Hfin] by by inversion Hok. rewrite Hfin.
    destruct (num_text_head n r) as (c & t & E & Hc); auto using ends_value_number.
    rewrite E, (parse_value_number _ _ _ Hc), <- E, parse_number_back by auto using ends_value_number. done.
  - destruct fuel; [cbn in Hf; lia|]. cbn [stringify]. unfold quote.
    change (String dquote (quote_chars s +:+ String dquote "") +:+ r)
      with (String dquote ((quote_chars s +:+ String dquote "") +:+ r)).
    rewrite <- string_app_assoc. change (String dquote "" +:+ r) with (String dquote r).
    cbn [parse_value]. change (skip_ws (String dquote ?a)) with (String dquote a). unfold dquote at 1.
    cbv iota. by rewrite parse_chars_back.
  - rewrite fuel_arr in Hf. destruct fuel as [|fuel]; [lia|]. rewrite stringify_arr, <- !string_app_assoc.
    change ("[" +:+ ?a +:+ "]" +:+ r) with (String "[" (a +:+ String "]" r)).
    cbn [parse_value]. change (skip_ws (String "[" ?a)) with (String "[" a). cbv iota.
    assert (Forall reads_back l) as Hall.
    { assert (Forall json_ok l) as Hl by by inversion Hok. rewrite Forall_forall in *. auto. }
    destruct l as [|x l]; [done|].
    transitivity (parse_elems fuel [] (elems_text (x :: l) +:+ String "]" r)); [|apply parse_elems_back; done || lia].
    destruct fuel as [|fuel]; [cbn in Hf; lia|]. cbn [parse_elems].
    apply Forall_cons in Hall as [Hx _]. cbn [fmap list_fmap fuel_list] in Hf.
    assert (exists t, ends_value t /\ elems_text (x :: l) +:+ String "]" r = stringify x +:+ t) as (t & Ht & ->).
    { destruct l as [|y l]; [exists (String "]" r); split; [right; by left|done]|].
      exists (String "," (elems_text (y :: l) +:+ String "]" r)). split; [by left|].
      change (elems_text (x :: y :: l)) with (stringify x +:+ "," +:+ elems_text (y :: l)).
      by rewrite <- string_app_assoc. }
    apply (value_not_bracket (S fuel) _ (x, t)). apply Hx; [lia|done].
  - rewrite fuel_obj in Hf. destruct fuel as [|fuel]; [lia|]. rewrite stringify_obj, <- !string_app_assoc.
    change ("{" +:+ ?a +:+ "}" +:+ r) with (String "{" (a +:+ String "}" r)).
    cbn [parse_value]. change (skip_ws (String "{" ?a)) with (String "{" a). cbv iota.
    assert (NoDup l.*1 /\ Forall (fun p => json_ok p.2) l) as [Hd Hl] by by inversion Hok.
    assert (Forall (fun p => reads_back p.2) l) as Hall by (rewrite Forall_forall in *; auto).
    destruct l as [|[k x] l]; [done|].
    transitivity (parse_members fuel [] (members_text ((k, x) :: l) +:+ String "}" r));
      [|apply parse_members_back; done || lia].
    destruct l; reflexivity.
Qed.

(** *** The fuel is there *)

Lemma elems_fuel l :
  Forall (fun v => (fuel_of v <= String.length (stringify v))%nat) l ->
  (fuel_list (fuel_of <$> l) <= S (String.length (elems_text l)))%nat.
Proof.
  induction 1 as [|x l Hx Hl IH]; [cbn; lia|]. cbn [fmap list_fmap fuel_list].
  destruct l as [|y l]; [cbn [fmap list_fmap fuel_list elems_text]; lia|].
  change (elems_text (x :: y :: l)) with (stringify x +:+ "," +:+ elems_text (y :: l)).
  rewrite !string_length_app. change (String.length ",") with 1%nat. lia.
Qed.

Lemma members_fuel l :
  Forall (fun p => (fuel_of p.2 <= String.length (stringify p.2))%nat) l ->
  (fuel_list ((fun p => fuel_of p.2) <$> l) <= S (String.length (members_text l)))%nat.
Proof.
  assert (forall p, (String.length (stringify p.2) <= String.length (member_text p))%nat) as Hm.
  { intros p. unfold member_text. rewrite !string_length_app. lia. }
  induction 1 as [|x l Hx Hl IH]; [cbn; lia|]. cbn [fmap list_fmap fuel_list]. specialize (Hm x).
  destruct l as [|y l]; [cbn [fmap list_fmap fuel_list members_text]; lia|].
  change (members_text (x :: y :: l)) with (member_text x +:+ "," +:+ members_text (y :: l)).
  rewrite !string_length_app. change (String.length ",") with 1%nat. lia.
Qed.

Lemma fuel_text v : json_ok v -> (fuel_of v <= String.length (stringify v))%nat.
Proof.
  induction v as [|b|n|s|l IH|l IH] using json_ind'; intros Hok.
  - cbn. lia.
  - destruct b; cbn; lia.
  - assert (wf_num n /\ isFinite n = true) as [Hw Hfin] by by inversion Hok.
    cbn [fuel_of stringify]. rewrite Hfin.
    destruct (num_text_head n "" Hw Hfin I) as (c & t & E & _). rewrite string_app_nil_r in E.
    rewrite E. cbn. lia.
  - cbn. lia.
  - assert (Forall json_ok l) as Hl by by inversion Hok.
    rewrite fuel_arr, stringify_arr, !string_length_app. cbn [String.length].
    pose proof (elems_fuel l) as He. rewrite !Forall_forall in *. specialize (He ltac:(auto)). lia.
  - assert (Forall (fun p => json_ok p.2) l) as Hl by by inversion Hok.
    rewrite fuel_obj, stringify_obj, !string_length_app. cbn [String.length].
    pose proof (members_fuel l) as He. rewrite !Forall_forall in *. specialize (He ltac:(auto)). lia.
Qed.

Lemma parse_stringify v : json_ok v -> parse (stringify v) = Some v.
Proof.
  intros Hok. pose proof (fuel_text v Hok). unfold parse.
  rewrite <- (string_app_nil_r (stringify v)) at 2.
  by rewrite (json_ok_reads_back v Hok) by (done || lia).
Qed.
