(* ===== verification/Value.v ===== *)
(** * JavaScript values and a few more string operations

    What the configuration checks receive: values the type system could not
    vouch for.  A plain object has [Object.prototype] or no prototype; other
    objects are class instances.  A function or symbol is its text, which is
    all the checks print of it.  A [bigint], which [JSON.stringify] refuses,
    and a cyclic object are left out.  Messages written in the source with
    characters above [U+00FF] are kept here as their UTF-8 bytes. *)
From S2P Require Import Prelude JsNumber JsString Json.
Local Open Scope Z_scope.

(** ** Values *)

Inductive value :=
  | VUndefined
  | VNull
  | VBool (b : bool)
  | VNum (n : num)
  | VStr (s : string)
  | VArr (l : list value)
  | VObj (plain : bool) (properties : list (string * value))
  | VFun (text : string).

Section value_ind.
Variable P : value -> Prop.
Hypothesis Hundef : P VUndefined.
Hypothesis Hnull : P VNull.
Hypothesis Hbool : forall b, P (VBool b).
Hypothesis Hnum : forall n, P (VNum n).
Hypothesis Hstr : forall s, P (VStr s).
Hypothesis Harr : forall l, Forall P l -> P (VArr l).
Hypothesis Hobj : forall plain l, Forall (fun p => P p.2) l -> P (VObj plain l).
Hypothesis Hfun : forall text, P (VFun text).

Fixpoint value_ind' (v : value) : P v :=
  match v with
  | VUndefined => Hundef
  | VNull => Hnull
  | VBool b => Hbool b
  | VNum n => Hnum n
  | VStr s => Hstr s
  | VArr l =>
      Harr l ((fix go l : Forall P l :=
        match l with
        | [] => List.Forall_nil _
        | x :: l' => List.Forall_cons _ _ _ (value_ind' x) (go l')
        end) l)
  | VObj plain l =>
      Hobj plain l ((fix go l : Forall (fun p : string * value => P p.2) l :=
        match l with
        | [] => List.Forall_nil _
        | p :: l' => List.Forall_cons _ _ _ (value_ind' p.2) (go l')
        end) l)
  | VFun text => Hfun text
  end.
End value_ind.

(** What [JSON.stringify] makes of a value: nothing of [undefined] and of a
    function; an array writes those as [null], an object leaves them out. *)
Fixpoint to_json (v : value) : option json :=
  match v with
  | VUndefined | VFun _ => None
  | VNull => Some JNull
  | VBool b => Some (JBool b)
  | VNum n => Some (JNum n)
  | VStr s => Some (JStr s)
  | VArr l => Some (JArr (map (fun x => default JNull (to_json x)) l))
  | VObj _ l =>
      Some (JObj ((fix go l := match l with
        | [] => []
        | (k, x) :: l' => match to_json x with Some j => (k, j) :: go l' | None => go l' end
        end) l))
  end.

Fixpoint of_json (j : json) : value :=
  match j with
  | JNull => VNull
  | JBool b => VBool b
  | JNum n => VNum n
  | JStr s => VStr s
  | JArr l => VArr (map of_json l)
  | JObj l =>
      VObj true ((fix go l := match l with
        | [] => []
        | (k, x) :: l' => (k, of_json x) :: go l'
        end) l)
  end.

(** [`${JSON.stringify(v)}`]. *)
Definition stringify_text (v : value) : string :=
  match to_json v with Some j => stringify j | None => "undefined" end.

(** Text between double quotes, as the messages write a name. *)
Definition dq (s : string) : string := String dquote (s +:+ String dquote "").

(** [xs.join(sep)]. *)
Fixpoint join (sep : string) (l : list string) : string :=
  match l with
  | [] => ""
  | [x] => x
  | x :: l' => x +:+ sep +:+ join sep l'
  end.

(** [names.map((name) => `"${name}"`).join(", ")]. *)
Definition quote_names (names : list string) : string := join ", " (map dq names).

(** [s.split(c)] for a one-character separator: never empty. *)
Fixpoint split_char (c : ascii) (s : string) : list string :=
  match s with
  | EmptyString => [""]
  | String a s' =>
      if bool_decide (a = c) then "" :: split_char c s'
      else match split_char c s' with
           | [] => [String a ""]
           | x :: l => String a x :: l
           end
  end.

(** [/\s/.test(s)]. *)
Fixpoint has_space (s : string) : bool :=
  match s with
  | EmptyString => false
  | String a s' => is_space a || has_space s'
  end.

(** ** Facts *)

Lemma split_char_ne c s : split_char c s <> [].
Proof. destruct s as [|a s]; simpl; [done|]. case_bool_decide; [done|]. by destruct (split_char c s). Qed.

Lemma split_char_app c s t :
  includes_char c s = false -> split_char c (s +:+ String c t) = s :: split_char c t.
Proof.
  induction s as [|a s IH]; simpl.
  - intros _. by rewrite bool_decide_true.
  - intros [Ha Hs]%orb_false_iff. rewrite Ha, IH; done.
Qed.

Lemma split_char_none c s : includes_char c s = false -> split_char c s = [s].
Proof.
  induction s as [|a s IH]; simpl; [done|].
  intros [Ha Hs]%orb_false_iff. by rewrite Ha, IH.
Qed.

Lemma join_split c s : join (String c "") (split_char c s) = s.
Proof.
  induction s as [|a s IH]; simpl; [done|]. case_bool_decide as Ha.
  - subst. pose proof (split_char_ne c s). destruct (split_char c s); [done|].
    simpl in *. by rewrite IH.
  - pose proof (split_char_ne c s). destruct (split_char c s) as [|x l]; [done|].
    destruct l; simpl in *; by rewrite <- IH.
Qed.
