(* ===== verification/ClientName.v ===== *)
(** * Client names

    [packages/core/src/utils/clientName.ts]: the canonical
    [<template>:<organization | _>:<instance>[:<path>]] name of a client, the
    rules a segment must keep, and the parser. *)
From S2P Require Import Prelude JsNumber JsString Json Value.
Local Open Scope Z_scope.

Definition GLOBAL_ORGANIZATION_SEGMENT : string := "_".

Definition segment_error (message : string) : result unit :=
  Throw (ConfigurationError "invalid_client_name_segment" message).

Definition assertNameSegment (v : value) (field : string) : result unit :=
  match v with
  | VStr s =>
      if bool_decide (s = "") then
        segment_error (field +:+ " must be a non-empty string. Received " +:+ stringify_text v +:+ ".")
      else if includes_char ":" s then
        segment_error (field +:+ " must not contain " +:+ dq ":"
          +:+ " — client names are colon-delimited, and a colon here lets two different tenants resolve to one client and one credential entry. Received "
          +:+ stringify_text v +:+ ".")
      else if has_space s then
        segment_error (field
          +:+ " must not contain whitespace — it is normalized away when deriving backend keys, so two values differing only by a space would share one credential entry. Received "
          +:+ stringify_text v +:+ ".")
      else if bool_decide (field = "organizationId") && bool_decide (s = GLOBAL_ORGANIZATION_SEGMENT) then
        segment_error ("organizationId must not be " +:+ dq GLOBAL_ORGANIZATION_SEGMENT
          +:+ " — that value is reserved to mean " +:+ dq "no organization"
          +:+ ", so a tenant using it would collide with every global client sharing its instanceId.")
      else Ok tt
  | _ => segment_error (field +:+ " must be a non-empty string. Received " +:+ stringify_text v +:+ ".")
  end.

(** The two credential fields a name is built from; no organization is
    [undefined] or [null]. *)
Record NameCredentials := { instanceId : string; organizationId : option string }.

Definition buildClientName (templateName : string) (creds : NameCredentials) : result string :=
  assertNameSegment (VStr (instanceId creds)) "instanceId" ;;
  match organizationId creds with
  | Some o => assertNameSegment (VStr o) "organizationId"
  | None => Ok tt
  end ;;
  Ok (templateName +:+ ":" +:+ default "_" (organizationId creds) +:+ ":" +:+ instanceId creds).

Record ParsedClientName := {
  pn_templateName : string;
  pn_organizationId : option string;
  pn_alias : string;
  pn_subClientPath : string
}.

Definition parseClientName (clientName : string) : option ParsedClientName :=
  match split_char ":" clientName with
  | templateName :: orgSegment :: alias :: rest =>
      Some {| pn_templateName := templateName;
              pn_organizationId := if bool_decide (orgSegment = "_") then None else Some orgSegment;
              pn_alias := alias;
              pn_subClientPath := join ":" rest |}
  | _ => None
  end.

(** ** What the rules promise *)

(** A segment the rules accept. *)
Definition good_segment (field s : string) : Prop :=
  s <> "" /\ includes_char ":" s = false /\ has_space s = false /\
  (field = "organizationId" -> s <> "_").

Lemma assertNameSegment_ok field s :
  assertNameSegment (VStr s) field = Ok tt <-> good_segment field s.
Proof.
  unfold assertNameSegment, good_segment, GLOBAL_ORGANIZATION_SEGMENT.
  case_bool_decide; [naive_solver|].
  destruct (includes_char ":" s); [naive_solver|]. destruct (has_space s); [naive_solver|].
  destruct (bool_decide (field = "organizationId") && bool_decide (s = "_")) eqn:E.
  - apply andb_true_iff in E as [E1%bool_decide_eq_true E2%bool_decide_eq_true].
    split; [done|]. naive_solver.
  - apply andb_false_iff in E as [E%bool_decide_eq_false|E%bool_decide_eq_false]; naive_solver.
Qed.

Lemma buildClientName_ok t c n :
  buildClientName t c = Ok n <->
  good_segment "instanceId" (instanceId c) /\
  (forall o, organizationId c = Some o -> good_segment "organizationId" o) /\
  n = t +:+ ":" +:+ default "_" (organizationId c) +:+ ":" +:+ instanceId c.
Proof.
  unfold buildClientName. destruct c as [i o]. cbn [instanceId organizationId].
  pose proof (assertNameSegment_ok "instanceId" i) as Hi.
  destruct (assertNameSegment (VStr i) "instanceId") as [[]|e];
    [|split; [done|intros (H%Hi & _); done]].
  destruct Hi as [Hi _]. specialize (Hi eq_refl). destruct o as [o|].
  - pose proof (assertNameSegment_ok "organizationId" o) as Ho.
    destruct (assertNameSegment (VStr o) "organizationId") as [[]|e];
      [|split; [done|intros (_ & H & _); specialize (H o eq_refl); apply Ho in H; done]].
    destruct Ho as [Ho _]. specialize (Ho eq_refl).
    split; [intros [= <-]|intros (_ & _ & ->); done]. split_and!; [done| |done]. by intros ? [= <-].
  - split; [intros [= <-]|intros (_ & _ & ->); done]. by split_and!.
Qed.

(** A sub-client's path, joined to the root name. *)
Definition with_path (name path : string) : string :=
  if bool_decide (path = "") then name else name +:+ ":" +:+ path.

(** Parsing gives back the segments a name was built from. *)
Lemma parse_segments t o i path :
  includes_char ":" t = false -> includes_char ":" o = false -> includes_char ":" i = false ->
  parseClientName (with_path (t +:+ ":" +:+ o +:+ ":" +:+ i) path)
  = Some {| pn_templateName := t;
            pn_organizationId := if bool_decide (o = "_") then None else Some o;
            pn_alias := i; pn_subClientPath := path |}.
Proof.
  intros Ht Ho Hi. unfold parseClientName, with_path. case_bool_decide as Hp.
  - subst. change (t +:+ ":" +:+ o +:+ ":" +:+ i) with (t +:+ String ":" (o +:+ String ":" i)).
    rewrite !split_char_app by done. by rewrite split_char_none.
  - assert ((t +:+ ":" +:+ o +:+ ":" +:+ i) +:+ ":" +:+ path
            = t +:+ String ":" (o +:+ String ":" (i +:+ String ":" path))) as ->
      by (rewrite <- !string_app_assoc; reflexivity).
    rewrite !split_char_app by done. by rewrite join_split.
Qed.

Lemma default_segment c n t :
  buildClientName t c = Ok n ->
  includes_char ":" (default "_" (organizationId c)) = false /\
  includes_char ":" (instanceId c) = false /\
  (if bool_decide (default "_" (organizationId c) = "_") then None
   else Some (default "_" (organizationId c))) = organizationId c.
Proof.
  intros ((_ & Hi & _) & Ho & _)%buildClientName_ok. destruct (organizationId c) as [o|]; cbn.
  - destruct (Ho o eq_refl) as (_ & Hc & _ & Hu). split_and!; [done..|].
    by rewrite bool_decide_false by auto.
  - split_and!; [done..|]. reflexivity.
Qed.

(** C19.  A client name identifies its tenant: parsing the name built for a
    template, an organization and an instance, with any sub-client path joined
    to it, gives those four back, so two tenants never share a name. *)
Theorem client_name_roundtrip (templateName path name : string) (creds : NameCredentials) :
  includes_char ":" templateName = false -> buildClientName templateName creds = Ok name ->
  parseClientName (with_path name path)
  = Some {| pn_templateName := templateName; pn_organizationId := organizationId creds;
            pn_alias := instanceId creds; pn_subClientPath := path |}.
Proof.
  intros Ht Hn. pose proof (default_segment _ _ _ Hn) as (Ho & Hi & He).
  apply buildClientName_ok in Hn as (_ & _ & ->).
  rewrite parse_segments by done. by rewrite He.
Qed.

Lemma client_name_roundtrip_witness :
  parseClientName (with_path "acme:org1:main" "orders:eu")
  = Some {| pn_templateName := "acme"; pn_organizationId := Some "org1";
            pn_alias := "main"; pn_subClientPath := "orders:eu" |}.
Proof.
  apply (client_name_roundtrip "acme" "orders:eu" "acme:org1:main"
    {| instanceId := "main"; organizationId := Some "org1" |}); reflexivity.
Defined.
