(* ===== verification/RateLimit.v ===== *)
(** * Rate-limit configurations

    [packages/core/src/utils/rateLimit.ts]: how the names of a declared list of
    limits are resolved, and the checks a list passes before a client is built
    from it or takes it as an update.  The fields have the types
    [client/types.ts] declares for them; a [type] that is none of the four, or
    none at all, is the case the checks refuse. *)
From S2P Require Import Prelude JsNumber JsString Json Value.
Local Open Scope Z_scope.

(** ** Data: client/types.ts *)

Record RequestLimitClientOptions := {
  rl_interval : num;
  rl_tokensToAdd : num;
  rl_maxTokens : num;
  rl_maxDebt : option num
}.

Inductive RateLimitData :=
  | requestLimit (o : RequestLimitClientOptions)
  | concurrencyLimit (maxConcurrency : num)
  | noLimit
  | sharedLimit (clientName : string)
  | unknownLimit (type : option string).

Record DeclaredRateLimit := { d_limit : RateLimitData; d_name : option string }.
Record NamedRateLimitData := { n_limit : RateLimitData; n_name : string }.

(** The [type] tag. *)
Definition type_of (l : RateLimitData) : option string :=
  match l with
  | requestLimit _ => Some "requestLimit"
  | concurrencyLimit _ => Some "concurrencyLimit"
  | noLimit => Some "noLimit"
  | sharedLimit _ => Some "sharedLimit"
  | unknownLimit t => t
  end.

Definition is_shared (l : RateLimitData) : bool :=
  match l with sharedLimit _ => true | _ => false end.

Definition has_budget (l : RateLimitData) : bool :=
  match l with requestLimit _ | concurrencyLimit _ => true | _ => false end.

(** ** Names *)

Definition DEFAULT_RATE_LIMIT_NAME : string := "default".

Definition name_char (c : ascii) : bool :=
  ((97 <=? code c) && (code c <=? 122)) || ((48 <=? code c) && (code c <=? 57))
  || bool_decide (c = "_"%char).

Fixpoint all_chars (p : ascii -> bool) (s : string) : bool :=
  match s with
  | EmptyString => true
  | String c s' => p c && all_chars p s'
  end.

(** [RATE_LIMIT_NAME.test(s)]: [/^[a-z0-9_]{1,64}$/]. *)
Definition rate_limit_name_test (s : string) : bool :=
  let n := Z.of_nat (String.length s) in (1 <=? n) && (n <=? 64) && all_chars name_char s.

Definition RATE_LIMIT_NAME : string := "/^[a-z0-9_]{1,64}$/".

Definition inheritedName (type : option string) (previous : option (list NamedRateLimitData))
    (taken : list string) : string :=
  let sameType := filter (fun l => type_of (n_limit l) = type) (default [] previous) in
  match sameType with
  | [l] => if bool_decide (n_name l ∈ taken) then DEFAULT_RATE_LIMIT_NAME else n_name l
  | _ => DEFAULT_RATE_LIMIT_NAME
  end.

(** The names a list gives itself, and its unnamed limits. *)
Definition given_names (config : list DeclaredRateLimit) : list string := omap d_name config.
Definition unnamed (config : list DeclaredRateLimit) : list DeclaredRateLimit :=
  filter (fun l => d_name l = None) config.

Definition normalizeRateLimit (config : list DeclaredRateLimit)
    (previous : option (list NamedRateLimitData)) : list NamedRateLimitData :=
  let taken := given_names config in
  let inheritFrom := if bool_decide (length (unnamed config) = 1%nat) then previous else None in
  map (fun l => {| n_limit := d_limit l;
                   n_name := default (inheritedName (type_of (d_limit l)) inheritFrom taken) (d_name l) |})
      config.

Definition isSharedLimitOnly (config : list RateLimitData) : bool :=
  match config with [l] => is_shared l | _ => false end.

Definition soleRateLimit (config : list NamedRateLimitData) : option NamedRateLimitData :=
  match config with [l] => Some l | _ => None end.

Definition hasMeteredBudget (config : list NamedRateLimitData) : bool :=
  existsb (fun l => has_budget (n_limit l)) config.

(** ** Checks *)

Definition assertRateLimitName (name : value) (clientName : string) : result unit :=
  if match name with VStr s => rate_limit_name_test s | _ => false end then Ok tt
  else Throw (ConfigurationError "invalid_rate_limit_name"
    ("Client " +:+ dq clientName +:+ " declares a rate limit whose name is "
     +:+ stringify_text (match name with VUndefined => VNull | _ => name end)
     +:+ ". Every entry of a multi-limit array needs a name matching " +:+ RATE_LIMIT_NAME
     +:+ " — it is the key its bucket is stored under, so it must be stable and unambiguous. Try "
     +:+ dq "per_second" +:+ " or " +:+ dq "per_day" +:+ ".")).

Definition describeEntry (entryName : option string) : string :=
  match entryName with None => "" | Some n => " rate limit " +:+ dq n end.

(** Neither finite nor positive. *)
Definition not_positive (x : num) : bool := negb (isFinite x) || (x <=? int 0)%num.

(** Neither finite nor at least zero. *)
Definition negative (x : num) : bool := negb (isFinite x) || (x <? int 0)%num.

Definition budget_problems (o : RequestLimitClientOptions) : list string :=
  (if not_positive (rl_tokensToAdd o) then ["tokensToAdd must be greater than 0"] else []) ++
  (if not_positive (rl_interval o) then ["interval must be greater than 0"] else []) ++
  (if not_positive (rl_maxTokens o) then ["maxTokens must be greater than 0"] else []) ++
  (match rl_maxDebt o with
   | Some d => if negative d
               then ["maxDebt must be a finite number that is not negative"] else []
   | None => []
   end).

Definition assertUsableBudget (o : RequestLimitClientOptions) (clientName : string)
    (entryName : option string) : result unit :=
  match budget_problems o with
  | [] => Ok tt
  | problems =>
      Throw (ConfigurationError "invalid_rate_limit"
        ("Client " +:+ dq clientName +:+ describeEntry entryName
         +:+ " has an unusable requestLimit: " +:+ join "; " problems +:+ ". Received "
         +:+ stringify (JObj ([("maxTokens", JNum (rl_maxTokens o));
                               ("tokensToAdd", JNum (rl_tokensToAdd o));
                               ("interval", JNum (rl_interval o))] ++
                              match rl_maxDebt o with
                              | Some d => [("maxDebt", JNum d)]
                              | None => []
                              end)) +:+ "."))
  end.

Definition assertUsableConcurrency (maxConcurrency : num) (clientName : string)
    (entryName : option string) : result unit :=
  if isFinite maxConcurrency && (maxConcurrency >? int 0)%num then Ok tt
  else Throw (ConfigurationError "invalid_rate_limit"
    ("Client " +:+ dq clientName +:+ describeEntry entryName
     +:+ " has an unusable concurrencyLimit: maxConcurrency must be a finite number greater than 0. Received "
     +:+ stringify (JNum maxConcurrency) +:+ ".")).

Definition assertUsableRateLimit (l : RateLimitData) (clientName : string)
    (entryName : option string) : result unit :=
  match l with
  | requestLimit o => assertUsableBudget o clientName entryName
  | concurrencyLimit k => assertUsableConcurrency k clientName entryName
  | sharedLimit owner =>
      if bool_decide (owner = "") then
        Throw (ConfigurationError "invalid_rate_limit"
          ("Client " +:+ dq clientName +:+ describeEntry entryName
           +:+ " declares a sharedLimit with no clientName. Name the client that owns the budget."))
      else Ok tt
  | noLimit => Ok tt
  | unknownLimit t =>
      Throw (ConfigurationError "unknown_rate_limit_type"
        ("Client " +:+ dq clientName +:+ describeEntry entryName
         +:+ " has an unrecognised rateLimit.type "
         +:+ stringify (match t with Some s => JStr s | None => JNull end)
         +:+ ". Expected one of: requestLimit, concurrencyLimit, sharedLimit, noLimit."))
  end.

Definition duplicate_message (name clientName : string) : string :=
  if bool_decide (name = DEFAULT_RATE_LIMIT_NAME) then
    "Client " +:+ dq clientName +:+ " declares two rate limits named " +:+ dq DEFAULT_RATE_LIMIT_NAME
    +:+ ", the name a limit without one takes. A name keys the limit's budget, so give each of them its own — "
    +:+ dq "per_second" +:+ " and " +:+ dq "per_day" +:+ ", say."
  else
    "Client " +:+ dq clientName +:+ " declares two rate limits named " +:+ dq name
    +:+ ". Names key the buckets, so duplicates would meter both limits against one balance.".

(** The loop of [assertUsableRateLimits]: [seen] holds the names so far. *)
Fixpoint assert_entries (seen : list string) (config : list NamedRateLimitData)
    (clientName : string) : result unit :=
  match config with
  | [] => Ok tt
  | limit :: config' =>
      assertRateLimitName (VStr (n_name limit)) clientName ;;
      if bool_decide (n_name limit ∈ seen) then
        Throw (ConfigurationError "invalid_rate_limit" (duplicate_message (n_name limit) clientName))
      else
        assertUsableRateLimit (n_limit limit) clientName (Some (n_name limit)) ;;
        assert_entries (oset_add (n_name limit) seen) config' clientName
  end.

Definition assertUsableRateLimits (config : list NamedRateLimitData) (clientName : string)
    : result unit :=
  let shared := filter (fun l => is_shared (n_limit l) = true) config in
  match config with
  | [] =>
      Throw (ConfigurationError "invalid_rate_limit"
        ("Client " +:+ dq clientName
         +:+ " declares an empty rate-limit array. Omit the property for the noLimit default, or name at least one limit."))
  | _ =>
      if (1 <? length shared)%nat then
        Throw (ConfigurationError "shared_limit_not_alone"
          ("Client " +:+ dq clientName +:+ " declares "
           +:+ num_to_string (int (Z.of_nat (length shared)))
           +:+ " sharedLimit entries. A client can draw on one shared budget at most, since it takes that owner's queue as its own."))
      else if ((0 <? length shared) && (1 <? length config))%nat then
        Throw (ConfigurationError "shared_limit_not_alone"
          ("Client " +:+ dq clientName +:+ " declares a sharedLimit alongside "
           +:+ num_to_string (int (Z.of_nat (length config - length shared)))
           +:+ " other rate limit(s). A sharedLimit must be the only limit a client declares: it has no queue of its own — the owner's controller drains one queue for everything on that budget — so a client that also had budgets of its own would need a second queue, and nothing would arbitrate ordering between the two. Give this client its own limits, or share the owner's; not both."))
      else assert_entries [] config clientName
  end.

(** The shortest refill interval of a list, if it has a usable one. *)
Definition shortest_step (shortest : option num) (l : NamedRateLimitData) : option num :=
  match n_limit l with
  | requestLimit o =>
      if not_positive (rl_interval o) then shortest
      else Some (match shortest with
                 | None => rl_interval o
                 | Some s => fmin s (rl_interval o)
                 end)
  | _ => shortest
  end.

Definition shortestRefillInterval (config : list NamedRateLimitData) : option num :=
  fold_left shortest_step config None.

(** ** Specification of a usable list *)

Definition positive (x : num) : Prop := isFinite x = true /\ (int 0 <? x)%num = true.

(** A limit that can admit something. *)
Definition admits (l : RateLimitData) : Prop :=
  match l with
  | requestLimit o =>
      positive (rl_tokensToAdd o) /\ positive (rl_interval o) /\ positive (rl_maxTokens o) /\
      forall d, rl_maxDebt o = Some d -> isFinite d = true /\ (int 0 <=? d)%num = true
  | concurrencyLimit k => positive k
  | noLimit => True
  | sharedLimit owner => owner <> ""
  | unknownLimit _ => False
  end.

Record usable_config (config : list NamedRateLimitData) : Prop := {
  uc_nonempty : config <> [];
  uc_alone : forall l, l ∈ config -> is_shared (n_limit l) = true -> config = [l];
  uc_names : Forall (fun l => rate_limit_name_test (n_name l) = true) config;
  uc_distinct : NoDup (n_name <$> config);
  uc_admits : Forall (fun l => admits (n_limit l)) config
}.

Lemma not_positive_false x : not_positive x = false <-> positive x.
Proof.
  unfold not_positive, positive. destruct (isFinite x) eqn:E; cbn; [|naive_solver].
  rewrite leb_neg_ltb by done. destruct (int 0 <? x)%num; naive_solver.
Qed.

Lemma negative_false x : negative x = false <-> isFinite x = true /\ (int 0 <=? x)%num = true.
Proof.
  unfold negative. destruct (isFinite x) eqn:E; cbn; [|naive_solver].
  rewrite ltb_neg_leb by done. destruct (int 0 <=? x)%num; naive_solver.
Qed.

Lemma assertUsableBudget_ok o c e :
  assertUsableBudget o c e = Ok tt <-> admits (requestLimit o).
Proof.
  unfold assertUsableBudget. cbn. rewrite <- !not_positive_false.
  assert (budget_problems o = [] <-> not_positive (rl_tokensToAdd o) = false /\
    not_positive (rl_interval o) = false /\ not_positive (rl_maxTokens o) = false /\
    forall d, rl_maxDebt o = Some d -> isFinite d = true /\ (int 0 <=? d)%num = true) as <-.
  { unfold budget_problems.
    destruct (not_positive (rl_tokensToAdd o)); [naive_solver|].
    destruct (not_positive (rl_interval o)); [naive_solver|].
    destruct (not_positive (rl_maxTokens o)); [naive_solver|].
    destruct (rl_maxDebt o) as [d|]; cbn [app]; [|naive_solver].
    destruct (negative d) eqn:Hd; split; try done.
    - intros (_ & _ & _ & H). specialize (H d eq_refl). apply negative_false in H. congruence.
    - intros _. split_and!; try done. intros ? [= <-]. by apply negative_false. }
  destruct (budget_problems o); [done|]. split; done.
Qed.

Lemma assertUsableConcurrency_ok k c e : assertUsableConcurrency k c e = Ok tt <-> positive k.
Proof.
  unfold assertUsableConcurrency, positive, gtb.
  destruct (isFinite k); cbn; [|split; [done|by intros []]].
  destruct (int 0 <? k)%num; split; try done. by intros [].
Qed.

Lemma assertUsableRateLimit_ok l c e : assertUsableRateLimit l c e = Ok tt <-> admits l.
Proof.
  destruct l as [o|k| |owner|t]; cbn [assertUsableRateLimit].
  - apply assertUsableBudget_ok.
  - apply assertUsableConcurrency_ok.
  - done.
  - cbn. case_bool_decide; naive_solver.
  - done.
Qed.

Lemma assertRateLimitName_ok s c :
  assertRateLimitName (VStr s) c = Ok tt <-> rate_limit_name_test s = true.
Proof. unfold assertRateLimitName. destruct (rate_limit_name_test s); split; done. Qed.

Lemma bind_result_ok {A} (m : result unit) (k : result A) (a : A) :
  (m ;; k) = Ok a <-> m = Ok tt /\ k = Ok a.
Proof. destruct m as [[]|e]; cbn; naive_solver. Qed.

Lemma assert_entries_ok seen config c :
  assert_entries seen config c = Ok tt <->
  Forall (fun l => rate_limit_name_test (n_name l) = true) config /\
  (forall l, l ∈ config -> n_name l ∉ seen) /\ NoDup (n_name <$> config) /\
  Forall (fun l => admits (n_limit l)) config.
Proof.
  revert seen. induction config as [|l config IH]; intros seen; cbn [assert_entries fmap list_fmap].
  { split; [|done]. intros _. split_and!; try constructor. intros l. by rewrite elem_of_nil. }
  rewrite bind_result_ok, assertRateLimitName_ok, !Forall_cons, NoDup_cons.
  case_bool_decide as Hs.
  { split; [naive_solver|]. intros (_ & H & _). exfalso. apply (H l); [|done]. left. }
  rewrite bind_result_ok, assertUsableRateLimit_ok, IH.
  assert (forall x, x ∈ oset_add (n_name l) seen <-> x = n_name l \/ x ∈ seen) as Hadd.
  { intros x. unfold oset_add. case_decide; set_solver. }
  setoid_rewrite Hadd. setoid_rewrite elem_of_cons. rewrite list_elem_of_fmap.
  split.
  - intros (? & ? & ? & Hn & ? & ?). split_and!; try done; [naive_solver|].
    intros (l' & Heq & Hin). apply (Hn l' Hin). naive_solver.
  - intros ((? & ?) & Hn & (Hd & ?) & ? & ?). split_and!; try done.
    intros l' Hin [Heq|Hin']; [|naive_solver]. apply Hd. exists l'. naive_solver.
Qed.

Lemma shared_alone (config : list NamedRateLimitData) :
  let shared := filter (fun l => is_shared (n_limit l) = true) config in
  config <> [] ->
  ((1 <? length shared) || ((0 <? length shared) && (1 <? length config)))%nat = false <->
  (forall l, l ∈ config -> is_shared (n_limit l) = true -> config = [l]).
Proof.
  cbn zeta. intros Hne. destruct config as [|a [|b config]]; [done| |].
  - split; intros H.
    + by intros l ->%list_elem_of_singleton _.
    + rewrite filter_cons. by case_decide.
  - split; intros H.
    + intros l Hl Hsh. exfalso. assert (l ∈ filter (fun l => is_shared (n_limit l) = true) (a :: b :: config)) as Hin
        by (apply list_elem_of_filter; done).
      destruct (filter _ _) as [|x fl]; [by apply elem_of_nil in Hin|].
      cbn in H. rewrite orb_true_r in H. done.
    + destruct (filter _ _) as [|x fl] eqn:E; [done|]. exfalso.
      assert (x ∈ filter (fun l => is_shared (n_limit l) = true) (a :: b :: config)) as [Hx Hin]%list_elem_of_filter
        by (rewrite E; left).
      by specialize (H x Hin Hx).
Qed.

(** Every refusal is a configuration error. *)
Definition config_error (r : result unit) : Prop :=
  match r with Ok _ => True | Throw e => exists code message, e = ConfigurationError code message end.

Lemma config_error_bind m k : config_error m -> config_error k -> config_error (m ;; k).
Proof. by destruct m. Qed.

Lemma config_error_limit l c e : config_error (assertUsableRateLimit l c e).
Proof.
  destruct l as [o|k| |owner|t]; cbn [assertUsableRateLimit]; [| | |case_bool_decide|]; cbn; eauto.
  - unfold assertUsableBudget. destruct (budget_problems o); cbn; eauto.
  - unfold assertUsableConcurrency. destruct (_ && _); cbn; eauto.
Qed.

Lemma config_error_entries seen config c : config_error (assert_entries seen config c).
Proof.
  revert seen. induction config as [|l config IH]; intros seen; cbn [assert_entries]; [done|].
  apply config_error_bind.
  { unfold assertRateLimitName. destruct (rate_limit_name_test _); cbn; eauto. }
  case_bool_decide; [cbn; eauto|]. apply config_error_bind; [apply config_error_limit|apply IH].
Qed.

Lemma assertUsableRateLimits_throws config c e :
  assertUsableRateLimits config c = Throw e -> exists code message, e = ConfigurationError code message.
Proof.
  intros H. change (config_error (Throw e)). rewrite <- H. unfold assertUsableRateLimits.
  destruct config as [|l config]; [cbn; eauto|].
  destruct (1 <? _)%nat; [cbn; eauto|]. destruct (_ && _)%nat; [cbn; eauto|].
  apply config_error_entries.
Qed.

Lemma usable_config_iff config c : assertUsableRateLimits config c = Ok tt <-> usable_config config.
Proof.
  unfold assertUsableRateLimits. destruct (decide (config = [])) as [->|Hne].
  { split; [done|]. by intros []. }
  pose proof (shared_alone config Hne) as Hs. cbn zeta in Hs.
  destruct config as [|l config]; [done|].
  destruct (1 <? _)%nat; [|destruct (_ && _)%nat].
  + split; [done|]. intros [_ H]. by apply Hs in H.
  + split; [done|]. intros [_ H]. by apply Hs in H.
  + rewrite assert_entries_ok. destruct Hs as [Hs _]. specialize (Hs eq_refl).
    split; [intros (? & _ & ? & ?); by split|intros []; split_and!; try done].
    intros l' _. apply not_elem_of_nil.
Qed.

(** C20.  The check accepts exactly the usable lists: it returns if and only if
    the list is not empty, a [sharedLimit] stands alone, every name is a valid
    key segment and names are distinct, and every budget can admit something.
    Anything else it refuses with a [ConfigurationError]. *)
Theorem usable_config_decided (config : list NamedRateLimitData) (clientName : string) :
  (assertUsableRateLimits config clientName = Ok tt <-> usable_config config) /\
  forall e, assertUsableRateLimits config clientName = Throw e ->
    exists code message, e = ConfigurationError code message.
Proof. split; [apply usable_config_iff|apply assertUsableRateLimits_throws]. Qed.

(** ** Names resolved *)

(** The limits of one type. *)
Definition of_type (t : option string) (config : list DeclaredRateLimit) : list DeclaredRateLimit :=
  filter (fun l => type_of (d_limit l) = t) config.

Lemma normalize_types config prev :
  d_limit <$> config = n_limit <$> normalizeRateLimit config prev.
Proof. unfold normalizeRateLimit. rewrite <- list_fmap_compose. done. Qed.

(** With other than one unnamed limit nothing is inherited. *)
Lemma normalize_no_inherit config prev :
  length (unnamed config) <> 1%nat ->
  normalizeRateLimit config prev = normalizeRateLimit config None.
Proof. intros H. unfold normalizeRateLimit. by rewrite bool_decide_false. Qed.

Lemma inheritedName_cases t prev taken :
  inheritedName t prev taken = DEFAULT_RATE_LIMIT_NAME \/ inheritedName t prev taken ∉ taken.
Proof.
  unfold inheritedName. destruct (filter _ _) as [|l [|]]; auto. case_bool_decide; auto.
Qed.

(** The resolved limits of a type are the declared limits of that type. *)
Lemma normalize_of_type t config prev :
  exists name, filter (fun l => type_of (n_limit l) = t) (normalizeRateLimit config prev)
    = (fun l => {| n_limit := d_limit l; n_name := name l |}) <$> of_type t config /\
    forall l, name l = default (inheritedName (type_of (d_limit l))
      (if bool_decide (length (unnamed config) = 1%nat) then prev else None)
      (given_names config)) (d_name l).
Proof.
  eexists (fun l => default (inheritedName (type_of (d_limit l)) _ _) (d_name l)).
  split; [|intros l; reflexivity]. unfold normalizeRateLimit, of_type.
  generalize (given_names config). intros taken.
  generalize (if bool_decide (length (unnamed config) = 1%nat) then prev else None). intros p.
  induction config as [|l config IH]; [done|]. cbn [map]. rewrite !filter_cons. cbn [n_limit].
  case_decide; cbn [fmap list_fmap]; by rewrite IH.
Qed.

Lemma inherited_again t n taken l :
  n_name l = n -> type_of (n_limit l) = t -> n = DEFAULT_RATE_LIMIT_NAME \/ n ∉ taken ->
  forall prev, filter (fun l => type_of (n_limit l) = t) prev = [l] ->
  inheritedName t (Some prev) taken = n.
Proof.
  intros Hn Ht Hor prev Hf. unfold inheritedName. cbn [default from_option id]. rewrite Hf, Hn.
  case_bool_decide; [|done]. destruct Hor; done.
Qed.

(** C21.  An update is stable: applied again to the list it produced, it
    produces that list, so no budget changes its name (and none starts over)
    the second time, provided its one unnamed limit is the only one of its
    type. *)
Theorem normalize_stable (config : list DeclaredRateLimit) (prev : option (list NamedRateLimitData)) :
  (forall l, l ∈ config -> d_name l = None ->
     of_type (type_of (d_limit l)) config = [l] \/ length (unnamed config) <> 1%nat) ->
  normalizeRateLimit config (Some (normalizeRateLimit config prev)) = normalizeRateLimit config prev.
Proof.
  intros Hone. destruct (decide (length (unnamed config) = 1%nat)) as [H1|H1].
  2:{ by rewrite normalize_no_inherit, (normalize_no_inherit config prev). }
  unfold normalizeRateLimit at 1. rewrite bool_decide_true by done.
  unfold normalizeRateLimit at 2. apply list_fmap_ext. intros i l Hl%list_elem_of_lookup_2.
  f_equal. destruct (d_name l) as [n|] eqn:Hn; [done|]. cbn [default from_option].
  destruct (Hone l Hl Hn) as [Ht|]; [|done].
  rewrite bool_decide_true by done.
  destruct (normalize_of_type (type_of (d_limit l)) config prev) as (name & Hf & Hname).
  rewrite Ht in Hf. cbn [fmap list_fmap] in Hf.
  refine (inherited_again (type_of (d_limit l)) _ _
    {| n_limit := d_limit l; n_name := name l |} _ eq_refl _ _ Hf).
  - cbn [n_name]. rewrite Hname, Hn. cbn [default from_option]. by rewrite bool_decide_true.
  - apply inheritedName_cases.
Qed.

Definition five_per_second : RequestLimitClientOptions :=
  {| rl_interval := int 1000; rl_tokensToAdd := int 5; rl_maxTokens := int 5; rl_maxDebt := None |}.
Definition per_second : RateLimitData := requestLimit five_per_second.

Lemma normalize_stable_witness :
  let config := [{| d_limit := per_second; d_name := None |};
                 {| d_limit := noLimit; d_name := Some "default" |}] in
  let prev := [{| n_limit := per_second; n_name := "per_second" |}] in
  normalizeRateLimit config (Some (normalizeRateLimit config (Some prev)))
  = [{| n_limit := per_second; n_name := "per_second" |}; {| n_limit := noLimit; n_name := "default" |}].
Proof.
  cbv zeta. refine (eq_trans (normalize_stable _ _ _) eq_refl).
  intros l Hl Hn. left. apply elem_of_cons in Hl as [->|Hl]; [reflexivity|].
  apply list_elem_of_singleton in Hl as ->. discriminate.
Defined.

(** The proviso is needed.  Beside a named limit of the same type the unnamed
    limit inherits once and not again: an update that is accepted is refused
    when it is applied to the list it produced. *)
Definition reapplied : list DeclaredRateLimit :=
  [{| d_limit := per_second; d_name := None |}; {| d_limit := per_second; d_name := Some "default" |}].

Lemma reapplied_update_refused (clientName : string) :
  let first := normalizeRateLimit reapplied (Some [{| n_limit := per_second; n_name := "a" |}]) in
  assertUsableRateLimits first clientName = Ok tt /\
  assertUsableRateLimits (normalizeRateLimit reapplied (Some first)) clientName
  = Throw (ConfigurationError "invalid_rate_limit" (duplicate_message "default" clientName)).
Proof. split; reflexivity. Qed.

Lemma usable_config_decided_witness :
  usable_config [{| n_limit := per_second; n_name := "per_second" |}; {| n_limit := noLimit; n_name := "free" |}].
Proof. apply (proj1 (usable_config_decided _ "acme")). vm_compute. reflexivity. Defined.
