(* ===== verification/Shared.v ===== *)
(** * The arithmetic both backends share

    The small files of [packages/core/src/backend]: the claim lease
    ([queueClaim.ts]), the balance tolerance ([balance.ts]), the queue score
    ([queueScore.ts]), the readings of stored numbers ([parseStored.ts]), the
    TTL normalisers ([ttl.ts]) and the settlement arithmetic
    ([settlement.ts]). *)
From S2P Require Import Prelude JsNumber JsString.
Local Open Scope Z_scope.
Local Open Scope num_scope.

(** ** queueClaim.ts *)

Definition QUEUE_CLAIM_LEASE_MS : num := int 10000.

(** ** balance.ts *)

(** The literal [1e-9]. *)
Definition BALANCE_TOLERANCE : num := num_of_decimal 1 (-9).

Definition coversCost (tokens cost maxTokens : num) : bool :=
  tokens >=? cost - fmin maxTokens cost * BALANCE_TOLERANCE.

(** ** parseStored.ts: numbers *)

(** [/^\s*([+-]?)inf(?:inity)?\s*$/i]: whether the sign is a minus. *)
Definition STRTOD_INFINITY (raw : string) : option bool :=
  let '(sg, s1) := read_sign (trimStart raw) in
  match drop_prefix "inf" (toLowerCase s1) with
  | None => None
  | Some s2 =>
      let s3 := default s2 (drop_prefix "inity" s2) in
      match trimStart s3 with EmptyString => Some sg | _ => None end
  end.

Definition parseStoredNumber (raw : option string) (fallback : num) : num :=
  match raw with
  | None => fallback
  | Some raw =>
      if bool_decide (trim raw = "") then fallback
      else match STRTOD_INFINITY raw with
           | Some sg => Inf sg
           | None =>
               let parsed := Number raw in
               if isNaN parsed then fallback else parsed
           end
  end.

Definition parsePriority (raw : option string) : num :=
  let parsed := parseStoredNumber raw (int 1) in
  if isFinite parsed then parsed else int 1.

Definition parseFiniteStored (raw : option string) (fallback : num) : num :=
  let parsed := parseStoredNumber raw fallback in
  if isFinite parsed then parsed else fallback.

(** ** ttl.ts *)

(** The literal [9_200_000_000_000_000]: past the safe integers, but even, so a
    double holds it. *)
Definition REDIS_MAX_TTL_SECONDS : num := int 9200000000000000.
Definition REQUEST_TOMBSTONE_TTL_SECONDS : num := int 60.

Definition normalizeTtlSeconds (ttlSeconds : num) : result num :=
  if negb (isFinite ttlSeconds) then
    Throw (RangeError ("ttlSeconds must be a finite number, received "
                       +:+ num_to_string ttlSeconds))
  else if ttlSeconds >? REDIS_MAX_TTL_SECONDS then
    Throw (RangeError ("ttlSeconds " +:+ num_to_string ttlSeconds
                       +:+ " exceeds the maximum a backend can store ("
                       +:+ num_to_string REDIS_MAX_TTL_SECONDS +:+ ")"))
  else if ttlSeconds <=? int 0 then Ok (int 0)
  else Ok (ceil ttlSeconds).

Definition normalizeStateTtlSeconds (ttlSeconds : num) : result num :=
  rbind (normalizeTtlSeconds ttlSeconds) (fun ttl =>
    if ttl <=? int 0 then
      Throw (RangeError ("ttlSeconds must be greater than 0 for a key holding rate-limit state, received "
                         +:+ num_to_string ttlSeconds))
    else Ok ttl).

Definition FREEZE_PROBE_TTL_SECONDS : num := int 7 * int 86400.

Definition freezeTtlSeconds (frozenUntil thawRequestCount now : num) : num :=
  let window := fmax (ceil ((frozenUntil - now) / int 1000)) (int 0) in
  window + (if thawRequestCount >? int 0 then FREEZE_PROBE_TTL_SECONDS else int 60).

Definition normalizeTombstoneTtl (requested : num) : num :=
  if negb (requested >? int 0) then REQUEST_TOMBSTONE_TTL_SECONDS
  else fmin (ceil requested) REDIS_MAX_TTL_SECONDS.

(** ** queueScore.ts *)

Definition MAX_QUEUE_PRIORITY : num := int 10.
Definition MAX_QUEUE_RETRIES : num := int 100.
Definition QUEUE_RETRY_BAND : num := int (10 ^ 12).
Definition QUEUE_PRIORITY_BAND : num := QUEUE_RETRY_BAND * (MAX_QUEUE_RETRIES + int 1).
Definition QUEUE_SCORE_EPOCH_MS : num := int 1767225600000.

Definition calculateQueueScore (priority retries timestamp : num) : result num :=
  let arrival := timestamp - QUEUE_SCORE_EPOCH_MS in
  if arrival >=? QUEUE_RETRY_BAND then
    Throw (RangeError ("Queue timestamp " +:+ num_to_string timestamp
                       +:+ " falls outside the version-1 score epoch"))
  else
    let p := fmin (fmax priority (int 0)) MAX_QUEUE_PRIORITY in
    let r := fmin (fmax retries (int 0)) MAX_QUEUE_RETRIES in
    let score :=
      (MAX_QUEUE_PRIORITY - p) * QUEUE_PRIORITY_BAND
      + (MAX_QUEUE_RETRIES - r) * QUEUE_RETRY_BAND
      + arrival in
    if negb (isSafeInteger score) then
      Throw (RangeError ("Queue timestamp " +:+ num_to_string timestamp
                         +:+ " cannot be represented without losing ordering precision"))
    else Ok score.

(** ** settlement.ts *)

Definition claimMarkKey (bucketKey markId : string) : string :=
  bucketKey +:+ ":claim:" +:+ markId.

Record SettleInput := {
  si_tokens : num;
  si_maxTokens : num;
  si_maxDebt : num;
  si_actual : num;
  si_claimed : num;
  si_overflowNow : num;
  si_overflowAtClaim : num;
  si_forgivenNow : num;
  si_forgivenAtClaim : num;
  si_fillsNow : num;
  si_fillsAtClaim : num;
  si_generationNow : num;
  si_generationAtClaim : num;
  si_epochNow : string;
  si_epochAtClaim : string
}.

Record SettleOutcome := {
  so_applied : num;
  so_unapplied : num;
  so_forgiven : num
}.

(** Whether the bucket a claim was made on is gone. *)
Definition bucket_recreated (i : SettleInput) : bool :=
  bool_decide (si_epochAtClaim i = "")
  || negb (bool_decide (si_epochNow i = si_epochAtClaim i))
  || negb (si_generationNow i =? si_generationAtClaim i)
  || (si_overflowNow i <? si_overflowAtClaim i)
  || (si_fillsNow i <? si_fillsAtClaim i).

Definition settleAmount (i : SettleInput) : SettleOutcome :=
  let none := {| so_applied := int 0; so_unapplied := int 0;
                 so_forgiven := si_forgivenNow i |} in
  if bucket_recreated i then none
  else
    let delta := si_actual i - si_claimed i in
    if delta >? int 0 then
      let slack := fmax (int 0)
        (si_overflowNow i - si_overflowAtClaim i
         - (si_forgivenNow i - si_forgivenAtClaim i)) in
      let used := fmin delta slack in
      let owed := delta - used in
      let maxDebt :=
        if isFinite (si_maxDebt i) && (si_maxDebt i >? int 0)
        then si_maxDebt i else int 0 in
      let room := fmax (int 0) (si_tokens i + maxDebt) in
      let applied := fmin owed room in
      {| so_applied := applied;
         so_unapplied := owed - applied;
         so_forgiven := si_forgivenNow i + used |}
    else if (delta <? int 0) && (si_fillsNow i =? si_fillsAtClaim i) then
      let credit := fmin (- delta) (fmax (int 0) (si_maxTokens i - si_tokens i)) in
      {| so_applied := - credit; so_unapplied := int 0;
         so_forgiven := si_forgivenNow i |}
    else none.

(** Constants the proofs never need to compute by accident. *)
#[global] Opaque BALANCE_TOLERANCE QUEUE_PRIORITY_BAND FREEZE_PROBE_TTL_SECONDS.
#[global] Arguments parseStoredNumber : simpl never.
#[global] Arguments parseFiniteStored : simpl never.
#[global] Arguments parsePriority : simpl never.
#[global] Arguments normalizeTtlSeconds : simpl never.
#[global] Arguments normalizeStateTtlSeconds : simpl never.
#[global] Arguments coversCost : simpl never.
