(* ===== verification/SharedFacts.v ===== *)
(** * Facts about the shared arithmetic

    What a stored number reads back as, the range of every TTL, the order the
    queue score encodes, and the bounds a settlement keeps. *)
From S2P Require Import Prelude JsNumber JsString Shared.
Local Open Scope Z_scope.

(** ** Reading stored numbers *)

Lemma string_rev_app s1 s2 : String.rev_app s1 s2 = String.rev s1 +:+ s2.
Proof.
  unfold String.rev. revert s2. induction s1 as [|c s1 IH]; intros s2; [done|].
  cbn [String.rev_app]. rewrite IH, (IH (String c "")). by rewrite <- string_app_assoc.
Qed.

Lemma trimStart_ink a c b : is_space c = false -> trimStart (a +:+ String c b) <> "".
Proof.
  intros Hc. induction a as [|x a IH].
  - change ("" +:+ String c b) with (String c b). cbn [trimStart]. by rewrite Hc.
  - change (String x a +:+ String c b) with (String x (a +:+ String c b)). cbn [trimStart].
    by destruct (is_space x).
Qed.

Lemma string_rev_cons c s : String.rev (String c s) = String.rev s +:+ String c "".
Proof. apply (string_rev_app s (String c "")). Qed.

Lemma trim_nonempty s c s' :
  trimStart s = String c s' -> is_space c = false -> trim s <> "".
Proof.
  intros H Hc. unfold trim. rewrite H, string_rev_cons.
  clear H.
  destruct (trimStart (String.rev s' +:+ String c "")) as [|c' t] eqn:E; [by apply trimStart_ink in E|].
  rewrite string_rev_cons. by destruct (String.rev t).
Qed.

Lemma char_digit_lower c d : char_digit c = Some d -> lower c = c.
Proof.
  unfold char_digit, lower. destruct ((48 <=? code c) && (code c <=? 57)) eqn:E; [|done].
  intros _. bool_lia. destruct ((65 <=? code c) && (code c <=? 90)) eqn:E'; [bool_lia|done].
Qed.

(** A literal, signed or not, is neither blank nor an infinity. *)
Lemma decimal_text s x :
  read_decimal s = Some x ->
  trim s <> "" /\ STRTOD_INFINITY s = None /\
  trim ("-" +:+ s) <> "" /\ STRTOD_INFINITY ("-" +:+ s) = None.
Proof.
  intros H. destruct (read_decimal_plain _ _ H) as (Hs & _ & Ht).
  destruct (read_decimal_head _ _ H) as (c & s' & -> & Hc).
  assert (is_space c = false) as Hsp.
  { destruct Hc as [[d Hd]| ->]; [|done].
    destruct (is_space c) eqn:E; [|done]. apply char_digit_not_space in E. congruence. }
  assert (drop_prefix "inf" (toLowerCase (String c s')) = None) as Hi.
  { cbn [toLowerCase]. destruct Hc as [[d Hd]| ->]; [|done].
    rewrite (char_digit_lower _ _ Hd). by destruct c as [[] [] [] [] [] [] [] []]. }
  change ("-" +:+ String c s') with (String "-" (String c s')).
  split_and!.
  - by eapply trim_nonempty.
  - unfold STRTOD_INFINITY. by rewrite Ht, Hs, Hi.
  - by eapply (trim_nonempty _ "-").
  - unfold STRTOD_INFINITY. cbn [trimStart]. change (is_space "-") with false. cbv iota.
    cbn [read_sign]. by rewrite Hi.
Qed.

Lemma num_to_string_text x :
  wf_num x -> isFinite x = true ->
  trim (num_to_string x) <> "" /\ STRTOD_INFINITY (num_to_string x) = None.
Proof.
  intros Hw Hf. destruct x as [| |m]; try done. unfold num_to_string.
  assert (forall p, 0 < p -> wf_num (Fin p) -> exists y,
    read_decimal (pos_to_string p) = Some y) as Hp.
  { intros p Hp Hwp. unfold pos_to_string.
    pose proof (shortest_reads p Hp Hwp) as H. destruct (shortest p) as [s e].
    destruct H as [Hs _]. destruct (read_layout s e Hs) as (m' & k & E & _). eauto. }
  destruct (Z.eqb_spec m 0) as [->|]; [done|]. destruct (Z.ltb_spec m 0).
  - destruct (Hp (- m)) as (y & Hy); [lia|by apply (wf_neg (Fin m))|].
    apply decimal_text in Hy. naive_solver.
  - destruct (Hp m) as (y & Hy); [lia|done|]. apply decimal_text in Hy. naive_solver.
Qed.

Lemma parseStored_num_to_string x d :
  wf_num x -> x <> NaN -> parseStoredNumber (Some (num_to_string x)) d = x.
Proof.
  intros Hw Hn. destruct (isFinite x) eqn:Hf.
  - destruct (num_to_string_text x Hw Hf) as [Ht Hi]. unfold parseStoredNumber.
    rewrite bool_decide_eq_false_2, Hi, Number_num_to_string by done. by destruct x.
  - by destruct x as [|[]|].
Qed.

Lemma parseFinite_num_to_string x d :
  wf_num x -> isFinite x = true -> parseFiniteStored (Some (num_to_string x)) d = x.
Proof.
  intros Hw Hf. unfold parseFiniteStored.
  rewrite parseStored_num_to_string by (done || by destruct x). by rewrite Hf.
Qed.

(** Any double, written and read: what is not finite reads as the default. *)
Lemma parseFinite_written x d :
  wf_num x -> parseFiniteStored (Some (num_to_string x)) d = if isFinite x then x else d.
Proof.
  intros Hw. destruct (isFinite x) eqn:Hf; [by apply parseFinite_num_to_string|].
  destruct x as [|[]|]; try done. unfold parseFiniteStored.
  change (parseStoredNumber (Some (num_to_string NaN)) d) with d. by destruct (isFinite d).
Qed.

(** ** Every number read is a double *)

Lemma wf_num_of_decimal m e : wf_num (num_of_decimal m e).
Proof.
  unfold num_of_decimal. destruct (Z.leb_spec 0 e); apply wf_round_ratio; [lia|].
  apply pow10_pos. lia.
Qed.

Lemma wf_Number s : wf_num (Number s).
Proof.
  unfold Number. destruct (trimStart s) as [|c s1] eqn:E; [by apply wf_int|].
  destruct (read_prefixed (String c s1)) as [x|] eqn:Ep.
  - unfold read_prefixed in Ep. repeat case_match; simplify_eq.
    all: destruct (read_radix _ _ _); simplify_eq/=; by apply wf_round_ratio.
  - destruct (read_signed (String c s1)) as [[x r]|] eqn:Es; [|done].
    destruct (trimStart r); [|done]. unfold read_signed in Es.
    repeat case_match; simplify_eq; try done; apply wf_num_of_decimal.
Qed.

Lemma wf_parseStored raw d : wf_num d -> wf_num (parseStoredNumber raw d).
Proof.
  intros Hd. unfold parseStoredNumber. destruct raw as [raw|]; [|done].
  case_bool_decide; [done|]. destruct (STRTOD_INFINITY raw); [done|].
  pose proof (wf_Number raw). by destruct (isNaN (Number raw)).
Qed.

Lemma wf_parseFinite raw d : wf_num d -> wf_num (parseFiniteStored raw d).
Proof.
  intros Hd. unfold parseFiniteStored.
  destruct (isFinite (parseStoredNumber raw d)); [by apply wf_parseStored|done].
Qed.

Lemma parseFinite_finite raw d : isFinite d = true -> isFinite (parseFiniteStored raw d) = true.
Proof.
  intros Hd. unfold parseFiniteStored. by destruct (isFinite (parseStoredNumber raw d)) eqn:E.
Qed.

#[export] Hint Resolve wf_parseStored wf_parseFinite parseFinite_finite : num.

(** ** The balance tolerance *)

Lemma BALANCE_TOLERANCE_units :
  exists t, BALANCE_TOLERANCE = Fin t /\ 0 < t /\ 2 * (10 ^ 8 * t) <= unit1.
Proof.
  exists (round_units unit1 (10 ^ 9)). split; [by vm_compute|]. split; by vm_compute.
Qed.

(** A balance of integers covers an integer cost of at most [10^8] exactly
    when it is at least the cost: the tolerance forgives no whole token. *)
Lemma coversCost_int tokens cost maxTokens :
  0 <= cost <= 10 ^ 8 -> 0 < maxTokens <= 2 ^ 53 -> Z.abs tokens <= 2 ^ 53 ->
  coversCost (int tokens) (int cost) (int maxTokens) = (cost <=? tokens).
Proof.
  intros Hc Hm Ht. unfold coversCost. rewrite fmin_int.
  set (k := Z.min maxTokens cost). assert (0 <= k <= 10 ^ 8) as Hk by lia.
  destruct BALANCE_TOLERANCE_units as (t & -> & Ht0 & Ht1). pose proof unit1_pos as Hu.
  set (s := round_units (k * unit1 * t) unit1).
  assert (0 <= s /\ 2 * s <= unit1) as [Hs0 Hs1].
  { assert (s = round_units (k * t) 1) as ->.
    { unfold s. replace (k * unit1 * t) with (k * t * unit1) by lia.
      rewrite <- (Z.mul_1_l unit1) at 2. by rewrite round_units_scale by lia. }
    split.
    - pose proof (round_units_mono 0 (k * t) 1 ltac:(lia) ltac:(lia)) as H.
      by change (round_units 0 1) with 0 in H.
    - assert (is_dbl (2 ^ 1073)) as Hd by (exists 1, 1073; done).
      assert (unit1 = 2 * 2 ^ 1073) as E by done.
      pose proof (round_units_mono (k * t) (2 ^ 1073) 1 ltac:(lia) ltac:(nia)) as H.
      pose proof (round_units_exact _ 1 ltac:(lia) Hd) as H1.
      rewrite Z.mul_1_r in H1. lia. }
  assert (unit1 < overflow_units) as Ho by done.
  assert ((int k * Fin t)%num = Fin s) as ->.
  { unfold mul, int. apply round_ratio_finite. fold s. lia. }
  assert (exists d, (int cost - Fin s)%num = Fin d /\
    d <= cost * unit1 /\ (cost - 1) * unit1 < d) as (d & -> & Hd1 & Hd2).
  { exists (round_units (cost * unit1 - s) 1).
    assert (safe cost) as Hsc by (unfold safe; lia).
    assert (is_dbl (2 ^ 1073 * (2 * cost - 1))) as Hd.
    { exists (2 * cost - 1), 1073. unfold safe. split_and!; lia. }
    assert (unit1 = 2 * 2 ^ 1073) as E by done.
    pose proof (round_units_mono (cost * unit1 - s) (cost * unit1) 1 ltac:(lia) ltac:(lia)) as H1.
    pose proof (round_units_mono (2 ^ 1073 * (2 * cost - 1)) (cost * unit1 - s) 1
      ltac:(lia) ltac:(lia)) as H2.
    pose proof (round_units_exact _ 1 ltac:(lia) (is_dbl_int cost Hsc)) as E1.
    pose proof (round_units_exact _ 1 ltac:(lia) Hd) as E2.
    rewrite Z.mul_1_r in E1, E2. rewrite E1 in H1. rewrite E2 in H2.
    pose proof (safe_no_overflow cost Hsc).
    split; [|lia]. unfold sub, add, int, neg, rnd.
    change (cost * unit1 + - s) with (cost * unit1 - s).
    apply round_ratio_finite. lia. }
  unfold geb, leb, int. apply Bool.eq_iff_eq_true. rewrite !Z.leb_le. nia.
Qed.

(** ** The queue score *)

Lemma QUEUE_PRIORITY_BAND_int : QUEUE_PRIORITY_BAND = int (101 * 10 ^ 12).
Proof. by vm_compute. Qed.

Definition clamp (lo hi z : Z) : Z := Z.min (Z.max z lo) hi.

Definition epoch_ms : Z := 1767225600000.

(** The score of an integer request that arrived [a] ms after the epoch. *)
Definition scoreZ (p r a : Z) : Z :=
  (10 - clamp 0 10 p) * (101 * 10 ^ 12) + (100 - clamp 0 100 r) * 10 ^ 12 + a.

Lemma band_arithmetic p r a :
  Z.abs a <= 10 ^ 12 ->
  ((MAX_QUEUE_PRIORITY - fmin (fmax (int p) (int 0)) MAX_QUEUE_PRIORITY) * QUEUE_PRIORITY_BAND
   + (MAX_QUEUE_RETRIES - fmin (fmax (int r) (int 0)) MAX_QUEUE_RETRIES) * QUEUE_RETRY_BAND
   + int a)%num = int (scoreZ p r a).
Proof.
  intros Ha. rewrite QUEUE_PRIORITY_BAND_int.
  unfold MAX_QUEUE_PRIORITY, MAX_QUEUE_RETRIES, QUEUE_RETRY_BAND, scoreZ, clamp.
  rewrite !fmax_int, !fmin_int.
  rewrite !sub_int, !mul_int, !add_int by (unfold safe; lia). done.
Qed.

Lemma calculateQueueScore_int p r ts :
  Z.abs ts <= 2 ^ 53 -> Z.abs (ts - epoch_ms) < 10 ^ 12 ->
  calculateQueueScore (int p) (int r) (int ts) = Ok (int (scoreZ p r (ts - epoch_ms))).
Proof.
  intros Ht Ha. unfold calculateQueueScore. unfold QUEUE_SCORE_EPOCH_MS.
  fold epoch_ms. rewrite sub_int by (unfold safe; lia).
  unfold geb. unfold QUEUE_RETRY_BAND at 1. rewrite leb_int, (proj2 (Z.leb_gt _ _)) by lia.
  rewrite band_arithmetic by lia. rewrite isSafeInteger_int.
  rewrite (proj2 (Z.leb_le _ _)); [done|]. unfold scoreZ, clamp, max_safe. lia.
Qed.

(** ** Settlement over integers *)

(** A settlement whose counters are integers. *)
Record SettleZ := {
  z_tokens : Z; z_maxTokens : Z; z_maxDebt : Z; z_actual : Z; z_claimed : Z;
  z_overflowNow : Z; z_overflowAtClaim : Z; z_forgivenNow : Z; z_forgivenAtClaim : Z;
  z_fillsNow : Z; z_fillsAtClaim : Z; z_generationNow : Z; z_generationAtClaim : Z
}.

Definition inject (z : SettleZ) (epochNow epochAtClaim : string) : SettleInput := {|
  si_tokens := int (z_tokens z); si_maxTokens := int (z_maxTokens z);
  si_maxDebt := int (z_maxDebt z); si_actual := int (z_actual z);
  si_claimed := int (z_claimed z);
  si_overflowNow := int (z_overflowNow z); si_overflowAtClaim := int (z_overflowAtClaim z);
  si_forgivenNow := int (z_forgivenNow z); si_forgivenAtClaim := int (z_forgivenAtClaim z);
  si_fillsNow := int (z_fillsNow z); si_fillsAtClaim := int (z_fillsAtClaim z);
  si_generationNow := int (z_generationNow z);
  si_generationAtClaim := int (z_generationAtClaim z);
  si_epochNow := epochNow; si_epochAtClaim := epochAtClaim |}.

Definition small (x : Z) : Prop := Z.abs x <= 2 ^ 50.

Definition settle_small (z : SettleZ) : Prop :=
  small (z_tokens z) /\ small (z_maxTokens z) /\ small (z_maxDebt z) /\
  small (z_actual z) /\ small (z_claimed z) /\ small (z_overflowNow z) /\
  small (z_overflowAtClaim z) /\ small (z_forgivenNow z) /\ small (z_forgivenAtClaim z).

(** The bucket the claim was made on is the bucket that is settled. *)
Definition same_bucket (z : SettleZ) (epochNow epochAtClaim : string) : bool :=
  negb (bucket_recreated (inject z epochNow epochAtClaim)).

(** How much of a debit is forgiven by the refill discarded since the claim. *)
Definition forgivable (z : SettleZ) : Z :=
  Z.max 0 (z_overflowNow z - z_overflowAtClaim z - (z_forgivenNow z - z_forgivenAtClaim z)).

(** What settlement owes: applied to the balance, left over, and forgiven. *)
Definition settleZ (z : SettleZ) (same : bool) : Z * Z * Z :=
  let delta := z_actual z - z_claimed z in
  if negb same then (0, 0, 0)
  else if 0 <? delta then
    let used := Z.min delta (forgivable z) in
    let applied := Z.min (delta - used) (Z.max 0 (z_tokens z + Z.max 0 (z_maxDebt z))) in
    (applied, delta - used - applied, used)
  else if (delta <? 0) && (z_fillsNow z =? z_fillsAtClaim z) then
    (- Z.min (- delta) (Z.max 0 (z_maxTokens z - z_tokens z)), 0, 0)
  else (0, 0, 0).

Lemma usable_debt_int d :
  (if isFinite (int d) && (int d >? int 0)%num then int d else int 0) = int (Z.max 0 d).
Proof.
  change (isFinite (int d)) with true. unfold gtb. rewrite ltb_int. simpl.
  destruct (Z.ltb_spec 0 d); f_equal; lia.
Qed.

Lemma settleAmount_int z e1 e2 :
  settle_small z ->
  settleAmount (inject z e1 e2)
  = let '(a, u, f) := settleZ z (same_bucket z e1 e2) in
    {| so_applied := int a; so_unapplied := int u; so_forgiven := int (z_forgivenNow z + f) |}.
Proof.
  unfold settle_small, small. intros Hz. destruct_and! Hz.
  unfold settleAmount, settleZ, same_bucket. rewrite negb_involutive.
  destruct (bucket_recreated (inject z e1 e2)); [by rewrite Z.add_0_r|].
  cbn [inject si_tokens si_maxTokens si_maxDebt si_actual si_claimed si_overflowNow
    si_overflowAtClaim si_forgivenNow si_forgivenAtClaim si_fillsNow si_fillsAtClaim].
  rewrite usable_debt_int. rewrite !sub_int by (unfold safe; lia).
  rewrite !fmax_int, !fmin_int. rewrite neg_int. unfold gtb. rewrite !ltb_int, eqb_int.
  fold (forgivable z).
  rewrite !add_int by (unfold safe, forgivable; lia).
  rewrite !fmax_int. rewrite !sub_int by (unfold safe, forgivable; lia).
  rewrite !fmin_int, neg_int. rewrite !sub_int by (unfold safe, forgivable; lia).
  destruct (0 <? z_actual z - z_claimed z); [done|].
  destruct ((z_actual z - z_claimed z <? 0) && (z_fillsNow z =? z_fillsAtClaim z));
    by rewrite Z.add_0_r.
Qed.

(** A lifetime of whole seconds is stored as it is. *)
Lemma normalizeTtl_int z :
  0 < z <= 2 ^ 50 ->
  normalizeTtlSeconds (int z) = Ok (int z) /\ (int z <=? int 0)%num = false.
Proof.
  intros Hz. unfold normalizeTtlSeconds, REDIS_MAX_TTL_SECONDS, gtb.
  change (isFinite (int z)) with true. rewrite ltb_int, leb_int, ceil_int.
  rewrite (proj2 (Z.ltb_ge _ _)), (proj2 (Z.leb_gt _ _)) by lia. done.
Qed.
