(* ===== verification/Timers.v ===== *)
(** * Delays and lifetimes

    [packages/core/src/utils/retryAfter.ts] and [credentialTtl.ts]: how long a
    response asks its caller to wait, as a timer can honour it, and how long a
    stored credential is kept.  [Date.parse] on a text that is not a number is
    the host's: its value is an argument. *)
From S2P Require Import Prelude JsNumber JsString Value Shared SharedFacts.
Local Open Scope num_scope.

(** ** retryAfter.ts *)

Definition MAX_TIMER_MS : num := int 2147483647.

Definition clampDelay (ms : num) : num :=
  if negb (isFinite ms) || (ms <=? int 0) then int 0 else fmin (ceil ms) MAX_TIMER_MS.

(** A response's headers as [headerValue] meets them: axios's, whose [get]
    ignores case, a plain object, or something that is no object. *)
Inductive header_bag :=
  | NoHeaders
  | AxiosHeaders (get : string -> value)
  | PlainHeaders (l : list (string * value)).

Definition headerValue (headers : header_bag) (name : string) : option string :=
  let raw := match headers with
    | NoHeaders => VUndefined
    | AxiosHeaders get => get name
    | PlainHeaders l =>
        match List.find (fun kv => bool_decide (toLowerCase kv.1 = name)) l with
        | Some kv => kv.2
        | None => VUndefined
        end
    end in
  let v := match raw with VArr l => default VUndefined (head l) | _ => raw end in
  match v with VStr s => Some s | VNum n => Some (num_to_string n) | _ => None end.

Fixpoint all_digits (s : string) : bool :=
  match s with
  | EmptyString => true
  | String c s' => bool_decide (is_Some (char_digit c)) && all_digits s'
  end.

(** [/^\d+(\.\d+)?$/]. *)
Definition delay_seconds_text (s : string) : bool :=
  match split_char "." s with
  | [a] => negb (bool_decide (a = "")) && all_digits a
  | [a; b] => negb (bool_decide (a = "")) && all_digits a && negb (bool_decide (b = "")) && all_digits b
  | _ => false
  end.

(** [/[a-z]/i]. *)
Fixpoint has_letter (s : string) : bool :=
  match s with
  | EmptyString => false
  | String c s' => ((97 <=? code (lower c)) && (code (lower c) <=? 122))%Z || has_letter s'
  end.

Definition retryAfterMs (Date_parse : string -> num) (headers : header_bag) (now : num) : option num :=
  match headerValue headers "retry-after" with
  | None => None
  | Some raw =>
      let text := trim raw in
      if delay_seconds_text text then Some (clampDelay (Number text * int 1000))
      else if negb (has_letter text) then None
      else
        let date := Date_parse text in
        if isNaN date then None else Some (clampDelay (date - now))
  end.

(** ** credentialTtl.ts *)

Definition DEFAULT_REFRESH_TOKEN_TTL_SECONDS : num := int (60 * 60 * 24 * 90).
Definition MINIMUM_TTL_SECONDS : num := int 60.
Definition TTL_BUFFER_SECONDS : num := int 60.
Definition MAXIMUM_TTL_SECONDS : num := int (60 * 60 * 24 * 365 * 10).

Definition credentialTtlSeconds (accessTokenTtlSeconds : num) (hasRefreshToken : bool)
    (refreshTokenTtlSeconds : option num) : num :=
  let accessTtl := if isFinite accessTokenTtlSeconds then accessTokenTtlSeconds else int 0 in
  let ttl :=
    if hasRefreshToken then
      fmax accessTtl
        (match refreshTokenTtlSeconds with
         | Some t => if isFinite t then t else DEFAULT_REFRESH_TOKEN_TTL_SECONDS
         | None => DEFAULT_REFRESH_TOKEN_TTL_SECONDS
         end)
    else accessTtl in
  fmin (fmax (ceil ttl + TTL_BUFFER_SECONDS) MINIMUM_TTL_SECONDS) MAXIMUM_TTL_SECONDS.

(** ** What they promise *)

(** A delay a timer honours: whole milliseconds, none of them negative, at most
    [2^31 - 1]. *)
Definition timer_delay (d : num) : Prop := exists k, d = int k /\ (0 <= k <= 2147483647)%Z.

(** The least integer a finite number does not exceed. *)
Definition ceilZ (a : Z) : Z := (- (- a / unit1))%Z.

Lemma ceil_units a : ceil (Fin a) = int (ceilZ a).
Proof. unfold ceil, int, ceilZ. by rewrite zdiv_eq. Qed.

Lemma ceilZ_ge a : (a <= ceilZ a * unit1)%Z.
Proof. unfold ceilZ. pose proof unit1_pos. pose proof (Z.mul_div_le (- a) unit1 ltac:(lia)). lia. Qed.

Lemma clampDelay_range ms : timer_delay (clampDelay ms).
Proof.
  unfold clampDelay, timer_delay. destruct ms as [|[]|a]; cbn [isFinite negb orb];
    try (exists 0%Z; split; [done|lia]).
  destruct (Fin a <=? int 0) eqn:Ea; [exists 0%Z; split; [done|lia]|].
  rewrite ceil_units. unfold MAX_TIMER_MS. rewrite fmin_int.
  exists (Z.min (ceilZ a) 2147483647). split; [done|].
  unfold leb, int in Ea. apply Z.leb_gt in Ea. pose proof (ceilZ_ge a). pose proof unit1_pos. nia.
Qed.

(** A delay the timer can hold is not cut short. *)
Lemma clampDelay_not_early ms :
  isFinite ms = true -> (ms <=? MAX_TIMER_MS) = true -> (ms <=? clampDelay ms) = true.
Proof.
  intros Hf Hm. unfold clampDelay. rewrite Hf. cbn [negb orb].
  destruct (ms <=? int 0) eqn:E; [done|]. destruct ms as [| |a]; try done.
  rewrite ceil_units. unfold MAX_TIMER_MS in *. rewrite fmin_int. unfold leb, int in *.
  apply Z.leb_le in Hm. apply Z.leb_le. pose proof (ceilZ_ge a). pose proof unit1_pos. nia.
Qed.

(** C25.  A [retry-after] is always a delay a timer honours and never one that
    ends early: whatever the headers hold and however the host reads a date,
    the answer is none or a whole number of milliseconds between 0 and
    [2^31 - 1]; and a header that names seconds is waited out in full, up to
    that longest timer. *)
Theorem retry_after_honoured (Date_parse : string -> num) (headers : header_bag) (now : num) :
  (forall d, retryAfterMs Date_parse headers now = Some d -> timer_delay d) /\
  forall raw, headerValue headers "retry-after" = Some raw -> delay_seconds_text (trim raw) = true ->
    let asked := Number (trim raw) * int 1000 in
    isFinite asked = true -> (asked <=? MAX_TIMER_MS) = true ->
    exists d, retryAfterMs Date_parse headers now = Some d /\ (asked <=? d) = true.
Proof.
  unfold retryAfterMs. split.
  - intros d. destruct (headerValue _ _) as [raw|]; [|done].
    destruct (delay_seconds_text _); [intros [= <-]; apply clampDelay_range|].
    destruct (negb _); [done|]. destruct (isNaN _); [done|]. intros [= <-]. apply clampDelay_range.
  - intros raw Hr Hs. cbv zeta. intros Hf Hm. rewrite Hr, Hs. eexists. split; [done|].
    by apply clampDelay_not_early.
Qed.

Lemma retry_after_honoured_witness :
  exists d, retryAfterMs (fun _ => NaN) (PlainHeaders [("Retry-After", VStr " 1.5 ")]) (int 7) = Some d /\
    (int 1500 <=? d) = true.
Proof.
  assert (int 1500 = Number (trim " 1.5 ") * int 1000) as -> by (vm_compute; reflexivity).
  apply (proj2 (retry_after_honoured (fun _ => NaN) (PlainHeaders [("Retry-After", VStr " 1.5 ")]) (int 7))
    " 1.5 "); vm_compute; reflexivity.
Defined.

(** C26.  A credential outlives its tokens: for token lifetimes of whole
    seconds, the key is kept at least a minute past the longest of them, a
    refresh token with no stated lifetime counting as ninety days, unless that
    is more than ten years; it is never less than a minute; and the store
    accepts the value as it is. *)
Theorem credential_outlives_tokens (access : Z) (hasRefresh : bool) (refresh : option Z) :
  (Z.abs access <= 2 ^ 50)%Z -> (forall r, refresh = Some r -> Z.abs r <= 2 ^ 50)%Z ->
  let stated := default (60 * 60 * 24 * 90)%Z refresh in
  let needed := if hasRefresh then Z.max access stated else access in
  exists ttl, credentialTtlSeconds (int access) hasRefresh (int <$> refresh) = int ttl /\
    (60 <= ttl <= 60 * 60 * 24 * 365 * 10)%Z /\
    (Z.min (needed + 60) (60 * 60 * 24 * 365 * 10) <= ttl)%Z /\
    normalizeStateTtlSeconds (int ttl) = Ok (int ttl).
Proof.
  intros Ha Hr stated needed.
  assert (Z.abs needed <= 2 ^ 50)%Z as Hn.
  { unfold needed, stated. destruct refresh as [r|]; [specialize (Hr r eq_refl)|]; cbn; destruct hasRefresh; lia. }
  set (ttl := Z.min (Z.max (needed + 60) 60) (60 * 60 * 24 * 365 * 10)).
  exists ttl. split; [|split_and!; try lia].
  - unfold credentialTtlSeconds. cbn [isFinite int].
    change (if isFinite (int access) then int access else int 0) with (int access).
    assert ((if hasRefresh
      then fmax (int access) (match int <$> refresh with
        | Some t => if isFinite t then t else DEFAULT_REFRESH_TOKEN_TTL_SECONDS
        | None => DEFAULT_REFRESH_TOKEN_TTL_SECONDS end)
      else int access) = int needed) as ->.
    { unfold needed, stated. destruct hasRefresh; [|done]. destruct refresh as [r|]; cbn [fmap option_fmap option_map default from_option].
      - change (isFinite (int r)) with true. cbv iota. by rewrite fmax_int.
      - unfold DEFAULT_REFRESH_TOKEN_TTL_SECONDS. by rewrite fmax_int. }
    unfold TTL_BUFFER_SECONDS, MINIMUM_TTL_SECONDS, MAXIMUM_TTL_SECONDS.
    rewrite ceil_int, add_int, fmax_int, fmin_int; [done|unfold safe; lia].
  - unfold normalizeStateTtlSeconds.
    destruct (normalizeTtl_int ttl ltac:(lia)) as [-> Hp]. cbn [rbind]. by rewrite Hp.
Qed.

Lemma credential_outlives_tokens_witness :
  exists ttl, credentialTtlSeconds (int 3600) true (int <$> None) = int ttl /\
    (7776060 <= ttl)%Z.
Proof.
  destruct (credential_outlives_tokens 3600 true None) as (ttl & E & _ & H & _); [lia|done|].
  exists ttl. split; [exact E|]. change (7776060 <= ttl)%Z in H. exact H.
Defined.
