(* ===== verification/Utf.v ===== *)
(** * Ordering strings as Redis does

    [compareMembers] of [memory.ts] orders two JavaScript strings, given as
    their UTF-16 code units, the way Redis orders the UTF-8 bytes they are
    sent as. *)
From S2P Require Import Prelude JsString.
Local Open Scope Z_scope.

Abbreviation units := (list Z).

Definition surrogate (x : Z) : bool := (55296 <=? x) && (x <=? 57343).
Definition high_surrogate (x : Z) : bool := (55296 <=? x) && (x <=? 56319).
Definition low_surrogate (x : Z) : bool := (56320 <=? x) && (x <=? 57343).

(** ** TextEncoder: the UTF-8 bytes of a string, a lone surrogate as U+FFFD *)

Definition utf8_point (p : Z) : list Z :=
  if p <? 128 then [p]
  else if p <? 2048 then [192 + p / 64; 128 + p mod 64]
  else if p <? 65536 then
    [224 + p / 4096; 128 + p / 64 mod 64; 128 + p mod 64]
  else [240 + p / 262144; 128 + p / 4096 mod 64; 128 + p / 64 mod 64; 128 + p mod 64].

Fixpoint code_points (s : units) : list Z :=
  match s with
  | [] => []
  | x :: s' =>
      if high_surrogate x then
        match s' with
        | y :: s'' =>
            if low_surrogate y
            then (65536 + (x - 55296) * 1024 + (y - 56320)) :: code_points s''
            else 65533 :: code_points s'
        | [] => [65533]
        end
      else (if low_surrogate x then 65533 else x) :: code_points s'
  end.

Definition encode_utf8 (s : units) : list Z := code_points s ≫= utf8_point.

(** ** memory.ts *)

Fixpoint compare_from (x y : list Z) : Z :=
  match x, y with
  | a :: x', b :: y' => if a =? b then compare_from x' y' else a - b
  | _, _ => Z.of_nat (length x) - Z.of_nat (length y)
  end.

(** Both loops below walk to the first mismatch and otherwise return
    [x.length - y.length]; dropping an equal head from both strings keeps that
    difference. *)
Definition compareBytes (a b : units) : Z := compare_from (encode_utf8 a) (encode_utf8 b).

Fixpoint compare_scan (a b x y : units) : Z :=
  match x, y with
  | u :: x', v :: y' =>
      if u =? v then compare_scan a b x' y'
      else if surrogate u || surrogate v then compareBytes a b
      else u - v
  | _, _ => Z.of_nat (length x) - Z.of_nat (length y)
  end.

Definition compareMembers (a b : units) : Z := compare_scan a b a b.

(** The code units of a model string. *)
Fixpoint units_of (s : string) : units :=
  match s with
  | EmptyString => []
  | String c s' => code c :: units_of s'
  end.

(** * The order of members

    [compareMembers] walks UTF-16 units and encodes only when a surrogate is
    in the way; it orders every pair of strings as their UTF-8 bytes do, lone
    surrogates included. *)

(** ** The byte order of single code points *)

Definition scalar (p : Z) : Prop := 0 <= p < 1114112.

(** One encoding stands before another whatever follows them. *)
Definition bytes_lt (x y : list Z) : Prop :=
  forall r s, compare_from (x ++ r) (y ++ s) < 0.

Ltac compare_heads :=
  simpl; repeat match goal with |- context [?a =? ?b] => destruct (Z.eqb_spec a b) end;
  Z.div_mod_to_equations; lia.

Lemma utf8_point_mono p q : scalar p -> scalar q -> p < q -> bytes_lt (utf8_point p) (utf8_point q).
Proof.
  unfold scalar. intros Hp Hq Hpq r s. unfold utf8_point.
  destruct (Z.ltb_spec p 128), (Z.ltb_spec q 128); try lia; [compare_heads| |];
  destruct (Z.ltb_spec p 2048), (Z.ltb_spec q 2048); try lia; try compare_heads;
  destruct (Z.ltb_spec p 65536), (Z.ltb_spec q 65536); try lia; compare_heads.
Qed.

Lemma compare_from_app p x y : compare_from (p ++ x) (p ++ y) = compare_from x y.
Proof. induction p as [|a p IH]; simpl; [done|]. by rewrite Z.eqb_refl. Qed.

Lemma compare_from_opp x : forall y, compare_from y x = - compare_from x y.
Proof.
  induction x as [|a x IH]; intros [|b y]; simpl; try lia.
  rewrite (Z.eqb_sym b a). destruct (a =? b); [apply IH|lia].
Qed.

Lemma bytes_lt_prefix p x y : bytes_lt x y -> bytes_lt (p ++ x) (p ++ y).
Proof. intros H r s. rewrite <- !app_assoc, compare_from_app. apply H. Qed.

Lemma utf8_point_nonempty p : (0 < length (utf8_point p))%nat.
Proof. unfold utf8_point. repeat case_match; simpl; lia. Qed.

(** ** The code points of a string *)

Lemma encode_cons p l : (p :: l) ≫= utf8_point = utf8_point p ++ (l ≫= utf8_point).
Proof. done. Qed.

(** Encodings of code-point lists that first differ at [p < q]. *)
Lemma encode_lt c p q l m :
  scalar p -> scalar q -> p < q ->
  compare_from ((c ++ p :: l) ≫= utf8_point) ((c ++ q :: m) ≫= utf8_point) < 0.
Proof.
  intros Hp Hq Hlt. rewrite !bind_app, compare_from_app, !encode_cons.
  by apply utf8_point_mono.
Qed.

Lemma encode_prefix c q m :
  compare_from (c ≫= utf8_point) ((c ++ q :: m) ≫= utf8_point) < 0.
Proof.
  rewrite bind_app, <- (app_nil_r (c ≫= utf8_point)) at 1. rewrite compare_from_app, encode_cons.
  pose proof (utf8_point_nonempty q). destruct (utf8_point q); simpl in *; lia.
Qed.

Definition unit_ok (u : Z) : Prop := 0 <= u < 65536.

Lemma code_points_scalar s : Forall unit_ok s -> Forall scalar (code_points s).
Proof.
  unfold unit_ok, scalar.
  induction s as [s IH] using (induction_ltof1 _ (@length Z)). unfold ltof in IH.
  destruct s as [|x s]; [constructor|]. intros [Hx Hs]%Forall_cons. simpl.
  destruct (high_surrogate x) eqn:Eh.
  - destruct s as [|y s]; [repeat constructor; lia|].
    apply Forall_cons in Hs as [Hy Hs].
    unfold high_surrogate, low_surrogate in *. destruct ((56320 <=? y) && (y <=? 57343)) eqn:El.
    + constructor; [bool_lia|]. apply IH; [simpl; lia|done].
    + constructor; [lia|]. apply IH; [simpl; lia|by constructor].
  - constructor; [destruct (low_surrogate x); lia|]. apply IH; [simpl; lia|done].
Qed.

Lemma code_points_cons x s :
  code_points (x :: s)
  = if high_surrogate x then
      match s with
      | y :: s' =>
          if low_surrogate y then (65536 + (x - 55296) * 1024 + (y - 56320)) :: code_points s'
          else 65533 :: code_points s
      | [] => [65533]
      end
    else (if low_surrogate x then 65533 else x) :: code_points s.
Proof. done. Qed.

(** A string cut where no surrogate pair straddles the cut. *)
Definition clean_cut (y : units) : Prop :=
  match y with [] => True | v :: _ => low_surrogate v = false end.

Lemma high_not_low x : high_surrogate x = true -> low_surrogate x = false.
Proof.
  unfold high_surrogate, low_surrogate. intros H. bool_lia.
Qed.

Lemma code_points_app p y : clean_cut y -> code_points (p ++ y) = code_points p ++ code_points y.
Proof.
  intros Hy. induction p as [p IH] using (induction_ltof1 _ (@length Z)). unfold ltof in IH.
  destruct p as [|x p]; [done|]. cbn [app]. rewrite !(code_points_cons x).
  destruct (high_surrogate x) eqn:Eh.
  - destruct p as [|x' p]; cbn [app].
    + destruct y as [|v y]; [done|]. simpl in Hy. by rewrite Hy.
    + destruct (low_surrogate x'); cbn [app]; [by rewrite IH by (simpl; lia)|].
      f_equal. apply (IH (x' :: p)). simpl. lia.
  - cbn [app]. f_equal. apply IH. simpl. lia.
Qed.

(** A string cut inside a pair: the lone half reads U+FFFD, the pair beyond. *)
Lemma code_points_split p u v y :
  high_surrogate u = true -> low_surrogate v = true ->
  (exists c, code_points (p ++ [u]) = c ++ [65533] /\
    exists q, 65536 <= q /\ code_points (p ++ u :: v :: y) = c ++ q :: code_points y).
Proof.
  intros Hu Hv. exists (code_points p).
  rewrite !code_points_app by (simpl; by apply high_not_low).
  simpl. rewrite Hu, Hv. split; [done|]. eexists. split; [|done].
  unfold high_surrogate, low_surrogate in *. bool_lia.
Qed.

(** ** The comparison *)

Lemma encode_shorter p v y :
  Forall unit_ok (p ++ v :: y) -> compareBytes p (p ++ v :: y) < 0.
Proof.
  intros Hok. unfold compareBytes, encode_utf8. destruct (low_surrogate v) eqn:Ev.
  2:{ rewrite code_points_app by done. cbn [code_points].
      destruct (high_surrogate v); [|rewrite Ev; apply encode_prefix].
      destruct y as [|y' y]; [apply encode_prefix|]. destruct (low_surrogate y'); apply encode_prefix. }
  assert (forall q, (forall u p', q = p' ++ [u] -> high_surrogate u = false) ->
    code_points (q ++ v :: y) = code_points q ++ code_points (v :: y)) as Happ.
  { induction q as [q IH] using (induction_ltof1 _ (@length Z)). unfold ltof in IH. intros Hq.
    destruct q as [|x q]; [done|]. cbn [app]. rewrite !(code_points_cons x).
    destruct (high_surrogate x) eqn:Eh.
    - destruct q as [|x' q]; [by rewrite (Hq x [] eq_refl) in Eh|]. cbn [app].
      destruct (low_surrogate x'); cbn [app]; f_equal.
      + apply IH; [simpl; lia|]. intros u p' ->. by apply (Hq u (x :: x' :: p')).
      + apply (IH (x' :: q)); [simpl; lia|]. intros u p' Hu. apply (Hq u (x :: p')). by rewrite Hu.
    - cbn [app]. f_equal. apply IH; [simpl; lia|]. intros u p' ->. by apply (Hq u (x :: p')). }
  destruct p as [|u p _] using rev_ind.
  - change ([] ++ v :: y) with (v :: y). cbn [code_points].
    destruct (high_surrogate v) eqn:Eh; [by rewrite (high_not_low v Eh) in Ev|].
    rewrite Ev. apply (encode_prefix []).
  - destruct (high_surrogate u) eqn:Eu.
    + rewrite <- app_assoc. simpl.
      destruct (code_points_split p u v y Eu Ev) as (c & Hc & q & Hq & Hc').
      pose proof (code_points_scalar (p ++ u :: v :: y)) as Hs.
      rewrite <- app_assoc in Hok. specialize (Hs Hok).
      rewrite Hc' in Hs. apply Forall_app in Hs as [_ [Hs _]%Forall_cons].
      rewrite Hc, Hc'. apply encode_lt; [unfold scalar; lia|done|lia].
    + rewrite Happ; [|intros u' p' [_ <-]%List.app_inj_tail; done].
      cbn [code_points]. destruct (high_surrogate v) eqn:Eh; [by rewrite (high_not_low v Eh) in Ev|].
      rewrite Ev. apply encode_prefix.
Qed.

Lemma not_surrogate u : surrogate u = false -> high_surrogate u = false /\ low_surrogate u = false.
Proof.
  unfold surrogate, high_surrogate, low_surrogate. intros H.
  apply andb_false_iff in H as [H|H]; apply Z.leb_gt in H; split; apply andb_false_iff;
    rewrite !Z.leb_gt; lia.
Qed.

Lemma encode_mismatch p u v x y :
  Forall unit_ok (p ++ u :: x) -> Forall unit_ok (p ++ v :: y) ->
  surrogate u = false -> surrogate v = false -> u < v ->
  compareBytes (p ++ u :: x) (p ++ v :: y) < 0.
Proof.
  intros [_ [Hu _]%Forall_cons]%Forall_app [_ [Hv _]%Forall_cons]%Forall_app Su Sv Hlt.
  apply not_surrogate in Su as [Su1 Su2], Sv as [Sv1 Sv2].
  unfold compareBytes, encode_utf8. rewrite !code_points_app by done.
  cbn [code_points]. rewrite Su1, Su2, Sv1, Sv2.
  unfold unit_ok in *. apply encode_lt; unfold scalar; lia.
Qed.

Lemma compareBytes_opp a b : compareBytes b a = - compareBytes a b.
Proof. apply compare_from_opp. Qed.

Lemma compare_scan_bytes a b p x y :
  a = p ++ x -> b = p ++ y -> Forall unit_ok a -> Forall unit_ok b ->
  Z.sgn (compare_scan a b x y) = Z.sgn (compareBytes a b).
Proof.
  revert p y. induction x as [|u x IH]; intros p y Ha Hb Hoa Hob.
  - destruct y as [|v y]; simpl.
    + rewrite Ha, Hb. pose proof (compareBytes_opp (p ++ []) (p ++ [])). simpl. lia.
    + rewrite app_nil_r in Ha. subst a b. pose proof (encode_shorter p v y Hob). lia.
  - destruct y as [|v y].
    + rewrite app_nil_r in Hb. subst a b. cbn [compare_scan length].
      pose proof (encode_shorter p u x Hoa). rewrite compareBytes_opp in H. lia.
    + cbn [compare_scan]. destruct (Z.eqb_spec u v) as [->|Hne].
      { apply (IH (p ++ [v])); rewrite <- ?app_assoc; done. }
      destruct (surrogate u) eqn:Su; [done|]. destruct (surrogate v) eqn:Sv; [done|]. simpl.
      subst a b. destruct (Z.lt_total u v) as [H|[H|H]]; [|lia|].
      * pose proof (encode_mismatch p u v x y Hoa Hob Su Sv H). lia.
      * pose proof (encode_mismatch p v u y x Hob Hoa Sv Su H) as H'.
        rewrite compareBytes_opp in H'. lia.
Qed.

(** C6.  The order of members is Redis's: for any two JavaScript strings,
    [compareMembers] has the sign of the comparison of their UTF-8 bytes, lone
    surrogates encoded as U+FFFD, although it encodes neither string unless
    the first difference is at a surrogate. *)
Theorem compareMembers_is_byte_order (a b : units) :
  Forall unit_ok a -> Forall unit_ok b ->
  Z.sgn (compareMembers a b) = Z.sgn (compareBytes a b).
Proof. intros. by apply (compare_scan_bytes a b []). Qed.

(** A lone high surrogate against U+E000: the units and the bytes disagree. *)
Lemma compareMembers_is_byte_order_witness :
  Z.sgn (compareMembers [97; 55296; 56320] [97; 57344]) = Z.sgn (compareBytes [97; 55296; 56320] [97; 57344])
  /\ Z.sgn (compareMembers [97; 55296; 56320] [97; 57344]) = 1.
Proof.
  split; [|reflexivity].
  apply (compareMembers_is_byte_order [97; 55296; 56320] [97; 57344]);
    repeat constructor; unfold unit_ok; lia.
Defined.
