(* ===== verification/MemoryStore.v ===== *)
(** * The memory backend's store

    The in-process backend of [packages/core/src/backend/memory.ts]: its
    state, the primitives every operation is written with (lazy expiry,
    typed entries, TTLs), the key-value operations, the locks and the
    publish/subscribe bus.

    An operation is a function of the clock and the state that returns or
    throws, and keeps what it wrote before throwing, as JavaScript does.  The
    clock is read once per operation: a body that never suspends is taken to
    run within one millisecond.  Time passes between operations only. *)
From S2P Require Import Prelude JsNumber JsString Shared Utf.
Local Open Scope num_scope.

(** ** State *)

Record Entry := {
  expiresAt : option num;
  e_hash : option (gmap string string);
  e_set : option (list string);
  e_zset : option (list (string * num));
  e_str : option string
}.

Definition empty_entry : Entry :=
  {| expiresAt := None; e_hash := None; e_set := None; e_zset := None; e_str := None |}.

Definition with_expiresAt (x : option num) (e : Entry) : Entry :=
  {| expiresAt := x; e_hash := e_hash e; e_set := e_set e; e_zset := e_zset e; e_str := e_str e |}.
Definition with_hash (h : gmap string string) (e : Entry) : Entry :=
  {| expiresAt := expiresAt e; e_hash := Some h; e_set := e_set e; e_zset := e_zset e; e_str := e_str e |}.
Definition with_set (s : list string) (e : Entry) : Entry :=
  {| expiresAt := expiresAt e; e_hash := e_hash e; e_set := Some s; e_zset := e_zset e; e_str := e_str e |}.
Definition with_zset (z : list (string * num)) (e : Entry) : Entry :=
  {| expiresAt := expiresAt e; e_hash := e_hash e; e_set := e_set e; e_zset := Some z; e_str := e_str e |}.

(** A subscriber, by identity. *)
Abbreviation handler := nat.

Record World := {
  store : gmap string Entry;
  epochs : num;
  subscribed : list (string * list handler);
  busListening : bool;
  sweeper : bool;  (** whether the periodic sweep is armed *)
  microtasks : list (string * string);  (** messages emitted, not yet delivered *)
  delivered : list (handler * string * string)
}.

Definition with_store (s : gmap string Entry) (w : World) : World :=
  {| store := s; epochs := epochs w; subscribed := subscribed w;
     busListening := busListening w; sweeper := sweeper w;
     microtasks := microtasks w; delivered := delivered w |}.
Definition with_epochs (n : num) (w : World) : World :=
  {| store := store w; epochs := n; subscribed := subscribed w;
     busListening := busListening w; sweeper := sweeper w;
     microtasks := microtasks w; delivered := delivered w |}.
Definition with_sweeper (b : bool) (w : World) : World :=
  {| store := store w; epochs := epochs w; subscribed := subscribed w;
     busListening := busListening w; sweeper := b;
     microtasks := microtasks w; delivered := delivered w |}.
Definition with_bus (subs : list (string * list handler)) (listening : bool)
    (queue : list (string * string)) (log : list (handler * string * string))
    (w : World) : World :=
  {| store := store w; epochs := epochs w; subscribed := subs;
     busListening := listening; sweeper := sweeper w;
     microtasks := queue; delivered := log |}.

(** [new MemoryBackend()]: the constructor arms the sweep. *)
Definition MemoryBackend : World :=
  {| store := ∅; epochs := int 0; subscribed := []; busListening := false;
     sweeper := true; microtasks := []; delivered := [] |}.

(** ** The operation monad *)

Definition M (A : Type) : Type := num -> World -> result A * World.

#[export] Instance M_ret : MRet M := fun A a _ w => (Ok a, w).
#[export] Instance M_bind : MBind M := fun A B f m now w =>
  match m now w with
  | (Ok a, w') => f a now w'
  | (Throw e, w') => (Throw e, w')
  end.

Definition throw {A} (e : js_error) : M A := fun _ w => (Throw e, w).
Definition lift {A} (r : result A) : M A := fun _ w => (r, w).
Definition date_now : M num := fun now w => (Ok now, w).
Definition get_store : M (gmap string Entry) := fun _ w => (Ok (store w), w).
Definition modify (f : World -> World) : M unit := fun _ w => (Ok tt, f w).
Definition modify_store (f : gmap string Entry -> gmap string Entry) : M unit :=
  modify (fun w => with_store (f (store w)) w).

Fixpoint mforeach {A} (l : list A) (f : A -> M unit) : M unit :=
  match l with
  | [] => mret tt
  | x :: l' => f x ;; mforeach l' f
  end.

(** A loop that collects one result per element. *)
Fixpoint mcollect {A B} (l : list A) (f : A -> M B) : M (list B) :=
  match l with
  | [] => mret []
  | x :: l' => y ← f x; ys ← mcollect l' f; mret (y :: ys)
  end.

Definition mwhen (b : bool) (m : M unit) : M unit := if b then m else mret tt.

(** The number a [let] accumulates over a loop. *)
Fixpoint mfold {A B} (f : A -> B -> M A) (a : A) (l : list B) : M A :=
  match l with
  | [] => mret a
  | x :: l' => a' ← f a x; mfold f a' l'
  end.

(** ** Primitives *)

Definition armSweeper : M unit := modify (with_sweeper true).

Definition put (key : string) (e : Entry) : M unit :=
  armSweeper ;; modify_store <[key := e]>.

(** [entry.expiresAt !== undefined && now >= entry.expiresAt] *)
Definition expired (now : num) (e : Entry) : bool :=
  match expiresAt e with Some t => now >=? t | None => false end.

Definition sweep : M unit :=
  now ← date_now;
  modify_store (filter (fun kv => expired now kv.2 = false)).

Definition store_delete (key : string) : M unit := modify_store (delete key).

Definition live (key : string) : M (option Entry) :=
  now ← date_now;
  st ← get_store;
  match st !! key with
  | None => mret None
  | Some e =>
      if expired now e then store_delete key ;; mret None else mret (Some e)
  end.

Definition entry (key : string) : M Entry :=
  existing ← live key;
  match existing with
  | Some e => mret e
  | None => put key empty_entry ;; mret empty_entry
  end.

(** [hash(key)], [zset(key)] and [setOf(key)] return the collection itself,
    which callers then write through; here they create it, return its
    contents, and the writes go through [hash_set] and its like. *)
Definition update_entry (key : string) (f : Entry -> Entry) : M unit :=
  modify_store (alter f key).

Definition hash (key : string) : M (gmap string string) :=
  e ← entry key;
  match e_hash e with
  | Some h => mret h
  | None => update_entry key (with_hash ∅) ;; mret ∅
  end.

Definition zset (key : string) : M (list (string * num)) :=
  e ← entry key;
  match e_zset e with
  | Some z => mret z
  | None => update_entry key (with_zset []) ;; mret []
  end.

Definition setOf (key : string) : M (list string) :=
  e ← entry key;
  match e_set e with
  | Some s => mret s
  | None => update_entry key (with_set []) ;; mret []
  end.

Definition on_hash (f : gmap string string -> gmap string string) (e : Entry) : Entry :=
  match e_hash e with Some h => with_hash (f h) e | None => e end.
Definition on_zset (f : list (string * num) -> list (string * num)) (e : Entry) : Entry :=
  match e_zset e with Some z => with_zset (f z) e | None => e end.
Definition on_set (f : list string -> list string) (e : Entry) : Entry :=
  match e_set e with Some s => with_set (f s) e | None => e end.

Definition hash_set (key field value : string) : M unit :=
  update_entry key (on_hash <[field := value]>).
Definition hash_delete (key field : string) : M unit :=
  update_entry key (on_hash (delete field)).
Definition zset_set (key member : string) (score : num) : M unit :=
  update_entry key (on_zset (omap_set member score)).
Definition zset_delete (key member : string) : M unit :=
  update_entry key (on_zset (omap_delete member)).
Definition set_add (key member : string) : M unit :=
  update_entry key (on_set (oset_add member)).
Definition set_delete (key member : string) : M unit :=
  update_entry key (on_set (oset_delete member)).

Definition expire (key : string) (ttlSeconds : num) : M unit :=
  ttl ← lift (normalizeTtlSeconds ttlSeconds);
  e ← live key;
  match e with
  | None => mret tt
  | Some _ =>
      if ttl <=? int 0 then store_delete key
      else
        now ← date_now;
        update_entry key (with_expiresAt (Some (now + ttl * int 1000)))
  end.

(** [a[1] - b[1] || compareMembers(a[0], b[0])], as its sign: whether [a] may
    stand before [b]. *)
Definition member_le (a b : string * num) : bool :=
  let d := a.2 - b.2 in
  if isNaN d || (d =? int 0)
  then Z.leb (compareMembers (units_of a.1) (units_of b.1)) 0
  else d <? int 0.

#[export] Instance member_le_dec : RelDecision (fun a b => member_le a b = true).
Proof. intros a b. apply _. Defined.

Definition sort_members (z : list (string * num)) : list string :=
  (merge_sort (fun a b => member_le a b = true) z).*1.

Definition live_zset (key : string) : M (option (list (string * num))) :=
  e ← live key; mret (e ≫= e_zset).
Definition live_hash (key : string) : M (option (gmap string string)) :=
  e ← live key; mret (e ≫= e_hash).
Definition live_set (key : string) : M (option (list string)) :=
  e ← live key; mret (e ≫= e_set).
Definition live_str (key : string) : M (option string) :=
  e ← live key; mret (e ≫= e_str).

Definition sorted (key : string) : M (list string) :=
  z ← live_zset key;
  mret (match z with None => [] | Some z => sort_members z end).

Definition hget (key field : string) : M (option string) :=
  h ← live_hash key; mret (h ≫= lookup field).

(** The size [dropIfEmpty] reads: the set's, else the sorted set's, else the
    hash's. *)
Definition entry_size (e : Entry) : option nat :=
  match e_set e, e_zset e, e_hash e with
  | Some s, _, _ => Some (length s)
  | None, Some z, _ => Some (length z)
  | None, None, Some h => Some (size h)
  | None, None, None => None
  end.

Definition dropIfEmpty (key : string) : M unit :=
  st ← get_store;
  match st !! key with
  | None => mret tt
  | Some e => if decide (entry_size e = Some 0%nat) then store_delete key else mret tt
  end.

Definition removeMember (key member : string) : M unit :=
  s ← live_set key;
  match s with
  | None => mret tt
  | Some _ => set_delete key member ;; dropIfEmpty key
  end.

(** ** The store's operations *)

Definition get (key : string) : M (option string) := live_str key.

(** [undefined] or a normalised TTL. *)
Definition optional_ttl (ttlSeconds : option num) : M (option num) :=
  match ttlSeconds with
  | None => mret None
  | Some t => ttl ← lift (normalizeTtlSeconds t); mret (Some ttl)
  end.

Definition string_entry (value : string) (at_ : option num) : Entry :=
  {| expiresAt := at_; e_hash := None; e_set := None; e_zset := None; e_str := Some value |}.

Definition writeString (key value : string) (ttlSeconds : option num) : M unit :=
  ttl ← optional_ttl ttlSeconds;
  match ttl with
  | Some ttl =>
      if ttl <=? int 0 then store_delete key
      else
        now ← date_now;
        put key (string_entry value (Some (now + ttl * int 1000)))
  | None => put key (string_entry value None)
  end.

(** A field written by a host: a string, or a number that is stored as
    [String(value)]. *)
Inductive field_value := FStr (s : string) | FNum (n : num).

Definition field_string (v : field_value) : string :=
  match v with FStr s => s | FNum n => num_to_string n end.

Definition writeHash (key : string) (fields : list (string * field_value))
    (ttlSeconds : option num) : M unit :=
  ttl ← optional_ttl ttlSeconds;
  (match fields with
   | [] => mret tt
   | _ =>
       hash key ;;
       mforeach fields (fun fv => hash_set key fv.1 (field_string fv.2))
   end) ;;
  match ttl with None => mret tt | Some ttl => expire key ttl end.

Definition set (key value : string) (ttlSeconds : option num) : M unit :=
  writeString key value ttlSeconds.

Definition del (keys : list string) : M unit := mforeach keys store_delete.

Definition hgetall (key : string) : M (gmap string string) :=
  h ← live_hash key; mret (default ∅ h).

Definition hset := writeHash.

Definition sadd (key member : string) : M unit := setOf key ;; set_add key member.

Definition srem := removeMember.

Definition smembers (key : string) : M (list string) :=
  s ← live_set key; mret (default [] s).

(** ** Publish and subscribe *)

Definition emit (channel message : string) : M unit :=
  modify (fun w => with_bus (subscribed w) (busListening w)
    (microtasks w ++ [(channel, message)]) (delivered w) w).

Definition publish := emit.

Definition subscribe (channels : list string) (h : handler) : M unit :=
  modify (fun w =>
    with_bus
      (fold_left (fun subs c =>
         omap_set c (oset_add h (default [] (omap_get c subs))) subs)
         channels (subscribed w))
      true (microtasks w) (delivered w) w).

(** The queued microtask: the bus listener hands the oldest message to a copy
    of the channel's handlers. *)
Definition run_microtask : M unit :=
  modify (fun w =>
    match microtasks w with
    | [] => w
    | (c, m) :: q =>
        let hs := if busListening w then default [] (omap_get c (subscribed w)) else [] in
        with_bus (subscribed w) (busListening w) q
          (delivered w ++ map (fun h => (h, c, m)) hs) w
    end).

(** ** Batches *)

Inductive BatchOp :=
  | BSet (key value : string) (ttlSeconds : option num)
  | BDel (key : string)
  | BExpire (key : string) (ttlSeconds : num)
  | BSadd (key member : string)
  | BSrem (key member : string)
  | BHset (key : string) (fields : list (string * field_value)) (ttlSeconds : option num)
  | BPublish (channel message : string).

Definition batch_ttl (op : BatchOp) : option num :=
  match op with
  | BSet _ _ t | BHset _ _ t => t
  | BExpire _ t => Some t
  | _ => None
  end.

Definition run_op (op : BatchOp) : M unit :=
  match op with
  | BSet key value ttl => writeString key value ttl
  | BDel key => store_delete key
  | BExpire key ttl => expire key ttl
  | BSadd key member => sadd key member
  | BSrem key member => removeMember key member
  | BHset key fields ttl => writeHash key fields ttl
  | BPublish channel message => emit channel message
  end.

Definition batch (ops : list BatchOp) : M unit :=
  mforeach ops (fun op => optional_ttl (batch_ttl op) ;; mret tt) ;;
  mforeach ops run_op.

(** ** Locks *)

Definition acquireLock (key token : string) (ttlMs : num) : M bool :=
  if negb (isFinite ttlMs) || (ttlMs <=? int 0) then
    throw (RangeError ("ttlMs must be a finite number greater than 0, received "
                       +:+ num_to_string ttlMs))
  else
    e ← live key;
    match e with
    | Some _ => mret false
    | None =>
        now ← date_now;
        put key (string_entry token (Some (now + ttlMs))) ;; mret true
    end.

Definition releaseLock (key token : string) : M bool :=
  s ← live_str key;
  if decide (s = Some token) then store_delete key ;; mret true else mret false.

(** ** Instances and lifecycle *)

Definition getInstances (instanceSetKey instanceKeyPrefix currentInstanceId : string)
    : M (list (string * string)) :=
  s ← live_set instanceSetKey;
  match s with
  | None => mret []
  | Some ids =>
      mfold (fun acc id =>
        if decide (id = currentInstanceId) then mret acc
        else
          data ← live_str (instanceKeyPrefix +:+ id);
          match data with
          | Some d =>
              if decide (d = "") then removeMember instanceSetKey id ;; mret acc
              else mret (acc ++ [(id, d)])
          | None => removeMember instanceSetKey id ;; mret acc
          end) [] ids
  end.

Definition now_ : M num := date_now.

Definition close : M unit :=
  modify (fun w => with_sweeper false (with_bus [] false (microtasks w) (delivered w) w)).
