(* ===== verification/StoreFacts.v ===== *)
(** * How the store's primitives run

    Equations for the primitives of [MemoryStore] on any state: what a key
    holds at an instant ([live_at]), what a read leaves behind ([purge_key]),
    and the one shape every write takes ([upsert]). *)
From S2P Require Import Prelude JsNumber JsString Shared Utf MemoryStore.
Local Open Scope num_scope.

(** ** What a key holds *)

Definition live_at (now : num) (w : World) (key : string) : option Entry :=
  match store w !! key with
  | Some e => if expired now e then None else Some e
  | None => None
  end.

(** The state after [live key]. *)
Definition purge_key (now : num) (key : string) (w : World) : World :=
  match store w !! key with
  | Some e => if expired now e then with_store (delete key (store w)) w else w
  | None => w
  end.

(** A write to [key]: its live entry, or a new one, changed by [g]. *)
Definition upsert (now : num) (key : string) (g : Entry -> Entry) (w : World) : World :=
  match live_at now w key with
  | Some e => with_store (<[key := g e]> (store w)) w
  | None => with_sweeper true (with_store (<[key := g empty_entry]> (store w)) w)
  end.

Definition hash_at (now : num) (w : World) (key : string) : option (gmap string string) :=
  live_at now w key ≫= e_hash.

Definition field_at (now : num) (w : World) (key field : string) : option string :=
  hash_at now w key ≫= lookup field.

Definition zset_at (now : num) (w : World) (key : string) : option (list (string * num)) :=
  live_at now w key ≫= e_zset.

Definition set_at (now : num) (w : World) (key : string) : option (list string) :=
  live_at now w key ≫= e_set.

Definition str_at (now : num) (w : World) (key : string) : option string :=
  live_at now w key ≫= e_str.

Definition sorted_at (now : num) (w : World) (key : string) : list string :=
  match zset_at now w key with None => [] | Some z => sort_members z end.

(** ** The monad *)

Lemma bind_run {A B} (m : M A) (f : A -> M B) now w :
  (m ≫= f) now w = match m now w with
                   | (Ok a, w') => f a now w'
                   | (Throw e, w') => (Throw e, w')
                   end.
Proof. done. Qed.

Lemma ret_run {A} (a : A) now w : (mret a : M A) now w = (Ok a, w).
Proof. done. Qed.

Lemma bind_ok {A B} (m : M A) (f : A -> M B) now w a w' :
  m now w = (Ok a, w') -> (m ≫= f) now w = f a now w'.
Proof. intros H. by rewrite bind_run, H. Qed.

Lemma date_now_run {B} (f : num -> M B) now w : (date_now ≫= f) now w = f now now w.
Proof. done. Qed.

Lemma lift_run {A B} (a : A) (f : A -> M B) now w : (lift (Ok a) ≫= f) now w = f a now w.
Proof. done. Qed.

Lemma bind_throw {A B} (m : M A) (f : A -> M B) now w e w' :
  m now w = (Throw e, w') -> (m ≫= f) now w = (Throw e, w').
Proof. intros H. by rewrite bind_run, H. Qed.

Lemma with_store_id w : with_store (store w) w = w.
Proof. by destruct w. Qed.

Lemma with_store_store s w : store (with_store s w) = s.
Proof. done. Qed.

Lemma with_store_with_store s s' w : with_store s (with_store s' w) = with_store s w.
Proof. done. Qed.

(** ** Reads *)

Lemma live_run key now w :
  live key now w = (Ok (live_at now w key), purge_key now key w).
Proof.
  unfold live, live_at, purge_key. rewrite bind_run. simpl. rewrite bind_run. simpl.
  destruct (store w !! key) as [e|]; [|done]. by destruct (expired now e).
Qed.

Lemma live_bind {B} (f : option Entry -> M B) key now w :
  (live key ≫= f) now w = f (live_at now w key) now (purge_key now key w).
Proof. by rewrite (bind_ok _ _ _ _ _ _ (live_run key now w)). Qed.

Lemma purge_key_store now key w :
  store (purge_key now key w) !! key = live_at now w key.
Proof.
  unfold purge_key, live_at. destruct (store w !! key) as [e|] eqn:E; [|done].
  destruct (expired now e); [|done]. apply lookup_delete_eq.
Qed.

Lemma purge_key_store_ne now key key' w :
  key' <> key -> store (purge_key now key w) !! key' = store w !! key'.
Proof.
  intros. unfold purge_key. destruct (store w !! key) as [e|]; [|done].
  destruct (expired now e); [|done]. by apply lookup_delete_ne.
Qed.

Lemma live_at_purge_key now key key' w :
  live_at now (purge_key now key w) key' = live_at now w key'.
Proof.
  unfold live_at at 1. destruct (decide (key' = key)) as [->|Hne].
  - rewrite purge_key_store. unfold live_at. destruct (store w !! key) as [e|]; [|done].
    by destruct (expired now e) eqn:E; rewrite ?E.
  - by rewrite purge_key_store_ne.
Qed.

Lemma purge_key_epochs now key w : epochs (purge_key now key w) = epochs w.
Proof.
  unfold purge_key. destruct (store w !! key) as [e|]; [|done]. by destruct (expired now e).
Qed.

Lemma purge_key_idemp now key w :
  purge_key now key (purge_key now key w) = purge_key now key w.
Proof.
  unfold purge_key at 1. rewrite purge_key_store. unfold live_at.
  destruct (store w !! key) as [e|]; [|done]. by destruct (expired now e) eqn:E; rewrite ?E.
Qed.

Lemma hash_at_purge_key now key key' w :
  hash_at now (purge_key now key w) key' = hash_at now w key'.
Proof. unfold hash_at. by rewrite live_at_purge_key. Qed.

Lemma field_at_purge_key now key key' f w :
  field_at now (purge_key now key w) key' f = field_at now w key' f.
Proof. unfold field_at. by rewrite hash_at_purge_key. Qed.

Lemma zset_at_purge_key now key key' w :
  zset_at now (purge_key now key w) key' = zset_at now w key'.
Proof. unfold zset_at. by rewrite live_at_purge_key. Qed.

Lemma live_hash_run key now w :
  live_hash key now w = (Ok (hash_at now w key), purge_key now key w).
Proof. unfold live_hash. by rewrite (bind_ok _ _ _ _ _ _ (live_run key now w)). Qed.

Lemma live_zset_run key now w :
  live_zset key now w = (Ok (zset_at now w key), purge_key now key w).
Proof. unfold live_zset. by rewrite (bind_ok _ _ _ _ _ _ (live_run key now w)). Qed.

Lemma live_set_run key now w :
  live_set key now w = (Ok (set_at now w key), purge_key now key w).
Proof. unfold live_set. by rewrite (bind_ok _ _ _ _ _ _ (live_run key now w)). Qed.

Lemma live_str_run key now w :
  live_str key now w = (Ok (str_at now w key), purge_key now key w).
Proof. unfold live_str. by rewrite (bind_ok _ _ _ _ _ _ (live_run key now w)). Qed.

Lemma hget_run key field now w :
  hget key field now w = (Ok (field_at now w key field), purge_key now key w).
Proof. unfold hget. by rewrite (bind_ok _ _ _ _ _ _ (live_hash_run key now w)). Qed.

Lemma sorted_run key now w :
  MemoryStore.sorted key now w = (Ok (sorted_at now w key), purge_key now key w).
Proof. unfold MemoryStore.sorted. by rewrite (bind_ok _ _ _ _ _ _ (live_zset_run key now w)). Qed.

Lemma field_at_entry now w key e h f :
  store w !! key = Some e -> expired now e = false -> e_hash e = Some h ->
  field_at now w key f = h !! f.
Proof.
  intros Hs He Hh. unfold field_at, hash_at, live_at. rewrite Hs, He. simpl. by rewrite Hh.
Qed.

Lemma field_at_dead now w key f : live_at now w key = None -> field_at now w key f = None.
Proof. intros H. unfold field_at, hash_at. by rewrite H. Qed.

(** ** Writes *)

Lemma upsert_purge_key now key g w :
  upsert now key g (purge_key now key w) = upsert now key g w.
Proof.
  unfold upsert. rewrite live_at_purge_key. unfold purge_key.
  destruct (live_at now w key) as [e|] eqn:E; unfold live_at in E;
    destruct (store w !! key) as [e'|]; try done.
  - destruct (expired now e') eqn:Ee; [done|]. done.
  - destruct (expired now e') eqn:Ee; [|done]. simpl. by rewrite insert_delete_eq.
Qed.

Lemma upsert_store now key g w :
  store (upsert now key g w)
  = <[key := g (default empty_entry (live_at now w key))]> (store w).
Proof. unfold upsert. by destruct (live_at now w key). Qed.

Lemma live_at_upsert now key g w :
  let e := g (default empty_entry (live_at now w key)) in
  live_at now (upsert now key g w) key = if expired now e then None else Some e.
Proof. intros e. unfold live_at at 1. by rewrite upsert_store, lookup_insert_eq. Qed.

Lemma live_at_upsert_ne now now' key key' g w :
  key' <> key -> live_at now' (upsert now key g w) key' = live_at now' w key'.
Proof. intros. unfold live_at at 1. by rewrite upsert_store, lookup_insert_ne. Qed.

Lemma live_at_not_expired now w key e : live_at now w key = Some e -> expired now e = false.
Proof.
  unfold live_at. destruct (store w !! key) as [e'|]; [|done].
  destruct (expired now e') eqn:E; [done|]. by intros [= <-].
Qed.

Lemma live_at_lookup now w key e : live_at now w key = Some e -> store w !! key = Some e.
Proof.
  unfold live_at. destruct (store w !! key) as [e'|]; [|done].
  by destruct (expired now e').
Qed.

(** The entry a write starts from has not expired. *)
Lemma default_not_expired now w key :
  expired now (default empty_entry (live_at now w key)) = false.
Proof.
  destruct (live_at now w key) as [e|] eqn:E; [|done]. by eapply live_at_not_expired.
Qed.

Lemma update_upsert now key f g w :
  update_entry key f now (upsert now key g w) = (Ok tt, upsert now key (f ∘ g) w).
Proof.
  unfold update_entry, modify_store, modify, upsert.
  destruct (live_at now w key); simpl; by rewrite alter_insert_eq.
Qed.

(** A function of entries that leaves the lifetime alone. *)
Definition keeps_expiry (g : Entry -> Entry) : Prop :=
  forall e, expiresAt (g e) = expiresAt e.

Lemma keeps_expiry_expired g now e : keeps_expiry g -> expired now (g e) = expired now e.
Proof. intros H. unfold expired. by rewrite H. Qed.

Lemma live_at_upsert_keeps now key g w :
  keeps_expiry g ->
  live_at now (upsert now key g w) key = Some (g (default empty_entry (live_at now w key))).
Proof.
  intros Hg. rewrite live_at_upsert. simpl.
  by rewrite keeps_expiry_expired, default_not_expired.
Qed.

Lemma purge_upsert_keeps now key g w :
  keeps_expiry g -> purge_key now key (upsert now key g w) = upsert now key g w.
Proof.
  intros Hg. unfold purge_key. rewrite upsert_store, lookup_insert_eq.
  by rewrite keeps_expiry_expired, default_not_expired.
Qed.

Lemma upsert_id now key w e :
  live_at now w key = Some e -> upsert now key id w = w.
Proof.
  intros H. unfold upsert. rewrite H. unfold id.
  rewrite insert_id by by apply live_at_lookup in H. apply with_store_id.
Qed.

Lemma entry_run key now w :
  entry key now w
  = (Ok (default empty_entry (live_at now w key)), upsert now key id w).
Proof.
  unfold entry. rewrite (bind_ok _ _ _ _ _ _ (live_run key now w)).
  destruct (live_at now w key) as [e|] eqn:E.
  - rewrite ret_run. rewrite <- upsert_purge_key.
    rewrite (upsert_id _ _ _ e); [done|]. by rewrite live_at_purge_key.
  - rewrite <- upsert_purge_key. unfold upsert. rewrite live_at_purge_key, E. done.
Qed.

Definition ensure_hash (e : Entry) : Entry := with_hash (default ∅ (e_hash e)) e.
Definition ensure_zset (e : Entry) : Entry := with_zset (default [] (e_zset e)) e.
Definition ensure_set (e : Entry) : Entry := with_set (default [] (e_set e)) e.

(** The three collections are created in the same way. *)
Ltac collection_run :=
  match goal with
  | |- context [live_at ?now ?w ?key] =>
      destruct (live_at now w key) as [[? [?|] [?|] [?|] ?]|]
  end; simpl; try done;
  rewrite bind_run; unfold update_entry, modify_store, modify; simpl;
  by rewrite alter_insert_eq.

Lemma hash_run key now w :
  hash key now w = (Ok (default ∅ (hash_at now w key)), upsert now key ensure_hash w).
Proof.
  unfold hash. rewrite (bind_ok _ _ _ _ _ _ (entry_run key now w)).
  unfold hash_at, upsert, ensure_hash. collection_run.
Qed.

Lemma zset_run key now w :
  zset key now w = (Ok (default [] (zset_at now w key)), upsert now key ensure_zset w).
Proof.
  unfold zset. rewrite (bind_ok _ _ _ _ _ _ (entry_run key now w)).
  unfold zset_at, upsert, ensure_zset. collection_run.
Qed.

Lemma setOf_run key now w :
  setOf key now w = (Ok (default [] (set_at now w key)), upsert now key ensure_set w).
Proof.
  unfold setOf. rewrite (bind_ok _ _ _ _ _ _ (entry_run key now w)).
  unfold set_at, upsert, ensure_set. collection_run.
Qed.

Lemma dropIfEmpty_run key now w :
  dropIfEmpty key now w
  = (Ok tt, match store w !! key with
            | Some e => if decide (entry_size e = Some 0%nat)
                        then with_store (delete key (store w)) w else w
            | None => w
            end).
Proof.
  unfold dropIfEmpty, get_store, mbind, M_bind. destruct (store w !! key); [|done].
  by case_decide.
Qed.

(** ** TTLs *)

Lemma normalizeTtl_inv t ttl :
  normalizeTtlSeconds t = Ok ttl ->
  isFinite t = true /\ (t >? REDIS_MAX_TTL_SECONDS) = false /\
  ((t <=? int 0) = true /\ ttl = int 0 \/ (t <=? int 0) = false /\ ttl = ceil t).
Proof.
  unfold normalizeTtlSeconds. destruct (isFinite t); [|done]. simpl negb. cbv iota.
  destruct (t >? REDIS_MAX_TTL_SECONDS); [done|].
  destruct (t <=? int 0); intros [= <-]; auto.
Qed.

Lemma REDIS_MAX_units : REDIS_MAX_TTL_SECONDS = Fin (9200000000000000 * unit1)%Z.
Proof. done. Qed.

Lemma ceil_bounds m :
  (m <= - (- m / unit1) * unit1 < m + unit1)%Z.
Proof.
  pose proof unit1_pos. pose proof (Z.div_mod (- m) unit1 ltac:(lia)).
  pose proof (Z.mod_pos_bound (- m) unit1 ltac:(lia)). lia.
Qed.

Lemma ceil_le_int m z : (m <= z * unit1 -> - (- m / unit1) * unit1 <= z * unit1)%Z.
Proof.
  intros H. pose proof unit1_pos. apply Z.mul_le_mono_nonneg_r; [lia|].
  pose proof (Z.div_le_lower_bound (- m) unit1 (- z) ltac:(lia) ltac:(lia)). lia.
Qed.

(** A normalised TTL normalises to itself, and is positive when the TTL is. *)
Lemma normalizeTtl_idem t ttl :
  normalizeTtlSeconds t = Ok ttl ->
  normalizeTtlSeconds ttl = Ok ttl /\ (ttl <=? int 0) = (t <=? int 0).
Proof.
  intros H. pose proof unit1_pos as Hu.
  apply normalizeTtl_inv in H as (Hf & Hm & [[H0 ->]|[H0 ->]]).
  { rewrite H0, leb_int. split; [by vm_compute|done]. }
  destruct t as [| |m]; try done. rewrite H0.
  rewrite REDIS_MAX_units in Hm. unfold gtb, ltb, leb in Hm, H0.
  apply Z.ltb_ge in Hm. apply Z.leb_gt in H0.
  pose proof (ceil_bounds m). pose proof (ceil_le_int m _ Hm).
  assert ((ceil (Fin m) <=? int 0) = false) as E by (rewrite ceil_Fin; apply Z.leb_gt; lia).
  split; [|done]. unfold normalizeTtlSeconds. rewrite REDIS_MAX_units, E. unfold gtb, ltb. rewrite !ceil_Fin. simpl.
  rewrite (proj2 (Z.ltb_ge _ _)) by done. f_equal. f_equal.
  rewrite <- Z.mul_opp_l, Z.opp_involutive, Z.div_mul by lia. lia.
Qed.

(** The state after [expire]. *)
Definition expired_at (now ttl : num) (e : Entry) : Entry :=
  with_expiresAt (Some (now + ttl * int 1000)) e.

Lemma expire_run key t ttl now w :
  normalizeTtlSeconds t = Ok ttl -> (ttl <=? int 0) = false ->
  expire key t now w
  = (Ok tt, match live_at now w key with
            | Some _ => upsert now key (expired_at now ttl) w
            | None => purge_key now key w
            end).
Proof.
  intros Ht Hpos. unfold expire. rewrite Ht.
  rewrite (bind_ok _ _ _ _ _ _ (eq_refl : lift (Ok ttl) now w = _)).
  rewrite (bind_ok _ _ _ _ _ _ (live_run key now w)).
  destruct (live_at now w key) as [e|] eqn:E; [|done].
  rewrite Hpos, bind_run. simpl date_now. cbv iota beta.
  rewrite <- upsert_purge_key. unfold update_entry, modify_store, modify, upsert.
  rewrite live_at_purge_key, E. simpl. do 3 f_equal.
  assert (store (purge_key now key w) !! key = Some e) as Hs
    by by rewrite purge_key_store.
  rewrite <- (insert_id _ _ _ Hs) at 1. by rewrite alter_insert_eq.
Qed.

(** [expire] after a write that left the lifetime alone. *)
Lemma expire_upsert key t ttl g now w :
  normalizeTtlSeconds t = Ok ttl -> (ttl <=? int 0) = false -> keeps_expiry g ->
  expire key t now (upsert now key g w)
  = (Ok tt, upsert now key (expired_at now ttl ∘ g) w).
Proof.
  intros Ht Hpos Hg. rewrite (expire_run _ _ _ _ _ Ht Hpos).
  rewrite live_at_upsert_keeps by done. f_equal.
  unfold upsert at 1. rewrite live_at_upsert_keeps by done.
  unfold upsert. destruct (live_at now w key); simpl;
    by rewrite insert_insert_eq.
Qed.

Lemma keeps_ensure_hash : keeps_expiry ensure_hash.
Proof. done. Qed.
Lemma keeps_ensure_zset : keeps_expiry ensure_zset.
Proof. done. Qed.
Lemma keeps_ensure_set : keeps_expiry ensure_set.
Proof. done. Qed.
Lemma keeps_on_hash f : keeps_expiry (on_hash f).
Proof. intros [? [?|] ? ? ?]; done. Qed.
Lemma keeps_on_zset f : keeps_expiry (on_zset f).
Proof. intros [? ? ? [?|] ?]; done. Qed.
Lemma keeps_on_set f : keeps_expiry (on_set f).
Proof. intros [? ? [?|] ? ?]; done. Qed.
Lemma keeps_compose f g : keeps_expiry f -> keeps_expiry g -> keeps_expiry (f ∘ g).
Proof. intros Hf Hg e. simpl. by rewrite Hf. Qed.

Create HintDb store.
#[export] Hint Resolve keeps_ensure_hash keeps_ensure_zset keeps_ensure_set
  keeps_on_hash keeps_on_zset keeps_on_set keeps_compose : store.

(** ** Running an operation step by step *)

Ltac mstep :=
  first
    [ rewrite (bind_ok _ _ _ _ _ _ (hget_run _ _ _ _))
    | rewrite (bind_ok _ _ _ _ _ _ (live_hash_run _ _ _))
    | rewrite (bind_ok _ _ _ _ _ _ (live_zset_run _ _ _))
    | rewrite (bind_ok _ _ _ _ _ _ (live_set_run _ _ _))
    | rewrite (bind_ok _ _ _ _ _ _ (live_str_run _ _ _))
    | rewrite (bind_ok _ _ _ _ _ _ (live_run _ _ _))
    | rewrite (bind_ok _ _ _ _ _ _ (sorted_run _ _ _))
    | rewrite (bind_ok _ _ _ _ _ _ (hash_run _ _ _))
    | rewrite (bind_ok _ _ _ _ _ _ (zset_run _ _ _))
    | rewrite (bind_ok _ _ _ _ _ _ (setOf_run _ _ _))
    | rewrite (bind_ok _ _ _ _ _ _ (update_upsert _ _ _ _ _))
    | rewrite (bind_ok date_now _ _ _ _ _ eq_refl) ].
