(* ===== verification/TokenBucket.v ===== *)
(** * Token buckets of the memory backend

    Lazy refill, claims with their settlement marks, refunds, resets, and the
    settlement of a claim against what its response reported
    ([packages/core/src/backend/memory.ts], the token bucket section). *)
From S2P Require Import Prelude JsNumber JsString Shared MemoryStore.
Local Open Scope num_scope.

(** ** Data *)

Record TokenBucketConfig := {
  maxTokens : num;
  tokensToAdd : num;
  interval : num
}.

Record ClaimMark := { mark_id : string; mark_ttlSeconds : num }.

Record BucketState := {
  tokens : num;
  lastUpdate : num;
  overflow : num;
  fills : num
}.

Definition with_tokens (t : num) (s : BucketState) : BucketState :=
  {| tokens := t; lastUpdate := lastUpdate s; overflow := overflow s; fills := fills s |}.

Record AcquireTokensResult := {
  at_acquired : bool;
  at_waitTime : option num;
  at_remainingTokens : option num;
  at_error : option string
}.

Record SettleSpec := {
  ss_key : string;
  ss_markId : string;
  ss_actual : num;
  ss_config : TokenBucketConfig;
  ss_maxDebt : num
}.

Record SettleResult := {
  sr_key : string;
  sr_settled : bool;
  sr_applied : num;
  sr_unapplied : num
}.

(** ** Guards *)

Definition usableCost (cost : num) : bool := isFinite cost && (cost >=? int 0).

Definition unusableBudget (cost : num) (config : TokenBucketConfig) : option string :=
  if negb (tokensToAdd config >? int 0) then Some "tokensToAdd must be greater than 0"
  else if negb (isFinite (maxTokens config)) || (maxTokens config <=? int 0) then
    Some "maxTokens must be a finite number greater than 0"
  else if negb (usableCost cost) then
    Some "cost must be a finite number that is not negative"
  else if negb (isFinite (interval config)) then Some "interval must be a finite number"
  else None.

Definition bucketTtl (ttlSeconds : num) (config : TokenBucketConfig) : num :=
  let refill :=
    ceil (ceil (maxTokens config / tokensToAdd config) * interval config / int 1000) in
  if negb (refill >? ttlSeconds) then ttlSeconds
  else fmin refill REDIS_MAX_TTL_SECONDS.

Definition claimMark (mark : option ClaimMark) : M (option ClaimMark) :=
  match mark with
  | None => mret None
  | Some m =>
      ttl ← lift (normalizeStateTtlSeconds (mark_ttlSeconds m));
      mret (Some {| mark_id := mark_id m; mark_ttlSeconds := ttl |})
  end.

(** ** Freeze gates over a freeze key *)

Definition usableDeadline (raw : option string) : option num :=
  let parsed := parseStoredNumber raw NaN in
  if isFinite parsed then Some parsed else None.

Definition freezeBlocksAdmission (freezeKey : string) (now : num) : M bool :=
  raw ← hget freezeKey "frozenUntil";
  match raw with
  | None => mret false
  | Some _ =>
      match usableDeadline raw with
      | None => mret false
      | Some frozenUntil =>
          if now <? frozenUntil then mret true
          else
            probes ← hget freezeKey "thawRequestCount";
            mret (parseFiniteStored probes (int 0) >? int 0)
      end
  end.

Definition freezeEmptiedBucket (freezeKey : string) (now : num) : M bool :=
  raw ← hget freezeKey "frozenUntil";
  let frozenUntil := parseFiniteStored raw (int 0) in
  if frozenUntil >? now then
    flag ← hget freezeKey "emptiesBucket";
    mret (negb (bool_decide (flag = Some "0")))
  else mret false.

(** ** Refill *)

(** The whole intervals elapsed, credited: the new balance, before the
    ceiling, and refill clock. *)
Definition credit (s : BucketState) (config : TokenBucketConfig) (now : num) : num * num :=
  let elapsed := now - lastUpdate s in
  if (elapsed >? int 0) && (interval config >? int 0) then
    let intervalsElapsed := floor (elapsed / interval config) in
    if intervalsElapsed >? int 0 then
      (tokens s + intervalsElapsed * tokensToAdd config,
       lastUpdate s + intervalsElapsed * interval config)
    else (tokens s, lastUpdate s)
  else (tokens s, lastUpdate s).

(** The arithmetic of [refill] on a bucket's four stored numbers. *)
Definition refill_state (s : BucketState) (config : TokenBucketConfig) (now : num)
    : BucketState :=
  let belowCap := tokens s <? maxTokens config in
  let '(t, u) := credit s config now in
  if t >? maxTokens config then
    {| tokens := maxTokens config; lastUpdate := u;
       overflow := overflow s + (t - maxTokens config);
       fills := fills s + int 1 |}
  else if belowCap && (t >=? maxTokens config) then
    {| tokens := t; lastUpdate := u; overflow := overflow s; fills := fills s + int 1 |}
  else {| tokens := t; lastUpdate := u; overflow := overflow s; fills := fills s |}.

Definition refill (key : string) (config : TokenBucketConfig) (now : num) : M BucketState :=
  t ← hget key "tokens";
  u ← hget key "lastUpdate";
  o ← hget key "overflow";
  f ← hget key "fills";
  mret (refill_state
    {| tokens := parseFiniteStored t (maxTokens config);
       lastUpdate := parseFiniteStored u now;
       overflow := parseFiniteStored o (int 0);
       fills := parseFiniteStored f (int 0) |} config now).

Definition writeBucket (key : string) (state : BucketState) (ttlSeconds : num)
    (config : option TokenBucketConfig) : M unit :=
  ttl ← lift (normalizeTtlSeconds
    (match config with Some c => bucketTtl ttlSeconds c | None => ttlSeconds end));
  hash key ;;
  hash_set key "tokens" (num_to_string (tokens state)) ;;
  hash_set key "lastUpdate" (num_to_string (lastUpdate state)) ;;
  hash_set key "overflow" (num_to_string (overflow state)) ;;
  hash_set key "fills" (num_to_string (fills state)) ;;
  expire key ttl.

Definition next_epoch : M num := fun _ w =>
  let n := epochs w + int 1 in (Ok n, with_epochs n w).

Definition get_field (h : gmap string string) (field : string) : option string := h !! field.

Definition writeMark (key : string) (mark : ClaimMark) (cost : num) (state : BucketState)
    : M unit :=
  bucket ← hash key;
  (match bucket !! "epoch" with
   | Some _ => mret tt
   | None => n ← next_epoch; hash_set key "epoch" (num_to_string n)
   end) ;;
  let markKey := claimMarkKey key (mark_id mark) in
  hash markKey ;;
  hash_set markKey "claimed" (num_to_string cost) ;;
  hash_set markKey "overflow" (num_to_string (overflow state)) ;;
  hash_set markKey "fills" (num_to_string (fills state)) ;;
  bucket ← hash key;
  hash_set markKey "generation"
    (num_to_string (parseFiniteStored (bucket !! "generation") (int 0))) ;;
  hash_set markKey "epoch" (default "" (bucket !! "epoch")) ;;
  hash_set markKey "forgiven"
    (num_to_string (parseFiniteStored (bucket !! "forgiven") (int 0))) ;;
  expire markKey (mark_ttlSeconds mark).

Definition write_mark_opt (key : string) (mark : option ClaimMark) (cost : num)
    (state : BucketState) : M unit :=
  match mark with Some m => writeMark key m cost state | None => mret tt end.

(** ** Operations *)

(** How long until the shortfall has refilled, less the time already served. *)
Definition wait_time (cost : num) (state : BucketState) (config : TokenBucketConfig)
    (now : num) : num :=
  let intervalsNeeded := ceil ((cost - tokens state) / tokensToAdd config) in
  fmax (int 0) (intervalsNeeded * interval config - (now - lastUpdate state)).

Definition acquireTokens (key : string) (cost : num) (config : TokenBucketConfig)
    (mark : option ClaimMark) : M AcquireTokensResult :=
  claim ← claimMark mark;
  match unusableBudget cost config with
  | Some configError =>
      mret {| at_acquired := false; at_waitTime := Some (int 0);
              at_remainingTokens := Some (int 0); at_error := Some configError |}
  | None =>
      now ← date_now;
      state ← refill key config now;
      if coversCost (tokens state) cost (maxTokens config) then
        writeBucket key (with_tokens (tokens state - cost) state) (int 86400) (Some config) ;;
        write_mark_opt key claim cost state ;;
        mret {| at_acquired := true; at_waitTime := None;
                at_remainingTokens := Some (tokens state - cost); at_error := None |}
      else
        writeBucket key state (int 86400) (Some config) ;;
        mret {| at_acquired := false; at_waitTime := Some (wait_time cost state config now);
                at_remainingTokens := Some (tokens state); at_error := None |}
  end.

Definition getTokenBucketState (key : string) (config : TokenBucketConfig)
    : M (num * num) :=
  now ← date_now;
  s ← refill key config now;
  mret (tokens s, lastUpdate s).

Definition bumpGeneration (key : string) : M unit :=
  h ← hash key;
  hash_set key "generation"
    (num_to_string (parseFiniteStored (h !! "generation") (int 0) + int 1)).

Definition resetTokenBucket (key : string) (max : num) : M unit :=
  now ← date_now;
  o ← hget key "overflow";
  f ← hget key "fills";
  writeBucket key
    {| tokens := max; lastUpdate := now;
       overflow := parseFiniteStored o (int 0);
       fills := parseFiniteStored f (int 0) |} (int 86400) None ;;
  bumpGeneration key.

Definition emptyTokenBucket (key : string) (config : TokenBucketConfig) : M unit :=
  t ← hget key "tokens";
  now ← date_now;
  o ← hget key "overflow";
  f ← hget key "fills";
  writeBucket key
    {| tokens := fmin (parseFiniteStored t (int 0)) (int 0); lastUpdate := now;
       overflow := parseFiniteStored o (int 0);
       fills := parseFiniteStored f (int 0) |} (int 86400)
    (match unusableBudget (int 0) config with Some _ => None | None => Some config end) ;;
  bumpGeneration key.

(** Whether a settlement can be acted on. *)
Definition settle_usable (spec : SettleSpec) : bool :=
  isFinite (ss_actual spec) && negb (ss_actual spec <? int 0)
  && bool_decide (unusableBudget (int 0) (ss_config spec) = None).

Definition settle_one (now : num) (spec : SettleSpec) : M SettleResult :=
  let unsettled := {| sr_key := ss_key spec; sr_settled := false;
                      sr_applied := int 0; sr_unapplied := int 0 |} in
  let key := ss_key spec in
  let markKey := claimMarkKey key (ss_markId spec) in
  mark ← live_hash markKey;
  match mark with
  | None => mret unsettled
  | Some mark =>
      if negb (settle_usable spec) then mret unsettled
      else
        store_delete markKey ;;
        t ← hget key "tokens";
        match t with
        | None => mret {| sr_key := key; sr_settled := true;
                          sr_applied := int 0; sr_unapplied := int 0 |}
        | Some _ =>
            state ← refill key (ss_config spec) now;
            forgivenNow ← hget key "forgiven";
            generationNow ← hget key "generation";
            epochNow ← hget key "epoch";
            let outcome := settleAmount
              {| si_tokens := tokens state;
                 si_maxTokens := maxTokens (ss_config spec);
                 si_maxDebt := ss_maxDebt spec;
                 si_actual := ss_actual spec;
                 si_claimed := parseFiniteStored (mark !! "claimed") (int 0);
                 si_overflowNow := overflow state;
                 si_overflowAtClaim := parseFiniteStored (mark !! "overflow") (int 0);
                 si_forgivenNow := parseFiniteStored forgivenNow (int 0);
                 si_forgivenAtClaim := parseFiniteStored (mark !! "forgiven") (int 0);
                 si_fillsNow := fills state;
                 si_fillsAtClaim := parseFiniteStored (mark !! "fills") (int 0);
                 si_generationNow := parseFiniteStored generationNow (int 0);
                 si_generationAtClaim := parseFiniteStored (mark !! "generation") (int 0);
                 si_epochNow := default "" epochNow;
                 si_epochAtClaim := default "" (mark !! "epoch") |} in
            writeBucket key (with_tokens (tokens state - so_applied outcome) state)
              (int 86400) (Some (ss_config spec)) ;;
            hash key ;;
            hash_set key "forgiven" (num_to_string (so_forgiven outcome)) ;;
            mret {| sr_key := key; sr_settled := true;
                    sr_applied := so_applied outcome;
                    sr_unapplied := so_unapplied outcome |}
        end
  end.

Definition settleTokens (specs : list SettleSpec) : M (list SettleResult) :=
  now ← date_now;
  mcollect specs (settle_one now).

Definition creditTokens (key : string) (cost maxTokens : num)
    (freezeKey : option string) : M unit :=
  if negb (usableCost cost) then mret tt
  else
    now ← date_now;
    refused ← match freezeKey with
              | Some fk => if decide (fk = "") then mret false else freezeEmptiedBucket fk now
              | None => mret false
              end;
    if (refused : bool) then mret tt
    else
      h ← live_hash key;
      match h with
      | None => mret tt
      | Some h =>
          match h !! "tokens" with
          | None => mret tt
          | Some raw =>
              let t := parseFiniteStored (Some raw) (int 0) in
              hash_set key "tokens" (num_to_string (fmin maxTokens (t + cost)))
          end
      end.

Definition refundTokens := creditTokens.

Definition tryAdmitImmediately (queueKey bucketKey freezeKey : string) (cost : num)
    (config : TokenBucketConfig) (ttl : num) (mark : option ClaimMark) : M bool :=
  keyTtl ← lift (normalizeStateTtlSeconds ttl);
  claim ← claimMark mark;
  match unusableBudget cost config with
  | Some _ => mret false
  | None =>
      waiting ← sorted queueKey;
      if decide (0 < length waiting)%nat then mret false
      else
        now ← date_now;
        blocked ← freezeBlocksAdmission freezeKey now;
        if (blocked : bool) then mret false
        else
          state ← refill bucketKey config now;
          if negb (coversCost (tokens state) cost (maxTokens config)) then
            writeBucket bucketKey state keyTtl (Some config) ;;
            mret false
          else
            writeBucket bucketKey (with_tokens (tokens state - cost) state) keyTtl
              (Some config) ;;
            write_mark_opt bucketKey claim cost state ;;
            mret true
  end.

Definition tryAdmitNoLimit (queueKey freezeKey : string) : M bool :=
  waiting ← sorted queueKey;
  if decide (0 < length waiting)%nat then mret false
  else
    now ← date_now;
    blocked ← freezeBlocksAdmission freezeKey now;
    mret (negb blocked).
