(* ===== verification/TokenBucketFacts.v ===== *)
(** * How the token-bucket operations run

    What a bucket reads as at an instant, and the state each operation
    leaves, for every input; then the integer regime the conservation
    argument works in. *)
From S2P Require Import Prelude JsNumber JsString Shared SharedFacts.
From S2P Require Import MemoryStore StoreFacts TokenBucket.
Local Open Scope num_scope.

(** ** Reading a bucket *)

(** The four numbers [refill] starts from. *)
Definition stored_bucket (now : num) (w : World) (key : string) (config : TokenBucketConfig)
    : BucketState :=
  {| tokens := parseFiniteStored (field_at now w key "tokens") (maxTokens config);
     lastUpdate := parseFiniteStored (field_at now w key "lastUpdate") now;
     overflow := parseFiniteStored (field_at now w key "overflow") (int 0);
     fills := parseFiniteStored (field_at now w key "fills") (int 0) |}.

(** The bucket as an operation at [now] sees it. *)
Definition bucket_at (now : num) (w : World) (key : string) (config : TokenBucketConfig)
    : BucketState :=
  refill_state (stored_bucket now w key config) config now.

Lemma refill_run key config now w :
  refill key config now now w = (Ok (bucket_at now w key config), purge_key now key w).
Proof.
  unfold refill, bucket_at, stored_bucket.
  repeat (mstep; rewrite ?field_at_purge_key, ?purge_key_idemp). done.
Qed.

(** ** Writing a bucket *)

(** The four fields [writeBucket] sets. *)
Definition bucket_fields (s : BucketState) (h : gmap string string) : gmap string string :=
  <["fills" := num_to_string (fills s)]>
  (<["overflow" := num_to_string (overflow s)]>
  (<["lastUpdate" := num_to_string (lastUpdate s)]>
  (<["tokens" := num_to_string (tokens s)]> h))).

Definition bucket_entry (s : BucketState) (now ttl : num) (e : Entry) : Entry :=
  expired_at now ttl (on_hash (bucket_fields s) (ensure_hash e)).

Lemma writeBucket_run key s t config ttl now w :
  normalizeTtlSeconds (match config with Some c => bucketTtl t c | None => t end) = Ok ttl ->
  (ttl <=? int 0) = false ->
  writeBucket key s t config now w = (Ok tt, upsert now key (bucket_entry s now ttl) w).
Proof.
  intros Ht Hp. unfold writeBucket, hash_set. rewrite Ht.
  rewrite (bind_ok _ _ _ _ _ _ (eq_refl : lift (Ok ttl) now w = _)).
  destruct (normalizeTtl_idem _ _ Ht) as [Hi _].
  do 5 mstep. rewrite (expire_upsert _ _ _ _ _ _ Hi Hp) by auto 10 with store. done.
Qed.

Lemma writeBucket_throw key s t config e now w :
  normalizeTtlSeconds (match config with Some c => bucketTtl t c | None => t end) = Throw e ->
  writeBucket key s t config now w = (Throw e, w).
Proof. intros Ht. unfold writeBucket. by rewrite Ht. Qed.

(** The hash of a bucket just written. *)
Lemma hash_at_bucket_entry now key s ttl w :
  expired now (bucket_entry s now ttl (default empty_entry (live_at now w key))) = false ->
  hash_at now (upsert now key (bucket_entry s now ttl) w) key
  = Some (bucket_fields s (default ∅ (hash_at now w key))).
Proof.
  intros He. unfold hash_at at 1. rewrite live_at_upsert, He. simpl. unfold hash_at.
  by destruct (live_at now w key) as [[? [?|] ? ? ?]|].
Qed.

(** ** The integer regime *)

(** A bucket configuration of integers whose refill from empty takes less than
    [2 ^ 50] ms. *)
Record ConfigZ := { cM : Z; cA : Z; cI : Z }.

Local Open Scope Z_scope.

Definition cdiv (a b : Z) : Z := - (- a / b).

(** How long a refill from empty takes, in ms. *)
Definition refill_ms (c : ConfigZ) : Z := cdiv (cM c) (cA c) * cI c.

Definition config_ok (c : ConfigZ) : Prop :=
  0 < cM c <= 2 ^ 50 /\ 0 < cA c <= 2 ^ 50 /\ 0 < cI c <= 2 ^ 50 /\ refill_ms c <= 2 ^ 50.

Definition config_of (c : ConfigZ) : TokenBucketConfig :=
  {| maxTokens := int (cM c); tokensToAdd := int (cA c); interval := int (cI c) |}.

(** The key's lifetime in seconds for a base of [base] seconds. *)
Definition ttlZ (base : Z) (c : ConfigZ) : Z := Z.max base (cdiv (refill_ms c) 1000).

Lemma cdiv_bounds a b : 0 < b -> a <= cdiv a b * b < a + b.
Proof.
  intros Hb. unfold cdiv. pose proof (Z.div_mod (- a) b ltac:(lia)).
  pose proof (Z.mod_pos_bound (- a) b Hb). lia.
Qed.

Lemma cdiv_pos a b : 0 < a -> 0 < b -> 0 < cdiv a b.
Proof. intros. pose proof (cdiv_bounds a b ltac:(lia)). nia. Qed.

Lemma refill_ms_covers c : config_ok c -> cM c * cI c <= cA c * refill_ms c.
Proof.
  intros (HM & HA & HI & _). unfold refill_ms.
  pose proof (cdiv_bounds (cM c) (cA c) ltac:(lia)). nia.
Qed.

Lemma refill_ms_pos c : config_ok c -> 0 < refill_ms c.
Proof.
  intros (HM & HA & HI & _). unfold refill_ms.
  pose proof (cdiv_pos (cM c) (cA c) ltac:(lia) ltac:(lia)). nia.
Qed.

Lemma bucketTtl_int base c :
  0 < base <= 2 ^ 50 -> config_ok c ->
  bucketTtl (int base) (config_of c) = int (ttlZ base c).
Proof.
  intros Hb Hc. pose proof (refill_ms_pos c Hc) as Hr.
  destruct Hc as (HM & HA & HI & Hs).
  unfold bucketTtl. cbn [config_of maxTokens tokensToAdd interval].
  rewrite ceil_div_int by (unfold max_safe; lia).
  fold (cdiv (cM c) (cA c)). rewrite mul_int by (unfold safe; fold (refill_ms c); lia).
  fold (refill_ms c). rewrite ceil_div_int by (unfold max_safe; lia).
  fold (cdiv (refill_ms c) 1000). unfold gtb. rewrite ltb_int. unfold REDIS_MAX_TTL_SECONDS.
  pose proof (cdiv_bounds (refill_ms c) 1000 ltac:(lia)). rewrite fmin_int. unfold ttlZ.
  destruct (Z.ltb_spec base (cdiv (refill_ms c) 1000)); simpl; f_equal; lia.
Qed.

Lemma ttlZ_range base c :
  0 < base <= 2 ^ 40 -> config_ok c ->
  0 < ttlZ base c <= 2 ^ 50 /\ refill_ms c <= ttlZ base c * 1000 <= 2 ^ 51.
Proof.
  intros Hb Hc. pose proof (refill_ms_pos c Hc). destruct Hc as (_ & _ & _ & Hs).
  pose proof (cdiv_bounds (refill_ms c) 1000 ltac:(lia)). unfold ttlZ. lia.
Qed.

(** *** The abstract bucket *)

(** A stored bucket: balance, refill clock and the instant the key expires. *)
Record BucketZ := { bt : Z; bu : Z; bx : Z }.

(** An absent or expired bucket reads as full, refilled just now. *)
Definition viewZ (c : ConfigZ) (now : Z) (b : option BucketZ) : Z * Z :=
  match b with
  | Some b => if now <? bx b then (bt b, bu b) else (cM c, now)
  | None => (cM c, now)
  end.

(** Whole intervals elapsed since [u]. *)
Definition elapsedZ (c : ConfigZ) (now u : Z) : Z :=
  if u <? now then (now - u) / cI c else 0.

Definition refillZ (c : ConfigZ) (now : Z) (s : Z * Z) : Z * Z :=
  let k := elapsedZ c now s.2 in
  (Z.min (cM c) (s.1 + k * cA c), s.2 + k * cI c).

(** One claim: whether it is granted, and the bucket it leaves. *)
Definition acquireZ (base : Z) (c : ConfigZ) (now cost : Z) (b : option BucketZ)
    : bool * BucketZ :=
  let '(t, u) := refillZ c now (viewZ c now b) in
  let x := now + ttlZ base c * 1000 in
  if cost <=? t then (true, {| bt := t - cost; bu := u; bx := x |})
  else (false, {| bt := t; bu := u; bx := x |}).

(** *** Refilling over integers *)

Lemma leb_antisym_clamp M x :
  (int M <=? x)%num = true -> (if (x >? int M)%num then int M else x) = int M.
Proof.
  unfold gtb. intros H. destruct (int M <? x)%num eqn:E; [done|].
  destruct x as [|[]|m]; try done. unfold int in *. simpl in *.
  apply Z.leb_le in H. apply Z.ltb_ge in E. f_equal. lia.
Qed.

Lemma mul_int_large a b :
  2 ^ 53 <= a * b -> (int (2 ^ 53) <=? int a * int b)%num = true.
Proof.
  intros H. rewrite <- (rnd_int (2 ^ 53)) by done. unfold mul, int, rnd.
  rewrite <- (round_ratio_scale _ 1 unit1) by (lia || apply unit1_pos).
  rewrite Z.mul_1_l. pose proof unit1_pos.
  replace (a * unit1 * (b * unit1)) with (a * b * unit1 * unit1) by lia.
  apply round_ratio_mono; nia.
Qed.

Lemma add_int_large t x :
  0 <= t -> (int (2 ^ 53) <=? x)%num = true -> (int (2 ^ 53) <=? int t + x)%num = true.
Proof.
  intros Ht Hx. destruct x as [|[]|m]; try done. unfold int in Hx. simpl in Hx.
  apply Z.leb_le in Hx. rewrite <- (rnd_int (2 ^ 53)) by done.
  unfold add, int, rnd. pose proof unit1_pos. apply round_ratio_mono; nia.
Qed.

Lemma leb_int_trans a b x : a <= b -> (int b <=? x)%num = true -> (int a <=? x)%num = true.
Proof.
  intros Hab Hx. destruct x as [|[]|m]; try done. unfold int in *. simpl in *.
  pose proof unit1_pos. apply Z.leb_le in Hx. apply Z.leb_le. nia.
Qed.

(** The clamp at the ceiling hides every rounding of a large refill. *)
Lemma clamp_refill M t k A :
  0 <= M <= 2 ^ 53 -> 0 <= t <= M -> 0 <= k -> 0 <= A ->
  let x := (int t + int k * int A)%num in
  (if (x >? int M)%num then int M else x) = int (Z.min M (t + k * A)).
Proof.
  intros HM Ht Hk HA x. subst x.
  assert (0 <= k * A) as Hp by nia.
  destruct (Z.le_gt_cases (k * A) (2 ^ 53)) as [Hs|Hl].
  - rewrite mul_int by (unfold safe; lia).
    destruct (Z.le_gt_cases (t + k * A) (2 ^ 53)) as [Hs'|Hl].
    + rewrite add_int by (unfold safe; lia). unfold gtb. rewrite ltb_int.
      destruct (Z.ltb_spec M (t + k * A)); f_equal; lia.
    + rewrite leb_antisym_clamp; [f_equal; lia|].
      eapply leb_int_trans; [apply HM|]. rewrite <- (rnd_int (2 ^ 53)) by done.
      unfold add, int, rnd. pose proof unit1_pos. apply round_ratio_mono; nia.
  - rewrite leb_antisym_clamp; [f_equal; lia|].
    eapply leb_int_trans; [apply HM|]. apply add_int_large; [lia|].
    apply mul_int_large. lia.
Qed.

(** The balance [refill_state] leaves is the credited balance, clamped. *)
Lemma refill_state_credit s config now :
  let '(t, u) := credit s config now in
  tokens (refill_state s config now)
  = (if (t >? maxTokens config)%num then maxTokens config else t) /\
  lastUpdate (refill_state s config now) = u.
Proof.
  unfold refill_state. destruct (credit s config now) as [t u].
  destruct (t >? maxTokens config)%num; [done|].
  by destruct ((tokens s <? maxTokens config) && (t >=? maxTokens config))%num.
Qed.

Lemma credit_int c now s t u :
  config_ok c -> tokens s = int t -> lastUpdate s = int u ->
  0 <= t <= cM c -> 0 <= u <= 2 ^ 52 -> 0 <= now <= 2 ^ 52 ->
  let r := refillZ c now (t, u) in
  let p := credit s (config_of c) (int now) in
  (if (p.1 >? int (cM c))%num then int (cM c) else p.1) = int r.1 /\ p.2 = int r.2.
Proof.
  intros (HM & HA & HI & _) Et Eu Ht Hu Hn. cbv zeta.
  unfold credit. cbv zeta. rewrite Et, Eu. cbn [config_of maxTokens tokensToAdd interval].
  rewrite sub_int by (unfold safe; lia). unfold refillZ, elapsedZ. simpl fst. simpl snd.
  assert (forall x, (if (int x >? int (cM c))%num then int (cM c) else int x)
                    = int (Z.min (cM c) x)) as Hmin.
  { intros x. rewrite gtb_int. destruct (Z.ltb_spec (cM c) x); f_equal; lia. }
  rewrite !gtb_int, (proj2 (Z.ltb_lt 0 (cI c))) by lia.
  rewrite andb_true_r.
  destruct (Z.ltb_spec 0 (now - u)), (Z.ltb_spec u now); try lia;
    [|simpl; rewrite Hmin; split; f_equal; lia].
  rewrite floor_div_int, gtb_int by (unfold max_safe; lia).
  pose proof (Z.mul_div_le (now - u) (cI c) ltac:(lia)).
  pose proof (Z.div_pos (now - u) (cI c) ltac:(lia) ltac:(lia)).
  destruct (Z.ltb_spec 0 ((now - u) / cI c)); simpl.
  - rewrite clamp_refill by lia. split; [done|].
    rewrite mul_int, add_int by (unfold safe; lia). done.
  - rewrite Hmin. split; f_equal; nia.
Qed.

Lemma refill_state_int c now s t u :
  config_ok c -> tokens s = int t -> lastUpdate s = int u ->
  0 <= t <= cM c -> 0 <= u <= 2 ^ 52 -> 0 <= now <= 2 ^ 52 ->
  let r := refillZ c now (t, u) in
  tokens (refill_state s (config_of c) (int now)) = int r.1 /\
  lastUpdate (refill_state s (config_of c) (int now)) = int r.2.
Proof.
  intros Hc Et Eu Ht Hu Hn. pose proof (credit_int c now s t u Hc Et Eu Ht Hu Hn) as H.
  cbv zeta in H |- *. pose proof (refill_state_credit s (config_of c) (int now)) as Hr.
  destruct (credit s (config_of c) (int now)) as [x v]. simpl in H, Hr.
  destruct H as [H1 H2], Hr as [Hr1 Hr2]. by rewrite Hr1, Hr2, H1, H2.
Qed.

(** *** The stored bucket and the abstract one *)

(** The entry at [key] stores the bucket [b]. *)
Definition bucket_rel (w : World) (key : string) (b : option BucketZ) : Prop :=
  match b with
  | None => store w !! key = None
  | Some b => exists e h, store w !! key = Some e /\ expiresAt e = Some (int (bx b)) /\
      e_hash e = Some h /\ h !! "tokens" = Some (num_to_string (int (bt b))) /\
      h !! "lastUpdate" = Some (num_to_string (int (bu b)))
  end.

(** A bucket some claims before [now] have left. *)
Definition bucket_inv (c : ConfigZ) (now : Z) (b : option BucketZ) : Prop :=
  match b with
  | None => True
  | Some b => 0 <= bt b <= cM c /\ 0 <= bu b <= now /\ bu b + refill_ms c <= bx b <= 2 ^ 53
  end.

Lemma expired_int now e x :
  expiresAt e = Some (int x) -> expired (int now) e = (x <=? now).
Proof. intros H. unfold expired. rewrite H. unfold geb. apply leb_int. Qed.

Lemma stored_bucket_rel c now w key b :
  bucket_rel w key b -> bucket_inv c now b -> 0 <= now <= 2 ^ 52 -> config_ok c ->
  tokens (stored_bucket (int now) w key (config_of c)) = int (viewZ c now b).1 /\
  lastUpdate (stored_bucket (int now) w key (config_of c)) = int (viewZ c now b).2.
Proof.
  intros Hr Hi Hn (HM & _). unfold stored_bucket, viewZ. simpl.
  destruct b as [b|]; simpl in Hr, Hi.
  2:{ by rewrite !field_at_dead by by unfold live_at; rewrite Hr. }
  destruct Hr as (e & h & Hs & Hx & Hh & Ht & Hu).
  pose proof (expired_int now e _ Hx) as He.
  destruct (Z.leb_spec (bx b) now), (Z.ltb_spec now (bx b)); try lia.
  { by rewrite !field_at_dead by by unfold live_at; rewrite Hs, He. }
  rewrite !(field_at_entry _ _ _ _ _ _ Hs He Hh), Ht, Hu. simpl.
  rewrite !parseFinite_num_to_string by (done || apply wf_int; unfold safe; lia). done.
Qed.

Lemma viewZ_range c now b :
  config_ok c -> bucket_inv c now b -> 0 <= now ->
  0 <= (viewZ c now b).1 <= cM c /\ 0 <= (viewZ c now b).2 <= now.
Proof.
  intros (HM & _) Hi Hn. unfold viewZ. destruct b as [b|]; simpl in Hi |- *; [|lia].
  destruct (Z.ltb_spec now (bx b)); simpl; lia.
Qed.

Lemma refillZ_range c now t u :
  config_ok c -> 0 <= t <= cM c -> 0 <= u <= now ->
  0 <= (refillZ c now (t, u)).1 <= cM c /\ u <= (refillZ c now (t, u)).2 <= now.
Proof.
  intros (HM & HA & HI & _) Ht Hu. unfold refillZ, elapsedZ. simpl.
  pose proof (Z.mul_div_le (now - u) (cI c) ltac:(lia)).
  pose proof (Z.div_pos (now - u) (cI c) ltac:(lia) ltac:(lia)).
  destruct (Z.ltb_spec u now); nia.
Qed.

(** What a claim at [now] finds in the bucket. *)
Lemma bucket_at_rel c now w key b :
  bucket_rel w key b -> bucket_inv c now b -> 0 <= now <= 2 ^ 52 -> config_ok c ->
  let r := refillZ c now (viewZ c now b) in
  tokens (bucket_at (int now) w key (config_of c)) = int r.1 /\
  lastUpdate (bucket_at (int now) w key (config_of c)) = int r.2 /\
  0 <= r.1 <= cM c /\ 0 <= r.2 <= now.
Proof.
  intros Hr Hi Hn Hc. cbv zeta.
  destruct (stored_bucket_rel c now w key b Hr Hi Hn Hc) as [Ht Hu].
  pose proof (viewZ_range c now b Hc Hi ltac:(lia)) as [Hvt Hvu].
  destruct (viewZ c now b) as [t u]. cbn [fst snd] in *.
  destruct (refill_state_int c now (stored_bucket (int now) w key (config_of c)) t u
    Hc Ht Hu Hvt ltac:(lia) Hn) as [H1 H2].
  pose proof (refillZ_range c now t u Hc Hvt Hvu). unfold bucket_at. split_and!; try done; lia.
Qed.

(** A bucket written at [now] stores what was written, until its lifetime
    ends. *)
Lemma bucket_rel_write w key s now ttl t u :
  tokens s = int t -> lastUpdate s = int u ->
  0 <= now <= 2 ^ 52 -> 0 < ttl -> ttl * 1000 <= 2 ^ 51 ->
  bucket_rel (upsert (int now) key (bucket_entry s (int now) (int ttl)) w) key
    (Some {| bt := t; bu := u; bx := now + ttl * 1000 |}).
Proof.
  intros Et Eu Hn Hp Ht. simpl. rewrite upsert_store.
  set (e := default empty_entry _).
  exists (bucket_entry s (int now) (int ttl) e), (bucket_fields s (default ∅ (e_hash e))).
  split_and!.
  - apply lookup_insert_eq.
  - simpl. rewrite mul_int, add_int by (unfold safe; lia). done.
  - done.
  - unfold bucket_fields. rewrite Et. by simplify_map_eq.
  - unfold bucket_fields. rewrite Eu. by simplify_map_eq.
Qed.

Lemma usable_config_int c cost :
  config_ok c -> 0 <= cost -> unusableBudget (int cost) (config_of c) = None.
Proof.
  intros (HM & HA & HI & _) Hc. unfold unusableBudget, usableCost.
  cbn [config_of maxTokens tokensToAdd interval]. rewrite gtb_int, leb_int, geb_int.
  rewrite (proj2 (Z.ltb_lt _ _)), (proj2 (Z.leb_gt _ _)), (proj2 (Z.leb_le _ _)) by lia.
  done.
Qed.

(** The reply of a claim over integers. *)
Definition reply (granted : bool) (t : Z) (wait : num) : AcquireTokensResult :=
  {| at_acquired := granted;
     at_waitTime := if granted then None else Some wait;
     at_remainingTokens := Some (int t); at_error := None |}.

(** A claim on the memory backend is the abstract claim. *)
Lemma acquireTokens_sim c key now cost w b :
  config_ok c -> 0 <= cost <= 10 ^ 8 -> 0 <= now <= 2 ^ 52 ->
  bucket_rel w key b -> bucket_inv c now b ->
  let '(granted, b') := acquireZ 86400 c now cost b in
  exists w',
    acquireTokens key (int cost) (config_of c) None (int now) w
    = (Ok (reply granted (bt b')
             (wait_time (int cost) (bucket_at (int now) w key (config_of c)) (config_of c)
                (int now))), w') /\
    bucket_rel w' key (Some b') /\ bucket_inv c now (Some b').
Proof.
  intros Hc Hcost Hn Hr Hi.
  pose proof (bucket_at_rel c now w key b Hr Hi Hn Hc) as (Et & Eu & Ht & Hu).
  destruct (ttlZ_range 86400 c ltac:(lia) Hc) as [Ht1 Ht2].
  destruct (normalizeTtl_int (ttlZ 86400 c) Ht1) as [Hn1 Hn2].
  unfold acquireZ. destruct (refillZ c now (viewZ c now b)) as [t u]. cbn [fst snd] in *.
  assert (normalizeTtlSeconds (bucketTtl (int 86400) (config_of c)) = Ok (int (ttlZ 86400 c)))
    as Httl by (by rewrite bucketTtl_int by (done || lia)).
  assert (acquireTokens key (int cost) (config_of c) None (int now) w
    = (let st := bucket_at (int now) w key (config_of c) in
       if cost <=? t then
         (Ok (reply true (t - cost) (wait_time (int cost) st (config_of c) (int now))),
          upsert (int now) key (bucket_entry (with_tokens (tokens st - int cost)%num st)
            (int now) (int (ttlZ 86400 c))) w)
       else
         (Ok (reply false t (wait_time (int cost) st (config_of c) (int now))),
          upsert (int now) key (bucket_entry st (int now) (int (ttlZ 86400 c))) w))) as ->.
  { unfold acquireTokens.
    rewrite (bind_ok _ _ _ _ _ _ (eq_refl : claimMark None (int now) w = _)).
    rewrite usable_config_int by (done || lia). mstep.
    rewrite (bind_ok _ _ _ _ _ _ (refill_run key (config_of c) (int now) w)). cbv zeta.
    rewrite Et. destruct Hc as (HM & _). simpl (maxTokens (config_of c)).
    rewrite coversCost_int by lia.
    assert (cost <=? t = true -> (int t - int cost)%num = int (t - cost)) as Hs
      by (intros ?%Z.leb_le; rewrite sub_int by (unfold safe; lia); done).
    destruct (cost <=? t); rewrite bind_run, (writeBucket_run _ _ (int 86400) (Some (config_of c)) _ _ _ Httl Hn2),
      upsert_purge_key; [|done].
    rewrite (Hs eq_refl). done. }
  cbv zeta. pose proof (refill_ms_pos c Hc).
  destruct (Z.leb_spec cost t); eexists; (split; [done|]); (split; [|simpl; lia]).
  - apply bucket_rel_write; try lia; [|done]. simpl. rewrite Et, sub_int by (unfold safe; destruct Hc; lia).
    done.
  - apply bucket_rel_write; try lia; done.
Qed.

(** The wait a declined claim is told, over integers. *)
Definition waitZ (c : ConfigZ) (now cost t u : Z) : Z :=
  Z.max 0 (cdiv (cost - t) (cA c) * cI c - (now - u)).

Lemma cdiv_mono a b d : 0 < d -> a <= b -> cdiv a d <= cdiv b d.
Proof. intros. unfold cdiv. pose proof (Z.div_le_mono (- b) (- a) d ltac:(lia) ltac:(lia)). lia. Qed.

Lemma wait_time_int c now cost st t u :
  config_ok c -> tokens st = int t -> lastUpdate st = int u ->
  0 <= t < cost -> cost <= cM c -> 0 <= u <= now -> now <= 2 ^ 52 ->
  wait_time (int cost) st (config_of c) (int now) = int (waitZ c now cost t u).
Proof.
  intros Hc Et Eu Ht Hcost Hu Hn. unfold wait_time, waitZ. rewrite Et, Eu.
  cbn [config_of tokensToAdd interval].
  pose proof (refill_ms_pos c Hc). destruct Hc as (HM & HA & HI & Hs).
  pose proof (cdiv_mono (cost - t) (cM c) (cA c) ltac:(lia) ltac:(lia)) as Hm.
  pose proof (cdiv_pos (cost - t) (cA c) ltac:(lia) ltac:(lia)).
  assert (0 < cdiv (cost - t) (cA c) * cI c <= refill_ms c) as Hw by (unfold refill_ms; nia).
  rewrite (sub_int cost), ceil_div_int by (unfold safe, max_safe; lia).
  fold (cdiv (cost - t) (cA c)).
  rewrite mul_int, !sub_int, fmax_int by (unfold safe; lia). done.
Qed.
