(* ===== verification/TokenBucketProps.v ===== *)
(** * What a token bucket promises

    The rate a bucket admits over any stretch of time, how long a declined
    claim waits, and what the error, refund and settlement paths leave
    alone. *)
From S2P Require Import Prelude JsNumber JsString Shared SharedFacts.
From S2P Require Import MemoryStore StoreFacts TokenBucket TokenBucketFacts.
Local Open Scope Z_scope.

(** ** A sequence of claims on one bucket *)

(** Claims [(now, cost)] in order; the total cost granted and the state. *)
Fixpoint run_claims (key : string) (config : TokenBucketConfig) (calls : list (Z * Z))
    (w : World) : Z * World :=
  match calls with
  | [] => (0, w)
  | (now, cost) :: calls' =>
      match acquireTokens key (int cost) config None (int now) w with
      | (Ok r, w') =>
          let '(g, w'') := run_claims key config calls' w' in
          ((if at_acquired r then cost else 0) + g, w'')
      | (Throw _, w') => run_claims key config calls' w'
      end
  end.

(** Claims in time order, none before [t0] or after [t1]. *)
Fixpoint timed (t0 t1 : Z) (calls : list (Z * Z)) : Prop :=
  match calls with
  | [] => t0 <= t1
  | (now, cost) :: calls' => t0 <= now /\ 0 <= cost <= 10 ^ 8 /\ timed now t1 calls'
  end.

Lemma timed_le t0 t1 calls : timed t0 t1 calls -> t0 <= t1.
Proof.
  revert t0. induction calls as [|[now cost] calls IH]; simpl; [done|].
  intros t0 (? & ? & ?%IH). lia.
Qed.

(** What [G] granted units and the balance at any later time may add up to, at
    [tokensToAdd] per interval from a potential [K]. *)
Definition covered (c : ConfigZ) (K now G : Z) (b : option BucketZ) : Prop :=
  forall s, now <= s -> let r := refillZ c s (viewZ c s b) in (G + r.1) * cI c <= K + cA c * r.2.

(** What a bucket holds at an instant, and the refill that brought it there. *)
Definition holds (c : ConfigZ) (now : Z) (b : option BucketZ) : Z * Z := refillZ c now (viewZ c now b).

Lemma refillZ_balance c s t u :
  config_ok c -> let r := refillZ c s (t, u) in r.1 * cI c <= t * cI c + cA c * (r.2 - u) /\ r.1 <= cM c /\ u <= r.2.
Proof.
  intros (HM & HA & HI & _). unfold refillZ, elapsedZ. cbn [fst snd].
  destruct (Z.ltb_spec u s); [|split_and!; nia].
  pose proof (Z.div_pos (s - u) (cI c) ltac:(lia) ltac:(lia)). split_and!; nia.
Qed.

(** An expired bucket is full again, and by then its refill would have filled it. *)
Lemma view_covered c K s G t u x :
  config_ok c -> 0 <= G -> 0 <= t -> u + refill_ms c <= x ->
  (G + t) * cI c <= K + cA c * u ->
  let r := refillZ c s (viewZ c s (Some {| bt := t; bu := u; bx := x |})) in (G + r.1) * cI c <= K + cA c * r.2.
Proof.
  intros Hc HG Ht Hx Hb. pose proof (refill_ms_covers c Hc) as Hcov. pose proof Hc as (HM & HA & HI & _).
  unfold viewZ. cbn [bt bu bx]. destruct (Z.ltb_spec s x).
  - destruct (refillZ_balance c s t u Hc) as (H1 & _ & _). cbv zeta. nia.
  - destruct (refillZ_balance c s (cM c) s Hc) as (H1 & H2 & H3). cbv zeta in *. nia.
Qed.

Lemma covered_start c t0 b :
  config_ok c -> bucket_inv c t0 b -> 0 <= t0 ->
  covered c ((holds c t0 b).1 * cI c - cA c * (holds c t0 b).2) t0 0 b.
Proof.
  intros Hc Hi Ht0 s Hs. pose proof (refill_ms_covers c Hc) as Hcov. pose proof Hc as (HM & HA & HI & _). unfold holds.
  destruct b as [[t u x]|]; [destruct Hi as (H1 & H2 & H3); cbn [bt bu bx] in *|].
  - unfold viewZ. cbn [bt bu bx]. destruct (Z.ltb_spec t0 x), (Z.ltb_spec s x); try lia; cbn [fst snd];
      unfold refillZ, elapsedZ; cbn [fst snd]; rewrite ?Z.ltb_irrefl.
    + assert (u + (if u <? t0 then (t0 - u) / cI c else 0) * cI c <= t0 /\
        (if u <? t0 then (t0 - u) / cI c else 0) <= (if u <? s then (s - u) / cI c else 0) /\
        0 <= (if u <? t0 then (t0 - u) / cI c else 0)) as (Hk1 & Hk2 & Hk3).
      { destruct (Z.ltb_spec u t0), (Z.ltb_spec u s); try lia; [|split_and!; [lia|apply Z.div_pos; lia|lia]].
        pose proof (Z.mul_div_le (t0 - u) (cI c) ltac:(lia)). pose proof (Z.div_le_mono (t0 - u) (s - u) (cI c) ltac:(lia) ltac:(lia)).
        pose proof (Z.div_pos (t0 - u) (cI c) ltac:(lia) ltac:(lia)). lia. }
      revert Hk1 Hk2 Hk3. generalize (if u <? t0 then (t0 - u) / cI c else 0), (if u <? s then (s - u) / cI c else 0). intros k j. nia.
    + pose proof (Z.mul_div_le (t0 - u) (cI c) ltac:(lia)). pose proof (Z.div_pos (t0 - u) (cI c) ltac:(lia) ltac:(lia)).
      destruct (Z.ltb_spec u t0); nia.
    + nia.
  - unfold viewZ, refillZ, elapsedZ. cbn [fst snd]. rewrite !Z.ltb_irrefl. nia.
Qed.

Lemma covered_acquire c K now s cost G b :
  config_ok c -> covered c K now G b -> bucket_inv c s b -> 0 <= now <= s -> 0 <= G -> 0 <= cost ->
  let '(granted, b') := acquireZ 86400 c s cost b in
  bucket_inv c s (Some b') -> covered c K s (G + if granted then cost else 0) (Some b').
Proof.
  intros Hc Hg Hi Ht HG Hcost. specialize (Hg s ltac:(lia)). unfold acquireZ.
  destruct (refillZ c s (viewZ c s b)) as [t u]. cbn [fst snd] in Hg.
  destruct (cost <=? t); intros (H1 & H2 & H3) s' Hs'; cbn [bt bu bx] in *; apply view_covered; try done; lia.
Qed.

Lemma covered_total c K now G b :
  config_ok c -> covered c K now G b -> bucket_inv c now b -> 0 <= now -> G * cI c <= K + cA c * now.
Proof.
  intros Hc Hg Hi Hn. specialize (Hg now ltac:(lia)). pose proof (viewZ_range c now b Hc Hi Hn) as [Hv1 Hv2].
  destruct (viewZ c now b) as [t u]. cbn [fst snd] in *.
  pose proof (refillZ_range c now t u Hc Hv1 ltac:(lia)) as [Hr1 Hr2]. destruct Hc as (HM & HA & HI & _).
  destruct (refillZ c now (t, u)) as [t' u']. cbn [fst snd] in *. nia.
Qed.

Lemma bucket_inv_later c now now' b :
  bucket_inv c now b -> now <= now' -> bucket_inv c now' b.
Proof. destruct b; simpl; [lia|done]. Qed.

Lemma covered_later c K now now' G b : covered c K now G b -> now <= now' -> covered c K now' G b.
Proof. intros Hg Hn s Hs. apply Hg. lia. Qed.

Lemma run_claims_covered c key K now t1 calls w b G :
  config_ok c -> 0 <= now -> t1 <= 2 ^ 52 -> timed now t1 calls ->
  bucket_rel w key b -> bucket_inv c now b -> covered c K now G b -> 0 <= G ->
  (G + (run_claims key (config_of c) calls w).1) * cI c <= K + cA c * t1.
Proof.
  intros Hc Hn Ht1. revert now w b G Hn.
  induction calls as [|[s cost] calls IH]; intros now w b G Hn Ht Hr Hi Hg HG.
  - cbn in *. rewrite Z.add_0_r. apply (covered_total c K t1 G b Hc); [by eapply covered_later|by eapply bucket_inv_later|lia].
  - destruct Ht as (Hs & Hcost & Ht). pose proof (timed_le _ _ _ Ht).
    assert (bucket_inv c s b) as Hi' by (eapply bucket_inv_later; [done|lia]).
    pose proof (acquireTokens_sim c key s cost w b Hc Hcost ltac:(lia) Hr Hi') as Hsim.
    pose proof (covered_acquire c K now s cost G b Hc Hg Hi' ltac:(lia) HG ltac:(lia)) as Hcon.
    destruct (acquireZ 86400 c s cost b) as [granted b'].
    destruct Hsim as (w' & E & Hr' & Hi''). cbn [run_claims]. rewrite E.
    destruct (run_claims key (config_of c) calls w') as [g w''] eqn:Eg.
    cbn [fst at_acquired reply].
    specialize (IH s w' (Some b') (G + if granted then cost else 0)).
    rewrite Eg in IH. cbn [fst] in IH. rewrite Z.add_assoc.
    apply IH; try done; try lia; [by apply Hcon|destruct granted; lia].
Qed.

Lemma holds_range c t0 b :
  config_ok c -> bucket_inv c t0 b -> 0 <= t0 ->
  0 <= (holds c t0 b).1 <= cM c /\ t0 - cI c < (holds c t0 b).2 <= t0.
Proof.
  intros Hc Hi Ht. unfold holds. pose proof (viewZ_range c t0 b Hc Hi Ht) as [Hv1 Hv2].
  destruct (viewZ c t0 b) as [t u]. cbn [fst snd] in *.
  pose proof (refillZ_range c t0 t u Hc Hv1 ltac:(lia)) as [Hr1 Hr2]. split; [done|]. split; [|lia].
  destruct Hc as (HM & HA & HI & _). unfold refillZ, elapsedZ. cbn [fst snd].
  pose proof (Z.mul_succ_div_gt (t0 - u) (cI c) ltac:(lia)). destruct (Z.ltb_spec u t0); nia.
Qed.

(** C1.  A bucket admits what it holds plus its refill, and no more: from any
    state that claims have left it in, over any stretch of time from [t0] to
    [t1], whatever is claimed and whenever, the total cost granted is at most
    what it holds at [t0] plus [tokensToAdd] per interval since the refill that
    brought it there, which was less than an interval before [t0].  So at most
    [maxTokens] plus the refill of the stretch and of one interval more; and of
    an absent bucket, which is full and begins its intervals at [t0], not even
    that.  Expiry of the key is included: a bucket dropped by its TTL and read as
    full again has already refilled. *)
Theorem bucket_rate_bound (c : ConfigZ) (key : string) (t0 t1 : Z) (calls : list (Z * Z))
    (w : World) (b : option BucketZ) :
  config_ok c -> 0 <= t0 -> t1 <= 2 ^ 52 -> timed t0 t1 calls ->
  bucket_rel w key b -> bucket_inv c t0 b ->
  let granted := (run_claims key (config_of c) calls w).1 in
  let '(content, since) := holds c t0 b in
  granted * cI c <= content * cI c + cA c * (t1 - since)
  /\ content <= cM c /\ t0 - cI c < since <= t0
  /\ granted * cI c <= cM c * cI c + cA c * (t1 - t0 + (match b with None => 0 | Some _ => cI c end)).
Proof.
  intros Hc H0 H1 Ht Hw Hi granted.
  pose proof (run_claims_covered c key _ t0 t1 calls w b 0 Hc H0 H1 Ht Hw Hi (covered_start c t0 b Hc Hi H0) ltac:(lia)) as H.
  rewrite Z.add_0_l in H. fold granted in H. pose proof (holds_range c t0 b Hc Hi H0) as [Hr1 Hr2].
  assert (b = None -> (holds c t0 b).2 = t0) as Hn.
  { intros ->. unfold holds, viewZ, refillZ, elapsedZ. cbn [fst snd]. rewrite Z.ltb_irrefl. lia. }
  destruct (holds c t0 b) as [content since]. cbn [fst snd] in *. destruct Hc as (HM & HA & HI & _).
  split_and!; [lia|lia|lia|lia|]. destruct b as [b|]; [nia|]. rewrite (Hn eq_refl) in H. nia.
Qed.

Definition demo_config : ConfigZ := {| cM := 10; cA := 5; cI := 1000 |}.

(** Ten tokens, full since time 0, claimed around the refill at 1000. *)
Definition full_world : World := (run_claims "b" (config_of demo_config) [(0, 0)] MemoryBackend).2.

Lemma bucket_rate_bound_witness :
  (run_claims "b" (config_of demo_config) [(999, 10); (1000, 5)] full_world).1 = 15 /\
  15 * 1000 <= 10 * 1000 + 5 * (1000 - 999 + 1000).
Proof.
  assert ((run_claims "b" (config_of demo_config) [(999, 10); (1000, 5)] full_world).1 = 15) as E by (vm_compute; reflexivity).
  split; [exact E|]. rewrite <- E.
  pose (b := {| bt := 10; bu := 0; bx := 86400000 |}).
  refine (proj2 (proj2 (proj2 (bucket_rate_bound demo_config "b" 999 1000 [(999, 10); (1000, 5)] full_world (Some b) _ _ _ _ _ _)))).
  - repeat split; vm_compute; congruence.
  - lia.
  - lia.
  - simpl. lia.
  - vm_compute. do 2 eexists. repeat split; reflexivity.
  - vm_compute. intuition congruence.
Defined.

(** ** Waiting *)

(** Whether a claim at [s] would be granted. *)
Definition grants (key : string) (config : TokenBucketConfig) (cost s : Z) (w : World) : bool :=
  match (acquireTokens key (int cost) config None (int s) w).1 with
  | Ok r => at_acquired r
  | Throw _ => false
  end.

Lemma grants_sim c key s cost w b :
  config_ok c -> 0 <= cost <= 10 ^ 8 -> 0 <= s <= 2 ^ 52 ->
  bucket_rel w key b -> bucket_inv c s b ->
  grants key (config_of c) cost s w = (cost <=? (refillZ c s (viewZ c s b)).1).
Proof.
  intros Hc Hcost Hs Hr Hi. pose proof (acquireTokens_sim c key s cost w b Hc Hcost Hs Hr Hi) as H.
  unfold grants. unfold acquireZ in H. destruct (refillZ c s (viewZ c s b)) as [t u].
  simpl. destruct (cost <=? t); destruct H as (w' & -> & _); done.
Qed.

(** When a bucket left by a declined claim next covers the cost. *)
Lemma refill_reaches c now cost t u s :
  config_ok c -> 0 <= t < cost -> cost <= cM c -> 0 <= u <= now -> now - u < cI c -> now <= s ->
  (cost <=? (refillZ c s (t, u)).1) = (now + waitZ c now cost t u <=? s).
Proof.
  intros (HM & HA & HI & _) Ht Hcost Hu Hphase Hs. unfold refillZ, elapsedZ, waitZ.
  cbn [fst snd]. set (n := cdiv (cost - t) (cA c)).
  pose proof (cdiv_bounds (cost - t) (cA c) ltac:(lia)) as Hn. fold n in Hn.
  assert (1 <= n) as Hn1 by (pose proof (cdiv_pos (cost - t) (cA c)); unfold n; lia).
  set (k := if u <? s then (s - u) / cI c else 0).
  assert (k * cI c <= s - u < (k + 1) * cI c) as Hk.
  { unfold k. destruct (Z.ltb_spec u s); [|nia].
    pose proof (Z.mul_div_le (s - u) (cI c) ltac:(lia)).
    pose proof (Z.mul_succ_div_gt (s - u) (cI c) ltac:(lia)). lia. }
  clearbody k n. apply Bool.eq_iff_eq_true. rewrite !Z.leb_le.
  assert (n <= k <-> n * cI c <= s - u) as Hnk by (split; intros; nia).
  assert (cost <= t + k * cA c <-> n <= k) as Hck by (split; intros; nia). lia.
Qed.

Lemma refillZ_phase c now t u :
  config_ok c -> 0 <= u <= now -> now - (refillZ c now (t, u)).2 < cI c.
Proof.
  intros (HM & HA & HI & _) Hu. unfold refillZ, elapsedZ. cbn [fst snd].
  pose proof (Z.mul_succ_div_gt (now - u) (cI c) ltac:(lia)).
  destruct (Z.ltb_spec u now); nia.
Qed.

(** C2.  A declined claim that the bucket can ever cover is told exactly how long
    to wait: with nothing else spending, the same claim is declined at every
    instant before [waitTime] has passed and granted once it has, and the wait is
    never longer than a refill from empty.  A claim above [maxTokens] is declined
    too, and is granted at no later time, whatever it is told. *)
Theorem declined_wait_exact (c : ConfigZ) (key : string) (now cost : Z) (w w' : World)
    (b : option BucketZ) (r : AcquireTokensResult) :
  config_ok c -> 0 <= cost <= 10 ^ 8 -> 0 <= now <= 2 ^ 51 ->
  bucket_rel w key b -> bucket_inv c now b ->
  acquireTokens key (int cost) (config_of c) None (int now) w = (Ok r, w') ->
  at_acquired r = false ->
  (cost <= cM c -> exists wait, at_waitTime r = Some (int wait) /\ 0 < wait <= refill_ms c /\
    forall s, now <= s <= now + wait ->
      grants key (config_of c) cost s w' = (now + wait <=? s)) /\
  (cM c < cost -> forall s, now <= s <= 2 ^ 52 -> grants key (config_of c) cost s w' = false).
Proof.
  intros Hc Hcost Hn Hr Hi E Hd.
  pose proof (acquireTokens_sim c key now cost w b Hc Hcost ltac:(lia) Hr Hi) as Hsim.
  split; [intros HcM|].
  2: { intros HcM s Hs. destruct (acquireZ 86400 c now cost b) as [g b']. destruct Hsim as (w1 & E1 & Hr1 & Hi1).
       rewrite E in E1. injection E1 as -> ->.
       assert (bucket_inv c s (Some b')) as Hi' by (eapply bucket_inv_later; [done|lia]).
       rewrite (grants_sim c key s cost w1 (Some b') Hc Hcost ltac:(lia) Hr1 Hi').
       pose proof (holds_range c s (Some b') Hc Hi' ltac:(lia)) as [Hm _]. unfold holds in Hm. lia. }
  pose proof (bucket_at_rel c now w key b Hr Hi ltac:(lia) Hc) as (Et & Eu & _ & _).
  pose proof (viewZ_range c now b Hc Hi ltac:(lia)) as [Hvt Hvu].
  pose proof (ttlZ_range 86400 c ltac:(lia) Hc) as [_ Httl].
  pose proof (refill_ms_pos c Hc) as Hpos.
  unfold acquireZ in Hsim. destruct (viewZ c now b) as [t0 u0]. cbn [fst snd] in *.
  pose proof (refillZ_range c now t0 u0 Hc Hvt ltac:(lia)) as [Ht Hu].
  pose proof (refillZ_phase c now t0 u0 Hc ltac:(lia)) as Hph.
  destruct (refillZ c now (t0, u0)) as [t u]. cbn [fst snd] in *.
  destruct (Z.leb_spec cost t); destruct Hsim as (w1 & E1 & Hr1 & Hi1);
    rewrite E in E1; injection E1 as -> ->; [done|].
  exists (waitZ c now cost t u).
  assert (waitZ c now cost t u = cdiv (cost - t) (cA c) * cI c - (now - u) /\
    0 < waitZ c now cost t u <= refill_ms c) as [Hw1 Hw2].
  { unfold waitZ, refill_ms. destruct Hc as (HM & HA & HI & Hs).
    pose proof (cdiv_mono (cost - t) (cM c) (cA c) ltac:(lia) ltac:(lia)).
    pose proof (cdiv_pos (cost - t) (cA c) ltac:(lia) ltac:(lia)). nia. }
  split_and!; try lia.
  { simpl. rewrite (wait_time_int c now cost _ t u); try done; lia. }
  intros s Hs.
  assert (refill_ms c <= 2 ^ 50) as Hrm by (destruct Hc as (_ & _ & _ & ?); done).
  rewrite (grants_sim c key s cost w1 _ Hc Hcost ltac:(lia) Hr1)
    by (eapply bucket_inv_later; [done|lia]).
  unfold viewZ. cbn [bt bu bx].
  destruct (Z.ltb_spec s (now + ttlZ 86400 c * 1000)).
  - apply refill_reaches; try done; lia.
  - assert (s = now + waitZ c now cost t u) as -> by lia. unfold refillZ, elapsedZ. cbn [fst snd].
    rewrite Z.ltb_irrefl. rewrite !(proj2 (Z.leb_le _ _)); [done|lia..].
Qed.

(** The demo bucket after a claim of 7 at time 0. *)
Definition demo_world : World :=
  (run_claims "b" (config_of demo_config) [(0, 7)] MemoryBackend).2.

Lemma declined_wait_exact_witness :
  exists wait, 0 < wait <= 2000 /\
    grants "b" (config_of demo_config) 7 (500 + wait)
      (acquireTokens "b" (int 7) (config_of demo_config) None (int 500) demo_world).2 = true.
Proof.
  pose (b := {| bt := 3; bu := 0; bx := 86400000 |}).
  destruct (declined_wait_exact demo_config "b" 500 7 demo_world
    (acquireTokens "b" (int 7) (config_of demo_config) None (int 500) demo_world).2 (Some b)
    (reply false 3 (int 500))) as [H _].
  - repeat split; vm_compute; congruence.
  - lia.
  - lia.
  - vm_compute. do 2 eexists. repeat split; reflexivity.
  - vm_compute. intuition congruence.
  - vm_compute. reflexivity.
  - reflexivity.
  - destruct H as (wait & Hw & Hr & Hg); [vm_compute; congruence|].
    exists wait. split; [exact Hr|]. rewrite (Hg (500 + wait)) by lia. apply Z.leb_refl.
Defined.
