(* ===== verification/Concurrency.v ===== *)
(** * Slot ledgers of the memory backend

    A concurrency ledger is a sorted set of slot holders scored by claim time
    and a hash of their costs, at [key] and [key:costs]
    ([packages/core/src/backend/memory.ts], the concurrency section). *)
From S2P Require Import Prelude JsNumber JsString Shared Utf MemoryStore TokenBucket.
Local Open Scope num_scope.

Record ConcurrencyConfig := {
  maxConcurrency : num;
  requestTtl : num
}.

Record AcquireConcurrencyResult := {
  ac_acquired : bool;
  ac_currentConcurrency : num;
  ac_error : option string
}.

Definition usableConcurrency (max : num) : bool := isFinite max && (max >? int 0).

Definition usableRequestTtl (ttl : num) : bool := isFinite ttl && (ttl >? int 0).

Definition costs_key (key : string) : string := key +:+ ":costs".

(** Drops the slots claimed at or before [expireTime]. *)
Definition reapConcurrency (key : string) (expireTime : num) : M unit :=
  z ← live_zset key;
  match z with
  | None => mret tt
  | Some z =>
      costs ← live_hash (costs_key key);
      mforeach z (fun slot =>
        if slot.2 <=? expireTime then
          zset_delete key slot.1 ;;
          match costs with
          | Some _ => hash_delete (costs_key key) slot.1
          | None => mret tt
          end
        else mret tt) ;;
      dropIfEmpty key ;;
      dropIfEmpty (costs_key key)
  end.

(** The sum of [parseFiniteStored(costs?.get(member), 1)] over the ledger, in
    insertion order, skipping [exceptId]. *)
Definition ledger_cost (z : list (string * num)) (costs : option (gmap string string))
    (exceptId : option string) : num :=
  fold_left (fun total slot =>
    if decide (Some slot.1 = exceptId) then total
    else total + parseFiniteStored (costs ≫= lookup slot.1) (int 1)) z (int 0).

Definition concurrencyCost (key : string) (exceptId : option string) : M num :=
  z ← live_zset key;
  match z with
  | None => mret (int 0)
  | Some z =>
      costs ← live_hash (costs_key key);
      mret (ledger_cost z costs exceptId)
  end.

Definition claimSlot (key requestId : string) (cost now keyTtl : num) : M unit :=
  ttl ← lift (normalizeTtlSeconds keyTtl);
  zset key ;; zset_set key requestId now ;;
  hash (costs_key key) ;; hash_set (costs_key key) requestId (num_to_string cost) ;;
  expire key ttl ;;
  expire (costs_key key) ttl.

Definition slot_error (cost : num) (config : ConcurrencyConfig) : option string :=
  if negb (usableConcurrency (maxConcurrency config)) then
    Some "maxConcurrency must be a finite number greater than 0"
  else if negb (usableCost cost) then
    Some "cost must be a finite number that is not negative"
  else if negb (usableRequestTtl (requestTtl config)) then
    Some "requestTtl must be a finite number greater than 0"
  else None.

Definition refused (message : string) : AcquireConcurrencyResult :=
  {| ac_acquired := false; ac_currentConcurrency := int 0; ac_error := Some message |}.

Definition acquireConcurrency (key : string) (cost : num) (requestId : string)
    (config : ConcurrencyConfig) : M AcquireConcurrencyResult :=
  now ← date_now;
  match slot_error cost config with
  | Some message => mret (refused message)
  | None =>
      reapConcurrency key (now - requestTtl config) ;;
      currentCost ← concurrencyCost key (Some requestId);
      if currentCost + cost >? maxConcurrency config then
        mret {| ac_acquired := false; ac_currentConcurrency := currentCost; ac_error := None |}
      else
        claimSlot key requestId cost now (int 86400) ;;
        mret {| ac_acquired := true; ac_currentConcurrency := currentCost + cost;
                ac_error := None |}
  end.

Definition acquireQueuedConcurrency (key metadataKey : string) (cost : num)
    (requestId : string) (config : ConcurrencyConfig) : M AcquireConcurrencyResult :=
  match slot_error cost config with
  | Some message => mret (refused message)
  | None =>
      now ← date_now;
      reapConcurrency key (now - requestTtl config) ;;
      status ← hget metadataKey "status";
      if decide (status = Some "inProgress") then
        acquireConcurrency key cost requestId config
      else
        currentCost ← concurrencyCost key (Some requestId);
        mret {| ac_acquired := false; ac_currentConcurrency := currentCost; ac_error := None |}
  end.

Definition tryAdmitConcurrency (queueKey concurrencyKey freezeKey : string) (cost : num)
    (requestId : string) (config : ConcurrencyConfig) (ttl : num) : M bool :=
  keyTtl ← lift (normalizeStateTtlSeconds ttl);
  waiting ← sorted queueKey;
  if decide (0 < length waiting)%nat then mret false
  else match slot_error cost config with
  | Some _ => mret false
  | None =>
      now ← date_now;
      blocked ← freezeBlocksAdmission freezeKey now;
      if (blocked : bool) then mret false
      else
        reapConcurrency concurrencyKey (now - requestTtl config) ;;
        currentCost ← concurrencyCost concurrencyKey (Some requestId);
        if currentCost + cost >? maxConcurrency config then mret false
        else
          claimSlot concurrencyKey requestId cost now keyTtl ;;
          mret true
  end.

(** [this.live(key)?.zset?.delete(id)]: no write when there is no ledger. *)
Definition releaseSlot (key requestId : string) : M unit :=
  z ← live_zset key;
  mwhen (bool_decide (is_Some z)) (zset_delete key requestId) ;;
  h ← live_hash (costs_key key);
  mwhen (bool_decide (is_Some h)) (hash_delete (costs_key key) requestId) ;;
  dropIfEmpty key ;;
  dropIfEmpty (costs_key key).

Definition releaseConcurrency := releaseSlot.

Definition touchConcurrency (key slotId : string) (ttlSeconds : num) : M bool :=
  ttl ← lift (normalizeStateTtlSeconds ttlSeconds);
  slots ← live_zset key;
  match slots ≫= omap_get slotId with
  | None => mret false
  | Some _ =>
      now ← date_now;
      zset_set key slotId now ;;
      expire key ttl ;;
      costs ← live (costs_key key);
      mwhen (bool_decide (is_Some costs)) (expire (costs_key key) ttl) ;;
      mret true
  end.

Definition touchClaimMark (bucketKey markId : string) (ttlSeconds : num) : M bool :=
  ttl ← lift (normalizeStateTtlSeconds ttlSeconds);
  let markKey := claimMarkKey bucketKey markId in
  e ← live markKey;
  match e with
  | None => mret false
  | Some _ => expire markKey ttl ;; mret true
  end.

Definition getConcurrencyState (key : string) (requestTtl : num)
    : M (num * list string) :=
  if negb (isFinite requestTtl) then
    throw (RangeError ("requestTtl must be a finite number, received "
                       +:+ num_to_string requestTtl))
  else
    now ← date_now;
    let cutoff := now - requestTtl in
    z ← live_zset key;
    let activeRequests :=
      sort_members (filter (fun slot => slot.2 >? cutoff = true) (default [] z)) in
    costs ← live_hash (costs_key key);
    mret (fold_left (fun total requestId =>
            total + parseFiniteStored (costs ≫= lookup requestId) (int 1))
            activeRequests (int 0),
          activeRequests).

Definition clearConcurrency (key : string) : M unit :=
  store_delete key ;; store_delete (costs_key key).
