(* ===== verification/MultiLimit.v ===== *)
(** * Claims across several budgets

    The check phase that evaluates every budget and the commit phase that
    spends them all, or none ([packages/core/src/backend/memory.ts], the
    several-budgets section). *)
From S2P Require Import Prelude JsNumber JsString Shared MemoryStore TokenBucket Concurrency.
Local Open Scope num_scope.

Inductive MultiLimitSpec :=
  | TokenBucketSpec (freezeKey : option string) (cost : num) (key : string)
      (config : TokenBucketConfig) (mark : option ClaimMark)
  | ConcurrencySpec (freezeKey : option string) (cost : num) (key : string)
      (config : ConcurrencyConfig) (slotId : string).

Record PlannedBucket := {
  pb_key : string;
  pb_state : BucketState;
  pb_cost : num;
  pb_config : TokenBucketConfig;
  pb_mark : option ClaimMark
}.

Record PlannedSlot := {
  ps_key : string;
  ps_slotId : string;
  ps_cost : num
}.

(** The locals of [planMultiLimit]. *)
Record Plan := {
  pl_acquired : bool;
  pl_error : option string;
  pl_waitTime : option num;
  pl_blockedBy : option string;
  pl_buckets : list PlannedBucket;
  pl_slots : list PlannedSlot
}.

Record AcquireMultiLimitResult := {
  am_acquired : bool;
  am_waitTime : option num;
  am_error : option string;
  am_blockedBy : option string
}.

Definition claimMarks_one (spec : MultiLimitSpec) : M MultiLimitSpec :=
  match spec with
  | TokenBucketSpec fk cost key config (Some m) =>
      m' ← claimMark (Some m);
      mret (TokenBucketSpec fk cost key config m')
  | _ => mret spec
  end.

Definition claimMarks (specs : list MultiLimitSpec) : M (list MultiLimitSpec) :=
  mcollect specs claimMarks_one.

Definition empty_plan : Plan :=
  {| pl_acquired := true; pl_error := None; pl_waitTime := None; pl_blockedBy := None;
     pl_buckets := []; pl_slots := [] |}.

Definition plan_error (p : Plan) (message : string) : Plan :=
  {| pl_acquired := false; pl_error := Some message;
     pl_waitTime := None; pl_blockedBy := None;
     pl_buckets := pl_buckets p; pl_slots := pl_slots p |}.

Definition plan_add_bucket (p : Plan) (b : PlannedBucket) : Plan :=
  {| pl_acquired := pl_acquired p; pl_error := pl_error p; pl_waitTime := pl_waitTime p;
     pl_blockedBy := pl_blockedBy p; pl_buckets := pl_buckets p ++ [b]; pl_slots := pl_slots p |}.

Definition plan_add_slot (p : Plan) (s : PlannedSlot) : Plan :=
  {| pl_acquired := pl_acquired p; pl_error := pl_error p; pl_waitTime := pl_waitTime p;
     pl_blockedBy := pl_blockedBy p; pl_buckets := pl_buckets p; pl_slots := pl_slots p ++ [s] |}.

(** A bucket declines: the longest wait is reported. *)
Definition plan_decline_bucket (p : Plan) (key : string) (wait : num) : Plan :=
  let longer := match pl_waitTime p with None => true | Some t => wait >? t end in
  {| pl_acquired := false; pl_error := pl_error p;
     pl_waitTime := if longer then Some wait else pl_waitTime p;
     pl_blockedBy := if longer then Some key else pl_blockedBy p;
     pl_buckets := pl_buckets p; pl_slots := pl_slots p |}.

(** A slot ledger declines: reported only if nothing else has been. *)
Definition plan_decline_slot (p : Plan) (key : string) : Plan :=
  {| pl_acquired := false; pl_error := pl_error p; pl_waitTime := pl_waitTime p;
     pl_blockedBy := match pl_blockedBy p with None => Some key | b => b end;
     pl_buckets := pl_buckets p; pl_slots := pl_slots p |}.

(** One turn of the loop; an error ends it. *)
Definition plan_step (now : num) (p : Plan) (spec : MultiLimitSpec) : M Plan :=
  match spec with
  | TokenBucketSpec _ cost key config mark =>
      match unusableBudget cost config with
      | Some message => mret (plan_error p message)
      | None =>
          state ← refill key config now;
          let p' := plan_add_bucket p
            {| pb_key := key; pb_state := state; pb_cost := cost;
               pb_config := config; pb_mark := mark |} in
          if coversCost (tokens state) cost (maxTokens config) then mret p'
          else mret (plan_decline_bucket p' key (wait_time cost state config now))
      end
  | ConcurrencySpec _ cost key config slotId =>
      match slot_error cost config with
      | Some message => mret (plan_error p message)
      | None =>
          reapConcurrency key (now - requestTtl config) ;;
          currentCost ← concurrencyCost key (Some slotId);
          if currentCost + cost >? maxConcurrency config
          then mret (plan_decline_slot p key)
          else mret (plan_add_slot p {| ps_key := key; ps_slotId := slotId; ps_cost := cost |})
      end
  end.

Fixpoint plan_loop (now : num) (p : Plan) (specs : list MultiLimitSpec) : M Plan :=
  match specs with
  | [] => mret p
  | spec :: specs' =>
      p' ← plan_step now p spec;
      match pl_error p' with
      | Some _ => mret p'
      | None => plan_loop now p' specs'
      end
  end.

Definition planMultiLimit (specs : list MultiLimitSpec) (now : num) : M Plan :=
  plan_loop now empty_plan specs.

Definition commitBucket (b : PlannedBucket) (ttl : num) : M unit :=
  writeBucket (pb_key b) (with_tokens (tokens (pb_state b) - pb_cost b) (pb_state b)) ttl
    (Some (pb_config b)) ;;
  write_mark_opt (pb_key b) (pb_mark b) (pb_cost b) (pb_state b).

Definition persistRefills (p : Plan) (ttl : num) : M unit :=
  mforeach (pl_buckets p) (fun b => writeBucket (pb_key b) (pb_state b) ttl (Some (pb_config b))).

Definition commit_plan (p : Plan) (now ttl : num) : M unit :=
  mforeach (pl_buckets p) (fun b => commitBucket b ttl) ;;
  mforeach (pl_slots p) (fun s => claimSlot (ps_key s) (ps_slotId s) (ps_cost s) now ttl).

Definition acquireMultiLimit (specs : list MultiLimitSpec) : M AcquireMultiLimitResult :=
  claims ← claimMarks specs;
  now ← date_now;
  planned ← planMultiLimit claims now;
  match pl_error planned with
  | Some message =>
      mret {| am_acquired := false; am_waitTime := None; am_error := Some message;
              am_blockedBy := None |}
  | None =>
      if negb (pl_acquired planned) then
        persistRefills planned (int 86400) ;;
        mret {| am_acquired := false; am_waitTime := Some (default (int 0) (pl_waitTime planned));
                am_error := None; am_blockedBy := pl_blockedBy planned |}
      else
        commit_plan planned now (int 86400) ;;
        mret {| am_acquired := true; am_waitTime := None; am_error := None;
                am_blockedBy := None |}
  end.

Definition release_one (spec : MultiLimitSpec) : M unit :=
  match spec with
  | ConcurrencySpec _ _ key _ slotId => releaseSlot key slotId
  | TokenBucketSpec fk cost key config _ => creditTokens key cost (maxTokens config) fk
  end.

Definition releaseMultiLimit (specs : list MultiLimitSpec) : M unit :=
  mforeach specs release_one.

(** Whether any of the freezes stands: the loop stops at the first. *)
Fixpoint any_freeze_blocks (freezeKeys : list string) (now : num) : M bool :=
  match freezeKeys with
  | [] => mret false
  | k :: ks =>
      b ← freezeBlocksAdmission k now;
      if (b : bool) then mret true else any_freeze_blocks ks now
  end.

Definition tryAdmitMultiLimit (queueKey : string) (freezeKeys : list string)
    (specs : list MultiLimitSpec) (ttl : num) : M bool :=
  keyTtl ← lift (normalizeStateTtlSeconds ttl);
  claims ← claimMarks specs;
  waiting ← sorted queueKey;
  if decide (0 < length waiting)%nat then mret false
  else
    now ← date_now;
    blocked ← any_freeze_blocks freezeKeys now;
    if (blocked : bool) then mret false
    else
      planned ← planMultiLimit claims now;
      match pl_error planned with
      | Some _ => mret false
      | None =>
          if negb (pl_acquired planned) then
            persistRefills planned keyTtl ;; mret false
          else
            commit_plan planned now keyTtl ;; mret true
      end.
