(* ===== verification/Queue.v ===== *)
(** * The request queue of the memory backend

    A queue is a sorted set of request ids scored by priority, retries and
    arrival, with one metadata hash per entry; a claim on an entry is a lease
    ([packages/core/src/backend/memory.ts], the queue section, and the cost
    encoding of [parseStored.ts]). *)
From S2P Require Import Prelude JsNumber JsString Json Shared MemoryStore TokenBucket.
Local Open Scope num_scope.

(** ** Costs as stored: parseStored.ts *)

(** A cost is one number, or an object of amounts by limit name. *)
Inductive RequestCost :=
  | CostNumber (n : num)
  | CostRecord (l : list (string * json)).

Definition formatStoredCost (cost : RequestCost) : string :=
  match cost with
  | CostNumber n => num_to_string n
  | CostRecord l => stringify (JObj l)
  end.

(** [x || d] for a number. *)
Definition num_or (x d : num) : num := if isNaN x || (x =? int 0) then d else x.

Definition parseStoredCost (raw : option string) : RequestCost :=
  if negb (startsWith "{" (trimStart (default "" raw))) then
    CostNumber (num_or (parseFloat (default "" raw)) (int 1))
  else
    match parse (default "" raw) with
    | Some (JObj l) => CostRecord l
    | _ => CostNumber NaN
    end.

(** ** Data *)

Record QueuedRequest := {
  q_requestId : string;
  q_clientName : string;
  q_requestName : string;
  q_status : string;
  q_priority : num;
  q_cost : RequestCost;
  q_retries : num;
  q_timestamp : num;
  q_grantId : option string;
  q_isThawRequest : bool;
  q_settles : bool;
  q_ownerId : string;
  q_claimedAt : option num
}.

Record QueueStats := {
  qs_pending : num;
  qs_inProgress : num;
  qs_totalCost : num;
  qs_costByLimit : list (string * num)
}.

(** The fields [updateRequest] reads from its partial update. *)
Record RequestUpdates := {
  u_status : option string;
  u_retries : option num;
  u_priority : option num;
  u_isThawRequest : option bool
}.

Definition tombstoneKey (metadataKeyPrefix requestId : string) : string :=
  metadataKeyPrefix +:+ ":" +:+ requestId +:+ ":removed".

Definition metadata_key (metadataKeyPrefix requestId : string) : string :=
  metadataKeyPrefix +:+ ":" +:+ requestId.

(** ** Leases and scores *)

Definition claimLapsed (claimedAt : option string) (now : num) : bool :=
  now - parseStoredNumber claimedAt NaN >=? QUEUE_CLAIM_LEASE_MS.

Definition claimable (status claimedAt : option string) (now : num) : bool :=
  if decide (status = Some "pending") then true
  else if decide (status = Some "inProgress") then claimLapsed claimedAt now
  else false.

Definition rescore (priority retries timestamp : num) : num :=
  let p := fmin (fmax priority (int 0)) MAX_QUEUE_PRIORITY in
  let r := fmin (fmax retries (int 0)) MAX_QUEUE_RETRIES in
  let arrival := fmin (fmax (timestamp - QUEUE_SCORE_EPOCH_MS) (int 0))
                      (QUEUE_RETRY_BAND - int 1) in
  (MAX_QUEUE_PRIORITY - p) * QUEUE_PRIORITY_BAND
  + (MAX_QUEUE_RETRIES - r) * QUEUE_RETRY_BAND
  + arrival.

(** ** Reading an entry *)

Definition non_empty (s : option string) : bool :=
  match s with Some s => negb (bool_decide (s = "")) | None => false end.

Definition toQueued (metadata : gmap string string) : option QueuedRequest :=
  match metadata !! "requestId", metadata !! "clientName", metadata !! "requestName",
        metadata !! "status" with
  | Some requestId, Some clientName, Some requestName, Some status =>
      if bool_decide (requestId = "") || bool_decide (clientName = "")
         || bool_decide (status = "") then None
      else
        let claimedAt := parseStoredNumber (metadata !! "claimedAt") NaN in
        Some {| q_requestId := requestId;
                q_clientName := clientName;
                q_requestName := requestName;
                q_status := status;
                q_priority := parsePriority (metadata !! "priority");
                q_cost := parseStoredCost (metadata !! "cost");
                q_retries := num_or (match metadata !! "retries" with
                                     | Some s => parseInt s | None => NaN end) (int 0);
                q_timestamp := num_or (match metadata !! "timestamp" with
                                       | Some s => parseInt s | None => NaN end) (int 0);
                q_grantId := if non_empty (metadata !! "grantId")
                             then metadata !! "grantId" else None;
                q_isThawRequest := bool_decide (metadata !! "isThawRequest" = Some "true");
                q_settles := bool_decide (metadata !! "settles" = Some "true");
                q_ownerId := default "" (metadata !! "ownerId");
                q_claimedAt := if isFinite claimedAt then Some claimedAt else None |}
  | _, _, _, _ => None
  end.

(** ** Operations *)

Definition bool_string (b : bool) : string := if b then "true" else "false".

Definition addRequest (queueKey metadataKeyPrefix : string) (request : QueuedRequest)
    (ttl : num) : M bool :=
  let metadataKey := metadata_key metadataKeyPrefix (q_requestId request) in
  score ← lift (calculateQueueScore (q_priority request) (q_retries request)
                  (q_timestamp request));
  normalizedTtl ← lift (normalizeStateTtlSeconds ttl);
  tombstone ← live (tombstoneKey metadataKeyPrefix (q_requestId request));
  if bool_decide (is_Some tombstone) then mret false
  else
    existing ← live_hash metadataKey;
    if bool_decide (is_Some existing) then mret false
    else
      zset queueKey ;; zset_set queueKey (q_requestId request) score ;;
      hash metadataKey ;;
      hash_set metadataKey "requestId" (q_requestId request) ;;
      hash_set metadataKey "clientName" (q_clientName request) ;;
      hash_set metadataKey "requestName" (q_requestName request) ;;
      hash_set metadataKey "status" (q_status request) ;;
      hash_set metadataKey "priority" (num_to_string (q_priority request)) ;;
      hash_set metadataKey "cost" (formatStoredCost (q_cost request)) ;;
      hash_set metadataKey "retries" (num_to_string (q_retries request)) ;;
      hash_set metadataKey "timestamp" (num_to_string (q_timestamp request)) ;;
      hash_set metadataKey "grantId" (default "" (q_grantId request)) ;;
      hash_set metadataKey "isThawRequest" (bool_string (q_isThawRequest request)) ;;
      mwhen (q_settles request) (hash_set metadataKey "settles" "true") ;;
      hash_set metadataKey "ownerId" (q_ownerId request) ;;
      expire queueKey normalizedTtl ;;
      expire metadataKey normalizedTtl ;;
      mret true.

Definition getQueueLength (queueKey : string) : M nat :=
  z ← live_zset queueKey; mret (length (default [] z)).

(** Whether the claim loop passes an entry over. *)
Definition skips (hash : gmap string string) (skipGrantIds : list string) (now : num) : bool :=
  negb (claimable (hash !! "status") (hash !! "claimedAt") now)
  || (let grantId := default "" (hash !! "grantId") in
      negb (bool_decide (grantId = "")) && bool_decide (grantId ∈ skipGrantIds))
  || bool_decide (toQueued hash = None :> option QueuedRequest).

Fixpoint next_in (ids : list string) (metadataKeyPrefix : string)
    (skipGrantIds skipRequestIds : list string) (now : num) : M (option QueuedRequest) :=
  match ids with
  | [] => mret None
  | requestId :: ids' =>
      let rest := next_in ids' metadataKeyPrefix skipGrantIds skipRequestIds now in
      if decide (requestId ∈ skipRequestIds) then rest
      else
        let metadataKey := metadata_key metadataKeyPrefix requestId in
        h ← live_hash metadataKey;
        match h with
        | None => rest
        | Some h =>
            if skips h skipGrantIds now then rest
            else
              mwhen (negb (bool_decide (h !! "status" = Some "pending")))
                (hash_set metadataKey "isThawRequest" "false") ;;
              hash_set metadataKey "status" "inProgress" ;;
              hash_set metadataKey "claimedAt" (num_to_string now) ;;
              h' ← live_hash metadataKey;
              mret (toQueued (default ∅ h'))
        end
  end.

Definition getNextRequest (queueKey metadataKeyPrefix : string)
    (skipGrantIds skipRequestIds : list string) : M (option QueuedRequest) :=
  now ← date_now;
  ids ← sorted queueKey;
  next_in ids metadataKeyPrefix skipGrantIds skipRequestIds now.

Definition confirmRequest (metadataKeyPrefix requestId : string) (claimedAt : num) : M bool :=
  let metadataKey := metadata_key metadataKeyPrefix requestId in
  h ← live_hash metadataKey;
  match h with
  | None => mret false
  | Some h =>
      if negb (bool_decide (h !! "status" = Some "inProgress")) then mret false
      else
        let stamp := h !! "claimedAt" in
        if negb (parseStoredNumber stamp NaN =? claimedAt) then mret false
        else
          now ← date_now;
          if claimLapsed stamp now then mret false
          else hash_delete metadataKey "claimedAt" ;; mret true
  end.

Definition getRequest (metadataKeyPrefix requestId : string) : M (option QueuedRequest) :=
  h ← hgetall (metadata_key metadataKeyPrefix requestId);
  mret (toQueued h).

(** An update field that is present and finite. *)
Definition finite_update (x : option num) : option num :=
  match x with Some n => if isFinite n then Some n else None | None => None end.

Definition set_opt (key field : string) (v : option string) : M unit :=
  match v with Some s => hash_set key field s | None => mret tt end.

Definition updateRequest (queueKey metadataKeyPrefix requestId : string)
    (updates : RequestUpdates) : M unit :=
  let metadataKey := metadata_key metadataKeyPrefix requestId in
  h ← live_hash metadataKey;
  match h with
  | None => mret tt
  | Some h =>
      let retries := finite_update (u_retries updates) in
      let priority := finite_update (u_priority updates) in
      let needsScoreUpdate := bool_decide (is_Some retries) || bool_decide (is_Some priority) in
      let member := h !! "requestId" in
      if needsScoreUpdate && bool_decide (member = None) then mret tt
      else
        match u_status updates with
        | Some status => hash_set metadataKey "status" status ;; hash_delete metadataKey "claimedAt"
        | None => mret tt
        end ;;
        set_opt metadataKey "retries" (num_to_string <$> retries) ;;
        set_opt metadataKey "priority" (num_to_string <$> priority) ;;
        set_opt metadataKey "isThawRequest" (bool_string <$> u_isThawRequest updates) ;;
        match member with
        | Some member =>
            if negb needsScoreUpdate then mret tt
            else
              h' ← live_hash metadataKey;
              let h' := default ∅ h' in
              zset queueKey ;;
              zset_set queueKey member
                (rescore (parseStoredNumber (h' !! "priority") (int 1))
                         (parseStoredNumber (h' !! "retries") (int 0))
                         (parseStoredNumber (h' !! "timestamp") (int 0)))
        | None => mret tt
        end
  end.

(** [this.live(queueKey)?.zset?.delete(id)]. *)
Definition drop_member (queueKey requestId : string) : M unit :=
  z ← live_zset queueKey;
  mwhen (bool_decide (is_Some z)) (zset_delete queueKey requestId).

Definition removeRequest (queueKey metadataKeyPrefix requestId : string)
    (tombstoneTtlSeconds : num) : M bool :=
  let metadataKey := metadata_key metadataKeyPrefix requestId in
  let tombstoneTtl := normalizeTombstoneTtl tombstoneTtlSeconds in
  mark ← hget metadataKey "isThawRequest";
  drop_member queueKey requestId ;;
  dropIfEmpty queueKey ;;
  store_delete metadataKey ;;
  now ← date_now;
  put (tombstoneKey metadataKeyPrefix requestId)
    (string_entry "1" (Some (now + tombstoneTtl * int 1000))) ;;
  mret (bool_decide (mark = Some "true")).

(** One entry's contribution to the statistics. *)
Definition add_cost (raw : option string) (totals : num * list (string * num))
    : num * list (string * num) :=
  let '(total, by_limit) := totals in
  match raw with
  | Some r =>
      if startsWith "{" (trimStart r) then
        match parseStoredCost raw with
        | CostNumber _ => totals
        | CostRecord l =>
            (total,
             fold_left (fun acc (e : string * json) =>
               match e.2 with
               | JNum amount =>
                   if isFinite amount
                   then omap_set e.1 (default (int 0) (omap_get e.1 acc) + amount) acc
                   else acc
               | _ => acc
               end) l by_limit)
        end
      else (total + parseFiniteStored raw (int 1), by_limit)
  | None => (total + parseFiniteStored raw (int 1), by_limit)
  end.

Definition stats_step (metadataKeyPrefix : string) (s : QueueStats) (requestId : string)
    : M QueueStats :=
  let metadataKey := metadata_key metadataKeyPrefix requestId in
  status ← hget metadataKey "status";
  if negb (non_empty status) then mret s
  else
    raw ← hget metadataKey "cost";
    let '(total, by_limit) := add_cost raw (qs_totalCost s, qs_costByLimit s) in
    mret {| qs_pending := if decide (status = Some "pending") then qs_pending s + int 1
                          else qs_pending s;
            qs_inProgress := if decide (status = Some "inProgress") then qs_inProgress s + int 1
                             else qs_inProgress s;
            qs_totalCost := total;
            qs_costByLimit := by_limit |}.

Definition getQueueStats (queueKey metadataKeyPrefix : string) : M QueueStats :=
  ids ← sorted queueKey;
  mfold (stats_step metadataKeyPrefix)
    {| qs_pending := int 0; qs_inProgress := int 0; qs_totalCost := int 0;
       qs_costByLimit := [] |} ids.

Definition getAllRequests (queueKey metadataKeyPrefix : string) : M (list QueuedRequest) :=
  ids ← sorted queueKey;
  mfold (fun acc requestId =>
    h ← live_hash (metadata_key metadataKeyPrefix requestId);
    mret (match h with
          | Some h => if decide (size h = 0%nat) then acc
                      else acc ++ option_list (toQueued h)
          | None => acc
          end)) [] ids.

Definition cleanup_step (queueKey metadataKeyPrefix : string) (aliveInstanceIds : list string)
    (cleanedUp : num) (requestId : string) : M num :=
  let metadataKey := metadata_key metadataKeyPrefix requestId in
  ownerId ← hget metadataKey "ownerId";
  match ownerId with
  | None => drop_member queueKey requestId ;; mret (cleanedUp + int 1)
  | Some owner =>
      if bool_decide (owner = "") || negb (bool_decide (owner ∈ aliveInstanceIds)) then
        drop_member queueKey requestId ;;
        store_delete metadataKey ;;
        mret (cleanedUp + int 1)
      else mret cleanedUp
  end.

Definition cleanupOrphanedRequests (queueKey metadataKeyPrefix : string)
    (aliveInstanceIds : list string) (currentInstanceId : string) : M num :=
  if negb (bool_decide (currentInstanceId ∈ aliveInstanceIds)) then mret (int 0)
  else
    ids ← sorted queueKey;
    n ← mfold (cleanup_step queueKey metadataKeyPrefix aliveInstanceIds) (int 0) ids;
    dropIfEmpty queueKey ;;
    mret n.
