(* ===== verification/Cost.v ===== *)
(** * Request costs

    [packages/core/src/utils/cost.ts]: which costs can be spent at all, what a
    cost charges to each limit, and which costs and which settlements a list of
    limits can take. *)
From S2P Require Import Prelude JsNumber JsString Json Value RateLimit.
From S2P Require Import Shared MemoryStore TokenBucket Queue.
Local Open Scope num_scope.

(** ** Values *)

(** [describe]: the value as text, non-finite numbers by name. *)
Definition describe (v : value) : string :=
  match v with
  | VNum n => if isFinite n then stringify (JNum n) else num_to_string n
  | VUndefined => "undefined"
  | VFun text => text
  | _ => stringify_text v
  end.

(** [isPlainObject], with the object's entries in order. *)
Definition plain_entries (v : value) : option (list (string * value)) :=
  match v with VObj true l => Some l | _ => None end.

(** A cost as the value it is. *)
Definition cost_value (cost : RequestCost) : value :=
  match cost with CostNumber n => VNum n | CostRecord l => of_json (JObj l) end.

(** [Object.hasOwn(cost, name)]. *)
Definition hasOwn {A} (l : list (string * A)) (name : string) : bool := bool_decide (name ∈ l.*1).

(** ** Which costs can be spent *)

Definition bad_amount (v : value) : bool :=
  match v with
  | VNum n => negb (isFinite n) || (negb (n =? int 0) && (n <? EPSILON))
  | _ => true
  end.

Definition spends (v : value) : bool :=
  match v with VNum n => n >=? EPSILON | _ => false end.

Definition unusableCostReason (cost : value) : option string :=
  match cost with
  | VNum n =>
      if isFinite n && (n >=? EPSILON) then None
      else Some ("cost must be a finite number of at least " +:+ num_to_string EPSILON
                 +:+ ". Received " +:+ describe cost +:+ ".")
  | _ =>
      match plain_entries cost with
      | None =>
          Some ("cost must be a number or an object of numbers keyed by rate limit name. Received "
                +:+ describe cost +:+ ".")
      | Some [] =>
          Some "cost must name at least one rate limit when given as an object. Received {}."
      | Some entries =>
          match List.find (fun e => bad_amount e.2) entries with
          | Some (name, amount) =>
              Some ("cost for rate limit " +:+ dq name +:+ " must be 0 or a finite number of at least "
                    +:+ num_to_string EPSILON +:+ ". Received " +:+ describe amount +:+ ".")
          | None =>
              if existsb (fun e => spends e.2) entries then None
              else Some ("cost must spend something against at least one rate limit. Received "
                         +:+ describe cost +:+ ".")
          end
      end
  end.

Definition assertUsableCost (cost : value) : result unit :=
  match unusableCostReason cost with
  | Some reason => Throw (ConfigurationError "invalid_request_cost" reason)
  | None => Ok tt
  end.

(** ** Limits *)

Definition isMetered (l : NamedRateLimitData) : bool := has_budget (n_limit l).

Definition metered (config : list NamedRateLimitData) : list NamedRateLimitData :=
  filter (fun l => isMetered l = true) config.

Definition budgetLimitsFor (config : list NamedRateLimitData)
    (resolveShared : option (string -> option (list NamedRateLimitData)))
    : option (list NamedRateLimitData) :=
  match omap (fun l => match n_limit l with sharedLimit owner => Some owner | _ => None end) config with
  | clientName :: _ =>
      match resolveShared ≫= (fun resolve => resolve clientName) with
      | Some owner => Some (metered owner)
      | None => None
      end
  | [] => Some (metered config)
  end.

(** Meant for metered limits; no other limit has a ceiling. *)
Definition ceilingOf (l : NamedRateLimitData) : num :=
  match n_limit l with
  | requestLimit o => rl_maxTokens o
  | concurrencyLimit k => k
  | _ => NaN
  end.

(** ** What a cost charges *)

Definition costFor (cost : RequestCost) (limitName : string) : result num :=
  let missing := Throw (ConfigurationError "invalid_request_cost"
    ("cost names no amount for rate limit " +:+ dq limitName +:+ ". Received "
     +:+ describe (cost_value cost) +:+ ".")) in
  match cost with
  | CostNumber n => Ok n
  | CostRecord l =>
      match omap_get limitName l with Some (JNum n) => Ok n | _ => missing end
  end.

Definition claimedAmount (cost : RequestCost) (limitName : string) : result num :=
  match cost with
  | CostRecord l => if hasOwn l limitName then costFor cost limitName else Ok (int 0)
  | CostNumber _ => costFor cost limitName
  end.

(** The two refusals of [costProblem], with their constructors' arguments. *)
Inductive cost_error :=
  | RequestCostMismatchError (clientName : string) (missing unknown declared : list string)
  | RequestCostExceedsBudgetError (clientName : string) (cost ceiling : num) (limitName : option string).

Record breach := { b_limit : NamedRateLimitData; b_amount : num; b_ceiling : num }.

(** The loop over the limits: the tightest breached ceiling so far. *)
Fixpoint find_breach (cost : RequestCost) (limits : list NamedRateLimitData) (b : option breach)
    : result (option breach) :=
  match limits with
  | [] => Ok b
  | limit :: limits' =>
      amount ← costFor cost (n_name limit);
      let ceiling := ceilingOf limit in
      if amount <=? ceiling then find_breach cost limits' b
      else if match b with None => true | Some b => ceiling <? b_ceiling b end then
        find_breach cost limits' (Some {| b_limit := limit; b_amount := amount; b_ceiling := ceiling |})
      else find_breach cost limits' b
  end.

Definition missing_names (declared : list string) (l : list (string * json)) : list string :=
  filter (fun name => hasOwn l name = false) declared.
Definition unknown_names (declared : list string) (l : list (string * json)) : list string :=
  filter (fun name => name ∉ declared) l.*1.

Definition costProblem (clientName : string) (cost : RequestCost)
    (limits : option (list NamedRateLimitData)) : result (option cost_error) :=
  match limits with
  | None => Ok None
  | Some limits =>
      let declared := map n_name limits in
      let mismatch :=
        match cost with
        | CostNumber _ => None
        | CostRecord l =>
            match missing_names declared l, unknown_names declared l with
            | [], [] => None
            | missing, unknown => Some (RequestCostMismatchError clientName missing unknown declared)
            end
        end in
      match mismatch with
      | Some e => Ok (Some e)
      | None =>
          b ← find_breach cost limits None;
          Ok (option_map (fun b => RequestCostExceedsBudgetError clientName (b_amount b) (b_ceiling b)
                (if (1 <? length limits)%nat then Some (n_name (b_limit b)) else None)) b)
      end
  end.

(** ** What a settlement may report *)

Definition usable_settled (v : value) : bool :=
  match v with VNum n => isFinite n && (n >=? int 0) | _ => false end.

Definition buckets_of (limits : list NamedRateLimitData) : list string :=
  omap (fun l => match n_limit l with requestLimit _ => Some (n_name l) | _ => None end) limits.
Definition slots_of (limits : list NamedRateLimitData) : list string :=
  omap (fun l => match n_limit l with concurrencyLimit _ => Some (n_name l) | _ => None end) limits.

Definition settled_names_problem (named : list string) (limits : list NamedRateLimitData)
    : option string :=
  let buckets := buckets_of limits in
  let slots := slots_of limits in
  let missing := filter (fun name => name ∉ named) buckets in
  let concurrency := filter (fun name => name ∈ slots) named in
  let unknown := filter (fun name => name ∉ buckets /\ name ∉ slots) named in
  let problems :=
    (match missing with [] => [] | _ => ["omits " +:+ quote_names missing] end) ++
    (match concurrency with
     | [] => []
     | _ => ["names concurrency limit " +:+ quote_names concurrency
             +:+ ", whose slot is returned at completion and is not settled"]
     end) ++
    (match unknown with
     | [] => []
     | _ => ["names " +:+ quote_names unknown +:+ ", which the client does not declare"]
     end) in
  match problems with
  | [] => None
  | _ => Some ("settle's result " +:+ join " and " problems
               +:+ ". It must name every requestLimit: "
               +:+ match buckets with [] => "there are none" | _ => quote_names buckets end +:+ ".")
  end.

Definition settledCostProblem (settled : value) (limits : list NamedRateLimitData) : option string :=
  match settled with
  | VNum _ =>
      if usable_settled settled then None
      else Some ("settle must return a finite number that is not negative. Received "
                 +:+ describe settled +:+ ".")
  | _ =>
      match plain_entries settled with
      | None =>
          Some ("settle must return a number, an object of numbers keyed by rate limit name, or undefined. Received "
                +:+ describe settled +:+ ".")
      | Some entries =>
          match List.find (fun e => negb (usable_settled e.2)) entries with
          | Some (name, amount) =>
              Some ("settle's amount for rate limit " +:+ dq name
                    +:+ " must be a finite number that is not negative. Received "
                    +:+ describe amount +:+ ".")
          | None => settled_names_problem entries.*1 limits
          end
      end
  end.
