(* ===== verification/Freeze.v ===== *)
(** * Freezes and thaw probes of the memory backend

    A freeze is a deadline and a number of probes owed, in a hash of its own;
    once the deadline passes, recovery is probed by one request at a time
    ([packages/core/src/backend/memory.ts], the freeze section). *)
From S2P Require Import Prelude JsNumber JsString Shared MemoryStore TokenBucket Queue.
Local Open Scope num_scope.

Record FreezeState := { frozenUntil : num; thawRequestCount : num }.

Inductive freeze_mode := FreezeSet | FreezeMax.

Definition storable (value min : num) : num :=
  fmin (fmax (trunc value) min) MAX_SAFE_INTEGER.

(** The merge of a requested freeze with the standing one, before it is put in
    range: deadline, probes and whether the bucket is emptied. *)
Definition merge_freeze (existingUntil : option num) (existingEmpties : option string)
    (existingThaw : num) (now until count : num) (empties : bool) : num * num * bool :=
  match existingUntil with
  | None => (until, count, empties)
  | Some e =>
      (if e >? until then e else until,
       if existingThaw >? count then existingThaw else count,
       if (e >? now) && negb (bool_decide (existingEmpties = Some "0")) then true else empties)
  end.

Definition finite_or_zero (x : num) : num := if isFinite x then x else int 0.

(** The freeze to write: the request itself, or merged with what stands. *)
Definition merged_freeze (key : string) (mode : freeze_mode) (now until count : num)
    (empties : bool) : M (num * num * bool) :=
  match mode with
  | FreezeSet => mret (until, count, empties)
  | FreezeMax =>
      raw ← hget key "frozenUntil";
      flag ← hget key "emptiesBucket";
      thaw ← hget key "thawRequestCount";
      mret (merge_freeze (usableDeadline raw) flag (parseFiniteStored thaw (int 0))
              now until count empties)
  end.

Definition writeFreezeState (key : string) (until count : num) (mode : freeze_mode)
    (emptiesBucket : bool) : M FreezeState :=
  now ← date_now;
  merged ← merged_freeze key mode now (finite_or_zero until) (finite_or_zero count) emptiesBucket;
  let '(until, count, empties) := merged : num * num * bool in
  let until := storable until (- MAX_SAFE_INTEGER) in
  let count := storable count (int 0) in
  ttl ← lift (normalizeTtlSeconds (freezeTtlSeconds until count now));
  hash key ;;
  hash_set key "frozenUntil" (num_to_string until) ;;
  hash_set key "thawRequestCount" (num_to_string count) ;;
  hash_set key "emptiesBucket" (if empties then "1" else "0") ;;
  expire key ttl ;;
  mret {| frozenUntil := until; thawRequestCount := count |}.

(** [options.emptiesBucket !== false]. *)
Definition empties_option (o : option bool) : bool :=
  match o with Some b => b | None => true end.

Definition setFreezeState (key : string) (until count : num) (emptiesBucket : option bool)
    : M unit :=
  writeFreezeState key until count FreezeSet (empties_option emptiesBucket) ;; mret tt.

Definition armFreeze (key : string) (until count : num) (emptiesBucket : option bool)
    : M FreezeState :=
  writeFreezeState key until count FreezeMax (empties_option emptiesBucket).

Definition readFreezeState (key : string) (now : num) : M (option FreezeState) :=
  raw ← hget key "frozenUntil";
  match usableDeadline raw with
  | None => mret None
  | Some until =>
      thaw ← hget key "thawRequestCount";
      let count := parseFiniteStored thaw (int 0) in
      if (now >=? until) && (count <=? int 0) then mret None
      else mret (Some {| frozenUntil := until; thawRequestCount := count |})
  end.

Definition getFreezeState (key : string) : M (option FreezeState) :=
  now ← date_now; readFreezeState key now.

Definition completions_key (key : string) : string := key +:+ ":thawCompletions".

Definition updateThawProgress (key : string) (success : bool) (completionId : option string)
    : M (option FreezeState) :=
  let completionKey := completions_key key in
  let named := non_empty completionId in
  seen ← (if named then s ← live_set completionKey;
            mret (bool_decide (default "" completionId ∈ default [] s))
          else mret false);
  mwhen (named && negb seen)
    (setOf completionKey ;; set_add completionKey (default "" completionId) ;;
     expire completionKey FREEZE_PROBE_TTL_SECONDS) ;;
  raw ← hget key "frozenUntil";
  match usableDeadline raw with
  | None => mret None
  | Some until =>
      thaw ← hget key "thawRequestCount";
      let count := parseFiniteStored thaw (int 0) in
      let unchanged := Some {| frozenUntil := until; thawRequestCount := count |} in
      if (seen : bool) then mret unchanged
      else
        now ← date_now;
        if (now >=? until) && (count <=? int 0) then store_delete key ;; mret None
        else if negb success then mret unchanged
        else
          let newCount := fmax (int 0) (count - int 1) in
          if (newCount =? int 0) && (now >=? until) then store_delete key ;; mret None
          else
            hash key ;;
            hash_set key "thawRequestCount" (num_to_string newCount) ;;
            expire key (freezeTtlSeconds until newCount now) ;;
            mret (Some {| frozenUntil := until; thawRequestCount := newCount |})
  end.

Definition clearFreezeState (key : string) : M unit := store_delete key.

Definition isFrozen (key : string) : M bool :=
  now ← date_now;
  state ← readFreezeState key now;
  mret (match state with
        | None => false
        | Some s => if now <? frozenUntil s then true else thawRequestCount s >? int 0
        end).

Record ProcessDecision := {
  canProcess : bool;
  pd_isThawRequest : bool;
  pd_frozenUntil : option num
}.

Definition canProcessRequest (key : string) : M ProcessDecision :=
  now ← date_now;
  state ← readFreezeState key now;
  mret (match state with
        | None => {| canProcess := true; pd_isThawRequest := false; pd_frozenUntil := None |}
        | Some s =>
            if now <? frozenUntil s
            then {| canProcess := false; pd_isThawRequest := false;
                    pd_frozenUntil := Some (frozenUntil s) |}
            else {| canProcess := true; pd_isThawRequest := true;
                    pd_frozenUntil := Some (frozenUntil s) |}
        end).

Definition isCompetingProbe (metadataKey grantId : string) (anyGrant : bool) (now : num)
    : M bool :=
  otherGrant ← hget metadataKey "grantId";
  status ← hget metadataKey "status";
  thaw ← hget metadataKey "isThawRequest";
  claimedAt ← hget metadataKey "claimedAt";
  mret (bool_decide (status = Some "inProgress")
        && (anyGrant || bool_decide (default "" otherGrant = grantId))
        && bool_decide (thaw = Some "true")
        && negb (claimLapsed claimedAt now)).

Fixpoint any_competing (ids : list string) (metadataKeyPrefix : string) (except : option string)
    (grantId : string) (anyGrant : bool) (now : num) : M bool :=
  match ids with
  | [] => mret false
  | id :: ids' =>
      let rest := any_competing ids' metadataKeyPrefix except grantId anyGrant now in
      if decide (Some id = except) then rest
      else
        c ← isCompetingProbe (metadata_key metadataKeyPrefix id) grantId anyGrant now;
        if (c : bool) then mret true else rest
  end.

Definition hasThawRequestInProgress (queueKey metadataKeyPrefix grantId : string)
    (anyGrant : bool) : M bool :=
  now ← date_now;
  ids ← sorted queueKey;
  any_competing ids metadataKeyPrefix None grantId anyGrant now.

Inductive thaw_result := Started | Exists_.

Definition tryStartThawRequest (frozenGrantsKey queueKey metadataKeyPrefix requestId
    grantId : string) (anyGrant : bool) : M thaw_result :=
  mwhen (negb (bool_decide (grantId = "")))
    (setOf frozenGrantsKey ;; set_add frozenGrantsKey grantId ;;
     expire frozenGrantsKey (int 86400)) ;;
  now ← date_now;
  ids ← sorted queueKey;
  competing ← any_competing ids metadataKeyPrefix (Some requestId) grantId anyGrant now;
  if (competing : bool) then mret Exists_
  else
    let metadataKey := metadata_key metadataKeyPrefix requestId in
    h ← live_hash metadataKey;
    match h with
    | None => mret Exists_
    | Some _ => hash metadataKey ;; hash_set metadataKey "isThawRequest" "true" ;; mret Started
    end.

Definition probing_step (metadataKeyPrefix : string) (probing : list string) (requestId : string)
    : M (list string) :=
  let metadataKey := metadata_key metadataKeyPrefix requestId in
  grantId ← hget metadataKey "grantId";
  status ← hget metadataKey "status";
  thaw ← hget metadataKey "isThawRequest";
  mret (match grantId with
        | Some g =>
            if bool_decide (status = Some "inProgress") && bool_decide (thaw = Some "true")
            then oset_add g probing else probing
        | None => probing
        end).

Definition stale_step (frozenGrantsKey freezeStateKeyPrefix : string) (probing : list string)
    (now cleaned : num) (grantId : string) : M num :=
  if decide (grantId ∈ probing) then mret cleaned
  else
    raw ← hget (freezeStateKeyPrefix +:+ grantId +:+ ":freezeState") "frozenUntil";
    if bool_decide (raw = None) || (now >=? parseFiniteStored raw (int 0)) then
      removeMember frozenGrantsKey grantId ;; mret (cleaned + int 1)
    else mret cleaned.

Definition cleanupStaleFrozenGrants (frozenGrantsKey queueKey metadataKeyPrefix
    freezeStateKeyPrefix : string) : M num :=
  now ← date_now;
  ids ← sorted queueKey;
  probing ← mfold (probing_step metadataKeyPrefix) [] ids;
  grants ← live_set frozenGrantsKey;
  mfold (stale_step frozenGrantsKey freezeStateKeyPrefix probing now) (int 0)
    (default [] grants).
