(* ===== verification/Backend.v ===== *)
(** * The memory backend as one interface

    Every public operation of [MemoryBackend] as a constructor of [call], with
    the type of what it resolves to, and [exec], which runs it.  A history is
    a list of calls with the clock reading each one ran at, and of runs of the
    periodic sweep. *)
From S2P Require Import Prelude JsNumber JsString Shared MemoryStore TokenBucket.
From S2P Require Import Concurrency MultiLimit Queue Freeze.

Inductive call : Type -> Type :=
  | CGet (key : string) : call (option string)
  | CSet (key value : string) (ttlSeconds : option num) : call unit
  | CDel (keys : list string) : call unit
  | CHgetall (key : string) : call (gmap string string)
  | CHset (key : string) (fields : list (string * field_value)) (ttlSeconds : option num) : call unit
  | CSadd (key member : string) : call unit
  | CSrem (key member : string) : call unit
  | CSmembers (key : string) : call (list string)
  | CBatch (ops : list BatchOp) : call unit
  | CAcquireLock (key token : string) (ttlMs : num) : call bool
  | CReleaseLock (key token : string) : call bool
  | CPublish (channel message : string) : call unit
  | CSubscribe (channels : list string) (h : handler) : call unit
  | CAcquireTokens (key : string) (cost : num) (config : TokenBucketConfig)
      (mark : option ClaimMark) : call AcquireTokensResult
  | CGetTokenBucketState (key : string) (config : TokenBucketConfig) : call (num * num)
  | CResetTokenBucket (key : string) (maxTokens : num) : call unit
  | CEmptyTokenBucket (key : string) (config : TokenBucketConfig) : call unit
  | CSettleTokens (specs : list SettleSpec) : call (list SettleResult)
  | CRefundTokens (key : string) (cost maxTokens : num) (freezeKey : option string) : call unit
  | CTryAdmitImmediately (queueKey bucketKey freezeKey : string) (cost : num)
      (config : TokenBucketConfig) (ttl : num) (mark : option ClaimMark) : call bool
  | CTryAdmitNoLimit (queueKey freezeKey : string) : call bool
  | CAcquireMultiLimit (specs : list MultiLimitSpec) : call AcquireMultiLimitResult
  | CReleaseMultiLimit (specs : list MultiLimitSpec) : call unit
  | CTryAdmitMultiLimit (queueKey : string) (freezeKeys : list string)
      (specs : list MultiLimitSpec) (ttl : num) : call bool
  | CAcquireConcurrency (key : string) (cost : num) (requestId : string)
      (config : ConcurrencyConfig) : call AcquireConcurrencyResult
  | CAcquireQueuedConcurrency (key metadataKey : string) (cost : num) (requestId : string)
      (config : ConcurrencyConfig) : call AcquireConcurrencyResult
  | CTryAdmitConcurrency (queueKey concurrencyKey freezeKey : string) (cost : num)
      (requestId : string) (config : ConcurrencyConfig) (ttl : num) : call bool
  | CReleaseConcurrency (key requestId : string) : call unit
  | CTouchConcurrency (key slotId : string) (ttlSeconds : num) : call bool
  | CTouchClaimMark (bucketKey markId : string) (ttlSeconds : num) : call bool
  | CGetConcurrencyState (key : string) (requestTtl : num) : call (num * list string)
  | CClearConcurrency (key : string) : call unit
  | CAddRequest (queueKey metadataKeyPrefix : string) (request : QueuedRequest) (ttl : num)
      : call bool
  | CGetQueueLength (queueKey : string) : call nat
  | CGetNextRequest (queueKey metadataKeyPrefix : string)
      (skipGrantIds skipRequestIds : list string) : call (option QueuedRequest)
  | CConfirmRequest (metadataKeyPrefix requestId : string) (claimedAt : num) : call bool
  | CGetRequest (metadataKeyPrefix requestId : string) : call (option QueuedRequest)
  | CUpdateRequest (queueKey metadataKeyPrefix requestId : string) (updates : RequestUpdates)
      : call unit
  | CRemoveRequest (queueKey metadataKeyPrefix requestId : string) (tombstoneTtlSeconds : num)
      : call bool
  | CGetQueueStats (queueKey metadataKeyPrefix : string) : call QueueStats
  | CGetAllRequests (queueKey metadataKeyPrefix : string) : call (list QueuedRequest)
  | CCleanupOrphanedRequests (queueKey metadataKeyPrefix : string)
      (aliveInstanceIds : list string) (currentInstanceId : string) : call num
  | CSetFreezeState (key : string) (until count : num) (emptiesBucket : option bool) : call unit
  | CArmFreeze (key : string) (until count : num) (emptiesBucket : option bool) : call FreezeState
  | CGetFreezeState (key : string) : call (option FreezeState)
  | CUpdateThawProgress (key : string) (success : bool) (completionId : option string)
      : call (option FreezeState)
  | CClearFreezeState (key : string) : call unit
  | CIsFrozen (key : string) : call bool
  | CCanProcessRequest (key : string) : call ProcessDecision
  | CHasThawRequestInProgress (queueKey metadataKeyPrefix grantId : string) (anyGrant : bool)
      : call bool
  | CTryStartThawRequest (frozenGrantsKey queueKey metadataKeyPrefix requestId grantId : string)
      (anyGrant : bool) : call thaw_result
  | CCleanupStaleFrozenGrants (frozenGrantsKey queueKey metadataKeyPrefix
      freezeStateKeyPrefix : string) : call num
  | CGetInstances (instanceSetKey instanceKeyPrefix currentInstanceId : string)
      : call (list (string * string))
  | CNow : call num
  | CClose : call unit
  | CRunMicrotask : call unit.

Definition exec {A} (c : call A) : M A :=
  match c with
  | CGet key => MemoryStore.get key
  | CSet key value ttl => MemoryStore.set key value ttl
  | CDel keys => del keys
  | CHgetall key => hgetall key
  | CHset key fields ttl => hset key fields ttl
  | CSadd key member => sadd key member
  | CSrem key member => srem key member
  | CSmembers key => smembers key
  | CBatch ops => batch ops
  | CAcquireLock key token ttl => acquireLock key token ttl
  | CReleaseLock key token => releaseLock key token
  | CPublish channel message => publish channel message
  | CSubscribe channels h => subscribe channels h
  | CAcquireTokens key cost config mark => acquireTokens key cost config mark
  | CGetTokenBucketState key config => getTokenBucketState key config
  | CResetTokenBucket key max => resetTokenBucket key max
  | CEmptyTokenBucket key config => emptyTokenBucket key config
  | CSettleTokens specs => settleTokens specs
  | CRefundTokens key cost max fk => refundTokens key cost max fk
  | CTryAdmitImmediately q b f cost config ttl mark =>
      tryAdmitImmediately q b f cost config ttl mark
  | CTryAdmitNoLimit q f => tryAdmitNoLimit q f
  | CAcquireMultiLimit specs => acquireMultiLimit specs
  | CReleaseMultiLimit specs => releaseMultiLimit specs
  | CTryAdmitMultiLimit q fs specs ttl => tryAdmitMultiLimit q fs specs ttl
  | CAcquireConcurrency key cost id config => acquireConcurrency key cost id config
  | CAcquireQueuedConcurrency key mk cost id config =>
      acquireQueuedConcurrency key mk cost id config
  | CTryAdmitConcurrency q k f cost id config ttl =>
      tryAdmitConcurrency q k f cost id config ttl
  | CReleaseConcurrency key id => releaseConcurrency key id
  | CTouchConcurrency key id ttl => touchConcurrency key id ttl
  | CTouchClaimMark key id ttl => touchClaimMark key id ttl
  | CGetConcurrencyState key ttl => getConcurrencyState key ttl
  | CClearConcurrency key => clearConcurrency key
  | CAddRequest q p request ttl => addRequest q p request ttl
  | CGetQueueLength q => getQueueLength q
  | CGetNextRequest q p skip skipIds => getNextRequest q p skip skipIds
  | CConfirmRequest p id claimedAt => confirmRequest p id claimedAt
  | CGetRequest p id => getRequest p id
  | CUpdateRequest q p id updates => updateRequest q p id updates
  | CRemoveRequest q p id ttl => removeRequest q p id ttl
  | CGetQueueStats q p => getQueueStats q p
  | CGetAllRequests q p => getAllRequests q p
  | CCleanupOrphanedRequests q p alive me => cleanupOrphanedRequests q p alive me
  | CSetFreezeState key until count empties => setFreezeState key until count empties
  | CArmFreeze key until count empties => armFreeze key until count empties
  | CGetFreezeState key => getFreezeState key
  | CUpdateThawProgress key success id => updateThawProgress key success id
  | CClearFreezeState key => clearFreezeState key
  | CIsFrozen key => isFrozen key
  | CCanProcessRequest key => canProcessRequest key
  | CHasThawRequestInProgress q p g any => hasThawRequestInProgress q p g any
  | CTryStartThawRequest fg q p id g any => tryStartThawRequest fg q p id g any
  | CCleanupStaleFrozenGrants fg q p fs => cleanupStaleFrozenGrants fg q p fs
  | CGetInstances s p me => getInstances s p me
  | CNow => now_
  | CClose => close
  | CRunMicrotask => run_microtask
  end.

(** ** Histories *)

Inductive event :=
  | Call {A : Type} (c : call A)
  | Sweep.

Definition reply : Type := {A : Type & result A}.
Definition answer {A : Type} (r : result A) : reply := existT A r.

(** What one event answers, and the state it leaves. *)
Definition step (now : num) (ev : event) (w : World) : list reply * World :=
  match ev with
  | @Call A c => let '(r, w') := exec c now w in ([answer r], w')
  | Sweep => ([], (sweep now w).2)
  end.

Fixpoint run (h : list (num * event)) (w : World) : list reply * World :=
  match h with
  | [] => ([], w)
  | (now, ev) :: h' =>
      let '(rs, w1) := step now ev w in
      let '(rs', w2) := run h' w1 in
      (rs ++ rs', w2)
  end.

(** The calls of a history, without its sweeps. *)
Definition is_call (x : num * event) : Prop :=
  match x.2 with Call _ => True | Sweep => False end.

#[export] Instance is_call_dec x : Decision (is_call x).
Proof. destruct x as [? [|]]; simpl; apply _. Defined.

Definition calls_of (h : list (num * event)) : list (num * event) := filter is_call h.

(** A history whose clock starts at [t0] and never runs backwards. *)
Fixpoint clocked (t0 : num) (h : list (num * event)) : Prop :=
  match h with
  | [] => True
  | (now, _) :: h' => (t0 <=? now)%num = true /\ clocked now h'
  end.
