(* ===== verification/Observe.v ===== *)
(** * What an observer of the store can tell apart

    Two states are the same to every call made from [now] on when each key
    holds the same live entry at every instant from then on.  Every operation
    of the backend respects that equivalence, so an entry that has expired and
    one that has been removed cannot be told apart, and neither can a backend
    that sweeps and one that does not. *)
From S2P Require Import Prelude JsNumber JsString Shared MemoryStore StoreFacts TokenBucket.
From S2P Require Import Concurrency MultiLimit Queue Freeze Backend.

(** ** The equivalence *)

(** Everything of the state but the store and the sweep timer. *)
Definition same_bus (w w' : World) : Prop :=
  epochs w = epochs w' /\ subscribed w = subscribed w' /\ busListening w = busListening w' /\
  microtasks w = microtasks w' /\ delivered w = delivered w'.

Definition same_view (now : num) (w w' : World) : Prop :=
  same_bus w w' /\
  forall t key, (now <=? t)%num = true -> live_at t w key = live_at t w' key.

#[export] Instance same_view_equiv now : Equivalence (same_view now).
Proof.
  split.
  - intros w. by repeat split.
  - intros w w' [(?&?&?&?&?) Hl]. repeat split; try done. intros. by rewrite Hl.
  - intros w1 w2 w3 [(?&?&?&?&?) Hl] [(?&?&?&?&?) Hl'].
    repeat split; try congruence. intros. by rewrite Hl, Hl'.
Qed.

Lemma leb_refl_of a b : (a <=? b)%num = true -> (a <=? a)%num = true.
Proof. destruct a as [|[]|a], b as [|[]|b]; simpl; try done; intros; by apply Z.leb_refl. Qed.

Lemma same_view_later now now' w w' :
  same_view now w w' -> (now <=? now')%num = true -> same_view now' w w'.
Proof.
  intros [Hb H] Hn. split; [done|]. intros t key Ht. apply H. by eapply leb_trans.
Qed.

(** What has expired stays expired. *)
Lemma expired_later now t e : (now <=? t)%num = true -> expired now e = true -> expired t e = true.
Proof.
  unfold expired. destruct (expiresAt e) as [x|]; [|done]. unfold geb. intros Ht Hx.
  by eapply leb_trans.
Qed.

Lemma live_at_later now t w key e :
  (now <=? t)%num = true -> live_at t w key = Some e -> live_at now w key = Some e.
Proof.
  unfold live_at. destruct (store w !! key) as [e'|]; [|done]. intros Ht.
  destruct (expired now e') eqn:E; [|by destruct (expired t e')].
  by rewrite (expired_later _ _ _ Ht E).
Qed.

Lemma live_at_dead_later now t w key :
  (now <=? t)%num = true -> live_at now w key = None -> live_at t w key = None.
Proof.
  intros Ht Hd. destruct (live_at t w key) as [e|] eqn:E; [|done].
  apply (live_at_later now) in E; [congruence|done].
Qed.

(** ** How each change to the store looks *)

Lemma live_at_store now w s key :
  live_at now (with_store s w) key
  = match s !! key with
    | Some e => if expired now e then None else Some e
    | None => None
    end.
Proof. done. Qed.

Lemma live_at_delete now w key key' :
  live_at now (with_store (delete key (store w)) w) key'
  = if decide (key' = key) then None else live_at now w key'.
Proof.
  rewrite live_at_store. case_decide; subst; [by rewrite lookup_delete_eq|].
  by rewrite lookup_delete_ne.
Qed.

Lemma live_at_insert now w key e key' :
  live_at now (with_store (<[key := e]> (store w)) w) key'
  = if decide (key' = key) then (if expired now e then None else Some e) else live_at now w key'.
Proof.
  rewrite live_at_store. case_decide; subst; [by rewrite lookup_insert_eq|].
  by rewrite lookup_insert_ne.
Qed.

Lemma live_at_alter now w key f key' :
  keeps_expiry f ->
  live_at now (with_store (alter f key (store w)) w) key'
  = if decide (key' = key) then f <$> live_at now w key' else live_at now w key'.
Proof.
  intros Hf. rewrite live_at_store. case_decide; subst.
  - rewrite lookup_alter_eq. unfold live_at. destruct (store w !! key) as [e|]; [|done].
    simpl. rewrite keeps_expiry_expired by done. by destruct (expired now e).
  - by rewrite lookup_alter_ne.
Qed.

Lemma purge_key_view now key w :
  same_view now (purge_key now key w) w.
Proof.
  split.
  - unfold purge_key. destruct (store w !! key) as [e|]; [|by repeat split].
    by destruct (expired now e); repeat split.
  - intros t key' Ht. unfold purge_key. destruct (store w !! key) as [e|] eqn:E; [|done].
    destruct (expired now e) eqn:Ee; [|done]. rewrite live_at_delete.
    case_decide; subst; [|done]. unfold live_at. by rewrite E, (expired_later _ _ _ Ht Ee).
Qed.

Lemma sweep_view now w : same_view now (sweep now w).2 w.
Proof.
  split; [by repeat split|]. intros t key Ht. unfold sweep. rewrite bind_run.
  simpl date_now. cbv iota beta. unfold modify_store, modify. simpl snd.
  rewrite live_at_store. unfold live_at. rewrite map_lookup_filter.
  destruct (store w !! key) as [e|]; [|done]. simpl.
  destruct (expired now e) eqn:E; [|by rewrite option_guard_True].
  rewrite option_guard_False by (simpl; congruence). by rewrite (expired_later _ _ _ Ht E).
Qed.

(** ** Computations that cannot tell *)

Definition respects {A} (m : M A) : Prop :=
  forall now w w', (now <=? now)%num = true -> same_view now w w' ->
    (m now w).1 = (m now w').1 /\ same_view now (m now w).2 (m now w').2.

Lemma respects_ret {A} (a : A) : respects (mret a : M A).
Proof. by intros now w w' _ H. Qed.

Lemma respects_throw {A} e : respects (throw e : M A).
Proof. by intros now w w' _ H. Qed.

Lemma respects_lift {A} (r : result A) : respects (lift r).
Proof. by intros now w w' _ H. Qed.

Lemma respects_date_now : respects date_now.
Proof. by intros now w w' _ H. Qed.

Lemma respects_bind {A B} (m : M A) (f : A -> M B) :
  respects m -> (forall a, respects (f a)) -> respects (m ≫= f).
Proof.
  intros Hm Hf now w w' Hn H. rewrite !bind_run. destruct (Hm now w w' Hn H) as [H1 H2].
  destruct (m now w) as [[a|e] w1], (m now w') as [[a'|e'] w1']; simpl in *; try done;
    injection H1 as <-; [by apply Hf|done].
Qed.

Lemma respects_mforeach {A} (l : list A) (f : A -> M unit) :
  (forall a, respects (f a)) -> respects (mforeach l f).
Proof.
  intros Hf. induction l; simpl; [apply respects_ret|by apply respects_bind].
Qed.

Lemma respects_mcollect {A B} (l : list A) (f : A -> M B) :
  (forall a, respects (f a)) -> respects (mcollect l f).
Proof.
  intros Hf. induction l; simpl; [apply respects_ret|].
  repeat (apply respects_bind; [done|intros ?]). apply respects_ret.
Qed.

Lemma respects_mfold {A B} (f : A -> B -> M A) (l : list B) :
  (forall a b, respects (f a b)) -> forall a, respects (mfold f a l).
Proof.
  intros Hf. induction l; intros a0; simpl; [apply respects_ret|].
  apply respects_bind; auto.
Qed.

Lemma respects_mwhen b (m : M unit) : respects m -> respects (mwhen b m).
Proof. intros. destruct b; [done|apply respects_ret]. Qed.

(** *** The primitives *)

Lemma respects_live key : respects (live key).
Proof.
  intros now w w' Hn H. rewrite !live_run. simpl. split.
  - f_equal. by apply H.
  - etransitivity; [apply purge_key_view|]. etransitivity; [exact H|].
    symmetry. apply purge_key_view.
Qed.

(** A change of the store that shows the same in every state. *)
Lemma respects_modify_store (f : gmap string Entry -> gmap string Entry) :
  (forall now w w', same_view now w w' ->
    forall t key, (now <=? t)%num = true ->
      live_at t (with_store (f (store w)) w) key
      = live_at t (with_store (f (store w')) w') key) ->
  respects (modify_store f).
Proof.
  intros Hf now w w' Hn H. split; [done|]. split; [by destruct H as [(?&?&?&?&?) _]|].
  intros t key Ht. by apply (Hf now).
Qed.

Lemma respects_store_delete key : respects (store_delete key).
Proof.
  apply respects_modify_store. intros now w w' [_ H] t key' Ht.
  rewrite !live_at_delete. case_decide; [done|by apply H].
Qed.

Lemma respects_put key e : respects (put key e).
Proof.
  apply respects_bind.
  - intros now w w' _ H. split; [done|]. destruct H as [(?&?&?&?&?) H]. repeat split; done.
  - intros _. apply respects_modify_store. intros now w w' [_ H] t key' Ht.
    rewrite !live_at_insert. case_decide; [done|by apply H].
Qed.

Lemma respects_update_entry key f : keeps_expiry f -> respects (update_entry key f).
Proof.
  intros Hf. apply respects_modify_store. intros now w w' [_ H] t key' Ht.
  rewrite !live_at_alter by done. case_decide; rewrite (H t key') by done; done.
Qed.

Lemma keeps_with_hash h : keeps_expiry (with_hash h).
Proof. done. Qed.
Lemma keeps_with_zset z : keeps_expiry (with_zset z).
Proof. done. Qed.
Lemma keeps_with_set s : keeps_expiry (with_set s).
Proof. done. Qed.
#[export] Hint Resolve keeps_with_hash keeps_with_zset keeps_with_set : store.

Lemma dropIfEmpty_view now key w w' :
  (now <=? now)%num = true -> same_view now w w' ->
  same_view now (dropIfEmpty key now w).2
    (match live_at now w' key with
     | Some e => if decide (entry_size e = Some 0%nat)
                 then with_store (delete key (store w')) w' else w'
     | None => w'
     end).
Proof.
  intros Hn H. rewrite dropIfEmpty_run. simpl snd.
  pose proof H as Hv. destruct H as [Hb H]. rewrite <- H by done. unfold live_at.
  destruct (store w !! key) as [e|] eqn:E; [|exact Hv].
  destruct (expired now e) eqn:Ee.
  - case_decide; [|exact Hv].
    split; [by destruct Hb as (?&?&?&?&?)|]. intros t key' Ht. rewrite live_at_delete.
    case_decide as Hk; [|by apply H]. subst key'. rewrite <- H by done. unfold live_at.
    by rewrite E, (expired_later _ _ _ Ht Ee).
  - case_decide; [|exact Hv].
    split; [by destruct Hb as (?&?&?&?&?)|]. intros t key' Ht. rewrite !live_at_delete.
    case_decide; auto.
Qed.

Lemma respects_dropIfEmpty key : respects (dropIfEmpty key).
Proof.
  intros now w w' Hn H. split.
  - by rewrite !dropIfEmpty_run.
  - etransitivity; [by eapply dropIfEmpty_view|]. symmetry.
    by apply dropIfEmpty_view.
Qed.

Lemma respects_expire key ttl : respects (expire key ttl).
Proof.
  intros now w w' Hn H. unfold expire.
  destruct (normalizeTtlSeconds ttl) as [x|e]; [|done].
  rewrite !lift_run, !live_bind.
  assert (same_view now (purge_key now key w) (purge_key now key w')) as Hp.
  { rewrite !purge_key_view. exact H. }
  destruct H as [Hb H]. rewrite <- (H now key) by done.
  destruct (live_at now w key) as [e|] eqn:E; [|done].
  destruct (x <=? int 0)%num; [by apply respects_store_delete|].
  rewrite !date_now_run.
  split; [done|]. unfold update_entry, modify_store, modify. simpl snd.
  split; [by destruct Hp as [(?&?&?&?&?) _]|]. intros t key' Ht.
  rewrite !live_at_store. destruct (decide (key' = key)) as [->|Hk].
  - rewrite !lookup_alter_eq, !purge_key_store, <- (H now key), E by done. done.
  - rewrite !lookup_alter_ne by done. exact (proj2 Hp t key' Ht).
Qed.

(** A change that leaves the store alone and is the same on both sides. *)
Lemma respects_next_epoch : respects next_epoch.
Proof.
  intros now w w' _ [(He&?&?&?&?) Hl]. unfold next_epoch. cbn [fst snd]. rewrite He.
  repeat split; done.
Qed.

Lemma respects_bus (f : World -> World) :
  (forall w, store (f w) = store w) ->
  (forall w w', same_bus w w' -> same_bus (f w) (f w')) -> respects (modify f).
Proof.
  intros Hs Hf now w w' _ [Hb H]. split; [done|]. split; [by apply Hf|].
  intros t key Ht. unfold modify. simpl snd. unfold live_at. rewrite !Hs. by apply H.
Qed.

(** Proves [respects] of a computation built from those above: one rule per
    construct of the operation monad. *)
Ltac respects_step :=
  match goal with
  | |- respects (_ ≫= _) => apply respects_bind; [|intros ?]
  | |- respects (mret _) => apply respects_ret
  | |- respects (throw _) => apply respects_throw
  | |- respects (lift _) => apply respects_lift
  | |- respects date_now => apply respects_date_now
  | |- respects (live _) => apply respects_live
  | |- respects (put _ _) => apply respects_put
  | |- respects (store_delete _) => apply respects_store_delete
  | |- respects (update_entry _ _) => apply respects_update_entry; auto with store
  | |- respects (dropIfEmpty _) => apply respects_dropIfEmpty
  | |- respects (expire _ _) => apply respects_expire
  | |- respects next_epoch => apply respects_next_epoch
  | |- respects (mforeach _ _) => apply respects_mforeach; intros ?
  | |- respects (mcollect _ _) => apply respects_mcollect; intros ?
  | |- respects (mfold _ _ _) => apply respects_mfold; intros ? ?
  | |- respects (mwhen _ _) => apply respects_mwhen
  | |- respects (if ?b then _ else _) => destruct b
  | |- respects (match ?x with _ => _ end) => destruct x
  | |- respects (let x := _ in _) => cbv zeta
  | |- forall _, _ => intros ?
  | |- respects _ => solve [auto with respects]
  end.

Ltac solve_respects := repeat respects_step.

Create HintDb respects.

Lemma respects_collections key :
  respects (entry key) /\ respects (hash key) /\ respects (zset key) /\ respects (setOf key).
Proof. split_and!; unfold hash, zset, setOf, entry; solve_respects. Qed.
Lemma respects_hash key : respects (hash key).
Proof. apply respects_collections. Qed.
Lemma respects_zset key : respects (zset key).
Proof. apply respects_collections. Qed.
Lemma respects_setOf key : respects (setOf key).
Proof. apply respects_collections. Qed.
#[export] Hint Resolve respects_hash respects_zset respects_setOf : respects.

(** *** The operations *)

Lemma respects_live_parts key :
  respects (live_hash key) /\ respects (live_zset key) /\ respects (live_set key) /\
  respects (live_str key).
Proof.
  split_and!; unfold live_hash, live_zset, live_set, live_str; solve_respects.
Qed.
Lemma respects_live_hash key : respects (live_hash key).
Proof. apply respects_live_parts. Qed.
Lemma respects_live_zset key : respects (live_zset key).
Proof. apply respects_live_parts. Qed.
Lemma respects_live_set key : respects (live_set key).
Proof. apply respects_live_parts. Qed.
Lemma respects_live_str key : respects (live_str key).
Proof. apply respects_live_parts. Qed.
#[export] Hint Resolve respects_live_hash respects_live_zset respects_live_set
  respects_live_str : respects.

Lemma respects_hget key field : respects (hget key field).
Proof. unfold hget; solve_respects. Qed.
Lemma respects_sorted key : respects (MemoryStore.sorted key).
Proof. unfold MemoryStore.sorted; solve_respects. Qed.
Lemma respects_hash_set key field value : respects (hash_set key field value).
Proof. unfold hash_set; solve_respects. Qed.
Lemma respects_hash_delete key field : respects (hash_delete key field).
Proof. unfold hash_delete; solve_respects. Qed.
Lemma respects_zset_set key member score : respects (zset_set key member score).
Proof. unfold zset_set; solve_respects. Qed.
Lemma respects_zset_delete key member : respects (zset_delete key member).
Proof. unfold zset_delete; solve_respects. Qed.
Lemma respects_set_add key member : respects (set_add key member).
Proof. unfold set_add; solve_respects. Qed.
Lemma respects_set_delete key member : respects (set_delete key member).
Proof. unfold set_delete; solve_respects. Qed.
#[export] Hint Resolve respects_hget respects_sorted respects_hash_set respects_hash_delete
  respects_zset_set respects_zset_delete respects_set_add respects_set_delete : respects.

Lemma respects_hgetall key : respects (hgetall key).
Proof. unfold hgetall; solve_respects. Qed.
Lemma respects_removeMember key member : respects (removeMember key member).
Proof. unfold removeMember; solve_respects. Qed.
Lemma respects_optional_ttl t : respects (optional_ttl t).
Proof. unfold optional_ttl; solve_respects. Qed.
#[export] Hint Resolve respects_hgetall respects_removeMember respects_optional_ttl : respects.
Lemma respects_writeString key value t : respects (writeString key value t).
Proof. unfold writeString; solve_respects. Qed.
Lemma respects_writeHash key fields t : respects (writeHash key fields t).
Proof. unfold writeHash; solve_respects. Qed.
Lemma respects_sadd key member : respects (sadd key member).
Proof. unfold sadd; solve_respects. Qed.

(** The bus: the same messages and handlers on both sides. *)
Ltac respects_bus_by d :=
  unfold d; apply respects_bus;
  [intros w | intros w w' (He & Hs & Hl & Hm & Hd); unfold same_bus; simpl;
              rewrite ?He, ?Hs, ?Hl, ?Hm, ?Hd; done].

Lemma respects_emit channel message : respects (emit channel message).
Proof. respects_bus_by emit. done. Qed.
Lemma respects_subscribe channels h : respects (subscribe channels h).
Proof. respects_bus_by subscribe. done. Qed.
Lemma respects_close : respects close.
Proof. respects_bus_by close. done. Qed.
Lemma respects_run_microtask : respects run_microtask.
Proof.
  apply respects_bus.
  - intros w. by destruct (microtasks w) as [|[c m] q].
  - intros w w' (He & Hs & Hl & Hm & Hd). rewrite Hm, Hs, Hl, Hd.
    unfold same_bus. destruct (microtasks w') as [|[c m] q] eqn:E; simpl; split_and!; congruence.
Qed.
#[export] Hint Resolve respects_writeString respects_writeHash respects_sadd respects_emit
  respects_subscribe respects_close respects_run_microtask : respects.

Lemma respects_run_op op : respects (run_op op).
Proof. destruct op; simpl; solve_respects. Qed.
#[export] Hint Resolve respects_run_op : respects.

Lemma respects_claimMark mark : respects (claimMark mark).
Proof. unfold claimMark; solve_respects. Qed.
Lemma respects_freezeBlocksAdmission key now : respects (freezeBlocksAdmission key now).
Proof. unfold freezeBlocksAdmission; solve_respects. Qed.
Lemma respects_freezeEmptiedBucket key now : respects (freezeEmptiedBucket key now).
Proof. unfold freezeEmptiedBucket; solve_respects. Qed.
Lemma respects_refill key config now : respects (refill key config now).
Proof. unfold refill; solve_respects. Qed.
Lemma respects_writeBucket key s t config : respects (writeBucket key s t config).
Proof. unfold writeBucket; solve_respects. Qed.
Lemma respects_write_mark_opt key mark cost s : respects (write_mark_opt key mark cost s).
Proof. unfold write_mark_opt, writeMark; solve_respects. Qed.
Lemma respects_bumpGeneration key : respects (bumpGeneration key).
Proof. unfold bumpGeneration; solve_respects. Qed.
#[export] Hint Resolve respects_claimMark respects_freezeBlocksAdmission
  respects_freezeEmptiedBucket respects_refill respects_writeBucket respects_write_mark_opt
  respects_bumpGeneration : respects.

Lemma respects_creditTokens key cost max fk : respects (creditTokens key cost max fk).
Proof. unfold creditTokens; solve_respects. Qed.
Lemma respects_reapConcurrency key t : respects (reapConcurrency key t).
Proof. unfold reapConcurrency; solve_respects. Qed.
Lemma respects_concurrencyCost key id : respects (concurrencyCost key id).
Proof. unfold concurrencyCost; solve_respects. Qed.
Lemma respects_claimSlot key id cost now ttl : respects (claimSlot key id cost now ttl).
Proof. unfold claimSlot; solve_respects. Qed.
Lemma respects_releaseSlot key id : respects (releaseSlot key id).
Proof. unfold releaseSlot; solve_respects. Qed.
#[export] Hint Resolve respects_creditTokens respects_reapConcurrency respects_concurrencyCost
  respects_claimSlot respects_releaseSlot : respects.

Lemma respects_acquireConcurrency key cost id config :
  respects (acquireConcurrency key cost id config).
Proof. unfold acquireConcurrency; solve_respects. Qed.
Lemma respects_claimMarks specs : respects (claimMarks specs).
Proof. unfold claimMarks, claimMarks_one; solve_respects. Qed.
Lemma respects_planMultiLimit specs now : respects (planMultiLimit specs now).
Proof.
  unfold planMultiLimit. generalize empty_plan. induction specs; intros p; simpl;
    [solve_respects|]. unfold plan_step. solve_respects; auto.
Qed.
Lemma respects_any_freeze_blocks keys now : respects (any_freeze_blocks keys now).
Proof. induction keys; simpl; solve_respects; auto. Qed.
Lemma respects_commit_plan p now ttl : respects (commit_plan p now ttl).
Proof. unfold commit_plan, commitBucket; solve_respects. Qed.
Lemma respects_persistRefills p ttl : respects (persistRefills p ttl).
Proof. unfold persistRefills; solve_respects. Qed.
#[export] Hint Resolve respects_acquireConcurrency respects_claimMarks respects_planMultiLimit
  respects_any_freeze_blocks respects_commit_plan respects_persistRefills : respects.

Lemma respects_next_in ids p skip skipIds now : respects (next_in ids p skip skipIds now).
Proof. induction ids; simpl; solve_respects; auto. Qed.
Lemma respects_set_opt key field v : respects (set_opt key field v).
Proof. unfold set_opt; solve_respects. Qed.
Lemma respects_drop_member key id : respects (drop_member key id).
Proof. unfold drop_member; solve_respects. Qed.
Lemma respects_writeFreezeState key until count mode empties :
  respects (writeFreezeState key until count mode empties).
Proof. unfold writeFreezeState, merged_freeze; solve_respects. Qed.
Lemma respects_readFreezeState key now : respects (readFreezeState key now).
Proof. unfold readFreezeState; solve_respects. Qed.
Lemma respects_any_competing ids p except g any now :
  respects (any_competing ids p except g any now).
Proof. induction ids; simpl; unfold isCompetingProbe; solve_respects; auto. Qed.
#[export] Hint Resolve respects_next_in respects_set_opt respects_drop_member
  respects_writeFreezeState respects_readFreezeState respects_any_competing : respects.

(** Every call answers the same, and leaves what looks the same. *)
Lemma respects_exec {A} (c : call A) : respects (exec c).
Proof.
  destruct c; cbn [exec]; try solve [auto with respects];
    unfold MemoryStore.get, del, hgetall, smembers, batch, acquireLock, releaseLock,
      acquireTokens, getTokenBucketState, resetTokenBucket, emptyTokenBucket,
      settleTokens, settle_one, tryAdmitImmediately, tryAdmitNoLimit,
      acquireMultiLimit, releaseMultiLimit, release_one, tryAdmitMultiLimit,
      acquireQueuedConcurrency, tryAdmitConcurrency, touchConcurrency, touchClaimMark,
      getConcurrencyState, clearConcurrency, addRequest, getQueueLength,
      getNextRequest, confirmRequest, getRequest, updateRequest, removeRequest,
      getQueueStats, stats_step, getAllRequests, cleanupOrphanedRequests, cleanup_step,
      setFreezeState, armFreeze, getFreezeState, updateThawProgress, clearFreezeState,
      isFrozen, canProcessRequest, hasThawRequestInProgress, tryStartThawRequest,
      cleanupStaleFrozenGrants, probing_step, stale_step, getInstances, now_;
    solve_respects.
Qed.

(** ** Histories that differ by what has expired *)

#[export] Instance sweep_proper now : Proper (same_view now ==> same_view now)
  (fun w => (sweep now w).2).
Proof. intros w w' H. by rewrite !sweep_view. Qed.

Lemma run_respects h : forall t0 w w',
  (t0 <=? t0)%num = true -> same_view t0 w w' -> clocked t0 h ->
  (run h w).1 = (run (calls_of h) w').1.
Proof.
  induction h as [|[now ev] h IH]; intros t0 w w' H0 Hv Hc; [done|].
  destruct Hc as [Hn Hc]. pose proof (same_view_later _ _ _ _ Hv Hn) as Hv'.
  assert ((now <=? now)%num = true) as Hnn.
  { destruct now as [|[]|m]; [by destruct t0 as [|[]|?]|done|done|]. unfold leb. apply Z.leb_refl. }
  unfold calls_of. destruct ev as [A c|].
  - rewrite filter_cons_True by done. cbn [run step]. fold (calls_of h).
    destruct (respects_exec c now w w' Hnn Hv') as [Hr Hs].
    destruct (exec c now w) as [r w1], (exec c now w') as [r' w1']. cbn [fst snd] in Hr, Hs.
    specialize (IH now w1 w1' Hnn Hs Hc). subst r'.
    destruct (run h w1), (run (calls_of h) w1'). simpl in *. by rewrite IH.
  - rewrite filter_cons_False by (simpl; tauto). cbn [run step]. fold (calls_of h).
    specialize (IH now (sweep now w).2 w' Hnn). destruct (run h (sweep now w).2). cbn [fst app] in *.
    apply IH; [|done]. by rewrite sweep_view.
Qed.

(** C3.  Expiry is lazy and nobody can tell: in a history whose clock never
    runs backwards, every call answers what it would have answered if the
    periodic sweep had never run.  An expired key that is still in the map, one
    a read dropped and one the sweep dropped are the same to every
    operation of the backend. *)
Theorem sweep_unobservable (t0 : num) (h : list (num * event)) (w : World) :
  (t0 <=? t0)%num = true -> clocked t0 h -> (run h w).1 = (run (calls_of h) w).1.
Proof. intros H0 Hc. by eapply run_respects. Qed.

(** A key set for one second, swept after two, read before and after. *)
Definition demo_history : list (num * event) :=
  [(int 0, Call (CSet "k" "v" (Some (int 1)))); (int 500, Sweep); (int 500, Call (CGet "k"));
   (int 2000, Sweep); (int 2000, Call (CGet "k"))].

Lemma sweep_unobservable_witness :
  (run demo_history MemoryBackend).1
  = [answer (Ok tt); answer (Ok (Some "v")); answer (Ok (None : option string))].
Proof.
  rewrite (sweep_unobservable (int 0) demo_history MemoryBackend);
    [vm_compute; reflexivity|vm_compute; reflexivity|].
  vm_compute. repeat split.
Defined.
