(* ===== verification/StoreProps.v ===== *)
(** * What the store promises

    Batches apply whole or not at all, and a lock has one holder at a time. *)
From S2P Require Import Prelude JsNumber JsString Shared MemoryStore StoreFacts TokenBucket.
From S2P Require Import Concurrency MultiLimit Queue Freeze Backend Observe.

(** ** Batches *)

(** The error an operation's TTL is refused with. *)
Definition ttl_error (op : BatchOp) : option js_error :=
  match batch_ttl op with
  | Some t => match normalizeTtlSeconds t with Throw e => Some e | Ok _ => None end
  | None => None
  end.

(** The first error among [ops]. *)
Fixpoint first_error (ops : list BatchOp) : option js_error :=
  match ops with
  | [] => None
  | op :: ops' => match ttl_error op with Some e => Some e | None => first_error ops' end
  end.

Lemma expire_ok key t ttl now w :
  normalizeTtlSeconds t = Ok ttl -> (expire key t now w).1 = Ok tt.
Proof.
  intros Ht. unfold expire. rewrite Ht, lift_run, live_bind.
  destruct (live_at now w key); [|done]. by destruct (ttl <=? int 0)%num.
Qed.

Lemma optional_ttl_run t now w :
  optional_ttl t now w
  = (match t with
     | None => Ok None
     | Some t => match normalizeTtlSeconds t with Ok x => Ok (Some x) | Throw e => Throw e end
     end, w).
Proof. destruct t as [t|]; [|done]. simpl. rewrite bind_run. unfold lift. by destruct (normalizeTtlSeconds t). Qed.

Lemma mforeach_hash_set key fields now w :
  (mforeach fields (fun fv => hash_set key fv.1 (field_string fv.2)) now w).1 = Ok tt.
Proof.
  revert w. induction fields as [|fv fields IH]; intros w; [done|]. simpl. rewrite bind_run. apply IH.
Qed.

Lemma bind_fst_ok {A B} (m : M A) (f : A -> M B) now w a :
  (m now w).1 = Ok a -> (m ≫= f) now w = f a now (m now w).2.
Proof. rewrite bind_run. destruct (m now w) as [[]]; simpl; [|done]. by intros [= ->]. Qed.

Lemma writeHash_ok key fields t now w :
  (exists ttl, optional_ttl t now w = (Ok ttl, w)) -> (writeHash key fields t now w).1 = Ok tt.
Proof.
  intros [ttl Ht]. unfold writeHash. rewrite (bind_ok _ _ _ _ _ _ Ht).
  rewrite (bind_fst_ok _ _ _ _ tt).
  - destruct ttl as [ttl|]; [|done]. rewrite optional_ttl_run in Ht.
    destruct t as [t|]; [|done]. destruct (normalizeTtlSeconds t) eqn:E; [|done].
    injection Ht as ->. eapply expire_ok. by eapply normalizeTtl_idem.
  - destruct fields as [|fv fields]; [done|]. mstep. apply mforeach_hash_set.
Qed.

Lemma removeMember_ok key member now w : (removeMember key member now w).1 = Ok tt.
Proof.
  unfold removeMember. mstep. destruct (set_at now w key); [|done].
  rewrite bind_run. unfold set_delete, update_entry, modify_store, modify. by rewrite dropIfEmpty_run.
Qed.

Lemma run_op_ok op now w : ttl_error op = None -> (run_op op now w).1 = Ok tt.
Proof.
  unfold ttl_error. destruct op as [key value t|key|key t|key member|key member|key fields t|c m];
    simpl; intros Ht; try done.
  - unfold writeString. rewrite bind_run, optional_ttl_run. destruct t as [t|]; [|done].
    destruct (normalizeTtlSeconds t) as [x|]; [|done]. by destruct (x <=? int 0)%num.
  - destruct (normalizeTtlSeconds t) eqn:E; [|done]. by eapply expire_ok.
  - unfold sadd. by mstep.
  - apply removeMember_ok.
  - apply writeHash_ok. rewrite optional_ttl_run.
    destruct t as [t|]; [destruct (normalizeTtlSeconds t); [|done]|]; eauto.
Qed.

Lemma batch_check ops now w :
  mforeach ops (fun op => optional_ttl (batch_ttl op) ;; mret tt) now w
  = (match first_error ops with Some e => Throw e | None => Ok tt end, w).
Proof.
  induction ops as [|op ops IH]; [done|]. simpl. rewrite !bind_run, optional_ttl_run.
  unfold ttl_error. destruct (batch_ttl op) as [t|]; [|exact IH].
  by destruct (normalizeTtlSeconds t).
Qed.

Lemma batch_writes ops now w :
  first_error ops = None ->
  mforeach ops run_op now w = (Ok tt, fold_left (fun w op => (run_op op now w).2) ops w).
Proof.
  revert w. induction ops as [|op ops IH]; intros w; [done|]. simpl.
  destruct (ttl_error op) eqn:E; [done|]. intros He.
  rewrite (bind_fst_ok _ _ _ _ tt) by by apply run_op_ok. by apply IH.
Qed.

(** A batch is all or nothing: if any operation's TTL is one the backend
    cannot store, the batch throws the first such error and the state is
    untouched, wherever in the batch the operation stands; otherwise it
    returns, and every operation has been applied, in order. *)
Theorem batch_atomic (ops : list BatchOp) (now : num) (w : World) :
  batch ops now w
  = match first_error ops with
    | Some e => (Throw e, w)
    | None => (Ok tt, fold_left (fun w op => (run_op op now w).2) ops w)
    end.
Proof.
  unfold batch. rewrite bind_run, batch_check.
  destruct (first_error ops) eqn:E; [done|]. by rewrite batch_writes.
Qed.

(** ** Locks *)

Inductive lock_op :=
  | LAcquire (key token : string) (ttlMs : num)
  | LRelease (key token : string).

Definition lock_exec (op : lock_op) : M bool :=
  match op with
  | LAcquire key token ttl => acquireLock key token ttl
  | LRelease key token => releaseLock key token
  end.

(** Lock operations in order, with what each answered. *)
Fixpoint lock_run (h : list (num * lock_op)) (w : World)
    : list (num * lock_op * result bool) * World :=
  match h with
  | [] => ([], w)
  | (now, op) :: h' =>
      let '(r, w1) := lock_exec op now w in
      let '(rs, w2) := lock_run h' w1 in
      ((now, op, r) :: rs, w2)
  end.

Fixpoint lock_clocked (t0 : num) (h : list (num * lock_op)) : Prop :=
  match h with
  | [] => True
  | (now, _) :: h' => (t0 <=? now)%num = true /\ lock_clocked now h'
  end.

(** The last instant of a history. *)
Fixpoint lock_last (t0 : num) (h : list (num * lock_op)) : num :=
  match h with [] => t0 | (now, _) :: h' => lock_last now h' end.

Lemma acquireLock_run key token ttl now w :
  acquireLock key token ttl now w
  = if negb (isFinite ttl) || (ttl <=? int 0)%num then
      (Throw (RangeError ("ttlMs must be a finite number greater than 0, received "
                          +:+ num_to_string ttl)), w)
    else match live_at now w key with
    | Some _ => (Ok false, purge_key now key w)
    | None =>
        (Ok true, with_sweeper true (with_store
           (<[key := string_entry token (Some (now + ttl)%num)]>
            (store (purge_key now key w))) (purge_key now key w)))
    end.
Proof.
  unfold acquireLock. destruct (negb (isFinite ttl) || (ttl <=? int 0)%num); [done|].
  rewrite live_bind. by destruct (live_at now w key).
Qed.

Lemma releaseLock_run key token now w :
  releaseLock key token now w
  = if decide (str_at now w key = Some token)
    then (Ok true, with_store (delete key (store (purge_key now key w))) (purge_key now key w))
    else (Ok false, purge_key now key w).
Proof. unfold releaseLock. mstep. by case_decide. Qed.

(** A lock operation leaves another key's entry alone. *)
Lemma lock_exec_other op key now w :
  match op with LAcquire k _ _ | LRelease k _ => k <> key end ->
  store (lock_exec op now w).2 !! key = store w !! key.
Proof.
  destruct op as [k token ttl|k token]; simpl; intros Hk.
  - rewrite acquireLock_run. destruct (negb _ || _); [done|].
    destruct (live_at now w k); simpl; rewrite ?lookup_insert_ne by done;
      by rewrite purge_key_store_ne.
  - rewrite releaseLock_run. case_decide; simpl; rewrite ?lookup_delete_ne by done;
      by rewrite purge_key_store_ne.
Qed.

(** While the lock stands unexpired only its token's release changes it. *)
Lemma lock_held_step op key token x now w :
  store w !! key = Some (string_entry token (Some x)) -> (x <=? now)%num = false ->
  (store (lock_exec op now w).2 !! key = Some (string_entry token (Some x)) /\
   (forall k b ttl, op = LAcquire k b ttl -> k = key -> (lock_exec op now w).1 <> Ok true)) \/
  (op = LRelease key token /\ (lock_exec op now w).1 = Ok true).
Proof.
  intros Hs Hx.
  assert (live_at now w key = Some (string_entry token (Some x))) as Hl
    by (unfold live_at; rewrite Hs; unfold expired, geb; simpl; by rewrite Hx).
  assert (purge_key now key w = w) as Hp
    by (unfold purge_key; rewrite Hs; unfold expired, geb; simpl; by rewrite Hx).
  destruct op as [k b ttl|k b].
  - left. destruct (decide (k = key)) as [->|Hk].
    + simpl. rewrite acquireLock_run. destruct (negb _ || _); [|rewrite Hl, Hp];
        (split; [done|]); by intros.
    + split; [rewrite lock_exec_other by done; done|]. intros ? ? ? [= -> -> ->] ?. done.
  - destruct (decide (k = key)) as [->|Hk].
    + simpl. rewrite releaseLock_run, Hp. case_decide as Ht; [right|left; split; done].
      unfold str_at in Ht. rewrite Hl in Ht. simpl in Ht. injection Ht as ->. done.
    + left. split; [rewrite lock_exec_other by done; done|]. by intros.
Qed.

Lemma leb_total_of a b : (a <=? a)%num = true -> (b <=? b)%num = true ->
  (a <=? b)%num = false -> (b <=? a)%num = true.
Proof.
  unfold leb. destruct a as [|[]|a], b as [|[]|b]; try done.
  rewrite !Z.leb_gt, Z.leb_le. lia.
Qed.

Lemma lock_clocked_last t0 h : (t0 <=? t0)%num = true -> lock_clocked t0 h ->
  (t0 <=? lock_last t0 h)%num = true.
Proof.
  revert t0. induction h as [|[now op] h IH]; intros t0 H0; [done|]. intros [Hn Hc]. simpl.
  eapply leb_trans; [exact Hn|]. apply IH; [|done].
  destruct now as [|[]|m]; [by destruct t0 as [|[]|?]|done|done|]. unfold leb. apply Z.leb_refl.
Qed.

Lemma lock_held_run h : forall t0 key token x w,
  (t0 <=? t0)%num = true -> lock_clocked t0 h ->
  store w !! key = Some (string_entry token (Some x)) ->
  (x <=? lock_last t0 h)%num = true \/
  (exists t, (t, LRelease key token, Ok true) ∈ (lock_run h w).1) \/
  store (lock_run h w).2 !! key = Some (string_entry token (Some x)).
Proof.
  induction h as [|[now op] h IH]; intros t0 key token x w H0 Hc Hs; [by right; right|].
  destruct Hc as [Hn Hc].
  assert ((now <=? now)%num = true) as Hnn.
  { destruct now as [|[]|m]; [by destruct t0 as [|[]|?]|done|done|]. unfold leb. apply Z.leb_refl. }
  destruct (x <=? now)%num eqn:Hx.
  { left. simpl. eapply leb_trans; [exact Hx|]. by apply lock_clocked_last. }
  cbn [lock_run lock_last].
  destruct (lock_held_step op key token x now w Hs Hx) as [[Hs' _]|[-> Hr]];
    destruct (lock_exec _ now w) as [r w1]; simpl in *;
    destruct (lock_run h w1) as [rs w2] eqn:E.
  - destruct (IH now key token x w1 Hnn Hc Hs') as [H|[[t H]|H]];
      rewrite ?E in H; simpl in *; [by left|right; left|by right; right].
    exists t. by right.
  - subst r. right; left. exists now. by left.
Qed.

(** C5.  Mutual exclusion: once a lock has been granted to [token] at [t1] for
    [ttlMs], no later attempt on that key is granted, whatever lock operations
    anyone runs in between, until [t1 + ttlMs] has passed or [token] itself
    released the lock. *)
Theorem lock_exclusive (key token : string) (ttlMs t1 : num) (w w1 : World)
    (h : list (num * lock_op)) (t2 : num) (token2 : string) (ttl2 : num) :
  (t1 <=? t1)%num = true ->
  acquireLock key token ttlMs t1 w = (Ok true, w1) ->
  lock_clocked t1 h -> (lock_last t1 h <=? t2)%num = true ->
  (acquireLock key token2 ttl2 t2 (lock_run h w1).2).1 = Ok true ->
  (t1 + ttlMs <=? t2)%num = true \/
  exists t, (t, LRelease key token, Ok true) ∈ (lock_run h w1).1.
Proof.
  intros H1 Ha Hc H2 Hg.
  assert (store w1 !! key = Some (string_entry token (Some (t1 + ttlMs)%num))) as Hs.
  { rewrite acquireLock_run in Ha. destruct (negb _ || _); [done|].
    destruct (live_at t1 w key); [done|]. injection Ha as <-. simpl. by rewrite lookup_insert_eq. }
  destruct (lock_held_run h t1 key token _ w1 H1 Hc Hs) as [H|[H|H]]; [|by right|].
  { left. by eapply leb_trans. }
  left. destruct (t1 + ttlMs <=? t2)%num eqn:Hx; [done|].
  destruct (lock_held_step (LAcquire key token2 ttl2) key token _ t2 _ H Hx) as [[_ Hn]|[? _]];
    [|done]. by destruct (Hn _ _ _ eq_refl eq_refl).
Qed.

Lemma lock_exclusive_witness :
  let w1 := (acquireLock "l" "a" (int 1000) (int 0) MemoryBackend).2 in
  let h := [(int 10, LAcquire "l" "b" (int 5000)); (int 20, LRelease "l" "b")] in
  (acquireLock "l" "c" (int 1000) (int 1000) (lock_run h w1).2).1 = Ok true /\
  ((int 0 + int 1000 <=? int 1000)%num = true \/
   exists t, (t, LRelease "l" "a", Ok true) ∈ (lock_run h w1).1).
Proof.
  intros w1 h. split; [vm_compute; reflexivity|].
  apply (lock_exclusive "l" "a" (int 1000) (int 0) MemoryBackend w1 h (int 1000) "c" (int 1000));
    vm_compute; auto.
Defined.
