(* ===== verification/SharedProps.v ===== *)
(** * What the shared arithmetic promises

    The order of queue scores, the round trip of stored numbers, and what a
    settlement may do to a balance. *)
From S2P Require Import Prelude JsNumber JsString Shared SharedFacts MemoryStore TokenBucket Queue.
Local Open Scope Z_scope.

(** ** Queue scores *)

(** An integer timestamp the score layout covers. *)
Definition in_epoch (ts : Z) : Prop := epoch_ms <= ts < epoch_ms + 10 ^ 12.

(** Which of two requests is served first: higher priority, then more retries,
    then earlier arrival, priority and retries clamped to their bands. *)
Definition served_before (p1 r1 t1 p2 r2 t2 : Z) : Prop :=
  let q1 := clamp 0 10 p1 in let q2 := clamp 0 10 p2 in
  let s1 := clamp 0 100 r1 in let s2 := clamp 0 100 r2 in
  q2 < q1 \/ q1 = q2 /\ (s2 < s1 \/ s1 = s2 /\ t1 < t2).

Lemma scoreZ_order p1 r1 a1 p2 r2 a2 :
  0 <= a1 < 10 ^ 12 -> 0 <= a2 < 10 ^ 12 ->
  scoreZ p1 r1 a1 < scoreZ p2 r2 a2 <-> served_before p1 r1 a1 p2 r2 a2.
Proof. unfold scoreZ, served_before, clamp. lia. Qed.

(** C8.  The score orders the queue: for integer requests within the epoch,
    both scores exist, and one is below the other exactly when its request has
    the higher priority, or the same and more retries, or the same of both and
    the earlier arrival. *)
Theorem queue_score_order (p1 r1 t1 p2 r2 t2 : Z) :
  in_epoch t1 -> in_epoch t2 ->
  exists s1 s2, calculateQueueScore (int p1) (int r1) (int t1) = Ok s1 /\
    calculateQueueScore (int p2) (int r2) (int t2) = Ok s2 /\
    ((s1 <? s2)%num = true <-> served_before p1 r1 t1 p2 r2 t2).
Proof.
  unfold in_epoch, epoch_ms. intros H1 H2.
  rewrite !calculateQueueScore_int by (unfold epoch_ms; lia). do 2 eexists.
  split; [done|]. split; [done|]. rewrite ltb_int, Z.ltb_lt.
  rewrite scoreZ_order by (unfold epoch_ms; lia). unfold served_before. lia.
Qed.

Lemma queue_score_order_witness :
  exists s1 s2, calculateQueueScore (int 3) (int 1) (int (epoch_ms + 9)) = Ok s1 /\
    calculateQueueScore (int 3) (int 0) (int (epoch_ms + 2)) = Ok s2 /\
    ((s1 <? s2)%num = true <-> served_before 3 1 (epoch_ms + 9) 3 0 (epoch_ms + 2)).
Proof.
  apply (queue_score_order 3 1 (epoch_ms + 9) 3 0 (epoch_ms + 2)); unfold in_epoch, epoch_ms; lia.
Defined.

(** A re-score never moves an entry out of place: the score
    [updateRequest] computes for an entry's stored fields is the score
    [addRequest] computed, for every integer request within the epoch. *)
Theorem rescore_agrees (p r ts : Z) :
  in_epoch ts ->
  calculateQueueScore (int p) (int r) (int ts) = Ok (rescore (int p) (int r) (int ts)).
Proof.
  unfold in_epoch, epoch_ms. intros Ht.
  rewrite calculateQueueScore_int by (unfold epoch_ms; lia). unfold rescore. f_equal.
  unfold QUEUE_SCORE_EPOCH_MS. fold epoch_ms. rewrite sub_int by (unfold safe, epoch_ms; lia).
  unfold QUEUE_RETRY_BAND at 2. rewrite (sub_int (10 ^ 12) 1) by (unfold safe; lia).
  rewrite (fmax_int (ts - epoch_ms) 0), (fmin_int (Z.max (ts - epoch_ms) 0)).
  rewrite (Z.max_l (ts - epoch_ms)), (Z.min_l (ts - epoch_ms)) by (unfold epoch_ms; lia).
  symmetry. apply band_arithmetic. unfold epoch_ms. lia.
Qed.

Lemma rescore_agrees_witness :
  calculateQueueScore (int 12) (int (-4)) (int epoch_ms)
  = Ok (rescore (int 12) (int (-4)) (int epoch_ms)).
Proof. apply (rescore_agrees 12 (-4) epoch_ms). unfold in_epoch. lia. Defined.

(** ** Stored numbers *)

(** C10.  What is written is what is read: any number the backend can compute,
    written with [String] and read back with [parseStoredNumber], is the same
    double, infinities included; [parseFiniteStored] returns it too when it is
    finite, and the fallback when it is not. *)
Theorem stored_number_roundtrip (x fallback : num) :
  wf_num x ->
  (x <> NaN -> parseStoredNumber (Some (num_to_string x)) fallback = x) /\
  parseFiniteStored (Some (num_to_string x)) fallback = if isFinite x then x else fallback.
Proof.
  intros Hx. split; [by apply parseStored_num_to_string|].
  destruct (isFinite x) eqn:Hf; [by apply parseFinite_num_to_string|].
  unfold parseFiniteStored. destruct x as [|s|m]; [| |done].
  - by destruct (isFinite (parseStoredNumber (Some (num_to_string NaN)) fallback)) eqn:E.
  - by rewrite parseStored_num_to_string.
Qed.

Lemma stored_number_roundtrip_witness :
  parseStoredNumber (Some (num_to_string (int 1 / int 3))) (int 7) = (int 1 / int 3)%num.
Proof.
  destruct (stored_number_roundtrip (int 1 / int 3) (int 7)) as [H _]; [apply wf_div|].
  apply H. vm_compute. congruence.
Defined.

(** ** Settlement *)

(** C11.  A settlement never takes a balance out of bounds and never loses
    track of what it owes: over integers, a debit is split exactly into what is
    applied, what is left unapplied and what the discarded refill forgives; a
    balance within [-maxDebt, maxTokens] stays there; and against a bucket
    that was recreated or reset since the claim nothing is applied at all. *)
Theorem settlement_bounded (z : SettleZ) (epochNow epochAtClaim : string) (o : SettleOutcome) :
  settle_small z -> settleAmount (inject z epochNow epochAtClaim) = o ->
  let delta := z_actual z - z_claimed z in
  exists a u f, so_applied o = int a /\ so_unapplied o = int u /\
    so_forgiven o = int (z_forgivenNow z + f) /\ 0 <= u /\ 0 <= f <= forgivable z /\
    (same_bucket z epochNow epochAtClaim = false -> a = 0 /\ u = 0 /\ f = 0) /\
    (same_bucket z epochNow epochAtClaim = true -> 0 <= delta -> a + u + f = delta) /\
    (delta < 0 -> delta <= a <= 0 /\ u = 0 /\ f = 0) /\
    (- Z.max 0 (z_maxDebt z) <= z_tokens z <= z_maxTokens z ->
     - Z.max 0 (z_maxDebt z) <= z_tokens z - a <= z_maxTokens z).
Proof.
  intros Hz <- delta. rewrite settleAmount_int by done. subst delta.
  unfold settleZ. set (s := same_bucket z epochNow epochAtClaim).
  assert (0 <= forgivable z) as Hf by (unfold forgivable; lia).
  destruct s; simpl.
  - destruct (Z.ltb_spec 0 (z_actual z - z_claimed z)).
    + do 3 eexists. split_and!; try done; lia.
    + destruct (Z.ltb_spec (z_actual z - z_claimed z) 0), (z_fillsNow z =? z_fillsAtClaim z);
        simpl; do 3 eexists; split_and!; try done; lia.
  - do 3 eexists. split_and!; try done; lia.
Qed.

(** A claim of 5 that used 20, on a bucket that discarded 4 since and may owe
    at most 3. *)
Definition demo_settle : SettleZ := {|
  z_tokens := 2; z_maxTokens := 10; z_maxDebt := 3; z_actual := 20; z_claimed := 5;
  z_overflowNow := 6; z_overflowAtClaim := 2; z_forgivenNow := 1; z_forgivenAtClaim := 1;
  z_fillsNow := 1; z_fillsAtClaim := 1; z_generationNow := 0; z_generationAtClaim := 0 |}.

Lemma settlement_bounded_witness :
  settleAmount (inject demo_settle "1" "1")
  = {| so_applied := int 5; so_unapplied := int 6; so_forgiven := int 5 |} /\
  exists a, so_applied (settleAmount (inject demo_settle "1" "1")) = int a /\ - 3 <= 2 - a <= 10.
Proof.
  split; [vm_compute; reflexivity|].
  destruct (settlement_bounded demo_settle "1" "1" (settleAmount (inject demo_settle "1" "1")))
    as (a & u & f & Ha & _ & _ & _ & _ & _ & _ & _ & Hb).
  - unfold settle_small, small. simpl. lia.
  - reflexivity.
  - exists a. split; [exact Ha|]. simpl in Hb. lia.
Defined.
