(* ===== verification/Invariant.v ===== *)
(** * The store's invariant

    Sorted sets and sets hold each member once, and every score is a finite
    number; every operation of the backend keeps it so.  It is what makes the
    order of a sorted set an order. *)
From S2P Require Import Prelude JsNumber JsString Shared SharedFacts Utf.
From S2P Require Import MemoryStore StoreFacts TokenBucket Concurrency MultiLimit Queue Freeze.
From S2P Require Import Backend Observe.

(** ** Well-formed entries *)

Definition zset_wf (z : list (string * num)) : Prop :=
  NoDup z.*1 /\ Forall (fun m => isFinite m.2 = true) z.

Definition entry_wf (e : Entry) : Prop :=
  (forall z, e_zset e = Some z -> zset_wf z) /\ (forall s, e_set e = Some s -> NoDup s).

Definition store_wf (w : World) : Prop := map_Forall (fun _ => entry_wf) (store w).

Lemma MemoryBackend_wf : store_wf MemoryBackend.
Proof. apply map_Forall_empty. Qed.

Lemma empty_entry_wf : entry_wf empty_entry.
Proof. by split. Qed.

Lemma string_entry_wf s t : entry_wf (string_entry s t).
Proof. by split. Qed.


Lemma zset_wf_set k v z : isFinite v = true -> zset_wf z -> zset_wf (omap_set k v z).
Proof.
  intros Hv [Hd Hf]. split; [by apply NoDup_omap_set|].
  induction z as [|[k' v'] z IH]; simpl; [by repeat constructor|].
  apply Forall_cons in Hf as [Hf1 Hf]. apply NoDup_cons in Hd as [_ Hd].
  case_decide; subst; constructor; auto.
Qed.

Lemma zset_wf_delete k z : zset_wf z -> zset_wf (omap_delete k z).
Proof.
  intros [Hd Hf]. split; [by apply NoDup_omap_delete|].
  clear Hd. induction z as [|[k' v'] z IH]; simpl; [constructor|].
  apply Forall_cons in Hf as [Hf1 Hf]. case_decide; [auto|constructor; auto].
Qed.

Lemma NoDup_oset_delete {K} `{EqDecision K} (k : K) s : NoDup s -> NoDup (oset_delete k s).
Proof. apply NoDup_filter. Qed.

(** Functions of entries that keep them well formed. *)
Definition keeps_entry (f : Entry -> Entry) : Prop := forall e, entry_wf e -> entry_wf (f e).

Lemma keeps_entry_with_hash h : keeps_entry (with_hash h).
Proof. intros e [Hz Hs]. by split. Qed.
Lemma keeps_entry_with_zset_nil : keeps_entry (with_zset []).
Proof. intros e [Hz Hs]. split; [|done]. intros z [= <-]. split; constructor. Qed.
Lemma keeps_entry_with_set_nil : keeps_entry (with_set []).
Proof. intros e [Hz Hs]. split; [done|]. intros s [= <-]. constructor. Qed.
Lemma keeps_entry_with_expiresAt x : keeps_entry (with_expiresAt x).
Proof. intros e [Hz Hs]. by split. Qed.
Lemma keeps_entry_on_hash f : keeps_entry (on_hash f).
Proof. intros e [Hz Hs]. unfold on_hash. destruct (e_hash e); split; done. Qed.
Lemma keeps_entry_zset_set k v : isFinite v = true -> keeps_entry (on_zset (omap_set k v)).
Proof.
  intros Hv e [Hz Hs]. unfold on_zset. destruct (e_zset e) as [z|] eqn:E; [|split; by rewrite ?E].
  split; [|done]. intros z' [= <-]. apply zset_wf_set; auto.
Qed.
Lemma keeps_entry_zset_delete k : keeps_entry (on_zset (omap_delete k)).
Proof.
  intros e [Hz Hs]. unfold on_zset. destruct (e_zset e) as [z|] eqn:E; [|split; by rewrite ?E].
  split; [|done]. intros z' [= <-]. apply zset_wf_delete; auto.
Qed.
Lemma keeps_entry_set_add k : keeps_entry (on_set (oset_add k)).
Proof.
  intros e [Hz Hs]. unfold on_set. destruct (e_set e) as [s|] eqn:E; [|split; by rewrite ?E].
  split; [done|]. intros s' [= <-]. apply NoDup_oset_add; auto.
Qed.
Lemma keeps_entry_set_delete k : keeps_entry (on_set (oset_delete k)).
Proof.
  intros e [Hz Hs]. unfold on_set. destruct (e_set e) as [s|] eqn:E; [|split; by rewrite ?E].
  split; [done|]. intros s' [= <-]. apply NoDup_oset_delete; auto.
Qed.

(** ** Computations that keep the invariant

    [keeps Q m]: at a finite clock reading, [m] leaves a well-formed state and
    returns only values that satisfy [Q]. *)

Definition keeps {A} (Q : A -> Prop) (m : M A) : Prop :=
  forall now w, isFinite now = true -> store_wf w ->
    store_wf (m now w).2 /\ forall a, (m now w).1 = Ok a -> Q a.

Abbreviation safe_m := (keeps (fun _ => True)).

Lemma keeps_bind {A B} (P : A -> Prop) (Q : B -> Prop) (m : M A) (f : A -> M B) :
  keeps P m -> (forall a, P a -> keeps Q (f a)) -> keeps Q (m ≫= f).
Proof.
  intros Hm Hf now w Hn Hw. rewrite bind_run. destruct (Hm now w Hn Hw) as [Hw' Hp].
  destruct (m now w) as [[a|e] w1]; simpl in *; [by apply Hf; auto|done].
Qed.

Lemma keeps_weaken {A} (P Q : A -> Prop) (m : M A) :
  keeps P m -> (forall a, P a -> Q a) -> keeps Q m.
Proof. intros Hm H now w Hn Hw. destruct (Hm now w Hn Hw). split; auto. Qed.

Lemma keeps_ret {A} (Q : A -> Prop) (a : A) : Q a -> keeps Q (mret a : M A).
Proof. intros Ha now w Hn Hw. split; [done|]. by intros ? [= <-]. Qed.

Lemma keeps_throw {A} (Q : A -> Prop) e : keeps Q (throw e : M A).
Proof. intros now w Hn Hw. split; [exact Hw|done]. Qed.

Lemma keeps_lift {A} (Q : A -> Prop) (r : result A) : (forall a, r = Ok a -> Q a) -> keeps Q (lift r).
Proof. intros Hr now w Hn Hw. split; [exact Hw|exact Hr]. Qed.

Lemma keeps_date_now : keeps (fun t => isFinite t = true) date_now.
Proof. intros now w Hn Hw. split; [done|]. by intros ? [= <-]. Qed.

Lemma keeps_mforeach {A} (l : list A) (f : A -> M unit) :
  (forall a, safe_m (f a)) -> safe_m (mforeach l f).
Proof.
  intros Hf. induction l; simpl; [by apply keeps_ret|]. by eapply keeps_bind.
Qed.

Lemma keeps_mcollect {A B} (l : list A) (f : A -> M B) :
  (forall a, safe_m (f a)) -> safe_m (mcollect l f).
Proof.
  intros Hf. induction l; simpl; [by apply keeps_ret|].
  repeat (eapply keeps_bind; [done|intros ? _]). by apply keeps_ret.
Qed.

Lemma keeps_mfold {A B} (f : A -> B -> M A) (l : list B) :
  (forall a b, safe_m (f a b)) -> forall a, safe_m (mfold f a l).
Proof.
  intros Hf. induction l; intros a0; simpl; [by apply keeps_ret|].
  eapply keeps_bind; [apply Hf|auto].
Qed.

Lemma keeps_mwhen b (m : M unit) : safe_m m -> safe_m (mwhen b m).
Proof. intros. destruct b; [done|by apply keeps_ret]. Qed.

Lemma keeps_modify_store f :
  (forall s, map_Forall (fun _ => entry_wf) s -> map_Forall (fun _ => entry_wf) (f s)) ->
  safe_m (modify_store f).
Proof. intros Hf now w Hn Hw. split; [|done]. by apply Hf. Qed.

Lemma keeps_store_delete key : safe_m (store_delete key).
Proof. apply keeps_modify_store. intros s Hs. by apply map_Forall_delete. Qed.

Lemma keeps_insert key e (s : gmap string Entry) :
  entry_wf e -> map_Forall (fun _ => entry_wf) s -> map_Forall (fun _ => entry_wf) (<[key := e]> s).
Proof. intros. by apply map_Forall_insert_2. Qed.

Lemma keeps_put key e : entry_wf e -> safe_m (put key e).
Proof.
  intros He. apply (keeps_bind (fun _ => True));
    [|intros ? _; apply keeps_modify_store; intros; by apply keeps_insert].
  intros now w Hn Hw. split; [exact Hw|done].
Qed.

Lemma keeps_update_entry key f : keeps_entry f -> safe_m (update_entry key f).
Proof.
  intros Hf. apply keeps_modify_store. intros s Hs k e Hk.
  destruct (decide (k = key)) as [->|Hne].
  - rewrite lookup_alter_eq in Hk. apply fmap_Some in Hk as (e' & He & ->). apply Hf, (Hs _ _ He).
  - rewrite lookup_alter_ne in Hk by done. by apply (Hs k).
Qed.

Lemma keeps_live key : keeps (fun o => forall e, o = Some e -> entry_wf e) (live key).
Proof.
  intros now w Hn Hw. rewrite live_run. simpl. split.
  - unfold purge_key. destruct (store w !! key) as [e|]; [|done].
    destruct (expired now e); [|done]. by apply map_Forall_delete.
  - intros o [= <-] e He. eapply Hw. by eapply live_at_lookup.
Qed.

Lemma keeps_live_any key : safe_m (live key).
Proof. eapply keeps_weaken; [apply keeps_live|done]. Qed.

Lemma keeps_dropIfEmpty key : safe_m (dropIfEmpty key).
Proof.
  intros now w Hn Hw. rewrite dropIfEmpty_run. split; [|done]. simpl.
  destruct (store w !! key); [|done]. case_decide; [|done]. by apply map_Forall_delete.
Qed.

Lemma keeps_expire key ttl : safe_m (expire key ttl).
Proof.
  unfold expire. eapply (keeps_bind (fun _ => True)); [by apply keeps_lift|intros x _].
  eapply keeps_bind; [apply keeps_live_any|intros [e|] _; [|by apply keeps_ret]].
  destruct (x <=? int 0)%num; [apply keeps_store_delete|].
  eapply keeps_bind; [apply keeps_date_now|intros ? _].
  apply keeps_update_entry, keeps_entry_with_expiresAt.
Qed.

Lemma keeps_next_epoch : safe_m next_epoch.
Proof. intros now w Hn Hw. split; [exact Hw|done]. Qed.

Lemma keeps_bus (f : World -> World) : (forall w, store (f w) = store w) -> safe_m (modify f).
Proof. intros Hf now w Hn Hw. split; [|done]. unfold store_wf. simpl. by rewrite Hf. Qed.

(** ** Scores are finite *)

Lemma calculateQueueScore_finite p r t score :
  calculateQueueScore p r t = Ok score -> isFinite score = true.
Proof.
  unfold calculateQueueScore. destruct (_ >=? _)%num; [done|].
  destruct (isSafeInteger _) eqn:E; [|done]. intros [= <-].
  by apply isSafeInteger_inv in E as (z & -> & _).
Qed.

Lemma parseStored_not_NaN raw fallback :
  isNaN fallback = false -> isNaN (parseStoredNumber raw fallback) = false.
Proof.
  intros Hf. unfold parseStoredNumber. destruct raw as [raw|]; [|done].
  destruct (bool_decide _); [done|]. destruct (STRTOD_INFINITY raw); [done|].
  by destruct (isNaN (Number raw)) eqn:E.
Qed.

(** A clamp into integers is within them. *)
Lemma clamp_not_NaN x lo hi :
  isNaN x = false -> (lo <= hi)%Z ->
  exists m, fmin (fmax x (int lo)) (int hi) = Fin m /\ (lo * unit1 <= m <= hi * unit1)%Z.
Proof.
  intros Hx Hlh. pose proof unit1_pos. unfold fmax, fmin, int, ltb.
  destruct x as [|[]|m]; [done| | |];
    repeat match goal with
    | |- context [Z.ltb ?a ?b] => destruct (Z.ltb_spec a b)
    end; try (eexists; split; [done|]; nia).
Qed.

Lemma rnd_within a lo hi :
  safe lo -> safe hi -> (lo * unit1 <= a <= hi * unit1)%Z ->
  exists m, rnd a = Fin m /\ (lo * unit1 <= m <= hi * unit1)%Z.
Proof.
  intros Hlo Hhi Ha. pose proof unit1_pos.
  pose proof (round_ratio_mono (lo * unit1) a 1 ltac:(lia) ltac:(lia)) as H1.
  pose proof (round_ratio_mono a (hi * unit1) 1 ltac:(lia) ltac:(lia)) as H2.
  fold (rnd (lo * unit1)) (rnd a) (rnd (hi * unit1)) in *.
  rewrite rnd_int in H1, H2 by done. unfold int, leb in *.
  destruct (rnd a) as [|[]|m]; try done. exists m. split; [done|].
  apply Z.leb_le in H1, H2. lia.
Qed.

Lemma sub_within a b la ha lb hb :
  safe (la - hb) -> safe (ha - lb) ->
  (la * unit1 <= a <= ha * unit1)%Z -> (lb * unit1 <= b <= hb * unit1)%Z ->
  exists m, (Fin a - Fin b)%num = Fin m /\ ((la - hb) * unit1 <= m <= (ha - lb) * unit1)%Z.
Proof. intros. unfold sub, neg, add. apply rnd_within; try done. lia. Qed.

Lemma add_within a b la ha lb hb :
  safe (la + lb) -> safe (ha + hb) ->
  (la * unit1 <= a <= ha * unit1)%Z -> (lb * unit1 <= b <= hb * unit1)%Z ->
  exists m, (Fin a + Fin b)%num = Fin m /\ ((la + lb) * unit1 <= m <= (ha + hb) * unit1)%Z.
Proof. intros. unfold add. apply rnd_within; try done. lia. Qed.

Lemma mul_within a k h :
  safe (h * k) -> (0 <= k)%Z -> (0 <= a <= h * unit1)%Z ->
  exists m, (Fin a * int k)%num = Fin m /\ (0 <= m <= h * k * unit1)%Z.
Proof.
  intros Hs Hk Ha. unfold mul, int. pose proof unit1_pos.
  destruct (rnd_within (a * k) 0 (h * k)) as (m & Hm & Hb);
    [unfold safe; lia|done|nia|].
  exists m. split; [|lia]. rewrite <- Hm. unfold rnd.
  rewrite <- (round_ratio_scale (a * k) 1 unit1) by lia. f_equal; lia.
Qed.

Lemma rescore_finite p r t :
  isNaN p = false -> isNaN r = false -> isNaN t = false -> isFinite (rescore p r t) = true.
Proof.
  intros Hp Hr Ht. unfold rescore, MAX_QUEUE_PRIORITY, MAX_QUEUE_RETRIES, QUEUE_RETRY_BAND.
  rewrite (sub_int (10 ^ 12) 1) by (unfold safe; lia). rewrite QUEUE_PRIORITY_BAND_int.
  assert (isNaN (t - QUEUE_SCORE_EPOCH_MS)%num = false) as Ha.
  { unfold QUEUE_SCORE_EPOCH_MS, sub, neg, int. destruct t as [|[]|m]; try done.
    unfold add, rnd, round_ratio. by destruct (_ <? _)%Z. }
  destruct (clamp_not_NaN p 0 10 Hp ltac:(lia)) as (p' & -> & Hp').
  destruct (clamp_not_NaN r 0 100 Hr ltac:(lia)) as (r' & -> & Hr').
  destruct (clamp_not_NaN _ 0 (10 ^ 12 - 1) Ha ltac:(lia)) as (a' & -> & Ha').
  unfold int at 1 3.
  destruct (sub_within (10 * unit1) p' 10 10 0 10) as (x & -> & Hx);
    [unfold safe; lia|unfold safe; lia|lia|lia|].
  destruct (sub_within (100 * unit1) r' 100 100 0 100) as (y & -> & Hy);
    [unfold safe; lia|unfold safe; lia|lia|lia|].
  destruct (mul_within x (101 * 10 ^ 12) 10) as (x' & -> & Hx');
    [unfold safe; lia|lia|lia|].
  destruct (mul_within y (10 ^ 12) 100) as (y' & -> & Hy'); [unfold safe; lia|lia|lia|].
  destruct (add_within x' y' 0 (10 * (101 * 10 ^ 12)) 0 (100 * 10 ^ 12)) as (s & -> & Hs);
    [unfold safe; lia|unfold safe; lia|lia|lia|].
  destruct (add_within s a' 0 (10 * (101 * 10 ^ 12) + 100 * 10 ^ 12) 0 (10 ^ 12 - 1))
    as (u & -> & Hu); [unfold safe; lia|unfold safe; lia|lia|lia|done].
Qed.

#[export] Hint Resolve keeps_entry_with_hash keeps_entry_with_zset_nil keeps_entry_with_set_nil
  keeps_entry_with_expiresAt keeps_entry_on_hash keeps_entry_zset_set keeps_entry_zset_delete
  keeps_entry_set_add keeps_entry_set_delete empty_entry_wf string_entry_wf
  parseStored_not_NaN rescore_finite : store.

Create HintDb keeps.

(** One rule per construct of the operation monad, as for [respects]. *)
Ltac keeps_step :=
  match goal with
  | |- keeps _ (date_now ≫= _) => eapply keeps_bind; [apply keeps_date_now|intros ? ?]
  | |- keeps _ (lift (calculateQueueScore _ _ _) ≫= _) =>
      eapply keeps_bind; [apply keeps_lift, calculateQueueScore_finite|intros ? ?]
  | |- keeps _ (_ ≫= _) => apply (keeps_bind (fun _ => True)); [|intros ? _]
  | |- keeps _ (mret _) => by apply keeps_ret
  | |- keeps _ (throw _) => apply keeps_throw
  | |- keeps _ (lift _) => by apply keeps_lift
  | |- keeps _ date_now => eapply keeps_weaken; [apply keeps_date_now|done]
  | |- keeps _ (live _) => apply keeps_live_any
  | |- keeps _ (put _ _) => apply keeps_put; solve [auto with store]
  | |- keeps _ (store_delete _) => apply keeps_store_delete
  | |- keeps _ (update_entry _ _) => apply keeps_update_entry; solve [auto 6 with store]
  | |- keeps _ (dropIfEmpty _) => apply keeps_dropIfEmpty
  | |- keeps _ (expire _ _) => apply keeps_expire
  | |- keeps _ next_epoch => apply keeps_next_epoch
  | |- keeps _ (mforeach _ _) => apply keeps_mforeach; intros ?
  | |- keeps _ (mcollect _ _) => apply keeps_mcollect; intros ?
  | |- keeps _ (mfold _ _ _) => apply keeps_mfold; intros ? ?
  | |- keeps _ (mwhen _ _) => apply keeps_mwhen
  | |- keeps _ (if ?b then _ else _) => destruct b
  | |- keeps _ (match ?x with _ => _ end) => destruct x
  | |- keeps _ (let x := _ in _) => cbv zeta
  | |- forall _, _ => intros ?
  | |- keeps _ _ => solve [auto 6 with keeps store]
  end.

Ltac solve_keeps := repeat keeps_step.

Lemma keeps_hash key : safe_m (hash key).
Proof. unfold hash, entry; solve_keeps. Qed.
Lemma keeps_zset key : safe_m (zset key).
Proof. unfold zset, entry; solve_keeps. Qed.
Lemma keeps_setOf key : safe_m (setOf key).
Proof. unfold setOf, entry; solve_keeps. Qed.
Lemma keeps_live_hash key : safe_m (live_hash key).
Proof. unfold live_hash; solve_keeps. Qed.
Lemma keeps_live_zset key : safe_m (live_zset key).
Proof. unfold live_zset; solve_keeps. Qed.
Lemma keeps_live_set key : safe_m (live_set key).
Proof. unfold live_set; solve_keeps. Qed.
Lemma keeps_live_str key : safe_m (live_str key).
Proof. unfold live_str; solve_keeps. Qed.
#[export] Hint Resolve keeps_hash keeps_zset keeps_setOf keeps_live_hash keeps_live_zset
  keeps_live_set keeps_live_str : keeps.

Lemma keeps_hget key field : safe_m (hget key field).
Proof. unfold hget; solve_keeps. Qed.
Lemma keeps_sorted key : safe_m (MemoryStore.sorted key).
Proof. unfold MemoryStore.sorted; solve_keeps. Qed.
Lemma keeps_hash_set key field value : safe_m (hash_set key field value).
Proof. unfold hash_set; solve_keeps. Qed.
Lemma keeps_hash_delete key field : safe_m (hash_delete key field).
Proof. unfold hash_delete; solve_keeps. Qed.
Lemma keeps_zset_set key member score : isFinite score = true -> safe_m (zset_set key member score).
Proof. unfold zset_set; solve_keeps. Qed.
Lemma keeps_zset_delete key member : safe_m (zset_delete key member).
Proof. unfold zset_delete; solve_keeps. Qed.
Lemma keeps_set_add key member : safe_m (set_add key member).
Proof. unfold set_add; solve_keeps. Qed.
Lemma keeps_set_delete key member : safe_m (set_delete key member).
Proof. unfold set_delete; solve_keeps. Qed.
#[export] Hint Resolve keeps_hget keeps_sorted keeps_hash_set keeps_hash_delete keeps_zset_set
  keeps_zset_delete keeps_set_add keeps_set_delete : keeps.

Lemma keeps_hgetall key : safe_m (hgetall key).
Proof. unfold hgetall; solve_keeps. Qed.
Lemma keeps_removeMember key member : safe_m (removeMember key member).
Proof. unfold removeMember; solve_keeps. Qed.
Lemma keeps_optional_ttl t : safe_m (optional_ttl t).
Proof. unfold optional_ttl; solve_keeps. Qed.
#[export] Hint Resolve keeps_hgetall keeps_removeMember keeps_optional_ttl : keeps.
Lemma keeps_writeString key value t : safe_m (writeString key value t).
Proof. unfold writeString; solve_keeps. Qed.
Lemma keeps_writeHash key fields t : safe_m (writeHash key fields t).
Proof. unfold writeHash; solve_keeps. Qed.
Lemma keeps_sadd key member : safe_m (sadd key member).
Proof. unfold sadd; solve_keeps. Qed.
Lemma keeps_emit channel message : safe_m (emit channel message).
Proof. by apply keeps_bus. Qed.
Lemma keeps_subscribe channels h : safe_m (subscribe channels h).
Proof. by apply keeps_bus. Qed.
Lemma keeps_close : safe_m close.
Proof. by apply keeps_bus. Qed.
Lemma keeps_run_microtask : safe_m run_microtask.
Proof. apply keeps_bus. intros w. by destruct (microtasks w) as [|[c m] q]. Qed.
#[export] Hint Resolve keeps_writeString keeps_writeHash keeps_sadd keeps_emit keeps_subscribe
  keeps_close keeps_run_microtask : keeps.
Lemma keeps_run_op op : safe_m (run_op op).
Proof. destruct op; simpl; solve_keeps. Qed.
#[export] Hint Resolve keeps_run_op : keeps.

Lemma keeps_claimMark mark : safe_m (claimMark mark).
Proof. unfold claimMark; solve_keeps. Qed.
Lemma keeps_freezeBlocksAdmission key now : safe_m (freezeBlocksAdmission key now).
Proof. unfold freezeBlocksAdmission; solve_keeps. Qed.
Lemma keeps_freezeEmptiedBucket key now : safe_m (freezeEmptiedBucket key now).
Proof. unfold freezeEmptiedBucket; solve_keeps. Qed.
Lemma keeps_refill key config now : safe_m (refill key config now).
Proof. unfold refill; solve_keeps. Qed.
Lemma keeps_writeBucket key s t config : safe_m (writeBucket key s t config).
Proof. unfold writeBucket; solve_keeps. Qed.
Lemma keeps_write_mark_opt key mark cost s : safe_m (write_mark_opt key mark cost s).
Proof. unfold write_mark_opt, writeMark; solve_keeps. Qed.
Lemma keeps_bumpGeneration key : safe_m (bumpGeneration key).
Proof. unfold bumpGeneration; solve_keeps. Qed.
#[export] Hint Resolve keeps_claimMark keeps_freezeBlocksAdmission keeps_freezeEmptiedBucket
  keeps_refill keeps_writeBucket keeps_write_mark_opt keeps_bumpGeneration : keeps.

Lemma keeps_creditTokens key cost max fk : safe_m (creditTokens key cost max fk).
Proof. unfold creditTokens; solve_keeps. Qed.
Lemma keeps_reapConcurrency key t : safe_m (reapConcurrency key t).
Proof. unfold reapConcurrency; solve_keeps. Qed.
Lemma keeps_concurrencyCost key id : safe_m (concurrencyCost key id).
Proof. unfold concurrencyCost; solve_keeps. Qed.
Lemma keeps_claimSlot key id cost now ttl :
  isFinite now = true -> safe_m (claimSlot key id cost now ttl).
Proof. unfold claimSlot; solve_keeps. Qed.
Lemma keeps_releaseSlot key id : safe_m (releaseSlot key id).
Proof. unfold releaseSlot; solve_keeps. Qed.
#[export] Hint Resolve keeps_creditTokens keeps_reapConcurrency keeps_concurrencyCost
  keeps_claimSlot keeps_releaseSlot : keeps.

Lemma keeps_acquireConcurrency key cost id config : safe_m (acquireConcurrency key cost id config).
Proof. unfold acquireConcurrency; solve_keeps. Qed.
Lemma keeps_claimMarks specs : safe_m (claimMarks specs).
Proof. unfold claimMarks, claimMarks_one; solve_keeps. Qed.
Lemma keeps_planMultiLimit specs now : safe_m (planMultiLimit specs now).
Proof.
  unfold planMultiLimit. generalize empty_plan. induction specs; intros p; simpl;
    [solve_keeps|]. unfold plan_step. solve_keeps; auto.
Qed.
Lemma keeps_any_freeze_blocks keys now : safe_m (any_freeze_blocks keys now).
Proof. induction keys; simpl; solve_keeps; auto. Qed.
Lemma keeps_commit_plan p now ttl : isFinite now = true -> safe_m (commit_plan p now ttl).
Proof. unfold commit_plan, commitBucket; solve_keeps. Qed.
Lemma keeps_persistRefills p ttl : safe_m (persistRefills p ttl).
Proof. unfold persistRefills; solve_keeps. Qed.
#[export] Hint Resolve keeps_acquireConcurrency keeps_claimMarks keeps_planMultiLimit
  keeps_any_freeze_blocks keeps_commit_plan keeps_persistRefills : keeps.

Lemma keeps_next_in ids p skip skipIds now : safe_m (next_in ids p skip skipIds now).
Proof. induction ids; simpl; solve_keeps; auto. Qed.
Lemma keeps_set_opt key field v : safe_m (set_opt key field v).
Proof. unfold set_opt; solve_keeps. Qed.
Lemma keeps_drop_member key id : safe_m (drop_member key id).
Proof. unfold drop_member; solve_keeps. Qed.
Lemma keeps_writeFreezeState key until count mode empties :
  safe_m (writeFreezeState key until count mode empties).
Proof. unfold writeFreezeState, merged_freeze; solve_keeps. Qed.
Lemma keeps_readFreezeState key now : safe_m (readFreezeState key now).
Proof. unfold readFreezeState; solve_keeps. Qed.
Lemma keeps_any_competing ids p except g any now :
  safe_m (any_competing ids p except g any now).
Proof. induction ids; simpl; unfold isCompetingProbe; solve_keeps; auto. Qed.
#[export] Hint Resolve keeps_next_in keeps_set_opt keeps_drop_member keeps_writeFreezeState
  keeps_readFreezeState keeps_any_competing : keeps.

Lemma keeps_exec {A} (c : call A) : safe_m (exec c).
Proof.
  destruct c; cbn [exec]; try solve [auto with keeps];
    unfold MemoryStore.get, del, hgetall, smembers, batch, acquireLock, releaseLock,
      acquireTokens, getTokenBucketState, resetTokenBucket, emptyTokenBucket,
      settleTokens, settle_one, tryAdmitImmediately, tryAdmitNoLimit,
      acquireMultiLimit, releaseMultiLimit, release_one, tryAdmitMultiLimit,
      acquireQueuedConcurrency, tryAdmitConcurrency, touchConcurrency, touchClaimMark,
      getConcurrencyState, clearConcurrency, addRequest, getQueueLength,
      getNextRequest, confirmRequest, getRequest, updateRequest, removeRequest,
      getQueueStats, stats_step, getAllRequests, cleanupOrphanedRequests, cleanup_step,
      setFreezeState, armFreeze, getFreezeState, updateThawProgress, clearFreezeState,
      isFrozen, canProcessRequest, hasThawRequestInProgress, tryStartThawRequest,
      cleanupStaleFrozenGrants, probing_step, stale_step, getInstances, now_;
    solve_keeps.
Qed.

(** ** The order of a sorted set *)

Lemma wf_one_unit : wf_num (Fin 1).
Proof.
  split; [exists 1%Z, 0%Z; repeat split; done|]. rewrite overflow_units_eq.
  pose proof unit1_pos. change (Z.abs 1) with 1%Z. nia.
Qed.

(** Rounding keeps the sign. *)
Lemma rnd_sign m :
  ((rnd m <? int 0)%num = (m <? 0)%Z) /\ isNaN (rnd m) || (rnd m =? int 0)%num = (m =? 0)%Z.
Proof.
  assert (forall k, (0 < k)%Z -> (Fin 1 <=? rnd k)%num = true) as Hpos.
  { intros k Hk. rewrite <- (rnd_exact 1) by apply wf_one_unit. apply round_ratio_mono; lia. }
  assert (forall k, rnd (- k) = (- rnd k)%num) as Hopp by (intros; by apply round_ratio_opp).
  change (int 0) with (Fin 0). destruct (Z.lt_trichotomy m 0) as [H|[->|H]].
  - specialize (Hpos (- m)%Z ltac:(lia)). rewrite Hopp in Hpos. unfold neg, leb, ltb, eqb in *.
    destruct (rnd m) as [|[]|k]; try done; rewrite (proj2 (Z.ltb_lt m 0)), (proj2 (Z.eqb_neq m 0)) by lia;
      [done|]. apply Z.leb_le in Hpos. rewrite bool_decide_false by (intros [=]; lia). split; [lia|done].
  - pose proof (rnd_int 0 ltac:(done)) as E. change (0 * unit1)%Z with 0%Z in E. by rewrite E.
  - specialize (Hpos m ltac:(lia)). unfold leb, ltb, eqb in *.
    destruct (rnd m) as [|[]|k]; try done; rewrite (proj2 (Z.ltb_ge m 0)), (proj2 (Z.eqb_neq m 0)) by lia;
      [done|]. apply Z.leb_le in Hpos. rewrite bool_decide_false by (intros [=]; lia). split; [lia|done].
Qed.

(** Score, then bytes. *)
Definition member_order (a b : string * num) : Prop :=
  (a.2 <? b.2)%num = true \/
  (a.2 = b.2 /\ (compareBytes (units_of a.1) (units_of b.1) <= 0)%Z).

Lemma units_of_ok s : Forall unit_ok (units_of s).
Proof.
  induction s as [|c s IH]; simpl; constructor; [|done].
  unfold unit_ok, code. pose proof (N_ascii_bounded c). lia.
Qed.

Lemma compareMembers_sign a b :
  Z.sgn (compareMembers (units_of a) (units_of b))
  = Z.sgn (compareBytes (units_of a) (units_of b)).
Proof. apply (compare_scan_bytes _ _ []); auto using units_of_ok. Qed.

Lemma member_le_order a b :
  isFinite a.2 = true -> isFinite b.2 = true -> member_le a b = true <-> member_order a b.
Proof.
  destruct a as [a [| |x]], b as [b [| |y]]; try done. intros _ _.
  unfold member_le, member_order. cbn [fst snd]. unfold sub, neg, add.
  destruct (rnd_sign (x + - y)) as [H1 H2]. rewrite H1, H2. unfold ltb.
  pose proof (compareMembers_sign a b).
  destruct (Z.eqb_spec (x + - y) 0).
  - rewrite Z.leb_le. split; [right; split; [f_equal; lia|lia]|]. intros [?|[_ ?]]; lia.
  - split; [left; lia|]. intros [?|[[=] _]]; lia.
Qed.

Lemma eq_neg_zero x y : isNaN (x - y)%num || ((x - y)%num =? int 0)%num
  = isNaN (y - x)%num || ((y - x)%num =? int 0)%num.
Proof.
  unfold sub, neg. destruct x as [|[]|x], y as [|[]|y]; try done. unfold add.
  rewrite !(proj2 (rnd_sign _)). apply Bool.eq_iff_eq_true. rewrite !Z.eqb_eq. lia.
Qed.

#[export] Instance member_le_total : Total (fun a b => member_le a b = true).
Proof.
  intros [a x] [b y]. unfold member_le. cbn [fst snd]. rewrite (eq_neg_zero y x).
  destruct (isNaN (x - y)%num || _) eqn:E.
  - pose proof (compareMembers_sign a b). pose proof (compareMembers_sign b a).
    pose proof (compareBytes_opp (units_of a) (units_of b)). rewrite !Z.leb_le. lia.
  - unfold sub, neg in *. destruct x as [|[]|x], y as [|[]|y]; auto. unfold add in *.
    destruct (rnd_sign (x + - y)) as [H1 H2], (rnd_sign (y + - x)) as [H3 _].
    rewrite H1, H3. rewrite H2 in E. rewrite !Z.ltb_lt. apply Z.eqb_neq in E. lia.
Qed.

Lemma compare_from_trans x : forall y z,
  (compare_from x y <= 0)%Z -> (compare_from y z <= 0)%Z -> (compare_from x z <= 0)%Z.
Proof.
  induction x as [|a x IH]; intros [|b y] [|c z]; simpl; try lia.
  destruct (Z.eqb_spec a b), (Z.eqb_spec b c), (Z.eqb_spec a c); subst; try lia; eauto.
Qed.

Lemma ltb_trans a b c : (a <? b)%num = true -> (b <? c)%num = true -> (a <? c)%num = true.
Proof.
  unfold ltb. destruct a as [|[]|a], b as [|[]|b], c as [|[]|c]; try done.
  rewrite !Z.ltb_lt. lia.
Qed.

#[export] Instance member_order_trans : Transitive member_order.
Proof.
  intros [a x] [b y] [c z]. unfold member_order. cbn [fst snd].
  intros [H1|[-> H1]] [H2|[-> H2]]; [left; by eapply ltb_trans|by left|by left|].
  right. split; [done|]. by eapply compare_from_trans.
Qed.

(** The sorted entries a sorted set lists. *)
Lemma sort_members_spec z :
  zset_wf z ->
  exists l, sort_members z = l.*1 /\ l ≡ₚ z /\ StronglySorted member_order l.
Proof.
  intros [Hd Hf]. unfold sort_members. eexists. split; [done|].
  pose proof (merge_sort_Permutation (fun a b => member_le a b = true) z) as Hp.
  split; [exact Hp|]. apply Sorted_StronglySorted; [apply _|].
  eapply Sorted_impl_in; [|apply (Sorted_merge_sort (fun a b => member_le a b = true))].
  intros a b Ha Hb. simpl. rewrite Hp in Ha, Hb.
  rewrite Forall_forall in Hf. apply member_le_order; by apply Hf.
Qed.

(** ** After any history *)

Lemma sweep_wf now w : store_wf w -> store_wf (sweep now w).2.
Proof.
  intros Hw. unfold sweep. rewrite date_now_run. intros k e He. simpl in He.
  apply map_lookup_filter_Some in He as [He _]. by apply (Hw k).
Qed.

Lemma run_wf h : forall w, Forall (fun x => isFinite x.1 = true) h ->
  store_wf w -> store_wf (run h w).2.
Proof.
  induction h as [|[now ev] h IH]; intros w; [done|]. intros [Hn Hh]%Forall_cons Hw.
  cbn [run]. destruct (step now ev w) as [rs w1] eqn:E.
  assert (store_wf w1) as Hw1.
  { destruct ev as [A c|]; cbn [step] in E.
    - pose proof (keeps_exec c now w Hn Hw) as [H _]. destruct (exec c now w). by injection E as <- <-.
    - injection E as <- <-. by apply sweep_wf. }
  specialize (IH w1 Hh Hw1). by destruct (run h w1).
Qed.

Lemma zset_at_wf now w key z : store_wf w -> zset_at now w key = Some z -> zset_wf z.
Proof.
  intros Hw H. unfold zset_at in H. destruct (live_at now w key) as [e|] eqn:E; [|done].
  simpl in H. eapply Hw; [by eapply live_at_lookup|done].
Qed.

(** C7.  Whatever calls a backend has served, in any order, a sorted set lists
    each of its members exactly once, ordered by score and, for equal scores,
    by UTF-8 bytes, as Redis lists it.  The scores are finite numbers, so this
    is a total order and the listing is the only one. *)
Theorem sorted_lists_members (h : list (num * event)) (now : num) (key : string) :
  Forall (fun x => isFinite x.1 = true) h ->
  let w := (run h MemoryBackend).2 in
  exists l, MemoryStore.sorted key now w = (Ok l.*1, purge_key now key w) /\
    l ≡ₚ default [] (zset_at now w key) /\ NoDup l.*1 /\ StronglySorted member_order l /\
    Forall (fun m => isFinite m.2 = true) l.
Proof.
  intros Hh w. pose proof (run_wf h MemoryBackend Hh MemoryBackend_wf) as Hw. fold w in Hw.
  rewrite sorted_run. unfold sorted_at.
  destruct (zset_at now w key) as [z|] eqn:E.
  - pose proof (zset_at_wf _ _ _ _ Hw E) as Hz.
    destruct (sort_members_spec z Hz) as (l & Hl & Hp & Hs). destruct Hz as [Hd Hf].
    exists l. rewrite Hl. split_and!; try done; simpl; by rewrite Hp.
  - exists []. split_and!; try done; constructor.
Qed.

(** Three slots, two claimed in the same millisecond. *)
Definition slots_history : list (num * event) :=
  let c := {| maxConcurrency := int 9; requestTtl := int 60000 |} in
  [(int 5, Call (CAcquireConcurrency "k" (int 1) "z" c));
   (int 7, Call (CAcquireConcurrency "k" (int 1) "b" c));
   (int 7, Call (CAcquireConcurrency "k" (int 1) "a" c))].

Lemma sorted_lists_members_witness :
  exists l, MemoryStore.sorted "k" (int 9) (run slots_history MemoryBackend).2
            = (Ok l.*1, purge_key (int 9) "k" (run slots_history MemoryBackend).2) /\
    StronglySorted member_order l.
Proof.
  destruct (sorted_lists_members slots_history (int 9) "k") as (l & H & _ & _ & Hs & _).
  - repeat constructor.
  - exists l. split; [exact H|exact Hs].
Defined.
