(* ===== verification/Atomicity.v ===== *)
(** * An operation that throws has changed nothing

    Every operation of the backend validates before its first write: what can
    throw comes first and writes nothing an observer can see, and what writes
    cannot throw. *)
From S2P Require Import Prelude JsNumber JsString Shared SharedFacts MemoryStore StoreFacts.
From S2P Require Import TokenBucket Concurrency MultiLimit Queue Freeze Backend Observe StoreProps.

(** ** The three kinds of computation *)

(** Writes nothing that shows, and returns only values that satisfy [Q]. *)
Definition quiet {A} (Q : A -> Prop) (m : M A) : Prop :=
  forall now w, same_view now (m now w).2 w /\ forall a, (m now w).1 = Ok a -> Q a.

(** Returns, a value that satisfies [Q]. *)
Definition total {A} (Q : A -> Prop) (m : M A) : Prop :=
  forall now w, exists a, (m now w).1 = Ok a /\ Q a.

Definition atomic {A} (m : M A) : Prop :=
  forall now w e, (m now w).1 = Throw e -> same_view now (m now w).2 w.

Abbreviation returns := (total (fun _ => True)).

Lemma atomic_quiet {A} (Q : A -> Prop) (m : M A) : quiet Q m -> atomic m.
Proof. intros H now w e _. apply H. Qed.

Lemma atomic_total {A} (Q : A -> Prop) (m : M A) : total Q m -> atomic m.
Proof. intros H now w e He. destruct (H now w) as (a & Ha & _). congruence. Qed.

Lemma atomic_bind {A B} (Q : A -> Prop) (m : M A) (f : A -> M B) :
  quiet Q m -> (forall a, Q a -> atomic (f a)) -> atomic (m ≫= f).
Proof.
  intros Hm Hf now w e. rewrite bind_run. destruct (Hm now w) as [Hv Hq].
  destruct (m now w) as [[a|e'] w1]; simpl in *; [|done].
  intros He. rewrite <- Hv. by eapply Hf; auto.
Qed.

Lemma quiet_bind {A B} (P : A -> Prop) (Q : B -> Prop) (m : M A) (f : A -> M B) :
  quiet P m -> (forall a, P a -> quiet Q (f a)) -> quiet Q (m ≫= f).
Proof.
  intros Hm Hf now w. rewrite bind_run. destruct (Hm now w) as [Hv Hq].
  destruct (m now w) as [[a|e] w1]; simpl in *; [|done].
  destruct (Hf a (Hq a eq_refl) now w1) as [Hv' Hq']. split; [|done]. by rewrite Hv'.
Qed.

Lemma total_bind {A B} (P : A -> Prop) (Q : B -> Prop) (m : M A) (f : A -> M B) :
  total P m -> (forall a, P a -> total Q (f a)) -> total Q (m ≫= f).
Proof.
  intros Hm Hf now w. destruct (Hm now w) as (a & Ha & Hp).
  rewrite (bind_fst_ok _ _ _ _ a Ha). by apply Hf.
Qed.

Lemma quiet_ret {A} (Q : A -> Prop) (a : A) : Q a -> quiet Q (mret a : M A).
Proof. intros Ha now w. split; [done|]. by intros ? [= <-]. Qed.
Lemma total_ret {A} (Q : A -> Prop) (a : A) : Q a -> total Q (mret a : M A).
Proof. intros Ha now w. by exists a. Qed.
Lemma quiet_throw {A} (Q : A -> Prop) e : quiet Q (throw e : M A).
Proof. intros now w. by split. Qed.
Lemma quiet_lift {A} (Q : A -> Prop) (r : result A) : (forall a, r = Ok a -> Q a) -> quiet Q (lift r).
Proof. intros Hr now w. by split. Qed.
Lemma total_lift {A} (Q : A -> Prop) (a : A) : Q a -> total Q (lift (Ok a)).
Proof. intros Ha now w. by exists a. Qed.
Lemma quiet_date_now Q : (forall t, Q t) -> quiet Q date_now.
Proof. intros HQ now w. by split. Qed.
Lemma total_date_now Q : (forall t, Q t) -> total Q date_now.
Proof. intros HQ now w. by exists now. Qed.
Lemma quiet_live key Q : (forall o, Q o) -> quiet Q (live key).
Proof. intros HQ now w. rewrite live_run. split; [apply purge_key_view|auto]. Qed.
Lemma total_live key Q : (forall o, Q o) -> total Q (live key).
Proof. intros HQ now w. rewrite live_run. simpl. eauto. Qed.
Lemma returns_modify f : returns (modify f).
Proof. intros now w. by exists tt. Qed.
Lemma returns_dropIfEmpty key : returns (dropIfEmpty key).
Proof. intros now w. rewrite dropIfEmpty_run. by exists tt. Qed.
Lemma returns_next_epoch : returns next_epoch.
Proof. intros now w. eexists. by split. Qed.

Lemma total_mforeach {A} (P : A -> Prop) (l : list A) (f : A -> M unit) :
  Forall P l -> (forall a, P a -> returns (f a)) -> returns (mforeach l f).
Proof.
  intros Hl Hf. induction Hl; simpl; [by apply total_ret|]. by eapply total_bind; [apply Hf|].
Qed.
Lemma returns_mforeach {A} (l : list A) (f : A -> M unit) :
  (forall a, returns (f a)) -> returns (mforeach l f).
Proof. intros Hf. apply (total_mforeach (fun _ => True)); [by apply Forall_true|auto]. Qed.
Lemma returns_mcollect {A B} (l : list A) (f : A -> M B) :
  (forall a, returns (f a)) -> returns (mcollect l f).
Proof.
  intros Hf. induction l; simpl; [by apply total_ret|].
  do 2 (eapply total_bind; [done|intros ? _]). by apply total_ret.
Qed.
Lemma returns_mfold {A B} (f : A -> B -> M A) (l : list B) :
  (forall a b, returns (f a b)) -> forall a, returns (mfold f a l).
Proof.
  intros Hf. induction l; intros a0; simpl; [by apply total_ret|].
  eapply total_bind; [apply Hf|auto].
Qed.
Lemma returns_mwhen b (m : M unit) : returns m -> returns (mwhen b m).
Proof. intros. destruct b; [done|by apply total_ret]. Qed.
Lemma quiet_mcollect {A B} (Q : B -> Prop) (l : list A) (f : A -> M B) :
  (forall a, quiet Q (f a)) -> quiet (Forall Q) (mcollect l f).
Proof.
  intros Hf. induction l; simpl; [by apply quiet_ret|].
  eapply quiet_bind; [apply Hf|intros ? ?]. eapply quiet_bind; [done|intros ? ?].
  by apply quiet_ret; constructor.
Qed.

(** ** TTLs that [expire] takes *)

(** A TTL as the normalisers return it, and one that keeps the key. *)
Definition ttl_norm (t : num) : Prop := normalizeTtlSeconds t = Ok t.
Definition ttl_pos (t : num) : Prop := ttl_norm t /\ (t <=? int 0)%num = false.

Lemma normalizeTtl_norm t x : normalizeTtlSeconds t = Ok x -> ttl_norm x.
Proof. intros H. by apply normalizeTtl_idem in H as [? _]. Qed.

Lemma normalizeStateTtl_pos t x : normalizeStateTtlSeconds t = Ok x -> ttl_pos x.
Proof.
  unfold normalizeStateTtlSeconds, rbind. destruct (normalizeTtlSeconds t) as [y|] eqn:E; [|done].
  destruct (y <=? int 0)%num eqn:Ep; [done|]. intros [= <-].
  split; [by eapply normalizeTtl_norm|done].
Qed.

Lemma returns_expire key t : ttl_norm t -> returns (expire key t).
Proof. intros Ht now w. exists tt. by split; [eapply expire_ok|]. Qed.

Lemma ttl_pos_day : ttl_pos (int 86400).
Proof. split; by vm_compute. Qed.
Lemma ttl_norm_probe : ttl_norm FREEZE_PROBE_TTL_SECONDS.
Proof. by vm_compute. Qed.

Lemma normalizeTtl_ok y :
  (y <= 9200000000000000 * unit1)%Z -> exists x, normalizeTtlSeconds (Fin y) = Ok x.
Proof.
  intros Hy. unfold normalizeTtlSeconds. rewrite REDIS_MAX_units. unfold gtb, ltb.
  rewrite (proj2 (Z.ltb_ge _ _)) by lia. simpl. destruct (_ <=? _)%num; eauto.
Qed.

(** A bucket's derived lifetime is storable, whatever its configuration. *)
Lemma bucketTtl_pos t config : ttl_pos t -> exists x,
  normalizeTtlSeconds (bucketTtl t config) = Ok x.
Proof.
  intros [Ht Hp]. unfold bucketTtl. set (q := (ceil _ * _ / _)%num).
  destruct (ceil q >? t)%num eqn:E; simpl; [|by exists t].
  rewrite REDIS_MAX_units. unfold gtb, ltb, fmin, ceil in *.
  destruct q as [|[]|m]; [by destruct t as [|[]|]|by destruct t as [|[]|]| |].
  - apply normalizeTtl_ok. lia.
  - rewrite zdiv_eq in *. unfold ltb. set (c := (- (- m / unit1) * unit1)%Z) in *.
    destruct (Z.ltb_spec (9200000000000000 * unit1) c); apply normalizeTtl_ok; lia.
Qed.

(** Proves that a computation returns, or is quiet: one rule per construct. *)
Create HintDb returns.

Ltac returns_step :=
  match goal with
  | |- total _ (_ ≫= _) => apply (total_bind (fun _ => True)); [|intros ? _]
  | |- total _ (mret _) => by apply total_ret
  | |- total _ date_now => by apply total_date_now
  | |- total _ (live _) => by apply total_live
  | |- total _ (modify _) => apply returns_modify
  | |- total _ (dropIfEmpty _) => apply returns_dropIfEmpty
  | |- total _ next_epoch => apply returns_next_epoch
  | |- total _ (expire _ _) => apply returns_expire; solve [auto with returns]
  | |- total _ (mforeach _ _) => apply returns_mforeach; intros ?
  | |- total _ (mcollect _ _) => apply returns_mcollect; intros ?
  | |- total _ (mfold _ _ _) => apply returns_mfold; intros ? ?
  | |- total _ (mwhen _ _) => apply returns_mwhen
  | |- total _ (if ?b then _ else _) => destruct b
  | |- total _ (match ?x with _ => _ end) => destruct x
  | |- total _ (let x := _ in _) => cbv zeta
  | |- forall _, _ => intros ?
  | |- total _ _ => solve [auto with returns]
  end.
Ltac solve_returns := repeat returns_step.

Ltac quiet_step :=
  match goal with
  | |- quiet _ (_ ≫= _) => apply (quiet_bind (fun _ => True)); [|intros ? _]
  | |- quiet _ (mret _) => by apply quiet_ret
  | |- quiet _ date_now => by apply quiet_date_now
  | |- quiet _ (live _) => by apply quiet_live
  | |- quiet _ (throw _) => apply quiet_throw
  | |- quiet _ (lift _) => by apply quiet_lift
  | |- quiet _ (if ?b then _ else _) => destruct b
  | |- quiet _ (match ?x with _ => _ end) => destruct x
  | |- quiet _ (let x := _ in _) => cbv zeta
  | |- forall _, _ => intros ?
  | |- quiet _ _ => solve [auto with returns]
  end.
Ltac solve_quiet := repeat quiet_step.

#[export] Hint Resolve ttl_pos_day ttl_norm_probe : returns.

(** ** The operations *)

Lemma returns_hash key : returns (hash key).
Proof. intros now w. rewrite hash_run. simpl. eauto. Qed.
Lemma returns_zset key : returns (zset key).
Proof. intros now w. rewrite zset_run. simpl. eauto. Qed.
Lemma returns_setOf key : returns (setOf key).
Proof. intros now w. rewrite setOf_run. simpl. eauto. Qed.
Lemma returns_update_entry key f : returns (update_entry key f).
Proof. apply returns_modify. Qed.
Lemma returns_store_delete key : returns (store_delete key).
Proof. apply returns_modify. Qed.
Lemma returns_put key e : returns (put key e).
Proof. unfold put, armSweeper, modify_store. solve_returns. Qed.
#[export] Hint Resolve returns_hash returns_zset returns_setOf returns_update_entry
  returns_store_delete returns_put : returns.

Lemma returns_live_hash key : returns (live_hash key).
Proof. unfold live_hash; solve_returns. Qed.
Lemma returns_live_zset key : returns (live_zset key).
Proof. unfold live_zset; solve_returns. Qed.
Lemma returns_live_set key : returns (live_set key).
Proof. unfold live_set; solve_returns. Qed.
Lemma returns_live_str key : returns (live_str key).
Proof. unfold live_str; solve_returns. Qed.
Lemma quiet_live_hash key : quiet (fun _ => True) (live_hash key).
Proof. unfold live_hash; solve_quiet. Qed.
Lemma quiet_live_zset key : quiet (fun _ => True) (live_zset key).
Proof. unfold live_zset; solve_quiet. Qed.
#[export] Hint Resolve returns_live_hash returns_live_zset returns_live_set returns_live_str
  quiet_live_hash quiet_live_zset : returns.

Lemma returns_hget key field : returns (hget key field).
Proof. unfold hget; solve_returns. Qed.
Lemma returns_sorted key : returns (MemoryStore.sorted key).
Proof. unfold MemoryStore.sorted; solve_returns. Qed.
Lemma quiet_hget key field : quiet (fun _ => True) (hget key field).
Proof. unfold hget; solve_quiet. Qed.
Lemma quiet_sorted key : quiet (fun _ => True) (MemoryStore.sorted key).
Proof. unfold MemoryStore.sorted; solve_quiet. Qed.
Lemma returns_hash_set key field value : returns (hash_set key field value).
Proof. apply returns_modify. Qed.
Lemma returns_hash_delete key field : returns (hash_delete key field).
Proof. apply returns_modify. Qed.
Lemma returns_zset_set key member score : returns (zset_set key member score).
Proof. apply returns_modify. Qed.
Lemma returns_zset_delete key member : returns (zset_delete key member).
Proof. apply returns_modify. Qed.
Lemma returns_set_add key member : returns (set_add key member).
Proof. apply returns_modify. Qed.
Lemma returns_set_delete key member : returns (set_delete key member).
Proof. apply returns_modify. Qed.
#[export] Hint Resolve returns_hget returns_sorted quiet_hget quiet_sorted returns_hash_set
  returns_hash_delete returns_zset_set returns_zset_delete returns_set_add returns_set_delete
  : returns.

Lemma returns_hgetall key : returns (hgetall key).
Proof. unfold hgetall; solve_returns. Qed.
Lemma returns_removeMember key member : returns (removeMember key member).
Proof. unfold removeMember; solve_returns. Qed.
Lemma returns_sadd key member : returns (sadd key member).
Proof. unfold sadd; solve_returns. Qed.
Lemma returns_emit channel message : returns (emit channel message).
Proof. apply returns_modify. Qed.
Lemma returns_subscribe channels h : returns (subscribe channels h).
Proof. apply returns_modify. Qed.
Lemma returns_close : returns close.
Proof. apply returns_modify. Qed.
Lemma returns_run_microtask : returns run_microtask.
Proof. apply returns_modify. Qed.
Lemma returns_freezeBlocksAdmission key now : returns (freezeBlocksAdmission key now).
Proof. unfold freezeBlocksAdmission; solve_returns. Qed.
Lemma returns_freezeEmptiedBucket key now : returns (freezeEmptiedBucket key now).
Proof. unfold freezeEmptiedBucket; solve_returns. Qed.
Lemma returns_refill key config now : returns (refill key config now).
Proof. unfold refill; solve_returns. Qed.
Lemma returns_bumpGeneration key : returns (bumpGeneration key).
Proof. unfold bumpGeneration; solve_returns. Qed.
#[export] Hint Resolve returns_hgetall returns_removeMember returns_sadd returns_emit
  returns_subscribe returns_close returns_run_microtask returns_freezeBlocksAdmission
  returns_freezeEmptiedBucket returns_refill returns_bumpGeneration : returns.

Lemma returns_writeBucket key s t config : ttl_pos t -> returns (writeBucket key s t config).
Proof.
  intros Ht. unfold writeBucket.
  assert (exists x, normalizeTtlSeconds (match config with Some c => bucketTtl t c | None => t end)
    = Ok x) as [x Hx] by (destruct config; [by apply bucketTtl_pos|exists t; apply Ht]).
  rewrite Hx. eapply (total_bind ttl_norm); [apply total_lift; by eapply normalizeTtl_norm|].
  intros y Hy. solve_returns.
Qed.

(** A claim mark as [claimMark] returns it. *)
Definition mark_ok (mark : option ClaimMark) : Prop :=
  match mark with Some m => ttl_norm (mark_ttlSeconds m) | None => True end.

Lemma quiet_claimMark mark : quiet mark_ok (claimMark mark).
Proof.
  unfold claimMark. destruct mark as [m|]; [|by apply quiet_ret].
  eapply (quiet_bind ttl_norm); [|intros; by apply quiet_ret].
  apply quiet_lift. intros a Ha. by apply normalizeStateTtl_pos in Ha as [? _].
Qed.

Lemma returns_write_mark_opt key mark cost s :
  mark_ok mark -> returns (write_mark_opt key mark cost s).
Proof.
  destruct mark as [m|]; simpl; intros Hm; unfold write_mark_opt, writeMark; solve_returns.
Qed.
#[export] Hint Resolve returns_writeBucket returns_write_mark_opt : returns.

Lemma returns_creditTokens key cost max fk : returns (creditTokens key cost max fk).
Proof. unfold creditTokens; solve_returns. Qed.
Lemma returns_reapConcurrency key t : returns (reapConcurrency key t).
Proof. unfold reapConcurrency; solve_returns. Qed.
Lemma returns_concurrencyCost key id : returns (concurrencyCost key id).
Proof. unfold concurrencyCost; solve_returns. Qed.
Lemma returns_claimSlot key id cost now ttl : ttl_pos ttl -> returns (claimSlot key id cost now ttl).
Proof.
  intros [Ht _]. unfold claimSlot. rewrite Ht.
  eapply (total_bind ttl_norm); [by apply total_lift|intros]. solve_returns.
Qed.
Lemma returns_releaseSlot key id : returns (releaseSlot key id).
Proof. unfold releaseSlot; solve_returns. Qed.
#[export] Hint Resolve returns_creditTokens returns_reapConcurrency returns_concurrencyCost
  returns_claimSlot returns_releaseSlot : returns.
Lemma returns_acquireConcurrency key cost id config :
  returns (acquireConcurrency key cost id config).
Proof. unfold acquireConcurrency; solve_returns. Qed.
#[export] Hint Resolve returns_acquireConcurrency : returns.

(** *** Several budgets *)

Definition spec_ok (spec : MultiLimitSpec) : Prop :=
  match spec with TokenBucketSpec _ _ _ _ mark => mark_ok mark | ConcurrencySpec _ _ _ _ _ => True end.

Definition plan_ok (p : Plan) : Prop := Forall (fun b => mark_ok (pb_mark b)) (pl_buckets p).

Lemma quiet_claimMarks specs : quiet (Forall spec_ok) (claimMarks specs).
Proof.
  apply quiet_mcollect. intros [fk cost key config [m|]|]; unfold claimMarks_one; try by apply quiet_ret.
  eapply quiet_bind; [apply quiet_claimMark|intros m' Hm]. by apply quiet_ret.
Qed.

Lemma total_plan_step now p spec :
  spec_ok spec -> plan_ok p -> total plan_ok (plan_step now p spec).
Proof.
  intros Hs Hp. destruct spec as [fk cost key config mark|fk cost key config slotId]; simpl.
  - destruct (unusableBudget cost config); [by apply total_ret|].
    eapply total_bind; [apply returns_refill|intros s _].
    assert (plan_ok (plan_add_bucket p {| pb_key := key; pb_state := s; pb_cost := cost;
      pb_config := config; pb_mark := mark |})) as Hb
      by (apply Forall_app; split; [done|by constructor]).
    destruct (coversCost _ _ _); by apply total_ret.
  - destruct (slot_error cost config); [by apply total_ret|].
    eapply total_bind; [apply returns_reapConcurrency|intros ? _].
    eapply total_bind; [apply returns_concurrencyCost|intros ? _].
    destruct (_ >? _)%num; by apply total_ret.
Qed.

Lemma total_planMultiLimit specs now :
  Forall spec_ok specs -> total plan_ok (planMultiLimit specs now).
Proof.
  intros Hs. unfold planMultiLimit. assert (plan_ok empty_plan) as Hp by constructor.
  revert Hp. generalize empty_plan. induction Hs as [|spec specs H Hs IH]; intros p Hp; simpl.
  - by apply total_ret.
  - eapply total_bind; [by apply total_plan_step|intros p' Hp'].
    destruct (pl_error p'); [by apply total_ret|auto].
Qed.

Lemma returns_commit_plan p now ttl : plan_ok p -> ttl_pos ttl -> returns (commit_plan p now ttl).
Proof.
  intros Hp Ht. unfold commit_plan. apply (total_bind (fun _ => True)); [|intros; solve_returns].
  eapply total_mforeach; [exact Hp|]. intros b Hb. unfold commitBucket. solve_returns.
Qed.
Lemma returns_persistRefills p ttl : ttl_pos ttl -> returns (persistRefills p ttl).
Proof. intros. unfold persistRefills. solve_returns. Qed.
Lemma returns_any_freeze_blocks keys now : returns (any_freeze_blocks keys now).
Proof. induction keys; simpl; solve_returns; auto. Qed.
#[export] Hint Resolve returns_commit_plan returns_persistRefills returns_any_freeze_blocks : returns.

(** *** Queue and freezes *)

Lemma returns_next_in ids p skip skipIds now : returns (next_in ids p skip skipIds now).
Proof. induction ids; simpl; solve_returns; auto. Qed.
Lemma returns_set_opt key field v : returns (set_opt key field v).
Proof. unfold set_opt; solve_returns. Qed.
Lemma returns_drop_member key id : returns (drop_member key id).
Proof. unfold drop_member; solve_returns. Qed.
Lemma returns_readFreezeState key now : returns (readFreezeState key now).
Proof. unfold readFreezeState; solve_returns. Qed.
Lemma returns_any_competing ids p except g any now :
  returns (any_competing ids p except g any now).
Proof. induction ids; simpl; unfold isCompetingProbe; solve_returns; auto. Qed.
Lemma ttl_norm_day : ttl_norm (int 86400).
Proof. apply ttl_pos_day. Qed.
#[export] Hint Resolve returns_next_in returns_set_opt returns_drop_member
  returns_readFreezeState returns_any_competing ttl_norm_day : returns.

Lemma atomic_writeFreezeState key until count mode empties :
  atomic (writeFreezeState key until count mode empties).
Proof.
  unfold writeFreezeState. eapply (atomic_bind (fun _ => True)); [by apply quiet_date_now|intros now _].
  eapply (atomic_bind (fun _ => True)); [unfold merged_freeze; solve_quiet|intros [[u c] e] _].
  cbv zeta. eapply (atomic_bind ttl_norm);
    [apply quiet_lift; intros; by eapply normalizeTtl_norm|intros ttl Httl].
  apply (atomic_total (fun _ => True)). solve_returns.
Qed.

Lemma rnd_zero : rnd 0 = Fin 0.
Proof. exact (rnd_int 0 ltac:(done)). Qed.

Lemma atomic_setFreezeState key until count empties :
  atomic (setFreezeState key until count empties).
Proof.
  intros now w e. unfold setFreezeState. rewrite bind_run.
  pose proof (atomic_writeFreezeState key until count FreezeSet (empties_option empties) now w e) as H.
  destruct (writeFreezeState key until count FreezeSet (empties_option empties) now w)
    as [[s|e'] w1]; [done|]. intros [= ->]. by apply H.
Qed.

(** A deadline no later than [2^53 - 1] gives a lifetime that can be stored. *)
Lemma freezeTtl_ok d count now :
  (d <=? MAX_SAFE_INTEGER)%num = true -> (int 0 <=? now)%num = true ->
  isFinite d = true -> isFinite now = true ->
  exists x, normalizeTtlSeconds (freezeTtlSeconds d count now) = Ok x.
Proof.
  destruct d as [| |d], now as [| |n]; try done. intros Hd Hn _ _. pose proof unit1_pos as Hu.
  unfold leb, MAX_SAFE_INTEGER, int, max_safe in Hd, Hn. apply Z.leb_le in Hd, Hn.
  assert (forall a b k, (0 < b)%Z -> (a <= k * unit1 * b)%Z -> safe k -> (0 <= k)%Z ->
    (round_ratio a b <=? Fin (k * unit1))%num = true) as Hup.
  { intros a b k Hb Ha Hk _. change (Fin (k * unit1)) with (int k). rewrite <- (rnd_int k) by done.
    unfold rnd. rewrite <- (round_ratio_scale (k * unit1) 1 b) by lia.
    rewrite Z.mul_1_l. apply round_ratio_mono; lia. }
  unfold freezeTtlSeconds, sub, neg, add.
  pose proof (Hup (d + - n)%Z 1%Z (2 ^ 53)%Z ltac:(lia) ltac:(lia) ltac:(done) ltac:(lia)) as H1.
  fold (rnd (d + - n)) in H1.
  assert (exists c, (fmax (ceil (rnd (d + - n) / int 1000)) (int 0)) = Fin c /\
    (0 <= c <= 2 ^ 53 * unit1)%Z) as (c & -> & Hc).
  { change (int 0) with (Fin 0). destruct (rnd (d + - n)) as [|[]|m]; try done.
    { exists 0%Z. split; [reflexivity|lia]. }
    unfold leb in H1. apply Z.leb_le in H1. unfold div, int.
    rewrite (proj2 (Z.eqb_neq _ _)) by lia. rewrite Z.sgn_pos, Z.abs_eq by lia.
    pose proof (Hup (1 * m * unit1)%Z (1000 * unit1)%Z (2 ^ 53)%Z ltac:(lia) ltac:(nia)
      ltac:(done) ltac:(lia)) as H2.
    destruct (round_ratio _ _) as [|[]|q]; try done.
    { exists 0%Z. split; [reflexivity|lia]. }
    unfold leb in H2. apply Z.leb_le in H2. unfold ceil, fmax, ltb.
    rewrite zdiv_eq.
    pose proof (ceil_le_int q (2 ^ 53) H2).
    destruct (Z.ltb_spec (- (- q / unit1) * unit1) 0); eexists; (split; [reflexivity|lia]). }
  assert (exists k, (if (count >? int 0)%num then FREEZE_PROBE_TTL_SECONDS else int 60)
    = Fin (k * unit1) /\ (0 <= k <= 604800)%Z) as (k & -> & Hk).
  { destruct (_ >? _)%num; [exists 604800%Z|exists 60%Z]; (split; [|lia]); [by vm_compute|done]. }
  assert (0 <= k * unit1 <= 604800 * unit1)%Z as Hku
    by (split; [apply Z.mul_nonneg_nonneg; lia|apply Z.mul_le_mono_nonneg_r; lia]).
  (* the sum rounds to at most 2^53 + 2^20 *)
  pose proof (round_ratio_mono (c + k * unit1) (2 ^ 53 * unit1 + 2 ^ 20 * unit1) 1 ltac:(lia)
    ltac:(lia)) as H3.
  assert (round_ratio (2 ^ 53 * unit1 + 2 ^ 20 * unit1) 1 = Fin ((2 ^ 53 + 2 ^ 20) * unit1)) as E
    by (by vm_compute).
  rewrite E in H3. pose proof (round_ratio_mono 0 (c + k * unit1) 1 ltac:(lia) ltac:(lia)) as H4.
  fold (rnd 0) in H4. rewrite rnd_zero in H4. unfold leb in H3, H4.
  unfold rnd. destruct (round_ratio (c + k * unit1) 1) as [|[]|y];
    [discriminate H3|discriminate H4|discriminate H3|].
  apply Z.leb_le in H3. apply normalizeTtl_ok. lia.
Qed.

Lemma completions_key_ne key : completions_key key <> key.
Proof. by apply string_app_ne. Qed.

(** The freeze's fields after the completion was recorded. *)
Lemma record_completion_live key id (b : bool) now w :
  exists w1,
    mwhen b (setOf (completions_key key) ;; set_add (completions_key key) id ;;
             expire (completions_key key) FREEZE_PROBE_TTL_SECONDS) now w = (Ok tt, w1) /\
    live_at now w1 key = live_at now w key.
Proof.
  destruct b; [|by exists w]. unfold mwhen, set_add.
  rewrite (bind_ok _ _ _ _ _ _ (setOf_run _ _ _)), (bind_ok _ _ _ _ _ _ (update_upsert _ _ _ _ _)).
  rewrite (expire_upsert _ _ FREEZE_PROBE_TTL_SECONDS); [|by vm_compute|by vm_compute|auto with store].
  eexists. split; [done|]. apply live_at_upsert_ne. intros E. by apply (completions_key_ne key).
Qed.

(** The standing deadline of [key] is one [writeFreezeState] could have stored. *)
Definition deadline_storable (now : num) (w : World) (key : string) : Prop :=
  forall d, usableDeadline (field_at now w key "frozenUntil") = Some d ->
    (d <=? MAX_SAFE_INTEGER)%num = true.

Lemma usableDeadline_finite raw d : usableDeadline raw = Some d -> isFinite d = true.
Proof.
  unfold usableDeadline. destruct (isFinite (parseStoredNumber raw NaN)) eqn:E; [|done].
  by intros [= <-].
Qed.

Lemma thaw_tail_returns key (seen success : bool) d now w :
  (d <=? MAX_SAFE_INTEGER)%num = true -> isFinite d = true ->
  (int 0 <=? now)%num = true -> isFinite now = true ->
  exists a, ((thaw ← hget key "thawRequestCount";
    let count := parseFiniteStored thaw (int 0) in
    let unchanged := Some {| frozenUntil := d; thawRequestCount := count |} in
    if (seen : bool) then mret unchanged
    else
      now ← date_now;
      if (now >=? d)%num && (count <=? int 0)%num then store_delete key ;; mret None
      else if negb success then mret unchanged
      else
        let newCount := fmax (int 0) (count - int 1)%num in
        if (newCount =? int 0)%num && (now >=? d)%num then store_delete key ;; mret None
        else
          hash key ;;
          hash_set key "thawRequestCount" (num_to_string newCount) ;;
          expire key (freezeTtlSeconds d newCount now) ;;
          mret (Some {| frozenUntil := d; thawRequestCount := newCount |})) now w).1 = Ok a.
Proof.
  intros Hd Hf Hn Hnf. mstep. cbv zeta. destruct seen; [eexists; done|]. rewrite date_now_run.
  destruct (_ && _); [eexists; done|]. destruct (negb success); [eexists; done|].
  destruct (_ && _); [eexists; done|]. unfold hash_set. mstep. mstep.
  destruct (freezeTtl_ok d (fmax (int 0)
    (parseFiniteStored (field_at now w key "thawRequestCount") (int 0) - int 1)) now Hd Hn Hf Hnf)
    as [x Hx].
  rewrite (bind_fst_ok _ _ _ _ tt); [eexists; done|]. by eapply expire_ok.
Qed.

Lemma updateThawProgress_returns key success id now w :
  deadline_storable now w key -> (int 0 <=? now)%num = true -> isFinite now = true ->
  exists a, (updateThawProgress key success id now w).1 = Ok a.
Proof.
  intros Hd Hn Hnf. unfold updateThawProgress. cbv zeta. rewrite bind_run.
  assert (exists seen w0, (if non_empty id then s ← live_set (completions_key key);
      mret (bool_decide (default "" id ∈ default [] s)) else mret false) now w = (Ok seen, w0) /\
    live_at now w0 key = live_at now w key) as (seen & w0 & -> & H0).
  { destruct (non_empty id); [mstep|]; do 2 eexists; (split; [done|]);
      [apply live_at_purge_key|done]. }
  destruct (record_completion_live key (default "" id) (non_empty id && negb seen) now w0)
    as (w1 & H1 & Hl).
  rewrite (bind_ok _ _ _ _ _ _ H1). mstep.
  destruct (usableDeadline (field_at now w1 key "frozenUntil")) as [d|] eqn:E; [|eexists; done].
  apply (thaw_tail_returns key seen success d); try done; [|by eapply usableDeadline_finite].
  apply Hd. rewrite <- E. unfold field_at, hash_at. by rewrite Hl, H0.
Qed.

(** *** Every call *)

Ltac quiet_then_total :=
  repeat match goal with
  | |- atomic (lift (normalizeStateTtlSeconds _) ≫= _) =>
      eapply (atomic_bind ttl_pos); [apply quiet_lift; apply normalizeStateTtl_pos|intros ? ?]
  | |- atomic (lift _ ≫= _) => eapply (atomic_bind (fun _ => True)); [by apply quiet_lift|intros ? _]
  | |- atomic (claimMark _ ≫= _) => eapply atomic_bind; [apply quiet_claimMark|intros ? ?]
  | |- atomic (claimMarks _ ≫= _) => eapply atomic_bind; [apply quiet_claimMarks|intros ? ?]
  | |- atomic (throw _) => eapply (atomic_quiet (fun _ => True)), quiet_throw
  | |- atomic (if ?b then throw _ else _) => destruct b
  end;
  try (apply (atomic_total (fun _ => True));
       repeat match goal with H : ttl_pos _ |- _ => destruct (id H) as [? _]; revert H end;
       intros; solve_returns).

Lemma atomic_writeString key value t : atomic (writeString key value t).
Proof.
  unfold writeString. eapply (atomic_bind (fun _ => True)).
  - unfold optional_ttl. solve_quiet.
  - intros ttl _. apply (atomic_total (fun _ => True)). solve_returns.
Qed.

Lemma atomic_writeHash key fields t : atomic (writeHash key fields t).
Proof.
  unfold writeHash. eapply (atomic_bind (fun o => forall x, o = Some x -> ttl_norm x)).
  - unfold optional_ttl. destruct t as [t|]; [|by apply quiet_ret].
    eapply (quiet_bind ttl_norm); [apply quiet_lift; intros; by eapply normalizeTtl_norm|].
    intros x Hx. apply quiet_ret. by intros ? [= <-].
  - intros ttl Httl. apply (atomic_total (fun _ => True)).
    apply (total_bind (fun _ => True)); [destruct fields; solve_returns|intros _ _].
    destruct ttl; [|by apply total_ret]. apply returns_expire. auto.
Qed.

Lemma atomic_batch ops : atomic (batch ops).
Proof.
  intros now w e. unfold batch. rewrite bind_run, batch_check.
  destruct (first_error ops) eqn:E; [done|]. by rewrite batch_writes.
Qed.

Lemma atomic_multi {A} (m : M Plan) (f : Plan -> M A) :
  total plan_ok m -> (forall p, plan_ok p -> returns (f p)) -> atomic (m ≫= f).
Proof. intros. eapply atomic_total, total_bind; eauto. Qed.

Lemma atomic_acquireMultiLimit specs : atomic (acquireMultiLimit specs).
Proof.
  unfold acquireMultiLimit. eapply atomic_bind; [apply quiet_claimMarks|intros claims Hc].
  eapply (atomic_bind (fun _ => True)); [by apply quiet_date_now|intros now _].
  apply atomic_multi; [by apply total_planMultiLimit|intros p Hp]. solve_returns.
Qed.

Lemma atomic_tryAdmitMultiLimit q fs specs ttl : atomic (tryAdmitMultiLimit q fs specs ttl).
Proof.
  unfold tryAdmitMultiLimit.
  eapply (atomic_bind ttl_pos); [apply quiet_lift; apply normalizeStateTtl_pos|intros t Ht].
  eapply atomic_bind; [apply quiet_claimMarks|intros claims Hc].
  apply (atomic_total (fun _ => True)).
  apply (total_bind (fun _ => True)); [apply returns_sorted|intros waiting _].
  destruct (decide _); [by apply total_ret|].
  apply (total_bind (fun _ => True)); [by apply total_date_now|intros now _].
  apply (total_bind (fun _ => True)); [apply returns_any_freeze_blocks|intros [] _; [by apply total_ret|]].
  eapply total_bind; [by apply total_planMultiLimit|intros p Hp]. solve_returns.
Qed.

(** The one operation with a condition: [updateThawProgress] re-arms the key
    from the stored deadline. *)
Definition call_storable (now : num) (w : World) {A} (c : call A) : Prop :=
  match c with CUpdateThawProgress key _ _ => deadline_storable now w key | _ => True end.

Lemma atomic_exec {A} (c : call A) :
  match c with CUpdateThawProgress _ _ _ => True | _ => atomic (exec c) end.
Proof.
  destruct c; cbn [exec]; try exact I;
    lazymatch goal with
    | |- atomic (MemoryStore.set _ _ _) => exact (atomic_writeString _ _ _)
    | |- atomic (hset _ _ _) => exact (atomic_writeHash _ _ _)
    | |- atomic (batch _) => exact (atomic_batch _)
    | |- atomic (acquireMultiLimit _) => exact (atomic_acquireMultiLimit _)
    | |- atomic (tryAdmitMultiLimit _ _ _ _) => exact (atomic_tryAdmitMultiLimit _ _ _ _)
    | |- atomic (armFreeze _ _ _ _) => exact (atomic_writeFreezeState _ _ _ _ _)
    | |- atomic (setFreezeState _ _ _ _) => exact (atomic_setFreezeState _ _ _ _)
    | |- _ => idtac
    end;
    unfold MemoryStore.get, del, hgetall, smembers, acquireLock, releaseLock,
      acquireTokens, getTokenBucketState, resetTokenBucket, emptyTokenBucket,
      settleTokens, settle_one, tryAdmitImmediately, tryAdmitNoLimit,
      releaseMultiLimit, release_one, acquireQueuedConcurrency, tryAdmitConcurrency,
      touchConcurrency, touchClaimMark, getConcurrencyState, clearConcurrency,
      addRequest, getQueueLength, getNextRequest, confirmRequest, getRequest,
      updateRequest, removeRequest, getQueueStats, stats_step, getAllRequests,
      cleanupOrphanedRequests, cleanup_step, getFreezeState, clearFreezeState,
      isFrozen, canProcessRequest, hasThawRequestInProgress, tryStartThawRequest,
      cleanupStaleFrozenGrants, probing_step, stale_step, getInstances, now_;
    quiet_then_total.
Qed.

(** C12.  An operation that throws has changed nothing: whatever the call and
    the state, if it throws at an instant that is not negative, every key
    holds afterwards what it held before, at that instant and at every later
    one, and no message was published.  For [updateThawProgress] the stored
    deadline has to be one the backend itself can have written. *)
Theorem throw_changes_nothing {A} (c : call A) (now : num) (w w' : World) (e : js_error) :
  (int 0 <=? now)%num = true -> isFinite now = true -> call_storable now w c ->
  exec c now w = (Throw e, w') -> same_view now w' w.
Proof.
  intros Hn Hf Hs E. pose proof (atomic_exec c) as Ha.
  assert ((exec c now w).1 = Throw e) as H1 by by rewrite E.
  replace w' with (exec c now w).2 by by rewrite E.
  destruct c; try by eapply Ha. exfalso.
  destruct (updateThawProgress_returns key success completionId now w Hs Hn Hf) as [a Ha'].
  simpl in H1. congruence.
Qed.

(** A request whose TTL is refused is not half added. *)
Definition demo_request : QueuedRequest := {|
  q_requestId := "r1"; q_clientName := "c"; q_requestName := ""; q_status := "pending";
  q_priority := int 1; q_cost := CostNumber (int 1); q_retries := int 0;
  q_timestamp := int 1767225600000; q_grantId := None; q_isThawRequest := false;
  q_settles := false; q_ownerId := "me"; q_claimedAt := None |}.

Lemma throw_changes_nothing_witness :
  same_view (int 5) (exec (CAddRequest "q" "m" demo_request (int 0)) (int 5) MemoryBackend).2
    MemoryBackend.
Proof.
  assert (exists e, exec (CAddRequest "q" "m" demo_request (int 0)) (int 5) MemoryBackend
    = (Throw e, (exec (CAddRequest "q" "m" demo_request (int 0)) (int 5) MemoryBackend).2)) as [e He]
    by (vm_compute; eexists; reflexivity).
  apply (throw_changes_nothing (CAddRequest "q" "m" demo_request (int 0)) (int 5) MemoryBackend
    (exec (CAddRequest "q" "m" demo_request (int 0)) (int 5) MemoryBackend).2 e);
    [vm_compute; reflexivity|reflexivity|exact I|exact He].
Defined.
