(* ===== verification/CostProps.v ===== *)
(** * What the cost checks promise

    A cost that passes names exactly the limits it is charged to and fits every
    ceiling, a refusal names the tightest ceiling it breaks, and what passes
    the checks of a list and of a cost is a cost every full bucket covers. *)
From S2P Require Import Prelude JsNumber JsString Json JsonFacts Shared SharedFacts MemoryStore StoreFacts.
From S2P Require Import TokenBucket TokenBucketFacts Queue Atomicity Value RateLimit Cost.
Local Open Scope num_scope.

(** ** The loop over the limits *)

(** The amount a limit is charged fits its ceiling. *)
Definition fits (cost : RequestCost) (l : NamedRateLimitData) : Prop :=
  exists a, costFor cost (n_name l) = Ok a /\ (a <=? ceilingOf l) = true.

Definition over (cost : RequestCost) (l : NamedRateLimitData) (b : breach) : Prop :=
  costFor cost (n_name l) = Ok (b_amount b) /\ b_ceiling b = ceilingOf l /\
  (b_amount b <=? b_ceiling b) = false /\ b_limit b = l.

(** What the loop has found, once it has seen [seen]. *)
Definition breach_inv (cost : RequestCost) (seen : list NamedRateLimitData) (b : option breach) : Prop :=
  match b with
  | None => Forall (fits cost) seen
  | Some b =>
      (exists l, l ∈ seen /\ over cost l b) /\
      forall l, l ∈ seen -> fits cost l \/ (ceilingOf l <? b_ceiling b) = false
  end.

Lemma find_breach_spec cost limits : forall seen b,
  breach_inv cost seen b ->
  match find_breach cost limits b with
  | Ok b' => breach_inv cost (seen ++ limits) b'
  | Throw _ => exists l, l ∈ limits /\ forall a, costFor cost (n_name l) <> Ok a
  end.
Proof.
  induction limits as [|l limits IH]; intros seen b Hb; cbn [find_breach].
  { by rewrite app_nil_r. }
  destruct (costFor cost (n_name l)) as [a|e] eqn:Ha; cbn.
  2:{ exists l. split; [left|]. intros a. by rewrite Ha. }
  assert (forall b', breach_inv cost (seen ++ [l]) b' ->
    match find_breach cost limits b' with
    | Ok b' => breach_inv cost (seen ++ l :: limits) b'
    | Throw _ => exists l', l' ∈ l :: limits /\ forall a, costFor cost (n_name l') <> Ok a
    end) as Hstep.
  { intros b' Hb'. specialize (IH _ _ Hb'). rewrite <- app_assoc in IH.
    destruct (find_breach cost limits b'); [done|]. destruct IH as (l' & ? & ?). exists l'. split; [by right|done]. }
  destruct (a <=? ceilingOf l) eqn:Hle; [|destruct (match b with None => true | Some _ => _ end) eqn:Ht];
    apply Hstep.
  - assert (fits cost l) by (by exists a). destruct b as [b|]; cbn [breach_inv] in *.
    + destruct Hb as [(l' & Hl' & Ho) Hall]. split; [exists l'; set_solver|].
      intros l2 [H2| ->%list_elem_of_singleton]%elem_of_app; auto.
    + apply Forall_app. split; [done|]. by constructor.
  - split; [exists l; split; [set_solver|done]|]. cbn [b_ceiling].
    intros l2 [H2| ->%list_elem_of_singleton]%elem_of_app; [|right; apply ltb_irrefl].
    destruct b as [b|]; cbn [breach_inv] in Hb; [|left; by rewrite Forall_forall in Hb; apply Hb].
    destruct Hb as [_ Hall]. destruct (Hall l2 H2); [by left|right]. by eapply ltb_false_trans.
  - destruct b as [b|]; [|done]. destruct Hb as [(l' & Hl' & Ho) Hall]. split; [exists l'; set_solver|].
    intros l2 [H2| ->%list_elem_of_singleton]%elem_of_app; auto.
Qed.

(** ** Names *)

(** The cost names exactly these limits; a number is charged to each of them. *)
Definition names_match (cost : RequestCost) (limits : list NamedRateLimitData) : Prop :=
  match cost with
  | CostNumber _ => True
  | CostRecord l => forall name, name ∈ l.*1 <-> name ∈ n_name <$> limits
  end.

Lemma names_match_record l limits :
  (missing_names (map n_name limits) l = [] /\ unknown_names (map n_name limits) l = []) <->
  names_match (CostRecord l) limits.
Proof.
  unfold missing_names, unknown_names, names_match, hasOwn. rewrite !filter_nil_iff.
  setoid_rewrite bool_decide_eq_false. change (map n_name limits) with (n_name <$> limits).
  split.
  - intros [Hm Hu] name. split; [intros Hn%Hu; by apply dec_stable|intros Hn%Hm; by apply dec_stable].
  - intros Hn. split; intros name Hin H; apply H; by apply Hn.
Qed.

Lemma costProblem_spec (clientName : string) (cost : RequestCost)
    (limits : list NamedRateLimitData) :
  (costProblem clientName cost (Some limits) = Ok None <->
     names_match cost limits /\ Forall (fits cost) limits) /\
  forall a c name,
    costProblem clientName cost (Some limits)
    = Ok (Some (RequestCostExceedsBudgetError clientName a c name)) ->
    (exists l, l ∈ limits /\ costFor cost (n_name l) = Ok a /\ c = ceilingOf l /\ (a <=? c) = false /\
       name = if (1 <? length limits)%nat then Some (n_name l) else None) /\
    forall l, l ∈ limits -> fits cost l \/ (ceilingOf l <? c) = false.
Proof.
  pose proof (find_breach_spec cost limits [] None ltac:(constructor)) as Hf. cbn [app] in Hf.
  assert (forall (P : Prop) (r : result (option cost_error)),
    r = (match find_breach cost limits None with
         | Ok b => Ok (option_map (fun b => RequestCostExceedsBudgetError clientName (b_amount b) (b_ceiling b)
             (if (1 <? length limits)%nat then Some (n_name (b_limit b)) else None)) b)
         | Throw e => Throw e end) -> P ->
    (r = Ok None <-> P /\ Forall (fits cost) limits) /\
    forall a c name, r = Ok (Some (RequestCostExceedsBudgetError clientName a c name)) ->
      (exists l, l ∈ limits /\ costFor cost (n_name l) = Ok a /\ c = ceilingOf l /\ (a <=? c) = false /\
         name = if (1 <? length limits)%nat then Some (n_name l) else None) /\
      forall l, l ∈ limits -> fits cost l \/ (ceilingOf l <? c) = false) as Hloop.
  { intros P r -> HP. destruct (find_breach cost limits None) as [[b|]|e]; cbn [option_map].
    - destruct Hf as [(l & Hl & Ha & Hc & Hle & Hlim) Hall]. split.
      + split; [done|]. intros [_ H]. rewrite Forall_forall in H. destruct (H l Hl) as (a & Ha' & Hfit).
        rewrite Ha in Ha'. injection Ha' as <-. rewrite <- Hc in Hfit. congruence.
      + intros a c name [= <- <- <-]. split; [|done]. exists l. by rewrite Hlim.
    - split; [done|]. done.
    - split; [|done]. split; [done|]. intros [_ H]. rewrite Forall_forall in H.
      destruct Hf as (l & Hl & Hn). destruct (H l Hl) as (a & Ha & _). by destruct (Hn a). }
  unfold costProblem. cbv zeta. destruct cost as [n|l].
  { apply Hloop; [|done]. by destruct (find_breach _ _ _). }
  pose proof (names_match_record l limits) as Hn.
  destruct (missing_names _ l) as [|m ms], (unknown_names _ l) as [|u us].
  { apply Hloop; [by destruct (find_breach _ _ _)|]. by apply Hn. }
  all: split; [split; [done|intros [[? ?]%Hn _]; done]|done].
Qed.


Lemma costProblem_none clientName cost limits :
  costProblem clientName cost (Some limits) = Ok None -> names_match cost limits /\ Forall (fits cost) limits.
Proof. apply costProblem_spec. Qed.

(** C22.  A cost is accepted exactly when it names the limits it is charged to,
    no more and no fewer, and every amount fits its limit's ceiling; and a
    refusal for exceeding a ceiling reports a limit the cost does exceed, with
    its amount and its ceiling, and no limit it exceeds has a lower one. *)
Theorem costProblem_decides (clientName : string) (cost : RequestCost)
    (limits : list NamedRateLimitData) :
  (costProblem clientName cost (Some limits) = Ok None <->
     names_match cost limits /\ Forall (fits cost) limits) /\
  forall a c name,
    costProblem clientName cost (Some limits)
    = Ok (Some (RequestCostExceedsBudgetError clientName a c name)) ->
    (exists l, l ∈ limits /\ costFor cost (n_name l) = Ok a /\ c = ceilingOf l /\ (a <=? c) = false /\
       name = if (1 <? length limits)%nat then Some (n_name l) else None) /\
    forall l, l ∈ limits -> fits cost l \/ (ceilingOf l <? c) = false.
Proof. apply costProblem_spec. Qed.

(** ** Amounts a usable cost charges *)

Lemma of_json_obj l : of_json (JObj l) = VObj true ((fun e => (e.1, of_json e.2)) <$> l).
Proof. cbn. f_equal. induction l as [|[k x] l IH]; [done|]. cbn. by f_equal. Qed.

Lemma good_amount v : bad_amount v = false -> exists n, v = VNum n /\ isFinite n = true /\ (int 0 <=? n) = true.
Proof.
  destruct v as [| | |n| | | |]; try done. cbn. destruct (isFinite n) eqn:E; [|done]. cbn.
  intros Hb. exists n. split_and!; try done. destruct n as [|[]|n]; try done.
  unfold eqb, ltb, leb, EPSILON, int in *. rewrite Z.mul_0_l in *. apply Z.leb_le.
  destruct (Z.ltb_spec n (2 ^ 1022)) as [Hlt|]; [|lia].
  rewrite andb_true_r in Hb. apply negb_false_iff, bool_decide_eq_true in Hb. injection Hb as ->. lia.
Qed.

Lemma unusableCostReason_amounts cost name a :
  unusableCostReason (cost_value cost) = None -> costFor cost name = Ok a ->
  isFinite a = true /\ (int 0 <=? a) = true.
Proof.
  destruct cost as [n|l]; cbn [cost_value costFor].
  - cbn [unusableCostReason]. destruct (isFinite n) eqn:E; [|done]. cbn [andb].
    destruct (n >=? EPSILON) eqn:E2; [|done]. intros _ [= <-]. split; [done|].
    destruct n as [|[]|n]; try done. revert E2. unfold geb, leb, EPSILON, int.
    rewrite Z.mul_0_l, !Z.leb_le. pose proof (Z.pow_pos_nonneg 2 1022 ltac:(lia) ltac:(lia)). lia.
  - rewrite of_json_obj. cbn [unusableCostReason plain_entries].
    set (entries := _ <$> l). intros Hr Hc.
    destruct (omap_get name l) as [j|] eqn:Hg; [|done]. destruct j as [| |n| | |]; try done.
    injection Hc as ->. apply omap_get_elem in Hg.
    assert ((name, VNum a) ∈ entries) as Hin by (apply list_elem_of_fmap; by exists (name, JNum a)).
    destruct (List.find (fun e => bad_amount e.2) entries) as [[m v]|] eqn:Hf.
    { destruct entries; [by apply elem_of_nil in Hin|done]. }
    apply list_elem_of_In in Hin. pose proof (List.find_none _ _ Hf _ Hin) as Hb.
    destruct (good_amount _ Hb) as (n & [= <-] & ? & ?). done.
Qed.

(** ** A full bucket *)

Definition bucket_config (o : RequestLimitClientOptions) : TokenBucketConfig :=
  {| maxTokens := rl_maxTokens o; tokensToAdd := rl_tokensToAdd o; interval := rl_interval o |}.

Lemma acquireTokens_covered key cost config now w :
  unusableBudget cost config = None ->
  coversCost (tokens (bucket_at now w key config)) cost (maxTokens config) = true ->
  exists w', acquireTokens key cost config None now w
    = (Ok {| at_acquired := true; at_waitTime := None;
             at_remainingTokens := Some (tokens (bucket_at now w key config) - cost);
             at_error := None |}, w').
Proof.
  intros Hu Hc. unfold acquireTokens, claimMark. rewrite (bind_ok _ _ _ _ _ _ eq_refl), Hu, date_now_run.
  rewrite (bind_ok _ _ _ _ _ _ (refill_run key config now w)), Hc.
  destruct (returns_writeBucket key
    (with_tokens (tokens (bucket_at now w key config) - cost) (bucket_at now w key config))
    (int 86400) (Some config) ttl_pos_day now (purge_key now key w)) as ([] & Hw & _).
  destruct (writeBucket _ _ _ _ now _) as [r w'] eqn:Ew. cbn [fst] in Hw. subst r.
  exists w'. by rewrite (bind_ok _ _ _ _ _ _ Ew).
Qed.

(** A key that does not exist reads as a full bucket. *)
Lemma bucket_at_absent now w key config :
  live_at now w key = None -> isFinite now = true -> tokens (bucket_at now w key config) = maxTokens config.
Proof.
  intros Hl Hn. unfold bucket_at, stored_bucket. rewrite !field_at_dead by done.
  assert (forall x, parseFiniteStored None x = x) as Hp.
  { intros x. unfold parseFiniteStored. change (parseStoredNumber None x) with x.
    by destruct (isFinite x). }
  rewrite !Hp. unfold refill_state, credit. cbn [tokens lastUpdate].
  assert ((now - now >? int 0) = false) as ->.
  { destruct now as [|[]|n]; try done. unfold sub, add, neg.
    rewrite Z.add_opp_diag_r. change 0%Z with (0 * unit1)%Z. by rewrite rnd_int by done. }
  cbn [andb]. unfold gtb. rewrite ltb_irrefl. by destruct (_ && _).
Qed.

Lemma covers_below cost max :
  wf_num cost -> isFinite cost = true -> isFinite max = true ->
  (int 0 <=? cost) = true -> (cost <=? max) = true -> coversCost max cost max = true.
Proof.
  intros Hw Hc Hm H0 Hle. destruct cost as [| |c]; try done. destruct max as [| |m]; try done.
  assert (fmin (Fin m) (Fin c) = Fin c) as Hmin.
  { unfold fmin, ltb, leb in *. apply Z.leb_le in Hle. destruct (Z.ltb_spec c m); [done|f_equal; lia]. }
  unfold coversCost, geb. rewrite Hmin. eapply leb_trans; [|exact Hle].
  destruct BALANCE_TOLERANCE_units as (t & -> & Ht & _).
  assert (0 <= c)%Z as Hc0 by (unfold leb, int in H0; apply Z.leb_le in H0; lia).
  assert ((int 0 <=? Fin c * Fin t) = true) as Hv.
  { unfold mul. change (int 0) with (Fin 0). rewrite <- (rnd_exact 0) by apply (wf_int 0 ltac:(done)).
    unfold rnd. rewrite <- (round_ratio_scale 0 1 unit1) by (lia || apply unit1_pos).
    rewrite Z.mul_1_l. apply round_ratio_mono; [apply unit1_pos|lia]. }
  destruct (Fin c * Fin t) as [|[]|v]; try done. unfold sub, add, neg.
  rewrite <- (rnd_exact c Hw). apply round_ratio_mono; [lia|].
  unfold leb, int in Hv. apply Z.leb_le in Hv. lia.
Qed.

(** C23.  What the checks let through, the budgets can admit: for a list and a
    cost that pass their checks, every [requestLimit] of the list is charged a
    definite amount, and a claim of that amount on its full bucket is granted,
    with no error and for exactly that amount. *)
Theorem accepted_cost_is_admitted (config : list NamedRateLimitData) (clientName : string)
    (cost : RequestCost) (l : NamedRateLimitData) (o : RequestLimitClientOptions)
    (key : string) (now : num) (w : World) :
  assertUsableRateLimits config clientName = Ok tt ->
  unusableCostReason (cost_value cost) = None ->
  costProblem clientName cost (Some (metered config)) = Ok None ->
  l ∈ config -> n_limit l = requestLimit o ->
  (forall a, costFor cost (n_name l) = Ok a -> wf_num a) ->
  live_at now w key = None -> isFinite now = true ->
  exists a w', costFor cost (n_name l) = Ok a /\
    acquireTokens key a (bucket_config o) None now w
    = (Ok {| at_acquired := true; at_waitTime := None;
             at_remainingTokens := Some (rl_maxTokens o - a); at_error := None |}, w').
Proof.
  intros Hcfg Hcost Hprob Hl Ho Hwf Hdead Hnow.
  assert (admits (n_limit l)) as Hadm.
  { apply usable_config_iff in Hcfg as [_ _ _ _ Hall]. rewrite Forall_forall in Hall. by apply Hall. }
  rewrite Ho in Hadm. destruct Hadm as ([HA HA0] & [HI _] & [HM HM0] & _).
  assert (fits cost l) as (a & Ha & Hfit).
  { apply costProblem_none in Hprob as [_ Hall]. rewrite Forall_forall in Hall. apply Hall.
    apply list_elem_of_filter. split; [|done]. unfold isMetered. by rewrite Ho. }
  unfold ceilingOf in Hfit. rewrite Ho in Hfit.
  destruct (unusableCostReason_amounts _ _ _ Hcost Ha) as [Hfin Hpos].
  exists a. pose proof (bucket_at_absent now w key (bucket_config o) Hdead Hnow) as Hb.
  cbn [bucket_config maxTokens] in Hb.
  destruct (acquireTokens_covered key a (bucket_config o) now w) as (w' & E).
  - unfold unusableBudget, usableCost. cbn [bucket_config maxTokens tokensToAdd interval].
    unfold gtb. rewrite HA0, HM, HI, Hfin. unfold geb. rewrite Hpos. cbn [negb orb andb].
    by rewrite leb_neg_ltb, HM0.
  - rewrite Hb. apply covers_below; auto.
  - exists w'. split; [done|]. by rewrite E, Hb.
Qed.

Lemma accepted_cost_is_admitted_witness :
  exists a w', costFor (CostNumber (int 3)) "default" = Ok a /\
    acquireTokens "k" a (bucket_config five_per_second) None (int 7) MemoryBackend
    = (Ok {| at_acquired := true; at_waitTime := None;
             at_remainingTokens := Some (rl_maxTokens five_per_second - a); at_error := None |}, w').
Proof.
  apply (accepted_cost_is_admitted [{| n_limit := per_second; n_name := "default" |}] "acme"
    (CostNumber (int 3)) {| n_limit := per_second; n_name := "default" |} five_per_second "k" (int 7) MemoryBackend).
  - vm_compute; reflexivity.
  - vm_compute; reflexivity.
  - vm_compute; reflexivity.
  - left.
  - reflexivity.
  - intros a [= <-]. apply wf_int. unfold safe. lia.
  - reflexivity.
  - reflexivity.
Defined.

Definition two_limits : list NamedRateLimitData :=
  [{| n_limit := per_second; n_name := "a" |}; {| n_limit := concurrencyLimit (int 2); n_name := "b" |}].

Lemma costProblem_decides_witness :
  costProblem "acme" (CostNumber (int 7)) (Some two_limits)
  = Ok (Some (RequestCostExceedsBudgetError "acme" (int 7) (int 2) (Some "b"))) /\
  forall l, l ∈ two_limits -> fits (CostNumber (int 7)) l \/ (ceilingOf l <? int 2) = false.
Proof.
  split; [reflexivity|].
  apply (proj2 (costProblem_decides "acme" (CostNumber (int 7)) two_limits) (int 7) (int 2) (Some "b")).
  reflexivity.
Defined.

(** ** Settlements *)

(** A settlement these limits can take: one amount for every bucket, or an
    amount for each bucket by name and for nothing else. *)
Definition settled_ok (settled : value) (limits : list NamedRateLimitData) : Prop :=
  match settled with
  | VNum n => isFinite n = true /\ (int 0 <=? n) = true
  | VObj true entries =>
      Forall (fun e => usable_settled e.2 = true) entries /\
      (forall name, name ∈ entries.*1 <-> name ∈ buckets_of limits) /\
      forall name, name ∈ entries.*1 -> name ∉ slots_of limits
  | _ => False
  end.

Lemma find_none_Forall {A} (f : A -> bool) l :
  List.find f l = None <-> Forall (fun x => f x = false) l.
Proof.
  induction l as [|x l IH]; cbn; [split; auto using List.Forall_nil|].
  rewrite Forall_cons. destruct (f x) eqn:E; [split; [done|by intros []]|].
  rewrite IH. naive_solver.
Qed.

Lemma settled_names_ok named limits :
  settled_names_problem named limits = None <->
  (forall name, name ∈ named <-> name ∈ buckets_of limits) /\
  forall name, name ∈ named -> name ∉ slots_of limits.
Proof.
  unfold settled_names_problem. cbv zeta.
  pose proof (filter_nil_iff (fun name => name ∉ named) (buckets_of limits)) as Hm.
  pose proof (filter_nil_iff (fun name => name ∈ slots_of limits) named) as Hc.
  pose proof (filter_nil_iff (fun name => name ∉ buckets_of limits /\ name ∉ slots_of limits) named) as Hu.
  destruct (filter (fun name => name ∉ named) _) as [|m ms] eqn:Em.
  2:{ split; [done|]. intros [H _]. assert (m :: ms = []); [|done]. apply Hm. intros x Hx Hn. by apply Hn, H. }
  destruct (filter (fun name => name ∈ slots_of limits) named) as [|c cs] eqn:Ec.
  2:{ split; [done|]. intros [_ H]. assert (c :: cs = []); [|done]. apply Hc. intros x Hx. by apply H. }
  destruct (filter (fun name => name ∉ buckets_of limits /\ name ∉ slots_of limits) named) as [|u us] eqn:Eu.
  2:{ split; [done|]. intros [H _]. assert (u :: us = []); [|done]. apply Hu. cbv beta. intros x Hx [Hn _]. by apply Hn, H. }
  split; [|done]. intros _. destruct Hm as [Hm _], Hc as [Hc _], Hu as [Hu _].
  specialize (Hm eq_refl). specialize (Hc eq_refl). specialize (Hu eq_refl).
  split; [|done]. intros name. split; intros Hn.
  - apply dec_stable. intros Hb. apply (Hu name Hn). auto.
  - apply dec_stable. by apply Hm.
Qed.

(** A settlement is accepted exactly when it is one usable amount, or
    usable amounts that name every [requestLimit] of the list and nothing
    else, a concurrency limit included. *)
Theorem settledCostProblem_decides (settled : value) (limits : list NamedRateLimitData) :
  settledCostProblem settled limits = None <-> settled_ok settled limits.
Proof.
  destruct settled as [| | |n| | |plain entries|]; try (split; [done|by intros []]); cbn.
  - unfold geb. destruct (isFinite n), (int 0 <=? n); cbn; split; try done; by intros [].
  - destruct plain; cbn; [|split; done].
    pose proof (find_none_Forall (fun e => negb (usable_settled e.2)) entries) as Hf.
    setoid_rewrite negb_false_iff in Hf.
    destruct (List.find _ entries) as [[name amount]|].
    + split; [done|]. intros [H _]. apply Hf in H. done.
    + rewrite settled_names_ok. split; [|naive_solver]. intros H. split; [|done]. by apply Hf.
Qed.

(** ** A cost as the queue stores it *)

(** Amounts that are doubles, each limit named once. *)
Definition cost_storable (cost : RequestCost) : Prop :=
  match cost with
  | CostNumber n => wf_num n
  | CostRecord l => NoDup l.*1 /\ forall name n, (name, JNum n) ∈ l -> wf_num n
  end.

Lemma usable_number n :
  unusableCostReason (cost_value (CostNumber n)) = None -> isFinite n = true /\ n <> int 0.
Proof.
  cbn [cost_value unusableCostReason]. destruct (isFinite n); [|done]. destruct (n >=? EPSILON) eqn:E; [|done].
  intros _. split; [done|]. intros ->. vm_compute in E. discriminate.
Qed.

Lemma num_text_no_brace n :
  wf_num n -> isFinite n = true -> startsWith "{" (trimStart (num_to_string n)) = false.
Proof.
  intros Hw Hf. destruct (num_text_head n "" Hw Hf I) as (c & t & E & Hc). rewrite string_app_nil_r in E.
  rewrite E. destruct Hc as [[d Hd]| ->]; [|done].
  destruct c as [[] [] [] [] [] [] [] []]; try discriminate Hd; reflexivity.
Qed.

Lemma usable_record_ok l :
  unusableCostReason (cost_value (CostRecord l)) = None -> cost_storable (CostRecord l) ->
  json_ok (JObj l).
Proof.
  cbn [cost_value cost_storable]. rewrite of_json_obj. cbn [unusableCostReason plain_entries].
  intros Hu [Hd Hw]. constructor; [done|]. rewrite Forall_forall. intros [name j] Hin. cbn [snd].
  set (entries := _ <$> l) in Hu.
  assert ((name, of_json j) ∈ entries) as Hin' by (apply list_elem_of_fmap; by exists (name, j)).
  destruct (List.find (fun e => bad_amount e.2) entries) as [[m v]|] eqn:Hf.
  { destruct entries; [by apply elem_of_nil in Hin'|done]. }
  apply list_elem_of_In in Hin'. pose proof (List.find_none _ _ Hf _ Hin') as Hb. cbn [snd] in Hb.
  destruct (good_amount _ Hb) as (n & En & Hfin & _). destruct j; try discriminate En.
  injection En as ->. constructor; [|done]. by eapply Hw.
Qed.

(** A cost survives the queue: any cost the checks accept, one amount or
    an amount per limit, is read back from its stored text as it was, so the
    replica that admits a request charges what its owner asked for. *)
Theorem stored_cost_roundtrip (cost : RequestCost) :
  unusableCostReason (cost_value cost) = None -> cost_storable cost ->
  parseStoredCost (Some (formatStoredCost cost)) = cost.
Proof.
  intros Hu Hs. unfold parseStoredCost. change (default "" (Some ?a)) with a.
  destruct cost as [n|l]; cbn [formatStoredCost cost_storable] in *.
  - destruct (usable_number n Hu) as [Hf Hn]. rewrite num_text_no_brace by done. cbn [negb].
    rewrite parseFloat_num_to_string by done. unfold num_or. destruct n as [| |m]; try done.
    cbn [isNaN orb]. destruct (Fin m =? int 0) eqn:E; [|done]. exfalso. apply Hn.
    unfold eqb, int in E. apply bool_decide_eq_true in E. done.
  - rewrite stringify_obj. change ("{" +:+ ?a +:+ "}") with (String "{" (a +:+ "}")).
    change (startsWith "{" (trimStart (String "{" ?a))) with true. cbn [negb].
    change (String "{" (members_text l +:+ "}")) with ("{" +:+ members_text l +:+ "}").
    rewrite <- stringify_obj, parse_stringify; [done|]. by apply usable_record_ok.
Qed.

Lemma stored_cost_roundtrip_witness :
  let cost := CostRecord [("per_second", JNum (int 1)); ("tokens", JNum (int 250))] in
  parseStoredCost (Some (formatStoredCost cost)) = cost.
Proof.
  cbv zeta. apply stored_cost_roundtrip; [vm_compute; reflexivity|].
  split; [repeat constructor; set_solver|]. intros name n Hin.
  repeat (apply elem_of_cons in Hin as [[= _ ->]|Hin]; [apply wf_int; unfold safe; lia|]).
  by apply elem_of_nil in Hin.
Defined.
