(* ===== verification/AdmissionProps.v ===== *)
(** * Admission, refunds and settlement on any bucket

    The fast path against the claim it stands for, what a refund can do to a
    balance, and that a claim is settled once.  These hold for every double,
    not only for integers. *)
From S2P Require Import Prelude JsNumber JsString Shared SharedFacts MemoryStore StoreFacts.
From S2P Require Import TokenBucket TokenBucketFacts Concurrency MultiLimit Queue Freeze Backend.
From S2P Require Import Observe StoreProps Atomicity.
Local Open Scope num_scope.

(** ** The fast path *)

(** Whether the freeze at [key] keeps the fast path shut. *)
Definition freeze_blocks_at (now : num) (w : World) (key : string) : bool :=
  match usableDeadline (field_at now w key "frozenUntil") with
  | None => false
  | Some until =>
      (now <? until)
      || (parseFiniteStored (field_at now w key "thawRequestCount") (int 0) >? int 0)
  end.

Lemma usableDeadline_None : usableDeadline None = None.
Proof. done. Qed.

Lemma freezeBlocks_run key now w :
  freezeBlocksAdmission key now now w
  = (Ok (freeze_blocks_at now w key), purge_key now key w).
Proof.
  unfold freezeBlocksAdmission, freeze_blocks_at. mstep.
  destruct (field_at now w key "frozenUntil") as [raw|]; [|by rewrite usableDeadline_None].
  destruct (usableDeadline (Some raw)) as [until|]; [|done].
  destruct (now <? until); [done|]. mstep. by rewrite purge_key_idemp, field_at_purge_key.
Qed.

(** Whether a budget can admit anything. *)
Definition usable_budget (cost : num) (config : TokenBucketConfig) : bool :=
  match unusableBudget cost config with None => true | Some _ => false end.

(** Nobody waits and no freeze stands. *)
Definition fast_path_open (now : num) (w : World) (queueKey freezeKey : string) : bool :=
  bool_decide (sorted_at now w queueKey = []) && negb (freeze_blocks_at now w freezeKey).

Lemma freeze_blocks_purge now w key key' :
  freeze_blocks_at now (purge_key now key w) key' = freeze_blocks_at now w key'.
Proof. unfold freeze_blocks_at. by rewrite !field_at_purge_key. Qed.

Lemma normalizeStateTtl_day : normalizeStateTtlSeconds (int 86400) = Ok (int 86400).
Proof. by vm_compute. Qed.

(** The answer of a claim, as the fast path reports it. *)
Definition granted (r : result AcquireTokensResult) : result bool :=
  match r with Ok r => Ok (at_acquired r) | Throw e => Throw e end.

(** A claim's mark, normalised: no state is read or written. *)
Definition mark_result (mark : option ClaimMark) : result (option ClaimMark) :=
  match mark with
  | None => Ok None
  | Some m =>
      match normalizeStateTtlSeconds (mark_ttlSeconds m) with
      | Ok t => Ok (Some {| mark_id := mark_id m; mark_ttlSeconds := t |})
      | Throw e => Throw e
      end
  end.

Lemma claimMark_run mark now w : claimMark mark now w = (mark_result mark, w).
Proof.
  destruct mark as [m|]; [|done]. unfold claimMark, mark_result. rewrite bind_run. unfold lift.
  by destruct (normalizeStateTtlSeconds (mark_ttlSeconds m)).
Qed.

Lemma mark_result_ok mark m : mark_result mark = Ok m -> mark_ok m.
Proof.
  intros H. apply (proj2 (quiet_claimMark mark (int 0) MemoryBackend)). by rewrite claimMark_run.
Qed.

(** On an open path the two run the same writes. *)
Lemma fast_path_open_run queueKey bucketKey freezeKey cost config mark m now w :
  unusableBudget cost config = None -> fast_path_open now w queueKey freezeKey = true ->
  mark_result mark = Ok m ->
  let w1 := purge_key now freezeKey (purge_key now queueKey w) in
  let fast := tryAdmitImmediately queueKey bucketKey freezeKey cost config (int 86400) mark now w in
  let full := acquireTokens bucketKey cost config mark now w1 in
  fast.1 = granted full.1 /\ fast.2 = full.2.
Proof.
  intros Hu Ho Hm. cbv zeta. unfold tryAdmitImmediately, acquireTokens.
  rewrite normalizeStateTtl_day, lift_run, Hu.
  unfold fast_path_open in Ho. apply andb_true_iff in Ho as [Hq Hf].
  apply bool_decide_eq_true in Hq. apply negb_true_iff in Hf.
  rewrite !(bind_run (claimMark mark)), !claimMark_run, Hm.
  rewrite bind_run, sorted_run, Hq. rewrite decide_False by (simpl; lia).
  rewrite !date_now_run, bind_run, freezeBlocks_run, freeze_blocks_purge, Hf.
  rewrite !bind_run, refill_run.
  set (st := bucket_at _ _ _ _). destruct (coversCost (tokens st) cost (maxTokens config)); simpl;
    rewrite !bind_run;
    destruct (writeBucket bucketKey _ (int 86400) (Some config) now _) as [[[]|e] w2]; simpl;
    try done.
  rewrite !bind_run. by destruct (write_mark_opt bucketKey m cost st now w2) as [[[]|e] w3].
Qed.

(** C13.  The fast path is a claim behind a gate.  When somebody is queued, a
    freeze stands, or the budget is unusable, it refuses and spends nothing
    that shows; otherwise it answers exactly what [acquireTokens] would have
    answered in its place, and leaves the same balances, marks and lifetimes
    behind. *)
Theorem fast_path_is_gated_claim (queueKey bucketKey freezeKey : string) (cost : num)
    (config : TokenBucketConfig) (mark m : option ClaimMark) (now : num) (w : World) :
  (now <=? now) = true -> mark_result mark = Ok m ->
  let fast := tryAdmitImmediately queueKey bucketKey freezeKey cost config (int 86400) mark now w in
  if usable_budget cost config && fast_path_open now w queueKey freezeKey then
    fast.1 = granted (acquireTokens bucketKey cost config mark now w).1 /\
    same_view now fast.2 (acquireTokens bucketKey cost config mark now w).2
  else fast.1 = Ok false /\ same_view now fast.2 w.
Proof.
  intros Hn Hm fast. subst fast. unfold usable_budget.
  destruct (unusableBudget cost config) as [err|] eqn:Hu; simpl.
  { unfold tryAdmitImmediately. rewrite normalizeStateTtl_day, lift_run, Hu.
    by rewrite bind_run, claimMark_run, Hm. }
  destruct (fast_path_open now w queueKey freezeKey) eqn:Ho.
  - destruct (fast_path_open_run queueKey bucketKey freezeKey cost config mark m now w Hu Ho Hm)
      as [H1 H2].
    set (w1 := purge_key now freezeKey (purge_key now queueKey w)) in *.
    assert (same_view now w1 w) as Hw1 by (unfold w1; by rewrite !purge_key_view).
    destruct (respects_exec (CAcquireTokens bucketKey cost config mark) now w1 w Hn Hw1) as [H3 H4].
    cbn [exec] in H3, H4. rewrite H1, H2, H3. split; [reflexivity|exact H4].
  - unfold tryAdmitImmediately. rewrite normalizeStateTtl_day, lift_run, Hu.
    rewrite bind_run, claimMark_run, Hm, bind_run, sorted_run. unfold fast_path_open in Ho.
    destruct (sorted_at now w queueKey) as [|id ids]; simpl in Ho |- *.
    + apply negb_false_iff in Ho.
      rewrite date_now_run, bind_run, freezeBlocks_run, freeze_blocks_purge, Ho.
      split; [done|]. simpl. by rewrite !purge_key_view.
    + split; [done|]. simpl. by rewrite purge_key_view.
Qed.

Definition demo_bucket : TokenBucketConfig :=
  {| maxTokens := int 10; tokensToAdd := int 5; interval := int 1000 |}.

Lemma fast_path_is_gated_claim_witness :
  (tryAdmitImmediately "q" "b" "f" (int 4) demo_bucket (int 86400) None (int 5) MemoryBackend).1
  = granted (acquireTokens "b" (int 4) demo_bucket None (int 5) MemoryBackend).1.
Proof.
  assert ((int 5 <=? int 5) = true) as Hn by (vm_compute; reflexivity).
  assert (usable_budget (int 4) demo_bucket && fast_path_open (int 5) MemoryBackend "q" "f" = true) as E by (vm_compute; reflexivity).
  pose proof (fast_path_is_gated_claim "q" "b" "f" (int 4) demo_bucket None None (int 5)
    MemoryBackend Hn eq_refl) as H.
  cbv zeta in H. rewrite E in H. exact (proj1 H).
Defined.

(** ** Refunds *)

Lemma fmin_le x y : (fmin x y <=? x) = true \/ fmin x y = NaN.
Proof.
  unfold fmin, leb, ltb. destruct x as [|[]|x], y as [|[]|y]; auto; left.
  - by rewrite Z.leb_refl.
  - destruct (Z.ltb_spec y x); apply Z.leb_le; lia.
Qed.

(** The balance stored at [key]. *)
Definition balance_at (now : num) (w : World) (key : string) : option num :=
  match field_at now w key "tokens" with
  | Some raw => Some (parseFiniteStored (Some raw) (int 0))
  | None => None
  end.

(** Whether a refund through [freezeKey] is refused. *)
Definition refund_refused (now : num) (w : World) (freezeKey : option string) : bool :=
  match freezeKey with
  | Some fk =>
      if decide (fk = "") then false
      else (parseFiniteStored (field_at now w fk "frozenUntil") (int 0) >? now)
           && negb (bool_decide (field_at now w fk "emptiesBucket" = Some "0"))
  | None => false
  end.

Lemma freezeEmptied_run key now w :
  freezeEmptiedBucket key now now w
  = (Ok ((parseFiniteStored (field_at now w key "frozenUntil") (int 0) >? now)
         && negb (bool_decide (field_at now w key "emptiesBucket" = Some "0"))),
     purge_key now key w).
Proof.
  unfold freezeEmptiedBucket. mstep. destruct (_ >? now); [|done].
  mstep. by rewrite purge_key_idemp, field_at_purge_key.
Qed.

(** The state a refund leaves: the one field, or nothing. *)
Lemma creditTokens_run key cost max fk now w :
  exists w1, same_view now w1 w /\
  creditTokens key cost max fk now w
  = (Ok tt,
     match balance_at now w key with
     | Some t =>
         if usableCost cost && negb (refund_refused now w fk)
         then with_store (alter (on_hash <["tokens" := num_to_string (fmin max (t + cost))]>) key
                (store w1)) w1
         else w1
     | None => w1
     end) /\ epochs w1 = epochs w.
Proof.
  unfold creditTokens. destruct (usableCost cost); simpl.
  2:{ exists w. split_and!; [done| |done]. by destruct (balance_at now w key). }
  rewrite date_now_run. rewrite bind_run.
  assert (exists w1, same_view now w1 w /\
    (match fk with
     | Some fk => if decide (fk = "") then mret false else freezeEmptiedBucket fk now
     | None => mret false
     end : M bool) now w = (Ok (refund_refused now w fk), w1) /\
    (forall k f, field_at now w1 k f = field_at now w k f) /\ epochs w1 = epochs w)
    as (w1 & Hv & -> & Hf & Hep).
  { unfold refund_refused. destruct fk as [fk|]; [|by exists w].
    case_decide; [by exists w|]. exists (purge_key now fk w).
    split; [apply purge_key_view|]. split; [apply freezeEmptied_run|].
    split; [intros; apply field_at_purge_key|apply purge_key_epochs]. }
  destruct (refund_refused now w fk); simpl.
  { exists w1. split_and!; [done| |done]. by destruct (balance_at now w key). }
  exists (purge_key now key w1). split; [by rewrite purge_key_view|].
  split; [|by rewrite purge_key_epochs]. mstep.
  unfold balance_at. rewrite <- Hf. unfold field_at.
  destruct (hash_at now w1 key) as [h|]; simpl; [|done]. by destruct (h !! "tokens").
Qed.

(** C14.  A refund can neither mint tokens nor make a bucket: it never throws;
    a bucket with no stored balance keeps none (it already reads as full); and
    a stored balance becomes the smaller of the ceiling and itself plus the
    refund, unless the cost is unusable or a freeze that emptied the bucket
    still stands, when it is left alone.  No other key and no other field
    changes. *)
Theorem refund_bounded (key : string) (cost max : num) (fk : option string) (now : num) (w : World) :
  (now <=? now) = true ->
  let '(r, w') := refundTokens key cost max fk now w in
  r = Ok tt /\
  match balance_at now w key with
  | None => balance_at now w' key = None
  | Some t =>
      if usableCost cost && negb (refund_refused now w fk)
      then field_at now w' key "tokens" = Some (num_to_string (fmin max (t + cost))) /\
           ((fmin max (t + cost) <=? max) = true \/ fmin max (t + cost) = NaN)
      else balance_at now w' key = Some t
  end /\
  forall key' f, key' <> key \/ f <> "tokens" -> field_at now w' key' f = field_at now w key' f.
Proof.
  intros Hn. unfold refundTokens.
  destruct (creditTokens_run key cost max fk now w) as (w1 & [_ Hv] & -> & _).
  assert (forall k f, field_at now w1 k f = field_at now w k f) as Hf
    by (intros; unfold field_at, hash_at; by rewrite Hv).
  assert (forall k, balance_at now w1 k = balance_at now w k) as Hb
    by (intros; unfold balance_at; by rewrite Hf).
  split; [done|]. destruct (balance_at now w key) as [t|] eqn:E; [|rewrite Hb; auto].
  destruct (usableCost cost && negb (refund_refused now w fk)); [|rewrite Hb; auto].
  set (v := num_to_string _). split.
  - split; [|apply fmin_le].
    unfold field_at, hash_at. rewrite live_at_alter by auto with store.
    rewrite decide_True by done. unfold balance_at, field_at, hash_at in E. rewrite <- Hv in E by done.
    destruct (live_at now w1 key) as [e|]; [|done]. simpl in E |- *. unfold on_hash.
    destruct (e_hash e) as [h|]; [|done]. simpl. apply lookup_insert_eq.
  - intros key' f Hkf. rewrite <- Hf. unfold field_at, hash_at.
    rewrite live_at_alter by auto with store. case_decide as Hk; [|done]. subst key'.
    destruct Hkf as [|Hkf]; [done|]. destruct (live_at now w1 key) as [e|]; [|done]. simpl.
    unfold on_hash. destruct (e_hash e) as [h|] eqn:Eh; simpl; [|by rewrite Eh].
    by rewrite lookup_insert_ne.
Qed.

Lemma refund_bounded_witness :
  let w := (acquireTokens "b" (int 4) demo_bucket None (int 5) MemoryBackend).2 in
  let w' := (refundTokens "b" (int 3) (int 10) None (int 6) w).2 in
  field_at (int 6) w' "b" "tokens" = Some "9" /\
  field_at (int 6) w' "b" "lastUpdate" = field_at (int 6) w "b" "lastUpdate".
Proof.
  intros w w'. split; [vm_compute; reflexivity|].
  pose proof (refund_bounded "b" (int 3) (int 10) None (int 6) w) as H.
  unfold w'. destruct (refundTokens "b" (int 3) (int 10) None (int 6) w) as [r w2].
  apply H; [vm_compute; reflexivity|]. right. discriminate.
Defined.
