(* ===== verification/SettlementProps.v ===== *)
(** * Settling a claim

    A claim is settled at most once, and settling it replaces the estimate it
    was made with by what the response reported. *)
From S2P Require Import Prelude JsNumber JsString Shared SharedFacts MemoryStore StoreFacts.
From S2P Require Import TokenBucket TokenBucketFacts Concurrency MultiLimit Queue Freeze Backend.
From S2P Require Import Observe StoreProps Atomicity AdmissionProps.
Local Open Scope num_scope.

(** ** How a settlement runs *)

Definition unsettled (spec : SettleSpec) : SettleResult :=
  {| sr_key := ss_key spec; sr_settled := false; sr_applied := int 0; sr_unapplied := int 0 |}.

Definition spec_mark (spec : SettleSpec) : string := claimMarkKey (ss_key spec) (ss_markId spec).

(** The settlement of the mark [m] against the bucket as it stands. *)
Definition settle_input (now : num) (w : World) (spec : SettleSpec) (m : gmap string string)
    : SettleInput :=
  let key := ss_key spec in
  let st := bucket_at now w key (ss_config spec) in
  {| si_tokens := tokens st; si_maxTokens := maxTokens (ss_config spec);
     si_maxDebt := ss_maxDebt spec; si_actual := ss_actual spec;
     si_claimed := parseFiniteStored (m !! "claimed") (int 0);
     si_overflowNow := overflow st;
     si_overflowAtClaim := parseFiniteStored (m !! "overflow") (int 0);
     si_forgivenNow := parseFiniteStored (field_at now w key "forgiven") (int 0);
     si_forgivenAtClaim := parseFiniteStored (m !! "forgiven") (int 0);
     si_fillsNow := fills st;
     si_fillsAtClaim := parseFiniteStored (m !! "fills") (int 0);
     si_generationNow := parseFiniteStored (field_at now w key "generation") (int 0);
     si_generationAtClaim := parseFiniteStored (m !! "generation") (int 0);
     si_epochNow := default "" (field_at now w key "epoch");
     si_epochAtClaim := default "" (m !! "epoch") |}.

(** The state once the mark is consumed. *)
Definition consumed (now : num) (spec : SettleSpec) (w : World) : World :=
  with_store (delete (spec_mark spec) (store (purge_key now (spec_mark spec) w)))
    (purge_key now (spec_mark spec) w).

(** The bucket's entry after a settlement at [now]. *)
Definition settled_entry (st : BucketState) (o : SettleOutcome) (now ttl : num) (e : Entry) : Entry :=
  on_hash <["forgiven" := num_to_string (so_forgiven o)]>
    (ensure_hash (bucket_entry (with_tokens (tokens st - so_applied o) st) now ttl e)).

Lemma settle_one_run spec now w :
  settle_one now spec now w
  = match hash_at now w (spec_mark spec) with
    | None => (Ok (unsettled spec), purge_key now (spec_mark spec) w)
    | Some m =>
        if negb (settle_usable spec) then (Ok (unsettled spec), purge_key now (spec_mark spec) w)
        else
          let w1 := consumed now spec w in
          match field_at now w1 (ss_key spec) "tokens" with
          | None =>
              (Ok {| sr_key := ss_key spec; sr_settled := true;
                     sr_applied := int 0; sr_unapplied := int 0 |}, purge_key now (ss_key spec) w1)
          | Some _ =>
              let st := bucket_at now w1 (ss_key spec) (ss_config spec) in
              let o := settleAmount (settle_input now w1 spec m) in
              (writeBucket (ss_key spec) (with_tokens (tokens st - so_applied o) st)
                 (int 86400) (Some (ss_config spec)) ;;
               hash (ss_key spec) ;;
               hash_set (ss_key spec) "forgiven" (num_to_string (so_forgiven o)) ;;
               mret {| sr_key := ss_key spec; sr_settled := true;
                       sr_applied := so_applied o; sr_unapplied := so_unapplied o |})
                now (purge_key now (ss_key spec) w1)
          end
    end.
Proof.
  unfold settle_one. cbv zeta. fold (spec_mark spec). mstep.
  destruct (hash_at now w (spec_mark spec)) as [m|]; [|done].
  destruct (negb (settle_usable spec)); [done|].
  rewrite (bind_ok _ _ _ _ _ _
    (eq_refl : store_delete (spec_mark spec) now (purge_key now (spec_mark spec) w)
               = (Ok tt, consumed now spec w))).
  mstep. set (w1 := consumed now spec w).
  destruct (field_at now w1 (ss_key spec) "tokens"); [|done].
  rewrite (bind_ok _ _ _ _ _ _ (refill_run (ss_key spec) (ss_config spec) now _)).
  rewrite purge_key_idemp.
  repeat (rewrite (bind_ok _ _ _ _ _ _ (hget_run _ _ _ _)), ?purge_key_idemp, ?field_at_purge_key).
  unfold settle_input, bucket_at, stored_bucket. by rewrite !field_at_purge_key.
Qed.

(** ** Once *)

(** What settlements leave: a consumed mark stays consumed. *)
Definition gone (now : num) (w : World) (key : string) : Prop := live_at now w key = None.

Lemma gone_consumed now spec w : gone now (consumed now spec w) (spec_mark spec).
Proof. unfold gone, consumed. by rewrite live_at_delete, decide_True. Qed.

Lemma gone_delete now key k w : gone now w k -> gone now (with_store (delete key (store w)) w) k.
Proof. unfold gone. rewrite live_at_delete. by case_decide. Qed.

Lemma gone_consumed_keep now spec k w : gone now w k -> gone now (consumed now spec w) k.
Proof.
  intros Hg. unfold consumed. apply gone_delete. unfold gone. by rewrite live_at_purge_key.
Qed.

(** Writes to one live key bring back no other key. *)
Lemma settle_writes_gone key s config v (a : SettleResult) now w k :
  gone now w k -> k <> key ->
  gone now ((writeBucket key s (int 86400) (Some config) ;; hash key ;;
             hash_set key "forgiven" v ;; mret a) now w).2 k.
Proof.
  intros Hg Hk.
  assert (exists ttl, normalizeTtlSeconds (bucketTtl (int 86400) config) = Ok ttl) as [ttl Ht]
    by (apply bucketTtl_pos, ttl_pos_day).
  rewrite bind_run. destruct (writeBucket key s (int 86400) (Some config) now w) as [r w1] eqn:E.
  assert (gone now w1 k) as Hg1.
  { unfold writeBucket in E. rewrite Ht, lift_run in E. unfold hash_set in E.
    rewrite (bind_ok _ _ _ _ _ _ (hash_run _ _ _)) in E.
    repeat rewrite (bind_ok _ _ _ _ _ _ (update_upsert _ _ _ _ _)) in E.
    unfold expire in E. destruct (normalizeTtl_idem _ _ Ht) as [Hi _].
    rewrite Hi, lift_run, live_bind in E.
    set (w0 := upsert now key _ w) in E.
    assert (gone now (purge_key now key w0) k) as H0.
    { unfold gone. rewrite live_at_purge_key. unfold w0. by rewrite live_at_upsert_ne. }
    destruct (live_at now w0 key); [|by injection E as _ <-].
    destruct (ttl <=? int 0); [injection E as _ <-; by apply gone_delete|].
    rewrite date_now_run in E. injection E as _ <-. unfold gone.
    rewrite live_at_store, lookup_alter_ne by done. exact H0. }
  destruct r; [|done]. unfold hash_set.
  rewrite (bind_ok _ _ _ _ _ _ (hash_run _ _ _)), (bind_ok _ _ _ _ _ _ (update_upsert _ _ _ _ _)).
  unfold gone. cbn [snd]. simpl. by rewrite live_at_upsert_ne.
Qed.

Lemma settle_one_gone spec k now w :
  gone now w k -> gone now (settle_one now spec now w).2 k /\
  (spec_mark spec = k -> (settle_one now spec now w).1 = Ok (unsettled spec)).
Proof.
  intros Hg. rewrite settle_one_run.
  assert (gone now (purge_key now (spec_mark spec) w) k) as Hp
    by (unfold gone; by rewrite live_at_purge_key).
  destruct (hash_at now w (spec_mark spec)) as [m|] eqn:E; [|done].
  split; [|intros Hk; subst k; unfold hash_at in E; unfold gone in Hg; by rewrite Hg in E].
  destruct (negb (settle_usable spec)); [done|]. cbv zeta.
  pose proof (gone_consumed_keep now spec k w Hg) as Hc.
  destruct (field_at now (consumed now spec w) (ss_key spec) "tokens") eqn:Et.
  - apply settle_writes_gone; [unfold gone; by rewrite live_at_purge_key|].
    intros ->. unfold gone in Hc. by rewrite (field_at_dead _ _ _ _ Hc) in Et.
  - simpl. unfold gone. by rewrite live_at_purge_key.
Qed.

(** A settlement that counted has consumed its mark. *)
Lemma settle_one_consumes spec now w r :
  (settle_one now spec now w).1 = Ok r -> sr_settled r = true ->
  gone now (settle_one now spec now w).2 (spec_mark spec).
Proof.
  rewrite settle_one_run. destruct (hash_at now w (spec_mark spec)) as [m|] eqn:E;
    [|by intros [= <-]].
  destruct (negb (settle_usable spec)); [by intros [= <-]|]. intros _ _. cbv zeta.
  pose proof (gone_consumed now spec w) as Hc.
  destruct (field_at now (consumed now spec w) (ss_key spec) "tokens") eqn:Et.
  - apply settle_writes_gone; [unfold gone; by rewrite live_at_purge_key|].
    by apply string_app_ne.
  - simpl. unfold gone. by rewrite live_at_purge_key.
Qed.

(** Settlements in order, each with its result. *)
Fixpoint settle_history (h : list (num * list SettleSpec)) (w : World)
    : list (SettleSpec * SettleResult) :=
  match h with
  | [] => []
  | (now, specs) :: h' =>
      match settleTokens specs now w with
      | (Ok rs, w') => zip specs rs ++ settle_history h' w'
      | (Throw _, w') => settle_history h' w'
      end
  end.

Fixpoint settle_clocked (t0 : num) (h : list (num * list SettleSpec)) : Prop :=
  match h with
  | [] => True
  | (now, _) :: h' => (t0 <=? now) = true /\ settle_clocked now h'
  end.

(** The settlements that counted against the mark at [k]. *)
Definition counted (k : string) (p : SettleSpec * SettleResult) : Prop :=
  spec_mark p.1 = k /\ sr_settled p.2 = true.

#[export] Instance counted_dec k p : Decision (counted k p).
Proof. unfold counted. apply _. Defined.

Abbreviation count k l := (length (filter (counted k) l)).

Lemma settle_all k specs now : forall w rs w',
  mcollect specs (settle_one now) now w = (Ok rs, w') ->
  (gone now w k -> count k (zip specs rs) = 0%nat /\ gone now w' k) /\
  (count k (zip specs rs) <= 1)%nat /\
  (count k (zip specs rs) <> 0%nat -> gone now w' k).
Proof.
  induction specs as [|spec specs IH]; intros w rs w'; cbn [mcollect].
  { intros [= <- <-]. split_and!; simpl; try done; lia. }
  rewrite bind_run. destruct (settle_one now spec now w) as [[r|e] w1] eqn:E1; [|done].
  rewrite bind_run. destruct (mcollect specs (settle_one now) now w1) as [[rs'|e] w2] eqn:E2; [|done].
  intros [= <- <-]. destruct (IH _ _ _ E2) as (H1 & H2 & H3). cbn [zip zip_with].
  assert (gone now w k -> gone now w1 k /\ (spec_mark spec = k -> r = unsettled spec)) as Hg.
  { intros Hk. pose proof (settle_one_gone spec k now w Hk) as H. rewrite E1 in H. simpl in H.
    destruct H as [? H]. split; [done|]. intros Hs. specialize (H Hs). congruence. }
  destruct (decide (counted k (spec, r))) as [Hc|Hc].
  - rewrite filter_cons_True by exact Hc. destruct Hc as [Hk Hr]. cbn [fst snd] in Hk, Hr.
    pose proof (settle_one_consumes spec now w r) as Hc. rewrite E1 in Hc. simpl in Hc.
    specialize (Hc eq_refl Hr). rewrite Hk in Hc. destruct (H1 Hc) as [H4 H5].
    cbn [length]. split_and!; try done; try lia. intros Hw. destruct (Hg Hw) as [_ Hu].
    rewrite (Hu Hk) in Hr. done.
  - rewrite filter_cons_False by exact Hc. split_and!; try done. intros Hw. apply H1, Hg, Hw.
Qed.

Lemma settleTokens_returns specs now w :
  exists rs, settleTokens specs now w = (Ok rs, (settleTokens specs now w).2).
Proof.
  assert (returns (settleTokens specs)) as H by (unfold settleTokens, settle_one; solve_returns).
  destruct (H now w) as (rs & Hr & _). exists rs. destruct (settleTokens specs now w). simpl in *.
  by rewrite Hr.
Qed.

Lemma settle_history_count k h : forall t0 w,
  (t0 <=? t0) = true -> settle_clocked t0 h ->
  (count k (settle_history h w) <= 1)%nat /\
  (gone t0 w k -> count k (settle_history h w) = 0%nat).
Proof.
  induction h as [|[now specs] h IH]; intros t0 w H0; [simpl; lia|]. intros [Hn Hc].
  assert ((now <=? now) = true) as Hnn.
  { destruct now as [|[]|m]; [by destruct t0 as [|[]|?]|done|done|]. unfold leb. apply Z.leb_refl. }
  cbn [settle_history]. destruct (settleTokens_returns specs now w) as [rs E]. rewrite E.
  set (w' := (settleTokens specs now w).2) in *. unfold settleTokens in E. rewrite date_now_run in E.
  destruct (settle_all k specs now w rs w' E) as (H1 & H2 & H3).
  destruct (IH now w' Hnn Hc) as [H4 H5]. rewrite filter_app, length_app.
  destruct (decide (count k (zip specs rs) = 0%nat)) as [Hz|Hz].
  - split; [lia|]. intros Hg. rewrite Hz, H5; [done|]. apply H1.
    exact (live_at_dead_later t0 now w k Hn Hg).
  - specialize (H3 Hz). specialize (H5 H3). split; [lia|]. intros Hg.
    exfalso. apply Hz, H1. exact (live_at_dead_later t0 now w k Hn Hg).
Qed.

(** C15.  A claim is settled at most once: in any sequence of settlements, of
    any claims on any buckets and with any amounts, a given mark is counted at
    most one time.  A response delivered twice cannot charge twice. *)
Theorem settled_at_most_once (h : list (num * list SettleSpec)) (t0 : num) (w : World)
    (bucketKey markId : string) :
  (t0 <=? t0) = true -> settle_clocked t0 h ->
  (length (filter (counted (claimMarkKey bucketKey markId)) (settle_history h w)) <= 1)%nat.
Proof. intros H0 Hc. by apply (settle_history_count _ h t0 w). Qed.

Definition demo_spec (actual : Z) : SettleSpec :=
  {| ss_key := "b"; ss_markId := "m"; ss_actual := int actual; ss_config := demo_bucket;
     ss_maxDebt := int 0 |}.

(** A claim of 4, settled three times over. *)
Lemma settled_at_most_once_witness :
  let w := (acquireTokens "b" (int 4) demo_bucket
              (Some {| mark_id := "m"; mark_ttlSeconds := int 60 |}) (int 5) MemoryBackend).2 in
  let h := [(int 6, [demo_spec 7; demo_spec 7]); (int 7, [demo_spec 9])] in
  map (fun p => sr_settled p.2) (settle_history h w) = [true; false; false] /\
  (length (filter (counted (claimMarkKey "b" "m")) (settle_history h w)) <= 1)%nat.
Proof.
  intros w h. split; [vm_compute; reflexivity|].
  apply (settled_at_most_once h (int 5) w "b" "m"); vm_compute; auto.
Defined.

(** ** The estimate replaced *)

Lemma hash_present_run key now w h :
  hash_at now w key = Some h -> hash key now w = (Ok h, w).
Proof.
  intros H. rewrite hash_run, H. simpl. f_equal. unfold hash_at in H.
  destruct (live_at now w key) as [e|] eqn:E; [|done]. simpl in H.
  unfold upsert. rewrite E. unfold ensure_hash. rewrite H. simpl.
  assert (with_hash h e = e) as -> by (destruct e; unfold with_hash; simpl in *; by subst).
  rewrite insert_id by by eapply live_at_lookup. apply with_store_id.
Qed.

Lemma hash_set_run key f v now w h :
  hash_at now w key = Some h ->
  exists w', hash_set key f v now w = (Ok tt, w') /\ hash_at now w' key = Some (<[f := v]> h) /\
    (forall k, k <> key -> live_at now w' k = live_at now w k) /\ epochs w' = epochs w.
Proof.
  intros H. eexists. split; [done|]. split_and!; [| |done].
  - unfold hash_at in *. rewrite live_at_alter by auto with store. rewrite decide_True by done.
    destruct (live_at now w key) as [e|]; [|done]. simpl in H |- *. unfold on_hash. by rewrite H.
  - intros k Hk. rewrite live_at_alter by auto with store. by rewrite decide_False.
Qed.

(** The six fields of a mark. *)
Definition mark_fields (cost overflow fills generation epoch forgiven : string)
    (h : gmap string string) : gmap string string :=
  <["forgiven" := forgiven]> (<["epoch" := epoch]> (<["generation" := generation]>
  (<["fills" := fills]> (<["overflow" := overflow]> (<["claimed" := cost]> h))))).

(** The epoch a bucket has after a mark was written against it. *)
Definition epoch_after (w : World) (h : gmap string string) : string :=
  default (num_to_string (epochs w + int 1)) (h !! "epoch").

Lemma stamp_epoch_run key now w h :
  hash_at now w key = Some h ->
  exists w', (match h !! "epoch" with
              | Some _ => mret tt
              | None => n ← next_epoch; hash_set key "epoch" (num_to_string n)
              end) now w = (Ok tt, w') /\
    hash_at now w' key = Some (<["epoch" := epoch_after w h]> h) /\
    (forall k, k <> key -> live_at now w' k = live_at now w k).
Proof.
  intros H. unfold epoch_after. destruct (h !! "epoch") as [ep|] eqn:E; simpl.
  - exists w. split; [done|]. by rewrite insert_id.
  - rewrite bind_run. cbn [next_epoch].
    destruct (hash_set_run key "epoch" (num_to_string (epochs w + int 1)) now
      (with_epochs (epochs w + int 1) w) h H) as (w' & E1 & E2 & E3 & _).
    exists w'. split; [exact E1|]. split; [exact E2|]. exact E3.
Qed.

Lemma writeMark_run key mark cost s now w h :
  hash_at now w key = Some h -> ttl_pos (mark_ttlSeconds mark) ->
  (now + mark_ttlSeconds mark * int 1000 <=? now) = false ->
  let mk := claimMarkKey key (mark_id mark) in
  let h' := <["epoch" := epoch_after w h]> h in
  exists w' old, writeMark key mark cost s now w = (Ok tt, w') /\
    hash_at now w' key = Some h' /\
    hash_at now w' mk = Some (mark_fields (num_to_string cost) (num_to_string (overflow s))
      (num_to_string (fills s))
      (num_to_string (parseFiniteStored (h !! "generation") (int 0))) (epoch_after w h)
      (num_to_string (parseFiniteStored (h !! "forgiven") (int 0))) old).
Proof.
  intros Hh [Ht Hp] Hx mk h'. assert (mk <> key) as Hne by by apply string_app_ne.
  unfold writeMark. rewrite (bind_ok _ _ _ _ _ _ (hash_present_run _ _ _ _ Hh)).
  destruct (stamp_epoch_run key now w h Hh) as (w1 & E1 & H1 & _).
  rewrite (bind_ok _ _ _ _ _ _ E1). cbv zeta. fold mk. unfold hash_set.
  rewrite (bind_ok _ _ _ _ _ _ (hash_run _ _ _)).
  do 3 rewrite (bind_ok _ _ _ _ _ _ (update_upsert _ _ _ _ _)).
  match goal with |- context [upsert now mk ?g w1] => set (w2 := upsert now mk g w1) end.
  assert (hash_at now w2 key = Some h') as H2.
  { unfold hash_at, w2. rewrite live_at_upsert_ne by done. exact H1. }
  rewrite (bind_ok _ _ _ _ _ _ (hash_present_run _ _ _ _ H2)). unfold w2.
  do 3 rewrite (bind_ok _ _ _ _ _ _ (update_upsert _ _ _ _ _)).
  rewrite (expire_upsert _ _ _ _ _ _ Ht Hp) by auto 10 with store.
  eexists. exists (default ∅ (hash_at now w1 mk)). split; [done|]. split.
  - unfold hash_at. rewrite live_at_upsert_ne by done. exact H1.
  - unfold hash_at at 1. rewrite live_at_upsert. simpl.
    unfold expired, expired_at, geb. simpl. rewrite Hx. simpl.
    unfold h', mark_fields, hash_at. rewrite lookup_insert_eq, !lookup_insert_ne by done.
    by destruct (live_at now w1 mk) as [[? [o|] ? ? ?]|].
Qed.

Lemma sub_self x : isFinite x = true -> x - x = int 0.
Proof.
  destruct x as [| |m]; try done. intros _. unfold sub, neg, add. rewrite Z.add_opp_diag_r.
  apply rnd_zero.
Qed.

Lemma add_zero x : wf_num x -> isFinite x = true -> x + int 0 = x.
Proof.
  destruct x as [| |m]; try done. intros Hw _. unfold add, int. rewrite Z.mul_0_l, Z.add_0_r.
  by apply rnd_exact.
Qed.

Lemma eqb_refl_finite x : isFinite x = true -> (x =? x) = true.
Proof. destruct x; try done. intros _. by apply bool_decide_eq_true. Qed.

Local Open Scope Z_scope.

(** A settlement with nothing refilled since the claim. *)
Lemma settleAmount_same_instant i t est act M d :
  bucket_recreated i = false ->
  si_tokens i = int t -> si_maxTokens i = int M -> si_maxDebt i = int d ->
  si_actual i = int act -> si_claimed i = int est ->
  si_overflowNow i = si_overflowAtClaim i -> isFinite (si_overflowNow i) = true ->
  si_forgivenNow i = si_forgivenAtClaim i -> isFinite (si_forgivenNow i) = true ->
  wf_num (si_forgivenNow i) ->
  si_fillsNow i = si_fillsAtClaim i -> isFinite (si_fillsNow i) = true ->
  0 <= t -> 0 <= est -> t + est <= M <= 2 ^ 50 -> 0 <= act <= 2 ^ 50 -> 0 <= d <= 2 ^ 50 ->
  act <= t + est + d ->
  settleAmount i = {| so_applied := int (act - est); so_unapplied := int 0;
                      so_forgiven := si_forgivenNow i |}.
Proof.
  intros Hr Et EM Ed Ea Ec Eo Fo Ef Ff Wf Efi Ffi Ht He HM Ha Hd Hroom.
  unfold settleAmount. rewrite Hr, Et, EM, Ed, Ea, Ec, <- Eo, <- Ef, <- Efi, usable_debt_int.
  rewrite (sub_self (si_overflowNow i)), (sub_self (si_forgivenNow i)), eqb_refl_finite by done.
  rewrite !sub_int, neg_int, gtb_int, ltb_int, !add_int, !fmax_int, !fmin_int by (unfold safe; lia).
  rewrite !sub_int, !fmin_int by (unfold safe; lia). rewrite !sub_int, neg_int by (unfold safe; lia).
  rewrite andb_true_r. destruct (Z.ltb_spec 0 (act - est)).
  - rewrite (Z.min_r (act - est) (Z.max 0 (0 - 0))), Z.max_l by lia.
    rewrite add_zero by done. f_equal; f_equal; lia.
  - destruct (Z.ltb_spec (act - est) 0); f_equal; f_equal; lia.
Qed.

(** A refill at the instant of the last one changes nothing. *)
Lemma refill_state_idle c now s t u :
  config_ok c -> tokens s = int t -> lastUpdate s = int u ->
  0 <= t <= cM c -> 0 <= u <= now -> now <= 2 ^ 52 -> now - u < cI c ->
  refill_state s (config_of c) (int now) = s.
Proof.
  intros (HM & HA & HI & _) Et Eu Ht Hu Hn Hph. unfold refill_state, credit. rewrite Et, Eu.
  cbn [config_of maxTokens tokensToAdd interval].
  rewrite sub_int, !gtb_int, ltb_int by (unfold safe; lia).
  assert (floor (int (now - u) / int (cI c))%num = int 0) as ->.
  { rewrite floor_div_int by (unfold max_safe; lia). f_equal. apply Z.div_small. lia. }
  rewrite gtb_int, Z.ltb_irrefl.
  assert (forall a b : bool, (if a && b then (int t, int u) else (int t, int u)) = (int t, int u)) as E
    by (by intros [] []).
  rewrite E, gtb_int, geb_int. rewrite (proj2 (Z.ltb_ge _ _)) by lia.
  assert ((t <? cM c) && (cM c <=? t) = false) as -> by lia.
  destruct s. simpl in *. by subst.
Qed.

(** A marked claim on a bucket of integers: what it leaves in the bucket and
    in the mark. *)
Section marked_claim.
Context (c : ConfigZ) (key id : string) (now est tau : Z) (w : World) (b : option BucketZ).
Context (Hc : config_ok c) (Hest : 0 <= est <= 10 ^ 8) (Hnow : 0 <= now <= 2 ^ 52).
Context (Htau : 0 < tau <= 2 ^ 40) (Hrel : bucket_rel w key b) (Hinv : bucket_inv c now b).

Definition balance0 : Z := (refillZ c now (viewZ c now b)).1.
Definition the_mark : ClaimMark := {| mark_id := id; mark_ttlSeconds := int tau |}.
Definition claim_state : BucketState := bucket_at (int now) w key (config_of c).
Definition spent_state : BucketState := with_tokens (int (balance0 - est)) claim_state.
Definition spent_hash : gmap string string :=
  bucket_fields spent_state (default ∅ (hash_at (int now) w key)).

Lemma claim_state_tokens : tokens claim_state = int balance0 /\ 0 <= balance0 <= cM c /\
  exists u, lastUpdate claim_state = int u /\ 0 <= u <= now /\ now - u < cI c.
Proof.
  pose proof (bucket_at_rel c now w key b Hrel Hinv Hnow Hc) as (Et & Eu & Ht & Hu).
  split; [exact Et|]. split; [exact Ht|]. eexists. split; [exact Eu|]. split; [exact Hu|].
  pose proof (viewZ_range c now b Hc Hinv ltac:(lia)) as [Hv1 Hv2].
  destruct (viewZ c now b) as [t u]. cbn [fst snd] in *.
  unfold refillZ, elapsedZ. cbn [fst snd]. destruct Hc as (_ & _ & HI & _).
  pose proof (Z.mul_succ_div_gt (now - u) (cI c) ltac:(lia)).
  destruct (Z.ltb_spec u now); nia.
Qed.

Lemma tau_ttl : ttl_pos (int tau) /\ normalizeStateTtlSeconds (int tau) = Ok (int tau) /\
  (int now + int tau * int 1000 <=? int now)%num = false.
Proof.
  destruct (normalizeTtl_int tau ltac:(lia)) as [H1 H2]. split_and!; [done| |].
  - unfold normalizeStateTtlSeconds, rbind. by rewrite H1, H2.
  - rewrite mul_int, add_int, leb_int by (unfold safe; lia). apply Z.leb_gt. lia.
Qed.

(** The claim, granted: the bucket and the mark it leaves. *)
Lemma marked_claim_run :
  est <= balance0 ->
  exists w1 ep old,
    acquireTokens key (int est) (config_of c) (Some the_mark) (int now) w
    = (Ok {| at_acquired := true; at_waitTime := None;
             at_remainingTokens := Some (int (balance0 - est)); at_error := None |}, w1) /\
    ep = default (num_to_string (epochs w + int 1)) (spent_hash !! "epoch") /\
    hash_at (int now) w1 key = Some (<["epoch" := ep]> spent_hash) /\
    hash_at (int now) w1 (claimMarkKey key id)
    = Some (mark_fields (num_to_string (int est)) (num_to_string (overflow claim_state))
        (num_to_string (fills claim_state))
        (num_to_string (parseFiniteStored (spent_hash !! "generation") (int 0))) ep
        (num_to_string (parseFiniteStored (spent_hash !! "forgiven") (int 0))) old).
Proof.
  intros Hle. destruct claim_state_tokens as (Et & Ht & _). destruct tau_ttl as (Hp & Hs & Hx).
  destruct (ttlZ_range 86400 c ltac:(lia) Hc) as [Ht1 Ht2].
  destruct (normalizeTtl_int (ttlZ 86400 c) Ht1) as [Hn1 Hn2].
  assert (normalizeTtlSeconds (bucketTtl (int 86400) (config_of c)) = Ok (int (ttlZ 86400 c)))
    as Httl by (by rewrite bucketTtl_int by (done || lia)).
  unfold acquireTokens. rewrite bind_run, claimMark_run. unfold mark_result, the_mark at 1.
  cbn [mark_ttlSeconds mark_id]. rewrite Hs. rewrite usable_config_int by (done || lia).
  rewrite date_now_run, (bind_ok _ _ _ _ _ _ (refill_run key (config_of c) (int now) w)).
  fold claim_state. rewrite Et. pose proof Hc as (HM & _). cbn [config_of maxTokens].
  rewrite coversCost_int, (proj2 (Z.leb_le est balance0)) by lia.
  rewrite sub_int by (unfold safe; lia). fold spent_state.
  rewrite (bind_ok _ _ _ _ _ _ (writeBucket_run key spent_state (int 86400) (Some (config_of c)) _ _ _ Httl Hn2)).
  rewrite upsert_purge_key.
  set (wa := upsert (int now) key (bucket_entry spent_state (int now) (int (ttlZ 86400 c))) w).
  assert (hash_at (int now) wa key = Some spent_hash) as Ha.
  { apply hash_at_bucket_entry. unfold expired, bucket_entry, expired_at. simpl.
    rewrite mul_int, add_int by (unfold safe; lia). unfold geb. rewrite leb_int. apply Z.leb_gt. lia. }
  destruct (writeMark_run key the_mark (int est) claim_state (int now) wa spent_hash Ha Hp Hx) as (w1 & old & E & H1 & H2).
  unfold write_mark_opt. change {| mark_id := id; mark_ttlSeconds := int tau |} with the_mark.
  rewrite (bind_ok _ _ _ _ _ _ E).
  assert (epochs wa = epochs w) as Hep by (unfold wa, upsert; by destruct (live_at (int now) w key)).
  exists w1, (epoch_after wa spent_hash), old. split; [done|]. unfold epoch_after in *. by rewrite <- Hep.
Qed.

(** Only a claim the balance covers is granted. *)
Lemma marked_claim_covered r w1 :
  acquireTokens key (int est) (config_of c) (Some the_mark) (int now) w = (Ok r, w1) ->
  at_acquired r = true -> est <= balance0.
Proof.
  intros E Hr. destruct claim_state_tokens as (Et & Ht & _). destruct tau_ttl as (_ & Hs & _).
  unfold acquireTokens in E. rewrite bind_run, claimMark_run in E. unfold mark_result, the_mark in E.
  cbn [mark_ttlSeconds mark_id] in E. rewrite Hs in E. rewrite usable_config_int in E by (done || lia).
  rewrite date_now_run, (bind_ok _ _ _ _ _ _ (refill_run key (config_of c) (int now) w)) in E.
  fold claim_state in E. rewrite Et in E. pose proof Hc as (HM & _). cbn [config_of maxTokens] in E.
  rewrite coversCost_int in E by lia. destruct (Z.leb_spec est balance0); [done|].
  rewrite bind_run in E. destruct (writeBucket _ _ _ _ _ _) as [[[]|] w2]; [|done].
  injection E as <- <-. done.
Qed.

(** The bucket as the settlement reads it. *)
Definition settled_state : BucketState :=
  {| tokens := int (balance0 - est); lastUpdate := lastUpdate claim_state;
     overflow := parseFiniteStored (Some (num_to_string (overflow claim_state))) (int 0);
     fills := parseFiniteStored (Some (num_to_string (fills claim_state))) (int 0) |}.

Lemma spent_hash_fields ep f :
  (<["epoch" := ep]> spent_hash) !! f
  = if decide (f = "epoch") then Some ep
    else bucket_fields spent_state (default ∅ (hash_at (int now) w key)) !! f.
Proof. case_decide; subst; [apply lookup_insert_eq|by apply lookup_insert_ne]. Qed.

Lemma settled_bucket_at w2 ep :
  est <= balance0 ->
  (forall f, field_at (int now) w2 key f = (<["epoch" := ep]> spent_hash) !! f) ->
  bucket_at (int now) w2 key (config_of c) = settled_state.
Proof.
  intros Hle Hf. destruct claim_state_tokens as (Et & Ht & u & Eu & Hu & Hph).
  assert (stored_bucket (int now) w2 key (config_of c) = settled_state) as Hst.
  { unfold stored_bucket, settled_state. rewrite !Hf, !spent_hash_fields.
    do 4 rewrite decide_False by done. unfold bucket_fields, spent_state. cbn [with_tokens tokens lastUpdate overflow fills].
    simplify_map_eq. pose proof Hc as (HM & _). f_equal.
    - apply parseFinite_num_to_string; [apply wf_int; unfold safe; lia|done].
    - rewrite Eu. apply parseFinite_num_to_string; [apply wf_int; unfold safe; lia|done]. }
  unfold bucket_at. rewrite Hst. by apply (refill_state_idle c now _ (balance0 - est) u); try done; lia.
Qed.
End marked_claim.

Lemma wf_parseFinite_0 raw : wf_num (parseFiniteStored raw (int 0)).
Proof. apply wf_parseFinite, wf_int. unfold safe. lia. Qed.

Lemma parseFinite_again raw :
  parseFiniteStored (Some (num_to_string (parseFiniteStored raw (int 0)))) (int 0)
  = parseFiniteStored raw (int 0).
Proof. apply parseFinite_num_to_string; [apply wf_parseFinite_0|by apply parseFinite_finite]. Qed.

(** The settlement's view of a bucket and a mark of the same claim. *)
Lemma settle_same_claim c key id now est actual debt w b ep old w2 :
  config_ok c -> 0 <= est <= 10 ^ 8 -> 0 <= actual <= 2 ^ 50 -> 0 <= debt <= 2 ^ 50 ->
  0 <= now <= 2 ^ 52 -> bucket_rel w key b -> bucket_inv c now b ->
  est <= balance0 c now b -> actual <= balance0 c now b + debt -> ep <> "" ->
  (forall f, field_at (int now) w2 key f
             = (<["epoch" := ep]> (spent_hash c key now est w b)) !! f) ->
  let st := claim_state c key now w in
  let h := spent_hash c key now est w b in
  let o := settleAmount (settle_input (int now) w2
    {| ss_key := key; ss_markId := id; ss_actual := int actual;
       ss_config := config_of c; ss_maxDebt := int debt |}
    (mark_fields (num_to_string (int est)) (num_to_string (overflow st)) (num_to_string (fills st))
       (num_to_string (parseFiniteStored (h !! "generation") (int 0))) ep
       (num_to_string (parseFiniteStored (h !! "forgiven") (int 0))) old)) in
  so_applied o = int (actual - est) /\ so_unapplied o = int 0.
Proof.
  intros Hc Hest Hact Hdebt Hnow Hrel Hinv Hle Hroom Hep Hf. cbv zeta.
  destruct (claim_state_tokens c key now w b Hc Hnow Hrel Hinv) as (_ & Ht & _).
  pose proof (settled_bucket_at c key now est w b Hc Hest Hnow Hrel Hinv w2 ep Hle Hf) as Hb.
  pose proof Hc as (HM & _).
  rewrite (settleAmount_same_instant _ (balance0 c now b - est) est actual (cM c) debt);
    unfold settle_input; cbn [ss_key ss_config ss_maxDebt ss_actual si_tokens si_maxTokens si_maxDebt
      si_actual si_claimed si_overflowNow si_overflowAtClaim si_forgivenNow si_forgivenAtClaim
      si_fillsNow si_fillsAtClaim]; try done; try lia;
    rewrite ?Hb, ?Hf, ?spent_hash_fields; unfold mark_fields; simplify_map_eq.
  - unfold bucket_recreated. cbn [si_epochAtClaim si_epochNow si_generationNow si_generationAtClaim
      si_overflowNow si_overflowAtClaim si_fillsNow si_fillsAtClaim].
    rewrite ?Hb, ?Hf, ?spent_hash_fields. unfold settled_state. cbn [overflow fills].
    unfold spent_hash.
    rewrite (bool_decide_false (ep = "")), (bool_decide_true (ep = ep)) by done.
    rewrite parseFinite_again, eqb_refl_finite, !ltb_irrefl by by apply parseFinite_finite. done.
  - done.
  - apply parseFinite_num_to_string; [apply wf_int; unfold safe; lia|done].
  - done.
  - by apply parseFinite_finite.
  - unfold spent_hash. by rewrite parseFinite_again.
  - by apply parseFinite_finite.
  - apply wf_parseFinite_0.
  - done.
  - by apply parseFinite_finite.
Qed.

(** C16.  Settling replaces the estimate: on a bucket of integers, a claim of
    [est] that is granted and then settled, at the same instant, with what the
    response reported leaves exactly the balance a claim of [actual] would have
    left, whether the estimate was too high or too low, so long as the balance
    and the allowed debt cover it; nothing is left unapplied. *)
Theorem settlement_replaces_estimate (c : ConfigZ) (key id : string) (now est actual debt tau : Z)
    (w w1 : World) (b : option BucketZ) (r : AcquireTokensResult) :
  config_ok c -> 0 <= est <= 10 ^ 8 -> 0 <= actual <= 2 ^ 50 -> 0 <= debt <= 2 ^ 50 ->
  0 <= now <= 2 ^ 52 -> 0 < tau <= 2 ^ 40 ->
  bucket_rel w key b -> bucket_inv c now b ->
  field_at (int now) w key "epoch" <> Some "" -> num_to_string (epochs w + int 1) <> "" ->
  acquireTokens key (int est) (config_of c)
    (Some {| mark_id := id; mark_ttlSeconds := int tau |}) (int now) w = (Ok r, w1) ->
  at_acquired r = true ->
  let balance := balance0 c now b in
  actual <= balance + debt ->
  let spec := {| ss_key := key; ss_markId := id; ss_actual := int actual;
                 ss_config := config_of c; ss_maxDebt := int debt |} in
  exists w2,
    settleTokens [spec] (int now) w1
    = (Ok [{| sr_key := key; sr_settled := true; sr_applied := int (actual - est);
              sr_unapplied := int 0 |}], w2) /\
    field_at (int now) w2 key "tokens" = Some (num_to_string (int (balance - actual))).
Proof.
  intros Hc Hest Hact Hdebt Hnow Htau Hrel Hinv Hne Hnew E Hr balance Hroom spec. subst balance.
  pose proof (marked_claim_covered c key id now est tau w b Hc Hest Hnow Htau Hrel Hinv r w1 E Hr) as Hle.
  destruct (marked_claim_run c key id now est tau w b Hc Hest Hnow Htau Hrel Hinv Hle)
    as (w1' & ep & old & E' & Hep & Hk & Hm).
  unfold the_mark in E'. rewrite E in E'. injection E' as -> <-.
  assert (ep <> "") as Hep0.
  { rewrite Hep. unfold spent_hash. unfold bucket_fields. do 4 rewrite lookup_insert_ne by done.
    unfold field_at in Hne. destruct (hash_at (int now) w key) as [h|]; simpl in Hne |- *; [|done].
    destruct (h !! "epoch"); simpl; congruence. }
  pose proof Hc as (HM & _).
  destruct (claim_state_tokens c key now w b Hc Hnow Hrel Hinv) as (_ & Ht & _).
  unfold settleTokens. rewrite date_now_run. cbn [mcollect]. rewrite bind_run, settle_one_run.
  unfold spec_mark. cbn [ss_key ss_markId spec]. rewrite Hm.
  assert (settle_usable spec = true) as ->.
  { unfold settle_usable. cbn [spec ss_actual ss_config]. rewrite usable_config_int by (done || lia).
    rewrite ltb_int, (proj2 (Z.ltb_ge _ _)) by lia. done. }
  cbn [negb]. cbv zeta. set (w2 := consumed (int now) spec w1).
  assert (hash_at (int now) w2 key = Some (<["epoch" := ep]> (spent_hash c key now est w b))) as Hk2.
  { unfold w2, consumed, hash_at. rewrite live_at_delete, decide_False by by apply not_eq_sym, string_app_ne.
    rewrite live_at_purge_key. exact Hk. }
  assert (forall f, field_at (int now) w2 key f = (<["epoch" := ep]> (spent_hash c key now est w b)) !! f)
    as Hf by (intros; unfold field_at; by rewrite Hk2).
  destruct (settle_same_claim c key id now est actual debt w b ep old w2 Hc Hest Hact Hdebt Hnow Hrel
    Hinv Hle Hroom Hep0 Hf) as [Ho1 Ho2].
  rewrite Hf, spent_hash_fields, decide_False by done. unfold bucket_fields at 1.
  do 3 rewrite lookup_insert_ne by done. rewrite lookup_insert_eq.
  fold spec in Ho1, Ho2. set (o := settleAmount _) in *. rewrite Ho1, Ho2.
  change (ss_key spec) with key in *. change (ss_config spec) with (config_of c).
  rewrite (settled_bucket_at c key now est w b Hc Hest Hnow Hrel Hinv w2 ep Hle Hf).
  destruct (ttlZ_range 86400 c ltac:(lia) Hc) as [Ht1 Ht2].
  destruct (normalizeTtl_int (ttlZ 86400 c) Ht1) as [Hn1 Hn2].
  assert (normalizeTtlSeconds (bucketTtl (int 86400) (config_of c)) = Ok (int (ttlZ 86400 c)))
    as Httl by (by rewrite bucketTtl_int by (done || lia)).
  rewrite (bind_ok _ _ _ _ _ _ (writeBucket_run _ _ (int 86400) (Some (config_of c)) _ _ _ Httl Hn2)).
  rewrite upsert_purge_key. unfold settled_state at 1 2. cbn [tokens].
  rewrite (sub_int (balance0 c now b - est)) by (unfold safe; lia).
  match goal with |- context [upsert (int now) key (bucket_entry ?s _ _) w2] => set (s2 := s) end.
  assert (hash_at (int now) (upsert (int now) key (bucket_entry s2 (int now) (int (ttlZ 86400 c))) w2) key
    = Some (bucket_fields s2 (default ∅ (hash_at (int now) w2 key)))) as Hk3.
  { apply hash_at_bucket_entry. unfold expired, bucket_entry, expired_at. simpl.
    rewrite mul_int, add_int by (unfold safe; lia). unfold geb. rewrite leb_int. apply Z.leb_gt. lia. }
  rewrite (bind_ok _ _ _ _ _ _ (hash_present_run _ _ _ _ Hk3)).
  destruct (hash_set_run key "forgiven" (num_to_string (so_forgiven o)) _ _ _ Hk3) as (w4 & E4 & Hk4 & _).
  rewrite (bind_ok _ _ _ _ _ _ E4). exists w4. split; [done|].
  unfold field_at. rewrite Hk4. cbn [mbind option_bind]. unfold bucket_fields.
  do 4 rewrite lookup_insert_ne by done. rewrite lookup_insert_eq. unfold s2. cbn [tokens with_tokens].
  do 3 f_equal. lia.
Qed.

Definition demo_mark : ClaimMark := {| mark_id := "m"; mark_ttlSeconds := int 60 |}.

(** An estimate of 3 on a bucket of 10 that really cost 12, with a debt of 5
    allowed. *)
Lemma settlement_replaces_estimate_witness :
  let c := {| cM := 10; cA := 5; cI := 1000 |} in
  exists w2,
    settleTokens [{| ss_key := "b"; ss_markId := "m"; ss_actual := int 12;
                     ss_config := config_of c; ss_maxDebt := int 5 |}] (int 7)
      (acquireTokens "b" (int 3) (config_of c) (Some demo_mark) (int 7) MemoryBackend).2
    = (Ok [{| sr_key := "b"; sr_settled := true; sr_applied := int (12 - 3);
              sr_unapplied := int 0 |}], w2) /\
    field_at (int 7) w2 "b" "tokens" = Some (num_to_string (int (10 - 12))).
Proof.
  intros c.
  destruct (settlement_replaces_estimate c "b" "m" 7 3 12 5 60 MemoryBackend
    (acquireTokens "b" (int 3) (config_of c) (Some demo_mark) (int 7) MemoryBackend).2 None
    {| at_acquired := true; at_waitTime := None; at_remainingTokens := Some (int 7);
       at_error := None |}) as (w2 & H1 & H2).
  - repeat split; vm_compute; congruence.
  - lia.
  - lia.
  - lia.
  - lia.
  - lia.
  - reflexivity.
  - exact I.
  - vm_compute. discriminate.
  - vm_compute. discriminate.
  - vm_compute. reflexivity.
  - reflexivity.
  - vm_compute. discriminate.
  - exists w2. split; [exact H1|exact H2].
Defined.
