(* ===== verification/ConcurrencyFacts.v ===== *)
(** * The slot ledger as a list

    A ledger of integer costs is a list of slots; every slot operation of the
    backend is the operation on that list. *)
From S2P Require Import Prelude JsNumber JsString Shared SharedFacts Utf MemoryStore StoreFacts.
From S2P Require Import TokenBucket TokenBucketFacts Concurrency MultiLimit Queue Freeze Backend.
From S2P Require Import Observe StoreProps Atomicity AdmissionProps SettlementProps.
Local Open Scope Z_scope.

(** ** Slots *)

(** A holder, when it claimed its slot, and the cost it holds. *)
Abbreviation slot := (string * (num * Z))%type.

Definition slot_score (s : slot) : string * num := (s.1, s.2.1).

Fixpoint total_cost (except : option string) (l : list slot) : Z :=
  match l with
  | [] => 0
  | s :: l' => (if decide (Some s.1 = except) then 0 else s.2.2) + total_cost except l'
  end.

Definition reaped (cutoff : num) (l : list slot) : list slot :=
  filter (fun s => (s.2.1 <=? cutoff)%num = false) l.

(** A claim for [id]: whether it is granted, the cost in flight, the slots. *)
Definition claimL (K : Z) (cutoff now : num) (id : string) (cost : Z) (l : list slot)
    : bool * Z * list slot :=
  let l' := reaped cutoff l in
  let current := total_cost (Some id) l' in
  if K <? current + cost then (false, current, l')
  else (true, current + cost, omap_set id (now, cost) l').

Definition costs_ok (l : list slot) : Prop := Forall (fun s => 0 <= s.2.2) l.

(** ** Ordered maps under a map of values *)

Lemma fmap_omap_set (id : string) (v : num * Z) l :
  slot_score <$> omap_set id v l = omap_set id v.1 (slot_score <$> l).
Proof.
  induction l as [|[k u] l IH]; [done|]. simpl. case_decide; simpl; [done|]. f_equal. exact IH.
Qed.

Lemma fmap_omap_delete (id : string) (l : list slot) :
  slot_score <$> omap_delete id l = omap_delete id (slot_score <$> l).
Proof.
  induction l as [|[k u] l IH]; [done|]. simpl. case_decide; simpl; [exact IH|]. f_equal. exact IH.
Qed.

Lemma fst_slot_score l : (slot_score <$> l).*1 = l.*1.
Proof. rewrite <- list_fmap_compose. done. Qed.

Lemma omap_get_Some_in {V} (l : list (string * V)) id v : omap_get id l = Some v -> id ∈ l.*1.
Proof.
  induction l as [|[k u] l IH]; simpl; [done|]. case_decide; [intros; subst; by left|].
  intros. right. auto.
Qed.

Lemma omap_get_None {V} (l : list (string * V)) id : omap_get id l = None <-> id ∉ l.*1.
Proof.
  induction l as [|[k u] l IH]; simpl; [split; [intros _; apply not_elem_of_nil|done]|].
  rewrite not_elem_of_cons. case_decide; naive_solver.
Qed.

Lemma omap_get_in (l : list slot) s : NoDup l.*1 -> s ∈ l -> omap_get s.1 l = Some s.2.
Proof.
  induction l as [|[k u] l IH]; simpl; [by intros _ ?%elem_of_nil|].
  intros [Hk Hd]%NoDup_cons [->|Hs]%elem_of_cons; [by rewrite decide_True|].
  rewrite decide_False; [auto|]. intros <-. apply Hk. by apply (list_elem_of_fmap_2 fst).
Qed.

Lemma omap_delete_notin {V} (l : list (string * V)) id : id ∉ l.*1 -> omap_delete id l = l.
Proof.
  induction l as [|[k u] l IH]; simpl; [done|]. rewrite not_elem_of_cons. intros [Hk Hl].
  rewrite decide_False by done. by rewrite IH.
Qed.

(** ** Sums *)

Lemma total_cost_nonneg o l : costs_ok l -> 0 <= total_cost o l.
Proof.
  induction 1 as [|s l Hs Hl IH]; simpl; [lia|]. case_decide; lia.
Qed.

Lemma total_cost_except id l :
  costs_ok l -> total_cost (Some id) l <= total_cost None l.
Proof.
  induction 1 as [|s l Hs Hl IH]; cbn [total_cost]; [lia|].
  rewrite (decide_False (P := Some s.1 = None)) by done. case_decide; lia.
Qed.

Lemma total_cost_notin id l : id ∉ l.*1 -> total_cost (Some id) l = total_cost None l.
Proof.
  induction l as [|[k u] l IH]; [done|]. intros [Hk Hl]%not_elem_of_cons.
  simpl in Hk. cbn [total_cost fst snd].
  rewrite (decide_False (P := Some k = None)), decide_False by congruence. by rewrite IH.
Qed.

Lemma total_cost_set id now cost l :
  NoDup l.*1 -> total_cost None (omap_set id (now, cost) l) = total_cost (Some id) l + cost.
Proof.
  induction l as [|[k u] l IH]; intros Hd; [simpl; lia|]. apply NoDup_cons in Hd as [Hk Hd].
  simpl in Hk. cbn [omap_set omap_delete]. case_decide as E; cbn [total_cost fst snd].
  - subst k. rewrite (decide_True (P := Some id = Some id)) by done.
    rewrite (decide_False (P := Some id = None)) by done. rewrite total_cost_notin by done. lia.
  - rewrite (decide_False (P := Some k = None)), (decide_False (P := Some k = Some id)) by congruence.
    rewrite IH by done. lia.
Qed.

Lemma total_cost_delete id l : NoDup l.*1 -> total_cost None (omap_delete id l) = total_cost (Some id) l.
Proof.
  induction l as [|[k u] l IH]; intros Hd; [done|]. apply NoDup_cons in Hd as [Hk Hd].
  simpl in Hk. cbn [omap_set omap_delete]. case_decide as E; cbn [total_cost fst snd].
  - subst k. rewrite (decide_True (P := Some id = Some id)) by done. by rewrite IH.
  - rewrite (decide_False (P := Some k = None)), (decide_False (P := Some k = Some id)) by congruence.
    by rewrite IH.
Qed.

Lemma total_cost_reaped o c l : costs_ok l -> total_cost o (reaped c l) <= total_cost o l.
Proof.
  induction 1 as [|s l Hs Hl IH]; [done|]. unfold reaped in *.
  destruct (decide ((s.2.1 <=? c)%num = false)) as [E|E].
  - rewrite filter_cons_True by done. simpl. lia.
  - rewrite filter_cons_False by done. simpl. case_decide; lia.
Qed.

Lemma reaped_NoDup c l : NoDup l.*1 -> NoDup (reaped c l).*1.
Proof.
  intros Hd. eapply sublist_NoDup; [exact Hd|]. apply fmap_sublist, sublist_filter.
Qed.

Lemma reaped_ok c l : costs_ok l -> costs_ok (reaped c l).
Proof.
  unfold costs_ok. rewrite !Forall_forall. intros H s [_ Hs]%list_elem_of_filter. auto.
Qed.

(** ** The stored ledger *)

Definition zset_entry (x : option num) (z : list (string * num)) : Entry :=
  {| expiresAt := x; e_hash := None; e_set := None; e_zset := Some z; e_str := None |}.
Definition hash_entry (x : option num) (h : gmap string string) : Entry :=
  {| expiresAt := x; e_hash := Some h; e_set := None; e_zset := None; e_str := None |}.

Definition cost_fields (l : list slot) (h : gmap string string) : Prop :=
  forall id, h !! id = (fun v => num_to_string (int v.2)) <$> omap_get id l.

(** At [now] the ledger at [key] holds the slots [l]: both keys, with one
    lifetime, or neither. *)
Definition ledger_rel (now : num) (w : World) (key : string) (l : list slot) : Prop :=
  NoDup l.*1 /\ costs_ok l /\
  match l with
  | [] => live_at now w key = None /\ live_at now w (costs_key key) = None
  | _ => exists x h, live_at now w key = Some (zset_entry x (slot_score <$> l)) /\
           live_at now w (costs_key key) = Some (hash_entry x h) /\ cost_fields l h
  end.

Lemma costs_key_ne key : costs_key key <> key.
Proof. by apply string_app_ne. Qed.

Lemma ledger_rel_view now w w' key l :
  (now <=? now)%num = true -> same_view now w' w -> ledger_rel now w key l -> ledger_rel now w' key l.
Proof.
  intros Hn [_ Hv] (Hd & Hok & H). split_and!; [done|done|].
  destruct l; by rewrite !Hv by done.
Qed.

Lemma ledger_rel_purge now w key k l :
  ledger_rel now w key l -> ledger_rel now (purge_key now k w) key l.
Proof.
  intros (Hd & Hok & H). split_and!; [done|done|]. destruct l; by rewrite !live_at_purge_key.
Qed.

(** Later the ledger is what it was, or it has expired. *)
Lemma ledger_rel_later now t w key l :
  (now <=? t)%num = true -> ledger_rel now w key l ->
  ledger_rel t w key l \/ ledger_rel t w key [].
Proof.
  intros Ht (Hd & Hok & H). destruct l as [|s l].
  - left. destruct H as [H1 H2].
    split_and!; [constructor|constructor|by eapply live_at_dead_later..].
  - destruct H as (x & h & H1 & H2 & H3).
    assert (forall e k, live_at now w k = Some e ->
      live_at t w k = if expired t e then None else Some e) as Hl.
    { intros e k He. apply live_at_lookup in He. unfold live_at. by rewrite He. }
    destruct (expired t (zset_entry x (slot_score <$> s :: l))) eqn:E.
    + right. split_and!; [constructor|constructor|by rewrite (Hl _ _ H1), E|].
      rewrite (Hl _ _ H2). unfold expired in *. simpl in *. by rewrite E.
    + left. split_and!; [done|done|]. exists x, h.
      rewrite (Hl _ _ H1), (Hl _ _ H2). rewrite E. unfold expired in *. simpl in *. by rewrite E.
Qed.

Lemma ledger_zset_at now w key l :
  ledger_rel now w key l ->
  zset_at now w key = match l with [] => None | _ => Some (slot_score <$> l) end.
Proof.
  intros (_ & _ & H). unfold zset_at. destruct l; [by destruct H as [-> _]|].
  by destruct H as (x & h & -> & _).
Qed.

Lemma ledger_hash_at now w key l :
  ledger_rel now w key l ->
  match l with
  | [] => hash_at now w (costs_key key) = None
  | _ => exists h, hash_at now w (costs_key key) = Some h /\ cost_fields l h
  end.
Proof.
  intros (_ & _ & H). unfold hash_at. destruct l; [by destruct H as [_ ->]|].
  destruct H as (x & h & _ & -> & H). by exists h.
Qed.

Lemma purge_twice_view now k k' w : same_view now (purge_key now k' (purge_key now k w)) w.
Proof. by rewrite !purge_key_view. Qed.

(** *** The cost in flight *)

Lemma ledger_cost_int l h except : forall l' acc,
  cost_fields l h -> NoDup l.*1 -> costs_ok l -> l' ⊆ l ->
  0 <= acc -> acc + total_cost except l' <= 2 ^ 52 ->
  fold_left (fun total s =>
    if decide (Some s.1 = except) then total
    else total + parseFiniteStored (Some h ≫= lookup s.1) (int 1))%num
    (slot_score <$> l') (int acc) = int (acc + total_cost except l').
Proof.
  induction l' as [|s l' IH]; intros acc Hh Hd Hok Hsub Hacc Hle; simpl; [f_equal; lia|].
  assert (s ∈ l) as Hs by (apply Hsub; by left).
  assert (0 <= s.2.2) as Hs0 by (unfold costs_ok in Hok; rewrite Forall_forall in Hok; auto).
  assert (costs_ok l') as Hok'.
  { unfold costs_ok in *. rewrite Forall_forall in *. intros x Hx. apply Hok, Hsub. by right. }
  pose proof (total_cost_nonneg except l' Hok').
  rewrite Hh, (omap_get_in l s Hd Hs). simpl. cbn [total_cost] in Hle. case_decide.
  - rewrite IH; try done. intros x Hx. apply Hsub. by right.
  - rewrite parseFinite_num_to_string by (done || apply wf_int; unfold safe; lia).
    rewrite add_int by (unfold safe; lia).
    rewrite IH; try done; [f_equal; lia|intros x Hx; apply Hsub; by right|lia|lia].
Qed.

Lemma concurrencyCost_run now w key l except :
  ledger_rel now w key l -> total_cost except l <= 2 ^ 52 ->
  exists w', concurrencyCost key except now w = (Ok (int (total_cost except l)), w') /\
    same_view now w' w.
Proof.
  intros Hl Hle. unfold concurrencyCost. mstep. rewrite (ledger_zset_at _ _ _ _ Hl).
  pose proof (ledger_hash_at _ _ _ _ Hl) as Hh. destruct Hl as (Hd & Hok & _).
  destruct l as [|s l]; [eexists; split; [done|apply purge_key_view]|].
  destruct Hh as (h & Hh & Hf). mstep. rewrite hash_at_purge_key, Hh.
  eexists. split; [|apply (purge_twice_view now key (costs_key key))]. rewrite ret_run. do 2 f_equal.
  unfold ledger_cost. by rewrite (ledger_cost_int (s :: l) h except (s :: l) 0).
Qed.

(** ** Operations on a ledger *)

(** Keys other than the ledger's two hold what they held. *)
Definition frame (now : num) (key : string) (w' w : World) : Prop :=
  forall k, k <> key -> k <> costs_key key -> live_at now w' k = live_at now w k.

Lemma frame_trans now key w1 w2 w3 : frame now key w1 w2 -> frame now key w2 w3 -> frame now key w1 w3.
Proof. intros H1 H2 k Hk Hc. by rewrite H1, H2. Qed.

Lemma frame_purge now key k w : frame now key (purge_key now k w) w.
Proof. intros k' _ _. apply live_at_purge_key. Qed.

Lemma frame_view now key w' w : (now <=? now)%num = true -> same_view now w' w -> frame now key w' w.
Proof. intros Hn [_ H] k _ _. by apply H. Qed.

(** [update_entry] on a live entry. *)
Lemma update_entry_live key f now w e :
  keeps_expiry f -> live_at now w key = Some e ->
  exists w', update_entry key f now w = (Ok tt, w') /\ live_at now w' key = Some (f e) /\
    forall k, k <> key -> live_at now w' k = live_at now w k.
Proof.
  intros Hf He. eexists. split; [done|]. split.
  - rewrite live_at_alter, decide_True by done. by rewrite He.
  - intros k Hk. by rewrite live_at_alter, decide_False.
Qed.

Lemma dropIfEmpty_at key now w e :
  live_at now w key = Some e ->
  exists w', dropIfEmpty key now w = (Ok tt, w') /\
    live_at now w' key = (if decide (entry_size e = Some 0%nat) then None else Some e) /\
    forall k, k <> key -> live_at now w' k = live_at now w k.
Proof.
  intros He. rewrite dropIfEmpty_run, (live_at_lookup _ _ _ _ He). eexists. split; [done|].
  case_decide; [|by rewrite He]. split.
  - by rewrite live_at_delete, decide_True.
  - intros k Hk. by rewrite live_at_delete, decide_False.
Qed.

Lemma omap_delete_mid {V} (D R : list (string * V)) id v :
  NoDup (D ++ (id, v) :: R).*1 -> omap_delete id (D ++ (id, v) :: R) = D ++ R.
Proof.
  induction D as [|[k u] D IH]; cbn [app].
  - intros [Hn Hd]%NoDup_cons. simpl. rewrite decide_True by done. by apply omap_delete_notin.
  - intros [Hn Hd]%NoDup_cons. simpl in Hn. cbn [omap_delete]. rewrite decide_False; [f_equal; auto|].
    intros ->. apply Hn. apply (list_elem_of_fmap_2 fst _ (k, v)), elem_of_app. right. by left.
Qed.

(** One pass of the reaping loop over the slots that remain to be looked at. *)
Definition reap_pass (cutoff : num) (rest : list slot) (l : list slot) : list slot :=
  fold_left (fun l s => if (s.2.1 <=? cutoff)%num then omap_delete s.1 l else l) rest l.

Lemma reap_pass_reaped cutoff rest : forall D,
  NoDup (D ++ rest).*1 -> reap_pass cutoff rest (D ++ rest) = D ++ reaped cutoff rest.
Proof.
  induction rest as [|[id v] rest IH]; intros D Hd; [done|]. unfold reaped. cbn [reap_pass fold_left].
  destruct (v.1 <=? cutoff)%num eqn:E; simpl fst; simpl snd.
  - rewrite E. rewrite omap_delete_mid by done. rewrite filter_cons_False by (simpl; congruence).
    apply IH. eapply sublist_NoDup; [exact Hd|]. apply fmap_sublist, sublist_app; [done|].
    by apply sublist_cons.
  - rewrite E. rewrite filter_cons_True by done.
    rewrite (cons_middle (id, v)), app_assoc in Hd |- *.
    etransitivity; [apply IH; done|]. by rewrite <- app_assoc.
Qed.

Lemma cost_fields_delete id l h : cost_fields l h -> cost_fields (omap_delete id l) (delete id h).
Proof.
  intros H k. rewrite omap_get_delete. destruct (decide (id = k)) as [->|Hk].
  - by rewrite lookup_delete_eq.
  - by rewrite lookup_delete_ne, H.
Qed.

Lemma reap_loop key cutoff x rest now : forall w l h,
  live_at now w key = Some (zset_entry x (slot_score <$> l)) ->
  live_at now w (costs_key key) = Some (hash_entry x h) -> cost_fields l h ->
  exists w' h',
    mforeach (slot_score <$> rest) (fun s =>
      if (s.2 <=? cutoff)%num then
        zset_delete key s.1 ;; hash_delete (costs_key key) s.1
      else mret tt) now w = (Ok tt, w') /\
    live_at now w' key = Some (zset_entry x (slot_score <$> reap_pass cutoff rest l)) /\
    live_at now w' (costs_key key) = Some (hash_entry x h') /\
    cost_fields (reap_pass cutoff rest l) h' /\ frame now key w' w.
Proof.
  pose proof (costs_key_ne key) as Hne.
  induction rest as [|s rest IH]; intros w l h Hz Hh Hf; [by exists w, h|].
  cbn [fmap list_fmap mforeach reap_pass fold_left]. unfold slot_score at 1 2 3. cbn [fst snd].
  rewrite bind_run. destruct (s.2.1 <=? cutoff)%num.
  - destruct (update_entry_live key (on_zset (omap_delete s.1)) now w _ (keeps_on_zset _) Hz)
      as (w1 & E1 & H1 & F1).
    assert (live_at now w1 (costs_key key) = Some (hash_entry x h)) as Hh1 by (by rewrite F1).
    destruct (update_entry_live (costs_key key) (on_hash (delete s.1)) now w1 _ (keeps_on_hash _) Hh1)
      as (w2 & E2 & H2 & F2).
    rewrite (bind_ok _ _ _ _ _ _ (E1 : zset_delete key s.1 now w = _)).
    rewrite (E2 : hash_delete (costs_key key) s.1 now w1 = _).
    destruct (IH w2 (omap_delete s.1 l) (delete s.1 h)) as (w' & h' & E & Hz' & Hh' & Hf' & Fr).
    + rewrite F2 by done. rewrite H1. unfold on_zset. simpl. by rewrite fmap_omap_delete.
    + exact H2.
    + by apply cost_fields_delete.
    + exists w', h'. split_and!; try done. eapply frame_trans; [exact Fr|].
      intros k Hk Hc. by rewrite F2, F1.
  - rewrite ret_run. destruct (IH w l h Hz Hh Hf) as (w' & h' & E & H). by exists w', h'.
Qed.

Lemma cost_fields_nil h : cost_fields [] h -> h = ∅.
Proof. intros H. apply map_empty. intros id. by rewrite H. Qed.

(** Dropping both keys once the last slot is gone. *)
Lemma drop_empty_ledger key x now w l h :
  NoDup l.*1 -> costs_ok l ->
  live_at now w key = Some (zset_entry x (slot_score <$> l)) ->
  live_at now w (costs_key key) = Some (hash_entry x h) -> cost_fields l h ->
  exists w', (dropIfEmpty key ;; dropIfEmpty (costs_key key)) now w = (Ok tt, w') /\
    ledger_rel now w' key l /\ frame now key w' w.
Proof.
  intros Hd Hok Hz Hh Hf. pose proof (costs_key_ne key) as Hne.
  destruct (dropIfEmpty_at key now w _ Hz) as (w1 & E1 & H1 & F1).
  assert (live_at now w1 (costs_key key) = Some (hash_entry x h)) as Hh1 by by rewrite F1.
  destruct (dropIfEmpty_at (costs_key key) now w1 _ Hh1) as (w2 & E2 & H2 & F2).
  rewrite (bind_ok _ _ _ _ _ _ E1), E2. exists w2. split; [done|].
  split; [|intros k Hk Hc; by rewrite F2, F1].
  split_and!; [done|done|]. destruct l as [|s l].
  - rewrite F2 by done. rewrite H1, H2. split; [done|]. apply cost_fields_nil in Hf as ->. done.
  - exists x, h. rewrite F2 by done. rewrite H1, H2. split_and!; [done| |done].
    rewrite decide_False; [done|]. cbn [entry_size hash_entry e_set e_zset e_hash].
    intros [= Hs]. apply map_size_empty_inv in Hs. subst h. specialize (Hf s.1).
    rewrite lookup_empty in Hf. destruct s as [id v]. simpl in Hf. by rewrite decide_True in Hf.
Qed.

Lemma reapConcurrency_run key cutoff now w l :
  ledger_rel now w key l ->
  exists w', reapConcurrency key cutoff now w = (Ok tt, w') /\
    ledger_rel now w' key (reaped cutoff l) /\ frame now key w' w.
Proof.
  intros Hl. unfold reapConcurrency. mstep. rewrite (ledger_zset_at _ _ _ _ Hl).
  destruct l as [|s l].
  { eexists. split; [done|]. split; [by apply ledger_rel_purge|apply frame_purge]. }
  mstep. destruct Hl as (Hd & Hok & x & h & H1 & H2 & Hf).
  rewrite hash_at_purge_key. unfold hash_at. rewrite H2. cbn [mbind option_bind hash_entry e_hash].
  set (w0 := purge_key now (costs_key key) (purge_key now key w)).
  destruct (reap_loop key cutoff x (s :: l) now w0 (s :: l) h) as (w1 & h' & E & Hz' & Hh' & Hf' & Fr);
    [unfold w0; by rewrite !live_at_purge_key..|done|].
  rewrite (bind_ok _ _ _ _ _ _ E).
  pose proof (reap_pass_reaped cutoff (s :: l) [] Hd) as Hrp. cbn [app] in Hrp.
  rewrite Hrp in Hz', Hf'.
  destruct (drop_empty_ledger key x now w1 (reaped cutoff (s :: l)) h') as (w2 & E2 & Hl2 & F2);
    [by apply reaped_NoDup|by apply reaped_ok|done|done|done|].
  exists w2. split; [exact E2|]. split; [done|]. eapply frame_trans; [exact F2|].
  eapply frame_trans; [exact Fr|]. unfold w0. eapply frame_trans; apply frame_purge.
Qed.

(** The instant a key written now with [ttl] seconds expires. *)
Definition lifetime (now ttl : Z) : option num := Some (int now + int ttl * int 1000)%num.

Lemma lifetime_live now ttl e :
  0 <= now <= 2 ^ 52 -> 0 < ttl <= 2 ^ 40 -> expiresAt e = lifetime now ttl ->
  expired (int now) e = false.
Proof.
  intros Hn Ht He. unfold expired. rewrite He. unfold lifetime, geb.
  rewrite mul_int, add_int, leb_int by (unfold safe; lia). apply Z.leb_gt. lia.
Qed.

Lemma cost_fields_set id t cost l h :
  cost_fields l h -> cost_fields (omap_set id (t, cost) l) (<[id := num_to_string (int cost)]> h).
Proof.
  intros H k. rewrite omap_get_set. destruct (decide (id = k)) as [->|Hk].
  - by rewrite lookup_insert_eq.
  - by rewrite lookup_insert_ne, H.
Qed.

Lemma cost_fields_touch id t cost l h :
  cost_fields l h -> (fun v => v.2) <$> omap_get id l = Some cost ->
  cost_fields (omap_set id (t, cost) l) h.
Proof.
  intros H Hg k. rewrite omap_get_set, H. case_decide as E; [|done]. subst k.
  destruct (omap_get id l) as [v|]; [|done]. simpl in *. by injection Hg as ->.
Qed.

Lemma costs_ok_set id t cost l : 0 <= cost -> costs_ok l -> costs_ok (omap_set id (t, cost) l).
Proof.
  intros Hc. induction 1 as [|[k v] l Hk Hl IH]; simpl; [by repeat constructor|].
  case_decide; constructor; auto.
Qed.

Lemma costs_ok_delete id l : costs_ok l -> costs_ok (omap_delete id l).
Proof.
  induction 1 as [|[k v] l Hk Hl IH]; simpl; [constructor|]. case_decide; [auto|constructor; auto].
Qed.

Lemma omap_set_not_nil (id : string) (v : num * Z) l : omap_set id v l <> [].
Proof. destruct l as [|[k u] l]; simpl; [done|]. by case_decide. Qed.

(** Two live keys give a ledger. *)
Lemma ledger_rel_intro now w key l x h :
  NoDup l.*1 -> costs_ok l -> l <> [] ->
  live_at now w key = Some (zset_entry x (slot_score <$> l)) ->
  live_at now w (costs_key key) = Some (hash_entry x h) -> cost_fields l h ->
  ledger_rel now w key l.
Proof. intros. split_and!; [done|done|]. destruct l; [done|]. by exists x, h. Qed.

(** [expire] on a live key. *)
Lemma expire_live key now ttl w e :
  0 <= now <= 2 ^ 52 -> 0 < ttl <= 2 ^ 40 -> live_at (int now) w key = Some e ->
  exists w', expire key (int ttl) (int now) w = (Ok tt, w') /\
    live_at (int now) w' key = Some (with_expiresAt (lifetime now ttl) e) /\
    forall k, k <> key -> live_at (int now) w' k = live_at (int now) w k.
Proof.
  intros Hn Ht He. destruct (normalizeTtl_int ttl ltac:(lia)) as [H1 H2].
  rewrite (expire_run _ _ _ _ _ H1 H2), He. eexists. split; [done|]. split.
  - rewrite live_at_upsert, He. cbn [default from_option]. unfold expired_at. fold (lifetime now ttl).
    by rewrite (lifetime_live now ttl).
  - intros k Hk. by apply live_at_upsert_ne.
Qed.

Lemma claimSlot_run key id cost now ttl w l :
  0 <= now <= 2 ^ 52 -> 0 < ttl <= 2 ^ 40 -> 0 <= cost -> ledger_rel (int now) w key l ->
  exists w', claimSlot key id (int cost) (int now) (int ttl) (int now) w = (Ok tt, w') /\
    ledger_rel (int now) w' key (omap_set id (int now, cost) l) /\ frame (int now) key w' w.
Proof.
  intros Hn Ht Hc Hl. pose proof (costs_key_ne key) as Hne.
  destruct (normalizeTtl_int ttl ltac:(lia)) as [Hi _].
  unfold claimSlot. rewrite Hi, lift_run. unfold zset_set, hash_set.
  rewrite (bind_ok _ _ _ _ _ _ (zset_run _ _ _)), (bind_ok _ _ _ _ _ _ (update_upsert _ _ _ _ _)).
  set (w1 := upsert _ key _ w).
  rewrite (bind_ok _ _ _ _ _ _ (hash_run _ _ _)), (bind_ok _ _ _ _ _ _ (update_upsert _ _ _ _ _)).
  set (w2 := upsert _ (costs_key key) _ w1).
  assert (exists x h, live_at (int now) w2 key
      = Some (zset_entry x (slot_score <$> omap_set id (int now, cost) l)) /\
    live_at (int now) w2 (costs_key key) = Some (hash_entry x h) /\
    cost_fields (omap_set id (int now, cost) l) h) as (x & h & H1 & H2 & H3).
  { unfold w2, w1. rewrite live_at_upsert_ne by done.
    rewrite !live_at_upsert_keeps by auto with store. rewrite live_at_upsert_ne by done.
    rewrite fmap_omap_set. destruct Hl as (_ & _ & Hl). destruct l as [|s l].
    - destruct Hl as [-> ->]. eexists _, _. split_and!; [done|done|].
      apply (cost_fields_set id (int now) cost []). done.
    - destruct Hl as (x & h & -> & -> & Hf). eexists _, _. split_and!; [done|done|].
      by apply cost_fields_set. }
  destruct (expire_live key now ttl w2 _ Hn Ht H1) as (w3 & E3 & H4 & F3).
  assert (live_at (int now) w3 (costs_key key) = Some (hash_entry x h)) as H5 by by rewrite F3.
  destruct (expire_live (costs_key key) now ttl w3 _ Hn Ht H5) as (w4 & E4 & H6 & F4).
  rewrite (bind_ok _ _ _ _ _ _ E3), E4. exists w4. split; [done|].
  destruct Hl as (Hd & Hok & _). split.
  - apply (ledger_rel_intro _ _ _ _ (lifetime now ttl) h); try done.
    + by apply NoDup_omap_set.
    + by apply costs_ok_set.
    + apply omap_set_not_nil.
    + rewrite F4 by done. by rewrite H4.
  - intros k Hk Hkc. rewrite F4, F3 by done. unfold w2, w1. by rewrite !live_at_upsert_ne.
Qed.

Lemma releaseSlot_run key id now w l :
  ledger_rel now w key l ->
  exists w', releaseSlot key id now w = (Ok tt, w') /\
    ledger_rel now w' key (omap_delete id l) /\ frame now key w' w.
Proof.
  intros Hl. pose proof (costs_key_ne key) as Hne. unfold releaseSlot. mstep.
  rewrite (ledger_zset_at _ _ _ _ Hl). destruct l as [|s l].
  - rewrite bind_run. cbn [mwhen bool_decide]. rewrite bool_decide_false by (by intros [? ?]).
    cbn [mwhen]. rewrite ret_run. mstep. rewrite hash_at_purge_key.
    destruct Hl as (_ & _ & H1 & H2). unfold hash_at. rewrite H2. cbn [mbind option_bind].
    rewrite bind_run, bool_decide_false by (by intros [? ?]). cbn [mwhen]. rewrite ret_run.
    set (w0 := purge_key now (costs_key key) (purge_key now key w)).
    assert (forall k, k = key \/ k = costs_key key -> store w0 !! k = None) as Hs.
    { unfold w0. intros k [->| ->].
      - rewrite purge_key_store_ne, purge_key_store by done. exact H1.
      - rewrite purge_key_store, live_at_purge_key. exact H2. }
    rewrite bind_run, dropIfEmpty_run, Hs, dropIfEmpty_run, Hs by auto.
    eexists. split; [done|]. split; [|unfold w0; eapply frame_trans; apply frame_purge].
    unfold w0. do 2 apply ledger_rel_purge. split; [constructor|]. split; [constructor|]. done.
  - rewrite bool_decide_true by by eexists. cbn [mwhen].
    destruct Hl as (Hd & Hok & x & h & H1 & H2 & Hf).
    assert (live_at now (purge_key now key w) key = Some (zset_entry x (slot_score <$> s :: l))) as H1'
      by by rewrite live_at_purge_key.
    destruct (update_entry_live key (on_zset (omap_delete id)) now _ _ (keeps_on_zset _) H1')
      as (w1 & E1 & H3 & F1).
    rewrite (bind_ok _ _ _ _ _ _ (E1 : zset_delete key id now _ = _)). mstep.
    assert (live_at now w1 (costs_key key) = Some (hash_entry x h)) as H4
      by (rewrite F1 by done; by rewrite live_at_purge_key).
    unfold hash_at. rewrite H4. cbn [mbind option_bind hash_entry e_hash].
    rewrite bool_decide_true by by eexists. cbn [mwhen].
    set (w2 := purge_key now (costs_key key) w1).
    assert (live_at now w2 (costs_key key) = Some (hash_entry x h)) as H4'
      by (unfold w2; by rewrite live_at_purge_key).
    destruct (update_entry_live (costs_key key) (on_hash (delete id)) now w2 _ (keeps_on_hash _) H4')
      as (w3 & E3 & H5 & F3).
    rewrite (bind_ok _ _ _ _ _ _ (E3 : hash_delete (costs_key key) id now _ = _)).
    destruct (drop_empty_ledger key x now w3 (omap_delete id (s :: l)) (delete id h))
      as (w4 & E4 & Hl4 & F4).
    + by apply NoDup_omap_delete.
    + by apply costs_ok_delete.
    + rewrite F3 by done. unfold w2. rewrite live_at_purge_key, H3.
      by rewrite (fmap_omap_delete id (s :: l)).
    + exact H5.
    + by apply cost_fields_delete.
    + exists w4. split; [exact E4|]. split; [done|]. intros k Hk Hkc.
      rewrite F4, F3 by done. unfold w2. by rewrite live_at_purge_key, F1, live_at_purge_key.
Qed.
