(* ===== verification/ConcurrencyProps.v ===== *)
(** * What a slot ledger promises

    The cost in flight never passes the ceiling, whoever claims, resubmits,
    keeps alive or releases slots, and each claim is decided on exactly the
    slots that still count. *)
From S2P Require Import Prelude JsNumber JsString Shared SharedFacts Utf MemoryStore StoreFacts.
From S2P Require Import TokenBucket TokenBucketFacts Concurrency MultiLimit Queue Freeze Backend.
From S2P Require Import Observe StoreProps Atomicity AdmissionProps SettlementProps ConcurrencyFacts.
Local Open Scope Z_scope.

(** ** One claim *)

Definition slot_config (K : Z) (requestTtl : num) : ConcurrencyConfig :=
  {| maxConcurrency := int K; requestTtl := requestTtl |}.

Lemma slot_error_int K ttl cost :
  0 < K -> 0 <= cost -> usableRequestTtl ttl = true ->
  slot_error (int cost) (slot_config K ttl) = None.
Proof.
  intros HK Hc Ht. unfold slot_error, usableConcurrency, usableCost, slot_config. cbn [maxConcurrency].
  rewrite gtb_int, geb_int, (proj2 (Z.ltb_lt _ _)), (proj2 (Z.leb_le _ _)) by lia.
  cbn [requestTtl]. by rewrite Ht.
Qed.

Lemma claimL_bounds K cutoff now id cost l :
  costs_ok l -> NoDup l.*1 -> 0 <= cost -> total_cost None l <= K ->
  let '(g, cur, l') := claimL K cutoff now id cost l in
  costs_ok l' /\ NoDup l'.*1 /\ total_cost None l' <= K.
Proof.
  intros Hok Hd Hc Ht. unfold claimL.
  pose proof (reaped_ok cutoff l Hok). pose proof (reaped_NoDup cutoff l Hd).
  pose proof (total_cost_reaped None cutoff l Hok).
  destruct (Z.ltb_spec K (total_cost (Some id) (reaped cutoff l) + cost)).
  - split_and!; [done|done|lia].
  - split_and!; [by apply costs_ok_set|by apply NoDup_omap_set|]. rewrite total_cost_set by done. lia.
Qed.

Section claim.
Context (K : Z) (HK : 0 < K <= 2 ^ 50) (key : string).

(** The check and the write that every claim of a slot ends with. *)
Lemma claim_tail cutoff id cost ttl now w l :
  0 <= now <= 2 ^ 52 -> 0 <= cost <= 2 ^ 50 -> 0 < ttl <= 2 ^ 40 ->
  ledger_rel (int now) w key l -> total_cost None l <= K ->
  let '(g, cur, l') := claimL K cutoff (int now) id cost l in
  exists w1 w2 w3,
    reapConcurrency key cutoff (int now) w = (Ok tt, w1) /\
    concurrencyCost key (Some id) (int now) w1 = (Ok (int (if g then cur - cost else cur)), w2) /\
    ((int (if g then cur - cost else cur) + int cost >? int K)%num = negb g) /\
    (if g then claimSlot key id (int cost) (int now) (int ttl) (int now) w2 = (Ok tt, w3)
     else w3 = w2) /\
    ledger_rel (int now) w3 key l' /\ frame (int now) key w3 w.
Proof.
  intros Hn Hc Ht Hl Htot. unfold claimL.
  destruct (reapConcurrency_run key cutoff (int now) w l Hl) as (w1 & E1 & Hl1 & F1).
  set (l1 := reaped cutoff l) in *. pose proof Hl as (Hd & Hok & _).
  assert (total_cost (Some id) l1 <= K) as Hb.
  { pose proof (total_cost_except id l1 (reaped_ok cutoff l Hok)).
    pose proof (total_cost_reaped None cutoff l Hok). fold l1 in H0. lia. }
  pose proof (total_cost_nonneg (Some id) l1 (reaped_ok cutoff l Hok)).
  destruct (concurrencyCost_run (int now) w1 key l1 (Some id) Hl1 ltac:(lia)) as (w2 & E2 & V2).
  assert ((int now <=? int now)%num = true) as Hnn by (rewrite leb_int; apply Z.leb_refl).
  pose proof (ledger_rel_view _ _ _ _ _ Hnn V2 Hl1) as Hl2.
  pose proof (frame_trans _ _ _ _ _ (frame_view _ key _ _ Hnn V2) F1) as F2.
  destruct (Z.ltb_spec K (total_cost (Some id) l1 + cost)).
  - exists w1, w2, w2. split_and!; try done. rewrite add_int, gtb_int by (unfold safe; lia). lia.
  - destruct (claimSlot_run key id cost now ttl w2 l1 Hn Ht ltac:(lia) Hl2) as (w3 & E3 & Hl3 & F3).
    exists w1, w2, w3. rewrite Z.add_simpl_r. split_and!; try done.
    + rewrite add_int, gtb_int by (unfold safe; lia). lia.
    + by eapply frame_trans.
Qed.

Lemma acquireConcurrency_sim id cost ttl now w l :
  0 <= now <= 2 ^ 52 -> 0 <= cost <= 2 ^ 50 -> usableRequestTtl ttl = true ->
  ledger_rel (int now) w key l -> total_cost None l <= K ->
  let '(g, cur, l') := claimL K (int now - ttl)%num (int now) id cost l in
  exists w', acquireConcurrency key (int cost) id (slot_config K ttl) (int now) w
    = (Ok {| ac_acquired := g; ac_currentConcurrency := int cur; ac_error := None |}, w') /\
    ledger_rel (int now) w' key l' /\ frame (int now) key w' w.
Proof.
  intros Hn Hc Ht Hl Htot.
  pose proof (claim_tail (int now - ttl)%num id cost 86400 now w l Hn Hc ltac:(lia) Hl Htot) as H.
  pose proof (total_cost_nonneg (Some id) (reaped (int now - ttl)%num l)
    (reaped_ok _ l (proj1 (proj2 Hl)))) as Hnn.
  unfold claimL in *. set (cur := total_cost (Some id) (reaped (int now - ttl)%num l)) in *.
  assert (slot_error (int cost) (slot_config K ttl) = None) as Hs
    by (apply slot_error_int; [lia|lia|exact Ht]).
  unfold acquireConcurrency. rewrite date_now_run, Hs. unfold slot_config. cbn [maxConcurrency requestTtl].
  revert H. destruct (Z.ltb_spec K (cur + cost)); cbv beta iota;
    intros (w1 & w2 & w3 & E1 & E2 & Eg & E3 & Hl3 & F3);
    rewrite (bind_ok _ _ _ _ _ _ E1), (bind_ok _ _ _ _ _ _ E2), Eg; cbn [negb].
  - subst w3. exists w2. split; [reflexivity|]. split; [exact Hl3|exact F3].
  - rewrite (bind_ok _ _ _ _ _ _ E3). exists w3. split; [|split; [exact Hl3|exact F3]].
    rewrite Z.add_simpl_r, add_int by (unfold safe; lia). reflexivity.
Qed.
End claim.

(** C17.  A claim of a slot is decided on the slots that still count and on
    nothing else: slots claimed at or before [now - requestTtl] are dropped,
    the claimant's own slot is left out of the sum, and the claim is granted
    exactly when the rest of the cost in flight and its own fit under
    [maxConcurrency]; a granted claim is entered in place of the claimant's old
    one, a refused one changes no other slot, and no other key is touched. *)
Theorem slot_claim_decision (K cost now : Z) (key id : string) (ttl : num) (w : World)
    (l : list slot) :
  0 < K <= 2 ^ 50 -> 0 <= now <= 2 ^ 52 -> 0 <= cost <= 2 ^ 50 -> usableRequestTtl ttl = true ->
  ledger_rel (int now) w key l -> total_cost None l <= K ->
  let rest := reaped (int now - ttl)%num l in
  let current := total_cost (Some id) rest in
  let granted := (current + cost <=? K) in
  exists w', acquireConcurrency key (int cost) id (slot_config K ttl) (int now) w
    = (Ok {| ac_acquired := granted;
             ac_currentConcurrency := int (if granted then current + cost else current);
             ac_error := None |}, w') /\
    ledger_rel (int now) w' key (if granted then omap_set id (int now, cost) rest else rest) /\
    frame (int now) key w' w.
Proof.
  intros HK Hn Hc Ht Hl Htot rest current granted.
  pose proof (acquireConcurrency_sim K HK key id cost ttl now w l Hn Hc Ht Hl Htot) as H.
  unfold claimL in H. fold rest in H. fold current in H. unfold granted. revert H.
  destruct (Z.ltb_spec K (current + cost)), (Z.leb_spec (current + cost) K); try lia; cbv beta iota; tauto.
Qed.

(** ** Any sequence of slot operations *)

Inductive slot_op :=
  | SAcquire (cost : Z) (id : string) (requestTtl : num)
  | SQueued (metadataKey : string) (cost : Z) (id : string) (requestTtl : num)
  | STryAdmit (queueKey freezeKey : string) (cost : Z) (id : string) (requestTtl : num) (ttl : Z)
  | SRelease (id : string)
  | STouch (id : string) (ttl : Z).

Definition slot_op_ok (op : slot_op) : Prop :=
  match op with
  | SAcquire cost _ ttl | SQueued _ cost _ ttl =>
      0 <= cost <= 2 ^ 50 /\ usableRequestTtl ttl = true
  | STryAdmit _ _ cost _ rttl ttl =>
      0 <= cost <= 2 ^ 50 /\ usableRequestTtl rttl = true /\ 0 < ttl <= 2 ^ 40
  | SRelease _ => True
  | STouch _ ttl => 0 < ttl <= 2 ^ 40
  end.

Definition slot_exec (K : Z) (key : string) (op : slot_op) : M unit :=
  match op with
  | SAcquire cost id ttl => acquireConcurrency key (int cost) id (slot_config K ttl) ;; mret tt
  | SQueued mk cost id ttl => acquireQueuedConcurrency key mk (int cost) id (slot_config K ttl) ;; mret tt
  | STryAdmit q f cost id rttl ttl =>
      tryAdmitConcurrency q key f (int cost) id (slot_config K rttl) (int ttl) ;; mret tt
  | SRelease id => releaseConcurrency key id
  | STouch id ttl => touchConcurrency key id (int ttl) ;; mret tt
  end.

Fixpoint slot_run (K : Z) (key : string) (h : list (Z * slot_op)) (w : World) : World :=
  match h with
  | [] => w
  | (now, op) :: h' => slot_run K key h' (slot_exec K key op (int now) w).2
  end.

(** Operations in time order from [t0], none after [t1]. *)
Fixpoint slot_timed (t0 t1 : Z) (h : list (Z * slot_op)) : Prop :=
  match h with
  | [] => t0 <= t1
  | (now, op) :: h' => t0 <= now /\ slot_op_ok op /\ slot_timed now t1 h'
  end.

(** A ledger within the ceiling. *)
Definition within (K now : Z) (w : World) (key : string) : Prop :=
  exists l, ledger_rel (int now) w key l /\ total_cost None l <= K.

Lemma within_later K now t w key :
  0 <= K -> now <= t -> within K now w key -> within K t w key.
Proof.
  intros HK Ht (l & Hl & Htot).
  assert ((int now <=? int t)%num = true) as Hle by (rewrite leb_int; by apply Z.leb_le).
  destruct (ledger_rel_later _ _ _ _ _ Hle Hl) as [H|H]; [by exists l|]. by exists [].
Qed.

Lemma within_view K now w' w key :
  same_view (int now) w' w -> within K now w key -> within K now w' key.
Proof.
  intros Hv (l & Hl & Htot). exists l. split; [|done].
  eapply ledger_rel_view; [rewrite leb_int; apply Z.leb_refl|exact Hv|exact Hl].
Qed.

Section capacity.
Context (K : Z) (HK : 0 < K <= 2 ^ 50) (key : string).

Lemma claimL_within cutoff now id cost w' l :
  ledger_rel (int now) w' key (claimL K cutoff (int now) id cost l).2 ->
  costs_ok l -> NoDup l.*1 -> 0 <= cost -> total_cost None l <= K -> within K now w' key.
Proof.
  intros Hl Hok Hd Hc Ht.
  pose proof (claimL_bounds K cutoff (int now) id cost l Hok Hd Hc Ht) as Hb.
  destruct (claimL K cutoff (int now) id cost l) as [[g cur] l']. exists l'.
  split; [exact Hl|]. apply Hb.
Qed.

Lemma acquire_within cost id ttl now w :
  0 <= now <= 2 ^ 52 -> 0 <= cost <= 2 ^ 50 -> usableRequestTtl ttl = true -> within K now w key ->
  within K now (acquireConcurrency key (int cost) id (slot_config K ttl) (int now) w).2 key.
Proof.
  intros Hn Hc Ht (l & Hl & Htot).
  pose proof (acquireConcurrency_sim K HK key id cost ttl now w l Hn Hc Ht Hl Htot) as H.
  pose proof (claimL_within (int now - ttl)%num now id cost
    (acquireConcurrency key (int cost) id (slot_config K ttl) (int now) w).2 l) as Hw.
  destruct (claimL K (int now - ttl)%num (int now) id cost l) as [[g cur] l'].
  destruct H as (w' & E & Hl' & _). rewrite E in *. destruct Hl as (Hd & Hok & _).
  apply Hw; try done. lia.
Qed.

Lemma queued_within mk cost id ttl now w :
  0 <= now <= 2 ^ 52 -> 0 <= cost <= 2 ^ 50 -> usableRequestTtl ttl = true -> within K now w key ->
  within K now (acquireQueuedConcurrency key mk (int cost) id (slot_config K ttl) (int now) w).2 key.
Proof.
  intros Hn Hc Ht (l & Hl & Htot). unfold acquireQueuedConcurrency.
  rewrite slot_error_int, date_now_run by (exact Ht || lia). cbn [slot_config requestTtl].
  destruct (reapConcurrency_run key (int now - ttl)%num (int now) w l Hl) as (w1 & E1 & Hl1 & _).
  rewrite (bind_ok _ _ _ _ _ _ E1). mstep. pose proof Hl as (_ & Hok & _).
  pose proof (total_cost_reaped None (int now - ttl)%num l Hok).
  assert (within K now (purge_key (int now) mk w1) key) as Hw.
  { exists (reaped (int now - ttl)%num l). split; [by apply ledger_rel_purge|lia]. }
  case_decide; [by apply (acquire_within cost id ttl)|].
  apply ledger_rel_purge with (k := mk) in Hl1.
  pose proof (total_cost_except id (reaped (int now - ttl)%num l) (reaped_ok _ l Hok)).
  destruct (concurrencyCost_run (int now) (purge_key (int now) mk w1) key _ (Some id) Hl1 ltac:(lia))
    as (w2 & E2 & V2).
  rewrite (bind_ok _ _ _ _ _ _ E2). by eapply within_view.
Qed.

Lemma tryAdmit_within q f cost id rttl ttl now w :
  0 <= now <= 2 ^ 52 -> 0 <= cost <= 2 ^ 50 -> usableRequestTtl rttl = true -> 0 < ttl <= 2 ^ 40 ->
  within K now w key ->
  within K now (tryAdmitConcurrency q key f (int cost) id (slot_config K rttl) (int ttl) (int now) w).2 key.
Proof.
  intros Hn Hc Hr Ht Hw. unfold tryAdmitConcurrency.
  destruct (normalizeTtl_int ttl ltac:(lia)) as [H1 H2].
  assert (normalizeStateTtlSeconds (int ttl) = Ok (int ttl)) as ->
    by (unfold normalizeStateTtlSeconds, rbind; by rewrite H1, H2).
  rewrite lift_run, (bind_ok _ _ _ _ _ _ (sorted_run _ _ _)). case_decide.
  { eapply within_view; [apply purge_key_view|done]. }
  rewrite slot_error_int, date_now_run, (bind_ok _ _ _ _ _ _ (freezeBlocks_run _ _ _)) by (exact Hr || lia).
  destruct (freeze_blocks_at _ _ _).
  { eapply within_view; [apply (purge_twice_view (int now) q f)|done]. }
  set (w0 := purge_key (int now) f (purge_key (int now) q w)).
  assert (within K now w0 key) as (l & Hl & Htot)
    by (eapply within_view; [apply (purge_twice_view (int now) q f)|done]).
  pose proof (claim_tail K HK key (int now - rttl)%num id cost ttl now w0 l Hn Hc Ht Hl Htot) as Hct.
  pose proof (claimL_within (int now - rttl)%num now id cost) as Hcl.
  cbn [slot_config maxConcurrency requestTtl].
  destruct (claimL K (int now - rttl)%num (int now) id cost l) as [[g cur] l'] eqn:E.
  destruct Hct as (w1 & w2 & w3 & E1 & E2 & Eg & E3 & Hl3 & _).
  rewrite (bind_ok _ _ _ _ _ _ E1), (bind_ok _ _ _ _ _ _ E2), Eg.
  destruct Hl as (Hd & Hok & _).
  assert (within K now w3 key) as Hw3.
  { apply (Hcl w3 l); try done; [by rewrite E|lia]. }
  destruct g; cbn [negb]; [rewrite (bind_ok _ _ _ _ _ _ E3)|subst w3]; exact Hw3.
Qed.

Lemma release_within id now w : within K now w key ->
  within K now (releaseConcurrency key id (int now) w).2 key.
Proof.
  intros (l & Hl & Htot). destruct (releaseSlot_run key id (int now) w l Hl) as (w' & E & Hl' & _).
  unfold releaseConcurrency. rewrite E. exists (omap_delete id l). split; [done|].
  destruct Hl as (Hd & Hok & _). rewrite total_cost_delete by done.
  pose proof (total_cost_except id l Hok). lia.
Qed.

Lemma omap_get_score id (l : list slot) :
  omap_get id (slot_score <$> l) = (fun v => v.1) <$> omap_get id l.
Proof. induction l as [|[k v] l IH]; [done|]. simpl. by case_decide. Qed.

Lemma total_cost_split id v (l : list slot) :
  NoDup l.*1 -> omap_get id l = Some v -> total_cost None l = total_cost (Some id) l + v.2.
Proof.
  induction l as [|[k u] l IH]; intros Hd; [done|]. apply NoDup_cons in Hd as [Hk Hd].
  simpl in Hk. cbn [omap_get]. case_decide as E; intros Hg; cbn [total_cost fst snd].
  - subst k. injection Hg as ->. rewrite (decide_True (P := Some id = Some id)) by done.
    rewrite (decide_False (P := Some id = None)) by done. rewrite total_cost_notin by done. lia.
  - rewrite (decide_False (P := Some k = None)), (decide_False (P := Some k = Some id)) by congruence.
    rewrite IH by done. lia.
Qed.

Lemma touch_ledger id ttl now w l v :
  0 <= now <= 2 ^ 52 -> 0 < ttl <= 2 ^ 40 -> ledger_rel (int now) w key l ->
  omap_get id l = Some v ->
  exists w', touchConcurrency key id (int ttl) (int now) w = (Ok true, w') /\
    ledger_rel (int now) w' key (omap_set id (int now, v.2) l).
Proof.
  intros Hn Ht Hl Hv. pose proof (costs_key_ne key) as Hne. unfold touchConcurrency.
  destruct (normalizeTtl_int ttl ltac:(lia)) as [H1 H2].
  assert (normalizeStateTtlSeconds (int ttl) = Ok (int ttl)) as ->
    by (unfold normalizeStateTtlSeconds, rbind; by rewrite H1, H2).
  rewrite lift_run, (bind_ok _ _ _ _ _ _ (live_zset_run _ _ _)), (ledger_zset_at _ _ _ _ Hl).
  destruct l as [|s l]; [done|]. cbn [mbind option_bind]. rewrite omap_get_score, Hv. cbn [fmap option_fmap option_map].
  rewrite date_now_run. destruct Hl as (Hd & Hok & x & h & L1 & L2 & Hf).
  assert (live_at (int now) (purge_key (int now) key w) key = Some (zset_entry x (slot_score <$> s :: l)))
    as L1' by by rewrite live_at_purge_key.
  destruct (update_entry_live key (on_zset (omap_set id (int now))) (int now) _ _ (keeps_on_zset _) L1')
    as (w1 & E1 & L3 & F1).
  rewrite (bind_ok _ _ _ _ _ _ (E1 : zset_set key id (int now) (int now) _ = _)).
  destruct (expire_live key now ttl w1 _ Hn Ht L3) as (w2 & E2 & L4 & F2).
  rewrite (bind_ok _ _ _ _ _ _ E2), live_bind.
  assert (live_at (int now) w2 (costs_key key) = Some (hash_entry x h)) as L5.
  { rewrite F2, F1, live_at_purge_key by done. exact L2. }
  rewrite L5. rewrite bool_decide_true by by eexists. cbn [mwhen].
  set (w3 := purge_key (int now) (costs_key key) w2).
  assert (live_at (int now) w3 (costs_key key) = Some (hash_entry x h)) as L6
    by (unfold w3; by rewrite live_at_purge_key).
  destruct (expire_live (costs_key key) now ttl w3 _ Hn Ht L6) as (w4 & E4 & L7 & F4).
  rewrite (bind_ok _ _ _ _ _ _ E4). exists w4. split; [reflexivity|].
  apply (ledger_rel_intro _ _ _ _ (lifetime now ttl) h).
  - by apply NoDup_omap_set.
  - apply costs_ok_set; [|done]. unfold costs_ok in Hok. rewrite Forall_forall in Hok.
    pose proof (total_cost_split id v (s :: l) Hd Hv). apply (Hok (id, v)). by apply omap_get_elem.
  - apply omap_set_not_nil.
  - rewrite F4 by done. unfold w3. rewrite live_at_purge_key, L4.
    by rewrite (fmap_omap_set id (int now, v.2) (s :: l)).
  - exact L7.
  - apply cost_fields_touch; [exact Hf|]. by rewrite Hv.
Qed.

Lemma touch_within id ttl now w :
  0 <= now <= 2 ^ 52 -> 0 < ttl <= 2 ^ 40 -> within K now w key ->
  within K now (touchConcurrency key id (int ttl) (int now) w).2 key.
Proof.
  intros Hn Ht (l & Hl & Htot). destruct (omap_get id l) as [v|] eqn:E.
  - destruct (touch_ledger id ttl now w l v Hn Ht Hl E) as (w' & E' & Hl'). rewrite E'.
    eexists. split; [exact Hl'|]. destruct Hl as (Hd & _ & _). rewrite total_cost_set by done.
    rewrite (total_cost_split id v l) in Htot by done. lia.
  - unfold touchConcurrency. destruct (normalizeTtl_int ttl ltac:(lia)) as [H1 H2].
    assert (normalizeStateTtlSeconds (int ttl) = Ok (int ttl)) as ->
      by (unfold normalizeStateTtlSeconds, rbind; by rewrite H1, H2).
    rewrite lift_run, (bind_ok _ _ _ _ _ _ (live_zset_run _ _ _)), (ledger_zset_at _ _ _ _ Hl).
    assert ((match l with [] => None | _ => Some (slot_score <$> l) end) ≫= omap_get id = None) as ->.
    { destruct l; [done|]. cbn [mbind option_bind]. by rewrite omap_get_score, E. }
    exists l. split; [by apply ledger_rel_purge|done].
Qed.

Lemma slot_exec_within op now w :
  0 <= now <= 2 ^ 52 -> slot_op_ok op -> within K now w key ->
  within K now (slot_exec K key op (int now) w).2 key.
Proof.
  intros Hn Hop Hw.
  assert (forall A (m : M A), ((m ;; mret tt) (int now) w).2 = (m (int now) w).2) as Hs.
  { intros A m. rewrite bind_run. by destruct (m (int now) w) as [[]]. }
  destruct op as [cost id ttl|mk cost id ttl|q f cost id rttl ttl|id|id ttl];
    cbn [slot_exec slot_op_ok] in *; rewrite ?Hs.
  - destruct Hop. by apply acquire_within.
  - destruct Hop. by apply queued_within.
  - destruct Hop as (? & ? & ?). by apply tryAdmit_within.
  - by apply release_within.
  - by apply touch_within.
Qed.

Lemma slot_run_within h : forall t0 t1 w,
  0 <= t0 -> t1 <= 2 ^ 52 -> slot_timed t0 t1 h -> within K t0 w key ->
  within K t1 (slot_run K key h w) key.
Proof.
  induction h as [|[now op] h IH]; intros t0 t1 w H0 H1 Ht Hw; cbn [slot_run slot_timed] in *.
  - by apply (within_later K t0 t1); [lia| |].
  - destruct Ht as (Hn & Hop & Ht).
    assert (now <= t1) as Hle.
    { clear - Ht. revert now Ht. induction h as [|[n o] h IH]; cbn [slot_timed]; [done|].
      intros now (? & ? & ?%IH). lia. }
    apply (IH now); [lia|done|done|]. apply slot_exec_within; [lia|done|].
    by apply (within_later K t0 now); [lia| |].
Qed.
End capacity.

(** C18.  The ceiling holds: whatever claims, queued claims, fast-path
    admissions, releases and keep-alives are made on a ledger, in any order, by
    any holders and for any integer costs, the cost in flight is at most
    [maxConcurrency] at every moment, as [concurrencyCost] counts it. *)
Theorem slot_ceiling (K t0 t1 : Z) (key : string) (h : list (Z * slot_op)) (w : World) :
  0 < K <= 2 ^ 50 -> 0 <= t0 -> t1 <= 2 ^ 52 -> slot_timed t0 t1 h ->
  live_at (int t0) w key = None -> live_at (int t0) w (costs_key key) = None ->
  exists inflight,
    (concurrencyCost key None (int t1) (slot_run K key h w)).1 = Ok (int inflight) /\
    0 <= inflight <= K.
Proof.
  intros HK H0 H1 Ht Hw Hc.
  assert (within K t0 w key) as Hs by (exists []; split; [split_and!; try constructor; done|simpl; lia]).
  destruct (slot_run_within K HK key h t0 t1 w H0 H1 Ht Hs) as (l & Hl & Htot).
  pose proof Hl as (_ & Hok & _). pose proof (total_cost_nonneg None l Hok).
  destruct (concurrencyCost_run (int t1) _ key l None Hl ltac:(lia)) as (w' & E & _).
  exists (total_cost None l). rewrite E. split; [done|lia].
Qed.

(** Two slots of a ceiling of 5: the second does not fit until the first is
    released. *)
Definition demo_slots : list (Z * slot_op) :=
  [(10, SAcquire 3 "a" (int 60000)); (20, SAcquire 3 "b" (int 60000)); (30, STouch "a" 60);
   (40, SRelease "a"); (50, SAcquire 3 "b" (int 60000))].

Lemma slot_ceiling_witness :
  exists inflight,
    (concurrencyCost "k" None (int 50) (slot_run 5 "k" demo_slots MemoryBackend)).1
    = Ok (int inflight) /\ 0 <= inflight <= 5.
Proof.
  apply (slot_ceiling 5 0 50 "k" demo_slots MemoryBackend);
    [lia|lia|lia| |reflexivity|reflexivity].
  cbn [demo_slots slot_timed slot_op_ok]. repeat split; try lia; vm_compute; reflexivity.
Defined.

Lemma slot_claim_decision_witness :
  exists w', acquireConcurrency "k" (int 4) "a" (slot_config 5 (int 60000)) (int 7) MemoryBackend
    = (Ok {| ac_acquired := true; ac_currentConcurrency := int (0 + 4); ac_error := None |}, w') /\
    ledger_rel (int 7) w' "k" [("a", (int 7, 4))].
Proof.
  destruct (slot_claim_decision 5 4 7 "k" "a" (int 60000) MemoryBackend []) as (w' & H1 & H2 & _);
    [lia|lia|lia|vm_compute; reflexivity| |simpl; lia|].
  - split_and!; try constructor; reflexivity.
  - exists w'. split; [exact H1|exact H2].
Defined.
