(* ===== verification/Election.v ===== *)
(** * Election of controllers

    [packages/core/src/utils/updateClientRoles.ts]: every replica reads its
    peers' registrations, ranks the instances, and takes for each of its
    clients the role of controller unless an instance that outranks it holds
    the client.  The collation [String.prototype.localeCompare] is the host's
    and an argument.  What a client does with a new role is the client's own. *)
From S2P Require Import Prelude JsNumber JsString Json JsonFacts Value RateLimit Shared MemoryStore.
Local Open Scope num_scope.

(** ** Data *)

Inductive ClientRole := controller | worker.

#[export] Instance ClientRole_eq_dec : EqDecision ClientRole.
Proof. solve_decision. Defined.

(** The lifecycle states of a handler. *)
Inductive handler_status := starting | started | stopping | stopped.

(** The fields of a client the election reads and writes. *)
Record HandlerClient := {
  hc_name : string;
  hc_rateLimit : list NamedRateLimitData;
  hc_role : ClientRole
}.

Record RequestHandler := {
  h_id : string;
  h_namespace : string;
  h_priority : num;
  h_status : handler_status;
  h_clients : list (string * HandlerClient);
  h_heartbeat : bool  (** whether [heartbeatInterval] is set *)
}.

Record RequestHandlerMetadata := {
  md_id : string;
  md_status : string;
  md_priority : num;
  md_registeredClients : list string;
  md_ownedClients : list string
}.

Definition status_text (s : handler_status) : string :=
  match s with
  | starting => "starting"
  | started => "started"
  | stopping | stopped => "stopped"
  end.

Definition getMetadata (h : RequestHandler) : RequestHandlerMetadata :=
  {| md_id := h_id h;
     md_status := status_text (h_status h);
     md_priority := h_priority h;
     md_registeredClients := (h_clients h).*1;
     md_ownedClients :=
       omap (fun c => if decide (hc_role c.2 = controller) then Some (hc_name c.2) else None) (h_clients h) |}.

(** [JSON.stringify(this.getMetadata())]. *)
Definition metadata_json (md : RequestHandlerMetadata) : json :=
  JObj [("id", JStr (md_id md)); ("status", JStr (md_status md)); ("priority", JNum (md_priority md));
        ("registeredClients", JArr (map JStr (md_registeredClients md)));
        ("ownedClients", JArr (map JStr (md_ownedClients md)))].

(** ** Peers *)

(** What the election reads of a registration. *)
Record Peer := { p_id : string; p_priority : num; p_clients : list json }.

(** [isElectableRegistration], returning the fields it vouches for. *)
Definition isElectableRegistration (v : json) : option Peer :=
  match v with
  | JObj l =>
      match omap_get "id" l, omap_get "priority" l, omap_get "registeredClients" l with
      | Some (JStr i), Some (JNum p), Some (JArr cs) =>
          Some {| p_id := i; p_priority := p; p_clients := cs |}
      | _, _, _ => None
      end
  | _ => None
  end.

Definition own_peer (h : RequestHandler) : Peer :=
  {| p_id := h_id h; p_priority := h_priority h; p_clients := map JStr (h_clients h).*1 |}.

(** A registration as its text reads; nothing where it cannot be read, which is
    logged and skipped. *)
Definition read_registration (instance : string * string) : option Peer :=
  parse instance.2 ≫= isElectableRegistration.

Definition peers (h : RequestHandler) : M (list Peer) :=
  others ← getInstances (h_namespace h +:+ ":instances") (h_namespace h +:+ ":instance:") (h_id h);
  mret (own_peer h :: omap read_registration others).

(** ** Ranking *)

(** The comparator: higher priority first, then the later id. *)
Definition compare_peers (localeCompare : string -> string -> Z) (a b : Peer) : Z :=
  if p_priority a >? p_priority b then (-1)%Z
  else if p_priority a <? p_priority b then 1%Z
  else localeCompare (p_id b) (p_id a).

Definition not_after (localeCompare : string -> string -> Z) (a b : Peer) : bool :=
  (compare_peers localeCompare a b <=? 0)%Z.

#[export] Instance not_after_dec localeCompare :
  RelDecision (fun a b => not_after localeCompare a b = true).
Proof. intros a b. apply _. Defined.

Definition sort_peers (localeCompare : string -> string -> Z) (l : list Peer) : list Peer :=
  merge_sort (fun a b => not_after localeCompare a b = true) l.

(** The clients registered before [id] is met, walking the ranking. *)
Fixpoint claimed_before (id : string) (sorted : list Peer) : list json :=
  match sorted with
  | [] => []
  | p :: sorted' =>
      if decide (p_id p = id) then [] else p_clients p ++ claimed_before id sorted'
  end.

Definition getClientsBefore (localeCompare : string -> string -> Z) (h : RequestHandler)
    : M (list json) :=
  instances ← peers h;
  mret (claimed_before (h_id h) (sort_peers localeCompare instances)).

(** [clientsBefore.has(name)]. *)
Definition has_client (name : string) (l : list json) : bool :=
  existsb (fun j => match j with JStr s => bool_decide (s = name) | _ => false end) l.

(** ** Roles *)

Definition new_role (before : list json) (name : string) (c : HandlerClient) : ClientRole :=
  if has_client name before || isSharedLimitOnly (map n_limit (hc_rateLimit c)) then worker else controller.

Definition with_role (r : ClientRole) (c : HandlerClient) : HandlerClient :=
  {| hc_name := hc_name c; hc_rateLimit := hc_rateLimit c; hc_role := r |}.

Definition with_clients (l : list (string * HandlerClient)) (h : RequestHandler) : RequestHandler :=
  {| h_id := h_id h; h_namespace := h_namespace h; h_priority := h_priority h;
     h_status := h_status h; h_clients := l; h_heartbeat := h_heartbeat h |}.

(** The loop over the clients: the new roles, and whether any changed. *)
Definition elect (before : list json) (h : RequestHandler) : RequestHandler * bool :=
  (with_clients (map (fun c => (c.1, with_role (new_role before c.1 c.2) c.2)) (h_clients h)) h,
   existsb (fun c => negb (bool_decide (hc_role c.2 = new_role before c.1 c.2))) (h_clients h)).

(** ** Registration *)

Definition INSTANCE_TTL_SECONDS : num := int 10.

Definition registration_key (h : RequestHandler) : string := h_namespace h +:+ ":instance:" +:+ h_id h.

Definition registration_set (h : RequestHandler) : BatchOp :=
  BSet (registration_key h) (stringify (metadata_json (getMetadata h))) (Some INSTANCE_TTL_SECONDS).

Definition alive_add (h : RequestHandler) : BatchOp :=
  BSadd (h_namespace h +:+ ":instances") (h_id h).

Definition announce (channel : string) (h : RequestHandler) : BatchOp :=
  BPublish (h_namespace h +:+ ":" +:+ channel) (h_id h).

Definition registration_ops (h : RequestHandler) (hasChanges isStartup : bool) : list BatchOp :=
  [registration_set h]
  ++ (if isStartup then [alive_add h; announce "instanceStarted" h] else [])
  ++ (if hasChanges then [announce "instanceUpdated" h] else []).

(** What the heartbeat sends every second. *)
Definition heartbeat_ops (h : RequestHandler) : list BatchOp :=
  [registration_set h; alive_add h; announce "instanceHeartbeat" h].

Definition arm_heartbeat (h : RequestHandler) : RequestHandler :=
  match h_status h with
  | started | starting =>
      {| h_id := h_id h; h_namespace := h_namespace h; h_priority := h_priority h;
         h_status := h_status h; h_clients := h_clients h; h_heartbeat := true |}
  | _ => h
  end.

(** The status is read again once the batch is through: [status'] is what it
    has become by then. *)
Definition updateInstanceRegistration (h : RequestHandler) (hasChanges isStartup : bool)
    (status' : handler_status) : M RequestHandler :=
  batch (registration_ops h hasChanges isStartup) ;;
  mret (arm_heartbeat {| h_id := h_id h; h_namespace := h_namespace h; h_priority := h_priority h;
                         h_status := status'; h_clients := h_clients h; h_heartbeat := h_heartbeat h |}).

Definition updateClientRoles (localeCompare : string -> string -> Z) (h : RequestHandler)
    (isStartup : bool) (status' : handler_status) : M RequestHandler :=
  before ← getClientsBefore localeCompare h;
  let '(h', hasChanges) := elect before h in
  if negb hasChanges && negb isStartup then mret h'
  else updateInstanceRegistration h' hasChanges isStartup status'.
