(* ===== verification/ElectionProps.v ===== *)
(** * What the election promises

    When replicas see each other's registrations, every client that does not
    borrow another's queue has exactly one controller among the replicas that
    hold it; and what a replica registers is what its peers read. *)
From S2P Require Import Prelude JsNumber JsString Json JsonFacts Value RateLimit Shared SharedFacts.
From S2P Require Import MemoryStore StoreFacts StoreProps Election.
Local Open Scope Z_scope.

(** ** Reading the registrations *)

Lemma registration_json_ok md : wf_num (md_priority md) -> isFinite (md_priority md) = true ->
  json_ok (metadata_json md).
Proof.
  intros Hw Hf. assert (forall l, json_ok (JArr (map JStr l))) as Harr.
  { intros l. constructor. induction l; constructor; [constructor|done]. }
  constructor.
  - cbn. repeat (apply NoDup_cons; split; [set_solver|]). apply NoDup_nil_2.
  - assert (json_ok (JNum (md_priority md))) by by apply ok_num.
    repeat first [apply Forall_nil_2 | apply Forall_cons_2]; cbn [snd]; auto using ok_str.
Qed.

(** A replica's registration is read as the replica. *)
Lemma read_registration_own h id :
  wf_num (h_priority h) -> isFinite (h_priority h) = true ->
  read_registration (id, stringify (metadata_json (getMetadata h))) = Some (own_peer h).
Proof.
  intros Hw Hf. unfold read_registration. cbn [snd].
  by rewrite parse_stringify by by apply registration_json_ok.
Qed.

(** Replicas are told apart by their ids. *)
Lemma NoDup_id (fleet : list RequestHandler) h1 h2 :
  NoDup (h_id <$> fleet) -> h1 ∈ fleet -> h2 ∈ fleet -> h_id h1 = h_id h2 -> h1 = h2.
Proof.
  induction fleet as [|h fleet IH]; cbn; [by intros _ ?%elem_of_nil|].
  intros [Hn Hd]%NoDup_cons [->|H1]%elem_of_cons [->|H2]%elem_of_cons E; auto.
  - destruct Hn. rewrite E. apply list_elem_of_fmap. eauto.
  - destruct Hn. rewrite <- E. apply list_elem_of_fmap. eauto.
Qed.

Lemma filter_ids id (fleet : list RequestHandler) :
  filter (fun i => i <> id) (h_id <$> fleet) = h_id <$> filter (fun h => h_id h <> id) fleet.
Proof.
  induction fleet as [|h fleet IH]; [done|]. rewrite fmap_cons, !filter_cons.
  case_decide; [|done]. cbn. by rewrite IH.
Qed.

Lemma fleet_split (fleet : list RequestHandler) h :
  NoDup (h_id <$> fleet) -> h ∈ fleet -> fleet ≡ₚ h :: filter (fun h' => h_id h' <> h_id h) fleet.
Proof.
  intros Hd Hh. apply list_elem_of_split in Hh as (l1 & l2 & ->).
  rewrite fmap_app, fmap_cons, NoDup_app, NoDup_cons in Hd. destruct Hd as (_ & H1 & H2 & _).
  assert (forall l : list RequestHandler, h_id h ∉ h_id <$> l -> filter (fun h' => h_id h' <> h_id h) l = l) as Hf.
  { intros l Hl. induction l as [|x l IH]; [done|]. cbn in Hl.
    rewrite not_elem_of_cons in Hl. destruct Hl as [Hx Hl].
    rewrite filter_cons, decide_True by auto. by rewrite IH. }
  rewrite filter_app, filter_cons, decide_False by auto. rewrite !Hf; [by rewrite Permutation_middle|done|].
  intros Hin. apply (H1 _ Hin). left.
Qed.

Section registered.
Variable now : num.
Variable ns : string.

(** The registrations a store holds at an instant: every replica of [fleet] in
    the alive set, under its own key, and nobody else. *)
Record registered (w : World) (fleet : list RequestHandler) : Prop := {
  reg_ids : exists ids, set_at now w (ns +:+ ":instances") = Some ids /\ ids ≡ₚ h_id <$> fleet;
  reg_data : forall h, h ∈ fleet -> h_namespace h = ns /\
    wf_num (h_priority h) /\ isFinite (h_priority h) = true /\
    str_at now w (ns +:+ ":instance:" +:+ h_id h) = Some (stringify (metadata_json (getMetadata h)))
}.

Lemma stringify_metadata_not_empty md : stringify (metadata_json md) <> "".
Proof. unfold metadata_json. rewrite stringify_obj. done. Qed.

(** The loop of [getInstances] over ids that are all registered. *)
Lemma instances_loop prefix setKey me (data : string -> string) ids : forall w acc,
  (forall id, id ∈ ids -> id <> me -> str_at now w (prefix +:+ id) = Some (data id) /\ data id <> "") ->
  exists w', mfold (fun acc id =>
      if decide (id = me) then mret acc
      else
        d ← live_str (prefix +:+ id);
        match d with
        | Some d => if decide (d = "") then removeMember setKey id ;; mret acc else mret (acc ++ [(id, d)])
        | None => removeMember setKey id ;; mret acc
        end) acc ids now w
    = (Ok (acc ++ ((fun id => (id, data id)) <$> filter (fun id => id <> me) ids)), w').
Proof.
  induction ids as [|id ids IH]; intros w acc Hd; cbn [mfold].
  { exists w. cbn. by rewrite app_nil_r. }
  rewrite filter_cons. destruct (decide (id = me)) as [->|Hne].
  - rewrite decide_False by auto. rewrite (bind_ok _ _ _ _ _ _ (ret_run acc now w)).
    apply IH. intros i Hi. apply Hd. by right.
  - rewrite decide_True by done. destruct (Hd id ltac:(left) Hne) as [Hs Hn].
    erewrite bind_ok.
    2:{ mstep. rewrite Hs, decide_False by done. apply ret_run. }
    destruct (IH (purge_key now (prefix +:+ id) w) (acc ++ [(id, data id)])) as (w' & E).
    { intros i Hi Hm. unfold str_at. rewrite live_at_purge_key. apply Hd; [by right|done]. }
    exists w'. rewrite E. cbn [fmap list_fmap]. by rewrite <- app_assoc.
Qed.

(** A registered replica sees its whole fleet, itself first. *)
Lemma peers_run w fleet h :
  registered w fleet -> h ∈ fleet -> NoDup (h_id <$> fleet) ->
  exists l w', peers h now w = (Ok l, w') /\ l ≡ₚ own_peer <$> fleet.
Proof.
  intros [(ids & Hset & Hids) Hdata] Hh Hd. unfold peers, getInstances.
  destruct (Hdata h Hh) as (Hns & _). rewrite Hns.
  set (data id := default "" ((fun h => stringify (metadata_json (getMetadata h)))
    <$> List.find (fun h => bool_decide (h_id h = id)) fleet)).
  assert (forall h', h' ∈ fleet -> data (h_id h') = stringify (metadata_json (getMetadata h'))) as Hget.
  { intros h' Hh'. unfold data. destruct (List.find _ fleet) as [h''|] eqn:E.
    - apply List.find_some in E as [Hin Hid%bool_decide_eq_true]. apply list_elem_of_In in Hin.
      cbn. by rewrite (NoDup_id fleet h'' h').
    - apply list_elem_of_In in Hh'. apply (List.find_none _ _ E) in Hh'. by rewrite bool_decide_true in Hh'. }
  rewrite bind_run. mstep. rewrite Hset.
  destruct (instances_loop (ns +:+ ":instance:") (ns +:+ ":instances") (h_id h) data ids
    (purge_key now (ns +:+ ":instances") w) []) as (w' & E).
  { intros id Hid _. rewrite Hids in Hid. apply list_elem_of_fmap in Hid as (h' & -> & Hh').
    rewrite (Hget h' Hh'). split; [|apply stringify_metadata_not_empty].
    destruct (Hdata h' Hh') as (_ & _ & _ & Hs). unfold str_at. rewrite live_at_purge_key.
    by rewrite <- string_app_assoc. }
  rewrite E. do 2 eexists. split; [apply ret_run|]. cbn [app].
  set (others := filter (fun h' => h_id h' <> h_id h) fleet).
  assert (omap read_registration ((fun id => (id, data id)) <$> filter (fun id => id <> h_id h) ids)
    ≡ₚ own_peer <$> others) as ->.
  { rewrite Hids, filter_ids. fold others.
    assert (forall h', h' ∈ others -> read_registration (h_id h', data (h_id h')) = Some (own_peer h')) as Hread.
    { intros h' [_ Hh']%list_elem_of_filter. rewrite (Hget h' Hh').
      destruct (Hdata h' Hh') as (_ & Hw & Hf & _). by apply read_registration_own. }
    clearbody others. clear -Hread. induction others as [|h' l IH]; [done|]. cbn.
    rewrite (Hread h') by left. rewrite IH; [done|]. intros x Hx. apply Hread. by right. }
  rewrite (fleet_split fleet h Hd Hh) at 1. done.
Qed.
End registered.

(** ** The ranking *)

(** A collation on ids: the sign flips with the arguments, it is transitive,
    and it tells different ids apart, as it does for the UUIDs a handler draws. *)
Record collation (lc : string -> string -> Z) : Prop := {
  lc_flip : forall a b, Z.sgn (lc a b) = - Z.sgn (lc b a);
  lc_trans : forall a b c, lc a b <= 0 -> lc b c <= 0 -> lc a c <= 0;
  lc_eq : forall a b, lc a b = 0 -> a = b
}.

Definition ranked (p : Peer) : Prop := p_priority p <> NaN.

Section ranking.
Variable lc : string -> string -> Z.
Hypothesis Hlc : collation lc.

Lemma lc_refl a : lc a a = 0.
Proof. pose proof (lc_flip _ Hlc a a). destruct (lc a a); simpl in *; lia. Qed.

Lemma num_trichotomy (x y : num) :
  x <> NaN -> y <> NaN -> (x >? y)%num = false -> (x <? y)%num = false -> x = y.
Proof.
  unfold gtb, ltb. destruct x as [|[]|x], y as [|[]|y]; try done. intros _ _ H1 H2.
  apply Z.ltb_ge in H1, H2. f_equal. lia.
Qed.

Lemma gtb_trans (x y z : num) : (x >? y)%num = true -> (y >? z)%num = true -> (x >? z)%num = true.
Proof. unfold gtb, ltb. destruct x as [|[]|x], y as [|[]|y], z as [|[]|z]; try done. rewrite !Z.ltb_lt. lia. Qed.

Lemma gtb_asym (x y : num) : (x >? y)%num = true -> (x <? y)%num = false.
Proof. unfold gtb, ltb. destruct x as [|[]|x], y as [|[]|y]; try done. rewrite Z.ltb_lt, Z.ltb_ge. lia. Qed.

(** The order of the ranking, as priority and id. *)
Lemma not_after_spec a b :
  ranked a -> ranked b ->
  not_after lc a b = true <->
  (p_priority a >? p_priority b)%num = true \/ p_priority a = p_priority b /\ lc (p_id b) (p_id a) <= 0.
Proof.
  intros Ha Hb. unfold not_after, compare_peers.
  destruct (p_priority a >? p_priority b)%num eqn:E1; [split; [by left|done]|].
  destruct (p_priority a <? p_priority b)%num eqn:E2.
  - split; [done|]. intros [|[E _]]; [done|]. rewrite E, ltb_irrefl in E2. done.
  - rewrite Z.leb_le. split; [|by intros [|[_ H]]].
    intros H. right. split; [|done]. by apply num_trichotomy.
Qed.

Lemma not_after_total a b : not_after lc a b = true \/ not_after lc b a = true.
Proof.
  unfold not_after, compare_peers, gtb. destruct (p_priority b <? p_priority a)%num eqn:E1; [by left|].
  destruct (p_priority a <? p_priority b)%num eqn:E2; [by right|].
  rewrite !Z.leb_le. pose proof (lc_flip _ Hlc (p_id b) (p_id a)). lia.
Qed.

#[local] Instance not_after_total_inst : Total (fun a b => not_after lc a b = true).
Proof. exact not_after_total. Qed.

(** The ranking between peers that can be ranked. *)
Definition precedes (a b : Peer) : Prop := ranked a /\ ranked b /\ not_after lc a b = true.

Lemma precedes_trans a b c : precedes a b -> precedes b c -> precedes a c.
Proof.
  intros (Ha & Hb & H1) (_ & Hc & H2). split_and!; [done..|].
  apply not_after_spec in H1, H2; try done. apply not_after_spec; [done..|].
  destruct H1 as [H1|[E1 H1]], H2 as [H2|[E2 H2]].
  - left. by eapply gtb_trans.
  - left. by rewrite <- E2.
  - left. by rewrite E1.
  - right. split; [congruence|]. by eapply (lc_trans _ Hlc).
Qed.

Lemma precedes_antisym a b : precedes a b -> precedes b a -> p_id a = p_id b.
Proof.
  intros (Ha & Hb & H1) (_ & _ & H2). apply not_after_spec in H1, H2; try done.
  destruct H1 as [H1|[E1 H1]], H2 as [H2|[E2 H2]].
  - apply gtb_asym in H1. unfold gtb in H2. congruence.
  - rewrite E2 in H1. unfold gtb in H1. by rewrite ltb_irrefl in H1.
  - rewrite E1 in H2. unfold gtb in H2. by rewrite ltb_irrefl in H2.
  - apply (lc_eq _ Hlc). pose proof (lc_flip _ Hlc (p_id a) (p_id b)). lia.
Qed.

Lemma sort_peers_perm l : sort_peers lc l ≡ₚ l.
Proof. apply merge_sort_Permutation. Qed.

Lemma sort_peers_sorted l : Forall ranked l -> StronglySorted precedes (sort_peers lc l).
Proof.
  intros Hl. apply Sorted_StronglySorted; [exact precedes_trans|].
  eapply Sorted_impl_in; [|apply (Sorted_merge_sort (fun a b => not_after lc a b = true))].
  intros a b Ha Hb H. rewrite sort_peers_perm in Ha, Hb.
  rewrite Forall_forall in Hl. split_and!; auto.
Qed.

(** What stands before an instance in the ranking: the clients of exactly the
    peers that outrank it. *)
Lemma claimed_before_spec l me j :
  StronglySorted precedes l -> NoDup (p_id <$> l) -> me ∈ l ->
  j ∈ claimed_before (p_id me) l <->
  exists p, p ∈ l /\ p_id p <> p_id me /\ precedes p me /\ j ∈ p_clients p.
Proof.
  induction 1 as [|x l Hs IH Hx]; [by intros _ ?%elem_of_nil|].
  rewrite fmap_cons. intros [Hn Hd]%NoDup_cons Hme. cbn [claimed_before]. case_decide as Hid.
  - assert (x = me) as ->.
    { apply elem_of_cons in Hme as [|Hme]; [done|]. destruct Hn. rewrite Hid. apply list_elem_of_fmap. eauto. }
    rewrite elem_of_nil. split; [done|]. intros (p & Hp & Hne & Hpre & _).
    apply elem_of_cons in Hp as [->|Hp]; [done|]. apply Hne. apply precedes_antisym; [done|].
    rewrite Forall_forall in Hx. by apply Hx.
  - apply elem_of_cons in Hme as [->|Hme]; [done|]. rewrite elem_of_app, IH by done. split.
    + intros [Hj|(p & ? & ? & ? & ?)].
      * exists x. split_and!; [by left|done| |done]. rewrite Forall_forall in Hx. by apply Hx.
      * exists p. split_and!; [by right|done..].
    + intros (p & Hp & Hne & Hpre & Hj). apply elem_of_cons in Hp as [->|Hp]; [by left|right].
      by exists p.
Qed.

(** Among peers told apart by their ids, one outranks all the others. *)
Lemma first_ranked l :
  Forall ranked l -> l <> [] -> exists p, p ∈ l /\ forall q, q ∈ l -> precedes p q.
Proof.
  intros Hl Hn. pose proof (sort_peers_sorted l Hl) as Hs.
  pose proof (sort_peers_perm l) as Hp.
  destruct (sort_peers lc l) as [|p s]; [by apply Permutation_nil in Hp|].
  apply StronglySorted_inv in Hs as [_ Hall]. exists p. split; [rewrite <- Hp; left|].
  intros q Hq. rewrite <- Hp in Hq. apply elem_of_cons in Hq as [->|Hq].
  - assert (ranked p) by (rewrite Forall_forall in Hl; apply Hl; rewrite <- Hp; left).
    split_and!; [done..|]. by destruct (not_after_total p p).
  - rewrite Forall_forall in Hall. by apply Hall.
Qed.
End ranking.

(** ** One controller *)

(** The registration batch never throws: its one TTL is a constant. *)
Lemma registration_ops_ok h hasChanges isStartup now w :
  (batch (registration_ops h hasChanges isStartup) now w).1 = Ok tt.
Proof.
  assert (first_error (registration_ops h hasChanges isStartup) = None) as He
    by by destruct hasChanges, isStartup; vm_compute.
  unfold batch. rewrite bind_run, batch_check, He. by rewrite batch_writes.
Qed.

Lemma has_client_In name l : has_client name l = true <-> JStr name ∈ l.
Proof.
  unfold has_client. rewrite existsb_exists. split.
  - intros (j & Hj & E). destruct j as [| | |s| |]; try done. apply bool_decide_eq_true in E as ->.
    by apply list_elem_of_In.
  - intros Hj. exists (JStr name). split; [by apply list_elem_of_In|]. by apply bool_decide_eq_true.
Qed.

Lemma own_clients name h : JStr name ∈ p_clients (own_peer h) <-> name ∈ (h_clients h).*1.
Proof.
  cbn [own_peer p_clients]. change (map JStr ?l) with (JStr <$> l). split; [|apply list_elem_of_fmap_2].
  intros (s & [= ->] & H)%list_elem_of_fmap. done.
Qed.

(** The clients an election leaves, whatever it then registers. *)
Lemma updateClientRoles_run lc h isStartup st now w l w1 :
  peers h now w = (Ok l, w1) ->
  exists h', (updateClientRoles lc h isStartup st now w).1 = Ok h' /\
    h_clients h' = h_clients (elect (claimed_before (h_id h) (sort_peers lc l)) h).1.
Proof.
  intros Hp. unfold updateClientRoles, getClientsBefore.
  rewrite (bind_ok _ _ _ _ _ _ (bind_ok _ _ _ _ _ _ Hp)).
  set (before := claimed_before _ _). destruct (elect before h) as [h1 ch] eqn:Eh. cbn [fst].
  destruct (negb ch && negb isStartup); [by exists h1|].
  unfold updateInstanceRegistration. rewrite bind_run.
  pose proof (registration_ops_ok h1 ch isStartup now w1) as Hb.
  destruct (batch _ now w1) as [r w2]. cbn [fst] in Hb. subst r.
  eexists. split; [reflexivity|]. unfold arm_heartbeat. cbn [h_status]. by destruct st.
Qed.

Section one_controller.
Variable lc : string -> string -> Z.
Hypothesis Hlc : collation lc.
Variable fleet : list RequestHandler.
Hypothesis Hids : NoDup (h_id <$> fleet).
Hypothesis Hrank : Forall (fun h => h_priority h <> NaN) fleet.

Lemma own_peer_eq h1 h2 : h1 ∈ fleet -> h2 ∈ fleet -> p_id (own_peer h1) = p_id (own_peer h2) -> h1 = h2.
Proof. intros H1 H2 E. by apply (NoDup_id fleet). Qed.

(** Which of its clients a replica finds claimed, given a view of the fleet. *)
Lemma claimed_iff h l name :
  h ∈ fleet -> l ≡ₚ own_peer <$> fleet ->
  has_client name (claimed_before (h_id h) (sort_peers lc l)) = true <->
  exists h', h' ∈ fleet /\ h' <> h /\ precedes lc (own_peer h') (own_peer h) /\ name ∈ (h_clients h').*1.
Proof.
  intros Hh Hl.
  assert (sort_peers lc l ≡ₚ own_peer <$> fleet) as Hp by by rewrite sort_peers_perm.
  assert (Forall ranked l) as Hr.
  { rewrite Hl. rewrite Forall_fmap. exact Hrank. }
  rewrite has_client_In. change (h_id h) with (p_id (own_peer h)).
  rewrite (claimed_before_spec lc Hlc).
  - split.
    + intros (p & Hin & Hne & Hpre & Hj). rewrite Hp in Hin. apply list_elem_of_fmap in Hin as (h' & -> & Hh').
      exists h'. split_and!; [done| |done|by apply own_clients]. by intros ->.
    + intros (h' & Hh' & Hne & Hpre & Hn). exists (own_peer h'). split_and!; [| |done|by apply own_clients].
      * rewrite Hp. apply list_elem_of_fmap. eauto.
      * intros E. apply Hne. by apply own_peer_eq.
  - by apply sort_peers_sorted.
  - rewrite Hp, <- list_fmap_compose. exact Hids.
  - rewrite Hp. apply list_elem_of_fmap. eauto.
Qed.

(** The replica that outranks the others among those that hold a client. *)
Lemma top_holder name h0 :
  h0 ∈ fleet -> name ∈ (h_clients h0).*1 ->
  exists top, top ∈ fleet /\ name ∈ (h_clients top).*1 /\
    forall h, h ∈ fleet -> name ∈ (h_clients h).*1 -> precedes lc (own_peer top) (own_peer h).
Proof.
  intros Hh Hn. set (holders := filter (fun h => name ∈ (h_clients h).*1) fleet).
  destruct (first_ranked lc Hlc (own_peer <$> holders)) as (p & Hp & Hall).
  - rewrite Forall_fmap, Forall_forall. intros h [_ Hf]%list_elem_of_filter.
    rewrite Forall_forall in Hrank. by apply Hrank.
  - assert (h0 ∈ holders) as Hin by by apply list_elem_of_filter. by destruct holders; [apply elem_of_nil in Hin|].
  - apply list_elem_of_fmap in Hp as (top & -> & Ht). unfold holders in Ht. apply list_elem_of_filter in Ht as [? ?].
    exists top. split_and!; [done..|]. intros h Hhf Hnh. apply Hall. apply list_elem_of_fmap. exists h.
    split; [done|]. by apply list_elem_of_filter.
Qed.
End one_controller.

(** C28.  One controller per client: when every replica's registration is in
    the store and the collation is an order, an election run by each replica
    makes exactly one of those that hold a client its controller, and every
    other one a worker, whatever roles they had; only a client that borrows
    another's whole queue is left to its owner's controller. *)
Theorem one_controller (lc : string -> string -> Z) (ns name : string) (now : num) (w : World)
    (fleet : list RequestHandler) (h0 : RequestHandler) :
  collation lc -> registered now ns w fleet -> NoDup (h_id <$> fleet) ->
  h0 ∈ fleet -> name ∈ (h_clients h0).*1 ->
  (forall h c, h ∈ fleet -> (name, c) ∈ h_clients h ->
     isSharedLimitOnly (map n_limit (hc_rateLimit c)) = false) ->
  exists top, top ∈ fleet /\ name ∈ (h_clients top).*1 /\
    forall h isStartup st, h ∈ fleet ->
      exists h', (updateClientRoles lc h isStartup st now w).1 = Ok h' /\
        (h_clients h').*1 = (h_clients h).*1 /\
        forall c, (name, c) ∈ h_clients h' -> (hc_role c = controller <-> h = top).
Proof.
  intros Hlc Hreg Hids Hh0 Hn0 Hown.
  assert (Forall (fun h => h_priority h <> NaN) fleet) as Hrank.
  { rewrite Forall_forall. intros h Hh E. destruct (reg_data _ _ _ _ Hreg h Hh) as (_ & _ & Hf & _). by rewrite E in Hf. }
  destruct (top_holder lc Hlc fleet Hrank name h0 Hh0 Hn0) as (top & Ht & Hnt & Htop).
  exists top. split_and!; [done..|]. intros h isStartup st Hh.
  destruct (peers_run now ns w fleet h Hreg Hh Hids) as (l & w1 & Hp & Hl).
  destruct (updateClientRoles_run lc h isStartup st now w l w1 Hp) as (h' & E & Hc).
  exists h'. split; [done|]. rewrite Hc. cbn [elect fst with_clients h_clients].
  change (map ?f (h_clients h)) with (f <$> h_clients h).
  split; [by rewrite <- list_fmap_compose|].
  intros c' (c & E' & Hin)%list_elem_of_fmap. destruct c as [nm c]. cbn [fst snd] in E'. injection E' as -> ->.
  cbn [with_role hc_role]. unfold new_role. rewrite (Hown h c Hh Hin), orb_false_r.
  assert (nm ∈ (h_clients h).*1) as Hnm by (apply list_elem_of_fmap; by exists (nm, c)).
  pose proof (claimed_iff lc Hlc fleet Hids Hrank h l nm Hh Hl) as Hcl.
  destruct (has_client nm _).
  - split; [done|]. intros ->. destruct Hcl as [Hcl _]. destruct (Hcl eq_refl) as (h2 & H2 & Hne & Hpre & Hn2).
    destruct Hne. apply (own_peer_eq fleet Hids); [done..|].
    apply (precedes_antisym lc Hlc); [done|]. by apply Htop.
  - split; [|done]. intros _. destruct (decide (h_id h = h_id top)) as [E2|Hne];
      [by apply (own_peer_eq fleet Hids)|]. exfalso.
    assert (false = true); [|done]. apply Hcl. exists top. split_and!; auto. by intros ->.
Qed.

(** A collation, and two replicas that hold one client and have registered. *)
Definition sample_collation (a b : string) : Z := Z.pos (encode a) - Z.pos (encode b).

Lemma sample_collation_ok : collation sample_collation.
Proof.
  unfold sample_collation. constructor.
  - intros a b. rewrite <- Z.sgn_opp. f_equal. lia.
  - intros a b c. lia.
  - intros a b H. apply (inj encode). lia.
Qed.

Definition sample_replica (id : string) (priority : Z) : RequestHandler :=
  {| h_id := id; h_namespace := "app"; h_priority := int priority; h_status := started;
     h_clients := [("acme", {| hc_name := "acme"; hc_rateLimit := []; hc_role := worker |})];
     h_heartbeat := true |}.

Definition sample_fleet : list RequestHandler := [sample_replica "a" 1; sample_replica "b" 2].

Definition sample_registered : World :=
  fold_left (fun w h => (batch (registration_ops h false true) (int 5) w).2) sample_fleet MemoryBackend.

Lemma one_controller_witness :
  exists top, top ∈ sample_fleet /\
    forall h isStartup st, h ∈ sample_fleet ->
      exists h', (updateClientRoles sample_collation h isStartup st (int 7) sample_registered).1 = Ok h' /\
        forall c, ("acme", c) ∈ h_clients h' -> (hc_role c = controller <-> h = top).
Proof.
  destruct (one_controller sample_collation "app" "acme" (int 7) sample_registered sample_fleet
    (sample_replica "a" 1)) as (top & Ht & _ & H).
  - exact sample_collation_ok.
  - split.
    + exists ["a"; "b"]. split; [vm_compute; reflexivity|done].
    + intros h Hh. repeat (apply elem_of_cons in Hh as [->|Hh];
        [split_and!; [done|apply wf_int; unfold safe; lia|done|vm_compute; reflexivity]|]).
      by apply elem_of_nil in Hh.
  - repeat (apply NoDup_cons; split; [set_solver|]). apply NoDup_nil_2.
  - left.
  - left.
  - intros h c Hh Hc. repeat (apply elem_of_cons in Hh as [->|Hh];
      [apply list_elem_of_singleton in Hc; injection Hc as ->; reflexivity|]).
    by apply elem_of_nil in Hh.
  - exists top. split; [exact Ht|]. intros h b st Hh. destruct (H h b st Hh) as (h' & E & _ & Hc).
    exists h'. split; [exact E|exact Hc].
Defined.
