(* ===== verification/Requests.v ===== *)
(** * Requests

    What a request is from the call that makes it to the announcement that ends
    it: [packages/core/src/request/index.ts] and [request/types.ts].  A request
    is an object several functions write to, so each of its methods that writes
    is a function to the request as it is afterwards.  The random id and the
    clock reading a constructor takes are arguments. *)
From S2P Require Import Prelude JsNumber JsString Json Value.
From S2P Require Import Shared MemoryStore TokenBucket Queue RateLimit Cost.
Local Open Scope num_scope.

(** ** Data *)

Inductive RequestStatus := inQueue | inProgress.

#[export] Instance RequestStatus_eq_dec : EqDecision RequestStatus.
Proof. solve_decision. Defined.

(** The [settle] functions are the caller's code: a request
    only records whether it has them.  [c_cost], [c_requestName], [c_grantId] and [c_signal] are
    what the caller passed, which nothing has checked yet. *)
Record RequestConfig := {
  c_requestName : value;
  c_priority : option num;
  c_cost : value;
  c_grantId : value;
  c_signal : value;
  c_settle : bool;
  c_settleStream : bool;
  c_responseType : option string;
  c_baseURL : option string;
  c_headers : list (string * value);
  c_params : list (string * value);
  c_requestId : option string
}.

Record RequestDefaults := {
  df_baseURL : option string;
  df_headers : list (string * value);
  df_params : list (string * value)
}.

Record RequestMetadata := {
  m_requestId : string;
  m_status : RequestStatus;
  m_priority : num;
  m_timestamp : num;
  m_clientName : string;
  m_cost : RequestCost;
  m_explicitCost : option RequestCost;
  m_requestName : string;
  m_retries : num;
  m_grantId : option string;
  m_isThawRequest : bool;
  m_fastPath : bool;
  m_settles : bool;
  m_claimedKeys : option (list string);
  m_ownerId : string
}.

Record RequestRetryData := {
  rt_retry : bool;
  rt_message : string;
  rt_isRateLimited : bool;
  rt_waitTime : num;
  rt_freezeClient : bool;
  rt_freezeTime : option num
}.

Inductive ResponseStatus := success | failure | retry.
Inductive Phase := headers | end_.

#[export] Instance ResponseStatus_eq_dec : EqDecision ResponseStatus.
Proof. solve_decision. Defined.
#[export] Instance Phase_eq_dec : EqDecision Phase.
Proof. solve_decision. Defined.

Record RequestDoneData := {
  d_metadata : RequestMetadata;
  d_responseStatus : ResponseStatus;
  d_phase : option Phase;
  d_waitTime : num;
  d_freezeTime : option num;
  d_isRateLimited : bool;
  d_freezeClient : bool;
  d_completedAt : num;
  d_httpStatus : option num
}.

Definition with_claimedKeys (keys : option (list string)) (m : RequestMetadata) : RequestMetadata :=
  {| m_requestId := m_requestId m; m_status := m_status m; m_priority := m_priority m;
     m_timestamp := m_timestamp m; m_clientName := m_clientName m; m_cost := m_cost m;
     m_explicitCost := m_explicitCost m; m_requestName := m_requestName m;
     m_retries := m_retries m; m_grantId := m_grantId m; m_isThawRequest := m_isThawRequest m;
     m_fastPath := m_fastPath m; m_settles := m_settles m; m_claimedKeys := keys;
     m_ownerId := m_ownerId m |}.

Definition with_isThawRequest (b : bool) (m : RequestMetadata) : RequestMetadata :=
  {| m_requestId := m_requestId m; m_status := m_status m; m_priority := m_priority m;
     m_timestamp := m_timestamp m; m_clientName := m_clientName m; m_cost := m_cost m;
     m_explicitCost := m_explicitCost m; m_requestName := m_requestName m;
     m_retries := m_retries m; m_grantId := m_grantId m; m_isThawRequest := b;
     m_fastPath := m_fastPath m; m_settles := m_settles m; m_claimedKeys := m_claimedKeys m;
     m_ownerId := m_ownerId m |}.

Definition with_retries (n : num) (m : RequestMetadata) : RequestMetadata :=
  {| m_requestId := m_requestId m; m_status := m_status m; m_priority := m_priority m;
     m_timestamp := m_timestamp m; m_clientName := m_clientName m; m_cost := m_cost m;
     m_explicitCost := m_explicitCost m; m_requestName := m_requestName m;
     m_retries := n; m_grantId := m_grantId m; m_isThawRequest := m_isThawRequest m;
     m_fastPath := m_fastPath m; m_settles := m_settles m; m_claimedKeys := m_claimedKeys m;
     m_ownerId := m_ownerId m |}.

(** ** What a stream's observer reports *)

(** [streamErrorOf], with the fields it vouches for: the error text, and the
    cost that came with it. *)
Definition streamErrorOf (result : value) : option (string * value) :=
  match result with
  | VObj _ l =>
      match omap_get "error" l with
      | Some (VStr e) => Some (e, default VUndefined (omap_get "cost" l))
      | _ => None
      end
  | _ => None
  end.

(** ** Validation *)

Definition MAX_PRIORITY : num := int 10.

Definition is_fun (v : option value) : bool :=
  match v with Some (VFun _) => true | _ => false end.

Definition isUsableSignal (signal : value) : bool :=
  match signal with
  | VObj _ l => is_fun (omap_get "addEventListener" l) && is_fun (omap_get "removeEventListener" l)
  | _ => false
  end.

Definition is_undefined (v : value) : bool := match v with VUndefined => true | _ => false end.

Definition filled (v : value) : bool :=
  match v with VStr s => negb (bool_decide (trim s = "")) | _ => false end.

Definition isInteger (x : num) : bool := isFinite x && (trunc x =? x).

Definition assertUsableRequest (requestName : value) (priority : num) (cost grantId signal : value)
    : result unit :=
  if negb (filled requestName) then
    Throw (ConfigurationError "invalid_request_name"
      ("requestName must be a non-empty string — it names the operation in spans, logs and the queue. Received "
       +:+ stringify_text requestName +:+ "."))
  else if negb (is_undefined grantId) && negb (filled grantId) then
    Throw (ConfigurationError "invalid_grant_id"
      ("grantId must be a non-empty string when provided. Received " +:+ stringify_text grantId +:+ "."))
  else
    assertUsableCost cost ;;
    if negb (isFinite priority) || (priority <? int 0) || (priority >? MAX_PRIORITY)
       || negb (isInteger priority) then
      Throw (ConfigurationError "invalid_request_priority"
        ("priority must be an integer between 0 and " +:+ num_to_string MAX_PRIORITY +:+ ". Received "
         +:+ describe (VNum priority) +:+ "."))
    else if negb (is_undefined signal) && negb (isUsableSignal signal) then
      Throw (ConfigurationError "invalid_request_signal"
        ("signal must support addEventListener and removeEventListener — axios's Node (http) adapter calls both unguarded, so a signal without them fails inside axios rather than cancelling anything. Pass an AbortController's signal. Received "
         +:+ describe signal +:+ "."))
    else Ok tt.

(** ** The request *)

Record Request := {
  r_id : string;
  r_config : RequestConfig;
  r_retries : num;
  r_priority : num;
  r_clientName : string;
  r_timestamp : num;
  r_cost : RequestCost;
  r_explicitCost : option RequestCost;
  r_requestName : string;
  r_status : RequestStatus;
  r_ownerId : string;
  r_isThawRequest : bool;
  r_fastPath : bool;
  r_claimedKeys : option (list string);
  r_abandonmentPublished : bool
}.

(** A validated cost at the type the program gives it. *)
Definition cost_of (v : value) : RequestCost :=
  match v with
  | VNum n => CostNumber n
  | VObj _ l => CostRecord (omap (fun e => (fun j => (e.1, j)) <$> to_json e.2) l)
  | _ => CostNumber NaN
  end.

Definition string_of (v : value) : string := match v with VStr s => s | _ => "" end.
Definition optional_string (v : value) : option string :=
  match v with VStr s => Some s | _ => None end.

(** [x || d] for a string that may be missing. *)
Definition string_or (x d : option string) : option string := if non_empty x then x else d.

(** [{ ...a, ...b }]. *)
Definition spread (a b : list (string * value)) : list (string * value) :=
  fold_left (fun acc e => omap_set e.1 e.2 acc) b a.

Definition with_defaults (d : RequestDefaults) (c : RequestConfig) : RequestConfig :=
  {| c_requestName := c_requestName c; c_priority := c_priority c; c_cost := c_cost c;
     c_grantId := c_grantId c; c_signal := c_signal c; c_settle := c_settle c;
     c_settleStream := c_settleStream c; c_responseType := c_responseType c;
     c_baseURL := string_or (c_baseURL c) (df_baseURL d);
     c_headers := spread (df_headers d) (c_headers c);
     c_params := spread (df_params d) (c_params c);
     c_requestId := c_requestId c |}.

Definition with_requestId (id : string) (c : RequestConfig) : RequestConfig :=
  {| c_requestName := c_requestName c; c_priority := c_priority c; c_cost := c_cost c;
     c_grantId := c_grantId c; c_signal := c_signal c; c_settle := c_settle c;
     c_settleStream := c_settleStream c; c_responseType := c_responseType c;
     c_baseURL := c_baseURL c; c_headers := c_headers c; c_params := c_params c;
     c_requestId := Some id |}.

(** [x ?? d] for a value. *)
Definition nullish_or (v d : value) : value :=
  match v with VUndefined | VNull => d | _ => v end.

(** [new Request(...)], under a fresh [id] at the instant [now]. *)
Definition new_Request (id : string) (now : num) (clientName : string) (config : RequestConfig)
    (instanceId : string) (defaults : option RequestDefaults) : result Request :=
  let priority := default (int 1) (c_priority config) in
  let cost := nullish_or (c_cost config) (VNum (int 1)) in
  assertUsableRequest (c_requestName config) priority cost (c_grantId config) (c_signal config) ;;
  let config' := with_requestId id config in
  Ok {| r_id := id;
        r_config := match defaults with Some d => with_defaults d config' | None => config' end;
        r_retries := int 0;
        r_priority := priority;
        r_clientName := clientName;
        r_timestamp := now;
        r_cost := cost_of cost;
        r_explicitCost := match c_cost config with
                          | VUndefined | VNull => None | v => Some (cost_of v) end;
        r_requestName := string_of (c_requestName config);
        r_status := inQueue;
        r_ownerId := instanceId;
        r_isThawRequest := false;
        r_fastPath := false;
        r_claimedKeys := None;
        r_abandonmentPublished := false |}.

(** Whether this request's claims leave a mark for settlement. *)
Definition settles (r : Request) : bool :=
  c_settle (r_config r) || c_settleStream (r_config r)
  || bool_decide (c_responseType (r_config r) = Some "stream").

Definition getMetadata (r : Request) : RequestMetadata :=
  {| m_requestId := r_id r;
     m_status := r_status r;
     m_priority := r_priority r;
     m_timestamp := r_timestamp r;
     m_clientName := r_clientName r;
     m_cost := r_cost r;
     m_explicitCost := r_explicitCost r;
     m_requestName := r_requestName r;
     m_retries := r_retries r;
     m_grantId := optional_string (c_grantId (r_config r));
     m_isThawRequest := r_isThawRequest r;
     m_fastPath := r_fastPath r;
     m_settles := settles r;
     m_claimedKeys := r_claimedKeys r;
     m_ownerId := r_ownerId r |}.

Definition getRequestDoneData (r : Request) (retryData : option RequestRetryData)
    (httpStatus : option num) (phase : option Phase) (now : num) : RequestDoneData :=
  {| d_metadata := getMetadata r;
     d_responseStatus := match retryData with
                         | None => success
                         | Some t => if rt_retry t then retry else failure
                         end;
     d_phase := phase;
     d_waitTime := match retryData with
                   | Some t => num_or (rt_waitTime t) (int 0) | None => int 0 end;
     d_freezeTime := retryData ≫= rt_freezeTime;
     d_isRateLimited := match retryData with Some t => rt_isRateLimited t | None => false end;
     d_freezeClient := match retryData with Some t => rt_freezeClient t | None => false end;
     d_completedAt := now;
     d_httpStatus := httpStatus |}.

(** What the functions that handle a request write to it. *)
Definition set_request (status : RequestStatus) (thaw fast : bool) (claimed : option (list string))
    (retries : num) (abandoned : bool) (r : Request) : Request :=
  {| r_id := r_id r; r_config := r_config r; r_retries := retries; r_priority := r_priority r;
     r_clientName := r_clientName r; r_timestamp := r_timestamp r; r_cost := r_cost r;
     r_explicitCost := r_explicitCost r; r_requestName := r_requestName r; r_status := status;
     r_ownerId := r_ownerId r; r_isThawRequest := thaw; r_fastPath := fast;
     r_claimedKeys := claimed; r_abandonmentPublished := abandoned |}.

Definition incrementRetries (r : Request) : Request :=
  set_request (r_status r) (r_isThawRequest r) (r_fastPath r) (r_claimedKeys r)
    (r_retries r + int 1) (r_abandonmentPublished r) r.

Definition setStatus (status : RequestStatus) (r : Request) : Request :=
  set_request status (r_isThawRequest r) (r_fastPath r) (r_claimedKeys r) (r_retries r)
    (r_abandonmentPublished r) r.

Definition set_fastPath (fast : bool) (r : Request) : Request :=
  set_request (r_status r) (r_isThawRequest r) fast (r_claimedKeys r) (r_retries r)
    (r_abandonmentPublished r) r.

Definition set_claimedKeys (claimed : option (list string)) (r : Request) : Request :=
  set_request (r_status r) (r_isThawRequest r) (r_fastPath r) claimed (r_retries r)
    (r_abandonmentPublished r) r.

Definition set_abandonmentPublished (r : Request) : Request :=
  set_request (r_status r) (r_isThawRequest r) (r_fastPath r) (r_claimedKeys r) (r_retries r) true r.

(** ** On the wire

    The announcements are JSON objects: an absent field is left out, and what
    is not finite is written [null].  A reader takes what it parses for a
    completion without a check, so here it is handed the completion. *)

Definition status_name (s : RequestStatus) : string :=
  match s with inQueue => "inQueue" | inProgress => "inProgress" end.

Definition response_name (s : ResponseStatus) : string :=
  match s with success => "success" | failure => "failure" | retry => "retry" end.

Definition phase_name (p : Phase) : string := match p with headers => "headers" | end_ => "end" end.

Definition cost_json (c : RequestCost) : json :=
  match c with CostNumber n => JNum n | CostRecord l => JObj l end.

(** A field left out when it is [undefined]. *)
Definition opt_field (k : string) (v : option json) : list (string * json) :=
  match v with Some j => [(k, j)] | None => [] end.

(** A request's metadata as [getMetadata] orders it. *)
Definition metadata_fields (m : RequestMetadata) : list (string * json) :=
  [("requestId", JStr (m_requestId m)); ("status", JStr (status_name (m_status m)));
   ("clientName", JStr (m_clientName m)); ("timestamp", JNum (m_timestamp m));
   ("priority", JNum (m_priority m)); ("cost", cost_json (m_cost m))]
  ++ opt_field "explicitCost" (cost_json <$> m_explicitCost m)
  ++ [("requestName", JStr (m_requestName m)); ("retries", JNum (m_retries m))]
  ++ opt_field "grantId" (JStr <$> m_grantId m)
  ++ [("isThawRequest", JBool (m_isThawRequest m))]
  ++ (if m_settles m then [("settles", JBool true)] else [])
  ++ [("fastPath", JBool (m_fastPath m))]
  ++ opt_field "claimedKeys" ((fun l => JArr (map JStr l)) <$> m_claimedKeys m)
  ++ [("ownerId", JStr (m_ownerId m))].

Definition done_json (d : RequestDoneData) : json :=
  JObj (metadata_fields (d_metadata d)
    ++ [("responseStatus", JStr (response_name (d_responseStatus d)));
        ("waitTime", JNum (d_waitTime d))]
    ++ opt_field "freezeTime" (JNum <$> d_freezeTime d)
    ++ [("isRateLimited", JBool (d_isRateLimited d)); ("freezeClient", JBool (d_freezeClient d));
        ("completedAt", JNum (d_completedAt d))]
    ++ opt_field "httpStatus" (JNum <$> d_httpStatus d)
    ++ opt_field "phase" ((fun p => JStr (phase_name p)) <$> d_phase d)).
