(* ===== verification/Client.v ===== *)
(** * The base client

    What every client is built on: [packages/core/src/client/index.ts], the
    abstract class [BaseClient], without its authentication and its completion
    bookkeeping (that is [Completions]).  The fields the constructor fixes are
    a [ClientData]; those that change are a [Client]; what the client asks of
    its backend goes through the interface [DianemoBackend], whose operations
    are the constructors of [Backend.call].

    A method is a program that returns or throws, over the client's state and
    the backend's.  A call left to run on its own ([void f()], [f().catch]) is
    counted in [c_passes] when it is a pass of the drain loop.  Between two
    awaited calls a method runs alone on its replica; what other replicas do
    meanwhile is the backend's own change of state. *)
From S2P Require Import Prelude JsNumber JsString Json Value RateLimit Cost Timers.
From S2P Require Import Shared MemoryStore TokenBucket Concurrency MultiLimit Queue Freeze Backend.
From S2P Require Import Election Requests.
Local Open Scope num_scope.

(** ** Errors and programs *)

Inductive client_error :=
  | JsError (e : js_error)
  | CostError (e : cost_error)
  | ClientFrozenError (clientName : string)
  | ClientUnavailableError (code message : string)
  | NotOAuth2ClientError (clientName : string)
  | GrantRefreshTokenMissingError (grantId : string)
  | RequestTimeoutError (requestId : string) (timeoutMs : num)
  | RequestAbortedError (requestId : string)
  | NoResponseError
  | ForeignError (message : string).  (** thrown by code outside the repository *)

Inductive outcome (A : Type) :=
  | Return (a : A)
  | Raise (e : client_error).
Arguments Return {A} a.
Arguments Raise {A} e.

Definition Prog (S B A : Type) : Type := S -> B -> outcome A * (S * B).

#[export] Instance Prog_ret S B : MRet (Prog S B) := fun A a s b => (Return a, (s, b)).
#[export] Instance Prog_bind S B : MBind (Prog S B) := fun A A' f m s b =>
  match m s b with
  | (Return a, (s', b')) => f a s' b'
  | (Raise e, sb) => (Raise e, sb)
  end.

Definition raise {S B A} (e : client_error) : Prog S B A := fun s b => (Raise e, (s, b)).
Definition get_state {S B} : Prog S B S := fun s b => (Return s, (s, b)).
Definition modify_state {S B} (f : S -> S) : Prog S B unit := fun s b => (Return tt, (f s, b)).
Definition catch {S B A} (m : Prog S B A) (h : client_error -> Prog S B A) : Prog S B A := fun s b =>
  match m s b with
  | (Raise e, (s', b')) => h e s' b'
  | r => r
  end.
(** [try { m } finally { k }]. *)
Definition finally {S B A} (m : Prog S B A) (k : Prog S B unit) : Prog S B A := fun s b =>
  match m s b with
  | (r, (s', b')) =>
      match k s' b' with
      | (Return _, sb) => (r, sb)
      | (Raise e, sb) => (Raise e, sb)
      end
  end.
Definition of_result {S B A} (r : result A) : Prog S B A :=
  match r with Ok a => mret a | Throw e => raise (JsError e) end.
Definition pwhen {S B} (b : bool) (m : Prog S B unit) : Prog S B unit := if b then m else mret tt.
Fixpoint pforeach {S B A} (l : list A) (f : A -> Prog S B unit) : Prog S B unit :=
  match l with [] => mret tt | x :: l' => f x ;; pforeach l' f end.
Fixpoint pfold {S B A D} (f : D -> A -> Prog S B D) (d : D) (l : list A) : Prog S B D :=
  match l with [] => mret d | x :: l' => d' ← f d x; pfold f d' l' end.

(** ** The backend, as a client sees it *)

(** The operations a backend may leave out. *)
Inductive optional_method :=
  | opt_acquireMultiLimit | opt_releaseMultiLimit | opt_tryAdmitMultiLimit
  | opt_acquireQueuedConcurrency | opt_refundTokens | opt_emptyTokenBucket
  | opt_settleTokens | opt_touchConcurrency | opt_touchClaimMark.

Class DianemoBackend (B : Type) := {
  serve : forall {A : Type}, call A -> B -> outcome A * B;
  implements : optional_method -> bool
}.

(** ** Configuration *)

Inductive BackoffType := exponential | linear.

Record RetryOptions := {
  o_retryBackoffBaseTime : num;
  o_retryBackoffMethod : BackoffType;
  o_retry429s : bool;
  o_retry5xxs : bool;
  o_maxRetries : num;
  o_retryStatusCodes : list num;
  o_thawRequestCount : num
}.

(** [usableThawRequestCount]. *)
Definition usableThawRequestCount (configured : option num) : num :=
  match configured with
  | None => int 3
  | Some n => if negb (isFinite n) || (n <? int 0) then int 3 else trunc n
  end.

(** The constructor's defaults for what [retryOptions] leaves out. *)
Definition resolve_retryOptions (base : option num) (method : option BackoffType)
    (r429 r5xx : option bool) (max : option num) (codes : option (list num))
    (thaw : option num) : RetryOptions :=
  {| o_retryBackoffBaseTime := default (int 1000) base;
     o_retryBackoffMethod := default exponential method;
     o_retry429s := default true r429;
     o_retry5xxs := default true r5xx;
     o_maxRetries := default (int 3) max;
     o_retryStatusCodes := default [] codes;
     o_thawRequestCount := usableThawRequestCount thaw |}.

Record RequestOptions := {
  o_settleWindow : option num;
  o_streamTimeout : option num;
  o_cleanupTimeout : option num;
  o_concurrencySlotTtl : option num
}.

Record AuthCreateData := { a_type : string; a_grantRateLimitBehavior : option string }.

(** [getBudgetOwnerAuthData] is installed on clients whose budget lives on
    another: what it answers. *)
Record ClientData := {
  k_instanceId : string;
  k_name : string;  (** the budget's name: the owner's, for a shared limit *)
  k_registeredName : string;
  k_handlerNamespace : string;
  k_authData : option AuthCreateData;
  k_ownerAuthData : option (option AuthCreateData);
  k_requestOptions : RequestOptions;
  k_retryOptions : RetryOptions;
  k_healthCheckIntervalMs : num
}.

(** [s.replaceAll(/ /g, "_")]. *)
Fixpoint underscored (s : string) : string :=
  match s with
  | EmptyString => ""
  | String c s' => String (if bool_decide (c = " "%char) then "_"%char else c) (underscored s')
  end.

Definition k_namespace (d : ClientData) : string :=
  k_handlerNamespace d +:+ ":" +:+ underscored (k_name d).

(** [x || d] for a number that may be missing. *)
Definition num_opt_or (x : option num) (d : num) : num :=
  match x with Some n => num_or n d | None => d end.

(** ** State *)

Inductive client_event :=
  | Ready (m : RequestMetadata) (heard : bool)
  | Failed (requestId : string) (e : client_error).

Record PendingRequestDone := {
  p_data : RequestDoneData;
  p_queueHandled : bool;
  p_ownTypeHandled : bool;
  p_freezeHandled : bool;
  p_thawHandled : bool;
  p_forwardDueAt : num;
  p_forwards : num
}.

Record Client := {
  c_role : ClientRole;  (** whether this replica drains the queue *)
  c_rateLimit : list NamedRateLimitData;
  c_admissionHalted : bool;  (** set once, by shutdown *)
  c_now : num;  (** what [Date.now()] reads *)
  c_processingLock : bool;
  c_processingPending : bool;
  c_drainTimer : option num;  (** when the outstanding drain timer is due *)
  c_waitingRequests : list string;  (** the requests registered as waiting here *)
  c_parked : list string;  (** the requests listening on the emitter for their turn *)
  c_events : list client_event;  (** what waiters were told, oldest first *)
  c_passes : nat;  (** passes of the drain loop left to the event loop *)
  c_pendingRequestDone : list (string * PendingRequestDone);
  c_completedRequestIds : list string;
  c_freezeTimers : list (num * option string);  (** delay and grant of each booked thaw wake-up *)
  c_forwardTimer : bool;  (** whether [completionForwardTimer] is set *)
  c_forwardAttempts : num;
  c_inFlight : nat;  (** requests inside [handleRequest] on this replica *)
  c_openStreams : list string  (** streamed responses still relayed here *)
}.

Definition set_role (x : ClientRole) (c : Client) : Client :=
  {| c_role := x; c_rateLimit := c_rateLimit c; c_admissionHalted := c_admissionHalted c; c_now :=
     c_now c; c_processingLock := c_processingLock c; c_processingPending := c_processingPending c;
     c_drainTimer := c_drainTimer c; c_waitingRequests := c_waitingRequests c; c_parked := c_parked
     c; c_events := c_events c; c_passes := c_passes c; c_pendingRequestDone := c_pendingRequestDone
     c; c_completedRequestIds := c_completedRequestIds c; c_freezeTimers := c_freezeTimers c;
     c_forwardTimer := c_forwardTimer c; c_forwardAttempts := c_forwardAttempts c; c_inFlight :=
     c_inFlight c; c_openStreams := c_openStreams c |}.
Definition set_rateLimit (x : list NamedRateLimitData) (c : Client) : Client :=
  {| c_role := c_role c; c_rateLimit := x; c_admissionHalted := c_admissionHalted c; c_now := c_now
     c; c_processingLock := c_processingLock c; c_processingPending := c_processingPending c;
     c_drainTimer := c_drainTimer c; c_waitingRequests := c_waitingRequests c; c_parked := c_parked
     c; c_events := c_events c; c_passes := c_passes c; c_pendingRequestDone := c_pendingRequestDone
     c; c_completedRequestIds := c_completedRequestIds c; c_freezeTimers := c_freezeTimers c;
     c_forwardTimer := c_forwardTimer c; c_forwardAttempts := c_forwardAttempts c; c_inFlight :=
     c_inFlight c; c_openStreams := c_openStreams c |}.
Definition set_admissionHalted (x : bool) (c : Client) : Client :=
  {| c_role := c_role c; c_rateLimit := c_rateLimit c; c_admissionHalted := x; c_now := c_now c;
     c_processingLock := c_processingLock c; c_processingPending := c_processingPending c;
     c_drainTimer := c_drainTimer c; c_waitingRequests := c_waitingRequests c; c_parked := c_parked
     c; c_events := c_events c; c_passes := c_passes c; c_pendingRequestDone := c_pendingRequestDone
     c; c_completedRequestIds := c_completedRequestIds c; c_freezeTimers := c_freezeTimers c;
     c_forwardTimer := c_forwardTimer c; c_forwardAttempts := c_forwardAttempts c; c_inFlight :=
     c_inFlight c; c_openStreams := c_openStreams c |}.
Definition set_now (x : num) (c : Client) : Client :=
  {| c_role := c_role c; c_rateLimit := c_rateLimit c; c_admissionHalted := c_admissionHalted c;
     c_now := x; c_processingLock := c_processingLock c; c_processingPending := c_processingPending
     c; c_drainTimer := c_drainTimer c; c_waitingRequests := c_waitingRequests c; c_parked :=
     c_parked c; c_events := c_events c; c_passes := c_passes c; c_pendingRequestDone :=
     c_pendingRequestDone c; c_completedRequestIds := c_completedRequestIds c; c_freezeTimers :=
     c_freezeTimers c; c_forwardTimer := c_forwardTimer c; c_forwardAttempts := c_forwardAttempts c;
     c_inFlight := c_inFlight c; c_openStreams := c_openStreams c |}.
Definition set_processingLock (x : bool) (c : Client) : Client :=
  {| c_role := c_role c; c_rateLimit := c_rateLimit c; c_admissionHalted := c_admissionHalted c;
     c_now := c_now c; c_processingLock := x; c_processingPending := c_processingPending c;
     c_drainTimer := c_drainTimer c; c_waitingRequests := c_waitingRequests c; c_parked := c_parked
     c; c_events := c_events c; c_passes := c_passes c; c_pendingRequestDone := c_pendingRequestDone
     c; c_completedRequestIds := c_completedRequestIds c; c_freezeTimers := c_freezeTimers c;
     c_forwardTimer := c_forwardTimer c; c_forwardAttempts := c_forwardAttempts c; c_inFlight :=
     c_inFlight c; c_openStreams := c_openStreams c |}.
Definition set_processingPending (x : bool) (c : Client) : Client :=
  {| c_role := c_role c; c_rateLimit := c_rateLimit c; c_admissionHalted := c_admissionHalted c;
     c_now := c_now c; c_processingLock := c_processingLock c; c_processingPending := x; c_drainTimer
     := c_drainTimer c; c_waitingRequests := c_waitingRequests c; c_parked := c_parked c; c_events :=
     c_events c; c_passes := c_passes c; c_pendingRequestDone := c_pendingRequestDone c;
     c_completedRequestIds := c_completedRequestIds c; c_freezeTimers := c_freezeTimers c;
     c_forwardTimer := c_forwardTimer c; c_forwardAttempts := c_forwardAttempts c; c_inFlight :=
     c_inFlight c; c_openStreams := c_openStreams c |}.
Definition set_drainTimer (x : option num) (c : Client) : Client :=
  {| c_role := c_role c; c_rateLimit := c_rateLimit c; c_admissionHalted := c_admissionHalted c;
     c_now := c_now c; c_processingLock := c_processingLock c; c_processingPending :=
     c_processingPending c; c_drainTimer := x; c_waitingRequests := c_waitingRequests c; c_parked :=
     c_parked c; c_events := c_events c; c_passes := c_passes c; c_pendingRequestDone :=
     c_pendingRequestDone c; c_completedRequestIds := c_completedRequestIds c; c_freezeTimers :=
     c_freezeTimers c; c_forwardTimer := c_forwardTimer c; c_forwardAttempts := c_forwardAttempts c;
     c_inFlight := c_inFlight c; c_openStreams := c_openStreams c |}.
Definition set_waitingRequests (x : list string) (c : Client) : Client :=
  {| c_role := c_role c; c_rateLimit := c_rateLimit c; c_admissionHalted := c_admissionHalted c;
     c_now := c_now c; c_processingLock := c_processingLock c; c_processingPending :=
     c_processingPending c; c_drainTimer := c_drainTimer c; c_waitingRequests := x; c_parked :=
     c_parked c; c_events := c_events c; c_passes := c_passes c; c_pendingRequestDone :=
     c_pendingRequestDone c; c_completedRequestIds := c_completedRequestIds c; c_freezeTimers :=
     c_freezeTimers c; c_forwardTimer := c_forwardTimer c; c_forwardAttempts := c_forwardAttempts c;
     c_inFlight := c_inFlight c; c_openStreams := c_openStreams c |}.
Definition set_parked (x : list string) (c : Client) : Client :=
  {| c_role := c_role c; c_rateLimit := c_rateLimit c; c_admissionHalted := c_admissionHalted c;
     c_now := c_now c; c_processingLock := c_processingLock c; c_processingPending :=
     c_processingPending c; c_drainTimer := c_drainTimer c; c_waitingRequests := c_waitingRequests c;
     c_parked := x; c_events := c_events c; c_passes := c_passes c; c_pendingRequestDone :=
     c_pendingRequestDone c; c_completedRequestIds := c_completedRequestIds c; c_freezeTimers :=
     c_freezeTimers c; c_forwardTimer := c_forwardTimer c; c_forwardAttempts := c_forwardAttempts c;
     c_inFlight := c_inFlight c; c_openStreams := c_openStreams c |}.
Definition set_events (x : list client_event) (c : Client) : Client :=
  {| c_role := c_role c; c_rateLimit := c_rateLimit c; c_admissionHalted := c_admissionHalted c;
     c_now := c_now c; c_processingLock := c_processingLock c; c_processingPending :=
     c_processingPending c; c_drainTimer := c_drainTimer c; c_waitingRequests := c_waitingRequests c;
     c_parked := c_parked c; c_events := x; c_passes := c_passes c; c_pendingRequestDone :=
     c_pendingRequestDone c; c_completedRequestIds := c_completedRequestIds c; c_freezeTimers :=
     c_freezeTimers c; c_forwardTimer := c_forwardTimer c; c_forwardAttempts := c_forwardAttempts c;
     c_inFlight := c_inFlight c; c_openStreams := c_openStreams c |}.
Definition set_passes (x : nat) (c : Client) : Client :=
  {| c_role := c_role c; c_rateLimit := c_rateLimit c; c_admissionHalted := c_admissionHalted c;
     c_now := c_now c; c_processingLock := c_processingLock c; c_processingPending :=
     c_processingPending c; c_drainTimer := c_drainTimer c; c_waitingRequests := c_waitingRequests c;
     c_parked := c_parked c; c_events := c_events c; c_passes := x; c_pendingRequestDone :=
     c_pendingRequestDone c; c_completedRequestIds := c_completedRequestIds c; c_freezeTimers :=
     c_freezeTimers c; c_forwardTimer := c_forwardTimer c; c_forwardAttempts := c_forwardAttempts c;
     c_inFlight := c_inFlight c; c_openStreams := c_openStreams c |}.
Definition set_pendingRequestDone (x : list (string * PendingRequestDone)) (c : Client) : Client :=
  {| c_role := c_role c; c_rateLimit := c_rateLimit c; c_admissionHalted := c_admissionHalted c;
     c_now := c_now c; c_processingLock := c_processingLock c; c_processingPending :=
     c_processingPending c; c_drainTimer := c_drainTimer c; c_waitingRequests := c_waitingRequests c;
     c_parked := c_parked c; c_events := c_events c; c_passes := c_passes c; c_pendingRequestDone :=
     x; c_completedRequestIds := c_completedRequestIds c; c_freezeTimers := c_freezeTimers c;
     c_forwardTimer := c_forwardTimer c; c_forwardAttempts := c_forwardAttempts c; c_inFlight :=
     c_inFlight c; c_openStreams := c_openStreams c |}.
Definition set_completedRequestIds (x : list string) (c : Client) : Client :=
  {| c_role := c_role c; c_rateLimit := c_rateLimit c; c_admissionHalted := c_admissionHalted c;
     c_now := c_now c; c_processingLock := c_processingLock c; c_processingPending :=
     c_processingPending c; c_drainTimer := c_drainTimer c; c_waitingRequests := c_waitingRequests c;
     c_parked := c_parked c; c_events := c_events c; c_passes := c_passes c; c_pendingRequestDone :=
     c_pendingRequestDone c; c_completedRequestIds := x; c_freezeTimers := c_freezeTimers c;
     c_forwardTimer := c_forwardTimer c; c_forwardAttempts := c_forwardAttempts c; c_inFlight :=
     c_inFlight c; c_openStreams := c_openStreams c |}.
Definition set_freezeTimers (x : list (num * option string)) (c : Client) : Client :=
  {| c_role := c_role c; c_rateLimit := c_rateLimit c; c_admissionHalted := c_admissionHalted c;
     c_now := c_now c; c_processingLock := c_processingLock c; c_processingPending :=
     c_processingPending c; c_drainTimer := c_drainTimer c; c_waitingRequests := c_waitingRequests c;
     c_parked := c_parked c; c_events := c_events c; c_passes := c_passes c; c_pendingRequestDone :=
     c_pendingRequestDone c; c_completedRequestIds := c_completedRequestIds c; c_freezeTimers := x;
     c_forwardTimer := c_forwardTimer c; c_forwardAttempts := c_forwardAttempts c; c_inFlight :=
     c_inFlight c; c_openStreams := c_openStreams c |}.
Definition set_forwardTimer (x : bool) (c : Client) : Client :=
  {| c_role := c_role c; c_rateLimit := c_rateLimit c; c_admissionHalted := c_admissionHalted c;
     c_now := c_now c; c_processingLock := c_processingLock c; c_processingPending :=
     c_processingPending c; c_drainTimer := c_drainTimer c; c_waitingRequests := c_waitingRequests c;
     c_parked := c_parked c; c_events := c_events c; c_passes := c_passes c; c_pendingRequestDone :=
     c_pendingRequestDone c; c_completedRequestIds := c_completedRequestIds c; c_freezeTimers :=
     c_freezeTimers c; c_forwardTimer := x; c_forwardAttempts := c_forwardAttempts c; c_inFlight :=
     c_inFlight c; c_openStreams := c_openStreams c |}.
Definition set_forwardAttempts (x : num) (c : Client) : Client :=
  {| c_role := c_role c; c_rateLimit := c_rateLimit c; c_admissionHalted := c_admissionHalted c;
     c_now := c_now c; c_processingLock := c_processingLock c; c_processingPending :=
     c_processingPending c; c_drainTimer := c_drainTimer c; c_waitingRequests := c_waitingRequests c;
     c_parked := c_parked c; c_events := c_events c; c_passes := c_passes c; c_pendingRequestDone :=
     c_pendingRequestDone c; c_completedRequestIds := c_completedRequestIds c; c_freezeTimers :=
     c_freezeTimers c; c_forwardTimer := c_forwardTimer c; c_forwardAttempts := x; c_inFlight :=
     c_inFlight c; c_openStreams := c_openStreams c |}.
Definition set_inFlight (x : nat) (c : Client) : Client :=
  {| c_role := c_role c; c_rateLimit := c_rateLimit c; c_admissionHalted := c_admissionHalted c;
     c_now := c_now c; c_processingLock := c_processingLock c; c_processingPending :=
     c_processingPending c; c_drainTimer := c_drainTimer c; c_waitingRequests := c_waitingRequests c;
     c_parked := c_parked c; c_events := c_events c; c_passes := c_passes c; c_pendingRequestDone :=
     c_pendingRequestDone c; c_completedRequestIds := c_completedRequestIds c; c_freezeTimers :=
     c_freezeTimers c; c_forwardTimer := c_forwardTimer c; c_forwardAttempts := c_forwardAttempts c;
     c_inFlight := x; c_openStreams := c_openStreams c |}.
Definition set_openStreams (x : list string) (c : Client) : Client :=
  {| c_role := c_role c; c_rateLimit := c_rateLimit c; c_admissionHalted := c_admissionHalted c;
     c_now := c_now c; c_processingLock := c_processingLock c; c_processingPending :=
     c_processingPending c; c_drainTimer := c_drainTimer c; c_waitingRequests := c_waitingRequests c;
     c_parked := c_parked c; c_events := c_events c; c_passes := c_passes c; c_pendingRequestDone :=
     c_pendingRequestDone c; c_completedRequestIds := c_completedRequestIds c; c_freezeTimers :=
     c_freezeTimers c; c_forwardTimer := c_forwardTimer c; c_forwardAttempts := c_forwardAttempts c;
     c_inFlight := c_inFlight c; c_openStreams := x |}.

(** ** The client's methods *)

Section client.
Context {B : Type} `{DianemoBackend B}.
Variable self : ClientData.

Local Notation C := (Prog Client B).

Definition ask {A} (c : call A) : C A := fun s b =>
  let '(r, b') := serve c b in (r, (s, b')).

(** A rejection answered with a value. *)
Definition or_else {A} (m : C A) (a : A) : C A := catch m (fun _ => mret a).

(** [this.processRequests().catch(...)]. *)
Definition poke : C unit := modify_state (fun c => set_passes (S (c_passes c)) c).

Definition publish_ (channel : string) (message : json) : C unit :=
  ask (CPublish (k_handlerNamespace self +:+ channel) (stringify message)).

(** *** Keys *)

Definition usesGrantIsolation : bool :=
  let auth := match k_ownerAuthData self with Some owner => owner | None => k_authData self end in
  match auth with
  | Some a => bool_decide (a_type a = "oauth2")
              && bool_decide (a_grantRateLimitBehavior a = Some "isolated")
  | None => false
  end.

(** A key of the client, or of one grant when grants are isolated. *)
Definition grant_key (suffix : string) (grantId : option string) : string :=
  let baseKey := k_namespace self +:+ ":" +:+ suffix in
  match grantId with
  | Some g =>
      if bool_decide (g = "") || negb usesGrantIsolation then baseKey
      else k_namespace self +:+ ":grant:" +:+ g +:+ ":" +:+ suffix
  | None => baseKey
  end.

Definition getRateLimitKey (grantId : option string) : string := grant_key "rateLimit" grantId.
Definition getConcurrencyKey (grantId : option string) : string := grant_key "concurrency" grantId.
Definition getFreezeStateKey (grantId : option string) : string := grant_key "freezeState" grantId.
Definition getQueueKey : string := k_namespace self +:+ ":queue".
Definition getMetadataKeyPrefix : string := k_namespace self +:+ ":request".
Definition getRequestMetadataKey (requestId : string) : string :=
  getMetadataKeyPrefix +:+ ":" +:+ requestId.
Definition getFrozenGrantsKey : string := k_namespace self +:+ ":frozenGrants".

(** [`${n}`] of a retry count. *)
Definition getSlotId (requestId : string) (retries : num) : string :=
  if retries =? int 0 then requestId
  else requestId +:+ ":retry:" +:+ num_to_string retries.

(** *** The drain timer *)

Definition MIN_FREEZE_BASE_MS : num := int 1000.
Definition MAX_DRAIN_DELAY_MS : num := int 60000.

Definition drain_delay (waitTimeMs : num) : num :=
  fmin MAX_DRAIN_DELAY_MS (fmax (int 1) (ceil waitTimeMs)).

Definition scheduleDrain (waitTimeMs : num) : C unit :=
  modify_state (fun c =>
    let dueAt := c_now c + drain_delay waitTimeMs in
    match c_drainTimer c with
    | Some due => if due <=? dueAt then c else set_drainTimer (Some dueAt) c
    | None => set_drainTimer (Some dueAt) c
    end).

(** What the timer does when it fires: it is forgotten before the pass runs. *)
Definition drain_fires : C unit :=
  modify_state (set_drainTimer None) ;; poke.

Definition clearDrainTimer : C unit := modify_state (set_drainTimer None).

(** *** Waiters *)

Definition registerWaitingRequest (requestId : string) : C unit :=
  modify_state (fun c => set_waitingRequests (oset_add requestId (c_waitingRequests c)) c).
Definition unregisterWaitingRequest (requestId : string) : C unit :=
  modify_state (fun c => set_waitingRequests (oset_delete requestId (c_waitingRequests c)) c).

(** What a waiter is woken or refused with; either way it stops listening. *)
Definition tell (requestId : string) (e : client_event) : C unit :=
  modify_state (fun c =>
    set_events (c_events c ++ [e])
      (set_parked (oset_delete requestId (c_parked c))
        (set_waitingRequests (oset_delete requestId (c_waitingRequests c)) c))).

Definition failWaitingRequest (requestId : string) (e : client_error) : C bool :=
  c ← get_state;
  if bool_decide (requestId ∈ c_waitingRequests c) || bool_decide (requestId ∈ c_parked c)
  then tell requestId (Failed requestId e) ;; mret true
  else mret false.

Definition handleRequestReady (m : RequestMetadata) : C unit :=
  c ← get_state;
  if decide (m_requestId m ∈ c_parked c) then tell (m_requestId m) (Ready m true)
  else modify_state (fun c => set_events (c_events c ++ [Ready m false]) c).

(** The handler's refusal at shutdown, in the order the waiters came. *)
Definition handler_stopped : client_error :=
  ClientUnavailableError "handler_stopped"
    ("Request handler stopped before client " +:+ k_name self +:+ " could admit this request.").

Definition cancelWaitingRequests : C unit :=
  c ← get_state;
  pforeach (c_waitingRequests c) (fun id => tell id (Failed id handler_stopped)).

Definition haltAdmission : C unit := modify_state (set_admissionHalted true).

(** *** Requests in flight *)

Definition trackRequestStarted : C unit := modify_state (fun c => set_inFlight (S (c_inFlight c)) c).
Definition trackRequestFinished : C unit :=
  modify_state (fun c => set_inFlight (pred (c_inFlight c)) c).
Definition registerStream (requestId : string) : C unit :=
  modify_state (fun c => set_openStreams (oset_add requestId (c_openStreams c)) c).
Definition unregisterStream (requestId : string) : C unit :=
  modify_state (fun c => set_openStreams (oset_delete requestId (c_openStreams c)) c).

(** Whether a shutdown has to wait: the queue is the fleet's, so only this
    replica's entries count. *)
Definition hasOutstandingWork : C bool :=
  c ← get_state;
  if (0 <? c_inFlight c)%nat then mret true
  else if bool_decide (c_role c = controller) && (0 <? length (c_pendingRequestDone c))%nat
  then mret true
  else
    all ← ask (CGetAllRequests getQueueKey getMetadataKeyPrefix);
    mret (existsb (fun q => bool_decide (q_ownerId q = k_instanceId self)) all).

(** *** The queue *)

Definition notifyRequestAdded : C unit :=
  c ← get_state;
  pwhen (negb (bool_decide (c_role c = controller)))
    (publish_ ":requestAdded" (JObj [("clientName", JStr (k_name self))])) ;;
  poke.

Definition addRequestToQueue (request : QueuedRequest) : C bool :=
  created ← ask (CAddRequest getQueueKey getMetadataKeyPrefix request (int 86400));
  notifyRequestAdded ;;
  mret created.

Definition getNextRequest_ (skipGrantIds skipRequestIds : list string) : C (option QueuedRequest) :=
  ask (CGetNextRequest getQueueKey getMetadataKeyPrefix skipGrantIds skipRequestIds).

Definition confirmRequestInQueue (request : QueuedRequest) : C bool :=
  match q_claimedAt request with
  | None => mret true
  | Some claimedAt => ask (CConfirmRequest getMetadataKeyPrefix (q_requestId request) claimedAt)
  end.

Definition updateRequestInQueue (requestId : string) (updates : RequestUpdates) : C unit :=
  ask (CUpdateRequest getQueueKey getMetadataKeyPrefix requestId updates).

Definition getRequestFromQueue (requestId : string) : C (option QueuedRequest) :=
  ask (CGetRequest getMetadataKeyPrefix requestId).

Definition tombstone_ttl : num :=
  fmax REQUEST_TOMBSTONE_TTL_SECONDS
    (ceil (num_opt_or (o_cleanupTimeout (k_requestOptions self)) (int 60000) / int 1000)).

(** Whether the entry was the thaw probe. *)
Definition removeRequestFromQueue (requestId : string) : C bool :=
  ask (CRemoveRequest getQueueKey getMetadataKeyPrefix requestId tombstone_ttl).

Definition getFrozenGrantIds : C (list string) :=
  if usesGrantIsolation then ask (CSmembers getFrozenGrantsKey) else mret [].

Definition addFrozenGrantId (grantId : string) : C unit :=
  if bool_decide (grantId = "") || negb usesGrantIsolation then mret tt
  else ask (CSadd getFrozenGrantsKey grantId).

Definition removeFrozenGrantId (grantId : string) : C unit :=
  if bool_decide (grantId = "") then mret tt else ask (CSrem getFrozenGrantsKey grantId).

Definition cleanupOrphanedRequests_ : C num :=
  c ← get_state;
  if negb (bool_decide (c_role c = controller)) then mret (int 0)
  else
    alive ← ask (CSmembers (k_handlerNamespace self +:+ ":instances"));
    if negb (bool_decide (k_instanceId self ∈ alive)) then mret (int 0)
    else ask (CCleanupOrphanedRequests getQueueKey getMetadataKeyPrefix alive (k_instanceId self)).

Definition cleanupStaleFrozenGrants_ : C unit :=
  if usesGrantIsolation then
    ask (CCleanupStaleFrozenGrants getFrozenGrantsKey getQueueKey getMetadataKeyPrefix
           (k_namespace self +:+ ":grant:")) ;;
    mret tt
  else mret tt.

(** *** Freezes *)

Definition canProcessNextRequest (grantId : option string) : C ProcessDecision :=
  ask (CCanProcessRequest (getFreezeStateKey grantId)).

Definition isFrozen_ (grantId : option string) : C bool :=
  d ← ask (CCanProcessRequest (getFreezeStateKey grantId));
  mret (negb (canProcess d)).

Definition scheduleDrainForFreeze (frozenUntil_ : option num) (grantId : option string) : C unit :=
  deadline ← match frozenUntil_ with
             | Some until => mret (Some until)
             | None =>
                 state ← or_else (d ← ask (CCanProcessRequest (getFreezeStateKey grantId)); mret (Some d)) None;
                 mret (match state with
                       | Some d => if canProcess d then None else pd_frozenUntil d
                       | None => None
                       end)
             end;
  match deadline with
  | None => mret tt
  | Some deadline =>
      now ← or_else (t ← ask CNow; mret (Some t)) None;
      match now with
      | None => mret tt
      | Some now => scheduleDrain (deadline - now)
      end
  end.

Definition tryStartThawRequest_ (grantId : option string) (requestId : string) : C thaw_result :=
  ask (CTryStartThawRequest getFrozenGrantsKey getQueueKey getMetadataKeyPrefix requestId
         (if usesGrantIsolation then default "" grantId else "") (negb usesGrantIsolation)).

Definition hasThawRequestInProgress_ (grantId : option string) : C bool :=
  match grantId with
  | Some g =>
      if bool_decide (g = "") then mret false
      else ask (CHasThawRequestInProgress getQueueKey getMetadataKeyPrefix g
                  (negb usesGrantIsolation))
  | None => mret false
  end.

(** *** Waits *)

(** [BaseClient.getFreezeBaseTime]. *)
Definition base_freeze_time : num :=
  let base := o_retryBackoffBaseTime (k_retryOptions self) in
  if isFinite base && (base >? int 0) then base else MIN_FREEZE_BASE_MS.

(** *** Updates *)

Definition limit_json (l : NamedRateLimitData) : json :=
  JObj (match n_limit l with
        | requestLimit o =>
            [("type", JStr "requestLimit"); ("interval", JNum (rl_interval o));
             ("tokensToAdd", JNum (rl_tokensToAdd o)); ("maxTokens", JNum (rl_maxTokens o))]
            ++ opt_field "maxDebt" (JNum <$> rl_maxDebt o)
        | concurrencyLimit k =>
            [("type", JStr "concurrencyLimit"); ("maxConcurrency", JNum k)]
        | noLimit => [("type", JStr "noLimit")]
        | sharedLimit owner => [("type", JStr "sharedLimit"); ("clientName", JStr owner)]
        | unknownLimit t => opt_field "type" (JStr <$> t)
        end ++ [("name", JStr (n_name l))]).

(** [updateRateLimit]: names are resolved against the budget owner's limits. *)
Definition updateRateLimit (parent : option (list NamedRateLimitData))
    (data : list DeclaredRateLimit) (source : string) : C unit :=
  c ← get_state;
  publish_ ":rateLimitUpdated"
    (JObj [("clientName", JStr (k_name self));
           ("rateLimit", JArr (map limit_json
              (normalizeRateLimit data (Some (default (c_rateLimit c) parent)))));
           ("source", JStr source); ("publisherInstanceId", JStr (k_instanceId self))]).
End client.

(** [Prog] over a client's own state. *)
Abbreviation C B := (Prog Client B).

(** ** What a subclass decides

    The abstract methods of [BaseClient], and those a subclass overrides.  A
    method that writes [claimedKeys] on the request it is given returns the
    request as it is afterwards. *)

Record AcquireTurnResult := { t_acquired : bool; t_waitTime : option num }.

Class BaseClient (B : Type) := {
  b_tryAdmitImmediately : RequestMetadata -> C B (bool * RequestMetadata);
  b_tryAcquireTurn : RequestMetadata -> C B (AcquireTurnResult * RequestMetadata);
  b_refundUnusedAdmission : RequestMetadata -> C B unit;
  b_claimsReleasableCapacity : Client -> bool;
  b_getCostProblem : Client -> RequestCost -> result (option cost_error);
  b_assertReadyToQueue : C B unit;
  b_handleOwnTypeRequestDone : RequestDoneData -> C B unit;
  b_handleFreezeOwnTypeRequests : option string -> C B unit;
  b_getRetryBackoffBaseTime : Client -> bool -> num;
  b_getFreezeBaseTime : Client -> bool -> num;
  b_freezeEmptiesBucket : Client -> bool -> bool;
  b_settleAttempt : RequestMetadata -> value -> C B unit
}.

(** [releaseUnusedAdmission]. *)
Definition releaseUnusedAdmission {B} `{BaseClient B} (request : RequestMetadata) : C B unit :=
  b_refundUnusedAdmission request.
