(* ===== verification/Metered.v ===== *)
(** * Clients with budgets of their own

    [packages/core/src/client/clientTypes/meteredClient.ts]: which budgets a
    request claims, in which backend call, what gives a claim back, and the
    waits and freezes that follow from the declared limits.  The client is
    written against [DianemoBackend]; a method the backend may leave out is
    asked for first. *)
From S2P Require Import Prelude JsNumber JsString Json Value RateLimit Cost Timers.
From S2P Require Import Shared MemoryStore TokenBucket Concurrency MultiLimit Queue Backend.
From S2P Require Import Election Requests Client.
Local Open Scope num_scope.

Definition DEFAULT_SETTLE_WINDOW_MS : num := int 900000.
Definition MIN_STREAM_KEEP_ALIVE_MS : num := int 250.

(** True unless the attempt recorded its claims and this key is not among them. *)
Definition wasClaimed (m : RequestMetadata) (key : string) : bool :=
  match m_claimedKeys m with Some l => bool_decide (key ∈ l) | None => true end.

(** A method called through [?.], or tested before it is called. *)
Definition missing_methods (implements : optional_method -> bool) : list string :=
  (if implements opt_acquireMultiLimit then [] else ["acquireMultiLimit"])
  ++ (if implements opt_releaseMultiLimit then [] else ["releaseMultiLimit"]).

Definition assertBackendCanClaim (implements : optional_method -> bool) (clientName : string)
    (rateLimit : list NamedRateLimitData) : result unit :=
  if bool_decide (is_Some (soleRateLimit rateLimit)) then Ok tt
  else
    match missing_methods implements with
    | [] => Ok tt
    | missing =>
        Throw (ConfigurationError "backend_missing_multi_limit"
          ("Client " +:+ dq clientName +:+ " declares "
           +:+ num_to_string (int (Z.of_nat (length rateLimit)))
           +:+ " rate limits, which needs a backend implementing acquireMultiLimit and releaseMultiLimit. This backend lacks "
           +:+ join " and " missing
           +:+ ", and claiming the budgets one at a time would leak the ones claimed before a decline."))
    end.

(** What each claiming call answers, as [tryAcquireTurn] reads it. *)
Record ClaimResult := { cr_acquired : bool; cr_waitTime : option num; cr_error : option string }.

Section metered.
Context {B : Type} `{DianemoBackend B}.
Variable self : ClientData.

(** ** The declared limits *)

Definition requestTtl_ : num :=
  match o_concurrencySlotTtl (k_requestOptions self) with
  | Some t => if negb (num_or t (int 0) =? int 0) && isFinite t && (t >? int 0) then t else int 120000
  | None => int 120000
  end.

Definition is_bucket (l : NamedRateLimitData) : bool :=
  match n_limit l with requestLimit _ => true | _ => false end.
Definition is_slots (l : NamedRateLimitData) : bool :=
  match n_limit l with concurrencyLimit _ => true | _ => false end.

Definition getBucketKey (name : string) (grantId : option string) : string :=
  getRateLimitKey self grantId +:+ ":" +:+ name.
Definition getSlotKey (name : string) (grantId : option string) : string :=
  getConcurrencyKey self grantId +:+ ":" +:+ name.

Definition bucketConfig (o : RequestLimitClientOptions) : TokenBucketConfig :=
  {| maxTokens := rl_maxTokens o; tokensToAdd := rl_tokensToAdd o; interval := rl_interval o |}.

Definition slotConfig (maxConcurrency : num) : ConcurrencyConfig :=
  {| Concurrency.maxConcurrency := maxConcurrency; requestTtl := requestTtl_ |}.

Definition slotId_of (m : RequestMetadata) : string := getSlotId (m_requestId m) (m_retries m).

(** The spec of one limit, if it has a budget. *)
Definition limit_spec (grantId : option string) (slotId : string) (cost : RequestCost)
    (forRelease : bool) (limit : NamedRateLimitData) : result (option MultiLimitSpec) :=
  let amountFor := if forRelease then claimedAmount cost else costFor cost in
  match n_limit limit with
  | requestLimit o =>
      amount ← amountFor (n_name limit);
      Ok (Some (TokenBucketSpec (Some (getFreezeStateKey self grantId)) amount
                  (getBucketKey (n_name limit) grantId) (bucketConfig o) None))
  | concurrencyLimit k =>
      amount ← amountFor (n_name limit);
      Ok (Some (ConcurrencySpec (Some (getFreezeStateKey self grantId)) amount
                  (getSlotKey (n_name limit) grantId) (slotConfig k) slotId))
  | _ => Ok None
  end.

Fixpoint limit_specs (grantId : option string) (slotId : string) (cost : RequestCost)
    (forRelease : bool) (limits : list NamedRateLimitData) : result (list MultiLimitSpec) :=
  match limits with
  | [] => Ok []
  | limit :: limits' =>
      spec ← limit_spec grantId slotId cost forRelease limit;
      specs ← limit_specs grantId slotId cost forRelease limits';
      Ok (option_list spec ++ specs)
  end.

Definition getLimitSpecs (c : Client) (grantId : option string) (slotId : string)
    (cost : RequestCost) (forRelease : bool) : result (list MultiLimitSpec) :=
  limit_specs grantId slotId cost forRelease (c_rateLimit c).

Definition spec_key (s : MultiLimitSpec) : string :=
  match s with TokenBucketSpec _ _ key _ _ => key | ConcurrencySpec _ _ key _ _ => key end.
Definition spec_cost (s : MultiLimitSpec) : num :=
  match s with TokenBucketSpec _ cost _ _ _ => cost | ConcurrencySpec _ cost _ _ _ => cost end.

(** *** Claim marks *)

Definition settleWindowMs : num :=
  match o_settleWindow (k_requestOptions self) with
  | Some w => if isFinite w && (w >? int 0) then w else DEFAULT_SETTLE_WINDOW_MS
  | None => DEFAULT_SETTLE_WINDOW_MS
  end.

Definition markFor (m : RequestMetadata) (config : TokenBucketConfig) : option ClaimMark :=
  if m_settles m then
    let refillMs := ceil (maxTokens config / tokensToAdd config) * interval config in
    Some {| mark_id := slotId_of m;
            mark_ttlSeconds := ceil (fmax settleWindowMs refillMs / int 1000) |}
  else None.

Definition with_mark (m : RequestMetadata) (s : MultiLimitSpec) : MultiLimitSpec :=
  match s with
  | TokenBucketSpec fk cost key config _ => TokenBucketSpec fk cost key config (markFor m config)
  | _ => s
  end.

Definition withMarks (m : RequestMetadata) (specs : list MultiLimitSpec) : list MultiLimitSpec :=
  if m_settles m then map (with_mark m) specs else specs.

(** ** Admission *)

Definition tryAdmitImmediately_ (request : RequestMetadata) : C B (bool * RequestMetadata) :=
  c ← get_state;
  if negb (hasMeteredBudget (c_rateLimit c)) then
    ok ← ask (CTryAdmitNoLimit (getQueueKey self) (getFreezeStateKey self (m_grantId request)));
    mret (ok, request)
  else if non_empty (m_grantId request) then mret (false, request)
  else
    let cost := m_cost request in
    match soleRateLimit (c_rateLimit c) with
    | Some {| n_limit := requestLimit o; n_name := name |} =>
        let key := getBucketKey name None in
        let request := with_claimedKeys (Some [key]) request in
        let config := bucketConfig o in
        amount ← of_result (costFor cost name);
        ok ← ask (CTryAdmitImmediately (getQueueKey self) key (getFreezeStateKey self None) amount
                    config (int 86400) (markFor request config));
        mret (ok, request)
    | Some {| n_limit := concurrencyLimit k; n_name := name |} =>
        let key := getSlotKey name None in
        let request := with_claimedKeys (Some [key]) request in
        amount ← of_result (costFor cost name);
        ok ← ask (CTryAdmitConcurrency (getQueueKey self) key (getFreezeStateKey self None) amount
                    (slotId_of request) (slotConfig k) (int 86400));
        mret (ok, request)
    | _ =>
        if negb (implements opt_tryAdmitMultiLimit) then mret (false, request)
        else
          specs ← of_result (getLimitSpecs c None (slotId_of request) cost false);
          let specs := withMarks request specs in
          let request := with_claimedKeys (Some (map spec_key specs)) request in
          ok ← ask (CTryAdmitMultiLimit (getQueueKey self) [getFreezeStateKey self None] specs
                      (int 86400));
          mret (ok, request)
    end.

(** The claim itself, by whichever backend call fits this client's budgets. *)
Definition claim (request : RequestMetadata) (cost : RequestCost)
    : C B (ClaimResult * RequestMetadata) :=
  c ← get_state;
  let grantId := m_grantId request in
  match soleRateLimit (c_rateLimit c) with
  | Some {| n_limit := requestLimit o; n_name := name |} =>
      let key := getBucketKey name grantId in
      let request := with_claimedKeys (Some [key]) request in
      let config := bucketConfig o in
      amount ← of_result (costFor cost name);
      r ← ask (CAcquireTokens key amount config (markFor request config));
      mret ({| cr_acquired := at_acquired r; cr_waitTime := at_waitTime r;
               cr_error := at_error r |}, request)
  | Some {| n_limit := concurrencyLimit k; n_name := name |} =>
      let key := getSlotKey name grantId in
      let request := with_claimedKeys (Some [key]) request in
      let slotId := slotId_of request in
      amount ← of_result (costFor cost name);
      r ← ask (if implements opt_acquireQueuedConcurrency
               then CAcquireQueuedConcurrency key (getRequestMetadataKey self (m_requestId request))
                      amount slotId (slotConfig k)
               else CAcquireConcurrency key amount slotId (slotConfig k));
      mret ({| cr_acquired := ac_acquired r; cr_waitTime := None; cr_error := ac_error r |}, request)
  | _ =>
      if negb (implements opt_acquireMultiLimit) then
        raise (JsError (ConfigurationError "backend_missing_multi_limit"
          ("Client " +:+ dq (k_name self)
           +:+ " declares several rate limits, which needs a backend implementing acquireMultiLimit.")))
      else
        specs ← of_result (getLimitSpecs c grantId (slotId_of request) cost false);
        let specs := withMarks request specs in
        let request := with_claimedKeys (Some (map spec_key specs)) request in
        r ← ask (CAcquireMultiLimit specs);
        mret ({| cr_acquired := am_acquired r; cr_waitTime := am_waitTime r;
                 cr_error := am_error r |}, request)
  end.

(** ** Giving back *)

(** The slots the attempt holds in ledgers the current limits do not name. *)
Definition releaseStaleSlots (request : RequestMetadata) (specs : list MultiLimitSpec)
    (slotId : string) : C B unit :=
  match m_claimedKeys request with
  | None => mret tt
  | Some keys =>
      let concurrencyPrefix := getConcurrencyKey self (m_grantId request) +:+ ":" in
      pforeach keys (fun key =>
        if bool_decide (key ∈ map spec_key specs) || negb (startsWith concurrencyPrefix key)
        then mret tt
        else ask (CReleaseConcurrency key slotId))
  end.

Definition releaseClaim (request : RequestMetadata) (cost : RequestCost) : C B unit :=
  c ← get_state;
  let slotId := slotId_of request in
  specs ← of_result (getLimitSpecs c (m_grantId request) slotId cost true);
  releaseStaleSlots request specs slotId ;;
  match filter (fun s => wasClaimed request (spec_key s) = true) specs with
  | [] => mret tt
  | (first :: _) as claimed =>
      match soleRateLimit (c_rateLimit c) with
      | Some {| n_limit := requestLimit o; n_name := name |} =>
          if negb (implements opt_refundTokens) then mret tt
          else ask (CRefundTokens (spec_key first) (spec_cost first) (rl_maxTokens o)
                      (Some (getFreezeStateKey self (m_grantId request))))
      | Some {| n_limit := concurrencyLimit k; n_name := name |} =>
          ask (CReleaseConcurrency (spec_key first) slotId)
      | _ => pwhen (implements opt_releaseMultiLimit) (ask (CReleaseMultiLimit claimed))
      end
  end.

Definition refundUnusedAdmission_ (request : RequestMetadata) : C B unit :=
  c ← get_state;
  if negb (hasMeteredBudget (c_rateLimit c)) then mret tt
  else releaseClaim request (m_cost request).

(** ** The turn *)

Definition declineWait (c : Client) (waitTime : option num) : num :=
  match waitTime with
  | Some w =>
      if w >? int 0 then w
      else if existsb is_slots (c_rateLimit c) then requestTtl_ else w
  | None => if existsb is_slots (c_rateLimit c) then requestTtl_ else int 0
  end.

Definition getBudgetLimits (c : Client) : option (list NamedRateLimitData) :=
  budgetLimitsFor (c_rateLimit c) None.

Definition getCostProblem (c : Client) (cost : RequestCost) : result (option cost_error) :=
  costProblem (k_name self) cost (getBudgetLimits c).

Definition tryAcquireTurn (request : RequestMetadata) : C B (AcquireTurnResult * RequestMetadata) :=
  c ← get_state;
  if negb (hasMeteredBudget (c_rateLimit c)) then
    mret ({| t_acquired := true; t_waitTime := None |}, request)
  else
    let cost := m_cost request in
    match unusableCostReason (cost_value cost) with
    | Some unusable =>
        raise (JsError (ConfigurationError "invalid_request_cost"
          ("Client " +:+ k_name self
           +:+ " refused a queued request whose cost is not spendable: " +:+ unusable)))
    | None =>
        problem ← of_result (getCostProblem c cost);
        match problem with
        | Some problem => raise (CostError problem)
        | None =>
            frozen ← isFrozen_ self (m_grantId request);
            if (frozen : bool) then raise (ClientFrozenError (k_name self))
            else
              claimed ← claim request cost;
              let '(claimed, request) := claimed : ClaimResult * RequestMetadata in
              if non_empty (cr_error claimed) then
                raise (JsError (ConfigurationError "unusable_rate_limit"
                  ("Client " +:+ k_name self +:+ " cannot acquire its budgets: "
                   +:+ default "" (cr_error claimed))))
              else if negb (cr_acquired claimed) then
                c' ← get_state;
                mret ({| t_acquired := false;
                         t_waitTime := Some (declineWait c' (cr_waitTime claimed)) |}, request)
              else
                frozen ← isFrozen_ self (m_grantId request);
                if (frozen : bool) then
                  or_else (releaseClaim request cost) tt ;;
                  raise (ClientFrozenError (k_name self))
                else mret ({| t_acquired := true; t_waitTime := None |}, request)
        end
    end.

Definition claimsReleasableCapacity_ (c : Client) : bool := existsb is_slots (c_rateLimit c).

(** ** Completion *)

(** The slot a completion gives back is the one of the attempt that ran: a
    retry's announcement already counts the next attempt. *)
Definition attempt_of (d : RequestDoneData) : RequestMetadata :=
  let m := d_metadata d in
  if bool_decide (d_responseStatus d = retry)
  then with_retries (fmax (int 0) (m_retries m - int 1)) m else m.

Definition handleOwnTypeRequestDone (d : RequestDoneData) : C B unit :=
  c ← get_state;
  let m := d_metadata d in
  let concurrencyPrefix := getConcurrencyKey self (m_grantId m) +:+ ":" in
  let heldSlots := match m_claimedKeys m with
                   | Some keys => existsb (startsWith concurrencyPrefix) keys
                   | None => existsb is_slots (c_rateLimit c)
                   end in
  if negb heldSlots then mret tt
  else
    let slotId := slotId_of (attempt_of d) in
    specs ← of_result (getLimitSpecs c (m_grantId m) slotId (m_cost m) true);
    releaseStaleSlots m specs slotId ;;
    pforeach specs (fun spec =>
      match spec with
      | ConcurrencySpec _ _ key _ _ =>
          pwhen (wasClaimed m key) (ask (CReleaseConcurrency key slotId))
      | _ => mret tt
      end) ;;
    poke.

(** ** Freezes and waits *)

Definition emptiedOnFreeze (c : Client) : bool :=
  (length (filter (fun l => is_bucket l = true) (c_rateLimit c)) =? 1)%nat.

Definition handleFreezeOwnTypeRequests (grantId : option string) : C B unit :=
  c ← get_state;
  if negb (emptiedOnFreeze c) then mret tt
  else
    match List.find is_bucket (c_rateLimit c) with
    | Some {| n_limit := requestLimit o; n_name := name |} =>
        let key := getBucketKey name grantId in
        if implements opt_emptyTokenBucket then ask (CEmptyTokenBucket key (bucketConfig o))
        else
          now ← ask CNow;
          ask (CHset key [("tokens", FNum (int 0)); ("lastUpdate", FNum now)] None)
    | _ => mret tt
    end.

(** A base time, floored after a 429 at the shortest refill interval. *)
Definition floored (limits : list NamedRateLimitData) (isRateLimited : bool) (base : num) : num :=
  match shortestRefillInterval limits with
  | Some interval => if isRateLimited then fmax interval base else base
  | None => base
  end.

Definition getRetryBackoffBaseTime (c : Client) (isRateLimited : bool) : num :=
  floored (c_rateLimit c) isRateLimited (o_retryBackoffBaseTime (k_retryOptions self)).

Definition getFreezeBaseTime (c : Client) (isRateLimited : bool) : num :=
  floored (c_rateLimit c) isRateLimited (base_freeze_time self).

Definition freezeEmptiesBucket (c : Client) (isRateLimited : bool) : bool :=
  isRateLimited && emptiedOnFreeze c.

(** ** Settlement and streams *)

Definition settle_spec (request : RequestMetadata) (settled : value) (l : NamedRateLimitData)
    : result (option SettleSpec) :=
  match n_limit l with
  | requestLimit o =>
      let key := getBucketKey (n_name l) (m_grantId request) in
      if negb (wasClaimed request key) then Ok None
      else
        actual ← costFor (cost_of settled) (n_name l);
        Ok (Some {| ss_key := key; ss_markId := slotId_of request; ss_actual := actual;
                    ss_config := bucketConfig o;
                    ss_maxDebt := default (int 0) (rl_maxDebt o) |})
  | _ => Ok None
  end.

Fixpoint settle_specs (request : RequestMetadata) (settled : value) (limits : list NamedRateLimitData)
    : result (list SettleSpec) :=
  match limits with
  | [] => Ok []
  | l :: limits' =>
      spec ← settle_spec request settled l;
      specs ← settle_specs request settled limits';
      Ok (option_list spec ++ specs)
  end.

Definition settleAttempt (request : RequestMetadata) (settled : value) : C B unit :=
  if negb (implements opt_settleTokens) then mret tt
  else
    c ← get_state;
    match settledCostProblem settled (default [] (budgetLimitsFor (c_rateLimit c) None)) with
    | Some _ => mret tt
    | None =>
        specs ← of_result (settle_specs request settled (c_rateLimit c));
        match specs with
        | [] => mret tt
        | _ =>
            results ← ask (CSettleTokens specs);
            pwhen (existsb (fun r => sr_applied r <? int 0) results) (notifyRequestAdded self)
        end
    end.

Definition heldSpecs (c : Client) (request : RequestMetadata) : result (list MultiLimitSpec) :=
  specs ← getLimitSpecs c (m_grantId request) (slotId_of request) (m_cost request) true;
  Ok (filter (fun s => wasClaimed request (spec_key s) = true) specs).

(** The slot ledgers the attempt no longer holds a slot in. *)
Definition keepAttemptAlive (request : RequestMetadata) : C B (list string) :=
  c ← get_state;
  specs ← of_result (heldSpecs c request);
  pfold (fun lost spec =>
    match spec with
    | ConcurrencySpec _ _ key _ _ =>
        if negb (implements opt_touchConcurrency) then mret lost
        else
          held ← ask (CTouchConcurrency key (slotId_of request) (int 86400));
          mret (if (held : bool) then lost else lost ++ [key])
    | TokenBucketSpec _ _ key config _ =>
        match markFor request config with
        | Some mark =>
            if implements opt_touchClaimMark then
              ask (CTouchClaimMark key (mark_id mark) (mark_ttlSeconds mark)) ;; mret lost
            else mret lost
        | None => mret lost
        end
    end) [] specs.

Definition streamKeepAliveMs (c : Client) (request : RequestMetadata) : result num :=
  specs ← heldSpecs c request;
  let shortestMs :=
    fold_left (fun shortest spec =>
      match spec with
      | ConcurrencySpec _ _ _ _ _ => shortest
      | TokenBucketSpec _ _ _ config _ =>
          match markFor request config with
          | Some mark => fmin shortest (mark_ttlSeconds mark * int 1000)
          | None => shortest
          end
      end) specs requestTtl_ in
  Ok (clampDelay (fmax (shortestMs / int 3) MIN_STREAM_KEEP_ALIVE_MS)).

(** ** Updates and statistics *)

(** [data.rateLimit], when it is a list at all. *)
Definition handleRateLimitUpdated (rateLimit : option (list DeclaredRateLimit)) : C B unit :=
  match rateLimit with
  | None => mret tt
  | Some declared =>
      c ← get_state;
      let limits := normalizeRateLimit declared (Some (c_rateLimit c)) in
      if existsb (fun l => is_shared (n_limit l)) limits then mret tt
      else
        match (assertUsableRateLimits limits (k_name self) ;;
               assertBackendCanClaim implements (k_name self) limits) with
        | Throw _ => mret tt
        | Ok _ => modify_state (set_rateLimit limits) ;; poke
        end
  end.

(** Each declared limit, and the balance of those that are buckets. *)
Definition getRateLimitStats : C B (list (NamedRateLimitData * option num)) :=
  c ← get_state;
  pfold (fun limits l =>
    match n_limit l with
    | requestLimit o =>
        state ← ask (CGetTokenBucketState (getBucketKey (n_name l) None) (bucketConfig o));
        mret (limits ++ [(l, Some (state : num * num).1)])
    | _ => mret (limits ++ [(l, None)])
    end) [] (c_rateLimit c).

(** ** The class *)

Definition MeteredClient : BaseClient B := {|
  b_tryAdmitImmediately := tryAdmitImmediately_;
  b_tryAcquireTurn := tryAcquireTurn;
  b_refundUnusedAdmission := refundUnusedAdmission_;
  b_claimsReleasableCapacity := claimsReleasableCapacity_;
  b_getCostProblem := getCostProblem;
  b_assertReadyToQueue := mret tt;
  b_handleOwnTypeRequestDone := handleOwnTypeRequestDone;
  b_handleFreezeOwnTypeRequests := handleFreezeOwnTypeRequests;
  b_getRetryBackoffBaseTime := getRetryBackoffBaseTime;
  b_getFreezeBaseTime := getFreezeBaseTime;
  b_freezeEmptiesBucket := freezeEmptiesBucket;
  b_settleAttempt := settleAttempt
|}.
End metered.

(** ** Clients that share another's budgets

    [clientTypes/sharedLimitClient.ts].  The client is built under its owner's
    name, so every key is the owner's; it never drains, claims or releases.
    [parent] is what [getParentRateLimit] answers: nothing when the accessor is
    missing or the owner is gone.  [settle] is the owner's [settleAttempt]. *)

Section shared.
Context {B : Type} `{DianemoBackend B}.
Variable self : ClientData.
Variable parent : option (list NamedRateLimitData).
Variable settle : option (RequestMetadata -> value -> C B unit).

Definition shared_owner (c : Client) : string :=
  match c_rateLimit c with
  | {| n_limit := sharedLimit owner |} :: _ => owner
  | _ => ""
  end.

Definition assertReadyToQueue : C B unit :=
  c ← get_state;
  match parent with
  | Some _ => mret tt
  | None =>
      raise (ClientUnavailableError "shared_limit_parent_missing"
        ("Client " +:+ dq (k_registeredName self) +:+ " shares the rate limit of "
         +:+ dq (shared_owner c)
         +:+ ", which is no longer registered. Nothing drains that budget's queue, so the request would wait out its admission timeout and fail."))
  end.

Definition shared_freezeBaseTime (c : Client) (isRateLimited : bool) : num :=
  match parent with
  | Some limits => floored limits isRateLimited (base_freeze_time self)
  | None => base_freeze_time self
  end.

Definition shared_handleRateLimitUpdated (rateLimit : option (list DeclaredRateLimit)) : C B unit :=
  match rateLimit with
  | None => mret tt
  | Some declared =>
      c ← get_state;
      match normalizeRateLimit declared (Some (c_rateLimit c)) with
      | [{| n_limit := sharedLimit _ |}] as limits => modify_state (set_rateLimit limits)
      | _ => mret tt
      end
  end.

Definition SharedLimitClient : BaseClient B := {|
  b_tryAdmitImmediately := fun request => mret (false, request);
  b_tryAcquireTurn := fun request => mret ({| t_acquired := true; t_waitTime := None |}, request);
  b_refundUnusedAdmission := fun _ => mret tt;
  b_claimsReleasableCapacity := fun _ => false;
  b_getCostProblem := fun c cost =>
    costProblem (k_name self) cost (budgetLimitsFor (c_rateLimit c) (Some (fun _ => parent)));
  b_assertReadyToQueue := assertReadyToQueue;
  b_handleOwnTypeRequestDone := fun _ => mret tt;
  b_handleFreezeOwnTypeRequests := fun _ => mret tt;
  b_getRetryBackoffBaseTime := fun _ _ => o_retryBackoffBaseTime (k_retryOptions self);
  b_getFreezeBaseTime := shared_freezeBaseTime;
  b_freezeEmptiesBucket := fun _ _ => false;
  b_settleAttempt := fun request settled =>
    match settle with Some f => f request settled | None => mret tt end
|}.
End shared.
