(* ===== verification/Completions.v ===== *)
(** * Completions

    What a client does with the announcement that an attempt ended:
    [packages/core/src/client/index.ts] from [finalizeOwnedRequest] to
    [handleFreezeRequests], with the role changes and the health tick that
    retry it.  A completion is kept until a controller has applied it, stage by
    stage; the stages a failed pass got through are flags on the kept record,
    so the next pass resumes after them.

    A pass over the kept completions runs alone on its replica: the map of
    passes in flight ([completionFlushes]) is always empty between operations. *)
From S2P Require Import Prelude JsNumber JsString Json Value RateLimit Cost Timers.
From S2P Require Import Shared MemoryStore TokenBucket Queue Freeze Backend.
From S2P Require Import Election Requests Client.
Local Open Scope num_scope.

Definition MAX_COMPLETION_FORWARDS : num := int 30.

(** ** What a completion says *)

(** One attempt's outcome: a retry and the attempt after it are different. *)
Definition completionIdOf (d : RequestDoneData) : string :=
  let m := d_metadata d in
  let id := m_requestId m +:+ ":" +:+ num_to_string (m_retries m) +:+ ":"
            +:+ response_name (d_responseStatus d) in
  match d_phase d with Some p => id +:+ ":" +:+ phase_name p | None => id end.

Definition freezeDuration (d : RequestDoneData) : num := default (d_waitTime d) (d_freezeTime d).

Definition freezesClient (d : RequestDoneData) : bool :=
  d_freezeClient d && negb (isNaN (freezeDuration d) || (freezeDuration d =? int 0)).

Definition probeSucceeded (d : RequestDoneData) : bool :=
  bool_decide (is_Some (d_httpStatus d)) && negb (freezesClient d).

Definition with_thaw (b : bool) (d : RequestDoneData) : RequestDoneData :=
  {| d_metadata := with_isThawRequest b (d_metadata d); d_responseStatus := d_responseStatus d;
     d_phase := d_phase d; d_waitTime := d_waitTime d; d_freezeTime := d_freezeTime d;
     d_isRateLimited := d_isRateLimited d; d_freezeClient := d_freezeClient d;
     d_completedAt := d_completedAt d; d_httpStatus := d_httpStatus d |}.

(** ** The kept record *)

Definition set_data (x : RequestDoneData) (p : PendingRequestDone) : PendingRequestDone :=
  {| p_data := x; p_queueHandled := p_queueHandled p; p_ownTypeHandled := p_ownTypeHandled p;
     p_freezeHandled := p_freezeHandled p; p_thawHandled := p_thawHandled p;
     p_forwardDueAt := p_forwardDueAt p; p_forwards := p_forwards p |}.
Definition set_queueHandled (p : PendingRequestDone) : PendingRequestDone :=
  {| p_data := p_data p; p_queueHandled := true; p_ownTypeHandled := p_ownTypeHandled p;
     p_freezeHandled := p_freezeHandled p; p_thawHandled := p_thawHandled p;
     p_forwardDueAt := p_forwardDueAt p; p_forwards := p_forwards p |}.
Definition set_ownTypeHandled (p : PendingRequestDone) : PendingRequestDone :=
  {| p_data := p_data p; p_queueHandled := p_queueHandled p; p_ownTypeHandled := true;
     p_freezeHandled := p_freezeHandled p; p_thawHandled := p_thawHandled p;
     p_forwardDueAt := p_forwardDueAt p; p_forwards := p_forwards p |}.
Definition set_freezeHandled (p : PendingRequestDone) : PendingRequestDone :=
  {| p_data := p_data p; p_queueHandled := p_queueHandled p; p_ownTypeHandled := p_ownTypeHandled p;
     p_freezeHandled := true; p_thawHandled := p_thawHandled p;
     p_forwardDueAt := p_forwardDueAt p; p_forwards := p_forwards p |}.
Definition set_thawHandled (p : PendingRequestDone) : PendingRequestDone :=
  {| p_data := p_data p; p_queueHandled := p_queueHandled p; p_ownTypeHandled := p_ownTypeHandled p;
     p_freezeHandled := p_freezeHandled p; p_thawHandled := true;
     p_forwardDueAt := p_forwardDueAt p; p_forwards := p_forwards p |}.
Definition set_forwarded (dueAt forwards : num) (p : PendingRequestDone) : PendingRequestDone :=
  {| p_data := p_data p; p_queueHandled := p_queueHandled p; p_ownTypeHandled := p_ownTypeHandled p;
     p_freezeHandled := p_freezeHandled p; p_thawHandled := p_thawHandled p;
     p_forwardDueAt := dueAt; p_forwards := forwards |}.

(** ** A client that owns its budget *)

Section completions.
Context {B : Type} `{DianemoBackend B} `{BaseClient B}.
Variable self : ClientData.

Definition completed_limit : nat := 10000.

(** [completedRequestIds], oldest first. *)
Definition remember (completionId : string) (ids : list string) : list string :=
  let ids := oset_add completionId ids in
  if decide (completed_limit < length ids)%nat then drop 1 ids else ids.

Definition rememberCompleted (completionId : string) : C B unit :=
  modify_state (fun c => set_completedRequestIds (remember completionId (c_completedRequestIds c)) c).

Definition forget_pending (completionId : string) : C B unit :=
  modify_state (fun c => set_pendingRequestDone (omap_delete completionId (c_pendingRequestDone c)) c).

Definition storePendingRequestDone (d : RequestDoneData) : C B unit :=
  let completionId := completionIdOf d in
  modify_state (fun c =>
    if decide (completionId ∈ c_completedRequestIds c) then c
    else match omap_get completionId (c_pendingRequestDone c) with
         | Some _ => c
         | None =>
             set_forwardAttempts (int 0)
               (set_pendingRequestDone
                  (omap_set completionId
                     {| p_data := d; p_queueHandled := false; p_ownTypeHandled := false;
                        p_freezeHandled := false; p_thawHandled := false;
                        p_forwardDueAt := c_now c + k_healthCheckIntervalMs self;
                        p_forwards := int 0 |} (c_pendingRequestDone c)) c)
         end).

Definition acknowledgeCompletion (d : RequestDoneData) : C B unit :=
  let m := d_metadata d in
  if decide (m_ownerId m = k_instanceId self) then mret tt
  else
    or_else
      (publish_ self (":requestDoneApplied:" +:+ m_ownerId m)
         (JObj [("clientName", JStr (m_clientName m)); ("completionId", JStr (completionIdOf d))]))
      tt.

Definition handleRequestDoneApplied (completionId : string) : C B unit :=
  forget_pending completionId ;; rememberCompleted completionId.

(** *** Freezing on a completion *)

Definition publishFreezeStateChanged (grantId : option string) (frozenUntil_ : num) : C B unit :=
  or_else
    (publish_ self ":freezeStateChanged"
       (JObj ([("clientName", JStr (k_name self)); ("state", JStr "frozen")]
              ++ opt_field "grantId" (JStr <$> grantId)
              ++ [("frozenUntil", JNum frozenUntil_); ("reason", JStr "UPSTREAM_UNAVAILABLE")])))
    tt.

(** How much longer than this completion asked for the freeze now runs. *)
Definition handleFreezeRequests (d : RequestDoneData) : C B num :=
  let grantId := m_grantId (d_metadata d) in
  now ← ask CNow;
  let requestedUntil := now + freezeDuration d in
  let thawCount := if d_isRateLimited d then o_thawRequestCount (k_retryOptions self) else int 0 in
  c ← get_state;
  state ← ask (CArmFreeze (getFreezeStateKey self grantId) requestedUntil thawCount
                 (Some (b_freezeEmptiesBucket c (d_isRateLimited d))));
  pwhen (d_isRateLimited d) (b_handleFreezeOwnTypeRequests grantId) ;;
  pwhen (non_empty grantId) (addFrozenGrantId self (default "" grantId)) ;;
  pwhen (negb (d_isRateLimited d)) (publishFreezeStateChanged grantId (frozenUntil state)) ;;
  mret (fmax (int 0) (frozenUntil state - requestedUntil)).

(** *** The stages of one completion *)

Local Notation K := (Prog (Client * PendingRequestDone) B).

(** A method of the client, from inside a stage. *)
Definition own {A} (m : C B A) : K A := fun cp b =>
  match m cp.1 b with (r, (c, b')) => (r, ((c, cp.2), b')) end.

Definition pending : K PendingRequestDone := fun cp b => (Return cp.2, (cp, b)).
Definition set_pending (f : PendingRequestDone -> PendingRequestDone) : K unit :=
  modify_state (fun cp => (cp.1, f cp.2)).

(** A streamed response announces twice; each announcement settles its half. *)
Definition phase_stages (p : PendingRequestDone) : PendingRequestDone :=
  match d_phase (p_data p) with
  | Some headers => set_freezeHandled (set_ownTypeHandled p)
  | Some end_ => set_thawHandled (set_queueHandled p)
  | None => p
  end.

Definition is_retry (d : RequestDoneData) : bool := bool_decide (d_responseStatus d = retry).

(** The queue entry: removed, unless the attempt is retried.  Whether the
    attempt was the thaw probe. *)
Definition queue_stage : K bool :=
  p ← pending;
  let d := p_data p in
  let m := d_metadata d in
  if negb (p_queueHandled p) && negb (is_retry d) && negb (m_fastPath m) then
    removed ← own (removeRequestFromQueue self (m_requestId m));
    let isThawRequest := m_isThawRequest m || removed in
    set_pending (fun p => set_queueHandled (set_data (with_thaw isThawRequest (p_data p)) p)) ;;
    mret isThawRequest
  else if negb (p_queueHandled p) && is_retry d && non_empty (m_grantId m) then
    pwhen (negb (freezesClient d))
      (entry ← own (getRequestFromQueue self (m_requestId m));
       match entry with
       | Some entry =>
           pwhen (q_isThawRequest entry) (own (removeFrozenGrantId self (default "" (m_grantId m))))
       | None => mret tt
       end) ;;
    set_pending set_queueHandled ;;
    mret (m_isThawRequest m)
  else if m_fastPath m || negb (non_empty (m_grantId m)) then
    set_pending set_queueHandled ;;
    mret (m_isThawRequest m)
  else mret (m_isThawRequest m).

(** The freeze, and the wake-up for when it lapses. *)
Definition freeze_stage : K unit :=
  p ← pending;
  let d := p_data p in
  if negb (p_freezeHandled p) && freezesClient d then
    extraMs ← own (handleFreezeRequests d);
    c ← own get_state;
    pwhen (negb (c_admissionHalted c))
      (own (modify_state (fun c =>
         set_freezeTimers (c_freezeTimers c
           ++ [(clampDelay (freezeDuration d + extraMs), m_grantId (d_metadata d))]) c))) ;;
    set_pending set_freezeHandled
  else pwhen (negb (freezesClient d)) (set_pending set_freezeHandled).

Definition own_type_stage : K unit :=
  p ← pending;
  if negb (p_ownTypeHandled p) then
    own (b_handleOwnTypeRequestDone (p_data p)) ;; set_pending set_ownTypeHandled
  else mret tt.

Definition thaw_stage (isThawRequest : bool) : K unit :=
  p ← pending;
  let d := p_data p in
  let grantId := m_grantId (d_metadata d) in
  if isThawRequest && negb (p_thawHandled p) then
    own (ask (CUpdateThawProgress (getFreezeStateKey self grantId) (probeSucceeded d)
                (Some (completionIdOf d)))) ;;
    pwhen (non_empty grantId) (own (removeFrozenGrantId self (default "" grantId))) ;;
    set_pending set_thawHandled ;;
    own poke
  else mret tt.

Definition handleRequestDone : K unit :=
  set_pending phase_stages ;;
  isThawRequest ← queue_stage;
  freeze_stage ;;
  own_type_stage ;;
  p ← pending;
  pwhen (is_retry (p_data p) && negb (freezesClient (p_data p))) (own poke) ;;
  thaw_stage isThawRequest ;;
  own poke.

(** *** Passes over the kept completions *)

(** The stages of the kept completion [completionId], which stays as they left it. *)
Definition run_stages (completionId : string) (p : PendingRequestDone) : C B PendingRequestDone :=
  fun c b =>
    match handleRequestDone (c, p) b with
    | (r, ((c', p'), b')) =>
        let c'' := match omap_get completionId (c_pendingRequestDone c') with
                   | Some _ => set_pendingRequestDone
                                 (omap_set completionId p' (c_pendingRequestDone c')) c'
                   | None => c'
                   end in
        (match r with Return _ => Return p' | Raise e => Raise e end, (c'', b'))
    end.

Definition flush_one (completionId : string) : C B unit :=
  c ← get_state;
  match omap_get completionId (c_pendingRequestDone c) with
  | None => mret tt
  | Some p =>
      or_else
        (p' ← run_stages completionId p;
         forget_pending completionId ;;
         rememberCompleted completionId ;;
         acknowledgeCompletion (p_data p'))
        tt
  end.

Definition flushPendingRequestDone (only : option string) : C B unit :=
  c ← get_state;
  pforeach (match only with
            | Some completionId => [completionId]
            | None => (c_pendingRequestDone c).*1
            end) flush_one.

(** The copies of other replicas' completions are dropped. *)
Definition dropRetainedCopies : C B unit :=
  modify_state (fun c =>
    set_pendingRequestDone
      (filter (fun e => m_ownerId (d_metadata (p_data e.2)) = k_instanceId self)
         (c_pendingRequestDone c)) c).

Definition forward_one (now : num) (completionId : string) : C B unit :=
  c ← get_state;
  match omap_get completionId (c_pendingRequestDone c) with
  | None => mret tt
  | Some p =>
      if now <? p_forwardDueAt p then mret tt
      else if p_forwards p >=? MAX_COMPLETION_FORWARDS then
        forget_pending completionId ;; rememberCompleted completionId
      else
        modify_state (fun c =>
          set_pendingRequestDone
            (omap_set completionId
               (set_forwarded (now + k_healthCheckIntervalMs self) (p_forwards p + int 1) p)
               (c_pendingRequestDone c)) c) ;;
        publish_ self ":requestDone" (done_json (p_data p))
  end.

Definition forwardPendingRequestDone : C B unit :=
  dropRetainedCopies ;;
  c ← get_state;
  pforeach (c_pendingRequestDone c).*1 (forward_one (c_now c)).

Definition finalizeOwnedRequest (d : RequestDoneData) : C B unit :=
  c ← get_state;
  let completionId := completionIdOf d in
  if decide (completionId ∈ c_completedRequestIds c) then
    pwhen (bool_decide (c_role c = controller)) (acknowledgeCompletion d)
  else
    storePendingRequestDone d ;;
    c ← get_state;
    pwhen (bool_decide (c_role c = controller)) (flushPendingRequestDone (Some completionId)).

(** *** Timers, roles and shutdown *)

(** A post-freeze timer fires: its grant may be probed, and the queue is drained. *)
Definition freeze_timer_fires (n : nat) : C B unit :=
  c ← get_state;
  match c_freezeTimers c !! n with
  | None => mret tt
  | Some (_, grantId) =>
      modify_state (fun c => set_freezeTimers (delete n (c_freezeTimers c)) c) ;;
      or_else
        (pwhen (non_empty grantId) (removeFrozenGrantId self (default "" grantId)) ;; poke) tt
  end.

Definition updateRole (role : ClientRole) : C B unit :=
  c ← get_state;
  if decide (role = c_role c) then mret tt
  else
    let wasWorker := bool_decide (c_role c = worker) in
    modify_state (set_role role) ;;
    pwhen (wasWorker && bool_decide (role = controller))
      (dropRetainedCopies ;;
       flushPendingRequestDone None ;;
       cleanupOrphanedRequests_ self ;;
       cleanupStaleFrozenGrants_ self) ;;
    poke.

(** One health tick; [reconcileRole] is the election the handler installs. *)
Definition health_tick (reconcileRole : C B unit) : C B unit :=
  or_else
    (reconcileRole ;;
     c ← get_state;
     (if decide (c_role c = controller) then flushPendingRequestDone None
      else forwardPendingRequestDone) ;;
     c ← get_state;
     pwhen (bool_decide (c_role c = controller))
       (cleanupOrphanedRequests_ self ;; cleanupStaleFrozenGrants_ self) ;;
     poke) tt.

Definition removeHealthCheckInterval : C B unit :=
  modify_state (fun c => set_forwardTimer false (set_freezeTimers [] c)).

Inductive ClientDestroyReason := rebuild | removal | finalRemoval.

#[export] Instance ClientDestroyReason_eq_dec : EqDecision ClientDestroyReason.
Proof. solve_decision. Defined.

Definition destroy (reason : ClientDestroyReason) : C B unit :=
  removeHealthCheckInterval ;;
  clearDrainTimer ;;
  pwhen (negb (bool_decide (reason = rebuild))) (cancelWaitingRequests self).
End completions.

(** ** Clients that hand their completions to another

    A client that shares a limit hands its completions to the budget's owner,
    and one that was rebuilt to its replacement.  The other client's state is
    part of the world: nothing, when it is not registered. *)

Section handing_over.
Context {B : Type} `{DianemoBackend B} `{BaseClient B}.
Variable self : ClientData.
Variable other : ClientData.

Definition lent {A} (m : C B A) (gone : A) : C (option Client * B) A := fun c ob =>
  match ob with
  | (Some o, b) => match m o b with (r, (o', b')) => (r, (c, (Some o', b'))) end
  | (None, b) => (Return gone, (c, (None, b)))
  end.

Definition owner_stands : C (option Client * B) bool := fun c ob =>
  (Return (bool_decide (is_Some ob.1)), (c, ob)).

Definition scheduleCompletionForward {B'} : C B' unit :=
  modify_state (fun c =>
    if c_forwardTimer c || (c_forwardAttempts c >=? int 50) || c_admissionHalted c then c
    else set_forwardTimer true (set_forwardAttempts (c_forwardAttempts c + int 1) c)).

Definition shared_finalizeOwnedRequest (d : RequestDoneData) : C (option Client * B) unit :=
  stands ← owner_stands;
  if (stands : bool) then lent (finalizeOwnedRequest other d) tt
  else storePendingRequestDone self d ;; scheduleCompletionForward.

Definition shared_forwardPendingRequestDone : C (option Client * B) unit :=
  stands ← owner_stands;
  c ← get_state;
  if (stands : bool) then
    pforeach (c_pendingRequestDone c) (fun e => lent (finalizeOwnedRequest other (p_data e.2)) tt) ;;
    modify_state (fun c => set_forwardAttempts (int 0) (set_pendingRequestDone [] c))
  else pwhen (0 <? length (c_pendingRequestDone c))%nat scheduleCompletionForward.

(** The forward timer fires, 100 ms after it was set. *)
Definition forward_timer_fires : C (option Client * B) unit :=
  modify_state (set_forwardTimer false) ;;
  or_else shared_forwardPendingRequestDone tt.

(** The replacement of [previous] takes over what it kept; the requests parked
    on the handler's emitter are reached through either. *)
Definition adoptWaitingRequests (previous this : Client) : Client * Client :=
  (set_completedRequestIds []
     (set_pendingRequestDone [] (set_waitingRequests [] previous)),
   set_completedRequestIds
     (fold_left (fun ids id => remember id ids) (c_completedRequestIds previous)
        (c_completedRequestIds this))
     (set_pendingRequestDone
        (fold_left (fun l e => omap_set e.1 e.2 l) (c_pendingRequestDone previous)
           (c_pendingRequestDone this))
        (set_waitingRequests
           (fold_left (fun l id => oset_add id l) (c_waitingRequests previous)
              (c_waitingRequests this))
           (set_parked
              (fold_left (fun l id => oset_add id l) (c_parked previous) (c_parked this)) this)))).
End handing_over.
