(* ===== verification/Attempts.v ===== *)
(** * The attempts of a request

    [packages/core/src/client/methods/handleRequest.ts]: a request waits for
    admission, is sent, and is announced; a failure is classified, paced and
    tried again, up to [maxRetries] times; a streamed response is announced at
    its headers and again at its end.

    What the request meets outside the program is a [Host]: axios, the
    consumer's hooks, the abort signal, the timers a wait races, and what the
    event loop does while it waits.  Each is a program over the client and the
    backend, so it may do anything to both, and may throw. *)
From S2P Require Import Prelude JsNumber JsString Json Value RateLimit Cost Timers.
From S2P Require Import Shared MemoryStore TokenBucket Queue Freeze Backend.
From S2P Require Import Election Requests Client.
Local Open Scope num_scope.

(** ** What the vendor and the consumer answer *)

(** What sending rejected with: an [AxiosError], or anything else thrown on the
    way, which has none of its fields.  [he_status] is missing when no response
    came; [he_error] is what the caller is thrown. *)
Record HttpError := {
  he_error : client_error;
  he_code : option string;
  he_status : option num;
  he_headers : header_bag
}.

Definition not_axios (e : client_error) : HttpError :=
  {| he_error := e; he_code := None; he_status := None; he_headers := NoHeaders |}.

Record Response := { rs_status : num; rs_streamed : bool }.

Inductive sent (A : Type) :=
  | Answered (a : A)
  | Rejected (e : HttpError).
Arguments Answered {A} a.
Arguments Rejected {A} e.

Inductive ErrorDecision :=
  | FailDecision
  | RetryDecision (freeze : bool) (freezeMs : option num)
  | UnknownDecision.

(** How a wait for admission came to an end. *)
Inductive wait_end :=
  | Woken (m : RequestMetadata)
  | Cancelled (e : client_error)
  | AbortedWhileQueued
  | TimedOut.

Inductive backoff_end := SleptOut | Interrupted (e : client_error).

Record Host (B : Type) := {
  h_send : RequestConfig -> C B (sent Response);
  h_requestInterceptor : option (RequestConfig -> C B RequestConfig);
  h_authenticate : C B (option (list (string * value)));
  h_responseInterceptor : option (Response -> C B unit);
  h_rateLimitChange : option (Response -> C B (option (list DeclaredRateLimit)));
  h_retryHandler : option (HttpError -> C B bool);
  h_classifyError : option (HttpError -> C B (option ErrorDecision));
  h_settle : option (sent Response -> C B value);
  h_observer : option (C B value);
  h_aborted : C B bool;  (** [signal.aborted], when it is read *)
  h_overran : C B bool;  (** whether the deadline fires before the work it races *)
  h_until_ready : C B wait_end;
  h_until_slept : num -> C B backoff_end
}.
Arguments h_send {B} h config.
Arguments h_requestInterceptor {B} h.
Arguments h_authenticate {B} h.
Arguments h_responseInterceptor {B} h.
Arguments h_rateLimitChange {B} h.
Arguments h_retryHandler {B} h.
Arguments h_classifyError {B} h.
Arguments h_settle {B} h.
Arguments h_observer {B} h.
Arguments h_aborted {B} h.
Arguments h_overran {B} h.
Arguments h_until_ready {B} h.
Arguments h_until_slept {B} h ms.

Inductive StreamEndReason := completed | closed | stream_error | stream_timeout | shutdown.

#[export] Instance StreamEndReason_eq_dec : EqDecision StreamEndReason.
Proof. solve_decision. Defined.

(** One streamed response: what its handlers share. *)
Record Stream := {
  st_request : Request;
  st_metadata : RequestMetadata;
  st_status : num;
  st_settled : bool;
  st_ended : bool
}.

Definition set_settled (s : Stream) : Stream :=
  {| st_request := st_request s; st_metadata := st_metadata s; st_status := st_status s;
     st_settled := true; st_ended := st_ended s |}.
Definition set_ended (s : Stream) : Stream :=
  {| st_request := st_request s; st_metadata := st_metadata s; st_status := st_status s;
     st_settled := st_settled s; st_ended := true |}.

Definition with_config (c : RequestConfig) (r : Request) : Request :=
  {| r_id := r_id r; r_config := c; r_retries := r_retries r; r_priority := r_priority r;
     r_clientName := r_clientName r; r_timestamp := r_timestamp r; r_cost := r_cost r;
     r_explicitCost := r_explicitCost r; r_requestName := r_requestName r; r_status := r_status r;
     r_ownerId := r_ownerId r; r_isThawRequest := r_isThawRequest r; r_fastPath := r_fastPath r;
     r_claimedKeys := r_claimedKeys r; r_abandonmentPublished := r_abandonmentPublished r |}.

Definition with_headers (extra : list (string * value)) (c : RequestConfig) : RequestConfig :=
  {| c_requestName := c_requestName c; c_priority := c_priority c; c_cost := c_cost c;
     c_grantId := c_grantId c; c_signal := c_signal c; c_settle := c_settle c;
     c_settleStream := c_settleStream c; c_responseType := c_responseType c;
     c_baseURL := c_baseURL c; c_headers := spread (c_headers c) extra;
     c_params := c_params c; c_requestId := c_requestId c |}.

(** The request on its way to the queue. *)
Definition queued_of (m : RequestMetadata) : QueuedRequest :=
  {| q_requestId := m_requestId m; q_clientName := m_clientName m;
     q_requestName := m_requestName m; q_status := "pending"; q_priority := m_priority m;
     q_cost := m_cost m; q_retries := m_retries m; q_timestamp := m_timestamp m;
     q_grantId := m_grantId m; q_isThawRequest := m_isThawRequest m; q_settles := m_settles m;
     q_ownerId := m_ownerId m; q_claimedAt := None |}.

(** ** Pacing *)

Section pacing.
Context {B : Type} `{BaseClient B}.
Variable self : ClientData.

(** [Math.pow(attempt, power)], for a power of one or two. *)
Definition backoff_multiplier (retries : num) : num :=
  let attempt := fmax (int 1) retries in
  match o_retryBackoffMethod (k_retryOptions self) with
  | exponential => attempt * attempt
  | linear => attempt
  end.

Definition handleBackoff (c : Client) (retries : num) (data : RequestRetryData) (floorMs : num)
    : RequestRetryData :=
  let multiplier := backoff_multiplier retries in
  {| rt_retry := rt_retry data;
     rt_message := if rt_retry data then rt_message data +:+ " | Will retry..." else rt_message data;
     rt_isRateLimited := rt_isRateLimited data;
     rt_waitTime := fmax floorMs (multiplier * b_getRetryBackoffBaseTime c (rt_isRateLimited data));
     rt_freezeClient := rt_freezeClient data;
     rt_freezeTime :=
       Some (fmax floorMs (multiplier * b_getFreezeBaseTime c (rt_isRateLimited data))) |}.
End pacing.

Definition retryableCodes : list string := ["ECONNRESET"; "ETIMEDOUT"; "ECONNABORTED"].

(** A failure, as the built-in rules or a decision class it: retried, with which
    message, whether it is a rate limit and whether it freezes the fleet. *)
Definition classed (retry_ : bool) (message : string) (isRateLimited freezeClient : bool)
    : RequestRetryData :=
  {| rt_retry := retry_; rt_message := message; rt_isRateLimited := isRateLimited;
     rt_waitTime := int 0; rt_freezeClient := freezeClient; rt_freezeTime := None |}.

Definition is_status (status : option num) (test : num -> bool) : bool :=
  match status with
  | Some s => negb (isNaN s || (s =? int 0)) && test s
  | None => false
  end.

(** ** One request *)

Section attempts.
Context {B : Type} `{DianemoBackend B} `{BaseClient B}.
Variable self : ClientData.
Variable host : Host B.
Variable Date_parse : string -> num.
(** [finalizeOwnedRequest] of this client, of its budget's owner or of its replacement. *)
Variable finalize : RequestDoneData -> C B unit.

Local Notation L := (Prog (Client * Request) B).

(** A method of the client, while the request is handled. *)
Definition of_client {A} (m : C B A) : L A := fun cr b =>
  match m cr.1 b with (r, (c, b')) => (r, ((c, cr.2), b')) end.

Definition the_request : L Request := fun cr b => (Return cr.2, (cr, b)).
Definition set_the_request (f : Request -> Request) : L unit :=
  modify_state (fun cr => (cr.1, f cr.2)).

(** A [void f().catch(...)]: what it rejects with is dropped. *)
Definition detached (m : C B unit) : C B unit := or_else m tt.

Definition halted_error : client_error :=
  ClientUnavailableError "handler_stopped"
    ("Request handler stopped before client " +:+ k_registeredName self
     +:+ " could admit this request.").

Definition withDeadline {A} (work : C B A) (timeoutMs : num) (requestId : string) : C B A :=
  a ← work;
  overran ← h_overran host;
  if (overran : bool) then raise (RequestTimeoutError requestId timeoutMs) else mret a.

(** *** Announcements *)

Definition announce_done (d : RequestDoneData) : C B unit :=
  publish_ self ":requestDone" (done_json d).

Fixpoint publish_attempts (attempts : nat) (d : RequestDoneData) : C B unit :=
  match attempts with
  | O => mret tt
  | S attempts => catch (announce_done d) (fun _ => publish_attempts attempts d)
  end.

(** The payload is parsed back and taken for the completion, without a check. *)
Definition publishRequestDone (d : RequestDoneData) : C B unit :=
  publish_attempts 3 d ;; detached (finalize d).

Definition ABANDONMENT_PUBLISH_TIMEOUT_MS : num := int 2000.

Definition publishAbandoned (r : Request) (message : string) : C B unit :=
  c ← get_state;
  let d := getRequestDoneData r (Some (classed false message false false)) None None (c_now c) in
  detached (finalize d) ;;
  or_else (withDeadline (announce_done d) ABANDONMENT_PUBLISH_TIMEOUT_MS (r_id r)) tt.

(** Hands back everything admission granted, for a request that will not run.
    The message, which quotes the cause, is logged and not announced. *)
Definition releaseAbandonedRequest : L unit :=
  r ← the_request;
  if r_abandonmentPublished r then mret tt
  else
    set_the_request set_abandonmentPublished ;;
    r ← the_request;
    (if decide (r_status r = inProgress)
     then of_client (or_else (releaseUnusedAdmission (Requests.getMetadata r)) tt) else mret tt) ;;
    of_client (publishAbandoned r "Request abandoned before dispatch").

(** *** Admission *)

Definition admission_timeout : num :=
  clampDelay (num_opt_or (o_cleanupTimeout (k_requestOptions self)) (int 60000)).

Definition park (requestId : string) : C B unit :=
  modify_state (fun c => set_parked (oset_add requestId (c_parked c)) c) ;;
  registerWaitingRequest requestId.
Definition unpark (requestId : string) : C B unit :=
  modify_state (fun c => set_parked (oset_delete requestId (c_parked c)) c) ;;
  unregisterWaitingRequest requestId.

Definition raise_if_aborted : L unit :=
  r ← the_request;
  aborted ← of_client (h_aborted host);
  if (aborted : bool) then raise (RequestAbortedError (r_id r)) else mret tt.

Definition raise_if_halted : L unit :=
  c ← of_client get_state;
  if c_admissionHalted c then raise halted_error else mret tt.

(** What the wait for a turn came to. *)
Definition await_turn : L unit :=
  r ← the_request;
  ended ← of_client (h_until_ready host);
  of_client (unpark (r_id r)) ;;
  match ended with
  | Woken ready =>
      set_the_request (set_request inProgress (m_isThawRequest ready) (r_fastPath r)
        (m_claimedKeys ready) (r_retries r) (r_abandonmentPublished r))
  | Cancelled e => raise e
  | AbortedWhileQueued =>
      of_client (detached (publishAbandoned r "Request aborted while queued")) ;;
      set_the_request set_abandonmentPublished ;;
      raise (RequestAbortedError (r_id r))
  | TimedOut =>
      of_client (detached (publishAbandoned r "Request timed out waiting for admission")) ;;
      set_the_request set_abandonmentPublished ;;
      raise (RequestTimeoutError (r_id r) admission_timeout)
  end.

Definition waitForRequestReady : L unit :=
  set_the_request (fun r => set_fastPath false (set_claimedKeys None r)) ;;
  r ← the_request;
  let metadata := Requests.getMetadata r in
  raise_if_aborted ;;
  raise_if_halted ;;
  admitted ← of_client (withDeadline (b_tryAdmitImmediately metadata) admission_timeout (r_id r));
  let '(admitted, metadata) := admitted : bool * RequestMetadata in
  if admitted then
    aborted ← of_client (h_aborted host);
    if (aborted : bool) then
      of_client (detached (releaseUnusedAdmission metadata)) ;; raise (RequestAbortedError (r_id r))
    else
      set_the_request (fun r =>
        setStatus inProgress (set_claimedKeys (m_claimedKeys metadata) (set_fastPath true r)))
  else
    raise_if_aborted ;;
    of_client (park (r_id r)) ;;
    created ← of_client (withDeadline (addRequestToQueue self (queued_of metadata)) admission_timeout (r_id r));
    (if (r_retries r >? int 0) && negb created then
       of_client (updateRequestInQueue self (r_id r)
                    {| u_status := Some "pending"; u_retries := None; u_priority := None;
                       u_isThawRequest := None |}) ;;
       of_client (notifyRequestAdded self)
     else mret tt) ;;
    await_turn.

(** The timer of a wait that was never waited for, because the enqueue after it
    failed: its listeners and it stay, and it fires once the budget is spent. *)
Definition admission_timer_fires : L unit :=
  r ← the_request;
  c ← of_client get_state;
  if decide (r_id r ∈ c_parked c) then
    of_client (unpark (r_id r)) ;;
    of_client (detached (publishAbandoned r "Request timed out waiting for admission")) ;;
    set_the_request set_abandonmentPublished
  else mret tt.

Definition waitOutBackoff (waitMs : num) : L unit :=
  r ← the_request;
  raise_if_aborted ;;
  raise_if_halted ;;
  of_client (registerWaitingRequest (r_id r)) ;;
  ended ← of_client (h_until_slept host (clampDelay waitMs));
  of_client (unregisterWaitingRequest (r_id r)) ;;
  match ended with SleptOut => mret tt | Interrupted e => raise e end.

Definition handlePreRequest : L unit :=
  waitForRequestReady ;;
  (match h_requestInterceptor host with
   | Some intercept =>
       r ← the_request;
       config ← of_client (intercept (r_config r));
       set_the_request (with_config config)
   | None => mret tt
   end) ;;
  authHeader ← of_client (h_authenticate host);
  match authHeader with
  | Some extra => set_the_request (fun r => with_config (with_headers extra (r_config r)) r)
  | None => mret tt
  end.

(** *** Responses *)

Definition runSettle (r : Request) (outcome_ : sent Response) : C B unit :=
  match h_settle host with
  | None => mret tt
  | Some settle =>
      or_else
        (settled ← settle outcome_;
         if is_undefined settled then mret tt
         else b_settleAttempt (Requests.getMetadata r) settled) tt
  end.

Definition runResponseHooks (res : Response) : C B unit :=
  (match h_responseInterceptor host with Some f => or_else (f res) tt | None => mret tt end) ;;
  match h_rateLimitChange host with
  | Some change =>
      or_else
        (newLimit ← change res;
         match newLimit with
         | Some newLimit => updateRateLimit self None newLimit "dynamic"
         | None => mret tt
         end) tt
  | None => mret tt
  end.

Definition handleResponse (res : Response) : L unit :=
  r ← the_request;
  of_client (runSettle r (Answered res)) ;;
  c ← of_client get_state;
  of_client (publishRequestDone (getRequestDoneData r None (Some (rs_status res)) None (c_now c))) ;;
  of_client (runResponseHooks res).

(** *** Failures *)

Definition classifyError (e : HttpError) : C B (option ErrorDecision) :=
  match h_classifyError host with
  | None => mret None
  | Some classify =>
      decision ← or_else (classify e) None;
      mret (match decision with Some UnknownDecision => None | _ => decision end)
  end.

(** The built-in rules, which come after a decision of the consumer's. *)
Definition class_of (e : HttpError) (outOfRetries : bool) : C B RequestRetryData :=
  let o := k_retryOptions self in
  if is_status (he_status e) (fun s => s =? int 429) && o_retry429s o then
    mret (classed true "Rate Limited" true true)
  else if is_status (he_status e) (fun s => s >=? int 500) && o_retry5xxs o then
    mret (classed true "Server Error" false true)
  else if is_status (he_status e) (fun s => existsb (fun code => code =? s) (o_retryStatusCodes o)) then
    mret (classed true "Client Wants Retry By Status" false false)
  else if non_empty (he_code e) && bool_decide (default "" (he_code e) ∈ retryableCodes) then
    mret (classed true "Server Error" false true)
  else
    match h_retryHandler host with
    | Some handler =>
        if outOfRetries then mret (classed false "" false false)
        else
          or_else
            (wants ← handler e;
             mret (if (wants : bool) then classed true "Client Wants Retry" false false
                   else classed false "" false false))
            (classed false "Retry handler failed" false false)
    | None => mret (classed false "" false false)
    end.

Definition out_of_retries (data : RequestRetryData) : RequestRetryData :=
  {| rt_retry := false;
     rt_message := if bool_decide (rt_message data = "") then "Maximum number of retries reached."
                   else rt_message data +:+ " | Maximum number of retries reached.";
     rt_isRateLimited := rt_isRateLimited data; rt_waitTime := rt_waitTime data;
     rt_freezeClient := rt_freezeClient data; rt_freezeTime := rt_freezeTime data |}.

Definition handleRetry (e : HttpError) : L RequestRetryData :=
  r ← the_request;
  c ← of_client get_state;
  let outOfRetries := r_retries r >=? o_maxRetries (k_retryOptions self) in
  let floorMs := default (int 0) (retryAfterMs Date_parse (he_headers e) (c_now c)) in
  decision ← of_client (classifyError e);
  classed_ ← match decision with
             | Some FailDecision => mret (classed false "Classified as terminal" false false, floorMs)
             | Some (RetryDecision freeze freezeMs) =>
                 mret (if freeze then
                         (classed true "Classified as retryable"
                            (match he_status e with Some s => s =? int 429 | None => false end) true,
                          fmax floorMs (clampDelay (default (int 0) freezeMs)))
                       else (classed true "Classified as retryable" false false, floorMs))
             | _ => data ← of_client (class_of e outOfRetries); mret (data, floorMs)
             end;
  let '(data, floorMs) := classed_ : RequestRetryData * num in
  let data := if outOfRetries then out_of_retries data else data in
  c ← of_client get_state;
  if negb (rt_retry data) then
    mret (if rt_freezeClient data then handleBackoff self c (r_retries r) data floorMs else data)
  else
    set_the_request incrementRetries ;;
    r ← the_request;
    mret (handleBackoff self c (r_retries r) data floorMs).

Definition handleError (e : HttpError) : L RequestRetryData :=
  r ← the_request;
  of_client (runSettle r (Rejected e)) ;;
  retryData ← handleRetry e;
  r ← the_request;
  (if rt_retry retryData then
     of_client (updateRequestInQueue self (r_id r)
                  {| u_status := None; u_retries := Some (r_retries r); u_priority := None;
                     u_isThawRequest := None |})
   else mret tt) ;;
  c ← of_client get_state;
  of_client (publishRequestDone (getRequestDoneData r (Some retryData) (he_status e) None (c_now c))) ;;
  if rt_retry retryData then mret retryData else raise (he_error e).

(** *** The loop *)

(** How one turn of the loop ended. *)
Inductive turn_end :=
  | Responded (res : Response)
  | Streaming (res : Response)
  | TryAgain (backoffMs : num).

Definition before_sending (backoffMs : num) : L unit :=
  catch
    ((if backoffMs >? int 0 then waitOutBackoff backoffMs else mret tt) ;;
     handlePreRequest ;;
     raise_if_aborted ;;
     raise_if_halted)
    (fun e => releaseAbandonedRequest ;; raise e).

Definition is_streamed (r : Request) (res : Response) : bool :=
  bool_decide (c_responseType (r_config r) = Some "stream") && rs_streamed res.

(** The headers of a streamed response, as [handleStreamedResponse] announces
    them; the rest of it is [stream_end]. *)
Definition announce_headers (res : Response) : L unit :=
  r ← the_request;
  c ← of_client get_state;
  (if r_fastPath r then mret tt
   else of_client (publishRequestDone
          (getRequestDoneData r None (Some (rs_status res)) (Some headers) (c_now c)))) ;;
  of_client (runResponseHooks res) ;;
  of_client (registerStream (r_id r)).

Definition attempt (backoffMs : num) : L turn_end :=
  set_the_request (setStatus inQueue) ;;
  before_sending backoffMs ;;
  r ← the_request;
  answer ← of_client (catch (h_send host (r_config r)) (fun e => mret (Rejected (not_axios e))));
  match answer with
  | Rejected e => retryData ← handleError e; mret (TryAgain (rt_waitTime retryData))
  | Answered res =>
      r ← the_request;
      if is_streamed r res then announce_headers res ;; mret (Streaming res)
      else handleResponse res ;; mret (Responded res)
  end.

(** The [do … while]: [None] when the fuel ran out. *)
Fixpoint attempts (fuel : nat) (backoffMs : num) : L (option turn_end) :=
  match fuel with
  | O => mret None
  | S fuel =>
      ended ← attempt backoffMs;
      match ended with
      | TryAgain backoffMs =>
          r ← the_request;
          if r_retries r <=? o_maxRetries (k_retryOptions self) then attempts fuel backoffMs
          else raise NoResponseError
      | _ => mret (Some ended)
      end
  end.

(** The loop and its [finally]: a stream keeps the request in flight until it ends. *)
Definition run_attempts (fuel : nat) (request : Request) : C B (option turn_end * Request) :=
  fun c b =>
    match attempts fuel (int 0) (c, request) b with
    | (Return (Some (Streaming res)), ((c', r), b')) => (Return (Some (Streaming res), r), (c', b'))
    | (o, ((c', r), b')) =>
        (match o with Return ended => Return (ended, r) | Raise e => Raise e end,
         (set_inFlight (pred (c_inFlight c')) c', b'))
    end.

(** The whole call, with the request it made. *)
Definition handleRequest (fuel : nat) (id : string) (config : RequestConfig)
    (defaults : option RequestDefaults) : C B (option turn_end * Request) :=
  b_assertReadyToQueue ;;
  c ← get_state;
  request ← of_result (new_Request id (c_now c) (k_name self) config (k_instanceId self) defaults);
  problem ← of_result (b_getCostProblem c (r_cost request));
  match problem with
  | Some problem => raise (CostError problem)
  | None =>
      if (c_settle config || c_settleStream config) && negb (implements opt_settleTokens) then
        raise (JsError (ConfigurationError "backend_missing_settlement"
          ("Client " +:+ k_name self
           +:+ " was given a request that settles, which needs a backend implementing settleTokens.")))
      else
        trackRequestStarted ;; run_attempts fuel request
  end.
End attempts.

(** ** Streamed responses *)

Section streams.
Context {B : Type} `{DianemoBackend B} `{BaseClient B}.
Variable self : ClientData.
Variable host : Host B.
Variable finalize : RequestDoneData -> C B unit.

Definition DEFAULT_STREAM_TIMEOUT_MS : num := int 3600000.

Definition streamTimeoutOf (configured : option num) : num :=
  match configured with
  | Some t => if isFinite t && (t >? int 0) then clampDelay t else DEFAULT_STREAM_TIMEOUT_MS
  | None => DEFAULT_STREAM_TIMEOUT_MS
  end.

Local Notation L := (Prog (Client * Stream) B).

Definition from_client {A} (m : C B A) : L A := fun cs b =>
  match m cs.1 b with (r, (c, b')) => (r, ((c, cs.2), b')) end.
Definition the_stream : L Stream := fun cs b => (Return cs.2, (cs, b)).
Definition set_the_stream (f : Stream -> Stream) : L unit := modify_state (fun cs => (cs.1, f cs.2)).

(** [response.dianemo.settle]: the first settlement wins. *)
Definition settle_stream (cost : value) : L unit :=
  s ← the_stream;
  if st_settled s then mret tt
  else
    set_the_stream set_settled ;;
    from_client (or_else (b_settleAttempt (st_metadata s) cost) tt).

(** How a stream's end is announced: an error inside it freezes like a 5xx, and
    one cut short fails without freezing. *)
Definition stream_retryData (c : Client) (r : Request) (error : option (string * value))
    (reason : StreamEndReason) : option RequestRetryData :=
  match error with
  | Some (text, _) =>
      Some (handleBackoff self c (r_retries r)
              (classed false ("Error inside the stream: " +:+ text) false true) (int 0))
  | None =>
      if decide (reason = stream_error) then
        Some (classed false "Stream ended early: error" false false)
      else if decide (reason = stream_timeout) then
        Some (classed false "Stream ended early: timeout" false false)
      else None
  end.

(** The second announcement. *)
Definition finishStream (reason : StreamEndReason) : L unit :=
  finally
    (result ← match h_observer host with
              | Some observer => from_client (or_else observer VUndefined)
              | None => mret VUndefined
              end;
     let error := streamErrorOf result in
     let cost := match error with Some (_, cost) => cost | None => result end in
     s ← the_stream;
     (if negb (is_undefined cost) then settle_stream cost
      else if negb (st_settled s) then
        from_client (runSettle host (st_request s)
                       (Answered {| rs_status := st_status s; rs_streamed := true |}))
      else mret tt) ;;
     c ← from_client get_state;
     from_client (publishRequestDone self finalize
       (getRequestDoneData (st_request s) (stream_retryData c (st_request s) error reason)
          (Some (st_status s)) (Some end_) (c_now c))))
    (from_client trackRequestFinished).

(** A stream ends once, whatever ends it first. *)
Definition end_stream (reason : StreamEndReason) : L unit :=
  s ← the_stream;
  if st_ended s then mret tt
  else
    set_the_stream set_ended ;;
    catch (finishStream reason) (fun _ => mret tt) ;;
    from_client (unregisterStream (r_id (st_request s))).
End streams.
