(* ===== verification/Encryption.v ===== *)
(** * Encryption of stored credentials

    [packages/core/src/utils/encryption.ts]: AES-256-GCM under a key derived
    from the handler's secret and a salt that travels with the text; derived
    keys and salts are cached.  A [Buffer] is the string of its bytes.  What
    [node:crypto] computes is a parameter, with what its manual promises as
    laws; its randomness is a sequence of draws. *)
From S2P Require Import Prelude JsString Utf.
Local Open Scope Z_scope.

(** ** Buffers *)

Definition byte_char (z : Z) : ascii := ascii_of_N (Z.to_N z).

Definition string_of_bytes (l : list Z) : string :=
  foldr (fun z s => String (byte_char z) s) "" l.

(** [Buffer.from(s)]. *)
Definition utf8_bytes (s : string) : string := string_of_bytes (encode_utf8 (units_of s)).

(** [data.subarray(first, last)]. *)
Definition subarray (first last : nat) (data : string) : string :=
  String.substring first (last - first) data.

Definition base64_char (v : Z) : ascii :=
  byte_char (if v <? 26 then 65 + v else if v <? 52 then 71 + v else if v <? 62 then v - 4
             else if v =? 62 then 43 else 47).

(** Both alphabets are read; [-] and [_] are those of URLs. *)
Definition base64_value (c : ascii) : option Z :=
  let x := code c in
  if (65 <=? x) && (x <=? 90) then Some (x - 65)
  else if (97 <=? x) && (x <=? 122) then Some (x - 71)
  else if (48 <=? x) && (x <=? 57) then Some (x + 4)
  else if (x =? 43) || (x =? 45) then Some 62
  else if (x =? 47) || (x =? 95) then Some 63
  else None.

(** [data.toString("base64")]. *)
Fixpoint base64_encode (s : string) : string :=
  match s with
  | EmptyString => ""
  | String a EmptyString =>
      String (base64_char (code a / 4)) (String (base64_char (code a mod 4 * 16)) "==")
  | String a (String b EmptyString) =>
      String (base64_char (code a / 4)) (String (base64_char (code a mod 4 * 16 + code b / 16))
        (String (base64_char (code b mod 16 * 4)) "="))
  | String a (String b (String c s')) =>
      String (base64_char (code a / 4)) (String (base64_char (code a mod 4 * 16 + code b / 16))
        (String (base64_char (code b mod 16 * 4 + code c / 64)) (String (base64_char (code c mod 64))
          (base64_encode s'))))
  end.

(** The sextets up to the padding; other characters are passed over. *)
Fixpoint sextets (s : string) : list Z :=
  match s with
  | EmptyString => []
  | String c s' =>
      if bool_decide (c = "="%char) then []
      else match base64_value c with Some v => v :: sextets s' | None => sextets s' end
  end.

Fixpoint of_sextets (l : list Z) : string :=
  match l with
  | p :: q :: r :: t :: l' =>
      String (byte_char (p * 4 + q / 16)) (String (byte_char (q mod 16 * 16 + r / 4))
        (String (byte_char (r mod 4 * 64 + t)) (of_sextets l')))
  | [p; q; r] => String (byte_char (p * 4 + q / 16)) (String (byte_char (q mod 16 * 16 + r / 4)) "")
  | [p; q] => String (byte_char (p * 4 + q / 16)) ""
  | _ => ""
  end.

(** [Buffer.from(s, "base64")]. *)
Definition base64_decode (s : string) : string := of_sextets (sextets s).

(** ** [node:crypto] *)

Class NodeCrypto := {
  scryptSync : string -> string -> string;  (** a password and a salt *)
  encipher : string -> string -> string -> string * string;
    (** key, iv and plaintext to ciphertext and tag *)
  decipher : string -> string -> string -> string -> option string;
    (** key, iv, tag and ciphertext; none when it throws *)
  randomBytes : nat -> nat -> string;  (** of a draw and a length *)
  encipher_tag key iv text : String.length (encipher key iv text).2 = 16%nat;
  decipher_encipher key iv text :
    decipher key iv (encipher key iv text).2 (encipher key iv text).1 = Some text;
  randomBytes_length draw n : String.length (randomBytes draw n) = n
}.

Definition IV_LENGTH : nat := 12.
Definition SALT_LENGTH : nat := 16.
Definition AUTH_TAG_LENGTH : nat := 16.
Definition MAX_CACHED_KEYS : nat := 1024.

(** The module's two maps, and how many draws were made. *)
Record CryptoState := {
  derivedKeys : list (string * string);
  encryptionSalts : list (string * string);
  draws : nat
}.

Definition no_keys : CryptoState := {| derivedKeys := []; encryptionSalts := []; draws := 0 |}.

Definition with_derived (l : list (string * string)) (st : CryptoState) : CryptoState :=
  {| derivedKeys := l; encryptionSalts := encryptionSalts st; draws := draws st |}.

Section crypto.
Context {Crypto : NodeCrypto}.

Definition cache_key (secret salt : string) : string := base64_encode salt +:+ ":" +:+ secret.

Definition deriveKey (secret salt : string) (st : CryptoState) : string * CryptoState :=
  let cacheKey := cache_key secret salt in
  match omap_get cacheKey (derivedKeys st) with
  | Some cached =>
      (cached, with_derived (omap_set cacheKey cached (omap_delete cacheKey (derivedKeys st))) st)
  | None =>
      let key := scryptSync secret salt in
      let kept :=
        if bool_decide (MAX_CACHED_KEYS <= length (derivedKeys st))%nat then
          match derivedKeys st with
          | (oldest, _) :: _ => omap_delete oldest (derivedKeys st)
          | [] => []
          end
        else derivedKeys st in
      (key, with_derived (omap_set cacheKey key kept) st)
  end.

Definition draw (n : nat) (st : CryptoState) : string * CryptoState :=
  (randomBytes (draws st) n,
   {| derivedKeys := derivedKeys st; encryptionSalts := encryptionSalts st; draws := S (draws st) |}).

Definition saltForEncrypt (secret : string) (st : CryptoState) : string * CryptoState :=
  match omap_get secret (encryptionSalts st) with
  | Some salt => (salt, st)
  | None =>
      let '(salt, st) := draw SALT_LENGTH st in
      let kept := if bool_decide (MAX_CACHED_KEYS <= length (encryptionSalts st))%nat then []
                  else encryptionSalts st in
      (salt, {| derivedKeys := derivedKeys st; encryptionSalts := omap_set secret salt kept;
                draws := draws st |})
  end.

Definition encrypt (plaintext secret : string) (st : CryptoState) : string * CryptoState :=
  let '(salt, st) := saltForEncrypt secret st in
  let '(key, st) := deriveKey secret salt st in
  let '(iv, st) := draw IV_LENGTH st in
  let '(ciphertext, authTag) := encipher key iv plaintext in
  (base64_encode (salt +:+ iv +:+ authTag +:+ ciphertext), st).

(** None when it throws. *)
Definition decrypt (encrypted secret : string) (st : CryptoState) : option string * CryptoState :=
  let data := base64_decode encrypted in
  let salt := subarray 0 SALT_LENGTH data in
  let iv := subarray SALT_LENGTH (SALT_LENGTH + IV_LENGTH) data in
  let authTag := subarray (SALT_LENGTH + IV_LENGTH) (SALT_LENGTH + IV_LENGTH + AUTH_TAG_LENGTH) data in
  let ciphertext := subarray (SALT_LENGTH + IV_LENGTH + AUTH_TAG_LENGTH) (String.length data) data in
  let '(key, st) := deriveKey secret salt st in
  (decipher key iv authTag ciphertext, st).
End crypto.

(** ** Base64 *)

Lemma code_range c : 0 <= code c < 256.
Proof. unfold code. pose proof (N_ascii_bounded c). lia. Qed.

Lemma byte_code c : byte_char (code c) = c.
Proof. unfold byte_char, code. rewrite N2Z.id. apply ascii_N_embedding. Qed.

Lemma byte_char_eq z c : z = code c -> byte_char z = c.
Proof. intros ->. apply byte_code. Qed.

(** Every digit reads back, and none is the padding. *)
Lemma base64_digit v : 0 <= v < 64 -> base64_value (base64_char v) = Some v /\ base64_char v <> "="%char
  /\ base64_char v <> ":"%char.
Proof.
  intros Hv. assert (v ∈ seqZ 0 64) as Hin by (apply elem_of_seqZ; lia).
  clear Hv. revert v Hin. apply list.Forall_forall.
  apply (bool_decide_unpack _). vm_compute. exact I.
Qed.

Lemma sextets_digit v s : 0 <= v < 64 -> sextets (String (base64_char v) s) = v :: sextets s.
Proof.
  intros Hv. destruct (base64_digit v Hv) as (E & Hn & _). cbn [sextets].
  by rewrite bool_decide_false, E.
Qed.

Lemma string_ind3 (P : string -> Prop) :
  P "" -> (forall a, P (String a "")) -> (forall a b, P (String a (String b ""))) ->
  (forall a b c s, P s -> P (String a (String b (String c s)))) -> forall s, P s.
Proof.
  intros H0 H1 H2 H3 s. assert (P s /\ (forall a, P (String a s)) /\ forall a b, P (String a (String b s))) as [H _];
    [|done]. induction s as [|c s (IH0 & IH1 & IH2)]; split_and!; auto.
Qed.

Ltac same_bytes :=
  repeat (apply (f_equal2 String); [apply byte_char_eq; Z.to_euclidean_division_equations; lia|]); done.

Lemma base64_roundtrip s : base64_decode (base64_encode s) = s.
Proof.
  unfold base64_decode. induction s as [|a|a b|a b c s IH] using string_ind3; [done|..]; cbn [base64_encode].
  - pose proof (code_range a). rewrite !sextets_digit by (Z.to_euclidean_division_equations; lia).
    cbn [sextets of_sextets bool_decide]. rewrite bool_decide_true by done. cbn [of_sextets].
    same_bytes.
  - pose proof (code_range a). pose proof (code_range b).
    rewrite !sextets_digit by (Z.to_euclidean_division_equations; lia).
    cbn [sextets]. rewrite bool_decide_true by done. cbn [of_sextets].
    same_bytes.
  - pose proof (code_range a). pose proof (code_range b). pose proof (code_range c).
    rewrite !sextets_digit by (Z.to_euclidean_division_equations; lia). cbn [of_sextets]. rewrite IH.
    same_bytes.
Qed.

Lemma base64_no_colon s : includes_char ":" (base64_encode s) = false.
Proof.
  assert (forall v t, 0 <= v < 64 -> includes_char ":" t = false ->
    includes_char ":" (String (base64_char v) t) = false) as Hc.
  { intros v t Hv Ht. destruct (base64_digit v Hv) as (_ & _ & Hn). cbn [includes_char].
    by rewrite bool_decide_false. }
  induction s as [|a|a b|a b c s IH] using string_ind3; [done|..]; cbn [base64_encode];
    pose proof (code_range a); try pose proof (code_range b); try pose proof (code_range c);
    repeat (apply Hc; [Z.to_euclidean_division_equations; lia|]); done.
Qed.

Lemma colon_split x x' s s' :
  includes_char ":" x = false -> includes_char ":" x' = false ->
  x +:+ ":" +:+ s = x' +:+ ":" +:+ s' -> x = x' /\ s = s'.
Proof.
  revert x'. induction x as [|c x IH]; intros [|c' x'] Hx Hx' E; cbn in *.
  - split; [done|]. by injection E.
  - injection E as <- _. by rewrite bool_decide_true in Hx'.
  - injection E as -> _. by rewrite bool_decide_true in Hx.
  - injection E as <- E. destruct (bool_decide _); [done|]. destruct (IH _ Hx Hx' E) as [<- <-]. done.
Qed.

Lemma cache_key_inj secret salt secret' salt' :
  cache_key secret salt = cache_key secret' salt' -> secret = secret' /\ salt = salt'.
Proof.
  unfold cache_key. intros [E ->]%colon_split; [|apply base64_no_colon..]. split; [done|].
  by rewrite <- (base64_roundtrip salt), <- (base64_roundtrip salt'), E.
Qed.

(** ** What the caches hold *)

Section caches.
Context {Crypto : NodeCrypto}.

(** A cached key is the derived one, a salt has its length, and neither map
    outgrows its bound. *)
Definition sound_caches (st : CryptoState) : Prop :=
  (forall secret salt k, omap_get (cache_key secret salt) (derivedKeys st) = Some k -> k = scryptSync secret salt) /\
  NoDup (derivedKeys st).*1 /\ (length (derivedKeys st) <= MAX_CACHED_KEYS)%nat /\
  (forall secret salt, omap_get secret (encryptionSalts st) = Some salt -> String.length salt = SALT_LENGTH).

Lemma sound_no_keys : sound_caches no_keys.
Proof. split_and!; [done|constructor|unfold MAX_CACHED_KEYS; simpl; lia|done]. Qed.

Lemma omap_set_length_new {V} k (v : V) (l : list (string * V)) :
  omap_get k l = None -> length (omap_set k v l) = S (length l).
Proof. induction l as [|[k' v'] l IH]; [done|]. cbn. case_decide; [done|]. simpl. intros. by rewrite IH. Qed.

Lemma omap_get_delete_none {V} k k' (l : list (string * V)) :
  omap_get k l = None -> omap_get k (omap_delete k' l) = None.
Proof. rewrite omap_get_delete. by case_decide. Qed.

Lemma omap_delete_length {V} k (l : list (string * V)) : (length (omap_delete k l) <= length l)%nat.
Proof. induction l as [|[k' v'] l IH]; [done|]. cbn. case_decide; simpl; lia. Qed.

Lemma omap_delete_shorter {V} k (v : V) (l : list (string * V)) :
  omap_get k l = Some v -> (S (length (omap_delete k l)) <= length l)%nat.
Proof.
  induction l as [|[k' v'] l IH]; [done|]. cbn. case_decide.
  - intros _. pose proof (omap_delete_length k l). simpl. lia.
  - intros Hk. specialize (IH Hk). simpl. lia.
Qed.

(** Caching a derived key keeps the cache sound, if room was made for it. *)
Lemma caches_set secret salt kept st : sound_caches st ->
  omap_get (cache_key secret salt) kept = None -> (length kept < MAX_CACHED_KEYS)%nat -> NoDup kept.*1 ->
  (forall k v, omap_get k kept = Some v -> omap_get k (derivedKeys st) = Some v) ->
  sound_caches (with_derived (omap_set (cache_key secret salt) (scryptSync secret salt) kept) st).
Proof.
  intros (Hk & _ & _ & Hs) Hnone Hlen Hnd Hsub. split_and!; cbn [derivedKeys with_derived encryptionSalts]; [..|exact Hs].
  - intros secret' salt' k. rewrite omap_get_set. case_decide as E.
    + apply cache_key_inj in E as [-> ->]. by intros [= <-].
    + intros Hg. by apply Hk, Hsub.
  - by apply NoDup_omap_set.
  - rewrite omap_set_length_new by done. lia.
Qed.

Lemma deriveKey_spec secret salt st : sound_caches st ->
  (deriveKey secret salt st).1 = scryptSync secret salt /\ sound_caches (deriveKey secret salt st).2.
Proof.
  intros Hst. pose proof Hst as (Hk & Hnd & Hlen & Hs). unfold deriveKey.
  set (ck := cache_key secret salt). destruct (omap_get ck (derivedKeys st)) as [c|] eqn:E.
  - rewrite (Hk _ _ _ E). split; [done|]. apply caches_set; [done|..].
    + rewrite omap_get_delete. by rewrite decide_True.
    + pose proof (omap_delete_shorter _ _ _ E). lia.
    + by apply NoDup_omap_delete.
    + intros k v. rewrite omap_get_delete. by case_decide.
  - split; [done|]. apply caches_set; [done|..].
    + case_bool_decide; [|done]. destruct (derivedKeys st) as [|[o v] l]; [done|]. by apply omap_get_delete_none.
    + case_bool_decide as Hfull; [|unfold MAX_CACHED_KEYS in *; lia].
      destruct (derivedKeys st) as [|[o v] l]; [unfold MAX_CACHED_KEYS; simpl; lia|].
      pose proof (omap_delete_shorter o v ((o, v) :: l)) as Hd. cbn [omap_get] in Hd. rewrite decide_True in Hd by done.
      specialize (Hd eq_refl). simpl in *. lia.
    + case_bool_decide; [|done]. destruct (derivedKeys st) as [|[o v] l]; [constructor|]. by apply NoDup_omap_delete.
    + intros k v. case_bool_decide; [|done]. destruct (derivedKeys st) as [|[o v'] l]; [done|].
      rewrite omap_get_delete. by case_decide.
Qed.

Lemma sound_draw n st : sound_caches st -> sound_caches (draw n st).2.
Proof. by intros (H1 & H2 & H3 & H4). Qed.

Lemma saltForEncrypt_spec secret st : sound_caches st ->
  String.length (saltForEncrypt secret st).1 = SALT_LENGTH /\ sound_caches (saltForEncrypt secret st).2.
Proof.
  intros Hst. pose proof Hst as (Hk & Hnd & Hlen & Hs). unfold saltForEncrypt.
  destruct (omap_get secret (encryptionSalts st)) as [salt|] eqn:E; [by split; [apply (Hs secret)|]|].
  cbn [draw fst snd]. split; [apply randomBytes_length|]. split_and!; [done..|].
  intros secret' salt'. cbn [encryptionSalts]. rewrite omap_get_set. case_decide.
  - intros [= <-]. apply randomBytes_length.
  - cbn [encryptionSalts]. case_bool_decide; [done|]. apply Hs.
Qed.

Lemma substring_app x y : String.substring 0 (String.length x) (x +:+ y) = x.
Proof. induction x as [|c x IH]; [by destruct y|].
  change (String c x +:+ y) with (String c (x +:+ y)). simpl. f_equal. exact IH. Qed.

Lemma substring_skip n m x y : String.length x = n -> String.substring n m (x +:+ y) = String.substring 0 m y.
Proof. intros <-. induction x as [|c x IH]; [done|].
  change (String c x +:+ y) with (String c (x +:+ y)). exact IH. Qed.

Lemma substring_all x : String.substring 0 (String.length x) x = x.
Proof. induction x as [|c x IH]; [done|]. simpl. f_equal. exact IH. Qed.

Lemma substring_prefix m x y : String.length x = m -> String.substring 0 m (x +:+ y) = x.
Proof. intros <-. apply substring_app. Qed.

Lemma substring_part n m p x y : String.length p = n -> String.length x = m ->
  String.substring n m (p +:+ (x +:+ y)) = x.
Proof. intros Hp <-. rewrite substring_skip by done. apply substring_app. Qed.

Lemma substring_rest n p x : String.length p = n ->
  String.substring n (String.length (p +:+ x) - n) (p +:+ x) = x.
Proof.
  intros <-. rewrite substring_skip by done. rewrite string_length_app.
  replace (String.length p + String.length x - String.length p)%nat with (String.length x) by lia. apply substring_all.
Qed.

(** What one sound cache sealed, any other opens. *)
Lemma encrypt_opens plaintext secret st st' : sound_caches st -> sound_caches st' ->
  (decrypt (encrypt plaintext secret st).1 secret st').1 = Some plaintext.
Proof.
  intros Hst Hst'. unfold encrypt. pose proof (saltForEncrypt_spec secret st Hst) as [Hsalt Hst1].
  destruct (saltForEncrypt secret st) as [salt st1]. cbn [fst snd] in *.
  pose proof (deriveKey_spec secret salt st1 Hst1) as [Hkey Hst2].
  destruct (deriveKey secret salt st1) as [key st2]. cbn [fst snd] in *. subst key.
  cbn [draw]. set (iv := randomBytes _ _). assert (String.length iv = IV_LENGTH) as Hiv by apply randomBytes_length.
  pose proof (encipher_tag (scryptSync secret salt) iv plaintext) as Htag.
  pose proof (decipher_encipher (scryptSync secret salt) iv plaintext) as Hopen.
  destruct (encipher (scryptSync secret salt) iv plaintext) as [ct tag]. cbn [fst snd] in *.
  unfold decrypt. rewrite base64_roundtrip. unfold subarray.
  change (SALT_LENGTH - 0)%nat with SALT_LENGTH. rewrite (substring_prefix SALT_LENGTH salt) by done.
  pose proof (deriveKey_spec secret salt st' Hst') as [Hkey' _].
  destruct (deriveKey secret salt st') as [key' st3]. cbn [fst snd] in *. subst key'.
  rewrite (substring_part SALT_LENGTH _ salt iv) by (done || lia).
  assert (String.length (salt +:+ iv) = (SALT_LENGTH + IV_LENGTH)%nat) as H2 by (rewrite string_length_app; lia).
  assert (String.length ((salt +:+ iv) +:+ tag) = (SALT_LENGTH + IV_LENGTH + AUTH_TAG_LENGTH)%nat) as H3
    by (rewrite !string_length_app; unfold AUTH_TAG_LENGTH; lia).
  rewrite (string_app_assoc salt iv), (substring_part (SALT_LENGTH + IV_LENGTH) _ (salt +:+ iv) tag)
    by (done || (unfold AUTH_TAG_LENGTH; lia)).
  by rewrite (string_app_assoc (salt +:+ iv)), substring_rest.
Qed.

Lemma encrypt_sound plaintext secret st : sound_caches st -> sound_caches (encrypt plaintext secret st).2.
Proof.
  intros Hst. unfold encrypt. pose proof (saltForEncrypt_spec secret st Hst) as [_ Hst1].
  destruct (saltForEncrypt secret st) as [salt st1]. cbn [fst snd] in *.
  pose proof (deriveKey_spec secret salt st1 Hst1) as [_ Hst2].
  destruct (deriveKey secret salt st1) as [key st2]. cbn [fst snd] in *.
  pose proof (sound_draw IV_LENGTH st2 Hst2) as Hst3. destruct (draw IV_LENGTH st2) as [iv st3].
  by destruct (encipher key iv plaintext).
Qed.

Lemma decrypt_sound text secret st : sound_caches st -> sound_caches (decrypt text secret st).2.
Proof.
  intros Hst. unfold decrypt.
  pose proof (deriveKey_spec secret (subarray 0 SALT_LENGTH (base64_decode text)) st Hst) as [_ H].
  by destruct (deriveKey _ _ _).
Qed.
End caches.
