(* ===== verification/Authenticate.v ===== *)
(** * Credentials of a client

    [packages/core/src/client/methods/authenticate.ts], and the methods of
    [client/index.ts] that store, track and purge OAuth tokens.  A token is
    cached in the backend under the client that owns the authentication, is
    renewed a margin before it expires by one caller per process and, as far
    as a lock can tell, one replica; the rest wait for what it writes.

    What happens outside is a [TokenHost]: the vendor's token endpoint, the
    timer a wait sleeps on, another call's refresh that this one joins, and the
    caller's abort signal.  Each is a program, so others act while it runs.
    The error the endpoint's call rejects with is one already sanitised. *)
From S2P Require Import Prelude JsNumber JsString Utf Json Value Timers Shared MemoryStore Queue Backend.
From S2P Require Import Requests Client Encryption.
Local Open Scope num_scope.

(** ** Values a token response may hold *)

(** [String(v)]. *)
Fixpoint value_text (v : value) : string :=
  match v with
  | VUndefined => "undefined"
  | VNull => "null"
  | VBool b => if b then "true" else "false"
  | VNum n => num_to_string n
  | VStr s => s
  | VArr l => join "," (map (fun x => match x with VUndefined | VNull => "" | _ => value_text x end) l)
  | VObj _ _ => "[object Object]"
  | VFun text => text
  end.

(** [Number(v)]. *)
Definition value_number (v : value) : num :=
  match v with
  | VUndefined | VObj _ _ | VFun _ => NaN
  | VNull => int 0
  | VBool b => if b then int 1 else int 0
  | VNum n => n
  | VStr s => Number s
  | VArr _ => Number (value_text v)
  end.

Definition value_truthy (v : value) : bool :=
  match v with
  | VUndefined | VNull => false
  | VBool b => b
  | VNum n => negb (isNaN n || (n =? int 0))
  | VStr s => negb (bool_decide (s = ""))
  | VArr _ | VObj _ _ | VFun _ => true
  end.

(** [v.name], for a name no prototype has. *)
Definition value_field (v : value) (name : string) : value :=
  match v with VObj _ l => default VUndefined (omap_get name l) | _ => VUndefined end.

Definition value_keys (v : value) : list string :=
  match v with VObj _ l => l.*1 | _ => [] end.

(** ** Authentication data *)

Record RefreshFields := {
  rf_url : string;
  rf_dataLocation : string;
  rf_data : list (string * string);
  rf_customHeaders : list (string * string);
  rf_useBasicAuth : bool
}.

Record CustomHeader := {
  hd_customPrefix : option string;
  hd_excludePrefix : bool;
  hd_customHeaderName : option string
}.

Inductive token_body := FormBody (s : string) | JsonBody (data : list (string * string)).

(** The request sent to a token endpoint. *)
Record TokenCall := {
  tc_method : string;
  tc_url : string;
  tc_headers : list (string * string);
  tc_data : option token_body;
  tc_timeout : num
}.

(** ** State *)

(** The module's maps.  Clients are told apart by a number, their identity;
    [z_lines] says which line of rebuilds each is on. *)
Record AuthState := {
  z_now : num;  (** what [Date.now()] reads *)
  z_inFlight : list string;  (** the keys of [inFlightRefreshes] *)
  z_lines : list (nat * nat);
  z_retired : list nat;  (** the lines that are retired *)
  z_fresh : nat;  (** the next line's number *)
  z_crypto : CryptoState
}.

Definition set_inFlight_keys (x : list string) (s : AuthState) : AuthState :=
  {| z_now := z_now s; z_inFlight := x; z_lines := z_lines s; z_retired := z_retired s;
     z_fresh := z_fresh s; z_crypto := z_crypto s |}.
Definition set_lines (lines : list (nat * nat)) (retired : list nat) (fresh : nat) (s : AuthState) : AuthState :=
  {| z_now := z_now s; z_inFlight := z_inFlight s; z_lines := lines; z_retired := retired;
     z_fresh := fresh; z_crypto := z_crypto s |}.
Definition set_crypto (x : CryptoState) (s : AuthState) : AuthState :=
  {| z_now := z_now s; z_inFlight := z_inFlight s; z_lines := z_lines s; z_retired := z_retired s;
     z_fresh := z_fresh s; z_crypto := x |}.

(** ** Lines of rebuilds *)

Definition lineOf (client : nat) (s : AuthState) : nat * AuthState :=
  match omap_get client (z_lines s) with
  | Some line => (line, s)
  | None => (z_fresh s, set_lines (omap_set client (z_fresh s) (z_lines s)) (z_retired s) (S (z_fresh s)) s)
  end.

Definition retireCredentialWrites (client : nat) (s : AuthState) : AuthState :=
  let '(line, s) := lineOf client s in set_lines (z_lines s) (oset_add line (z_retired s)) (z_fresh s) s.

Definition isCredentialWriteRetired (client : nat) (s : AuthState) : bool :=
  match omap_get client (z_lines s) with Some line => bool_decide (line ∈ z_retired s) | None => false end.

Definition inheritCredentialLine (previous next : nat) (s : AuthState) : AuthState :=
  let '(line, s) := lineOf previous s in set_lines (omap_set next line (z_lines s)) (z_retired s) (z_fresh s) s.

(** ** Renewal margins *)

Definition RENEWAL_MARGIN_MS : num := int 300000.
Definition MAX_RENEWAL_FRACTION : num := int 1 / int 2.
Definition MIN_RENEWAL_MARGIN_MS : num := int 2000.
Definition REFRESH_LOCK_TTL_MS : num := int 30000.
Definition DEFAULT_TOKEN_LIFETIME_SECONDS : num := int 3600.
Definition MAX_TOKEN_LIFETIME_SECONDS : num := int (60 * 60 * 24 * 365 * 10).

Definition renewalMargin (lifetimeMs : option num) : num :=
  match lifetimeMs with
  | Some l =>
      if negb (isFinite l) || (l <=? int 0) then RENEWAL_MARGIN_MS
      else fmax MIN_RENEWAL_MARGIN_MS (fmin RENEWAL_MARGIN_MS (l * MAX_RENEWAL_FRACTION))
  | None => RENEWAL_MARGIN_MS
  end.

Definition refreshTimeout (configured : option num) : num :=
  match configured with
  | Some t => if (t >? int 0) && (t <? REFRESH_LOCK_TTL_MS) then t else REFRESH_LOCK_TTL_MS
  | None => REFRESH_LOCK_TTL_MS
  end.

(** ** URL-encoded forms *)

Definition form_safe (c : ascii) : bool :=
  let x := code c in
  ((65 <=? x) && (x <=? 90) || (97 <=? x) && (x <=? 122) || (48 <=? x) && (x <=? 57)
   || (x =? 42) || (x =? 45) || (x =? 46) || (x =? 95))%Z.

Definition upper_hex (d : Z) : ascii := byte_char (if (d <? 10)%Z then 48 + d else 55 + d).

Fixpoint form_bytes (s : string) : string :=
  match s with
  | EmptyString => ""
  | String c s' =>
      if bool_decide (c = " "%char) then String "+" (form_bytes s')
      else if form_safe c then String c (form_bytes s')
      else String "%" (String (upper_hex (code c / 16)) (String (upper_hex (code c mod 16)) (form_bytes s')))
  end.

(** [params.toString()]. *)
Definition form_encode (data : list (string * string)) : string :=
  join "&" (map (fun kv => form_bytes (utf8_bytes kv.1) +:+ "=" +:+ form_bytes (utf8_bytes kv.2)) data).

(** ** What a client is given, and what it meets *)

(** An interceptor's config is a copy of the fields; it returns fields and, if
    it kept one, the interceptor of responses. *)
Record RefreshConfig (B : Type) := {
  rc_fields : RefreshFields;
  rc_requestInterceptor :
    option (RefreshFields -> Prog AuthState B (RefreshFields * option (value -> Prog AuthState B value)));
  rc_responseInterceptor : option (value -> Prog AuthState B value)
}.
Arguments rc_fields {B} r.
Arguments rc_requestInterceptor {B} r.
Arguments rc_responseInterceptor {B} r.

Record AuthDataOAuth2 (B : Type) := {
  oa_clientId : string;
  oa_clientSecret : string;
  oa_refreshConfig : RefreshConfig B;
  oa_grantRefreshConfig : option (RefreshConfig B)
}.
Arguments oa_clientId {B} a.
Arguments oa_clientSecret {B} a.
Arguments oa_refreshConfig {B} a.
Arguments oa_grantRefreshConfig {B} a.

Inductive AuthData (B : Type) :=
  | AuthDataToken (h : CustomHeader) (token : string) (encodeBase64 : bool)
  | AuthDataBasic (h : CustomHeader) (username password : string)
  | AuthOAuth2 (h : CustomHeader) (a : AuthDataOAuth2 B).
Arguments AuthDataToken {B} h token encodeBase64.
Arguments AuthDataBasic {B} h username password.
Arguments AuthOAuth2 {B} h a.

(** What the constructor fixes of a client, as far as credentials go. *)
Record AuthClient (B : Type) := {
  ac_object : nat;
  ac_instanceId : string;
  ac_name : string;
  ac_handlerNamespace : string;
  ac_authOwnerName : option string;
  ac_key : string;
  ac_authData : option (AuthData B);
  ac_timeout : option num
}.
Arguments ac_object {B} a.
Arguments ac_instanceId {B} a.
Arguments ac_name {B} a.
Arguments ac_handlerNamespace {B} a.
Arguments ac_authOwnerName {B} a.
Arguments ac_key {B} a.
Arguments ac_authData {B} a.
Arguments ac_timeout {B} a.

Record TokenHost (B : Type) := {
  th_post : TokenCall -> Prog AuthState B value;
  th_sleep : num -> Prog AuthState B unit;
  th_join : string -> Prog AuthState B string;
  th_listens : bool;  (** whether the signal can be listened to *)
  th_aborted : Prog AuthState B bool;  (** whether it aborts before the work it races settles *)
}.
Arguments th_post {B} t call.
Arguments th_sleep {B} t ms.
Arguments th_join {B} t key.
Arguments th_listens {B} t.
Arguments th_aborted {B} t.

Definition auth_namespace {B} (self : AuthClient B) : string :=
  ac_handlerNamespace self +:+ ":" +:+ underscored (default (ac_name self) (ac_authOwnerName self)).

(** [grantId ? ... : ...]. *)
Definition truthy (s : option string) : option string :=
  match s with Some g => if bool_decide (g = "") then None else Some g | None => None end.

Definition oauth_key (ns : string) (grantId : option string) : string :=
  ns +:+ ":oauth2" +:+ match truthy grantId with Some g => ":" +:+ g | None => "" end.

Section authenticate.
Context {Crypto : NodeCrypto} {B : Type} `{DianemoBackend B}.
Variable self : AuthClient B.
Variable host : TokenHost B.

Local Notation P := (Prog AuthState B).
Local Notation ns := (auth_namespace self).
Local Notation retired := (isCredentialWriteRetired (ac_object self)).

Definition request {A} (c : call A) : P A := fun s b => let '(r, b') := serve c b in (r, (s, b')).

(** A rejection answered with a value. *)
Definition answered_or {A} (m : P A) (a : A) : P A := catch m (fun _ => mret a).

(** How a program ended. *)
Definition settled {A} (m : P A) : P (outcome A) := fun s b =>
  let '(r, sb) := m s b in (Return r, sb).
Definition deliver {A} (r : outcome A) : P A :=
  match r with Return a => mret a | Raise e => raise e end.

Definition encrypt_ (plaintext : string) : P string := fun s b =>
  let '(text, st) := encrypt plaintext (ac_key self) (z_crypto s) in (Return text, (set_crypto st s, b)).

(** [decryptCached]: an unreadable credential is an absent one. *)
Definition decryptCached (v : option string) : P (option string) := fun s b =>
  match truthy v with
  | None => (Return None, (s, b))
  | Some text =>
      let '(plain, st) := decrypt text (ac_key self) (z_crypto s) in (Return plain, (set_crypto st s, b))
  end.

(** *** Cached tokens *)

Definition getExistingToken (grantId : option string) : P (option string) :=
  existing ← request (CHgetall (oauth_key ns grantId));
  match truthy (existing !! "expiresAt"), truthy (existing !! "accessToken") with
  | Some expires, Some _ =>
      let expiresAt := Number expires in
      if negb (isFinite expiresAt) then mret None
      else
        let issuedAt := match existing !! "issuedAt" with Some i => Number i | None => NaN end in
        let lifetime := if isFinite issuedAt then Some (expiresAt - issuedAt) else None in
        s ← get_state;
        if expiresAt - z_now s <=? renewalMargin lifetime then mret None
        else decryptCached (existing !! "accessToken")
  | _, _ => mret None
  end.

Definition getUnexpiredToken (grantId : option string) : P (option string) :=
  existing ← request (CHgetall (oauth_key ns grantId));
  let expiresAt := match existing !! "expiresAt" with Some e => Number e | None => NaN end in
  match truthy (existing !! "accessToken") with
  | None => mret None
  | Some _ =>
      if negb (isFinite expiresAt) then mret None
      else
        s ← get_state;
        if expiresAt <=? z_now s then mret None else decryptCached (existing !! "accessToken")
  end.

(** *** The call to the token endpoint *)

Definition getRefreshConfig (a : AuthDataOAuth2 B) (grantId : option string) : P (RefreshConfig B) :=
  match truthy grantId with
  | None => mret (oa_refreshConfig a)
  | Some _ =>
      match oa_grantRefreshConfig a with
      | Some c => mret c
      | None => raise (JsError (ConfigurationError "missing_grant_refresh_config"
                  "No grantRefreshConfig provided for an OAuth2 grant-type client"))
      end
  end.

(** [structuredClone], which throws on an object that holds a function. *)
Definition clone_config (c : RefreshConfig B) : P RefreshFields :=
  match rc_requestInterceptor c, rc_responseInterceptor c with
  | None, None => mret (rc_fields c)
  | _, _ => raise (ForeignError "DataCloneError")
  end.

Definition fetchGrantRefreshToken (grantId : string) : P string :=
  grantData ← request (CHgetall (ns +:+ ":oauth2:" +:+ grantId));
  match truthy (grantData !! "refreshToken") with
  | None => raise (GrantRefreshTokenMissingError grantId)
  | Some _ =>
      token ← decryptCached (grantData !! "refreshToken");
      match token with Some t => mret t | None => raise (GrantRefreshTokenMissingError grantId) end
  end.

Definition fetchClientRefreshToken : P (option string) :=
  data ← request (CHgetall (ns +:+ ":oauth2"));
  decryptCached (data !! "refreshToken").

(** One placeholder. *)
Definition fill_in (a : AuthDataOAuth2 B) (grantId : option string) (v : string) : P string :=
  if bool_decide (v = "{{clientId}}") then mret (oa_clientId a)
  else if bool_decide (v = "{{clientSecret}}") then mret (oa_clientSecret a)
  else if bool_decide (v = "{{refreshToken}}") then
    match truthy grantId with
    | Some g => fetchGrantRefreshToken g
    | None => token ← fetchClientRefreshToken; mret (default v token)
    end
  else mret v.

Fixpoint fill_data (a : AuthDataOAuth2 B) (grantId : option string) (data : list (string * string))
    : P (list (string * string)) :=
  match data with
  | [] => mret []
  | (k, v) :: data' => v' ← fill_in a grantId v; rest ← fill_data a grantId data'; mret ((k, v') :: rest)
  end.

Definition generateConfig (a : AuthDataOAuth2 B) (c : RefreshFields) (grantId : option string)
    (timeout : num) : P TokenCall :=
  let headers := omap_set "Accept" "application/json" (rf_customHeaders c) in
  let headers :=
    if rf_useBasicAuth c then
      omap_set "Authorization"
        ("Basic " +:+ base64_encode (utf8_bytes (oa_clientId a +:+ ":" +:+ oa_clientSecret a))) headers
    else headers in
  data ← fill_data a grantId (rf_data c);
  let sent url headers body :=
    mret {| tc_method := "POST"; tc_url := url; tc_headers := headers; tc_data := body;
            tc_timeout := timeout |} in
  if bool_decide (rf_dataLocation c = "urlEncodedForm") then
    sent (rf_url c) (omap_set "Content-Type" "application/x-www-form-urlencoded" headers)
      (Some (FormBody (form_encode data)))
  else if bool_decide (rf_dataLocation c = "urlQuery") then
    sent (rf_url c +:+ "?" +:+ form_encode data) headers None
  else if bool_decide (rf_dataLocation c = "jsonBody") then
    sent (rf_url c) (omap_set "Content-Type" "application/json" headers) (Some (JsonBody data))
  else sent (rf_url c) headers None.

Definition handleRefreshMethod (a : AuthDataOAuth2 B) (grantId : option string) : P value :=
  baseConfig ← getRefreshConfig a grantId;
  refreshConfig ← match rc_requestInterceptor baseConfig with
                  | Some intercept => copy ← clone_config baseConfig; intercept copy
                  | None => mret (rc_fields baseConfig, rc_responseInterceptor baseConfig)
                  end;
  config ← generateConfig a refreshConfig.1 grantId (refreshTimeout (ac_timeout self));
  data ← th_post host config;
  match refreshConfig.2 with Some intercept => intercept data | None => mret data end.

(** *** What is stored *)

Definition trackGrantId (grantId : string) : P unit :=
  s ← get_state;
  if bool_decide (grantId = "") || retired s then mret tt
  else
    let key := ns +:+ ":grants" in
    request (CSadd key grantId) ;;
    answered_or (request (CBatch [BExpire key DEFAULT_REFRESH_TOKEN_TTL_SECONDS])) tt.

(** [expires_in] as it is believed. *)
Definition believed_lifetime (v : value) : num :=
  let raw := value_number v in
  if isFinite raw && (raw >? int 0) && (raw <=? MAX_TOKEN_LIFETIME_SECONDS) then raw
  else DEFAULT_TOKEN_LIFETIME_SECONDS.

(** A refresh token's lifetime, when the response states one. *)
Definition stated_lifetime (v : value) : option num :=
  let raw := value_number v in if isFinite raw && (raw >? int 0) then Some raw else None.

(** A token in a response, when it is one. *)
Definition encrypt_value (v : value) : P string :=
  match v with VStr s => encrypt_ s | _ => raise (ForeignError "ERR_INVALID_ARG_TYPE") end.

Definition unusable_response (v : value) : client_error :=
  JsError (ConfigurationError "invalid_token_response"
    ("Client " +:+ ac_name self +:+ " received a token response with no usable access_token. Received keys: "
     +:+ stringify (JArr (map JStr (value_keys v))) +:+ ".")).

Definition saveOAuthData (response : value) (grantId : option string) : P unit :=
  match response with
  | VUndefined | VNull => raise (ForeignError "TypeError")
  | _ =>
      let key := oauth_key ns grantId in
      s ← get_state;
      let now := z_now s in
      match value_field response "access_token" with
      | VStr access_token =>
          if bool_decide (access_token = "") then raise (unusable_response response)
          else
            let expires_in := believed_lifetime (value_field response "expires_in") in
            existing ← request (CHgetall key);
            let refresh := value_field response "refresh_token" in
            let hasRefreshToken :=
              value_truthy refresh || bool_decide (is_Some (truthy (existing !! "refreshToken"))) in
            let statedRefreshTtl := stated_lifetime (value_field response "refresh_token_expires_in") in
            let rotated := value_truthy refresh && bool_decide (statedRefreshTtl = None) in
            let storedRefreshTtl :=
              if rotated then None
              else (fun t => (Number t - now) / int 1000) <$> truthy (existing !! "refreshTokenExpiresAt") in
            let refreshTtlSeconds :=
              match statedRefreshTtl with
              | Some t => Some t
              | None => match storedRefreshTtl with
                        | Some t => if t >? int 0 then Some t else None
                        | None => None
                        end
              end in
            s ← get_state;
            if retired s then mret tt
            else
              accessText ← encrypt_ access_token;
              refreshField ← (if value_truthy refresh
                              then text ← encrypt_value refresh; mret [("refreshToken", FStr text)]
                              else mret []);
              request (CHset key
                ([("accessToken", FStr accessText); ("expiresAt", FNum (now + expires_in * int 1000));
                  ("issuedAt", FNum now); ("tokenType", FStr (value_text (value_field response "token_type")))]
                 ++ refreshField
                 ++ match statedRefreshTtl with
                    | Some t => [("refreshTokenExpiresAt", FNum (now + t * int 1000))]
                    | None => if rotated then [("refreshTokenExpiresAt", FStr "")] else []
                    end)
                (Some (credentialTtlSeconds expires_in hasRefreshToken refreshTtlSeconds))) ;;
              match truthy grantId with
              | Some g => s ← get_state; if retired s then mret tt else trackGrantId g
              | None => mret tt
              end
      | _ => raise (unusable_response response)
      end
  end.

(** *** The lock *)

(** Polls until a token is there, the lock is had or the deadline has passed;
    [polls] bounds the sleeps of a clock that moves ([wait_ends]). *)
Fixpoint poll_peer (polls : nat) (deadline : num) (grantId : option string) (tryLock : P bool)
    : P (option string * bool) :=
  match polls with
  | O => mret (None, false)
  | S polls' =>
      s ← get_state;
      if z_now s <? deadline then
        th_sleep host (int 100) ;;
        token ← getExistingToken grantId;
        match truthy token with
        | Some t => mret (Some t, false)
        | None =>
            locked ← tryLock;
            if (locked : bool) then mret (None, true) else poll_peer polls' deadline grantId tryLock
        end
      else mret (None, false)
  end.

Definition MAX_POLLS : nat := 301.

Definition waitForPeerRefresh (grantId : option string) (tryLock : P bool) : P (option string * bool) :=
  s ← get_state; poll_peer MAX_POLLS (z_now s + REFRESH_LOCK_TTL_MS) grantId tryLock.

(** The work under the lock. *)
Definition refresh_now (a : AuthDataOAuth2 B) (grantId : option string) (failedKey : string) (waited : bool)
    : P string :=
  fresh ← getExistingToken grantId;
  match truthy fresh with
  | Some t => mret t
  | None =>
      failed ← (if waited then answered_or (request (CGet failedKey)) None else mret None);
      unexpired ← (if bool_decide (is_Some (truthy failed)) then getUnexpiredToken grantId else mret None);
      match unexpired with
      | Some t => mret t
      | None =>
          newToken ← handleRefreshMethod a grantId;
          saveOAuthData newToken grantId ;;
          mret (match value_field newToken "access_token" with VStr t => t | _ => "" end)
      end
  end.

Definition refreshWithLock (a : AuthDataOAuth2 B) (cacheKey : string) (grantId : option string) : P string :=
  let lockKey := cacheKey +:+ ":refreshLock" in
  let failedKey := lockKey +:+ ":failed" in
  s ← get_state;
  let lockToken := ac_instanceId self +:+ ":" +:+ num_to_string (z_now s) in
  let tryLock := answered_or (request (CAcquireLock lockKey lockToken REFRESH_LOCK_TTL_MS)) false in
  first ← tryLock;
  outcome ← (if (first : bool) then mret (None, true) else waitForPeerRefresh grantId tryLock);
  match outcome with
  | (Some t, _) => mret t
  | (None, holdsLock) =>
      finally
        (catch (refresh_now a grantId failedKey (negb first))
           (fun e =>
              pwhen holdsLock
                (answered_or (request (CSet failedKey "1" (Some (REFRESH_LOCK_TTL_MS / int 1000)))) tt) ;;
              raise e))
        (pwhen holdsLock
           (answered_or (request (CReleaseLock lockKey lockToken)) false ;; mret tt))
  end.

(** *** Coalescing, and a signal *)

(** The refresh in flight for the key, or a new one. *)
Definition coalesced (a : AuthDataOAuth2 B) (cacheKey coalesceKey : string) (grantId : option string) : P string :=
  s ← get_state;
  if bool_decide (coalesceKey ∈ z_inFlight s) then th_join host coalesceKey
  else
    modify_state (fun s => set_inFlight_keys (oset_add coalesceKey (z_inFlight s)) s) ;;
    finally (refreshWithLock a cacheKey grantId)
      (modify_state (fun s => set_inFlight_keys (oset_delete coalesceKey (z_inFlight s)) s)).

(** An abort ends the caller's wait; what was started has run. *)
Definition unlessAborted (requestId : string) (work : outcome string) : P string :=
  if th_listens host then
    aborted ← th_aborted host;
    if (aborted : bool) then raise (RequestAbortedError requestId) else deliver work
  else deliver work.

Definition handleOAuth2 (a : AuthDataOAuth2 B) (requestId : string) (grantId : option string) : P string :=
  existingToken ← getExistingToken grantId;
  match truthy existingToken with
  | Some t => mret t
  | None =>
      let cacheKey := oauth_key ns grantId in
      let coalesceKey := ac_instanceId self +:+ "|" +:+ cacheKey in
      work ← settled (coalesced a cacheKey coalesceKey grantId);
      result ← settled (unlessAborted requestId work);
      match result with
      | Return t => mret t
      | Raise (RequestAbortedError r) => raise (RequestAbortedError r)
      | Raise e =>
          unexpired ← getUnexpiredToken grantId;
          match unexpired with Some t => mret t | None => raise e end
      end
  end.

(** *** The header *)

Definition handleToken (token : string) (encodeBase64 : bool) : string :=
  if encodeBase64 then base64_encode (utf8_bytes token) else token.
Definition handleBasic (username password : string) : string :=
  base64_encode (utf8_bytes (username +:+ ":" +:+ password)).

Definition auth_header (h : CustomHeader) (kind v : string) : list (string * value) :=
  let name := default "Authorization" (truthy (hd_customHeaderName h)) in
  let prefix := default kind (truthy (hd_customPrefix h)) in
  [(name, VStr ((if hd_excludePrefix h then "" else prefix +:+ " ") +:+ v))].

Definition authenticate (requestId : string) (grantId : option string) : P (option (list (string * value))) :=
  match ac_authData self with
  | None => mret None
  | Some (AuthDataToken h token encodeBase64) => mret (Some (auth_header h "Bearer" (handleToken token encodeBase64)))
  | Some (AuthDataBasic h username password) => mret (Some (auth_header h "Basic" (handleBasic username password)))
  | Some (AuthOAuth2 h a) => t ← handleOAuth2 a requestId grantId; mret (Some (auth_header h "Bearer" t))
  end.

(** *** Seeding and removal: [client/index.ts] *)

Definition purge_keys (grantIds : list string) : list string :=
  (ns +:+ ":oauth2") :: map (fun g => ns +:+ ":oauth2:" +:+ g) grantIds ++ [ns +:+ ":grants"].

Definition purgeCredentials : P unit :=
  grantIds ← request (CSmembers (ns +:+ ":grants"));
  pforeach (purge_keys grantIds) (fun key => answered_or (request (CDel [key])) tt).

Record SetGrantTokensData := {
  sg_accessToken : string;
  sg_expiresAt : num;
  sg_tokenType : option string;
  sg_refreshToken : string;
  sg_refreshTokenExpiresAt : num
}.

Definition client_removed (message : string) : client_error := ClientUnavailableError "client_removed" message.

Definition setGrantTokens (grantId : string) (data : SetGrantTokensData) : P unit :=
  match ac_authData self with
  | Some (AuthOAuth2 _ _) =>
      s ← get_state;
      if retired s then
        raise (client_removed ("Client " +:+ dq (ac_name self) +:+ " has been removed, so grant tokens for "
                 +:+ dq grantId +:+ " were not stored."))
      else
        let key := ns +:+ ":oauth2:" +:+ grantId in
        let now := z_now s in
        let ttlSeconds :=
          credentialTtlSeconds ((sg_expiresAt data - now) / int 1000) true
            (if isNaN (sg_refreshTokenExpiresAt data) || (sg_refreshTokenExpiresAt data =? int 0) then None
             else Some ((sg_refreshTokenExpiresAt data - now) / int 1000)) in
        accessText ← encrypt_ (sg_accessToken data);
        refreshText ← encrypt_ (sg_refreshToken data);
        request (CHset key
          [("accessToken", FStr accessText); ("expiresAt", FNum (sg_expiresAt data)); ("issuedAt", FNum now);
           ("tokenType", FStr (default "Bearer" (truthy (sg_tokenType data))));
           ("refreshToken", FStr refreshText);
           ("refreshTokenExpiresAt", FNum (sg_refreshTokenExpiresAt data))]
          (Some ttlSeconds)) ;;
        trackGrantId grantId ;;
        s ← get_state;
        if retired s then
          request (CDel [key]) ;;
          raise (client_removed ("Client " +:+ dq (ac_name self) +:+ " was removed while grant tokens for "
                   +:+ dq grantId +:+ " were being stored; they were discarded."))
        else mret tt
  | _ => raise (NotOAuth2ClientError (ac_name self))
  end.
End authenticate.
