(* ===== verification/Templates.v ===== *)
(** * Building clients from declarations and templates

    [packages/core/src/utils/createClients.ts] and the decisions of
    [utils/templateClients.ts]: names, the merge of a sub-client with its
    parent, whether a declaration differs from the client built from one, the
    checks and the kind of client, and a tenant's plan and overrides placed on
    what a template's builder returns.

    A declaration's own fields are typed where the code decides on them; the
    rest are values.  A value in this model is never written through, so a
    copy ([deepCloneWithFunctions], [structuredClone] of a plan) is the value
    itself, and placing limits returns a declaration. *)
From S2P Require Import Prelude JsNumber JsString Json Value ClientName RateLimit Requests Client Metered Authenticate.
Local Open Scope Z_scope.

(** ** Declarations *)

(** What a [rateLimit] property may hold at runtime: a list, one bare limit
    ([isLimitObject]), or anything else. *)
Inductive given_limits :=
  | Limits (l : list DeclaredRateLimit)
  | BareLimit (l : DeclaredRateLimit)
  | OtherLimits (v : value).

Record ClientFields := {
  cf_name : string;
  cf_authOwnerName : option string;
  cf_authentication : option value;
  cf_metadata : option (list (string * value));
  cf_axiosOptions : option (list (string * value));
  cf_requestOptions : option (list (string * value));
  cf_retryOptions : option (list (string * value));
  cf_rest : list (string * value)  (** every other property, rateLimit and subClients aside *)
}.

(** [rateLimit] is missing when the property is. *)
Inductive CreateClientData :=
  | CreateClient (fields : ClientFields) (rateLimit : option given_limits) (subClients : list CreateClientData).

Definition cd_fields (c : CreateClientData) : ClientFields := let '(CreateClient f _ _) := c in f.
Definition cd_rateLimit (c : CreateClientData) : option given_limits := let '(CreateClient _ l _) := c in l.
Definition cd_subClients (c : CreateClientData) : list CreateClientData := let '(CreateClient _ _ s) := c in s.
Definition cd_name (c : CreateClientData) : string := cf_name (cd_fields c).

Section CreateClientData_ind.
Variable P : CreateClientData -> Prop.
Hypothesis Hclient : forall f l subs, Forall P subs -> P (CreateClient f l subs).
Fixpoint CreateClientData_ind' (c : CreateClientData) : P c :=
  match c with
  | CreateClient f l subs =>
      Hclient f l subs ((fix go subs : Forall P subs :=
        match subs with
        | [] => List.Forall_nil _
        | s :: subs' => List.Forall_cons _ _ _ (CreateClientData_ind' s) (go subs')
        end) subs)
  end.
End CreateClientData_ind.

Definition isSharedOnly (l : list DeclaredRateLimit) : bool := isSharedLimitOnly (map d_limit l).

(** [isSharedLimitOnly] of what may not be a list. *)
Definition shares (g : given_limits) : bool :=
  match g with Limits l => isSharedOnly l | _ => false end.

Definition nullish (g : given_limits) : bool :=
  match g with OtherLimits VNull | OtherLimits VUndefined => true | _ => false end.

Definition no_limit : list DeclaredRateLimit := [{| d_limit := noLimit; d_name := None |}].

(** [own ?? inherited ?? [{ type: "noLimit" }]]. *)
Definition effective_limits (own inherited : option given_limits) : given_limits :=
  let fallback := default (Limits no_limit) inherited in
  match own with Some g => if nullish g then fallback else g | None => fallback end.

(** ** Names *)

Definition child_name (parent name : string) : string := parent +:+ ":" +:+ name.

Fixpoint names_under (prefix : option string) (c : CreateClientData) : list string :=
  match c with
  | CreateClient f _ subs =>
      let name := match prefix with Some p => if bool_decide (p = "") then cf_name f else child_name p (cf_name f)
                                | None => cf_name f end in
      name :: concat (map (names_under (Some name)) subs)
  end.

(** A [Set], so each name once, where it was first. *)
Definition collectClientNames (clients : list CreateClientData) (parentPrefix : option string) : list string :=
  fold_left (fun acc n => oset_add n acc) (concat (map (names_under parentPrefix) clients)) [].

(** ** The merge with a parent *)

(** [{ ...parent, ...child }] of properties that may be missing. *)
Definition merge_options (parent child : option (list (string * value))) : list (string * value) :=
  spread (default [] parent) (default [] child).

Definition properties (v : option value) : list (string * value) :=
  match v with Some (VObj _ l) => l | _ => [] end.

Definition merge_requestOptions (parent child : option (list (string * value))) : list (string * value) :=
  omap_set "defaults"
    (VObj true (spread (properties (parent ≫= omap_get "defaults")) (properties (child ≫= omap_get "defaults"))))
    (merge_options parent child).

(** The merged declaration, without sub-clients. *)
Definition mergeChildParentClients (child parent : CreateClientData) : CreateClientData :=
  let c := cd_fields child in let p := cd_fields parent in
  CreateClient
    {| cf_name := child_name (cf_name p) (cf_name c);
       cf_authOwnerName :=
         match cf_authentication c with
         | Some a => if value_truthy a then None else Some (default (cf_name p) (cf_authOwnerName p))
         | None => Some (default (cf_name p) (cf_authOwnerName p))
         end;
       cf_authentication := match cf_authentication c with Some a => Some a | None => cf_authentication p end;
       cf_metadata := Some (merge_options (cf_metadata p) (cf_metadata c));
       cf_axiosOptions := Some (merge_options (cf_axiosOptions p) (cf_axiosOptions c));
       cf_requestOptions := Some (merge_requestOptions (cf_requestOptions p) (cf_requestOptions c));
       cf_retryOptions := Some (merge_options (cf_retryOptions p) (cf_retryOptions c));
       cf_rest := spread (cf_rest p) (cf_rest c) |}
    (match cd_rateLimit child with Some g => Some g | None => cd_rateLimit parent end)
    [].

(** ** Whether a declaration changed *)

Fixpoint depth (v : value) : nat :=
  match v with
  | VArr l => S (fold_right (fun x n => Nat.max (depth x) n) 0%nat l)
  | VObj _ l => S (fold_right (fun p n => Nat.max (depth p.2) n) 0%nat l)
  | _ => 1
  end.

Section equality.
(** [===] of two class instances, which have an identity. *)
Variable same_object : value -> value -> bool.

(** Object keys are matched by name, in any order; the fuel is the depth of
    [a].  Numbers are compared by [===], which no NaN passes. *)
Fixpoint deep_equal (fuel : nat) (a b : value) : bool :=
  match fuel with
  | O => false
  | S fuel' =>
      match a, b with
      | VFun _, VFun _ => true
      | VUndefined, VUndefined | VNull, VNull => true
      | VBool x, VBool y => bool_decide (x = y)
      | VNum x, VNum y => (x =? y)%num
      | VStr x, VStr y => bool_decide (x = y)
      | VArr x, VArr y =>
          bool_decide (length x = length y) && forallb (fun p => deep_equal fuel' p.1 p.2) (combine x y)
      | VObj true x, VObj true y =>
          bool_decide (length x = length y)
          && forallb (fun p => match omap_get p.1 y with Some v => deep_equal fuel' p.2 v | None => false end) x
      | VObj false _, VObj false _ => same_object a b
      | _, _ => false
      end
  end.

Definition deepEqualIgnoringFunctionIdentity (a b : value) : bool := deep_equal (depth a) a b.

(** The object a declaration is, [subClients] aside. *)
Definition limit_value (l : DeclaredRateLimit) : value :=
  VObj true
    (match d_limit l with
     | requestLimit o =>
         [("type", VStr "requestLimit"); ("interval", VNum (rl_interval o));
          ("tokensToAdd", VNum (rl_tokensToAdd o)); ("maxTokens", VNum (rl_maxTokens o))]
         ++ match rl_maxDebt o with Some d => [("maxDebt", VNum d)] | None => [] end
     | concurrencyLimit n => [("type", VStr "concurrencyLimit"); ("maxConcurrency", VNum n)]
     | noLimit => [("type", VStr "noLimit")]
     | sharedLimit c => [("type", VStr "sharedLimit"); ("clientName", VStr c)]
     | unknownLimit (Some t) => [("type", VStr t)]
     | unknownLimit None => []
     end ++ match d_name l with Some n => [("name", VStr n)] | None => [] end).

Definition given_value (g : given_limits) : value :=
  match g with Limits l => VArr (map limit_value l) | BareLimit l => limit_value l | OtherLimits v => v end.

Definition optional_prop (k : string) (v : option value) : list (string * value) :=
  match v with Some v => [(k, v)] | None => [] end.

Definition client_value (c : CreateClientData) : value :=
  let f := cd_fields c in
  VObj true
    ([("name", VStr (cf_name f))]
     ++ optional_prop "authOwnerName" (VStr <$> cf_authOwnerName f)
     ++ optional_prop "authentication" (cf_authentication f)
     ++ optional_prop "metadata" (VObj true <$> cf_metadata f)
     ++ optional_prop "axiosOptions" (VObj true <$> cf_axiosOptions f)
     ++ optional_prop "requestOptions" (VObj true <$> cf_requestOptions f)
     ++ optional_prop "retryOptions" (VObj true <$> cf_retryOptions f)
     ++ optional_prop "rateLimit" (given_value <$> cd_rateLimit c)
     ++ cf_rest f).

Definition clientDataEqual (a b : CreateClientData) : bool :=
  deepEqualIgnoringFunctionIdentity (client_value a) (client_value b).
End equality.

(** ** Constructing clients *)

Inductive client_kind := MeteredKind | SharedKind (owner : string).

(** A client that is built: its own identity, what it was built from, its
    limits and its class. *)
Record BuiltClient := {
  bc_object : nat;
  bc_data : CreateClientData;
  bc_limits : list NamedRateLimitData;
  bc_kind : client_kind
}.

Definition bc_name (c : BuiltClient) : string := cd_name (bc_data c).

Definition unknown_limits {A} (message : string) : result A :=
  Throw (ConfigurationError "unknown_rate_limit_type" message).

(** The list of a declaration that gives one, or the default. *)
Definition declared_limits (data : CreateClientData) : result (list DeclaredRateLimit) :=
  match cd_rateLimit data with
  | None => Ok no_limit
  | Some (Limits l) => Ok l
  | Some g =>
      if nullish g then
        unknown_limits ("Client " +:+ dq (cd_name data)
          +:+ " declares rateLimit as null. Omit the property entirely for the noLimit default, or give a list of limits.")
      else
        unknown_limits ("Client " +:+ dq (cd_name data)
          +:+ " declares rateLimit as a single limit. It takes a list, so wrap it: rateLimit: ["
          +:+ stringify_text (given_value g) +:+ "].")
  end.

(** A backend may lack the multi-limit methods, which a list of several needs. *)
Definition buildClient (supports : optional_method -> bool) (object : nat) (data : CreateClientData)
    (lookup : string -> option BuiltClient) : result BuiltClient :=
  rateLimit ← declared_limits data;
  let limits := normalizeRateLimit rateLimit None in
  assertUsableRateLimits limits (cd_name data) ;;
  let built kind := {| bc_object := object; bc_data := data; bc_limits := limits; bc_kind := kind |} in
  match map n_limit limits with
  | [sharedLimit parentName] =>
      match lookup parentName with
      | None =>
          Throw (ConfigurationError "shared_limit_parent_not_found"
            ("Client " +:+ dq (cd_name data) +:+ " shares the rate limit of " +:+ dq parentName
             +:+ ", which is not registered. Register the parent client first — a sharedLimit client cannot draw on a budget that does not exist."))
      | Some parent =>
          if isSharedLimitOnly (map n_limit (bc_limits parent)) then
            Throw (ConfigurationError "shared_limit_parent_is_shared"
              ("Client " +:+ dq (cd_name data) +:+ " shares the rate limit of " +:+ dq parentName
               +:+ ", which is itself a sharedLimit client. Point it at the client that owns the budget."))
          else Ok (built (SharedKind parentName))
      end
  | _ => assertBackendCanClaim supports (cd_name data) limits ;; Ok (built MeteredKind)
  end.

(** [prepareClients]: the clients to swap in, in order; [built] finds those of
    this build by name. *)
Record Preparation := { pr_built : list (string * BuiltClient); pr_replacements : list BuiltClient }.

Section prepare.
Variable supports : optional_method -> bool.
Variable same_object : value -> value -> bool.
Variable clients : list (string * BuiltClient).
Variable retiring : list string.
Variable fresh : nat.

Definition lookup_client (built : list (string * BuiltClient)) (name : string) : option BuiltClient :=
  match omap_get name built with
  | Some c => Some c
  | None => if bool_decide (name ∈ retiring) then None else omap_get name clients
  end.

Definition prepare_client (client : CreateClientData) (acc : Preparation) : result Preparation :=
  let changed := match omap_get (cd_name client) clients with
                 | Some existing => negb (clientDataEqual same_object (bc_data existing) client)
                 | None => true
                 end in
  if changed then
    next ← buildClient supports (fresh + length (pr_replacements acc)) client (lookup_client (pr_built acc));
    Ok {| pr_built := omap_set (cd_name client) next (pr_built acc);
          pr_replacements := pr_replacements acc ++ [next] |}
  else Ok acc.

Fixpoint prepare_tree (parent : option CreateClientData) (declared : CreateClientData) (acc : Preparation)
    : result Preparation :=
  match declared with
  | CreateClient f l subs =>
      match parent with
      | Some _ => assertNameSegment (VStr (cf_name f)) "A sub-client's name"
      | None => Ok tt
      end ;;
      let client := match parent with
                    | Some p => mergeChildParentClients (CreateClient f l subs) p
                    | None => CreateClient f l subs
                    end in
      acc ← prepare_client client acc;
      (fix walk subs acc :=
         match subs with
         | [] => Ok acc
         | s :: subs' => acc ← prepare_tree (Some client) s acc; walk subs' acc
         end) subs acc
  end.

Fixpoint prepare_list (list_ : list CreateClientData) (acc : Preparation) : result Preparation :=
  match list_ with
  | [] => Ok acc
  | c :: list' => acc ← prepare_tree None c acc; prepare_list list' acc
  end.

Definition prepareClients (list_ : list CreateClientData) : result (list BuiltClient) :=
  acc ← prepare_list list_ {| pr_built := []; pr_replacements := [] |}; Ok (pr_replacements acc).
End prepare.

(** ** Limits as untyped values *)

Definition num_field (v : value) (name : string) : num :=
  match value_field v name with VNum n => n | _ => NaN end.
Definition text_field (v : value) (name : string) : option string :=
  match value_field v name with VStr s => Some s | _ => None end.

(** A value read as the limit its [type] says; a number that is missing or is
    none counts as NaN, which the checks refuse as they refuse it. *)
Definition declared_of (v : value) : DeclaredRateLimit :=
  let limit :=
    match text_field v "type" with
    | Some t =>
        if bool_decide (t = "requestLimit") then
          requestLimit {| rl_interval := num_field v "interval"; rl_tokensToAdd := num_field v "tokensToAdd";
                          rl_maxTokens := num_field v "maxTokens";
                          rl_maxDebt := match value_field v "maxDebt" with
                                        | VUndefined => None | VNum n => Some n | _ => Some NaN end |}
        else if bool_decide (t = "concurrencyLimit") then concurrencyLimit (num_field v "maxConcurrency")
        else if bool_decide (t = "noLimit") then noLimit
        else if bool_decide (t = "sharedLimit") then sharedLimit (default "" (text_field v "clientName"))
        else unknownLimit (Some t)
    | None => unknownLimit None
    end in
  {| d_limit := limit;
     d_name := match value_field v "name" with VUndefined => None | VStr n => Some n | _ => Some "" end |}.

Definition isLimitObject (v : value) : bool :=
  match v with VObj _ _ => bool_decide (is_Some (text_field v "type")) | _ => false end.

Definition given_of (v : value) : given_limits :=
  match v with
  | VArr l => Limits (map declared_of l)
  | _ => if isLimitObject v then BareLimit (declared_of v) else OtherLimits v
  end.

(** [Object.entries(v)]. *)
Definition value_entries (v : value) : list (string * value) :=
  match v with
  | VObj _ l => l
  | VArr l => imap (fun i x => (num_to_string (int (Z.of_nat i)), x)) l
  | _ => []
  end.

(** ** Plans and overrides *)

Definition own_shape_message : string :=
  "declares budgets of its own where the template default shares another client's".
Definition shared_shape_message : string :=
  "shares another client's budget where the template default declares its own".

Definition describeShapeMismatch (existing override : given_limits) : option string :=
  if Bool.eqb (shares existing) (shares override) then None
  else Some (if shares existing then own_shape_message else shared_shape_message).

Definition sub_path (path : string) (sub : CreateClientData) : string :=
  if bool_decide (path = "") then cd_name sub else path +:+ ":" +:+ cd_name sub.

(** Limits by path: [ownEntry] reads one. *)
Definition PathLimits : Type := list (string * given_limits).

(** What [applyPlan] makes of a client at [path], and of those under it. *)
Fixpoint plan_client (rateLimits : PathLimits) (path : string) (inherited : option given_limits)
    (client : CreateClientData) : CreateClientData :=
  match client with
  | CreateClient f own subs =>
      let existing := effective_limits own inherited in
      let '(own', effective) :=
        match omap_get path rateLimits with
        | Some limit =>
            match describeShapeMismatch existing limit with
            | Some _ => (own, existing)
            | None => (Some limit, limit)
            end
        | None => (own, existing)
        end in
      CreateClient f own' (map (fun s => plan_client rateLimits (sub_path path s) (Some effective) s) subs)
  end.

(** Which paths of a plan it placed, and which it refused and why. *)
Fixpoint plan_report (rateLimits : PathLimits) (path : string) (inherited : option given_limits)
    (client : CreateClientData) : list (string * option string) :=
  match client with
  | CreateClient f own subs =>
      let existing := effective_limits own inherited in
      let '(entry, effective) :=
        match omap_get path rateLimits with
        | Some limit =>
            match describeShapeMismatch existing limit with
            | Some m => ([(path, Some m)], existing)
            | None => ([(path, None)], limit)
            end
        | None => ([], existing)
        end in
      entry ++ concat (map (fun s => plan_report rateLimits (sub_path path s) (Some effective) s) subs)
  end.

Definition plan_warning (templateName option_ : string) (report : list (string * option string)) (path : string)
    : list string :=
  if bool_decide ((path, None) ∈ report) then []
  else
    match last (omap (fun e => if bool_decide (e.1 = path) then e.2 else None) report) with
    | Some mismatch =>
        ["Template " +:+ dq templateName +:+ " has a rate-limit option " +:+ dq option_ +:+ " whose limits for path "
         +:+ dq path +:+ " " +:+ mismatch +:+ "; that limit was not applied"]
    | None =>
        ["Template " +:+ dq templateName +:+ " has a rate-limit option covering path " +:+ dq path
         +:+ ", which no client it built matches; that limit was not applied"]
    end.

(** The clients with the plan on them, and the warnings. *)
Definition applyPlan (templateName option_ : string) (clients : list CreateClientData) (rateLimits : PathLimits)
    : list CreateClientData * list string :=
  let report := concat (map (plan_report rateLimits "" None) clients) in
  (map (plan_client rateLimits "" None) clients,
   concat (map (fun e => plan_warning templateName option_ report e.1) rateLimits)).

Definition to_declared (l : NamedRateLimitData) : DeclaredRateLimit :=
  {| d_limit := n_limit l; d_name := Some (n_name l) |}.

(** An override, named against what it replaces. *)
Definition renamed_override (existing : given_limits) (override : list DeclaredRateLimit) : given_limits :=
  let previous := match existing with Limits l => Some (normalizeRateLimit l None) | _ => None end in
  Limits (map to_declared (normalizeRateLimit override previous)).

Fixpoint applyOverrides (overrides : list (string * list DeclaredRateLimit)) (path : string)
    (inherited : option given_limits) (client : CreateClientData) : CreateClientData :=
  match client with
  | CreateClient f own subs =>
      let existing := effective_limits own inherited in
      let '(own', effective) :=
        match omap_get path overrides with
        | Some override =>
            match describeShapeMismatch existing (Limits override) with
            | Some _ => (own, existing)
            | None => let e := renamed_override existing override in (Some e, e)
            end
        | None => (own, existing)
        end in
      CreateClient f own' (map (fun s => applyOverrides overrides (sub_path path s) (Some effective) s) subs)
  end.

(** ** Templates *)

(** A plan: the root's limits, or limits by path.  Untyped code may hand over
    anything; what is no object, or is one limit, is a [RootPlan]. *)
Inductive RateLimitPlan :=
  | RootPlan (g : given_limits)
  | PathPlan (m : PathLimits).

Record ClientTemplateOptions := {
  to_rateLimitOptions : option (list (string * RateLimitPlan));
  to_defaultRateLimitOption : option string
}.

Record ClientTemplateContext := {
  tx_rateLimit : option given_limits;
  tx_rateLimits : option PathLimits;
  tx_rateLimitOption : option string
}.

(** Plain limits by path, as they are once they have been checked. *)
Record TemplateClientOptions := {
  ts_rateLimitOption : option string;
  ts_rateLimitOverrides : option (list (string * list DeclaredRateLimit))
}.

Definition no_settings : TemplateClientOptions := {| ts_rateLimitOption := None; ts_rateLimitOverrides := None |}.

Definition no_context : ClientTemplateContext :=
  {| tx_rateLimit := None; tx_rateLimits := None; tx_rateLimitOption := None |}.

(** A builder is the plugin's: it may refuse. *)
Record RegisteredTemplate := {
  tp_builder : value -> ClientTemplateContext -> result (list CreateClientData);
  tp_options : ClientTemplateOptions
}.

Definition planPaths (plan : RateLimitPlan) : PathLimits :=
  match plan with
  | RootPlan (Limits l) => [("", Limits l)]
  | RootPlan g => map (fun e => (e.1, given_of e.2)) (value_entries (given_value g))
  | PathPlan m => m
  end.

(** The entries [assertTemplateOptions] looks at. *)
Definition plan_entries (plan : RateLimitPlan) : PathLimits :=
  match plan with RootPlan g => [("", g)] | PathPlan m => m end.

(** With the error it logs, when there is one. *)
Definition resolveTemplateContext (templateName : string) (options : ClientTemplateOptions)
    (settings : TemplateClientOptions) : ClientTemplateContext * list string :=
  match match ts_rateLimitOption settings with Some o => Some o | None => to_defaultRateLimitOption options end with
  | None => (no_context, [])
  | Some chosen =>
      match to_rateLimitOptions options ≫= omap_get chosen with
      | None =>
          (no_context,
           ["Template " +:+ dq templateName +:+ " no longer declares a rateLimitOption " +:+ dq chosen
            +:+ "; building from the limits its builder declares instead"])
      | Some plan =>
          let rateLimits := planPaths plan in
          ({| tx_rateLimit := omap_get "" rateLimits; tx_rateLimits := Some rateLimits;
              tx_rateLimitOption := Some chosen |}, [])
      end
  end.

Definition name_mismatch (templateName instanceId name : string) : js_error :=
  ConfigurationError "template_client_name_mismatch"
    ("Template " +:+ dq templateName +:+ " built a client named " +:+ dq name +:+ " for instance " +:+ dq instanceId
     +:+ ", which does not appear in the name. Client names must identify their instance — use buildClientName() — or two tenants resolve to one client and one credential entry.").

Fixpoint assert_instance_names (templateName instanceId : string) (clients : list CreateClientData) : result unit :=
  match clients with
  | [] => Ok tt
  | c :: clients' =>
      if bool_decide (instanceId ∈ split_char ":" (cd_name c)) then
        assert_instance_names templateName instanceId clients'
      else Throw (name_mismatch templateName instanceId (cd_name c))
  end.

Record TemplateBuild := { tb_clients : list CreateClientData; tb_names : list string }.

Definition planTemplateBuild (template : RegisteredTemplate) (templateName instanceId : string)
    (credentials : value) (settings : TemplateClientOptions) : result TemplateBuild :=
  let context := (resolveTemplateContext templateName (tp_options template) settings).1 in
  built ← tp_builder template credentials context;
  let planned :=
    match tx_rateLimits context with
    | Some rateLimits =>
        (applyPlan templateName (default "" (tx_rateLimitOption context)) built rateLimits).1
    | None => built
    end in
  let clients :=
    match ts_rateLimitOverrides settings with
    | Some overrides =>
        if bool_decide (overrides = []) then planned else map (applyOverrides overrides "" None) planned
    | None => planned
    end in
  assert_instance_names templateName instanceId clients ;;
  Ok {| tb_clients := clients; tb_names := collectClientNames clients None |}.

(** ** What is registered, chosen and stored *)

Definition limits_not_a_list {A} (message : string) : result A := unknown_limits message.

Definition json_text (v : value) : string :=
  stringify_text (match v with VUndefined => VNull | _ => v end).

(** One entry of a plan. *)
Definition assert_plan_entry (templateName key : string) (e : string * given_limits) : result unit :=
  let '(path, rateLimit) := e in
  let label := templateName +:+ " (option " +:+ dq key
               +:+ (if bool_decide (path = "") then "" else ", path " +:+ dq path) +:+ ")" in
  match rateLimit with
  | Limits l => assertUsableRateLimits (normalizeRateLimit l None) label
  | g =>
      limits_not_a_list ("Client template " +:+ label
        +:+ " gives a rate limit that is not a list. A plan is a list of limits, or an object mapping sub-client paths to lists: wrap it as ["
        +:+ json_text (given_value g) +:+ "].")
  end.

Fixpoint rforeach {A} (l : list A) (f : A -> result unit) : result unit :=
  match l with [] => Ok tt | x :: l' => f x ;; rforeach l' f end.

Definition assertTemplateOptions (templateName : string) (options : ClientTemplateOptions) : result unit :=
  match to_rateLimitOptions options with
  | Some declared => rforeach declared (fun o => rforeach (plan_entries o.2) (assert_plan_entry templateName o.1))
  | None => Ok tt
  end ;;
  match to_defaultRateLimitOption options with
  | None => Ok tt
  | Some fallback =>
      match to_rateLimitOptions options ≫= omap_get fallback with
      | Some _ => Ok tt
      | None =>
          Throw (ConfigurationError "unknown_rate_limit_option"
            ("Template " +:+ dq templateName +:+ " names " +:+ dq fallback
             +:+ " as its defaultRateLimitOption, which is not one of its rateLimitOptions"
             +:+ match to_rateLimitOptions options with
                 | Some declared => ": " +:+ join ", " declared.*1
                 | None => " (it declares none)"
                 end +:+ "."))
      end
  end.

(** [assertRateLimitOptionAllowed] of [core/src/index.ts]. *)
Definition assertRateLimitOptionAllowed (templateName : string) (options : option ClientTemplateOptions)
    (rateLimitOption : value) : result unit :=
  match rateLimitOption with
  | VUndefined => Ok tt
  | v =>
      let available := match options ≫= to_rateLimitOptions with Some declared => declared.*1 | None => [] end in
      if match v with VStr o => bool_decide (o ∈ available) | _ => false end then Ok tt
      else
        Throw (ConfigurationError "unknown_rate_limit_option"
          (if bool_decide (available = []) then
             "Template " +:+ dq templateName
             +:+ " declares no rateLimitOptions, so it accepts no rateLimitOption. A template chooses which limits callers may pick from; add them at registerClientTemplate."
           else
             "Template " +:+ dq templateName +:+ " has no rateLimitOption " +:+ dq (value_text v) +:+ ". It offers: "
             +:+ quote_names available +:+ "."))
  end.

(** ** Settings as a caller gives them, and as they are stored *)

Definition has_key (v : value) (k : string) : bool := bool_decide (k ∈ (value_entries v).*1).

(** The settings object, and whether it is the value itself. *)
Definition decodeTemplateClientOptions (parsed : value) : value * bool :=
  match parsed with
  | VObj _ _ | VArr _ =>
      if has_key parsed "rateLimitOption" || has_key parsed "rateLimitOverrides" then (parsed, true)
      else (VObj true [("rateLimitOverrides", parsed)], false)
  | _ => (VObj true [], false)
  end.

Definition override_label (templateName path : string) : string :=
  templateName +:+ " (override" +:+ (if bool_decide (path = "") then "" else " for path " +:+ dq path) +:+ ")".

Definition assert_override (templateName : string) (e : string * value) : result unit :=
  let label := override_label templateName e.1 in
  match given_of e.2 with
  | Limits l => assertUsableRateLimits (normalizeRateLimit l None) label
  | _ =>
      limits_not_a_list ("Client template " +:+ label
        +:+ " gives a rate limit that is not a list. It takes a list, so wrap it: [" +:+ stringify_text e.2 +:+ "].")
  end.

Definition normalizeTemplateClientOptions (templateName : string) (options : value) : result value :=
  if negb (value_truthy options) then Ok (VObj true [])
  else
    let '(settings, same) := decodeTemplateClientOptions options in
    let extra :=
      if same then
        List.filter (fun k => negb (bool_decide (k = "rateLimitOption")) && negb (bool_decide (k = "rateLimitOverrides")))
          (value_entries options).*1
      else [] in
    if negb (bool_decide (extra = [])) then
      Throw (ConfigurationError "invalid_template_client_options"
        ("Template " +:+ dq templateName
         +:+ " was given options mixing rateLimitOption or rateLimitOverrides with " +:+ quote_names extra
         +:+ ". Put path overrides under rateLimitOverrides."))
    else
      rforeach (value_entries (value_field settings "rateLimitOverrides")) (assert_override templateName) ;;
      Ok settings.

(** The JSON to store, when there is anything worth a key. *)
Definition serializeTemplateClientOptions (settings : value) : option string :=
  let overrides := value_field settings "rateLimitOverrides" in
  let option_ := value_field settings "rateLimitOption" in
  let hasOverrides := value_truthy overrides && negb (bool_decide (value_entries overrides = [])) in
  if negb hasOverrides && match option_ with VUndefined => true | _ => false end then None
  else
    Some (stringify_text (VObj true
      (match option_ with VUndefined => [] | _ => [("rateLimitOption", option_)] end
       ++ if hasOverrides then [("rateLimitOverrides", overrides)] else []))).

(** A limit of 1.x, stored on its own. *)
Definition wrap_limit (v : value) : value := if isLimitObject v then VArr [v] else v.

Definition wrap_overrides (settings : value) : value :=
  match settings with
  | VObj p l =>
      match omap_get "rateLimitOverrides" l with
      | Some (VObj q o) =>
          VObj p (omap_set "rateLimitOverrides" (VObj q (map (fun e => (e.1, wrap_limit e.2)) o)) l)
      | Some (VArr o) => VObj p (omap_set "rateLimitOverrides" (VArr (map wrap_limit o)) l)
      | _ => settings
      end
  | _ => settings
  end.

(** What a stored text says; none for one that is missing or no JSON. *)
Definition read_settings (raw : option string) : option value :=
  match truthy raw with
  | None => None
  | Some text => (fun j => wrap_overrides (decodeTemplateClientOptions (of_json j)).1) <$> parse text
  end.

Definition overrides_of (v : value) : option (list (string * list DeclaredRateLimit)) :=
  mapM (fun e => match given_of e.2 with Limits l => Some (e.1, l) | _ => None end) (value_entries v).

(** The settings a build works with; none when an override is no list. *)
Definition typed_settings (settings : option value) : option TemplateClientOptions :=
  match settings with
  | None => Some no_settings
  | Some v =>
      overrides ← overrides_of (value_field v "rateLimitOverrides");
      Some {| ts_rateLimitOption := text_field v "rateLimitOption"; ts_rateLimitOverrides := Some overrides |}
  end.
