(* ===== verification/TemplateClients.v ===== *)
(** * Registering, rebuilding and removing template clients

    The stateful half of [utils/templateClients.ts] and [utils/createClients.ts],
    and the methods of [core/src/index.ts] that add, rebuild and remove a
    tenant.  One replica's handler is a [TemplateState]; what it does to a client
    object, the election and [start()] are a [HandlerHost]'s programs, so other
    work on the replica runs inside them.  Work on one entry is serialised by its
    lock ([underEntryLock]): here a pass runs to its end, and what may come
    between its awaited steps, a removal's bump of the generation first of all,
    is the host's. *)
From S2P Require Import Prelude JsNumber JsString Json Value ClientName RateLimit MemoryStore Backend Requests Client.
From S2P Require Import Encryption Authenticate Templates.

Record TemplateState := {
  tt_auth : AuthState;  (** the credential module's maps, its clock and caches *)
  tt_templates : list (string * RegisteredTemplate);
  tt_clients : list (string * BuiltClient);
  tt_clientMap : list (string * list (string * list string));
  tt_local : list string;  (** [localTemplateClients] *)
  tt_generations : list (string * nat);
  tt_objects : nat;  (** how many clients were constructed *)
  tt_status : string;
  tt_stopping : bool;  (** [stopPromise] is there *)
  tt_stoppedByCaller : bool
}.

Definition set_auth (x : AuthState) (s : TemplateState) : TemplateState :=
  {| tt_auth := x; tt_templates := tt_templates s; tt_clients := tt_clients s; tt_clientMap := tt_clientMap s;
     tt_local := tt_local s; tt_generations := tt_generations s; tt_objects := tt_objects s;
     tt_status := tt_status s; tt_stopping := tt_stopping s; tt_stoppedByCaller := tt_stoppedByCaller s |}.
Definition set_templates (x : list (string * RegisteredTemplate)) (s : TemplateState) : TemplateState :=
  {| tt_auth := tt_auth s; tt_templates := x; tt_clients := tt_clients s; tt_clientMap := tt_clientMap s;
     tt_local := tt_local s; tt_generations := tt_generations s; tt_objects := tt_objects s;
     tt_status := tt_status s; tt_stopping := tt_stopping s; tt_stoppedByCaller := tt_stoppedByCaller s |}.
Definition set_clients (x : list (string * BuiltClient)) (s : TemplateState) : TemplateState :=
  {| tt_auth := tt_auth s; tt_templates := tt_templates s; tt_clients := x; tt_clientMap := tt_clientMap s;
     tt_local := tt_local s; tt_generations := tt_generations s; tt_objects := tt_objects s;
     tt_status := tt_status s; tt_stopping := tt_stopping s; tt_stoppedByCaller := tt_stoppedByCaller s |}.
Definition set_clientMap (x : list (string * list (string * list string))) (s : TemplateState) : TemplateState :=
  {| tt_auth := tt_auth s; tt_templates := tt_templates s; tt_clients := tt_clients s; tt_clientMap := x;
     tt_local := tt_local s; tt_generations := tt_generations s; tt_objects := tt_objects s;
     tt_status := tt_status s; tt_stopping := tt_stopping s; tt_stoppedByCaller := tt_stoppedByCaller s |}.
Definition set_local (x : list string) (s : TemplateState) : TemplateState :=
  {| tt_auth := tt_auth s; tt_templates := tt_templates s; tt_clients := tt_clients s; tt_clientMap := tt_clientMap s;
     tt_local := x; tt_generations := tt_generations s; tt_objects := tt_objects s;
     tt_status := tt_status s; tt_stopping := tt_stopping s; tt_stoppedByCaller := tt_stoppedByCaller s |}.
Definition set_generations (x : list (string * nat)) (s : TemplateState) : TemplateState :=
  {| tt_auth := tt_auth s; tt_templates := tt_templates s; tt_clients := tt_clients s; tt_clientMap := tt_clientMap s;
     tt_local := tt_local s; tt_generations := x; tt_objects := tt_objects s;
     tt_status := tt_status s; tt_stopping := tt_stopping s; tt_stoppedByCaller := tt_stoppedByCaller s |}.
Definition set_objects (x : nat) (s : TemplateState) : TemplateState :=
  {| tt_auth := tt_auth s; tt_templates := tt_templates s; tt_clients := tt_clients s; tt_clientMap := tt_clientMap s;
     tt_local := tt_local s; tt_generations := tt_generations s; tt_objects := x;
     tt_status := tt_status s; tt_stopping := tt_stopping s; tt_stoppedByCaller := tt_stoppedByCaller s |}.

Inductive DestroyReason := shutdown_ | rebuild | removal | finalRemoval.

Record HandlerHost (B : Type) := {
  hh_updateRole : BuiltClient -> Prog TemplateState B unit;
  hh_destroy : BuiltClient -> DestroyReason -> Prog TemplateState B unit;
  hh_init : BuiltClient -> Prog TemplateState B unit;
  hh_adopt : BuiltClient -> BuiltClient -> Prog TemplateState B unit;
  hh_scheduleClientRoles : Prog TemplateState B unit;
  hh_start : Prog TemplateState B unit
}.
Arguments hh_updateRole {B} h client.
Arguments hh_destroy {B} h client reason.
Arguments hh_init {B} h client.
Arguments hh_adopt {B} h next previous.
Arguments hh_scheduleClientRoles {B} h.
Arguments hh_start {B} h.

(** A tenant as it is recorded: [templateName::instanceId]. *)
Definition tenant_entry (templateName instanceId : string) : string := templateName +:+ "::" +:+ instanceId.

(** The two halves of an entry, split at the first separator. *)
Fixpoint split_entry (s : string) : option (string * string) :=
  match s with
  | EmptyString => None
  | String c s' =>
      match drop_prefix "::" s with
      | Some rest => Some ("", rest)
      | None => (fun p => (String c p.1, p.2)) <$> split_entry s'
      end
  end.

Section handler.
Context {Crypto : NodeCrypto} {B : Type} `{DianemoBackend B}.
Variable namespace : string.
Variable key : string.
Variable host : HandlerHost B.
Variable same_object : value -> value -> bool.

Local Notation P := (Prog TemplateState B).

Definition call_ {A} (c : call A) : P A := fun s b => let '(r, b') := serve c b in (r, (s, b')).
Definition or_value {A} (m : P A) (a : A) : P A := catch m (fun _ => mret a).
Definition on_auth (f : AuthState -> AuthState) : P unit := modify_state (fun s => set_auth (f (tt_auth s)) s).
Definition auth_client (c : BuiltClient) : nat := bc_object c.

(** *** Generations *)

Definition generation_of (entry : string) (s : TemplateState) : nat := default 0%nat (omap_get entry (tt_generations s)).

Definition templateEntryGeneration (templateName instanceId : string) : P nat :=
  s ← get_state; mret (generation_of (tenant_entry templateName instanceId) s).

Definition superseded (entry : string) (generation : nat) : P bool :=
  s ← get_state; mret (negb (bool_decide (generation_of entry s = generation))).

(** *** Swapping clients in *)

Definition resetClient (clientName : string) : P (option BuiltClient) :=
  s ← get_state;
  match omap_get clientName (tt_clients s) with
  | None => mret None
  | Some client =>
      hh_updateRole host client ;;
      hh_destroy host client rebuild ;;
      modify_state (fun s => set_clients (omap_delete clientName (tt_clients s)) s) ;;
      mret (Some client)
  end.

Definition registerClient (client : BuiltClient) : P unit :=
  s ← get_state;
  match omap_get (bc_name client) (tt_clients s) with
  | Some _ => raise (ForeignError "client_conflict")
  | None =>
      modify_state (fun s => set_clients (omap_set (bc_name client) client (tt_clients s)) s) ;;
      hh_init host client
  end.

Definition swap_in (next : BuiltClient) : P unit :=
  previous ← resetClient (bc_name next);
  match previous with
  | Some p => on_auth (inheritCredentialLine (auth_client p) (auth_client next))
  | None => mret tt
  end ;;
  registerClient next ;;
  match previous with Some p => hh_adopt host next p | None => mret tt end.

(** The step [prepareClients] returns. *)
Definition commit (replacements : list BuiltClient) : P unit := pforeach replacements swap_in.

(** The constructors run, or one of them throws. *)
Definition prepare_ (declared : list CreateClientData) (retiring : list string) : P (list BuiltClient) :=
  s ← get_state;
  match prepareClients implements same_object (tt_clients s) retiring (tt_objects s) declared with
  | Ok built => modify_state (fun s => set_objects (tt_objects s + length built) s) ;; mret built
  | Throw e => raise (JsError e)
  end.

Definition generateClients (declared : list CreateClientData) : P unit :=
  built ← prepare_ declared []; commit built.

(** *** Building a tenant *)

Definition recorded_names (templateName instanceId : string) (s : TemplateState) : option (list string) :=
  omap_get templateName (tt_clientMap s) ≫= omap_get instanceId.

Definition retiringNames (templateName instanceId : string) (newClientNames : list string) (s : TemplateState)
    : list string :=
  filter (fun n => n ∉ newClientNames) (default [] (recorded_names templateName instanceId s)).

Definition templateClientNamesKey (entry : string) : string := namespace +:+ ":templateClients:" +:+ entry.

Definition record_names (templateName instanceId : string) (names : list string) (s : TemplateState) : TemplateState :=
  set_clientMap
    (omap_set templateName (omap_set instanceId names (default [] (omap_get templateName (tt_clientMap s))))
       (tt_clientMap s)) s.

Definition retire_client (name : string) : P unit :=
  s ← get_state;
  match omap_get name (tt_clients s) with
  | Some stale =>
      hh_destroy host stale removal ;;
      modify_state (fun s => set_clients (omap_delete name (tt_clients s)) s)
  | None => mret tt
  end.

Definition doBuildAndRegister (templateName instanceId : string) (credentials : value) (generation : nat)
    (settings : TemplateClientOptions) : P unit :=
  let entry := tenant_entry templateName instanceId in
  s ← get_state;
  match omap_get templateName (tt_templates s) with
  | None => mret tt
  | Some template =>
      build ← of_result (planTemplateBuild template templateName instanceId credentials settings);
      s ← get_state;
      let retiring := retiringNames templateName instanceId (tb_names build) s in
      built ← prepare_ (tb_clients build) retiring;
      pforeach retiring retire_client ;;
      modify_state (record_names templateName instanceId (tb_names build)) ;;
      let namesKey := templateClientNamesKey entry in
      or_value (call_ (CDel [namesKey])) tt ;;
      pforeach (tb_names build) (fun name => or_value (call_ (CSadd namesKey name)) tt) ;;
      stale ← superseded entry generation;
      if (stale : bool) then mret tt else commit built
  end.

Definition buildAndRegisterTemplateClients (templateName instanceId : string) (credentials : value)
    (settings : TemplateClientOptions) (generation : nat) : P unit :=
  stale ← superseded (tenant_entry templateName instanceId) generation;
  if (stale : bool) then mret tt
  else doBuildAndRegister templateName instanceId credentials generation settings.

(** What storing a record would be refused for. *)
Definition assertTemplateClientBuildable (templateName instanceId : string) (credentials : value)
    (settings : TemplateClientOptions) : P unit :=
  s ← get_state;
  match omap_get templateName (tt_templates s) with
  | None => mret tt
  | Some template =>
      build ← of_result (planTemplateBuild template templateName instanceId credentials settings);
      prepare_ (tb_clients build) (retiringNames templateName instanceId (tb_names build) s) ;; mret tt
  end.

(** *** Stored records *)

Definition encryptCredentials (credentials : value) : P string := fun s b =>
  let '(text, st) := encrypt (stringify_text credentials) key (z_crypto (tt_auth s)) in
  (Return text, (set_auth (set_crypto st (tt_auth s)) s, b)).

(** None when the text is not this key's, or holds no JSON. *)
Definition decryptCredentials (encrypted : string) : P (option value) := fun s b =>
  let '(text, st) := decrypt encrypted key (z_crypto (tt_auth s)) in
  (Return (of_json <$> (text ≫= parse)), (set_auth (set_crypto st (tt_auth s)) s, b)).

Definition template_key (entry : string) : string := namespace +:+ ":template:" +:+ entry.
Definition overrides_key (entry : string) : string := namespace +:+ ":overrides:" +:+ entry.
Definition templates_key : string := namespace +:+ ":templates".

Definition readTemplateClientOptions (entry : string) : P (option value) :=
  raw ← call_ (CGet (overrides_key entry)); mret (read_settings raw).

(** A build from stored settings; limits of another shape than a list end it. *)
Definition typed_or_raise (settings : option value) : P TemplateClientOptions :=
  match typed_settings settings with Some t => mret t | None => raise (ForeignError "TypeError") end.

Definition rebuildTemplateClient (templateName instanceId : string) : P unit :=
  let entry := tenant_entry templateName instanceId in
  generation ← templateEntryGeneration templateName instanceId;
  encrypted ← call_ (CGet (template_key entry));
  match truthy encrypted with
  | None => mret tt
  | Some text =>
      credentials ← decryptCredentials text;
      match credentials with
      | None => raise (ForeignError "undecryptable credentials")
      | Some c =>
          settings ← readTemplateClientOptions entry;
          typed ← typed_or_raise settings;
          buildAndRegisterTemplateClients templateName instanceId c typed generation
      end
  end.

(** *** Removing a tenant *)

Definition credential_keys (name : string) (grantIds : list string) : list string :=
  let ns := namespace +:+ ":" +:+ underscored name in
  (ns +:+ ":oauth2") :: map (fun g => ns +:+ ":oauth2:" +:+ g) grantIds ++ [ns +:+ ":grants"].

Definition grants_index (name : string) : string := namespace +:+ ":" +:+ underscored name +:+ ":grants".

(** [client.purgeCredentials()]: the keys of whoever owns the authentication. *)
Definition purge_client (client : BuiltClient) : P unit :=
  let owner := default (bc_name client) (cf_authOwnerName (cd_fields (bc_data client))) in
  grantIds ← call_ (CSmembers (grants_index owner));
  pforeach (credential_keys owner grantIds) (fun k => or_value (call_ (CDel [k])) tt).

Definition purgeCredentialsByName (templateName instanceId : string) : P unit :=
  names ← call_ (CSmembers (templateClientNamesKey (tenant_entry templateName instanceId)));
  pforeach names (fun name =>
    grantIds ← call_ (CSmembers (grants_index name));
    pforeach (credential_keys name grantIds) (fun k => call_ (CDel [k]))).

Definition destroy_client (reason : DestroyReason) (c : string * BuiltClient) : P unit :=
  hh_destroy host c.2 reason ;;
  s ← get_state;
  match omap_get c.1 (tt_clients s) with
  | Some current =>
      if bool_decide (bc_object current = bc_object c.2) then
        modify_state (fun s => set_clients (omap_delete c.1 (tt_clients s)) s)
      else mret tt
  | None => mret tt
  end.

Definition forget_names (templateName instanceId : string) (names : option (list string)) (s : TemplateState)
    : TemplateState :=
  match names, omap_get templateName (tt_clientMap s) with
  | Some n, Some instances =>
      if bool_decide (omap_get instanceId instances = Some n) then
        set_clientMap (omap_set templateName (omap_delete instanceId instances) (tt_clientMap s)) s
      else s
  | _, _ => s
  end.

Definition doDestroy (templateName instanceId : string) (purgeCredentials : bool) : P unit :=
  let entry := tenant_entry templateName instanceId in
  s ← get_state;
  let names := recorded_names templateName instanceId s in
  let clients := omap (fun n => pair n <$> omap_get n (tt_clients s)) (default [] names) in
  on_auth (fun a => fold_left (fun a c => retireCredentialWrites (auth_client c.2) a) clients a) ;;
  pforeach clients (destroy_client (if purgeCredentials then finalRemoval else removal)) ;;
  gone ← (if purgeCredentials then mret true
          else if bool_decide (clients = [] :> list (string * BuiltClient)) then mret false
          else or_value (entries ← call_ (CSmembers templates_key); mret (negb (bool_decide (entry ∈ entries)))) false);
  pwhen gone (pforeach clients (fun c => purge_client c.2)) ;;
  pwhen (purgeCredentials && bool_decide (length clients = 0%nat))
    (or_value (purgeCredentialsByName templateName instanceId) tt) ;;
  modify_state (forget_names templateName instanceId names) ;;
  modify_state (fun s => set_local (oset_delete entry (tt_local s)) s).

Definition destroyTemplateClients (templateName instanceId : string) (purgeCredentials : bool) : P unit :=
  let entry := tenant_entry templateName instanceId in
  modify_state (fun s => set_generations (omap_set entry (S (generation_of entry s)) (tt_generations s)) s) ;;
  doDestroy templateName instanceId purgeCredentials.

(** *** Start-up *)

Definition load_entry (entry : string) : P (list string) :=
  match split_entry entry with
  | None => mret []
  | Some (templateName, instanceId) =>
      let seen := [tenant_entry templateName instanceId] in
      s ← get_state;
      match omap_get templateName (tt_templates s), recorded_names templateName instanceId s with
      | Some _, None =>
          generation ← templateEntryGeneration templateName instanceId;
          encrypted ← call_ (CGet (template_key entry));
          match truthy encrypted with
          | None => mret seen
          | Some text =>
              credentials ← decryptCredentials text;
              match credentials with
              | None => mret seen
              | Some c =>
                  or_value
                    (settings ← readTemplateClientOptions entry;
                     typed ← typed_or_raise settings;
                     buildAndRegisterTemplateClients templateName instanceId c typed generation) tt ;;
                  mret seen
              end
          end
      | _, _ => mret seen
      end
  end.

Definition loadTemplateClientsFromBackend : P unit :=
  entries ← call_ (CSmembers templates_key);
  seenInBackend ← pfold (fun acc entry => seen ← load_entry entry; mret (acc ++ seen)) [] entries;
  s ← get_state;
  pforeach (tt_clientMap s) (fun t =>
    pforeach t.2 (fun i =>
      let entry := tenant_entry t.1 i.1 in
      s ← get_state;
      if bool_decide (entry ∈ seenInBackend) || bool_decide (entry ∈ tt_local s) then mret tt
      else destroyTemplateClients t.1 i.1 false)).

(** *** The handler's methods: [core/src/index.ts] *)

Definition unavailable (code message : string) : client_error := ClientUnavailableError code message.

Definition assertNotStopped (action : string) : P unit :=
  s ← get_state;
  if tt_stoppedByCaller s then
    raise (unavailable "handler_stopped"
      ("Request handler was stopped and cannot " +:+ action +:+ " until start() is called again."))
  else mret tt.

Definition assertTemplateMutationAllowed : P unit :=
  s ← get_state;
  if bool_decide (tt_status s = "stopping") || tt_stopping s then
    raise (unavailable "handler_stopping" "Request handler is stopping and cannot mutate template clients.")
  else assertNotStopped "mutate template clients".

Definition start_if_stopped : P unit :=
  s ← get_state; if bool_decide (tt_status s = "stopped") then hh_start host else mret tt.

Definition assertInstanceSegments (credentials : value) : result unit :=
  assertNameSegment (value_field credentials "instanceId") "instanceId" ;;
  match value_field credentials "organizationId" with
  | VUndefined | VNull => Ok tt
  | v => assertNameSegment v "organizationId"
  end.

Definition instance_of (credentials : value) : string := string_of (value_field credentials "instanceId").

Definition announcement (templateName instanceId : string) : string :=
  stringify (JObj [("templateName", JStr templateName); ("instanceId", JStr instanceId)]).

(** [JSON.parse(JSON.stringify(credentials))]. *)
Definition as_read_back (credentials : value) : value := match to_json credentials with Some j => of_json j | None => VUndefined end.

Definition doAddTemplateClient (templateName : string) (credentials settings : value) : P unit :=
  s ← get_state;
  match omap_get templateName (tt_templates s) with
  | None => mret tt
  | Some template =>
      of_result (assertRateLimitOptionAllowed templateName (Some (tp_options template)) (value_field settings "rateLimitOption")) ;;
      of_result (assertInstanceSegments credentials) ;;
      let instanceId := instance_of credentials in
      typed ← typed_or_raise (Some settings);
      assertTemplateClientBuildable templateName instanceId (as_read_back credentials) typed ;;
      let entry := tenant_entry templateName instanceId in
      encrypted ← encryptCredentials credentials;
      call_ (CBatch [BSet (template_key entry) encrypted None; BSadd templates_key entry;
                     match serializeTemplateClientOptions settings with
                     | Some json => BSet (overrides_key entry) json None
                     | None => BDel (overrides_key entry)
                     end]) ;;
      rebuildTemplateClient templateName instanceId ;;
      call_ (CPublish (namespace +:+ ":templateClientAdded") (announcement templateName instanceId))
  end.

Definition addTemplateClient (templateName : string) (credentials options : value) : P unit :=
  assertTemplateMutationAllowed ;;
  start_if_stopped ;;
  settings ← of_result (normalizeTemplateClientOptions templateName options);
  doAddTemplateClient templateName credentials settings ;;
  hh_scheduleClientRoles host.

Definition addLocalTemplateClient (templateName : string) (credentials options : value) : P unit :=
  assertTemplateMutationAllowed ;;
  start_if_stopped ;;
  s ← get_state;
  match omap_get templateName (tt_templates s) with
  | None => mret tt
  | Some template =>
      settings ← of_result (normalizeTemplateClientOptions templateName options);
      of_result (assertRateLimitOptionAllowed templateName (Some (tp_options template)) (value_field settings "rateLimitOption")) ;;
      of_result (assertInstanceSegments credentials) ;;
      let instanceId := instance_of credentials in
      modify_state (fun s => set_local (oset_add (tenant_entry templateName instanceId) (tt_local s)) s) ;;
      typed ← typed_or_raise (Some settings);
      generation ← templateEntryGeneration templateName instanceId;
      buildAndRegisterTemplateClients templateName instanceId credentials typed generation ;;
      hh_scheduleClientRoles host
  end.

Definition removeTemplateClient (templateName instanceId : string) : P unit :=
  assertTemplateMutationAllowed ;;
  start_if_stopped ;;
  destroyTemplateClients templateName instanceId true ;;
  let entry := tenant_entry templateName instanceId in
  call_ (CBatch [BDel (template_key entry); BDel (overrides_key entry); BSrem templates_key entry;
                 BDel (templateClientNamesKey entry)]) ;;
  call_ (CPublish (namespace +:+ ":templateClientRemoved") (announcement templateName instanceId)).

Definition valid_template_name (name : string) : bool :=
  negb (bool_decide (name = "")) && negb (includes_char ":" name) && negb (has_space name).

Definition registerClientTemplate (name : string) (template : RegisteredTemplate) : P unit :=
  if negb (valid_template_name name) then
    raise (JsError (ConfigurationError "invalid_template_name"
      ("Template name " +:+ stringify (JStr name) +:+ " must be a non-empty string with no " +:+ dq ":"
       +:+ " and no whitespace — it is the first segment of every client name it builds, and backend keys normalize whitespace to "
       +:+ dq "_" +:+ ".")))
  else
    of_result (assertTemplateOptions name (tp_options template)) ;;
    modify_state (fun s => set_templates (omap_set name template (tt_templates s)) s) ;;
    s ← get_state;
    if negb (bool_decide (tt_status s = "started")) then mret tt
    else
      entries ← call_ (CSmembers templates_key);
      let mine := omap (drop_prefix (name +:+ "::")) entries in
      pforeach mine (fun instanceId => or_value (rebuildTemplateClient name instanceId) tt) ;;
      if bool_decide (mine = []) then mret tt else hh_scheduleClientRoles host.
End handler.
