(* ===== verification/Process.v ===== *)
(** * The process a handler lives in

    What [packages/core/src/index.ts] does about the signals that end a process,
    across all the handlers of one process: a shutdown signal stops every started
    handler, and once they have stopped the signal is raised again, unless the
    host listens for it.  A handler's own state is [Lifecycle]'s: its listeners are there
    while it is started, and [stop] takes them off before it first waits. *)
From S2P Require Import Prelude.

(** ** Signals and listeners *)

Inductive signal := SIGTERM | SIGINT | SIGHUP.

#[export] Instance signal_eq_dec : EqDecision signal.
Proof. solve_decision. Defined.

Definition SHUTDOWN_SIGNALS : list signal := [SIGTERM; SIGINT; SIGHUP].

(** A function: a [shutdownHandler] with the handler it closes over, or one of
    the host's. *)
Inductive callback := Ours (handler : string) (n : nat) | Hosts (n : nat).

#[export] Instance callback_eq_dec : EqDecision callback.
Proof. solve_decision. Defined.

(** An entry of [process.rawListeners(signal)]: [li_fn] is what [originalListener]
    finds, behind a wrapper when it was added with [once]. *)
Record listener := { li_fn : callback; li_once : bool }.

Inductive process_end := KilledBy (s : signal) | Exited (code : Z).

Record Process := {
  pr_listeners : signal -> list listener;
  pr_own : list callback;  (** [ownSignalListeners] *)
  pr_registered : gmap string callback;  (** each handler's [shutdownHandler], once registered *)
  pr_signalStops : list string;
  pr_stops : list (string * signal);  (** calls of [stop] by a [shutdownHandler], until they settle *)
  pr_hostSignals : list signal;
  pr_watching : bool;  (** [watchingHostSignals] *)
  pr_next : nat;
  pr_caught : list signal;  (** signals the runtime caught and has not emitted yet *)
  pr_end : option process_end
}.

Definition with_listeners (f : signal -> list listener) (p : Process) : Process :=
  {| pr_listeners := f; pr_own := pr_own p; pr_registered := pr_registered p; pr_signalStops := pr_signalStops p;
     pr_stops := pr_stops p; pr_hostSignals := pr_hostSignals p; pr_watching := pr_watching p; pr_next := pr_next p;
     pr_caught := pr_caught p; pr_end := pr_end p |}.

Definition with_registered (r : gmap string callback) (p : Process) : Process :=
  {| pr_listeners := pr_listeners p; pr_own := pr_own p; pr_registered := r; pr_signalStops := pr_signalStops p;
     pr_stops := pr_stops p; pr_hostSignals := pr_hostSignals p; pr_watching := pr_watching p; pr_next := pr_next p;
     pr_caught := pr_caught p; pr_end := pr_end p |}.

Definition with_stops (names : list string) (stops : list (string * signal)) (p : Process) : Process :=
  {| pr_listeners := pr_listeners p; pr_own := pr_own p; pr_registered := pr_registered p; pr_signalStops := names;
     pr_stops := stops; pr_hostSignals := pr_hostSignals p; pr_watching := pr_watching p; pr_next := pr_next p;
     pr_caught := pr_caught p; pr_end := pr_end p |}.

Definition with_host (signals : list signal) (watching : bool) (p : Process) : Process :=
  {| pr_listeners := pr_listeners p; pr_own := pr_own p; pr_registered := pr_registered p;
     pr_signalStops := pr_signalStops p; pr_stops := pr_stops p; pr_hostSignals := signals; pr_watching := watching;
     pr_next := pr_next p; pr_caught := pr_caught p; pr_end := pr_end p |}.

Definition with_own (f : callback) (p : Process) : Process :=
  {| pr_listeners := pr_listeners p; pr_own := f :: pr_own p; pr_registered := pr_registered p;
     pr_signalStops := pr_signalStops p; pr_stops := pr_stops p; pr_hostSignals := pr_hostSignals p;
     pr_watching := pr_watching p; pr_next := S (pr_next p); pr_caught := pr_caught p; pr_end := pr_end p |}.

Definition with_signals (caught : list signal) (e : option process_end) (p : Process) : Process :=
  {| pr_listeners := pr_listeners p; pr_own := pr_own p; pr_registered := pr_registered p;
     pr_signalStops := pr_signalStops p; pr_stops := pr_stops p; pr_hostSignals := pr_hostSignals p;
     pr_watching := pr_watching p; pr_next := pr_next p; pr_caught := caught; pr_end := e |}.

(** Node emits [newListener] before it adds one: the watch on it notes a signal
    the host listens for. *)
Definition add_host_signal (s : signal) (p : Process) : Process :=
  with_host (oset_add s (pr_hostSignals p)) (pr_watching p) p.

Definition on_new_listener (s : signal) (f : callback) (p : Process) : Process :=
  if pr_watching p && negb (bool_decide (f ∈ pr_own p)) then add_host_signal s p else p.

Definition add_listener (s : signal) (l : listener) (p : Process) : Process :=
  let p := on_new_listener s (li_fn l) p in
  with_listeners (fun s' => if decide (s' = s) then pr_listeners p s' ++ [l] else pr_listeners p s') p.

(** [removeListener] removes the entry of a function that was added last. *)
Fixpoint remove_listener (f : callback) (ls : list listener) : list listener :=
  match ls with
  | [] => []
  | l :: ls' =>
      if existsb (fun l => bool_decide (li_fn l = f)) ls' then l :: remove_listener f ls'
      else if bool_decide (li_fn l = f) then ls' else l :: ls'
  end.

Definition remove_from (s : signal) (f : callback) (p : Process) : Process :=
  with_listeners (fun s' => if decide (s' = s) then remove_listener f (pr_listeners p s') else pr_listeners p s') p.

(** What a wrapper that fires removes is itself. *)
Fixpoint remove_once (f : callback) (ls : list listener) : list listener :=
  match ls with
  | [] => []
  | l :: ls' => if li_once l && bool_decide (li_fn l = f) then ls' else l :: remove_once f ls'
  end.

Definition fired_from (s : signal) (f : callback) (p : Process) : Process :=
  with_listeners (fun s' => if decide (s' = s) then remove_once f (pr_listeners p s') else pr_listeners p s') p.

(** ** Registering *)

Definition watchHostSignals (p : Process) : Process :=
  let note s p :=
    if existsb (fun l => negb (bool_decide (li_fn l ∈ pr_own p))) (pr_listeners p s) then add_host_signal s p else p in
  let p := fold_left (fun p s => note s p) SHUTDOWN_SIGNALS p in
  with_host (pr_hostSignals p) true p.

Definition registerShutdownHooks (h : string) (p : Process) : Process :=
  match pr_registered p !! h with
  | Some _ => p
  | None =>
      let f := Ours h (pr_next p) in
      let p := with_own f (with_registered (<[h := f]> (pr_registered p)) p) in
      let p := watchHostSignals p in
      fold_left (fun p s => add_listener s {| li_fn := f; li_once := true |} p) SHUTDOWN_SIGNALS p
  end.

Definition unregisterShutdownHooks (h : string) (p : Process) : Process :=
  match pr_registered p !! h with
  | None => p
  | Some f =>
      with_registered (delete h (pr_registered p)) (fold_left (fun p s => remove_from s f p) SHUTDOWN_SIGNALS p)
  end.

Section process.
(** Whether [process.kill] supports a signal; the signal's number; the handlers
    a listener of the host's calls [stop] on. *)
Context (kill_works : signal -> bool) (signal_number : signal -> Z) (host_stops : nat -> list string).

(** ** A signal arrives *)

(** [stop] removes the listeners before it first waits. *)
Definition shutdownHandler (h : string) (s : signal) (p : Process) : Process :=
  let p := with_stops (oset_add h (pr_signalStops p)) (pr_stops p ++ [(h, s)]) p in
  unregisterShutdownHooks h p.

Definition fire (s : signal) (p : Process) (l : listener) : Process :=
  let p := if li_once l then fired_from s (li_fn l) p else p in
  match li_fn l with
  | Ours h _ => shutdownHandler h s p
  | Hosts n => foldr unregisterShutdownHooks p (host_stops n)
  end.

(** [emit] calls the listeners there are when it starts. *)
Definition emit (s : signal) (p : Process) : Process := fold_left (fire s) (pr_listeners p s) p.

(** A signal without a listener has its default action at once; one with a
    listener is emitted on a later turn. *)
Definition raise_signal (s : signal) (p : Process) : Process :=
  match pr_listeners p s with
  | [] => with_signals (pr_caught p) (Some (KilledBy s)) p
  | _ => with_signals (pr_caught p ++ [s]) (pr_end p) p
  end.

Definition restoreSignalDefault (s : signal) (p : Process) : Process :=
  if negb (bool_decide (pr_signalStops p = [])) || bool_decide (s ∈ pr_hostSignals p) then p
  else if kill_works s then raise_signal s p
  else with_signals (pr_caught p) (Some (Exited (128 + signal_number s))) p.

Fixpoint remove_stop (x : string * signal) (l : list (string * signal)) : list (string * signal) :=
  match l with
  | [] => []
  | y :: l' => if decide (y = x) then l' else y :: remove_stop x l'
  end.

Definition stop_settles (h : string) (s : signal) (p : Process) : Process :=
  restoreSignalDefault s
    (with_stops (oset_delete h (pr_signalStops p)) (remove_stop (h, s) (pr_stops p)) p).

(** ** The machine *)

Inductive ProcessLabel :=
  | Started (h : string)  (** a handler's start ends well *)
  | Stopped (h : string)  (** [stop] is called, by anybody *)
  | SignalRaised (s : signal)
  | SignalEmitted
  | StopSettles (h : string) (s : signal)
  | HostOn (s : signal) (n : nat) (once : bool)
  | HostOff (s : signal) (n : nat).

Definition process_step (x : ProcessLabel) (p : Process) : option Process :=
  match pr_end p with
  | Some _ => None
  | None =>
      match x with
      | Started h => Some (registerShutdownHooks h p)
      | Stopped h => Some (unregisterShutdownHooks h p)
      | SignalRaised s => Some (raise_signal s p)
      | SignalEmitted =>
          match pr_caught p with
          | [] => None
          | s :: caught => Some (emit s (with_signals caught None p))
          end
      | StopSettles h s => if bool_decide ((h, s) ∈ pr_stops p) then Some (stop_settles h s p) else None
      | HostOn s n once => Some (add_listener s {| li_fn := Hosts n; li_once := once |} p)
      | HostOff s n => Some (remove_from s (Hosts n) p)
      end
  end.

Fixpoint process_run (xs : list ProcessLabel) (p : Process) : option Process :=
  match xs with
  | [] => Some p
  | x :: xs => p' ← process_step x p; process_run xs p'
  end.
End process.

(** ** Listeners *)

Definition is_ours (f : callback) : bool := match f with Ours _ _ => true | Hosts _ => false end.
Definition ours_of (ls : list listener) : list callback := filter (fun f => is_ours f = true) (li_fn <$> ls).

Lemma elem_of_ours_of ls h n : Ours h n ∈ ours_of ls <-> Ours h n ∈ li_fn <$> ls.
Proof. unfold ours_of. rewrite list_elem_of_filter. intuition. Qed.

Lemma ours_of_cons l ls : ours_of (l :: ls) = if is_ours (li_fn l) then li_fn l :: ours_of ls else ours_of ls.
Proof. unfold ours_of. rewrite fmap_cons, filter_cons. case_decide as E; [by rewrite E|by destruct (is_ours _)]. Qed.

Lemma existsb_fn f ls : existsb (fun l => bool_decide (li_fn l = f)) ls = bool_decide (f ∈ li_fn <$> ls).
Proof.
  apply Bool.eq_iff_eq_true. rewrite existsb_exists, bool_decide_eq_true, list_elem_of_fmap.
  split; intros (l & H1 & H2); exists l; [apply bool_decide_eq_true in H2|]; rewrite ?list_elem_of_In in *.
  - done.
  - split; [done|]. by apply bool_decide_eq_true.
Qed.

Lemma remove_listener_sub f ls : remove_listener f ls `sublist_of` ls.
Proof.
  induction ls as [|l ls IH]; [done|]. cbn. destruct (existsb _ _); [by apply sublist_skip|].
  case_bool_decide; [by apply sublist_cons|done].
Qed.

Lemma remove_once_sub f ls : remove_once f ls `sublist_of` ls.
Proof.
  induction ls as [|l ls IH]; [done|]. cbn. destruct (li_once l && _); [by apply sublist_cons|by apply sublist_skip].
Qed.

Lemma sublist_elem {A} (x : A) l l' : l `sublist_of` l' -> x ∈ l -> x ∈ l'.
Proof. intros H Hx. eapply elem_of_submseteq; [exact Hx|by apply sublist_submseteq]. Qed.

Lemma remove_listener_other f g ls : f <> g -> g ∈ li_fn <$> ls -> g ∈ li_fn <$> remove_listener f ls.
Proof.
  intros Hne. induction ls as [|l ls IH]; [done|]. cbn. rewrite elem_of_cons.
  destruct (existsb _ _); cbn; [rewrite elem_of_cons; naive_solver|].
  case_bool_decide; cbn; [intros [->|]; congruence|by rewrite elem_of_cons].
Qed.

Lemma remove_once_other f g ls : f <> g -> g ∈ li_fn <$> ls -> g ∈ li_fn <$> remove_once f ls.
Proof.
  intros Hne. induction ls as [|l ls IH]; [done|]. cbn. rewrite elem_of_cons.
  destruct (li_once l && _) eqn:E; cbn; [|rewrite elem_of_cons; naive_solver].
  apply andb_prop in E as [_ E%bool_decide_eq_true]. intros [->|]; congruence.
Qed.

Lemma ours_of_sub ls ls' : ls `sublist_of` ls' -> NoDup (ours_of ls') -> NoDup (ours_of ls).
Proof.
  intros Hs Hd. eapply sublist_NoDup; [exact Hd|]. clear Hd.
  induction Hs; [done|..]; rewrite ?ours_of_cons; destruct (is_ours _); by (apply sublist_skip || apply sublist_cons || idtac).
Qed.

Lemma remove_listener_gone h n ls : NoDup (ours_of ls) -> Ours h n ∉ li_fn <$> remove_listener (Ours h n) ls.
Proof.
  induction ls as [|l ls IH]; [intros _ H; inversion H|]. intros Hd. cbn. rewrite existsb_fn.
  assert (NoDup (ours_of ls)) as Hd' by (apply (ours_of_sub ls (l :: ls)); [by apply sublist_cons|done]).
  case_bool_decide as E; cbn.
  - rewrite not_elem_of_cons. split; [|by apply IH]. intros E'. revert Hd. rewrite ours_of_cons, <- E'. cbn [is_ours].
    rewrite NoDup_cons. intros [Hn _]. apply Hn. by rewrite elem_of_ours_of.
  - case_bool_decide as E'; [done|]. cbn. rewrite not_elem_of_cons. split; [congruence|done].
Qed.

(** ** What holds of every process *)

(** A listener of the program's is its handler's current one, for every signal;
    a handler [x], if any, is on its way out. *)
Record sound_but (x : option string) (p : Process) : Prop := {
  sp_own : forall f, f ∈ pr_own p -> exists h n, f = Ours h n /\ (n < pr_next p)%nat;
  sp_ours : forall s l h n, l ∈ pr_listeners p s -> li_fn l = Ours h n ->
    pr_registered p !! h = Some (Ours h n) /\ li_once l = true;
  sp_reg : forall h f, pr_registered p !! h = Some f -> f ∈ pr_own p /\ (exists n, f = Ours h n) /\
    (Some h <> x -> forall s, f ∈ li_fn <$> pr_listeners p s);
  sp_nodup : forall s, NoDup (ours_of (pr_listeners p s));
  sp_host : pr_watching p = true -> forall s n, Hosts n ∈ li_fn <$> pr_listeners p s -> s ∈ pr_hostSignals p;
  sp_watch : pr_registered p <> ∅ -> pr_watching p = true
}.

Abbreviation sound_process := (sound_but None).

Lemma listeners_unregistered h f p s : pr_registered p !! h = Some f ->
  pr_listeners (unregisterShutdownHooks h p) s = remove_listener f (pr_listeners p s).
Proof. intros E. unfold unregisterShutdownHooks. rewrite E. by destruct s. Qed.

Lemma elem_of_removed f g ls : g ∈ li_fn <$> remove_listener f ls -> g ∈ li_fn <$> ls.
Proof. rewrite !list_elem_of_fmap. intros (l & -> & H). exists l. split; [done|]. eapply sublist_elem; [apply remove_listener_sub|exact H]. Qed.

Lemma elem_of_once_removed f g ls : g ∈ li_fn <$> remove_once f ls -> g ∈ li_fn <$> ls.
Proof. rewrite !list_elem_of_fmap. intros (l & -> & H). exists l. split; [done|]. eapply sublist_elem; [apply remove_once_sub|exact H]. Qed.

Lemma unregister_sound x h p : sound_but x p -> (x = None \/ x = Some h) -> sound_process (unregisterShutdownHooks h p).
Proof.
  intros Hs Hx. destruct (pr_registered p !! h) as [f|] eqn:E.
  - pose proof (fun s => listeners_unregistered h f p s E) as Hl.
    assert (pr_registered (unregisterShutdownHooks h p) = delete h (pr_registered p)) as Hr
      by (unfold unregisterShutdownHooks; by rewrite E).
    assert (exists n, f = Ours h n) as [n ->] by apply (sp_reg x p Hs h f E).
    destruct Hs as [A B C D F G].
    assert (pr_own (unregisterShutdownHooks h p) = pr_own p /\ pr_next (unregisterShutdownHooks h p) = pr_next p /\
      pr_watching (unregisterShutdownHooks h p) = pr_watching p /\
      pr_hostSignals (unregisterShutdownHooks h p) = pr_hostSignals p) as (H1 & H2 & H3 & H4)
      by (unfold unregisterShutdownHooks; by rewrite E).
    revert Hl Hr H1 H2 H3 H4. generalize (unregisterShutdownHooks h p). intros q Hl Hr H1 H2 H3 H4.
    split; rewrite ?Hr, ?H1, ?H2, ?H3, ?H4; try done.
    + intros s l h' n' Hin Hf. rewrite Hl in Hin.
      assert (h' <> h) as Hne.
      { intros ->. assert (l ∈ pr_listeners p s) as Hin' by (eapply sublist_elem; [apply remove_listener_sub|exact Hin]).
        destruct (B s l h n' Hin' Hf) as [E' _]. rewrite E in E'. injection E' as ->.
        apply (remove_listener_gone h n' (pr_listeners p s) (D s)). rewrite list_elem_of_fmap. by exists l. }
      rewrite lookup_delete_ne by done. apply (B s); [|done]. eapply sublist_elem; [apply remove_listener_sub|exact Hin].
    + intros h' f' [Hne Hf]%lookup_delete_Some. destruct (C h' f' Hf) as (C1 & [n' ->] & C3). split; [done|]. split; [by exists n'|].
      intros _ s. rewrite Hl. apply remove_listener_other; [congruence|]. apply C3. destruct Hx as [->| ->]; congruence.
    + intros s. rewrite Hl. eapply ours_of_sub; [apply remove_listener_sub|apply D].
    + intros Hw s n'. rewrite Hl. intros Hin%elem_of_removed. by eapply F.
    + intros Hne. apply G. intros Hemp. apply Hne. by rewrite Hemp, delete_empty.
  - unfold unregisterShutdownHooks. rewrite E. destruct Hs as [A B C D F G]. split; try done.
    intros h' f' Hf. destruct (C h' f' Hf) as (C1 & C2 & C3). split_and!; [done..|]. intros _ s. apply C3.
    destruct Hx as [->| ->]; congruence.
Qed.

Lemma fired_sound s f p : sound_process p ->
  sound_but (match f with Ours h _ => Some h | Hosts _ => None end) (fired_from s f p).
Proof.
  intros [A B C D F G]. split; try done.
  - intros s' l h n. cbn. case_decide; [subst|apply B]. intros Hin. apply (B s). eapply sublist_elem; [apply remove_once_sub|exact Hin].
  - intros h g Hg. destruct (C h g Hg) as (C1 & [n ->] & C3). split; [done|]. split; [by exists n|]. intros Hne s'. cbn.
    case_decide; [subst|by apply C3]. apply remove_once_other; [|by apply C3]. destruct f; congruence.
  - intros s'. cbn. case_decide; [subst|apply D]. eapply ours_of_sub; [apply remove_once_sub|apply D].
  - intros Hw s' n. cbn. case_decide; [subst|by apply F]. intros Hin%elem_of_once_removed. by eapply F.
Qed.

Lemma remove_host_sound s n p : sound_process p -> sound_process (remove_from s (Hosts n) p).
Proof.
  intros [A B C D F G]. split; try done.
  - intros s' l h m. cbn. case_decide; [subst|apply B]. intros Hin. apply (B s). eapply sublist_elem; [apply remove_listener_sub|exact Hin].
  - intros h g Hg. destruct (C h g Hg) as (C1 & [m ->] & C3). split; [done|]. split; [by exists m|]. intros Hne s'. cbn.
    case_decide; [subst|by apply C3]. apply remove_listener_other; [done|by apply C3].
  - intros s'. cbn. case_decide; [subst|apply D]. eapply ours_of_sub; [apply remove_listener_sub|apply D].
  - intros Hw s' m. cbn. case_decide; [subst|by apply F]. intros Hin%elem_of_removed. by eapply F.
Qed.

Lemma with_stops_sound x names stops p : sound_but x p -> sound_but x (with_stops names stops p).
Proof. by intros []. Qed.

Lemma with_signals_sound x caught e p : sound_but x p -> sound_but x (with_signals caught e p).
Proof. by intros []. Qed.

Lemma ours_of_snoc ls l : ours_of (ls ++ [l]) = if is_ours (li_fn l) then ours_of ls ++ [li_fn l] else ours_of ls.
Proof.
  induction ls as [|l' ls IH]; [rewrite app_nil_l, ours_of_cons; by destruct (is_ours _)|].
  cbn [app]. rewrite !ours_of_cons, IH. destruct (is_ours (li_fn l)), (is_ours (li_fn l')); done.
Qed.

Lemma watch_eq p : watchHostSignals p = with_host (pr_hostSignals (watchHostSignals p)) true p.
Proof. unfold watchHostSignals. cbn -[existsb oset_add]. by repeat destruct (existsb _ _). Qed.

Lemma watch_host s p : s ∈ pr_hostSignals (watchHostSignals p) <->
  s ∈ pr_hostSignals p \/ exists f, f ∈ li_fn <$> pr_listeners p s /\ f ∉ pr_own p.
Proof.
  assert (forall s, existsb (fun l => negb (bool_decide (li_fn l ∈ pr_own p))) (pr_listeners p s) = true <->
    exists f, f ∈ li_fn <$> pr_listeners p s /\ f ∉ pr_own p) as He.
  { intros s'. rewrite existsb_exists. split.
    - intros (l & Hin & Hn%negb_true_iff%bool_decide_eq_false). exists (li_fn l). split; [|done].
      rewrite list_elem_of_fmap. exists l. by rewrite list_elem_of_In.
    - intros (f & (l & -> & Hin)%list_elem_of_fmap & Hn). exists l. rewrite <- list_elem_of_In. split; [done|].
      apply negb_true_iff. by apply bool_decide_eq_false. }
  rewrite <- He. unfold watchHostSignals. cbn -[existsb oset_add].
  destruct s, (existsb _ (pr_listeners p SIGTERM)) eqn:E1; cbn -[existsb oset_add];
    destruct (existsb _ (pr_listeners p SIGINT)) eqn:E2; cbn -[existsb oset_add];
    destruct (existsb _ (pr_listeners p SIGHUP)) eqn:E3; cbn -[existsb oset_add]; rewrite ?elem_of_oset_add; naive_solver.
Qed.

Lemma registered_spec h p : pr_registered p !! h = None ->
  let f := Ours h (pr_next p) in
  let q := with_own f (with_registered (<[h := f]> (pr_registered p)) p) in
  registerShutdownHooks h p =
    with_listeners (pr_listeners (registerShutdownHooks h p)) (with_host (pr_hostSignals (watchHostSignals q)) true q) /\
  forall s, pr_listeners (registerShutdownHooks h p) s = pr_listeners p s ++ [{| li_fn := f; li_once := true |}].
Proof.
  intros E f q. unfold registerShutdownHooks. rewrite E. fold f q. rewrite (watch_eq q).
  generalize (pr_hostSignals (watchHostSignals q)). intros hs.
  assert (forall p s, f ∈ pr_own p -> on_new_listener s f p = p) as Hon.
  { intros p' s Hin. unfold on_new_listener. by rewrite (bool_decide_eq_true_2 _ Hin), andb_false_r. }
  unfold add_listener. cbn [fold_left SHUTDOWN_SIGNALS li_fn].
  rewrite (Hon _ SIGTERM), (Hon _ SIGINT), (Hon _ SIGHUP) by (cbn; left). split; [done|]. by intros [].
Qed.

Lemma register_sound h p : sound_process p -> sound_process (registerShutdownHooks h p).
Proof.
  intros Hs. destruct (pr_registered p !! h) as [f|] eqn:E; [unfold registerShutdownHooks; by rewrite E|].
  destruct (registered_spec h p E) as [Heq Hl]. cbn zeta in Heq. rewrite Heq. clear Heq.
  set (f := Ours h (pr_next p)) in *. set (q := with_own f _) in *.
  revert Hl. generalize (pr_listeners (registerShutdownHooks h p)). intros L Hl.
  pose proof (fun s => watch_host s q) as Hw. revert Hw. generalize (pr_hostSignals (watchHostSignals q)). intros hs Hw.
  destruct Hs as [A B C D F G]. subst q.
  split; cbn [pr_own pr_listeners pr_registered pr_watching pr_hostSignals pr_next with_listeners with_host with_own with_registered].
  - intros g [->|Hg]%elem_of_cons; [exists h, (pr_next p); split; [done|lia]|].
    destruct (A g Hg) as (h' & n & -> & Hn). exists h', n. split; [done|lia].
  - intros s l h' n. rewrite Hl, elem_of_app, list_elem_of_singleton. intros [Hin| ->] Hf.
    + destruct (B s l h' n Hin Hf) as [H1 H2]. split; [|done]. rewrite lookup_insert_ne; [done|congruence].
    + cbn in Hf. injection Hf as <- <-. by rewrite lookup_insert_eq.
  - intros h' g. destruct (decide (h' = h)) as [->|Hne].
    + rewrite lookup_insert_eq. intros [= <-]. split; [left|]. split; [by eexists|]. intros _ s. rewrite Hl, fmap_app, elem_of_app.
      right. cbn. left.
    + rewrite lookup_insert_ne by done. intros Hg. destruct (C h' g Hg) as (C1 & C2 & C3). split; [by right|]. split; [done|].
      intros Hx s. rewrite Hl, fmap_app, elem_of_app. left. by apply C3.
  - intros s. rewrite Hl, ours_of_snoc. cbn [li_fn]. change (is_ours f) with true. cbv iota. rewrite NoDup_app. split_and!; [done| |apply NoDup_singleton].
    intros g Hg ->%list_elem_of_singleton. unfold f in Hg. rewrite elem_of_ours_of, list_elem_of_fmap in Hg. destruct Hg as (l & Hf & Hin).
    destruct (B s l _ _ Hin (eq_sym Hf)). congruence.
  - intros _ s n. rewrite Hl, fmap_app, elem_of_app. cbn. intros [Hin|Hin]; [|by apply list_elem_of_singleton in Hin].
    apply Hw. right. exists (Hosts n). split; [done|]. cbn. rewrite not_elem_of_cons. split; [done|].
    intros Ho. destruct (A _ Ho) as (? & ? & ? & _). done.
  - done.
Qed.

Lemma add_host_sound s n once p : sound_process p -> sound_process (add_listener s {| li_fn := Hosts n; li_once := once |} p).
Proof.
  intros [A B C D F G]. assert (Hosts n ∉ pr_own p) as Hn by (intros Ho; by destruct (A _ Ho) as (? & ? & ? & _)).
  assert (exists hs, add_listener s {| li_fn := Hosts n; li_once := once |} p =
    with_listeners (fun s' => if decide (s' = s) then pr_listeners p s' ++ [{| li_fn := Hosts n; li_once := once |}] else pr_listeners p s')
      (with_host hs (pr_watching p) p) /\ (forall x, x ∈ pr_hostSignals p -> x ∈ hs) /\ (pr_watching p = true -> s ∈ hs))
    as (hs & -> & H1 & H2).
  { unfold add_listener, on_new_listener. cbn [li_fn]. rewrite (bool_decide_eq_false_2 _ Hn), andb_true_r.
    destruct (pr_watching p) eqn:Ew.
    - exists (oset_add s (pr_hostSignals p)). split; [unfold add_host_signal; by rewrite Ew|]. split; [|intros _].
      + intros x Hx. apply elem_of_oset_add. by right.
      + apply elem_of_oset_add. by left.
    - exists (pr_hostSignals p). split; [|done]. destruct p; cbn in *; by subst. }
  split; cbn -[ours_of]; try done.
  - intros s' l h m. case_decide; [subst|apply B]. rewrite elem_of_app, list_elem_of_singleton. intros [Hin| ->]; [by apply (B s)|done].
  - intros h f Hf. destruct (C h f Hf) as (C1 & C2 & C3). split_and!; [done..|]. intros Hx s'. case_decide; [subst|by apply C3].
    rewrite fmap_app, elem_of_app. left. by apply C3.
  - intros s'. case_decide; [subst|apply D]. rewrite ours_of_snoc. apply D.
  - intros Hw s' m. case_decide; [subst|intros; by eapply H1, F]. intros _. by apply H2.
Qed.

Section sound.
Context (kill_works : signal -> bool) (signal_number : signal -> Z) (host_stops : nat -> list string).

Lemma fire_sound s p l : sound_process p -> (li_once l = false -> is_ours (li_fn l) = false) ->
  sound_process (fire host_stops s p l).
Proof.
  intros Hs Ho. unfold fire. destruct (li_fn l) as [h n|n] eqn:Ef.
  - destruct (li_once l); [|by specialize (Ho eq_refl)]. unfold shutdownHandler.
    apply (unregister_sound (Some h)); [|by right]. apply with_stops_sound. by apply (fired_sound s (Ours h n)).
  - assert (sound_process (if li_once l then fired_from s (Hosts n) p else p)) as Hs' by
      (destruct (li_once l); [by apply (fired_sound s (Hosts n))|done]).
    induction (host_stops n) as [|h hs IH]; [done|]. cbn. apply (unregister_sound None); [done|by left].
Qed.

Lemma fires_sound s ls p : sound_process p -> (forall l, l ∈ ls -> li_once l = false -> is_ours (li_fn l) = false) ->
  sound_process (fold_left (fire host_stops s) ls p).
Proof.
  revert p. induction ls as [|l ls IH]; intros p Hs Ho; [done|]. cbn. apply IH; [|intros l' Hl'; apply Ho; by right].
  apply fire_sound; [done|apply Ho; left].
Qed.

Lemma emit_sound s p : sound_process p -> sound_process (emit host_stops s p).
Proof.
  intros Hs. apply fires_sound; [done|]. intros l Hin Hl. destruct (li_fn l) eqn:E; [|done].
  destruct (sp_ours None p Hs s l _ _ Hin E). congruence.
Qed.

Lemma raise_sound s p : sound_process p -> sound_process (raise_signal s p).
Proof. intros Hs. unfold raise_signal. destruct (pr_listeners p s); by apply with_signals_sound. Qed.

Lemma process_step_sound x p p' : sound_process p -> process_step kill_works signal_number host_stops x p = Some p' -> sound_process p'.
Proof.
  intros Hs. unfold process_step. destruct (pr_end p); [done|]. destruct x.
  - intros [= <-]. by apply register_sound.
  - intros [= <-]. apply (unregister_sound None); [done|by left].
  - intros [= <-]. by apply raise_sound.
  - destruct (pr_caught p); [done|]. intros [= <-]. by apply emit_sound, with_signals_sound.
  - case_bool_decide; [|done]. intros [= <-]. unfold stop_settles, restoreSignalDefault.
    destruct (_ || _); [by apply with_stops_sound|]. destruct (kill_works s); [by apply raise_sound, with_stops_sound|].
    by apply with_signals_sound, with_stops_sound.
  - intros [= <-]. by apply add_host_sound.
  - intros [= <-]. by apply remove_host_sound.
Qed.
End sound.

(** ** From a signal to the end *)

(** A process in which no handler has started yet, with what the host listens with. *)
Definition fresh_process (host : signal -> list (nat * bool)) : Process :=
  {| pr_listeners := fun s => (fun x => {| li_fn := Hosts x.1; li_once := x.2 |}) <$> host s; pr_own := [];
     pr_registered := ∅; pr_signalStops := []; pr_stops := []; pr_hostSignals := []; pr_watching := false; pr_next := 0;
     pr_caught := []; pr_end := None |}.

Lemma fresh_process_sound host : sound_process (fresh_process host).
Proof.
  split; try done.
  - intros f Hf. exfalso. inversion Hf.
  - intros s l h n. cbn. rewrite list_elem_of_fmap. intros (x & -> & _) Hf. done.
  - intros s. cbn [pr_listeners fresh_process]. induction (host s) as [|x l IH]; [constructor|].
    rewrite fmap_cons, ours_of_cons. exact IH.
Qed.

Definition handlers_of (ls : list listener) : list string :=
  omap (fun l => match li_fn l with Ours h _ => Some h | Hosts _ => None end) ls.

Lemma elem_of_handlers h ls : h ∈ handlers_of ls <-> exists n, Ours h n ∈ li_fn <$> ls.
Proof.
  unfold handlers_of. rewrite list_elem_of_omap. setoid_rewrite list_elem_of_fmap. split.
  - intros (l & Hin & E). destruct (li_fn l) as [h' n|] eqn:El; [|done]. injection E as ->. by exists n, l.
  - intros (n & l & E & Hin). exists l. by rewrite <- E.
Qed.

Lemma handlers_NoDup s p : sound_process p -> NoDup (handlers_of (pr_listeners p s)).
Proof.
  intros Hs. pose proof (sp_nodup None p Hs s) as Hd. pose proof (sp_ours None p Hs s) as B.
  induction (pr_listeners p s) as [|l ls IH]; [constructor|]. rewrite ours_of_cons in Hd. unfold handlers_of. cbn.
  destruct (li_fn l) as [h n|n] eqn:E; [|apply IH; [exact Hd|intros l' h' n' Hin; apply B; by right]].
  cbn in Hd. apply NoDup_cons in Hd as [Hn Hd]. apply NoDup_cons.
  split; [|apply IH; [exact Hd|intros l' h' n' Hin; apply B; by right]].
  intros (m & Hm)%elem_of_handlers. apply Hn. rewrite elem_of_ours_of.
  pose proof Hm as (l' & E' & Hin')%list_elem_of_fmap.
  destruct (B l h n ltac:(left) E) as [R1 _]. destruct (B l' h m ltac:(by right) (eq_sym E')) as [R2 _]. congruence.
Qed.

Section ending.
Context (kill_works : signal -> bool) (signal_number : signal -> Z) (host_stops : nat -> list string).

Definition shutdown_end (s : signal) : process_end := if kill_works s then KilledBy s else Exited (128 + signal_number s).

(** What a [shutdownHandler] that fires leaves. *)
Lemma fire_ours s p l h n : li_fn l = Ours h n ->
  let p' := fire host_stops s p l in
  pr_stops p' = pr_stops p ++ [(h, s)] /\ pr_signalStops p' = oset_add h (pr_signalStops p) /\
  pr_hostSignals p' = pr_hostSignals p /\ pr_watching p' = pr_watching p /\ pr_end p' = pr_end p /\
  pr_registered p' = delete h (pr_registered p) /\ (forall s', pr_listeners p' s' `sublist_of` pr_listeners p s').
Proof.
  intros E p'. subst p'. unfold fire. rewrite E. set (p1 := if li_once l then fired_from s (Ours h n) p else p).
  assert (pr_registered p1 = pr_registered p /\ pr_stops p1 = pr_stops p /\ pr_signalStops p1 = pr_signalStops p /\
    pr_hostSignals p1 = pr_hostSignals p /\ pr_watching p1 = pr_watching p /\ pr_end p1 = pr_end p /\
    forall s', pr_listeners p1 s' `sublist_of` pr_listeners p s') as (R1 & R2 & R3 & R4 & R5 & R6 & R7).
  { subst p1. destruct (li_once l); [|done]. split_and!; try done. intros s'. cbn. case_decide; [apply remove_once_sub|done]. }
  clearbody p1. unfold shutdownHandler. rewrite <- R2, <- R3, <- R4, <- R5, <- R6, <- R1.
  set (p2 := with_stops _ _ p1).
  destruct (pr_registered p1 !! h) as [f|] eqn:Er.
  - assert (pr_registered p2 !! h = Some f) as Er2 by done.
    pose proof (fun s' => listeners_unregistered h f p2 s' Er2) as Hl. revert Hl. unfold unregisterShutdownHooks. rewrite Er2.
    intros Hl. split_and!; try done. intros s'. rewrite Hl. etrans; [apply remove_listener_sub|apply R7].
  - unfold unregisterShutdownHooks. change (pr_registered p2) with (pr_registered p1). rewrite Er.
    split_and!; try done. cbn. by rewrite delete_id.
Qed.

Lemma fires_ours s ls p : (forall l, l ∈ ls -> is_ours (li_fn l) = true) ->
  let p' := fold_left (fire host_stops s) ls p in
  pr_stops p' = pr_stops p ++ ((fun h => (h, s)) <$> handlers_of ls) /\
  (forall h, h ∈ pr_signalStops p' <-> h ∈ pr_signalStops p \/ h ∈ handlers_of ls) /\
  pr_hostSignals p' = pr_hostSignals p /\ pr_watching p' = pr_watching p /\ pr_end p' = pr_end p /\
  (forall h, is_Some (pr_registered p' !! h) -> h ∉ handlers_of ls /\ is_Some (pr_registered p !! h)) /\
  (forall s', pr_listeners p' s' `sublist_of` pr_listeners p s').
Proof.
  clear kill_works signal_number. revert p. induction ls as [|l ls IH]; intros p Ho.
  { cbn. rewrite app_nil_r. split_and!; try done; intros h; [|intros H; split; [intros H'; inversion H'|done]].
    split; [by left|intros [|H]; [done|inversion H]]. }
  destruct (li_fn l) as [h n|n] eqn:E; [|specialize (Ho l ltac:(left)); rewrite E in Ho; done].
  destruct (fire_ours s p l h n E) as (F1 & F2 & F3 & F4 & F5 & F6 & F7).
  cbn [fold_left]. destruct (IH (fire host_stops s p l) ltac:(intros; apply Ho; by right)) as (I1 & I2 & I3 & I4 & I5 & I6 & I7).
  assert (handlers_of (l :: ls) = h :: handlers_of ls) as -> by (unfold handlers_of; cbn; by rewrite E).
  split_and!; try congruence.
  - rewrite I1, F1. cbn. by rewrite <- app_assoc.
  - intros h'. rewrite I2, F2, elem_of_oset_add, elem_of_cons. naive_solver.
  - intros h' Hr. destruct (I6 h' Hr) as [H1 H2]. rewrite F6 in H2. rewrite not_elem_of_cons.
    destruct (decide (h' = h)) as [->|Hne]; [rewrite lookup_delete_eq in H2; by destruct H2|].
    rewrite lookup_delete_ne in H2 by done. done.
  - intros s'. etrans; [apply I7|apply F7].
Qed.

(** What the host's own listeners leave, once the program has none. *)
Lemma fires_host s ls p : pr_registered p = ∅ -> (forall l, l ∈ ls -> is_ours (li_fn l) = false) ->
  let p' := fold_left (fire host_stops s) ls p in
  exists L, p' = with_listeners L p /\ forall s', L s' `sublist_of` pr_listeners p s'.
Proof.
  intros Hr. revert p Hr. induction ls as [|l ls IH]; intros p Hr Ho; [exists (pr_listeners p); split; [by destruct p|done]|].
  assert (exists L, fire host_stops s p l = with_listeners L p /\ forall s', L s' `sublist_of` pr_listeners p s') as (L & E & HL).
  { unfold fire. destruct (li_fn l) as [h n|n] eqn:E; [specialize (Ho l ltac:(left)); rewrite E in Ho; done|].
    set (p1 := if li_once l then _ else _).
    assert (exists L, p1 = with_listeners L p /\ forall s', L s' `sublist_of` pr_listeners p s') as (L & E1 & HL).
    { subst p1. destruct (li_once l); [|exists (pr_listeners p); split; [by destruct p|done]].
      eexists. split; [reflexivity|]. intros s'. cbn. case_decide; [apply remove_once_sub|done]. }
    exists L. split; [|done]. rewrite <- E1. assert (pr_registered p1 = ∅) as Hr1 by (by rewrite E1). clearbody p1.
    induction (host_stops n) as [|h hs IHh]; [done|]. cbn. rewrite IHh. unfold unregisterShutdownHooks. by rewrite Hr1, lookup_empty. }
  cbn [fold_left]. rewrite E. destruct (IH (with_listeners L p) Hr ltac:(intros; apply Ho; by right)) as (L' & E' & HL').
  exists L'. rewrite E'. split; [done|]. intros s'. etrans; [apply HL'|apply HL].
Qed.

(** Handlers are stopping for [s], nobody listens for it, and no handler is up. *)
Record ending (s : signal) (p : Process) : Prop := {
  en_sound : sound_process p;
  en_reg : pr_registered p = ∅;
  en_quiet : pr_listeners p s = [];
  en_host : s ∉ pr_hostSignals p;
  en_signal : forall x, x ∈ pr_stops p -> x.2 = s;
  en_nodup : NoDup (pr_stops p).*1;
  en_names : forall h, h ∈ pr_signalStops p <-> h ∈ (pr_stops p).*1;
  en_some : pr_stops p <> []
}.

Lemma no_ours s p : sound_process p -> pr_registered p = ∅ -> forall l, l ∈ pr_listeners p s -> is_ours (li_fn l) = false.
Proof.
  intros Hs Hr l Hin. destruct (li_fn l) eqn:E; [|done]. destruct (sp_ours None p Hs s l _ _ Hin E) as [H _].
  by rewrite Hr, lookup_empty in H.
Qed.

Lemma ending_listeners s p L : ending s p -> sound_process (with_listeners L p) -> L s = [] -> ending s (with_listeners L p).
Proof. intros [] Hs HL. by split. Qed.

Lemma remove_stop_sub x l : remove_stop x l `sublist_of` l.
Proof. induction l as [|y l IH]; [done|]. cbn. case_decide; [by apply sublist_cons|by apply sublist_skip]. Qed.

Lemma elem_of_remove_stop h s l : NoDup l.*1 -> forall h', h' ∈ (remove_stop (h, s) l).*1 <-> h' ∈ l.*1 /\ ~ (h' = h /\ (h, s) ∈ l).
Proof.
  induction l as [|[k t] l IH]; intros Hd h'.
  { cbn. split; [intros H; inversion H|intros [H _]; inversion H]. }
  cbn in Hd. apply NoDup_cons in Hd as [Hn Hd]. cbn [remove_stop]. case_decide as E.
  - injection E as -> ->. cbn. rewrite !elem_of_cons. split.
    + intros H. split; [by right|]. intros [-> _]. done.
    + intros [[->|H] Hno]; [|done]. exfalso. apply Hno. split; [done|by left].
  - cbn. rewrite !elem_of_cons, (IH Hd). split.
    + intros [->|[H Hno]].
      * split; [by left|]. intros [-> [E'|H]]; [congruence|]. apply Hn. rewrite list_elem_of_fmap. by exists (h, s).
      * split; [by right|]. intros [-> [E'|H']]; [|by apply Hno]. injection E' as <- <-. done.
    + intros [[->|H] Hno]; [by left|]. right. split; [done|]. intros [-> H']. apply Hno. split; [done|by right].
Qed.

(** One stop more has settled: the last ends the process. *)
Lemma settle_ending s h p : ending s p -> (h, s) ∈ pr_stops p -> pr_end p = None ->
  let p' := stop_settles kill_works signal_number h s p in
  pr_stops p' = remove_stop (h, s) (pr_stops p) /\
  if bool_decide (remove_stop (h, s) (pr_stops p) = []) then pr_end p' = Some (shutdown_end s)
  else ending s p' /\ pr_end p' = None.
Proof.
  intros [Hs Hr Hq Hh Hx Hd Hn _] Hin He p'. subst p'. unfold stop_settles, restoreSignalDefault.
  set (rest := remove_stop (h, s) (pr_stops p)).
  assert (forall h', h' ∈ oset_delete h (pr_signalStops p) <-> h' ∈ rest.*1) as Hnames.
  { intros h'. unfold oset_delete, rest. rewrite list_elem_of_filter, Hn, elem_of_remove_stop by done. naive_solver. }
  cbn [pr_signalStops pr_hostSignals with_stops]. rewrite (bool_decide_eq_false_2 _ Hh), orb_false_r.
  case_bool_decide as E; cbn [negb].
  - assert (rest = []) as Hrest.
    { destruct rest as [|[k t] l]; [done|]. exfalso. assert (k ∈ oset_delete h (pr_signalStops p)) as H by (apply Hnames; left).
      rewrite E in H. inversion H. }
    unfold shutdown_end. destruct (kill_works s); unfold raise_signal; cbn [pr_listeners with_stops]; rewrite ?Hq; cbn;
      fold rest; rewrite Hrest; (split; [done|]); by rewrite bool_decide_eq_true_2.
  - assert (rest <> []) as Hrest.
    { intros Hrest. destruct (oset_delete h (pr_signalStops p)) as [|k l]; [done|].
      assert (k ∈ rest.*1) as H by (apply Hnames; left). rewrite Hrest in H. inversion H. }
    cbn. fold rest. split; [done|]. rewrite bool_decide_eq_false_2 by done. split; [|done].
    split; cbn; try done; [by apply with_stops_sound| |].
    + intros x Hx'. apply Hx. eapply sublist_elem; [apply remove_stop_sub|exact Hx'].
    + eapply sublist_NoDup; [exact Hd|]. apply fmap_sublist, remove_stop_sub.
Qed.

(** In whatever order they settle. *)
Lemma ending_ends s p order : ending s p -> pr_end p = None -> order ≡ₚ pr_stops p ->
  exists q, process_run kill_works signal_number host_stops ((fun x => StopSettles x.1 x.2) <$> order) p = Some q /\
    pr_end q = Some (shutdown_end s).
Proof.
  revert p. induction order as [|[h t] order IH]; intros p He Hend Hperm.
  { apply Permutation_nil in Hperm. by destruct (en_some s p He). }
  assert ((h, t) ∈ pr_stops p) as Hin by (rewrite <- Hperm; left).
  pose proof (en_signal s p He _ Hin) as Ht. cbn in Ht. subst t.
  destruct (settle_ending s h p He Hin Hend) as [Hst Hcase].
  assert (order ≡ₚ remove_stop (h, s) (pr_stops p)) as Hperm'.
  { clear -Hperm. symmetry in Hperm. revert order Hperm. induction (pr_stops p) as [|y l IHl]; intros order Hperm.
    - by apply Permutation_nil_cons in Hperm.
    - cbn. case_decide as E; [subst; by apply Permutation_cons_inv in Hperm|].
      assert (y ∈ order) as Hy.
      { assert (y ∈ (h, s) :: order) as [?|]%elem_of_cons by (rewrite <- Hperm; left); congruence. }
      apply elem_of_Permutation in Hy as [o Ho]. rewrite Ho. apply Permutation_skip. symmetry. symmetry. apply IHl.
      apply (Permutation_cons_inv (a := y)). rewrite Hperm, Ho. apply perm_swap. }
  cbn [fmap list_fmap process_run]. unfold process_step at 1. rewrite Hend, bool_decide_eq_true_2 by done. cbn.
  revert Hst Hcase. generalize (stop_settles kill_works signal_number h s p). intros q Hst Hcase. case_bool_decide as E.
  - rewrite E in Hperm'. apply Permutation_nil_r in Hperm' as ->. exists q. by split.
  - destruct Hcase as [Hq Hqe]. apply IH; [done|done|]. by rewrite Hst.
Qed.

(** Nothing but a new handler or a new listener of the host's keeps it alive. *)
Definition undisturbed (s : signal) (x : ProcessLabel) : Prop :=
  match x with Started _ => False | HostOn s' _ _ => s' <> s | _ => True end.

Lemma ending_step s x p p' : ending s p -> undisturbed s x ->
  process_step kill_works signal_number host_stops x p = Some p' -> pr_end p' = None -> ending s p'.
Proof.
  intros He Hu Hstep Hend. pose proof (process_step_sound _ _ _ x p p' (en_sound s p He) Hstep) as Hs'.
  unfold process_step in Hstep. destruct (pr_end p) eqn:Ep; [done|]. destruct x as [h|h|t| |h t|t n once|t n]; [done|..].
  - injection Hstep as <-. unfold unregisterShutdownHooks. by rewrite (en_reg s p He), lookup_empty.
  - injection Hstep as <-. unfold raise_signal in *. destruct (pr_listeners p t); [done|]. destruct He. by split.
  - destruct (pr_caught p) as [|t c]; [done|]. injection Hstep as <-. set (p1 := with_signals c None p) in *.
    assert (ending s p1) as He1 by (destruct He; split; try done; by apply with_signals_sound).
    destruct (fires_host t (pr_listeners p1 t) p1 (en_reg s p1 He1) (no_ours t p1 (en_sound s p1 He1) (en_reg s p1 He1)))
      as (L & E & HL). unfold emit in *. rewrite E in *. apply ending_listeners; [done|done|].
    specialize (HL s). rewrite (en_quiet s p1 He1) in HL. by apply sublist_nil_r in HL.
  - case_bool_decide as Hin; [|done]. injection Hstep as <-. pose proof (en_signal s p He _ Hin) as Ht. cbn in Ht. subst t.
    destruct (settle_ending s h p He Hin Ep) as [_ Hcase]. case_bool_decide; [congruence|apply Hcase].
  - injection Hstep as <-. cbn in Hu. destruct He as [Hs Hr Hq Hh Hx Hd Hn Hne].
    unfold add_listener, on_new_listener. unfold add_listener, on_new_listener in Hs'.
    destruct (pr_watching p && _); split; cbn; try done; try (by rewrite decide_False by done).
    rewrite elem_of_oset_add. by intros [->|].
  - injection Hstep as <-. apply ending_listeners; [done|done|]. rewrite (en_quiet s p He). by case_decide.
Qed.
End ending.

(** ** Signals, handled *)

Section handled.
Context (kill_works : signal -> bool) (signal_number : signal -> Z) (host_stops : nat -> list string).
Local Abbreviation step := (process_step kill_works signal_number host_stops).
Local Abbreviation run := (process_run kill_works signal_number host_stops).

Definition process_reachable (p : Process) : Prop := exists host xs, run xs (fresh_process host) = Some p.

(** The handlers in [signalStops] are stopping. *)
Definition names_stopping (p : Process) : Prop := forall h, h ∈ pr_signalStops p -> h ∈ (pr_stops p).*1.

Lemma process_run_invariant (P : Process -> Prop) (Q : ProcessLabel -> Prop) xs p p' :
  (forall x p p', Q x -> P p -> step x p = Some p' -> P p') -> Forall Q xs -> P p -> run xs p = Some p' -> P p'.
Proof.
  intros Hstep. revert p. induction xs as [|x xs IH]; intros p Hxs Hp; [by intros [= <-]|].
  apply Forall_cons in Hxs as [Hx Hxs]. cbn. destruct (step x p) as [q|] eqn:E; [|done]. cbn. apply IH; [done|by eapply Hstep].
Qed.

(** What registering, taking off and listening leave alone. *)
Lemma unregister_same h p : let p' := unregisterShutdownHooks h p in
  pr_stops p' = pr_stops p /\ pr_signalStops p' = pr_signalStops p /\ pr_hostSignals p' = pr_hostSignals p /\
  pr_watching p' = pr_watching p.
Proof. intros p'. subst p'. unfold unregisterShutdownHooks. by destruct (pr_registered p !! h). Qed.

Lemma register_same h p : let p' := registerShutdownHooks h p in
  pr_stops p' = pr_stops p /\ pr_signalStops p' = pr_signalStops p /\
  (forall s, s ∈ pr_hostSignals p -> s ∈ pr_hostSignals p') /\ (pr_watching p = true -> pr_watching p' = true).
Proof.
  intros p'. subst p'. destruct (pr_registered p !! h) as [f|] eqn:E; [by unfold registerShutdownHooks; rewrite E|].
  destruct (registered_spec h p E) as [-> _]. cbn [pr_stops pr_signalStops with_listeners with_host with_own with_registered].
  split_and!; try done. intros s Hs. cbn [pr_hostSignals with_listeners with_host]. apply watch_host. by left.
Qed.

Lemma fire_keeps s l p : let p' := fire host_stops s p l in
  (names_stopping p -> names_stopping p') /\ pr_hostSignals p' = pr_hostSignals p /\ pr_watching p' = pr_watching p.
Proof.
  intros p'. subst p'. unfold fire. destruct (li_fn l) as [h n|n] eqn:E.
  - unfold shutdownHandler. destruct (unregister_same h (with_stops (oset_add h (pr_signalStops (if li_once l then fired_from s (Ours h n) p else p)))
      (pr_stops (if li_once l then fired_from s (Ours h n) p else p) ++ [(h, s)]) (if li_once l then fired_from s (Ours h n) p else p)))
      as (H1 & H2 & H3 & H4).
    unfold names_stopping. rewrite H1, H2, H3, H4. cbn [pr_stops pr_signalStops pr_hostSignals pr_watching with_stops].
    destruct (li_once l); cbn [pr_stops pr_signalStops pr_hostSignals pr_watching with_listeners fired_from];
      (split; [|done]); intros Hn h'; rewrite elem_of_oset_add, fmap_app, elem_of_app; cbn; rewrite list_elem_of_singleton; naive_solver.
  - assert (forall q hs, (names_stopping q -> names_stopping (foldr unregisterShutdownHooks q hs)) /\
      pr_hostSignals (foldr unregisterShutdownHooks q hs) = pr_hostSignals q /\
      pr_watching (foldr unregisterShutdownHooks q hs) = pr_watching q) as Hf.
    { intros q hs. induction hs as [|h hs IH]; [done|]. cbn.
      destruct (unregister_same h (foldr unregisterShutdownHooks q hs)) as (H1 & H2 & H3 & H4).
      unfold names_stopping in *. by rewrite H1, H2, H3, H4. }
    destruct (Hf (if li_once l then fired_from s (Hosts n) p else p) (host_stops n)) as (H1 & H2 & H3).
    rewrite H2, H3. by destruct (li_once l).
Qed.

Lemma emit_keeps s p : let p' := emit host_stops s p in
  (names_stopping p -> names_stopping p') /\ pr_hostSignals p' = pr_hostSignals p /\ pr_watching p' = pr_watching p.
Proof.
  unfold emit. generalize (pr_listeners p s). intros ls. revert p. induction ls as [|l ls IH]; intros p; [done|].
  cbn [fold_left]. destruct (fire_keeps s l p) as (F1 & F2 & F3), (IH (fire host_stops s p l)) as (I1 & I2 & I3).
  cbv zeta. rewrite I2, I3, F2, F3. split; [by auto|done].
Qed.

Lemma raise_same s p : let p' := raise_signal s p in
  pr_stops p' = pr_stops p /\ pr_signalStops p' = pr_signalStops p /\ pr_hostSignals p' = pr_hostSignals p /\
  pr_watching p' = pr_watching p.
Proof. intros p'. subst p'. unfold raise_signal. by destruct (pr_listeners p s). Qed.

Lemma settle_same h s p : let p' := stop_settles kill_works signal_number h s p in
  pr_stops p' = remove_stop (h, s) (pr_stops p) /\ pr_signalStops p' = oset_delete h (pr_signalStops p) /\
  pr_hostSignals p' = pr_hostSignals p /\ pr_watching p' = pr_watching p.
Proof.
  intros p'. subst p'. unfold stop_settles, restoreSignalDefault. destruct (_ || _); [done|]. destruct (kill_works s); [|done].
  destruct (raise_same s (with_stops (oset_delete h (pr_signalStops p)) (remove_stop (h, s) (pr_stops p)) p)) as (-> & -> & -> & ->).
  done.
Qed.

Lemma remove_stop_other h s h' l : h' <> h -> h' ∈ l.*1 -> h' ∈ (remove_stop (h, s) l).*1.
Proof.
  intros Hne. induction l as [|[k t] l IH]; [done|]. cbn. rewrite elem_of_cons. case_decide as E.
  - injection E as -> ->. by intros [->|].
  - cbn. rewrite elem_of_cons. naive_solver.
Qed.

Lemma step_names x p p' : names_stopping p -> step x p = Some p' -> names_stopping p'.
Proof.
  intros Hn. unfold process_step. destruct (pr_end p); [done|]. destruct x as [h|h|t| |h t|t n once|t n].
  - intros [= <-]. destruct (register_same h p) as (H1 & H2 & _). unfold names_stopping. by rewrite H1, H2.
  - intros [= <-]. destruct (unregister_same h p) as (H1 & H2 & _). unfold names_stopping. by rewrite H1, H2.
  - intros [= <-]. destruct (raise_same t p) as (H1 & H2 & _). unfold names_stopping. by rewrite H1, H2.
  - destruct (pr_caught p) as [|t c]; [done|]. intros [= <-]. by apply emit_keeps.
  - case_bool_decide; [|done]. intros [= <-]. destruct (settle_same h t p) as (H1 & H2 & _). unfold names_stopping.
    rewrite H1, H2. intros h' [Hne Hin]%list_elem_of_filter. apply remove_stop_other; [done|by apply Hn].
  - intros [= <-]. unfold add_listener, on_new_listener. by destruct (pr_watching p && _).
  - by intros [= <-].
Qed.

(** Once the host has been seen to listen for a signal, that stays known. *)
Lemma step_host s x p p' : pr_watching p = true /\ s ∈ pr_hostSignals p -> step x p = Some p' ->
  pr_watching p' = true /\ s ∈ pr_hostSignals p'.
Proof.
  intros [Hw Hh]. unfold process_step. destruct (pr_end p); [done|]. destruct x as [h|h|t| |h t|t n once|t n].
  - intros [= <-]. destruct (register_same h p) as (_ & _ & H3 & H4). auto.
  - intros [= <-]. destruct (unregister_same h p) as (_ & _ & -> & ->). done.
  - intros [= <-]. destruct (raise_same t p) as (_ & _ & -> & ->). done.
  - destruct (pr_caught p) as [|t c]; [done|]. intros [= <-].
    destruct (emit_keeps t (with_signals c None p)) as (_ & -> & ->). done.
  - case_bool_decide; [|done]. intros [= <-]. destruct (settle_same h t p) as (_ & _ & -> & ->). done.
  - intros [= <-]. unfold add_listener, on_new_listener. destruct (pr_watching p && _); cbn; [|done]. split; [done|].
    apply elem_of_oset_add. by right.
  - by intros [= <-].
Qed.

Lemma reachable_process p : process_reachable p -> sound_process p /\ names_stopping p.
Proof.
  intros (host & xs & Hrun). revert Hrun. apply (process_run_invariant (fun p => sound_process p /\ names_stopping p) (fun _ => True)).
  - intros x q q' _ [Hs Hn] Hq. split; [by eapply process_step_sound|by eapply step_names].
  - by apply Forall_true.
  - split; [apply fresh_process_sound|]. intros h Hh. inversion Hh.
Qed.

Lemma emit_ending s p : sound_process p -> names_stopping p -> pr_stops p = [] -> s ∉ pr_hostSignals p ->
  pr_registered p <> ∅ ->
  let p' := emit host_stops s p in
  ending s p' /\ pr_end p' = pr_end p /\ forall h t, (h, t) ∈ pr_stops p' <-> t = s /\ is_Some (pr_registered p !! h).
Proof.
  intros Hs Hn Hst Hh Hr p'. pose proof (emit_sound host_stops s p Hs) as Hs'. fold p' in Hs'.
  assert (forall l, l ∈ pr_listeners p s -> is_ours (li_fn l) = true) as Ho.
  { intros l Hl. destruct (li_fn l) eqn:E; [done|]. exfalso. apply Hh. apply (sp_host None p Hs (sp_watch None p Hs Hr) s n).
    rewrite list_elem_of_fmap. by exists l. }
  destruct (fires_ours host_stops s (pr_listeners p s) p Ho) as (F1 & F2 & F3 & F4 & F5 & F6 & F7).
  change (fold_left _ _ _) with p' in F1, F2, F3, F4, F5, F6, F7. rewrite Hst in F1. cbn in F1.
  assert (forall h, is_Some (pr_registered p !! h) <-> h ∈ handlers_of (pr_listeners p s)) as Hall.
  { intros h. rewrite elem_of_handlers. split.
    - intros [f Hf]. destruct (sp_reg None p Hs h f Hf) as (_ & [n ->] & H). exists n. by apply H.
    - intros (n & (l & E & Hl)%list_elem_of_fmap). destruct (sp_ours None p Hs s l h n Hl (eq_sym E)) as [-> _]. done. }
  assert (pr_registered p' = ∅) as Hr'.
  { apply map_empty. intros h. destruct (pr_registered p' !! h) as [f|] eqn:E; [|done]. exfalso.
    destruct (F6 h (ex_intro _ f E)) as [H1 H2]. by apply H1, Hall. }
  assert ((pr_stops p').*1 = handlers_of (pr_listeners p s)) as Hkeys.
  { rewrite F1, <- list_fmap_compose. apply list_fmap_id. }
  split; [split|split; [done|]]; try done.
  - destruct (pr_listeners p' s) as [|l ls] eqn:E; [done|]. exfalso. assert (l ∈ pr_listeners p' s) as Hl by (rewrite E; left).
    pose proof (no_ours s p' Hs' Hr' l Hl) as H1. rewrite Ho in H1; [done|]. eapply sublist_elem; [apply F7|exact Hl].
  - by rewrite F3.
  - intros x. rewrite F1, list_elem_of_fmap. by intros (h & -> & _).
  - rewrite Hkeys. by apply handlers_NoDup.
  - intros h. rewrite F2, Hkeys. split; [intros [H|H]; [|done]|by right]. apply Hn in H. rewrite Hst in H. inversion H.
  - intros E. apply Hr. apply map_empty. intros h. destruct (pr_registered p !! h) as [f|] eqn:Ef; [|done]. exfalso.
    assert (h ∈ (pr_stops p').*1) as H by (rewrite Hkeys; apply Hall; by rewrite Ef). rewrite E in H. inversion H.
  - intros h t. rewrite F1, list_elem_of_fmap, Hall. split; [by intros (? & [= -> ->] & ?)|]. intros [-> Hin]. by exists h.
Qed.
End handled.

(** C27: A shutdown signal that the host does not listen for stops every handler
    that is up, and ends the process once they all have stopped, in whatever
    order, and not before, whatever else happens but that a handler is started or
    the host begins to listen: while the process lives some of them is stopping,
    and when the last has settled the process has died of that signal (or exited
    with its conventional status, where it cannot be raised).  And a signal the
    host listens for at some time after the first handler was up is never raised
    by the program again: the host decides. *)
Theorem signals_handled (kill_works : signal -> bool) (signal_number : signal -> Z) (host_stops : nat -> list string)
    (p : Process) :
  let step := process_step kill_works signal_number host_stops in
  let run := process_run kill_works signal_number host_stops in
  process_reachable kill_works signal_number host_stops p ->
  (forall s caught, pr_end p = None -> pr_caught p = s :: caught -> pr_stops p = [] -> s ∉ pr_hostSignals p ->
     pr_registered p <> ∅ ->
     exists p', step SignalEmitted p = Some p' /\ pr_end p' = None /\
       (forall h t, (h, t) ∈ pr_stops p' <-> t = s /\ is_Some (pr_registered p !! h)) /\
       forall xs p'', Forall (undisturbed s) xs -> run xs p' = Some p'' -> pr_end p'' = None ->
         pr_stops p'' <> [] /\
         forall order, order ≡ₚ pr_stops p'' -> exists q, run ((fun x => StopSettles x.1 x.2) <$> order) p'' = Some q /\
           pr_end q = Some (shutdown_end kill_works signal_number s)) /\
  (forall s n xs p' h q, pr_watching p = true -> Hosts n ∈ li_fn <$> pr_listeners p s -> run xs p = Some p' ->
     step (StopSettles h s) p' = Some q -> pr_end q = None /\ pr_caught q = pr_caught p').
Proof.
  intros step run Hreach. destruct (reachable_process _ _ _ p Hreach) as [Hs Hn]. split.
  - intros s caught Hend Hc Hst Hh Hr. set (p1 := with_signals caught None p).
    destruct (emit_ending host_stops s p1 ltac:(by apply with_signals_sound) Hn Hst Hh Hr) as (He & Hend' & Hall).
    exists (emit host_stops s p1). split; [|split; [exact Hend'|split; [exact Hall|]]].
    { subst step. unfold process_step. by rewrite Hend, Hc. }
    intros xs p'' Hxs Hrun Hlive.
    assert (ending s p'') as He'.
    { revert Hlive. apply (process_run_invariant kill_works signal_number host_stops (fun p => pr_end p = None -> ending s p)
        (undisturbed s) xs (emit host_stops s p1) p''); [|done|done|exact Hrun].
      intros x q q' Hx Hq Hstep Hl. eapply ending_step; [apply Hq|exact Hx|exact Hstep|exact Hl].
      unfold process_step in Hstep. by destruct (pr_end q). }
    split; [apply (en_some s p'' He')|]. intros order. by apply ending_ends.
  - intros s n xs p' h q Hw Hl Hrun Hq.
    assert (pr_watching p' = true /\ s ∈ pr_hostSignals p') as [_ Hh].
    { apply (process_run_invariant kill_works signal_number host_stops (fun p => pr_watching p = true /\ s ∈ pr_hostSignals p)
        (fun _ => True) xs p p'); [|by apply Forall_true| |exact Hrun].
      - intros x r r' _. apply step_host.
      - split; [done|]. by apply (sp_host None p Hs Hw s n). }
    subst step. revert Hq. unfold process_step. destruct (pr_end p') eqn:E; [done|]. case_bool_decide; [|done]. intros [= <-].
    unfold stop_settles, restoreSignalDefault. cbn [pr_hostSignals with_stops]. rewrite (bool_decide_eq_true_2 _ Hh), orb_true_r.
    done.
Qed.

(** Two handlers and a signal; the host listens for another. *)
Definition demo_process : Process :=
  default (fresh_process (fun _ => []))
    (process_run (fun _ => true) (fun _ => 15%Z) (fun _ => [])
       [Started "a"; HostOn SIGINT 0 false; Started "b"; SignalRaised SIGTERM] (fresh_process (fun _ => []))).

Lemma signals_handled_witness :
  let run := process_run (fun _ => true) (fun _ => 15%Z) (fun _ => []) in
  exists p' p'' q, process_step (fun _ => true) (fun _ => 15%Z) (fun _ => []) SignalEmitted demo_process = Some p' /\
    run [StopSettles "b" SIGTERM; Stopped "a"] p' = Some p'' /\ pr_end p'' = None /\ pr_stops p'' = [("a", SIGTERM)] /\
    run [StopSettles "a" SIGTERM] p'' = Some q /\ pr_end q = Some (KilledBy SIGTERM).
Proof.
  intros run.
  assert (process_reachable (fun _ => true) (fun _ => 15%Z) (fun _ => []) demo_process) as Hr.
  { exists (fun _ => []), [Started "a"; HostOn SIGINT 0 false; Started "b"; SignalRaised SIGTERM]. vm_compute. reflexivity. }
  destruct (signals_handled (fun _ => true) (fun _ => 15%Z) (fun _ => []) demo_process Hr) as [H _].
  destruct (H SIGTERM [] ltac:(vm_compute; reflexivity) ltac:(vm_compute; reflexivity) ltac:(vm_compute; reflexivity)) as (p' & Hstep & Hlive & _ & Hend).
  - intros Hin. vm_compute in Hin. inversion Hin as [|? ? ? Hin']; subst. inversion Hin'.
  - intros E. apply (f_equal (fun m => m !! "a")) in E. vm_compute in E. discriminate.
  - assert ((fun p => (pr_end p, pr_stops p)) <$>
        (process_step (fun _ => true) (fun _ => 15%Z) (fun _ => []) SignalEmitted demo_process
           ≫= run [StopSettles "b" SIGTERM; Stopped "a"]) = Some (None, [("a", SIGTERM)])) as Hrun by (vm_compute; reflexivity).
    rewrite Hstep in Hrun. change (Some p' ≫= run ?l) with (run l p') in Hrun.
    destruct (run [StopSettles "b" SIGTERM; Stopped "a"] p') as [p''|] eqn:E; [|discriminate Hrun].
    assert (pr_end p'' = None /\ pr_stops p'' = [("a", SIGTERM)]) as [He Hst] by (injection Hrun as ? ?; by split).
    destruct (Hend [StopSettles "b" SIGTERM; Stopped "a"] p'' ltac:(by repeat constructor) E He) as [_ Hlast].
    destruct (Hlast [("a", SIGTERM)]) as (q & Hq & Hdead); [by rewrite Hst|].
    exists p', p'', q. by split_and!.
Defined.
