(* ===== verification/Lifecycle.v ===== *)
(** * Starting, stopping and electing

    The lifecycle of a handler, [packages/core/src/index.ts], and the peers it
    watches, [utils/startSubscriptions.ts].  What runs between two awaited steps
    runs alone, so the lifecycle is a machine whose labels are the calls that
    come in and the awaited steps that settle, in any order and with either
    outcome: what an awaited step does elsewhere (the backend's, a hook's, a
    client's) is only that it settles.  A promise is the number of the start it
    was made for.  Elections and work on one tenant, which overlapping calls also
    share, follow. *)
From S2P Require Import Prelude JsNumber Election.
Local Open Scope Z_scope.

(** ** State *)

(** Where a running [doStart] waits. *)
Inductive start_stage :=
  | Subscribing | BuildingDefault | RunningHook (i : nat) | LoadingTenants | ElectingRoles.

(** Where a running [stop] waits; [Settling] is the turn before its promise
    settles. *)
Inductive stop_stage :=
  | AwaitingStart (p : nat) | Draining | AwaitingInFlight | Deregistering | ClosingBackend | Settling.

#[export] Instance start_stage_eq_dec : EqDecision start_stage.
Proof. solve_decision. Defined.
#[export] Instance stop_stage_eq_dec : EqDecision stop_stage.
Proof. solve_decision. Defined.
#[export] Instance handler_status_eq_dec : EqDecision handler_status.
Proof. solve_decision. Defined.

Record Lifecycle := {
  lc_id : string;
  lc_status : handler_status;
  lc_startPromise : option nat;
  lc_running : option (nat * start_stage);  (** the [doStart] that runs *)
  lc_closing : list nat;  (** starts that failed and still close the backend *)
  lc_rejected : list nat;
  lc_next : nat;
  lc_stop : option stop_stage;  (** [stopPromise] *)
  lc_waiting : nat;  (** [start] calls that await [stopPromise] *)
  lc_stoppedByCaller : bool;
  lc_subscriptionsStarted : bool;
  lc_handlers : nat;  (** how often the backend delivers a message to this handler *)
  lc_startupHooks : nat;
  lc_startupHooksRan : bool;
  lc_shutdownHooks : bool;  (** [shutdownHooksRegistered] *)
  lc_heartbeat : bool;  (** [heartbeatInterval] is set *)
  lc_clients : list string;
  lc_tenants : list string;  (** the entries of [templateClientMap] *)
  lc_peers : list (string * nat);  (** [heartbeatTimeouts] *)
  lc_timers : list (nat * (string * Z));  (** timers that are armed: whom they watch, when they are due *)
  lc_nextTimer : nat
}.

(** *** Writes *)

Definition with_status (x : handler_status) (s : Lifecycle) : Lifecycle :=
  {| lc_id := lc_id s; lc_status := x; lc_startPromise := lc_startPromise s; lc_running := lc_running s;
     lc_closing := lc_closing s; lc_rejected := lc_rejected s; lc_next := lc_next s; lc_stop := lc_stop s;
     lc_waiting := lc_waiting s; lc_stoppedByCaller := lc_stoppedByCaller s;
     lc_subscriptionsStarted := lc_subscriptionsStarted s; lc_handlers := lc_handlers s;
     lc_startupHooks := lc_startupHooks s; lc_startupHooksRan := lc_startupHooksRan s;
     lc_shutdownHooks := lc_shutdownHooks s; lc_heartbeat := lc_heartbeat s; lc_clients := lc_clients s;
     lc_tenants := lc_tenants s; lc_peers := lc_peers s; lc_timers := lc_timers s; lc_nextTimer := lc_nextTimer s |}.

(** The promises: the start's, the start that runs, those that close. *)
Definition with_start (p : option nat) (r : option (nat * start_stage)) (c rej : list nat) (n : nat) (s : Lifecycle)
    : Lifecycle :=
  {| lc_id := lc_id s; lc_status := lc_status s; lc_startPromise := p; lc_running := r;
     lc_closing := c; lc_rejected := rej; lc_next := n; lc_stop := lc_stop s;
     lc_waiting := lc_waiting s; lc_stoppedByCaller := lc_stoppedByCaller s;
     lc_subscriptionsStarted := lc_subscriptionsStarted s; lc_handlers := lc_handlers s;
     lc_startupHooks := lc_startupHooks s; lc_startupHooksRan := lc_startupHooksRan s;
     lc_shutdownHooks := lc_shutdownHooks s; lc_heartbeat := lc_heartbeat s; lc_clients := lc_clients s;
     lc_tenants := lc_tenants s; lc_peers := lc_peers s; lc_timers := lc_timers s; lc_nextTimer := lc_nextTimer s |}.

Definition with_stop (x : option stop_stage) (w : nat) (by_ : bool) (s : Lifecycle) : Lifecycle :=
  {| lc_id := lc_id s; lc_status := lc_status s; lc_startPromise := lc_startPromise s; lc_running := lc_running s;
     lc_closing := lc_closing s; lc_rejected := lc_rejected s; lc_next := lc_next s; lc_stop := x;
     lc_waiting := w; lc_stoppedByCaller := by_;
     lc_subscriptionsStarted := lc_subscriptionsStarted s; lc_handlers := lc_handlers s;
     lc_startupHooks := lc_startupHooks s; lc_startupHooksRan := lc_startupHooksRan s;
     lc_shutdownHooks := lc_shutdownHooks s; lc_heartbeat := lc_heartbeat s; lc_clients := lc_clients s;
     lc_tenants := lc_tenants s; lc_peers := lc_peers s; lc_timers := lc_timers s; lc_nextTimer := lc_nextTimer s |}.

Definition with_subscription (x : bool) (h : nat) (s : Lifecycle) : Lifecycle :=
  {| lc_id := lc_id s; lc_status := lc_status s; lc_startPromise := lc_startPromise s; lc_running := lc_running s;
     lc_closing := lc_closing s; lc_rejected := lc_rejected s; lc_next := lc_next s; lc_stop := lc_stop s;
     lc_waiting := lc_waiting s; lc_stoppedByCaller := lc_stoppedByCaller s;
     lc_subscriptionsStarted := x; lc_handlers := h;
     lc_startupHooks := lc_startupHooks s; lc_startupHooksRan := lc_startupHooksRan s;
     lc_shutdownHooks := lc_shutdownHooks s; lc_heartbeat := lc_heartbeat s; lc_clients := lc_clients s;
     lc_tenants := lc_tenants s; lc_peers := lc_peers s; lc_timers := lc_timers s; lc_nextTimer := lc_nextTimer s |}.

Definition with_hooks (n : nat) (ran shutdown : bool) (s : Lifecycle) : Lifecycle :=
  {| lc_id := lc_id s; lc_status := lc_status s; lc_startPromise := lc_startPromise s; lc_running := lc_running s;
     lc_closing := lc_closing s; lc_rejected := lc_rejected s; lc_next := lc_next s; lc_stop := lc_stop s;
     lc_waiting := lc_waiting s; lc_stoppedByCaller := lc_stoppedByCaller s;
     lc_subscriptionsStarted := lc_subscriptionsStarted s; lc_handlers := lc_handlers s;
     lc_startupHooks := n; lc_startupHooksRan := ran;
     lc_shutdownHooks := shutdown; lc_heartbeat := lc_heartbeat s; lc_clients := lc_clients s;
     lc_tenants := lc_tenants s; lc_peers := lc_peers s; lc_timers := lc_timers s; lc_nextTimer := lc_nextTimer s |}.

Definition with_work (heartbeat : bool) (clients tenants : list string) (s : Lifecycle) : Lifecycle :=
  {| lc_id := lc_id s; lc_status := lc_status s; lc_startPromise := lc_startPromise s; lc_running := lc_running s;
     lc_closing := lc_closing s; lc_rejected := lc_rejected s; lc_next := lc_next s; lc_stop := lc_stop s;
     lc_waiting := lc_waiting s; lc_stoppedByCaller := lc_stoppedByCaller s;
     lc_subscriptionsStarted := lc_subscriptionsStarted s; lc_handlers := lc_handlers s;
     lc_startupHooks := lc_startupHooks s; lc_startupHooksRan := lc_startupHooksRan s;
     lc_shutdownHooks := lc_shutdownHooks s; lc_heartbeat := heartbeat; lc_clients := clients;
     lc_tenants := tenants; lc_peers := lc_peers s; lc_timers := lc_timers s; lc_nextTimer := lc_nextTimer s |}.

Definition with_peers (peers : list (string * nat)) (timers : list (nat * (string * Z))) (n : nat) (s : Lifecycle)
    : Lifecycle :=
  {| lc_id := lc_id s; lc_status := lc_status s; lc_startPromise := lc_startPromise s; lc_running := lc_running s;
     lc_closing := lc_closing s; lc_rejected := lc_rejected s; lc_next := lc_next s; lc_stop := lc_stop s;
     lc_waiting := lc_waiting s; lc_stoppedByCaller := lc_stoppedByCaller s;
     lc_subscriptionsStarted := lc_subscriptionsStarted s; lc_handlers := lc_handlers s;
     lc_startupHooks := lc_startupHooks s; lc_startupHooksRan := lc_startupHooksRan s;
     lc_shutdownHooks := lc_shutdownHooks s; lc_heartbeat := lc_heartbeat s; lc_clients := lc_clients s;
     lc_tenants := lc_tenants s; lc_peers := peers; lc_timers := timers; lc_nextTimer := n |}.

(** A handler as constructed, with as many startup hooks. *)
Definition fresh_handler (id : string) (hooks : nat) : Lifecycle :=
  {| lc_id := id; lc_status := stopped; lc_startPromise := None; lc_running := None; lc_closing := [];
     lc_rejected := []; lc_next := 0; lc_stop := None; lc_waiting := 0; lc_stoppedByCaller := false;
     lc_subscriptionsStarted := false; lc_handlers := 0; lc_startupHooks := hooks; lc_startupHooksRan := false;
     lc_shutdownHooks := false; lc_heartbeat := false; lc_clients := []; lc_tenants := []; lc_peers := [];
     lc_timers := []; lc_nextTimer := 0 |}.

(** ** Peers *)

Definition PEER_TIMEOUT_MS : Z := 12000.

(** [clearTimeout] of a peer's timer, and its entry dropped. *)
Definition clear_peer (peer : string) (s : Lifecycle) : Lifecycle :=
  with_peers (omap_delete peer (lc_peers s))
    (match omap_get peer (lc_peers s) with Some t => omap_delete t (lc_timers s) | None => lc_timers s end)
    (lc_nextTimer s) s.

(** The timers of every entry cleared, and the map emptied. *)
Definition clear_peers (s : Lifecycle) : Lifecycle :=
  with_peers [] (filter (fun t => t.1 ∉ (lc_peers s).*2) (lc_timers s)) (lc_nextTimer s) s.

Definition handleInstanceStarted (peer : string) (now : Z) (s : Lifecycle) : Lifecycle :=
  if bool_decide (lc_id s = peer) then s
  else
    match lc_status s with
    | stopping | stopped => s
    | _ =>
        let t := lc_nextTimer s in
        with_peers (omap_set peer t (lc_peers s)) (lc_timers s ++ [(t, (peer, now + PEER_TIMEOUT_MS))]) (S t) s
    end.

Definition handleInstanceHeartbeat (peer : string) (now : Z) (s : Lifecycle) : Lifecycle :=
  if bool_decide (lc_id s = peer) then s
  else
    match omap_get peer (lc_peers s) with
    | Some t =>
        with_peers (lc_peers s) (omap_set t (peer, now + PEER_TIMEOUT_MS) (lc_timers s)) (lc_nextTimer s) s
    | None => handleInstanceStarted peer now s
    end.

(** The election and the sweeps that follow change nothing here but what
    [Elected] does. *)
Definition handleInstanceStopped (peer : string) (s : Lifecycle) : Lifecycle :=
  if bool_decide (lc_id s = peer) then s else clear_peer peer s.

(** ** Starting *)

Definition subscribe_ (s : Lifecycle) : Lifecycle :=
  if lc_subscriptionsStarted s then s else with_subscription true (S (lc_handlers s)) s.

(** Up to the first await. *)
Definition doStart (s : Lifecycle) : Lifecycle :=
  let s := with_hooks (lc_startupHooks s) false (lc_shutdownHooks s) (with_status starting s) in
  let p := lc_next s in
  with_start (Some p) (Some (p, Subscribing)) (lc_closing s) (lc_rejected s) (S p) (subscribe_ s).

Definition with_caller (b : bool) (s : Lifecycle) : Lifecycle := with_stop (lc_stop s) (lc_waiting s) b s.

(** [start], once there is no stop to wait for. *)
Definition enter_start (s : Lifecycle) : Lifecycle :=
  let s := with_caller false s in
  if bool_decide (lc_status s = started) then s
  else match lc_startPromise s with Some _ => s | None => doStart s end.

Definition start (s : Lifecycle) : Lifecycle :=
  match lc_stop s with
  | Some x => with_stop (Some x) (S (lc_waiting s)) (lc_stoppedByCaller s) s
  | None => enter_start s
  end.

Definition set_stage (p : nat) (st : start_stage) (s : Lifecycle) : Lifecycle :=
  with_start (lc_startPromise s) (Some (p, st)) (lc_closing s) (lc_rejected s) (lc_next s) s.

(** The loop over the hooks, at the [i]th: a hook may register another. *)
Definition next_hook (p i : nat) (s : Lifecycle) : Lifecycle :=
  if (i <? lc_startupHooks s)%nat then set_stage p (RunningHook i) s
  else set_stage p LoadingTenants (with_hooks (lc_startupHooks s) true (lc_shutdownHooks s) s).

Definition registerShutdownHooks (s : Lifecycle) : Lifecycle :=
  with_hooks (lc_startupHooks s) (lc_startupHooksRan s) true s.

Definition finish_start (s : Lifecycle) : Lifecycle :=
  registerShutdownHooks (with_status started
    (with_start (lc_startPromise s) None (lc_closing s) (lc_rejected s) (lc_next s) s)).

(** [catch]: everything up to the awaited [close], whose effect is there when it
    is called. *)
Definition fail_start (p : nat) (s : Lifecycle) : Lifecycle :=
  with_subscription false 0 (with_status stopped
    (with_start None None (lc_closing s ++ [p]) (lc_rejected s) (lc_next s) s)).

Definition start_step (ok : bool) (s : Lifecycle) : option Lifecycle :=
  '(p, st) ← lc_running s;
  Some (if ok then
          match st with
          | Subscribing => set_stage p BuildingDefault s
          | BuildingDefault => next_hook p 0 s
          | RunningHook i => next_hook p (S i) s
          | LoadingTenants => set_stage p ElectingRoles s
          | ElectingRoles => finish_start s
          end
        else fail_start p s).

(** ** Stopping *)

Definition unregisterShutdownHooks (s : Lifecycle) : Lifecycle :=
  with_hooks (lc_startupHooks s) (lc_startupHooksRan s) false s.

Definition at_stop (x : stop_stage) (s : Lifecycle) : Lifecycle := with_stop (Some x) (lc_waiting s) (lc_stoppedByCaller s) s.

(** [doStop] up to its first await, which is all of it when there is nothing to
    stop. *)
Definition doStop (s : Lifecycle) : Lifecycle :=
  match lc_status s with
  | started | starting => at_stop Draining (unregisterShutdownHooks (with_status stopping s))
  | _ => at_stop Settling s
  end.

(** [backend.close()] is called: nothing is delivered any more. *)
Definition close_backend (s : Lifecycle) : Lifecycle :=
  at_stop ClosingBackend (with_subscription (lc_subscriptionsStarted s) 0 s).

Definition finish_stop (s : Lifecycle) : Lifecycle :=
  let s := with_subscription false (lc_handlers s) s in
  let s := clear_peers (with_work false [] [] s) in
  at_stop Settling (with_status stopped
    (with_start None (lc_running s) (lc_closing s) (lc_rejected s) (lc_next s) s)).

Definition stop (s : Lifecycle) : Lifecycle :=
  match lc_stop s with
  | Some _ => s
  | None =>
      match lc_status s, lc_startPromise s with
      | starting, Some p => at_stop (AwaitingStart p) s
      | (starting | started), _ => doStop s
      | _, _ => with_caller true s
      end
  end.

(** Whether the promise of a start has settled. *)
Definition settled (p : nat) (s : Lifecycle) : bool :=
  negb (bool_decide ((fst <$> lc_running s) = Some p)) && negb (bool_decide (p ∈ lc_closing s)).

(** The [finally] of [doStop] runs whatever a step threw. *)
Definition stop_step (ok : bool) (s : Lifecycle) : option Lifecycle :=
  x ← lc_stop s;
  match x with
  | AwaitingStart p =>
      if settled p s then Some (if bool_decide (p ∈ lc_rejected s) then at_stop Settling s else doStop s) else None
  | Draining => Some (if ok then at_stop AwaitingInFlight (clear_peers s) else close_backend s)
  | AwaitingInFlight => Some (if ok then at_stop Deregistering s else close_backend s)
  | Deregistering => Some (close_backend s)
  | ClosingBackend => Some (finish_stop s)
  | Settling => Some (with_stop None (lc_waiting s) true s)
  end.

(** ** The machine *)

Inductive Label :=
  | CallStart  (** [start()], or a request or mutation that starts the handler *)
  | ResumeStart  (** a call that awaited a stop goes on *)
  | StartStep (ok : bool)
  | CloseSettles (p : nat)
  | CallStop
  | StopStep (ok : bool)
  | AddHook  (** [registerStartupHook] *)
  | Elected  (** a registration is stored *)
  | Rebuild (clients tenants : list string)  (** clients and tenants are built or removed *)
  | PeerStarted (peer : string) (now : Z)
  | PeerBeat (peer : string) (now : Z)
  | PeerStopped (peer : string)
  | PeerTimer (t : nat) (now : Z).

Definition delivered (f : Lifecycle -> Lifecycle) (s : Lifecycle) : Lifecycle := Nat.iter (lc_handlers s) f s.

(** A call that awaited a stop resumes in the turn that stop settles, so no
    other stop is past the start it waits for. *)
Definition resumable (s : Lifecycle) : bool :=
  match lc_stop s with
  | None => true
  | Some (AwaitingStart p) => bool_decide ((fst <$> lc_running s) = Some p)
  | Some _ => false
  end.

Definition lstep (l : Label) (s : Lifecycle) : option Lifecycle :=
  match l with
  | CallStart => Some (start s)
  | ResumeStart =>
      match lc_waiting s with
      | O => None
      | S w => if resumable s then Some (enter_start (with_stop (lc_stop s) w (lc_stoppedByCaller s) s)) else None
      end
  | StartStep ok => start_step ok s
  | CloseSettles p =>
      if bool_decide (p ∈ lc_closing s) then
        Some (with_start (lc_startPromise s) (lc_running s) (oset_delete p (lc_closing s)) (p :: lc_rejected s) (lc_next s) s)
      else None
  | CallStop => Some (stop s)
  | StopStep ok => stop_step ok s
  | AddHook => Some (with_hooks (S (lc_startupHooks s)) (lc_startupHooksRan s) (lc_shutdownHooks s) s)
  | Elected =>
      match lc_status s with
      | started | starting => Some (with_work true (lc_clients s) (lc_tenants s) s)
      | _ => Some s
      end
  | Rebuild clients tenants => Some (with_work (lc_heartbeat s) clients tenants s)
  | PeerStarted peer now => Some (delivered (handleInstanceStarted peer now) s)
  | PeerBeat peer now => Some (delivered (handleInstanceHeartbeat peer now) s)
  | PeerStopped peer => Some (delivered (handleInstanceStopped peer) s)
  | PeerTimer t now =>
      match omap_get t (lc_timers s) with
      | Some (peer, due) =>
          if due <=? now then
            Some (handleInstanceStopped peer (with_peers (lc_peers s) (omap_delete t (lc_timers s)) (lc_nextTimer s) s))
          else None
      | None => None
      end
  end.

Fixpoint lrun (ls : list Label) (s : Lifecycle) : option Lifecycle :=
  match ls with [] => Some s | l :: ls' => s' ← lstep l s; lrun ls' s' end.

Inductive reachable (id : string) (hooks : nat) : Lifecycle -> Prop :=
  | reachable_fresh : reachable id hooks (fresh_handler id hooks)
  | reachable_step l s s' : reachable id hooks s -> lstep l s = Some s' -> reachable id hooks s'.

(** ** What a caller meets *)

(** [handleRequest] and the mutations of templates, before they start or wait:
    the code they are refused with. *)
Definition refusal (s : Lifecycle) : option string :=
  if bool_decide (lc_status s = stopping) || bool_decide (is_Some (lc_stop s)) then Some "handler_stopping"
  else if lc_stoppedByCaller s then Some "handler_stopped" else None.

(** * Elections, one at a time

    [scheduleClientRoles] of [packages/core/src/index.ts]: calls that come while
    an election runs share one more run after it.  A run is logged when it begins
    and its outcome when it ends, newest first; a promise is its number. *)
Local Close Scope Z_scope.

(** One [updateClientRoles(startup)], for the promise it settles. *)
Record Run := { ru_promise : nat; ru_startup : bool; ru_outcome : option bool }.

(** A call: the promise it was returned, how many runs had begun, what it asked. *)
Record RoleCall := { ca_promise : nat; ca_at : nat; ca_startup : bool }.

Record Roles := {
  ro_running : bool;
  ro_rerun : bool;
  ro_rerunStartup : bool;
  ro_promise : nat;  (** [rolesPromise]; the constructor's is 0, and resolved *)
  ro_log : list Run;
  ro_calls : list RoleCall;
  ro_resolved : list nat
}.

Definition no_roles : Roles :=
  {| ro_running := false; ro_rerun := false; ro_rerunStartup := false; ro_promise := 0; ro_log := []; ro_calls := [];
     ro_resolved := [0%nat] |}.

(** The head of the [do] loop. *)
Definition begin_run (p : nat) (s : Roles) : Roles :=
  {| ro_running := true; ro_rerun := false; ro_rerunStartup := false; ro_promise := p;
     ro_log := {| ru_promise := p; ru_startup := ro_rerunStartup s; ru_outcome := None |} :: ro_log s;
     ro_calls := ro_calls s; ro_resolved := ro_resolved s |}.

Definition scheduleClientRoles (isStartup : bool) (s : Roles) : Roles :=
  let startup := ro_rerunStartup s || isStartup in
  let p := if ro_running s then ro_promise s else S (ro_promise s) in
  let s := {| ro_running := ro_running s; ro_rerun := ro_rerun s; ro_rerunStartup := startup; ro_promise := ro_promise s;
              ro_log := ro_log s;
              ro_calls := {| ca_promise := p; ca_at := length (ro_log s); ca_startup := isStartup |} :: ro_calls s;
              ro_resolved := ro_resolved s |} in
  if ro_running s then
    {| ro_running := true; ro_rerun := true; ro_rerunStartup := ro_rerunStartup s; ro_promise := ro_promise s;
       ro_log := ro_log s; ro_calls := ro_calls s; ro_resolved := ro_resolved s |}
  else begin_run p s.

Definition with_outcome (ok : bool) (s : Roles) : Roles :=
  {| ro_running := ro_running s; ro_rerun := ro_rerun s; ro_rerunStartup := ro_rerunStartup s; ro_promise := ro_promise s;
     ro_log := match ro_log s with
               | r :: log => {| ru_promise := ru_promise r; ru_startup := ru_startup r; ru_outcome := Some ok |} :: log
               | [] => []
               end;
     ro_calls := ro_calls s; ro_resolved := ro_resolved s |}.

(** The run ends: the loop goes round again, or the promise settles. *)
Definition end_run (ok : bool) (s : Roles) : Roles :=
  let s := with_outcome ok s in
  if ok && ro_rerun s then begin_run (ro_promise s) s
  else
    {| ro_running := false; ro_rerun := ro_rerun s; ro_rerunStartup := ro_rerunStartup s; ro_promise := ro_promise s;
       ro_log := ro_log s; ro_calls := ro_calls s;
       ro_resolved := if ok then ro_promise s :: ro_resolved s else ro_resolved s |}.

Inductive schedules : Roles -> Prop :=
  | schedules_none : schedules no_roles
  | schedules_call isStartup s : schedules s -> schedules (scheduleClientRoles isStartup s)
  | schedules_end ok s : schedules s -> ro_running s = true -> schedules (end_run ok s).

(** ** What a resolved call has seen *)

(** A run that began after the call, for its promise, as a startup if it asked. *)
Definition observed (log : list Run) (c : RoleCall) (startup : bool) : Prop :=
  exists newer r older, log = newer ++ r :: older /\ (ca_at c <= length older)%nat /\ ru_promise r = ca_promise c /\
    (startup = true -> ru_startup r = true).

Record sound_roles (s : Roles) : Prop := {
  sr_resolved : forall p, p ∈ ro_resolved s ->
    (p <= ro_promise s)%nat /\ (ro_running s = true -> p <> ro_promise s) /\
    forall r, r ∈ ro_log s -> ru_promise r = p -> ru_outcome r = Some true;
  sr_log : forall r, r ∈ ro_log s -> (0 < ru_promise r <= ro_promise s)%nat;
  sr_running : ro_running s = true ->
    exists r log, ro_log s = r :: log /\ ru_promise r = ro_promise s /\
      forall r', r' ∈ log -> ru_promise r' = ro_promise s -> ru_outcome r' = Some true;
  sr_calls : forall c, c ∈ ro_calls s -> (0 < ca_promise c <= ro_promise s)%nat /\ (ca_at c <= length (ro_log s))%nat;
  sr_idle : forall c, c ∈ ro_calls s -> ca_promise c ∈ ro_resolved s -> observed (ro_log s) c false /\
    (ca_startup c = true -> observed (ro_log s) c true);
  sr_pending : forall c, c ∈ ro_calls s -> ro_running s = true -> ca_promise c = ro_promise s ->
    (ro_rerun s = true \/ observed (ro_log s) c false) /\
    (ca_startup c = true -> (ro_rerun s = true /\ ro_rerunStartup s = true) \/ observed (ro_log s) c true)
}.

Lemma observed_grow log log' c b : observed log c b -> observed (log' ++ log) c b.
Proof.
  intros (n & r & o & -> & H). exists (log' ++ n), r, o. by rewrite <- app_assoc.
Qed.

Lemma observed_now log c p startup b : ca_promise c = p -> (ca_at c <= length log)%nat -> (b = true -> startup = true) ->
  observed ({| ru_promise := p; ru_startup := startup; ru_outcome := None |} :: log) c b.
Proof. intros <- Hat Hb. by exists [], {| ru_promise := ca_promise c; ru_startup := startup; ru_outcome := None |}, log. Qed.

Lemma observed_outcome r log ok c b : observed (r :: log) c b ->
  observed ({| ru_promise := ru_promise r; ru_startup := ru_startup r; ru_outcome := Some ok |} :: log) c b.
Proof.
  intros ([|r0 n] & r1 & o & E & Hat & Hp & Hb); cbn in E; injection E as -> ->.
  - by exists [], {| ru_promise := ru_promise r1; ru_startup := ru_startup r1; ru_outcome := Some ok |}, o.
  - by eexists (_ :: n), r1, o.
Qed.

Lemma sound_none : sound_roles no_roles.
Proof.
  split; cbn; try done; try by intros ? H; exfalso; inversion H.
  - intros p ->%list_elem_of_singleton. split; [lia|]. split; [done|]. intros r H. exfalso. inversion H.
Qed.

Lemma sound_call isStartup s : sound_roles s -> sound_roles (scheduleClientRoles isStartup s).
Proof.
  intros []. unfold scheduleClientRoles. destruct (ro_running s) eqn:Er.
  - specialize (sr_running0 eq_refl). split; cbn; try done.
    + intros c [->|Hc]%elem_of_cons; cbn; [|by apply sr_calls0]. split; [|done].
      destruct sr_running0 as (r & log & El & Hp & _). specialize (sr_log0 r). rewrite El, Hp in sr_log0. apply sr_log0. left.
    + intros c [->|Hc]%elem_of_cons; [|by apply sr_idle0]. cbn. intros Hres. by destruct (sr_resolved0 _ Hres) as (_ & H & _); destruct H.
    + intros c [->|Hc]%elem_of_cons _ Hp; (split; [by left|]).
      * cbn. intros ->. left. by rewrite orb_true_r.
      * intros Hst. destruct (sr_pending0 c Hc eq_refl Hp) as [_ H]. destruct (H Hst) as [[_ Hr]|Ho]; [left|by right]. by rewrite Hr.
  - split; cbn.
    + intros p Hp. destruct (sr_resolved0 p Hp) as (H1 & _ & H3). split_and!; [lia|intros _; lia|].
      intros r [->|Hr]%elem_of_cons; [cbn; lia|by apply H3].
    + intros r [->|Hr]%elem_of_cons; [cbn; lia|]. specialize (sr_log0 r Hr). lia.
    + intros _. do 2 eexists. split; [done|]. split; [done|]. intros r Hr Hp. specialize (sr_log0 r Hr). lia.
    + intros c [->|Hc]%elem_of_cons; cbn; [lia|]. specialize (sr_calls0 c Hc). lia.
    + intros c [->|Hc]%elem_of_cons; cbn.
      * intros Hp. destruct (sr_resolved0 _ Hp). lia.
      * intros Hp. destruct (sr_idle0 c Hc Hp) as [H1 H2]. split; [|intros Hs; specialize (H2 Hs)]; by apply (observed_grow _ [_]).
    + intros c [->|Hc]%elem_of_cons _ Hp; [|specialize (sr_calls0 c Hc); lia].
      split; [right; by apply observed_now|]. cbn. intros ->. right. apply observed_now; [done|cbn; lia|by rewrite orb_true_r].
Qed.

Lemma sound_end ok s : sound_roles s -> ro_running s = true -> sound_roles (end_run ok s).
Proof.
  intros [] Er. destruct (sr_running0 Er) as (r & log & El & Hp & Hall).
  assert (forall p, p ∈ ro_resolved s -> (p <= ro_promise s)%nat /\ p <> ro_promise s) as Hres.
  { intros p Hq. destruct (sr_resolved0 p Hq) as (H1 & H2 & _). by split; [|apply H2]. }
  set (r' := {| ru_promise := ru_promise r; ru_startup := ru_startup r; ru_outcome := Some ok |}).
  assert (forall p, p ∈ ro_resolved s -> forall q, q ∈ r' :: log -> ru_promise q = p -> ru_outcome q = Some true) as Hold.
  { intros p Hq q [->|Hin]%elem_of_cons Hqp; [cbn in Hqp; destruct (Hres p Hq); congruence|].
    destruct (sr_resolved0 p Hq) as (_ & _ & H). apply H; [|done]. rewrite El. by right. }
  assert (forall q, q ∈ r' :: log -> (0 < ru_promise q <= ro_promise s)%nat) as Hlog.
  { intros q [->|Hin]%elem_of_cons; [change (0 < ru_promise r <= ro_promise s)%nat|]; apply sr_log0; rewrite El; [left|by right]. }
  assert (forall c, c ∈ ro_calls s -> (0 < ca_promise c <= ro_promise s)%nat /\ (ca_at c <= S (length log))%nat) as Hcalls.
  { intros c Hc. specialize (sr_calls0 c Hc). by rewrite El in sr_calls0. }
  assert (forall c b, observed (ro_log s) c b -> observed (r' :: log) c b) as Hobs.
  { intros c b. rewrite El. apply observed_outcome. }
  unfold end_run, with_outcome. rewrite El. cbn [ro_running ro_rerun ro_rerunStartup ro_promise ro_log ro_calls ro_resolved].
  fold r'. destruct (ok && ro_rerun s) eqn:Eb.
  - apply andb_prop in Eb as [-> Erer]. split; cbn.
    + intros p Hq. destruct (Hres p Hq). split_and!; [done|done|]. intros q [->|Hin]%elem_of_cons; [|by apply (Hold p)].
      intros Hqp. cbn in Hqp. congruence.
    + intros q [->|Hin]%elem_of_cons; [|by apply Hlog]. specialize (Hlog r' ltac:(left)). cbn in *. lia.
    + intros _. do 2 eexists. split; [done|]. split; [done|]. intros q [->|Hin]%elem_of_cons Hq; [done|by apply Hall].
    + intros c Hc. specialize (Hcalls c Hc). lia.
    + intros c Hc Hq. destruct (sr_idle0 c Hc Hq) as [H1 H2]. split; [|intros Hs; specialize (H2 Hs)]; apply (observed_grow _ [_]); auto.
    + intros c Hc _ Hq. destruct (Hcalls c Hc) as [_ Hat]. split; [right; by apply observed_now|]. intros Hs. right.
      destruct (sr_pending0 c Hc Er Hq) as [_ H]. destruct (H Hs) as [[_ Hr]|Ho]; [by apply observed_now|].
      apply (observed_grow _ [_]). auto.
  - split; cbn.
    + intros p Hq. assert (p ∈ ro_resolved s \/ (ok = true /\ p = ro_promise s)) as [H|[-> ->]].
      { destruct ok; [apply elem_of_cons in Hq as [->|]|]; auto. }
      * destruct (Hres p H). split_and!; [done|done|by apply (Hold p)].
      * split_and!; [done|done|]. intros q [->|Hin]%elem_of_cons Hqp; [done|by apply Hall].
    + done.
    + done.
    + done.
    + intros c Hc Hq. assert (ca_promise c ∈ ro_resolved s \/ (ok = true /\ ca_promise c = ro_promise s)) as [H|[-> Hq']].
      { destruct ok; [apply elem_of_cons in Hq as [->|]|]; auto. }
      * destruct (sr_idle0 c Hc H) as [H1 H2]. split; auto.
      * cbn in Eb. destruct (sr_pending0 c Hc Er Hq') as [[H1|H1] H2]; [congruence|]. split; [auto|].
        intros Hs. destruct (H2 Hs) as [[H3 _]|]; [congruence|auto].
    + done.
Qed.

Lemma schedules_sound s : schedules s -> sound_roles s.
Proof. induction 1; [apply sound_none|by apply sound_call|by apply sound_end]. Qed.

(** A call whose promise resolves has seen an election that began after it and
    ended well, and one that announced this replica's start when it asked for
    that; an election that fails resolves nobody. *)
Theorem election_observed (s : Roles) (c : RoleCall) :
  schedules s -> c ∈ ro_calls s -> ca_promise c ∈ ro_resolved s ->
  exists newer r older, ro_log s = newer ++ r :: older /\ (ca_at c <= length older)%nat /\
    ru_outcome r = Some true /\ (ca_startup c = true -> exists r', r' ∈ newer ++ [r] /\ ru_startup r' = true /\ ru_outcome r' = Some true).
Proof.
  intros [] % schedules_sound Hc Hres. destruct (sr_idle0 c Hc Hres) as [(n & r & o & El & Hat & Hp & _) Hs].
  destruct (sr_resolved0 _ Hres) as (_ & _ & Hok).
  assert (forall q, q ∈ ro_log s -> ru_promise q = ca_promise c -> ru_outcome q = Some true) as Hq by exact Hok. clear Hok.
  destruct (ca_startup c) eqn:Es.
  - destruct (Hs eq_refl) as (n' & r' & o' & El' & Hat' & Hp' & Hst'). exists n', r', o'.
    assert (ru_outcome r' = Some true) as Ho by (apply Hq; [rewrite El', elem_of_app; right; left|done]).
    split_and!; [done..|]. intros _. exists r'. split; [|split; [by apply Hst'|done]]. rewrite elem_of_app. right. by left.
  - exists n, r, o. split_and!; [done|done| |done]. apply Hq; [|done]. rewrite El, elem_of_app. right. by left.
Qed.

(** * Work on one tenant, one at a time

    [underEntryLock] of [packages/core/src/utils/templateClients.ts]: a call waits
    for the one before it on the same entry, whether that fails or not.  A call
    is its number, and so is its promise. *)

Inductive lock_phase := Waiting | Working | Finished (ok : bool).

#[export] Instance lock_phase_eq_dec : EqDecision lock_phase.
Proof. solve_decision. Defined.

Record LockRun := { lr_entry : string; lr_previous : option nat; lr_phase : lock_phase; lr_left : bool }.

Record EntryLocks := { el_runs : list LockRun; el_locks : list (string * nat) }.

Definition no_locks : EntryLocks := {| el_runs := []; el_locks := [] |}.

(** Up to the first await: without a predecessor the work begins at once. *)
Definition underEntryLock (entry : string) (s : EntryLocks) : EntryLocks :=
  let previous := omap_get entry (el_locks s) in
  {| el_runs := el_runs s ++ [{| lr_entry := entry; lr_previous := previous;
                                 lr_phase := if previous then Waiting else Working; lr_left := false |}];
     el_locks := omap_set entry (length (el_runs s)) (el_locks s) |}.

Definition set_run (i : nat) (phase : lock_phase) (left : bool) (r : LockRun) (s : EntryLocks) : EntryLocks :=
  {| el_runs := <[i := {| lr_entry := lr_entry r; lr_previous := lr_previous r; lr_phase := phase; lr_left := left |}]> (el_runs s);
     el_locks := el_locks s |}.

(** [previous.catch(() => undefined)] has settled. *)
Definition work_begins (i : nat) (s : EntryLocks) : option EntryLocks :=
  r ← el_runs s !! i;
  p ← lr_previous r;
  q ← el_runs s !! p;
  match lr_phase r, lr_phase q with
  | Waiting, Finished _ => Some (set_run i Working (lr_left r) r s)
  | _, _ => None
  end.

Definition work_ends (i : nat) (ok : bool) (s : EntryLocks) : option EntryLocks :=
  r ← el_runs s !! i;
  match lr_phase r with Working => Some (set_run i (Finished ok) (lr_left r) r s) | _ => None end.

(** The [finally] of a call. *)
Definition call_leaves (i : nat) (s : EntryLocks) : option EntryLocks :=
  r ← el_runs s !! i;
  match lr_phase r, lr_left r with
  | Finished ok, false =>
      let s := set_run i (Finished ok) true r s in
      Some (if bool_decide (omap_get (lr_entry r) (el_locks s) = Some i) then
              {| el_runs := el_runs s; el_locks := omap_delete (lr_entry r) (el_locks s) |}
            else s)
  | _, _ => None
  end.

Inductive locks_reachable : EntryLocks -> Prop :=
  | locks_none : locks_reachable no_locks
  | locks_call entry s : locks_reachable s -> locks_reachable (underEntryLock entry s)
  | locks_begin i s s' : locks_reachable s -> work_begins i s = Some s' -> locks_reachable s'
  | locks_end i ok s s' : locks_reachable s -> work_ends i ok s = Some s' -> locks_reachable s'
  | locks_leave i s s' : locks_reachable s -> call_leaves i s = Some s' -> locks_reachable s'.

Definition finished (r : LockRun) : Prop := exists ok, lr_phase r = Finished ok.

(** The calls of an entry, in order: what one that is under way says of those
    before it, and what the map holds of the last. *)
Record sound_locks (s : EntryLocks) : Prop := {
  sl_last : forall e i, omap_get e (el_locks s) = Some i ->
    exists r, el_runs s !! i = Some r /\ lr_entry r = e /\ lr_left r = false;
  sl_latest : forall e i j r, omap_get e (el_locks s) = Some i -> el_runs s !! j = Some r -> lr_entry r = e -> (j <= i)%nat;
  sl_free : forall j r, omap_get (lr_entry r) (el_locks s) = None -> el_runs s !! j = Some r -> finished r;
  sl_order : forall i j r q, el_runs s !! i = Some r -> lr_phase r <> Waiting -> (j < i)%nat -> el_runs s !! j = Some q ->
    lr_entry q = lr_entry r -> finished q;
  sl_waiting : forall i r, el_runs s !! i = Some r -> lr_phase r = Waiting ->
    exists p q, lr_previous r = Some p /\ (p < i)%nat /\ el_runs s !! p = Some q /\ lr_entry q = lr_entry r /\
      forall j q', (p < j < i)%nat -> el_runs s !! j = Some q' -> lr_entry q' <> lr_entry r
}.

Lemma locks_sound_none : sound_locks no_locks.
Proof. split; done. Qed.

Lemma lookup_snoc_run {A} (l : list A) x i y : (l ++ [x]) !! i = Some y <-> l !! i = Some y \/ (i = length l /\ y = x).
Proof.
  rewrite lookup_app_Some, list_lookup_singleton_Some. split; intros [H|H]; auto; right.
  - destruct H as (H1 & H2 & ->). split; [lia|done].
  - destruct H as [-> ->]. split_and!; [lia|lia|done].
Qed.

Lemma locks_sound_call e s : sound_locks s -> sound_locks (underEntryLock e s).
Proof.
  intros [L1 L2 L3 L4 L5]. pose proof (fun i r => lookup_lt_Some (el_runs s) i r) as Hlt.
  split; cbn [el_runs el_locks underEntryLock].
  - intros e' i. rewrite omap_get_set. case_decide as E.
    + intros [= <-]. eexists. rewrite lookup_snoc_run. split; [by right|done].
    + intros H. destruct (L1 e' i H) as (r & Hr & H'). exists r. rewrite lookup_snoc_run. by split; [left|].
  - intros e' i j r. rewrite omap_get_set, lookup_snoc_run. case_decide as E.
    + intros [= <-] [Hr|[-> ->]] _; [specialize (Hlt j r Hr); lia|done].
    + intros H [Hr|[-> ->]] He; [by eapply L2|done].
  - intros j r. rewrite omap_get_set, lookup_snoc_run. case_decide as E; [done|]. intros H [Hr|[-> ->]]; [by eapply L3|done].
  - intros i j r q Hr Hp Hj Hq He. apply lookup_snoc_run in Hr, Hq.
    destruct Hr as [Hr|[-> ->]]; destruct Hq as [Hq|[-> ->]]; [by eapply (L4 i j r q)|specialize (Hlt i r Hr); lia| |lia].
    cbn in *. apply (L3 j q); [|done]. rewrite He. by destruct (omap_get e (el_locks s)).
  - intros i r Hr Hp. apply lookup_snoc_run in Hr as [Hr|[-> ->]].
    + destruct (L5 i r Hr Hp) as (p & q & H1 & H2 & H3 & H4 & H5). exists p, q. rewrite lookup_snoc_run. split_and!; auto.
      intros j q' Hj. rewrite lookup_snoc_run. intros [Hq'|[-> ->]]; [by apply (H5 j)|specialize (Hlt i r Hr); lia].
    + cbn in *. destruct (omap_get e (el_locks s)) as [p|] eqn:E; [|done]. destruct (L1 e p E) as (q & Hq & He & _).
      exists p, q. rewrite lookup_snoc_run. specialize (Hlt p q Hq). split_and!; auto. intros j q' Hj.
      rewrite lookup_snoc_run. intros [Hq'|[-> _]]; [|lia]. intros He'. specialize (L2 e p j q' E Hq' He'). lia.
Qed.

(** What changes a run but not whose it is, nor who came before it. *)
Lemma lookup_set_run i ph left r s j q : el_runs s !! i = Some r ->
  el_runs (set_run i ph left r s) !! j = Some q <->
  (j <> i /\ el_runs s !! j = Some q) \/
  (j = i /\ q = {| lr_entry := lr_entry r; lr_previous := lr_previous r; lr_phase := ph; lr_left := left |}).
Proof.
  intros Hi. cbn [el_runs set_run]. rewrite list_lookup_insert_Some. pose proof (lookup_lt_Some _ _ _ Hi). naive_solver.
Qed.

Lemma locks_sound_set i ph left r s : sound_locks s -> el_runs s !! i = Some r ->
  (finished r -> exists ok, ph = Finished ok) -> ph <> Waiting ->
  (forall j q, (j < i)%nat -> el_runs s !! j = Some q -> lr_entry q = lr_entry r -> finished q) ->
  (left = true -> omap_get (lr_entry r) (el_locks s) <> Some i) ->
  sound_locks (set_run i ph left r s).
Proof.
  intros [L1 L2 L3 L4 L5] Hi Hfin Hph Hbefore Hleft.
  assert (forall j q q', (j <> i /\ el_runs s !! j = Some q) \/ (j = i /\ q = {| lr_entry := lr_entry r;
    lr_previous := lr_previous r; lr_phase := ph; lr_left := left |}) -> el_runs s !! j = Some q' ->
    finished q' -> finished q) as Hf.
  { intros j q q' [[_ Hq]|[-> ->]] Hq' Hf; [congruence|]. rewrite Hi in Hq'. injection Hq' as <-. by apply Hfin. }
  assert (forall j q, (j <> i /\ el_runs s !! j = Some q) \/ (j = i /\ q = {| lr_entry := lr_entry r;
    lr_previous := lr_previous r; lr_phase := ph; lr_left := left |}) -> exists q', el_runs s !! j = Some q' /\ lr_entry q' = lr_entry q) as Hold.
  { intros j q [[_ Hq]|[-> ->]]; [by exists q|by exists r]. }
  split; change (el_locks (set_run i ph left r s)) with (el_locks s).
  - intros e j H. destruct (L1 e j H) as (q & Hq & He & Hl). destruct (decide (j = i)) as [->|Hne].
    + rewrite Hi in Hq. injection Hq as <-. eexists. rewrite lookup_set_run by done. split; [right; by split|]. split; [done|].
      cbn. destruct left; [|done]. subst e. by destruct (Hleft eq_refl).
    + exists q. rewrite lookup_set_run by done. split; [by left|done].
  - intros e j k q H Hq He. rewrite lookup_set_run in Hq by done. destruct (Hold k q Hq) as (q' & Hq' & He').
    apply (L2 e j k q' H Hq'). congruence.
  - intros j q H Hq. rewrite lookup_set_run in Hq by done. destruct (Hold j q Hq) as (q' & Hq' & He').
    apply (Hf j q q' Hq Hq'). apply (L3 j q'); [by rewrite He'|done].
  - intros j k q q1 Hq Hp Hk Hq1 He. rewrite lookup_set_run in Hq, Hq1 by done.
    destruct (Hold k q1 Hq1) as (q1' & Hq1' & He1). apply (Hf k q1 q1' Hq1 Hq1').
    destruct Hq as [[Hne Hq]|[-> ->]]; [apply (L4 j k q q1' Hq Hp Hk Hq1'); congruence|].
    apply (Hbefore k q1' Hk Hq1'). cbn in He. congruence.
  - intros j q Hq Hp. rewrite lookup_set_run in Hq by done. destruct Hq as [[Hne Hq]|[-> ->]]; [|done].
    destruct (L5 j q Hq Hp) as (p & q1 & H1 & H2 & H3 & H4 & H5).
    assert (exists q2, el_runs (set_run i ph left r s) !! p = Some q2 /\ lr_entry q2 = lr_entry q1) as (q2 & Hq2 & He2).
    { destruct (decide (p = i)) as [->|Hpi]; setoid_rewrite lookup_set_run; try done; [|exists q1; by split; [left|]].
      rewrite Hi in H3. injection H3 as <-. eexists. split; [right; by split|done]. }
    exists p, q2. split_and!; [done..|congruence|]. intros k q' Hk Hq'. rewrite lookup_set_run in Hq' by done.
    destruct (Hold k q' Hq') as (q'' & Hq'' & <-). by apply (H5 k q'').
Qed.

Lemma locks_sound_delete i r s : sound_locks s -> omap_get (lr_entry r) (el_locks s) = Some i -> el_runs s !! i = Some r ->
  finished r -> sound_locks {| el_runs := el_runs s; el_locks := omap_delete (lr_entry r) (el_locks s) |}.
Proof.
  intros [L1 L2 L3 L4 L5] Hget Hi Hfin. split; cbn [el_runs el_locks]; try done.
  - intros e j. rewrite omap_get_delete. case_decide; [done|]. apply L1.
  - intros e j k q. rewrite omap_get_delete. case_decide; [done|]. apply L2.
  - intros j q. rewrite omap_get_delete. case_decide as E; [|intros H Hj; by apply (L3 j q)]. intros _ Hj.
    specialize (L2 _ i j q Hget Hj (eq_sym E)). destruct (decide (j = i)) as [->|Hne]; [congruence|].
    apply (L4 i j r q Hi); [destruct Hfin as [ok ->]; done|lia|done|done].
Qed.

Lemma locks_sound s : locks_reachable s -> sound_locks s.
Proof.
  induction 1 as [|e s _ IH|i s s' _ IH Hstep|i ok s s' _ IH Hstep|i s s' _ IH Hstep].
  - apply locks_sound_none.
  - by apply locks_sound_call.
  - unfold work_begins in Hstep. destruct (el_runs s !! i) as [r|] eqn:Hi; [|done]. cbn in Hstep.
    destruct (lr_previous r) as [p|] eqn:Hp; [|done]. cbn in Hstep. destruct (el_runs s !! p) as [q|] eqn:Hq; [|done]. cbn in Hstep.
    destruct (lr_phase r) eqn:Ep; try done. destruct (lr_phase q) as [| |ok] eqn:Eq; try done. injection Hstep as <-.
    destruct (sl_waiting s IH i r Hi Ep) as (p' & q' & H1 & H2 & H3 & H4 & H5). rewrite Hp in H1. injection H1 as <-.
    rewrite Hq in H3. injection H3 as <-. apply locks_sound_set; try done.
    + intros [? ?]. congruence.
    + intros j q' Hj Hq' He. destruct (decide (j = p)) as [->|Hne]; [rewrite Hq in Hq'; injection Hq' as <-; by exists ok|].
      destruct (decide (j < p)%nat) as [Hjp|Hjp]; [|exfalso; apply (H5 j q'); [lia|done|done]].
      apply (sl_order s IH p j q q' Hq); [by rewrite Eq|done|done|congruence].
    + intros Hl E. destruct (sl_last s IH _ _ E) as (r' & Hr' & _ & Hl'). congruence.
  - unfold work_ends in Hstep. destruct (el_runs s !! i) as [r|] eqn:Hi; [|done]. cbn in Hstep.
    destruct (lr_phase r) eqn:Ep; try done. injection Hstep as <-. apply locks_sound_set; try done; [by exists ok| |].
    + intros j q. apply (sl_order s IH i j r q Hi). by rewrite Ep.
    + intros Hl E. destruct (sl_last s IH _ _ E) as (r' & Hr' & _ & Hl'). congruence.
  - unfold call_leaves in Hstep. destruct (el_runs s !! i) as [r|] eqn:Hi; [|done]. cbn in Hstep.
    destruct (lr_phase r) as [| |ok] eqn:Ep; try done. destruct (lr_left r) eqn:El; [done|]. injection Hstep as <-.
    assert (finished r) as Hfin by (by exists ok).
    assert (forall s, sound_locks s -> el_runs s !! i = Some r -> omap_get (lr_entry r) (el_locks s) <> Some i ->
      sound_locks (set_run i (Finished ok) true r s)) as Hset.
    { intros t Ht Hti Hget. apply locks_sound_set; try done; [by exists ok|]. intros j q. apply (sl_order t Ht i j r q Hti). by rewrite Ep. }
    case_bool_decide as E; [|by apply Hset].
    apply (Hset {| el_runs := el_runs s; el_locks := omap_delete (lr_entry r) (el_locks s) |}); [|done|].
    + by apply (locks_sound_delete i).
    + cbn [el_locks]. rewrite omap_get_delete. by rewrite decide_True.
Qed.

(** C35: Work on one tenant is serial.  However calls on the tenants of a handler
    come in, begin, end, fail and leave, of those on one entry at most one is
    under way, and every call that was asked for before it is over; a call that
    fails holds nobody up: for as long as one is not over, it or one before it on
    its entry is under way or can begin; and once all have left, the map of locks
    is empty. *)
Theorem entry_work_serial (s : EntryLocks) : locks_reachable s ->
  (forall i j r q, el_runs s !! i = Some r -> el_runs s !! j = Some q -> lr_entry q = lr_entry r ->
     lr_phase r = Working -> (j < i)%nat -> finished q) /\
  (forall i j r q, el_runs s !! i = Some r -> el_runs s !! j = Some q -> lr_entry q = lr_entry r ->
     lr_phase r = Working -> lr_phase q = Working -> i = j) /\
  (forall i r, el_runs s !! i = Some r -> ~ finished r ->
     exists j q, (j <= i)%nat /\ el_runs s !! j = Some q /\ lr_entry q = lr_entry r /\
       (lr_phase q = Working \/ is_Some (work_begins j s))) /\
  ((forall i r, el_runs s !! i = Some r -> lr_left r = true) -> forall e, omap_get e (el_locks s) = None).
Proof.
  intros Hs%locks_sound. split_and!.
  - intros i j r q Hi Hj He Hp Hlt. apply (sl_order s Hs i j r q Hi); [by rewrite Hp|done..].
  - intros i j r q Hi Hj He Hp Hq. destruct (Nat.lt_trichotomy i j) as [Hlt|[->|Hlt]]; [|done|].
    + destruct (sl_order s Hs j i q r Hj ltac:(by rewrite Hq) Hlt Hi ltac:(done)) as [ok E]. congruence.
    + destruct (sl_order s Hs i j r q Hi ltac:(by rewrite Hp) Hlt Hj He) as [ok E]. congruence.
  - intros i. induction (lt_wf i) as [i _ IH]. intros r Hi Hn. destruct (lr_phase r) as [| |ok] eqn:Ep.
    + destruct (sl_waiting s Hs i r Hi Ep) as (p & q & H1 & H2 & H3 & H4 & H5).
      destruct (lr_phase q) as [| |ok] eqn:Eq.
      3: { exists i, r. split_and!; [lia|done|done|]. right. unfold work_begins. rewrite Hi. cbn. rewrite H1. cbn. rewrite H3. cbn.
           rewrite Ep, Eq. done. }
      all: destruct (IH p H2 q H3) as (j & q' & Hj & Hq' & He & H); [intros [? ?]; congruence|].
      all: exists j, q'; split_and!; [lia|done|congruence|done].
    + exists i, r. split_and!; [lia|done|done|by left].
    + destruct Hn. by exists ok.
  - intros Hall e. destruct (omap_get e (el_locks s)) as [i|] eqn:E; [|done].
    destruct (sl_last s Hs e i E) as (r & Hr & _ & Hl). specialize (Hall i r Hr). congruence.
Qed.

(** Two calls on one entry, of which the first failed, and one on another. *)
Definition demo_locks : option EntryLocks :=
  work_ends 0 false (underEntryLock "t::2" (underEntryLock "t::1" (underEntryLock "t::1" no_locks))) ≫= work_begins 1.

Lemma demo_locks_reachable s : demo_locks = Some s -> locks_reachable s.
Proof.
  unfold demo_locks. destruct (work_ends 0 false _) as [s1|] eqn:E1; [|done]. cbn [mbind option_bind]. intros E.
  apply (locks_begin 1 s1 s); [|exact E]. eapply locks_end; [|exact E1]. repeat apply locks_call. apply locks_none.
Qed.

Lemma entry_work_serial_witness :
  exists s, demo_locks = Some s
  /\ map lr_phase (el_runs s) = [Finished false; Working; Working]
  /\ (forall j q, el_runs s !! j = Some q -> lr_entry q = "t::1" -> lr_phase q = Working -> j = 1%nat)
  /\ (forall j q, (j < 1)%nat -> el_runs s !! j = Some q -> lr_entry q = "t::1" -> finished q).
Proof.
  destruct demo_locks as [s|] eqn:E; [|vm_compute in E; discriminate]. exists s.
  destruct (entry_work_serial s (demo_locks_reachable s E)) as (H1 & H2 & _).
  assert (exists r, el_runs s !! 1%nat = Some r /\ lr_entry r = "t::1" /\ lr_phase r = Working /\
    map lr_phase (el_runs s) = [Finished false; Working; Working]) as (r & Hr & Her & Hp & Hm).
  { vm_compute in E. injection E as <-. by eexists. }
  split; [done|]. split; [done|]. split.
  - intros j q Hj He Hq. symmetry. apply (H2 1%nat j r q Hr Hj); congruence.
  - intros j q Hlt Hj He. apply (H1 1%nat j r q Hr Hj); [congruence|done|done].
Defined.
