(* ===== verification/Handler.v ===== *)
(** * The handler around its clients

    The rest of [packages/core/src/index.ts]: what the constructor and [use]
    refuse, the waits for a client and for a shutdown's backlog, which poll until
    a deadline; and [utils/startSubscriptions.ts]: what a message on each channel
    sets off.  A wait's clock, its sleep and what it polls are programs of a host;
    what a client does with a message is the client's, another program. *)
From S2P Require Import Prelude JsNumber JsString Json JsonFacts Value ClientName RateLimit MemoryStore Backend Requests Client.
From S2P Require Import Timers Encryption Authenticate Templates TemplateClients.
Local Open Scope num_scope.

(** ** Construction *)

Definition MIN_KEY_LENGTH : nat := 32.

(** The checks on [backend] and [key], in order. *)
Definition assertHandlerOptions (backend : bool) (key : value) : result unit :=
  if negb backend then
    Throw (ConfigurationError "backend_required"
      "RequestHandler requires a `backend`. Use redisBackend(connection) for anything running more than one process, or memoryBackend() for a single process.")
  else
    match key with
    | VStr (String _ _ as k) =>
        if (String.length k <? MIN_KEY_LENGTH)%nat then
          Throw (ConfigurationError "key_too_short"
            ("RequestHandler's `key` is " +:+ num_to_string (int (Z.of_nat (String.length k))) +:+ " characters; it needs at least "
             +:+ num_to_string (int (Z.of_nat MIN_KEY_LENGTH))
             +:+ ". It encrypts stored credentials, so use a high-entropy secret from your secret store. Credentials stored under the old key cannot be read under a new one: add them again."))
        else Ok tt
    | _ =>
        Throw (ConfigurationError "key_required"
          ("RequestHandler requires a non-empty `key`. It encrypts stored credentials, so use a high-entropy secret ("
           +:+ num_to_string (int (Z.of_nat MIN_KEY_LENGTH)) +:+ "+ characters) from your secret store, not a literal."))
    end.

Definition handler_namespace (keyPrefix : option string) : string :=
  match truthy keyPrefix with Some p => p +:+ ":requestHandler" | None => "requestHandler" end.

(** [data.priority || 1]. *)
Definition handler_priority (priority : option num) : num :=
  match priority with Some p => if (p =? int 0) || negb (p =? p) then int 1 else p | None => int 1 end.

Definition defaultClient (data : option CreateClientData) : CreateClientData :=
  default
    (CreateClient
       {| cf_name := "default"; cf_authOwnerName := None; cf_authentication := None; cf_metadata := None;
          cf_axiosOptions := None; cf_requestOptions := None; cf_retryOptions := None; cf_rest := [] |}
       (Some (Limits no_limit)) []) data.

(** The first loop of [use]: no plugin is registered before every name is
    checked; then their names are registered. *)
Fixpoint check_plugins (registered claimed plugins : list string) : result unit :=
  match plugins with
  | [] => Ok tt
  | p :: plugins' =>
      if bool_decide (p ∈ registered) || bool_decide (p ∈ claimed) then
        Throw (ConfigurationError "duplicate_plugin" ("Plugin " +:+ dq p +:+ " is already registered on this handler."))
      else check_plugins registered (oset_add p claimed) plugins'
  end.

Definition use_plugins (registered plugins : list string) : result (list string) :=
  check_plugins registered [] plugins ;; Ok (fold_left (fun acc p => oset_add p acc) plugins registered).

Lemma check_plugins_ok registered plugins : forall claimed, check_plugins registered claimed plugins = Ok tt <->
  NoDup plugins /\ forall p, p ∈ plugins -> p ∉ registered /\ p ∉ claimed.
Proof.
  induction plugins as [|p plugins IH]; intros claimed; cbn [check_plugins].
  { split; [|done]. intros _. split; [constructor|]. intros p H. exfalso. inversion H. }
  destruct (bool_decide (p ∈ registered) || bool_decide (p ∈ claimed)) eqn:E.
  { split; [done|]. intros [_ H]. destruct (H p ltac:(left)) as [H1 H2].
    apply orb_prop in E as [E|E]; by apply bool_decide_eq_true in E. }
  apply orb_false_iff in E as [E1 E2]. apply bool_decide_eq_false in E1, E2. rewrite IH, NoDup_cons.
  setoid_rewrite elem_of_oset_add. setoid_rewrite elem_of_cons. naive_solver.
Qed.

(** A call of [use] registers all its plugins, each name once, or none. *)
Theorem use_plugins_all registered plugins names : NoDup registered -> use_plugins registered plugins = Ok names ->
  NoDup names /\ forall p, p ∈ names <-> p ∈ registered \/ p ∈ plugins.
Proof.
  intros Hr. unfold use_plugins. destruct (check_plugins registered [] plugins) as [[]|] eqn:E; [|done]. clear E.
  intros [= <-]. revert registered Hr. induction plugins as [|p plugins IH]; cbn; intros registered Hr.
  { split; [done|]. intros p. rewrite elem_of_nil. tauto. }
  destruct (IH _ (NoDup_oset_add p registered Hr)) as [H1 H2]. split; [done|].
  intros q. rewrite H2, elem_of_oset_add, elem_of_cons. tauto.
Qed.

(** ** Waiting until a deadline *)

(** The clock and the timer a wait runs on. *)
Record WaitHost (S B : Type) := {
  wh_now : Prog S B num;
  wh_sleep : num -> Prog S B unit
}.
Arguments wh_now {S B} w.
Arguments wh_sleep {S B} w ms.

Section waits.
Context {S_ B : Type}.
Variable host : WaitHost S_ B.
Local Abbreviation P := (Prog S_ B).

(** [while (Date.now() < deadline) { ... }], whose body may leave it with an
    answer. *)
Fixpoint while_before {A} (fuel : nat) (deadline : num) (body : P (option A)) : P (option A) :=
  match fuel with
  | O => mret None
  | S fuel' =>
      now ← wh_now host;
      if now <? deadline then
        answer ← body;
        match answer with Some a => mret (Some a) | None => while_before fuel' deadline body end
      else mret None
  end.

Definition POLL_MS : num := int 50.
Definition WAIT_FOR_CLIENT_TIMEOUT_MS : num := int 5000.

(** Rounds that are enough for a wait of [ms] whose every round takes the poll. *)
Definition rounds (ms : Z) : nat := Z.to_nat (ms / 50 + 2).

(** [waitForClient]: [lookup] is the read of [this.clients]. *)
Definition waitForClient {C} (lookup : P (option C)) (clientName : string) : P C :=
  cached ← lookup;
  match cached with
  | Some c => mret c
  | None =>
      now ← wh_now host;
      found ← while_before (rounds 5000) (now + WAIT_FOR_CLIENT_TIMEOUT_MS) (wh_sleep host POLL_MS ;; lookup);
      match found with
      | Some c => mret c
      | None => raise (ForeignError ("Client with name " +:+ clientName +:+ " does not exist."))
      end
  end.

(** What [settleWithin(client.hasOutstandingWork(), ...)] comes to. *)
Inductive DrainAnswer := Busy | Idle | NoAnswer | Failed.

(** The clients asked one after another: how many are busy, or nothing when
    the backend gives no answer. *)
Fixpoint count_busy {C} (ask : C -> P DrainAnswer) (clients : list C) : P (option nat) :=
  match clients with
  | [] => mret (Some 0%nat)
  | c :: clients' =>
      answer ← ask c;
      match answer with
      | Busy => n ← count_busy ask clients'; mret (S <$> n)
      | Idle => count_busy ask clients'
      | NoAnswer | Failed => mret None
      end
  end.

(** [drainClients]: [ask] has what is left of the budget; true when it ended by
    itself. *)
Definition drainClients {C} (drainTimeoutMs : Z) (clients : list C) (ask : num -> C -> P DrainAnswer) (poke : C -> P unit)
    : P bool :=
  now ← wh_now host;
  let deadline := now + int drainTimeoutMs in
  if bool_decide (length clients = 0%nat) then mret true
  else
    ended ← while_before (rounds drainTimeoutMs) deadline
      (busy ← count_busy (ask deadline) clients;
       match busy with
       | None => mret (Some false)
       | Some O => mret (Some true)
       | Some _ => pforeach clients poke ;; wh_sleep host POLL_MS ;; mret None
       end);
    mret (default false ended).

(** [awaitInFlightRequests], but the streams it then closes: how many requests
    are still upstream. *)
Definition awaitInFlight {C} (drainTimeoutMs : Z) (clients : list C) (halt : C -> P unit) (count : P nat) : P nat :=
  pforeach clients halt ;;
  if bool_decide (length clients = 0%nat) then mret 0%nat
  else
    now ← wh_now host;
    idle ← while_before (rounds drainTimeoutMs) (now + int drainTimeoutMs)
      (n ← count; if bool_decide (n = 0%nat) then mret (Some tt) else wh_sleep host POLL_MS ;; mret None);
    match idle with Some _ => mret 0%nat | None => count end.

(** *** The waits end

    On a clock that never runs back and a body that takes the poll at least when
    it goes round again, the rounds are enough: more change nothing. *)
Variable clock : S_ -> B -> Z.
Hypothesis Hnow : forall s b, wh_now host s b = (Return (int (clock s b)), (s, b)).

Definition takes_poll {A} (body : P (option A)) : Prop := forall s b,
  match body s b with
  | (Return None, (s', b')) => (clock s b + 50 <= clock s' b')%Z
  | _ => True
  end.

Lemma while_before_enough {A} (body : P (option A)) d more : takes_poll body -> forall fuel s b,
  (d - clock s b < 50 * Z.of_nat fuel)%Z ->
  while_before (fuel + more) (int d) body s b = while_before fuel (int d) body s b.
Proof.
  intros Hbody fuel. induction fuel as [|fuel IH]; intros s b Hd.
  - destruct more as [|more]; [done|]. cbn [while_before Nat.add]. unfold mbind, Prog_bind. rewrite Hnow, ltb_int.
    by rewrite (proj2 (Z.ltb_ge _ _)) by lia.
  - cbn [while_before Nat.add]. unfold mbind at 1 3, Prog_bind. rewrite !Hnow, ltb_int.
    destruct (clock s b <? d)%Z; [|done]. unfold mbind, Prog_bind. pose proof (Hbody s b) as H1.
    destruct (body s b) as [[[a|]|e] [s1 b1]]; [done| |done]. apply IH. lia.
Qed.

(** From its start, a wait of [ms] needs no more than its rounds. *)
Lemma while_before_ends {A} (body : P (option A)) ms more s b : takes_poll body -> (0 <= ms)%Z ->
  (Z.abs (clock s b) + ms <= 2 ^ 52)%Z ->
  while_before (rounds ms + more) (int (clock s b) + int ms) body s b
  = while_before (rounds ms) (int (clock s b) + int ms) body s b.
Proof.
  intros Hbody Hms Hc. rewrite add_int by (unfold safe; lia). apply while_before_enough; [done|].
  unfold rounds. rewrite Z2Nat.id by (pose proof (Z.div_pos ms 50); lia).
  pose proof (Z.div_mod ms 50 ltac:(lia)). pose proof (Z.mod_pos_bound ms 50 ltac:(lia)). lia.
Qed.
End waits.

(** ** Waiting to be told *)

Definition DEFAULT_AWAIT_TIMEOUT_MS : num := int 300000.

(** The budget of [awaitClient]: the option's, else the environment's. *)
Definition await_timeout (timeoutMs : option num) (env : option string) : num :=
  match timeoutMs with
  | Some t => t
  | None =>
      let e := match truthy env with Some t => Number t | None => NaN end in
      if isFinite e && (e >? int 0) then e else DEFAULT_AWAIT_TIMEOUT_MS
  end.

(** What may come first once it listens; the warning settles nothing. *)
Inductive await_event := ClientRegistered | SignalAborted | StaleWarning | BudgetSpent.

Definition await_aborted : outcome unit := Raise (ClientUnavailableError "shutdown_aborted" "awaitClient was aborted").

(** [awaitClient], from whether the client is there and the signal has aborted
    when it is called, whether the client is there once it listens, and the
    events after; none when none of them settles it. *)
Definition awaitClient (clientName : string) (timeoutMs : num) (has aborted hasNow : bool) (events : list await_event)
    : option (outcome unit) :=
  if has then Some (Return tt)
  else if aborted then Some await_aborted
  else if hasNow then Some (Return tt)
  else
    (fix go events :=
       match events with
       | [] => None
       | ClientRegistered :: _ => Some (Return tt)
       | SignalAborted :: _ => Some await_aborted
       | StaleWarning :: events' => go events'
       | BudgetSpent :: _ =>
           Some (Raise (ClientUnavailableError "client_unavailable"
             ("Timed out after " +:+ num_to_string timeoutMs +:+ "ms awaiting client " +:+ dq clientName)))
       end) events.

(** ** What a host may read *)

Definition getRateLimitOptions (templates : list (string * RegisteredTemplate)) (templateName : string) : list string :=
  match omap_get templateName templates ≫= (fun t => to_rateLimitOptions (tp_options t)) with
  | Some declared => declared.*1
  | None => []
  end.

Definition getLoadedClients (clients : list (string * BuiltClient)) : list (string * list NamedRateLimitData) :=
  map (fun c => (bc_name c.2, bc_limits c.2)) clients.

Definition getTemplateClientNames (templateName instanceId : string) (s : TemplateState) : list string :=
  default [] (recorded_names templateName instanceId s).

(** A plan is accepted exactly when it is one of those a picker is shown. *)
Theorem options_shown_are_accepted (templates : list (string * RegisteredTemplate)) templateName template chosen :
  omap_get templateName templates = Some template ->
  assertRateLimitOptionAllowed templateName (Some (tp_options template)) (VStr chosen) = Ok tt
  <-> chosen ∈ getRateLimitOptions templates templateName.
Proof.
  intros Ht. unfold assertRateLimitOptionAllowed, getRateLimitOptions. rewrite Ht. cbn.
  destruct (to_rateLimitOptions (tp_options template)) as [declared|]; cbn; case_bool_decide; done.
Qed.

(** ** Messages *)

(** What a message asks for, once it is read. *)
Inductive Reaction :=
  | NoReaction  (** no channel of this handler's, or a payload that is not JSON: logged *)
  | NotAnObject  (** a payload of [null] has no fields: thrown, and logged *)
  | InstanceStarted (id : string)
  | InstanceUpdated (id : string)
  | InstanceHeartbeat (id : string)
  | InstanceStopped (id : string)
  | TenantAdded (templateName instanceId : value)
  | TenantRemoved (templateName instanceId : value)
  | QueueGrew (clientName : value)
  | RequestReadyFor (clientName : value) (ready : json)
  | RequestFinished (clientName : value) (done_ : json)
  | CompletionApplied (clientName completionId : value)
  | LimitsChanged (clientName : value) (update : json).

(** [JSON.parse], then the fields. *)
Definition read_payload (message : string) (k : value -> json -> Reaction) : Reaction :=
  match parse message with
  | None => NoReaction
  | Some JNull => NotAnObject
  | Some j => k (of_json j) j
  end.

Definition channel_names (namespace id : string) : list string :=
  map (fun c => namespace +:+ ":" +:+ c)
    ["instanceStarted"; "instanceUpdated"; "instanceHeartbeat"; "instanceStopped"; "templateClientAdded";
     "templateClientRemoved"; "requestAdded"; "requestReady:" +:+ id; "requestDone"; "requestDoneApplied:" +:+ id;
     "rateLimitUpdated"].

(** The cases of [handleMessage], of a channel with the namespace taken off. *)
Definition read_message (id channel message : string) : Reaction :=
  if bool_decide (channel = "instanceStarted") then InstanceStarted message
  else if bool_decide (channel = "instanceUpdated") then InstanceUpdated message
  else if bool_decide (channel = "instanceHeartbeat") then InstanceHeartbeat message
  else if bool_decide (channel = "instanceStopped") then InstanceStopped message
  else if bool_decide (channel = "templateClientAdded") then
    read_payload message (fun v _ => TenantAdded (value_field v "templateName") (value_field v "instanceId"))
  else if bool_decide (channel = "templateClientRemoved") then
    read_payload message (fun v _ => TenantRemoved (value_field v "templateName") (value_field v "instanceId"))
  else if bool_decide (channel = "requestAdded") then
    read_payload message (fun v _ => QueueGrew (value_field v "clientName"))
  else if bool_decide (channel = "requestReady:" +:+ id) then
    read_payload message (fun v j => RequestReadyFor (value_field v "clientName") j)
  else if bool_decide (channel = "requestDone") then
    read_payload message (fun v j => RequestFinished (value_field v "clientName") j)
  else if bool_decide (channel = "requestDoneApplied:" +:+ id) then
    read_payload message (fun v _ => CompletionApplied (value_field v "clientName") (value_field v "completionId"))
  else if bool_decide (channel = "rateLimitUpdated") then
    read_payload message (fun v j => LimitsChanged (value_field v "clientName") j)
  else NoReaction.

Definition dispatch (namespace id channel message : string) : Reaction :=
  match drop_prefix (namespace +:+ ":") channel with
  | Some c => read_message id c message
  | None => NoReaction
  end.

(** What a client does with a message, and the timers of [Lifecycle]. *)
Record MessageHost (B : Type) := {
  mh_peer : Reaction -> Prog TemplateState B unit;
  mh_watched : string -> Prog TemplateState B bool;  (** [heartbeatTimeouts] has the peer *)
  mh_cleanupOrphanedRequests : BuiltClient -> Prog TemplateState B unit;
  mh_processRequests : BuiltClient -> Prog TemplateState B unit;
  mh_handleRequestReady : BuiltClient -> json -> Prog TemplateState B unit;
  mh_finalizeOwnedRequest : BuiltClient -> json -> Prog TemplateState B unit;
  mh_handleRequestDoneApplied : BuiltClient -> value -> Prog TemplateState B unit;
  mh_handleRateLimitUpdated : BuiltClient -> json -> Prog TemplateState B unit
}.
Arguments mh_peer {B} m r.
Arguments mh_watched {B} m peer.
Arguments mh_cleanupOrphanedRequests {B} m client.
Arguments mh_processRequests {B} m client.
Arguments mh_handleRequestReady {B} m client ready.
Arguments mh_finalizeOwnedRequest {B} m client done_.
Arguments mh_handleRequestDoneApplied {B} m client completionId.
Arguments mh_handleRateLimitUpdated {B} m client update.

Section messages.
Context {Crypto : NodeCrypto} {B : Type} `{DianemoBackend B}.
Variable namespace id key : string.
Variable host : HandlerHost B.
Variable messages : MessageHost B.
Variable same_object : value -> value -> bool.
Local Abbreviation P := (Prog TemplateState B).

(** [this.clients.get(name)], and what is done with a client that is there. *)
Definition with_client (clientName : value) (f : BuiltClient -> P unit) : P unit :=
  s ← get_state;
  match clientName with
  | VStr name => match omap_get name (tt_clients s) with Some c => f c | None => mret tt end
  | _ => mret tt
  end.

(** A replica says nothing to itself. *)
Definition from_peer (peer : string) (f : P unit) : P unit :=
  if bool_decide (id = peer) then mret tt else f.

(** What a peer's timer does too. *)
Definition instance_stopped (r : Reaction) (peer : string) : P unit :=
  from_peer peer
    (mh_peer messages r ;;
     hh_scheduleClientRoles host ;;
     s ← get_state;
     pforeach (tt_clients s) (fun c => mh_cleanupOrphanedRequests messages c.2)).

(** A peer that starts is watched and elected with. *)
Definition instance_started (r : Reaction) : P unit :=
  s ← get_state;
  if bool_decide (tt_status s = "stopping") || bool_decide (tt_status s = "stopped") then mret tt
  else mh_peer messages r ;; hh_scheduleClientRoles host.

Definition react (r : Reaction) : P unit :=
  match r with
  | NoReaction => mret tt
  | NotAnObject => raise (ForeignError "TypeError")
  | InstanceStarted peer => from_peer peer (instance_started r)
  | InstanceUpdated peer => from_peer peer (hh_scheduleClientRoles host)
  | InstanceHeartbeat peer =>
      from_peer peer
        (watched ← mh_watched messages peer;
         if (watched : bool) then mh_peer messages r else instance_started (InstanceStarted peer))
  | InstanceStopped peer => instance_stopped r peer
  | TenantAdded t i =>
      rebuildTemplateClient namespace key host same_object (value_text t) (value_text i) ;;
      hh_scheduleClientRoles host
  | TenantRemoved t i => destroyTemplateClients namespace host (value_text t) (value_text i) false
  | QueueGrew c => with_client c (mh_processRequests messages)
  | RequestReadyFor c j => with_client c (fun client => mh_handleRequestReady messages client j)
  | RequestFinished c j => with_client c (fun client => mh_finalizeOwnedRequest messages client j)
  | CompletionApplied c completionId => with_client c (fun client => mh_handleRequestDoneApplied messages client completionId)
  | LimitsChanged c j => with_client c (fun client => mh_handleRateLimitUpdated messages client j)
  end.

(** [onMessage]: whatever it throws is logged, and reaches nobody. *)
Definition onMessage (channel message : string) : P unit :=
  or_value (react (dispatch namespace id channel message)) tt.
End messages.


(** *** Announcements are understood *)

Lemma drop_prefix_app p s : drop_prefix p (p +:+ s) = Some s.
Proof.
  induction p as [|a p IH]; [done|]. change (String a p +:+ s) with (String a (p +:+ s)). cbn [drop_prefix].
  by rewrite bool_decide_true.
Qed.

Lemma dispatch_own namespace id channel message :
  dispatch namespace id (namespace +:+ ":" +:+ channel) message = read_message id channel message.
Proof. unfold dispatch. by rewrite string_app_assoc, drop_prefix_app. Qed.

Lemma read_object l k : json_ok (JObj l) -> read_payload (stringify (JObj l)) k = k (of_json (JObj l)) (JObj l).
Proof. intros H. unfold read_payload. by rewrite (parse_stringify _ H). Qed.

(** What [addTemplateClient] and [removeTemplateClient] publish names the tenant
    on every replica, whatever the names hold. *)
Theorem announcement_understood namespace id templateName instanceId :
  dispatch namespace id (namespace +:+ ":templateClientAdded") (announcement templateName instanceId)
  = TenantAdded (VStr templateName) (VStr instanceId) /\
  dispatch namespace id (namespace +:+ ":templateClientRemoved") (announcement templateName instanceId)
  = TenantRemoved (VStr templateName) (VStr instanceId).
Proof.
  change (":templateClientAdded") with (":" +:+ "templateClientAdded").
  change (":templateClientRemoved") with (":" +:+ "templateClientRemoved").
  rewrite !dispatch_own. unfold announcement.
  assert (json_ok (JObj [("templateName", JStr templateName); ("instanceId", JStr instanceId)])) as Hok.
  { constructor; [|repeat constructor]. cbn. repeat (constructor; [set_solver|]). constructor. }
  split; unfold read_message; (do 6 try rewrite bool_decide_false by discriminate); rewrite bool_decide_true by done;
    by rewrite (read_object _ _ Hok).
Qed.
