(* ===== verification/Redact.v ===== *)
(** * Credentials kept out of logs and errors

    [packages/core/src/utils/redact.ts], [tryHandleRequest.ts] and [errors.ts].  A body is a
    tree here, so nothing of it is met twice ([Circular] is never printed), and a
    Buffer is not among the values.  A regular expression is the test it stands
    for.  Percent-decoding and [URLSearchParams], which the platform provides, are
    arguments.  The relay of a streamed body is not modelled: a stream stands for
    itself. *)
From S2P Require Import Prelude JsNumber JsString Json Value Cost Shared Client Authenticate.
Local Open Scope Z_scope.

Definition REDACTED : string := "[REDACTED]".

(** ** Names *)

Definition SENSITIVE_HEADER_NAMES : list string :=
  ["authorization"; "proxy-authorization"; "www-authenticate"; "proxy-authenticate"; "x-payment-authorization-token";
   "x-api-key"; "api-key"; "apikey"; "x-auth-token"; "x-access-token"; "x-session-token"; "x-amz-security-token";
   "x-amz-signature"; "x-goog-api-key"; "x-functions-key"; "x-csrf-token"; "x-xsrf-token"; "dd-api-key";
   "subscription-key"; "ocp-apim-subscription-key"; "private-token"; "token"; "cookie"; "set-cookie"].

(** [a_?b]. *)
Definition joined (a b : string) : list string := [a +:+ b; a +:+ "_" +:+ b].

(** [SENSITIVE_KEY_PATTERN]: the words it matches whole. *)
Definition SENSITIVE_KEYS : list string :=
  joined "client" "secret" ++ joined "refresh" "token" ++ joined "access" "token" ++ joined "id" "token"
  ++ ["password"; "passwd"] ++ joined "api" "key" ++ ["secret"; "token"; "sig"; "signature"; "code"]
  ++ joined "code" "verifier" ++ joined "client" "assertion" ++ ["assertion"] ++ joined "private" "key"
  ++ ["session"; "auth"; "key"; "credential"; "credentials"; "passphrase"].

(** [SENSITIVE_KEY_SUFFIX]: the words it matches at the end, after a [-], [_] or [.]. *)
Definition SENSITIVE_SUFFIXES : list string :=
  ["key"; "secret"; "token"; "password"; "passwd"; "auth"; "sig"; "signature"; "credential"; "credentials"].

Definition is_separator (c : ascii) : bool := match c with "-"%char | "_"%char | "."%char => true | _ => false end.

Fixpoint has_suffix (s : string) : bool :=
  match s with
  | EmptyString => false
  | String c s' => (is_separator c && bool_decide (s' ∈ SENSITIVE_SUFFIXES)) || has_suffix s'
  end.

Definition isSensitiveName (name : string) (extraNames : list string) : bool :=
  let lower := toLowerCase name in
  bool_decide (lower ∈ SENSITIVE_HEADER_NAMES) || bool_decide (lower ∈ SENSITIVE_KEYS) || has_suffix lower
  || bool_decide (lower ∈ extraNames).

(** ** Values *)

Definition is_digit (c : ascii) : bool := (48 <=? code c) && (code c <=? 57).
Definition is_upper (c : ascii) : bool := (65 <=? code c) && (code c <=? 90).
Definition is_lower (c : ascii) : bool := (97 <=? code c) && (code c <=? 122).
Definition is_alnum (c : ascii) : bool := is_digit c || is_upper c || is_lower c.
Definition is_dash (c : ascii) : bool := bool_decide (c = "-"%char).
(** [[\w-]], which is [[A-Za-z0-9_-]]. *)
Definition is_wordish (c : ascii) : bool := is_alnum c || bool_decide (c = "_"%char) || is_dash c.

Fixpoint all_chars (f : ascii -> bool) (s : string) : bool :=
  match s with EmptyString => true | String c s' => f c && all_chars f s' end.

(** Text of a class, with its length. *)
Definition class_text (f : ascii -> bool) (len : nat -> bool) (s : string) : bool := all_chars f s && len (String.length s).

Definition at_least (n m : nat) : bool := (n <=? m)%nat.
Definition exactly (n m : nat) : bool := (n =? m)%nat.

(** A prefix, then text. *)
Definition prefixed (p : string) (f : string -> bool) (s : string) : bool :=
  match drop_prefix p s with Some rest => f rest | None => false end.

(** A scheme word whatever its case, blanks, and something. *)
Definition scheme_value (s : string) : bool :=
  existsb (fun word =>
    prefixed word (fun rest =>
      match rest with
      | String c _ => is_space c && negb (bool_decide (trimStart rest = ""))
      | EmptyString => false
      end) (toLowerCase s)) ["bearer"; "basic"; "token"; "negotiate"].

Definition jwt (s : string) : bool :=
  match split_char "." s with
  | [a; b; c] =>
      prefixed "eyJ" (class_text is_wordish (at_least 1)) a && class_text is_wordish (at_least 1) b && all_chars is_wordish c
  | _ => false
  end.

Definition slack_token (s : string) : bool :=
  prefixed "xox" (fun rest =>
    match rest with
    | String c rest' =>
        match c with "b"%char | "p"%char | "a"%char | "s"%char | "r"%char => true | _ => false end
        && prefixed "-" (class_text (fun c => is_alnum c || is_dash c) (at_least 10)) rest'
    | EmptyString => false
    end) s.

Definition SENSITIVE_VALUE_PATTERNS : list (string -> bool) :=
  [scheme_value; jwt;
   prefixed "sk-" (class_text is_wordish (at_least 16));
   prefixed "ghp_" (class_text is_alnum (at_least 20));
   slack_token;
   prefixed "shpat_" (class_text is_alnum (at_least 20));
   prefixed "AKIA" (class_text (fun c => is_digit c || is_upper c) (exactly 16));
   prefixed "AIza" (class_text is_wordish (exactly 35))].

Definition looksSensitive (s : string) : bool := existsb (fun test => test (trim s)) SENSITIVE_VALUE_PATTERNS.

Definition redactHeaders (headers : option (list (string * value))) (extraNames : list string)
    : option (list (string * value)) :=
  map (fun h => (h.1, if isSensitiveName h.1 extraNames || match h.2 with VStr s => looksSensitive s | _ => false end
                      then VStr REDACTED else h.2)) <$> headers.

(** ** URLs *)

(** The longest prefix of characters of a class, and the rest. *)
Fixpoint span_chars (f : ascii -> bool) (s : string) : string * string :=
  match s with
  | EmptyString => ("", "")
  | String c s' => if f c then let '(a, b) := span_chars f s' in (String c a, b) else ("", s)
  end.

Definition none_of (cs : list ascii) (c : ascii) : bool := negb (bool_decide (c ∈ cs)).

(** A string split at its last [@]. *)
Fixpoint split_last_at (s : string) : option (string * string) :=
  match s with
  | EmptyString => None
  | String c s' =>
      match split_last_at s' with
      | Some (a, b) => Some (String c a, b)
      | None => if bool_decide (c = "@"%char) then Some ("", s') else None
      end
  end.

(** [[a-z][a-z0-9+.-]*://], or [//]. *)
Definition url_scheme (s : string) : option (string * string) :=
  let named :=
    match s with
    | String c s' =>
        if is_lower c || is_upper c then
          let '(a, b) := span_chars (fun c => is_alnum c || bool_decide (c ∈ ["+"; "."; "-"]%char)) s' in
          (fun rest => (String c a +:+ "://", rest)) <$> drop_prefix "://" b
        else None
    | EmptyString => None
    end in
  match named with
  | Some r => Some r
  | None => (fun rest => ("//", rest)) <$> drop_prefix "//" s
  end.

(** Scheme, user with its colon, and what follows the last [@] of a run of
    characters that [stop] does not end. *)
Definition userinfo (stop : list ascii) (url : string) : option (string * string * string) :=
  '(scheme, s1) ← url_scheme url;
  let '(user, s2) := span_chars (none_of ["/"; "?"; "#"; "@"; ":"]%char) s1 in
  match s2 with
  | String ":" s3 =>
      let '(run, s4) := span_chars (none_of stop) s3 in
      '(_, after) ← split_last_at run;
      Some (scheme, user +:+ ":", after +:+ s4)
  | _ => None
  end.

Definition redactPassword (url : string) : string :=
  match (match userinfo ["/"; "?"; "#"]%char url with Some m => Some m | None => userinfo ["/"%char] url end) with
  | Some (scheme, user, rest) => scheme +:+ user +:+ REDACTED +:+ "@" +:+ rest
  | None => url
  end.

(** The replacement of a user that stands alone. *)
Definition redactUser (url : string) : string :=
  match ('(scheme, s1) ← url_scheme url;
         let '(run, s2) := span_chars (none_of ["/"; "?"; "#"; ":"]%char) s1 in
         '(user, after) ← split_last_at run;
         if bool_decide (user = "") then None else Some (scheme, after +:+ s2)) with
  | Some (scheme, rest) => scheme +:+ REDACTED +:+ "@" +:+ rest
  | None => url
  end.

(** ** Text, bodies and configs *)

(** What the platform decodes and encodes. *)
Class WebPlatform := {
  decodeURIComponent : string -> option string;
  parse_query : string -> list (string * string);  (** [new URLSearchParams(s).entries()] *)
  query_text : list (string * string) -> string  (** [toString()] *)
}.

Section redact.
Context {Web : WebPlatform}.

Definition redact_param (p : string * string) : string * string :=
  if isSensitiveName p.1 [] || looksSensitive p.2 then (p.1, REDACTED) else p.

Definition redactUrl (url : option string) : option string :=
  match url with
  | None => None
  | Some u =>
      if bool_decide (u = "") then url
      else
        let out := redactUser (redactPassword u) in
        let '(base, q) := span_chars (none_of ["?"%char]) out in
        match q with
        | EmptyString => Some out
        | String _ query =>
            let source := parse_query query in
            let touched := existsb (fun p => isSensitiveName p.1 [] || looksSensitive p.2) source in
            if negb touched && bool_decide (out = u) then url
            else Some (base +:+ "?" +:+ query_text (map redact_param source))
        end
  end.

Definition plus_to_space (s : string) : string :=
  (fix go s := match s with
    | EmptyString => EmptyString
    | String c s' => String (if bool_decide (c = "+"%char) then " "%char else c) (go s')
    end) s.

Definition safeDecode (s : string) : string := default s (decodeURIComponent (plus_to_space s)).

(** A pair at its first [=]. *)
Fixpoint split_pair (s : string) : option (string * string) :=
  match s with
  | EmptyString => None
  | String c s' => if bool_decide (c = "="%char) then Some ("", s') else (fun p => (String c p.1, p.2)) <$> split_pair s'
  end.

Definition sensitive_pair (pair : string) : bool :=
  match split_pair pair with
  | None => false
  | Some (name, raw) =>
      isSensitiveName (default name (decodeURIComponent (plus_to_space name))) [] || looksSensitive (safeDecode raw)
  end.

Definition redact_pair (pair : string) : string :=
  match split_pair pair with
  | Some (name, _) => if sensitive_pair pair then name +:+ "=" +:+ REDACTED else pair
  | None => pair
  end.

Definition redactFormEncoded (s : string) : string :=
  if negb (includes_char "=" s) then s
  else
    let pairs := split_char "&" s in
    if existsb sensitive_pair pairs then join "&" (map redact_pair pairs) else s.

(** The object or array a text is the JSON of. *)
Definition json_body (s : string) : option value :=
  match trim s with
  | String ("{" | "[") _ as t =>
      match parse t with
      | Some ((JArr _ | JObj _) as j) => Some (of_json j)
      | _ => None
      end
  | _ => None
  end.

Definition isReadableStream (v : value) : bool :=
  match value_field v "pipe", value_field v "destroy" with VFun _, VFun _ => true | _, _ => false end.

(** The fuel is a bound on a body's size, the text of its strings included. *)
Fixpoint redact_body (fuel : nat) (v : value) : value :=
  match fuel with
  | O => VStr REDACTED
  | S fuel' =>
      match v with
      | VStr s =>
          if looksSensitive s then VStr REDACTED
          else match json_body s with
               | Some j => VStr (stringify_text (redact_body fuel' j))
               | None => VStr (redactFormEncoded s)
               end
      | VArr l => VArr (map (redact_body fuel') l)
      | VObj _ l =>
          if isReadableStream v then VStr "[stream]"
          else VObj true (map (fun p => (p.1, if isSensitiveName p.1 [] then VStr REDACTED else redact_body fuel' p.2)) l)
      | _ => v
      end
  end.

Fixpoint body_size (v : value) : nat :=
  match v with
  | VStr s => S (String.length s)
  | VArr l => S (fold_right (fun x n => body_size x + n) 0 l)%nat
  | VObj _ l => S (fold_right (fun p n => body_size p.2 + n) 0 l)%nat
  | _ => 1
  end.

Definition redactBody (v : value) : value := redact_body (S (body_size v)) v.

Record AxiosConfig := {
  ax_method : value;
  ax_baseURL : option string;
  ax_url : option string;
  ax_params : value;
  ax_headers : option (list (string * value));
  ax_data : value
}.

Definition redactConfig (config : AxiosConfig) (extraHeaderNames : list string) : AxiosConfig :=
  {| ax_method := ax_method config; ax_baseURL := redactUrl (ax_baseURL config); ax_url := redactUrl (ax_url config);
     ax_params := redactBody (ax_params config); ax_headers := redactHeaders (ax_headers config) extraHeaderNames;
     ax_data := redactBody (ax_data config) |}.

(** An error as it is thrown to a caller: whether it still holds the request,
    and the response with its own references. *)
Record ErrorResponse := {
  ep_config : option AxiosConfig;
  ep_request : bool;
  ep_headers : option (list (string * value));
  ep_data : value;
  ep_statusText : value
}.

Record AxiosFailure := {
  ef_config : option AxiosConfig;
  ef_request : bool;
  ef_response : option ErrorResponse
}.

Definition sanitizeResponse (safe : option AxiosConfig) (extra : list string) (r : ErrorResponse) : ErrorResponse :=
  {| ep_config := match safe with Some c => Some c | None => ep_config r end;
     ep_request := false;
     ep_headers := redactHeaders (ep_headers r) extra;
     ep_data := if isReadableStream (ep_data r) then ep_data r
                else match ep_data r with VUndefined => VUndefined | d => redactBody d end;
     ep_statusText := match ep_statusText r with VStr s => redactBody (VStr s) | v => v end |}.

Definition sanitizeError (e : AxiosFailure) (extraHeaderNames : list string) : AxiosFailure :=
  let safe := (fun c => redactConfig c extraHeaderNames) <$> ef_config e in
  {| ef_config := safe; ef_request := false;
     ef_response := sanitizeResponse safe extraHeaderNames <$> ef_response e |}.

(** ** Wrapped errors: [tryHandleRequest.ts] *)

Inductive thrown :=
  | Wrapped (code message : string) (metadata : list (string * value))  (** a [RequestError] *)
  | AxiosThrown (message : string) (code status statusText data : value)
  | ErrorThrown (message stack : string)
  | OtherThrown (v : value).

Definition formatError (e : thrown) : list (string * value) :=
  match e with
  | AxiosThrown message code status statusText data =>
      [("message", VStr message); ("code", code); ("status", status); ("statusText", statusText); ("data", redactBody data)]
  | ErrorThrown message stack => [("message", VStr message); ("stack", VStr stack)]
  | Wrapped _ message _ => [("message", VStr message)]
  | OtherThrown v => [("error", v)]
  end.

Definition error_message (e : thrown) : value :=
  match e with
  | Wrapped _ message _ | AxiosThrown message _ _ _ _ | ErrorThrown message _ => VStr message
  | OtherThrown _ => VUndefined
  end.

Definition wrap_error (clientName code message : string) (context : option string) (metadata : list (string * value))
    (e : thrown) : thrown :=
  match e with
  | Wrapped _ _ _ => e
  | _ =>
      Wrapped code message
        (omap_set "originalError" (VObj true (formatError e))
           (omap_set "context" (match context with Some c => VStr c | None => error_message e end)
              (omap_set "client" (VStr clientName) metadata)))
  end.
End redact.

(** ** What a caller reads of an error: [errors.ts] *)

(** [RequestError.metadata.originalError], when it is an object. *)
Definition original_error (e : thrown) : option (list (string * value)) :=
  match e with
  | Wrapped _ _ metadata => match omap_get "originalError" metadata with Some (VObj _ l) => Some l | _ => None end
  | _ => None
  end.

Definition getOriginalStatus (e : thrown) : option num :=
  l ← original_error e; match omap_get "status" l with Some (VNum n) => Some n | _ => None end.

Definition getOriginalResponseData (e : thrown) : value :=
  match l ← original_error e; omap_get "data" l with Some v => v | None => VUndefined end.

(** The fields of a [RequestHandlerError], and what each class puts in them. *)
Record handler_error := HandlerError { he_statusCode : Z; he_code : string; he_message : string }.

Definition ClientNotFoundError_ (clientName : string) : handler_error :=
  HandlerError 404 "client_not_found" ("Client with name " +:+ clientName +:+ " does not exist.").

Definition ClientConflictError_ (clientName : string) : handler_error :=
  HandlerError 409 "client_conflict" ("Client with name " +:+ clientName +:+ " already exists.").

Definition ConfigurationError_ (code message : string) : handler_error := HandlerError 500 code message.

Definition RequestTimeoutError_ (requestId : string) (timeoutMs : num) : handler_error :=
  HandlerError 408 "request_timeout"
    ("Request " +:+ requestId +:+ " timed out waiting for controller after " +:+ num_to_string timeoutMs +:+ "ms").

Definition StreamTimeoutError_ (requestId : string) (timeoutMs : num) : handler_error :=
  HandlerError 504 "stream_timeout"
    ("Streamed response for request " +:+ requestId +:+ " was still open after " +:+ num_to_string timeoutMs +:+ "ms").

Definition StreamClosedError_ (requestId : string) : handler_error :=
  HandlerError 503 "stream_closed_on_shutdown"
    ("Streamed response for request " +:+ requestId +:+ " was closed because the handler stopped").

Definition NoResponseError_ : handler_error := HandlerError 500 "no_response" "No response received after maximum retries.".

Definition ClientUnavailableError_ (code message : string) : handler_error := HandlerError 503 code message.

Definition NotOAuth2ClientError_ (clientName : string) : handler_error :=
  HandlerError 400 "client_not_oauth2" ("Client " +:+ clientName +:+ " does not support OAuth2 grant tokens.").

Definition GrantRefreshTokenMissingError_ (grantId : string) : handler_error :=
  HandlerError 400 "grant_refresh_token_missing" ("No refresh token stored for grant " +:+ dq grantId).

Definition RequestAbortedError_ (requestId : string) (whileStreaming : bool) : handler_error :=
  HandlerError 499 "request_aborted"
    (if whileStreaming then "Request " +:+ requestId +:+ " was aborted while its response streamed"
     else "Request " +:+ requestId +:+ " was aborted before it was sent").

Definition ClientFrozenError_ (clientName : string) : handler_error :=
  HandlerError 503 "client_frozen" ("Client " +:+ clientName +:+ " froze while the request was waiting for its turn.").

Definition RequestCostMismatchError_ (clientName : string) (missing unknown declared : list string) : handler_error :=
  let problems :=
    (if bool_decide (missing = []) then [] else ["omits " +:+ quote_names missing])
    ++ (if bool_decide (unknown = []) then [] else ["names " +:+ quote_names unknown +:+ ", which it does not declare"]) in
  HandlerError 400 "request_cost_mismatch" ("Request cost for client " +:+ clientName +:+ " " +:+ join " and " problems
  +:+ ". A per-limit cost must name every limit the client meters: "
  +:+ (if bool_decide (declared = []) then "it meters none, so pass a number" else quote_names declared) +:+ ".").

Definition RequestCostExceedsBudgetError_ (clientName : string) (cost ceiling : num) (limitName : option string)
    : handler_error :=
  let limit :=
    match limitName with
    | None => "its smallest maxTokens or maxConcurrency"
    | Some n => "the maxTokens or maxConcurrency of rate limit " +:+ dq n
    end in
  HandlerError 400 "request_cost_exceeds_budget"
    ("Request cost (" +:+ num_to_string cost +:+ ") exceeds the maximum client " +:+ clientName +:+ " can ever admit ("
     +:+ num_to_string ceiling +:+ "), " +:+ limit).

(** The errors a client raises; those of the language and of other packages have
    neither status nor code. *)
Definition handler_error_of (e : client_error) : option handler_error :=
  match e with
  | JsError (RangeError _) | ForeignError _ => None
  | JsError (ConfigurationError code message) => Some (ConfigurationError_ code message)
  | CostError (RequestCostMismatchError c missing unknown declared) => Some (RequestCostMismatchError_ c missing unknown declared)
  | CostError (RequestCostExceedsBudgetError c cost ceiling name) => Some (RequestCostExceedsBudgetError_ c cost ceiling name)
  | ClientFrozenError c => Some (ClientFrozenError_ c)
  | ClientUnavailableError code message => Some (ClientUnavailableError_ code message)
  | NotOAuth2ClientError c => Some (NotOAuth2ClientError_ c)
  | GrantRefreshTokenMissingError g => Some (GrantRefreshTokenMissingError_ g)
  | RequestTimeoutError r ms => Some (RequestTimeoutError_ r ms)
  | RequestAbortedError r => Some (RequestAbortedError_ r false)
  | NoResponseError => Some NoResponseError_
  end.
