(* ===== verification/Drain.v ===== *)
(** * The drain loop

    [packages/core/src/client/methods/processRequests.ts]: the controller takes
    the queue's requests one by one, checks the freeze, claims the budgets,
    confirms the claim on the entry and tells the owner.  The locals the loop's
    handlers share with its body are a [Pass]; one turn of the [while] is
    [turn]; the loop has fuel, and says when it ran out of it, and the method's
    other calls while it runs are explicit.

    The loop is the same for every client: it is written against
    [DianemoBackend] and [BaseClient]. *)
From S2P Require Import Prelude JsNumber JsString Json Value RateLimit Cost Timers.
From S2P Require Import Shared MemoryStore TokenBucket Queue Freeze Backend.
From S2P Require Import Election Requests Client.
Local Open Scope num_scope.

Inductive Confirmation := unsent | sent | refused_.

#[export] Instance Confirmation_eq_dec : EqDecision Confirmation.
Proof. solve_decision. Defined.

(** The sets of one pass, and the locals of one turn of the loop: what the
    claim on the entry has come to, and the metadata that will be announced. *)
Record Pass := {
  blockedGrantIds : list string;
  skippedRequestIds : list string;
  confirmation : Confirmation;
  requestMetadata : RequestMetadata
}.

Definition set_blocked (x : list string) (p : Pass) : Pass :=
  {| blockedGrantIds := x; skippedRequestIds := skippedRequestIds p;
     confirmation := confirmation p; requestMetadata := requestMetadata p |}.
Definition set_skipped (x : list string) (p : Pass) : Pass :=
  {| blockedGrantIds := blockedGrantIds p; skippedRequestIds := x;
     confirmation := confirmation p; requestMetadata := requestMetadata p |}.
Definition set_confirmation (x : Confirmation) (p : Pass) : Pass :=
  {| blockedGrantIds := blockedGrantIds p; skippedRequestIds := skippedRequestIds p;
     confirmation := x; requestMetadata := requestMetadata p |}.
Definition set_metadata (x : RequestMetadata) (p : Pass) : Pass :=
  {| blockedGrantIds := blockedGrantIds p; skippedRequestIds := skippedRequestIds p;
     confirmation := confirmation p; requestMetadata := x |}.

(** The metadata the loop builds from a queue entry. *)
Definition metadata_of (q : QueuedRequest) : RequestMetadata :=
  {| m_requestId := q_requestId q; m_status := inProgress; m_priority := q_priority q;
     m_timestamp := q_timestamp q; m_clientName := q_clientName q; m_cost := q_cost q;
     m_explicitCost := None; m_requestName := q_requestName q; m_retries := q_retries q;
     m_grantId := q_grantId q; m_isThawRequest := q_isThawRequest q; m_fastPath := false;
     m_settles := q_settles q; m_claimedKeys := None; m_ownerId := q_ownerId q |}.

(** The announcement of a turn to a replica: the loop's object has no
    [fastPath] and no [explicitCost]. *)
Definition ready_json (m : RequestMetadata) : json :=
  JObj ([("requestId", JStr (m_requestId m)); ("clientName", JStr (m_clientName m));
         ("requestName", JStr (m_requestName m)); ("status", JStr (status_name (m_status m)));
         ("priority", JNum (m_priority m)); ("cost", cost_json (m_cost m));
         ("retries", JNum (m_retries m)); ("timestamp", JNum (m_timestamp m))]
        ++ opt_field "grantId" (JStr <$> m_grantId m)
        ++ [("isThawRequest", JBool (m_isThawRequest m)); ("ownerId", JStr (m_ownerId m))]
        ++ (if m_settles m then [("settles", JBool true)] else [])
        ++ opt_field "claimedKeys" ((fun l => JArr (map JStr l)) <$> m_claimedKeys m)).

Inductive flow := Continue | Break.

#[export] Instance flow_eq_dec : EqDecision flow.
Proof. solve_decision. Defined.

Section drain.
Context {B : Type} `{DianemoBackend B} `{BaseClient B}.
Variable self : ClientData.

Local Notation L := (Prog (Client * Pass) B).

(** A method of the client, from inside the loop. *)
Definition client {A} (m : C B A) : L A := fun cp b =>
  match m cp.1 b with (r, (c, b')) => (r, ((c, cp.2), b')) end.

Definition pass : L Pass := fun cp b => (Return cp.2, (cp, b)).
Definition set_pass (f : Pass -> Pass) : L unit := modify_state (fun cp => (cp.1, f cp.2)).

(** ** Helpers *)

Definition isPermanentlyUnsatisfiable (request : RequestMetadata) : C B bool :=
  c ← get_state;
  problem ← of_result (b_getCostProblem c (m_cost request));
  mret (bool_decide (is_Some problem)).

Definition failUnsatisfiable (request : RequestMetadata) (known : option cost_error) : C B unit :=
  if negb (bool_decide (m_ownerId request = k_instanceId self)) then mret tt
  else
    c ← get_state;
    current ← of_result (b_getCostProblem c (m_cost request));
    match current with
    | None => mret tt
    | Some current =>
        failed ← failWaitingRequest (m_requestId request) (CostError (default current known));
        pwhen failed (or_else (removeRequestFromQueue self (m_requestId request) ;; mret tt) tt)
    end.

(** Hands back what this pass claimed for an entry a re-read found gone. *)
Definition releaseGoneClaim (claim : QueuedRequest) (request : RequestMetadata) : C B unit :=
  match q_claimedAt claim with
  | Some claimedAt =>
      now ← or_else (t ← ask CNow; mret (Some t)) None;
      match now with
      | None => mret tt
      | Some now =>
          if now - claimedAt >=? QUEUE_CLAIM_LEASE_MS then mret tt
          else releaseUnusedAdmission request
      end
  | None => releaseUnusedAdmission request
  end.

(** ** One turn *)

Definition confirm (request : QueuedRequest) : L bool :=
  set_pass (set_confirmation sent) ;;
  confirmed ← client (confirmRequestInQueue self request);
  pwhen (negb confirmed) (set_pass (set_confirmation refused_)) ;;
  mret confirmed.

Definition no_updates : RequestUpdates :=
  {| u_status := None; u_retries := None; u_priority := None; u_isThawRequest := None |}.

Definition pending_again (wasThaw : bool) : RequestUpdates :=
  {| u_status := Some "pending"; u_retries := None; u_priority := None;
     u_isThawRequest := if wasThaw then Some false else None |}.

Definition returnToQueue (request : QueuedRequest) : L unit :=
  p ← pass;
  if decide (confirmation p = refused_) then mret tt
  else
    go ← (if decide (confirmation p = unsent) then confirm request else mret true);
    if negb go then mret tt
    else
      p ← pass;
      let m := requestMetadata p in
      pwhen (m_isThawRequest m) (set_pass (set_metadata (with_isThawRequest false m))) ;;
      client (updateRequestInQueue self (q_requestId request) (pending_again (m_isThawRequest m))).

Definition skip_request (requestId : string) : L unit :=
  set_pass (fun p => set_skipped (oset_add requestId (skippedRequestIds p)) p).
Definition block_grant (grantId : string) : L unit :=
  set_pass (fun p => set_blocked (oset_add grantId (blockedGrantIds p)) p).

(** How a turn that could not go ahead leaves the loop. *)
Definition step_over (request : QueuedRequest) : L flow :=
  match q_grantId request with
  | Some g =>
      if negb (bool_decide (g = "")) && usesGrantIsolation self then block_grant g ;; mret Continue
      else if usesGrantIsolation self then skip_request (q_requestId request) ;; mret Continue
      else mret Break
  | None =>
      if usesGrantIsolation self then skip_request (q_requestId request) ;; mret Continue
      else mret Break
  end.

(** The hand-over: in process when this replica owns the request. *)
Definition announce (m : RequestMetadata) : C B unit :=
  if decide (m_ownerId m = k_instanceId self) then handleRequestReady m
  else publish_ self (":requestReady:" +:+ m_ownerId m) (ready_json m).

(** What a re-read of the entry found. *)
Inductive reread := Gone | StillQueued | Unreadable.

Definition reread_entry (requestId : string) : C B reread :=
  or_else (entry ← getRequestFromQueue self requestId;
           mret (match entry with None => Gone | Some _ => StillQueued end)) Unreadable.

(** From the claimed turn to the announcement. *)
Definition hand_over (request : QueuedRequest) : L flow :=
  c ← client get_state;
  gone ← (if b_claimsReleasableCapacity c
          then client (reread_entry (q_requestId request)) else mret StillQueued);
  p ← pass;
  match gone with
  | Gone => client (releaseGoneClaim request (requestMetadata p)) ;; mret Continue
  | _ =>
      confirmed ← confirm request;
      if negb confirmed then
        c ← client get_state;
        gone ← (if b_claimsReleasableCapacity c
                then client (reread_entry (q_requestId request)) else mret StillQueued);
        match gone with
        | Gone => client (releaseGoneClaim request (requestMetadata p))
        | _ => mret tt
        end ;;
        mret Continue
      else client (announce (requestMetadata p)) ;; mret Continue
  end.

(** The claim of the turn, once the freeze lets the request through. *)
Definition take_turn (request : QueuedRequest) : L flow :=
  p ← pass;
  claimed ← client (b_tryAcquireTurn (requestMetadata p));
  let '(claimed, m) := claimed : AcquireTurnResult * RequestMetadata in
  set_pass (set_metadata m) ;;
  if negb (t_acquired claimed) then
    returnToQueue request ;;
    client (scheduleDrain (default (int 0) (t_waitTime claimed))) ;;
    step_over request
  else hand_over request.

Definition admit_turn (request : QueuedRequest) : L flow :=
  decision ← client (canProcessNextRequest self (q_grantId request));
  if negb (canProcess decision) then
    returnToQueue request ;;
    p ← pass;
    hopeless ← client (isPermanentlyUnsatisfiable (requestMetadata p));
    if (hopeless : bool) then
      skip_request (q_requestId request) ;;
      client (failUnsatisfiable (requestMetadata p) None) ;;
      mret Continue
    else
      client (scheduleDrainForFreeze self (pd_frozenUntil decision) (q_grantId request)) ;;
      step_over request
  else if pd_isThawRequest decision then
    thaw ← client (tryStartThawRequest_ self (q_grantId request) (q_requestId request));
    match thaw with
    | Exists_ => returnToQueue request ;; mret Break
    | Started =>
        set_pass (fun p => set_metadata (with_isThawRequest true (requestMetadata p)) p) ;;
        take_turn request
    end
  else take_turn request.

(** The turn's [catch]. *)
Definition recover (request : QueuedRequest) (error : client_error) : L flow :=
  catch (returnToQueue request) (fun _ => mret tt) ;;
  p ← pass;
  let m := requestMetadata p in
  match error with
  | CostError e =>
      skip_request (q_requestId request) ;;
      client (failUnsatisfiable m (Some e)) ;;
      mret Continue
  | JsError (ConfigurationError code message) =>
      if decide (code = "invalid_request_cost") then
        skip_request (q_requestId request) ;;
        (if decide (m_ownerId m = k_instanceId self) then
           failed ← client (failWaitingRequest (q_requestId request) error);
           pwhen failed
             (client (or_else (removeRequestFromQueue self (q_requestId request) ;; mret tt) tt))
         else mret tt) ;;
        mret Continue
      else mret Break
  | ClientFrozenError _ =>
      client (scheduleDrainForFreeze self None (q_grantId request)) ;; mret Break
  | _ => mret Break
  end.

Definition turn : L flow :=
  frozenGrantIds ← client (getFrozenGrantIds self);
  p ← pass;
  request ← client (getNextRequest_ self
              (fold_left (fun acc g => oset_add g acc) (frozenGrantIds ++ blockedGrantIds p) [])
              (skippedRequestIds p));
  match request with
  | None => mret Break
  | Some request =>
      set_pass (fun p => set_confirmation unsent (set_metadata (metadata_of request) p)) ;;
      catch (admit_turn request) (recover request)
  end.

(** ** The loop *)

(** The head of the method: whether a pass starts. *)
Definition enter_pass : C B bool :=
  c ← get_state;
  if decide (c_role c = worker) then mret false
  else if c_admissionHalted c then mret false
  else if c_processingLock c then modify_state (set_processingPending true) ;; mret false
  else modify_state (fun c => set_processingPending false (set_processingLock true c)) ;; mret true.

(** Its [finally]. *)
Definition leave_pass : C B unit :=
  modify_state (set_processingLock false) ;;
  c ← get_state;
  pwhen (c_processingPending c) (modify_state (set_processingPending false) ;; poke).

(** [n] calls of the method that come in while a pass runs. *)
Definition calls_meanwhile (n : nat) : L unit := pforeach (repeat tt n) (fun _ => client enter_pass ;; mret tt).

(** The [while]: [None] when the fuel ran out.  A turn awaits, and the method is
    called meanwhile: [calls] says how often during each turn. *)
Fixpoint turns (calls : list nat) (fuel : nat) : L (option unit) :=
  match fuel with
  | O => mret None
  | S fuel =>
      calls_meanwhile (hd 0%nat calls) ;;
      f ← turn;
      match f with Break => mret (Some tt) | Continue => turns (tl calls) fuel end
  end.

(** How many of the calls come in before the loop is left. *)
Fixpoint arrived (calls : list nat) (fuel : nat) (cp : Client * Pass) (b : B) : nat :=
  match fuel with
  | O => 0
  | S fuel =>
      hd 0%nat calls +
      match (calls_meanwhile (hd 0%nat calls) ;; turn) cp b with
      | (Return Continue, (cp', b')) => arrived (tl calls) fuel cp' b'
      | _ => 0
      end
  end%nat.

(** A pass starts with empty sets; the metadata is set before it is read. *)
Definition no_metadata : RequestMetadata :=
  {| m_requestId := ""; m_status := inQueue; m_priority := int 0; m_timestamp := int 0;
     m_clientName := ""; m_cost := CostNumber (int 0); m_explicitCost := None; m_requestName := "";
     m_retries := int 0; m_grantId := None; m_isThawRequest := false; m_fastPath := false;
     m_settles := false; m_claimedKeys := None; m_ownerId := "" |}.

Definition new_pass : Pass :=
  {| blockedGrantIds := []; skippedRequestIds := []; confirmation := unsent;
     requestMetadata := no_metadata |}.

Definition run_pass {A} (m : L A) : C B A := fun c b =>
  match m (c, new_pass) b with (r, ((c', _), b')) => (r, (c', b')) end.

(** [Some] when the call returned by itself within the fuel. *)
Definition processRequests (calls : list nat) (fuel : nat) : C B (option unit) :=
  entered ← enter_pass;
  if (entered : bool) then finally (run_pass (turns calls fuel)) leave_pass else mret (Some tt).
End drain.
