(* ===== verification/DrainSpec.v ===== *)
(** * What the drain loop relies on

    The promises of a queue to the loop that drains it, as an interface the
    loop's theorems are proved against: which entries a claim may still take,
    which grants they belong to, and what each call of a pass does to them.
    Also the rules to reason about programs over a client and a backend. *)
From S2P Require Import Prelude JsNumber JsString Json Value RateLimit Shared Timers MemoryStore.
From S2P Require Import TokenBucket Queue Cost Freeze Backend Election Requests Client Drain.

(** ** Programs and their outcomes *)

Section wp.
Context {S B : Type}.

(** What a program run from [s] and [b] comes to. *)
Definition wp {A} (m : Prog S B A) (Q : outcome A -> S -> B -> Prop) (s : S) (b : B) : Prop :=
  match m s b with (r, (s', b')) => Q r s' b' end.

Lemma wp_mono {A} (m : Prog S B A) (Q Q' : outcome A -> S -> B -> Prop) s b :
  wp m Q s b -> (forall r s' b', Q r s' b' -> Q' r s' b') -> wp m Q' s b.
Proof. unfold wp. destruct (m s b) as [r [s' b']]. auto. Qed.

Lemma wp_ret {A} (a : A) Q s b : Q (Return a) s b -> wp (mret a : Prog S B A) Q s b.
Proof. done. Qed.

Lemma wp_raise {A} e (Q : outcome A -> S -> B -> Prop) s b : Q (Raise e) s b -> wp (raise e) Q s b.
Proof. done. Qed.

Lemma wp_bind {A A'} (m : Prog S B A) (f : A -> Prog S B A') Q s b :
  wp m (fun r s' b' => match r with Return a => wp (f a) Q s' b' | Raise e => Q (Raise e) s' b' end) s b ->
  wp (m ≫= f) Q s b.
Proof. unfold wp, mbind, Prog_bind. destruct (m s b) as [[a|e] [s' b']]; done. Qed.

Lemma wp_get (Q : outcome S -> S -> B -> Prop) s b : Q (Return s) s b -> wp get_state Q s b.
Proof. done. Qed.

Lemma wp_modify f (Q : outcome unit -> S -> B -> Prop) s b :
  Q (Return tt) (f s) b -> wp (modify_state f) Q s b.
Proof. done. Qed.

Lemma wp_catch {A} (m : Prog S B A) h Q s b :
  wp m (fun r s' b' => match r with Return _ => Q r s' b' | Raise e => wp (h e) Q s' b' end) s b ->
  wp (catch m h) Q s b.
Proof. unfold wp, catch. destruct (m s b) as [[a|e] [s' b']]; done. Qed.

(** A preorder a program stays within, on the backend's state. *)
Definition within (R : B -> B -> Prop) {A} (m : Prog S B A) : Prop := forall s b, R b (m s b).2.2.

Section within.
Context (R : B -> B -> Prop) `{!PreOrder R}.

Lemma within_ret {A} (a : A) : within R (mret a : Prog S B A).
Proof. intros s b. simpl. reflexivity. Qed.

Lemma within_raise {A} e : within R (raise e : Prog S B A).
Proof. intros s b. simpl. reflexivity. Qed.

Lemma within_get : within R (get_state : Prog S B S).
Proof. intros s b. simpl. reflexivity. Qed.

Lemma within_modify f : within R (modify_state f : Prog S B unit).
Proof. intros s b. simpl. reflexivity. Qed.

Lemma within_of_result {A} (r : result A) : within R (of_result r : Prog S B A).
Proof. destruct r; intros s b; simpl; reflexivity. Qed.

Lemma within_bind {A A'} (m : Prog S B A) (f : A -> Prog S B A') :
  within R m -> (forall a, within R (f a)) -> within R (m ≫= f).
Proof.
  intros Hm Hf s b. unfold mbind, Prog_bind. specialize (Hm s b).
  destruct (m s b) as [[a|e] [s' b']]; simpl in *; [|done].
  etransitivity; [exact Hm|apply Hf].
Qed.

Lemma within_catch {A} (m : Prog S B A) h :
  within R m -> (forall e, within R (h e)) -> within R (catch m h).
Proof.
  intros Hm Hh s b. unfold catch. specialize (Hm s b).
  destruct (m s b) as [[a|e] [s' b']]; simpl in *; [done|].
  etransitivity; [exact Hm|apply Hh].
Qed.

Lemma within_when (c : bool) (m : Prog S B unit) : within R m -> within R (pwhen c m).
Proof. intros Hm. destruct c; [exact Hm|apply within_ret]. Qed.

Lemma within_foreach {A} (l : list A) (f : A -> Prog S B unit) :
  (forall a, within R (f a)) -> within R (pforeach l f).
Proof.
  intros Hf. induction l as [|a l IH]; simpl; [apply within_ret|].
  apply within_bind; [apply Hf|intros _; exact IH].
Qed.
End within.
End wp.

Create HintDb within.
(** Discharge [within R m] by following the program. *)
Ltac within_step :=
  match goal with
  | |- PreOrder _ => apply _
  | |- within _ (_ ≫= _) => eapply within_bind; [apply _| |intros ?]
  | |- within _ (catch _ _) => eapply within_catch; [apply _| |intros ?]
  | |- within _ (or_else _ _) => eapply within_catch; [apply _| |intros ?]
  | |- within _ (if ?x then _ else _) => destruct x
  | |- within _ (match ?x with _ => _ end) => destruct x
  | |- within _ (pwhen _ _) => eapply within_when; [apply _|]
  | |- within _ (pforeach _ _) => eapply within_foreach; [apply _|intros ?]
  | |- within _ (mret _) => eapply within_ret; apply _
  | |- within _ (raise _) => eapply within_raise; apply _
  | |- within _ get_state => eapply within_get; apply _
  | |- within _ (modify_state _) => eapply within_modify; apply _
  | |- within _ (of_result _) => eapply within_of_result; apply _
  | |- within _ _ => solve [auto 2 with within]
  end.
Ltac within_solve := repeat within_step.

(** ** The calls of a pass *)

Section laws.
Context {B : Type} `{DianemoBackend B}.
Variable self : ClientData.

(** The calls of a pass that neither claim an entry nor return one. *)
Definition neutral {A} (c : call A) : Prop :=
  match c with
  | CSmembers key => key = getFrozenGrantsKey self
  | CCanProcessRequest key => exists g, key = getFreezeStateKey self g
  | CNow => True
  | CTryStartThawRequest fg q p _ _ _ =>
      fg = getFrozenGrantsKey self /\ q = getQueueKey self /\ p = getMetadataKeyPrefix self
  | CGetRequest p _ => p = getMetadataKeyPrefix self
  | CRemoveRequest q p _ _ => q = getQueueKey self /\ p = getMetadataKeyPrefix self
  | CPublish _ _ => True
  | _ => False
  end.
End laws.

(** A queue the loop can drain.  [open_ids] holds the entries a claim may still
    take, now or once a lease has lapsed; [grants] the grants entries belong
    to; [held b id s] says that the entry is held by the claim stamped [s]. *)
Class DrainableQueue (B : Type) `{DianemoBackend B} (self : ClientData) := {
  sound : B -> Prop;
  open_ids : B -> gset string;
  grants : B -> gset string;
  held : B -> string -> num -> Prop
}.

Section quiet.
Context {B : Type} `{DianemoBackend B} {self : ClientData} `{!DrainableQueue B self}.

(** Nothing is opened, and a claim that stands stands still or its entry is gone. *)
Definition quiet (b b' : B) : Prop :=
  sound b ->
  sound b' /\ open_ids b' ⊆ open_ids b /\ grants b' ⊆ grants b
  /\ forall id s, held b id s -> held b' id s \/ id ∉ open_ids b'.

#[export] Instance quiet_preorder : PreOrder quiet.
Proof.
  split.
  - intros b Hb. split_and!; auto.
  - intros b1 b2 b3 H12 H23 H1. destruct (H12 H1) as (H2 & O12 & G12 & K12).
    destruct (H23 H2) as (H3 & O23 & G23 & K23). split_and!; [done|set_solver|set_solver|].
    intros id s [K|K]%K12; [auto|]. right. set_solver.
Qed.

(** Nothing is opened. *)
Definition shrinks (b b' : B) : Prop :=
  sound b -> sound b' /\ open_ids b' ⊆ open_ids b /\ grants b' ⊆ grants b.

(** At most the entry [id] is opened. *)
Definition opens (id : string) (b b' : B) : Prop :=
  sound b ->
  sound b' /\ open_ids b' ⊆ {[id]} ∪ open_ids b /\ grants b' ⊆ grants b.

#[export] Instance opens_preorder id : PreOrder (opens id).
Proof.
  split.
  - intros b Hb. split_and!; set_solver.
  - intros b1 b2 b3 H12 H23 H1. destruct (H12 H1) as (H2 & O12 & G12).
    destruct (H23 H2) as (H3 & O23 & G23). split_and!; [done|set_solver|set_solver].
Qed.

Lemma quiet_opens id b b' : quiet b b' -> opens id b b'.
Proof. intros Hq Hb. destruct (Hq Hb) as (? & ? & ? & _). split_and!; set_solver. Qed.

Lemma shrinks_opens id b b' : shrinks b b' -> opens id b b'.
Proof. intros Hq Hb. destruct (Hq Hb) as (? & ? & ?). split_and!; set_solver. Qed.

Lemma within_quiet_opens {S A} id (m : Prog S B A) : within quiet m -> within (opens id) m.
Proof. intros Hm s b. apply quiet_opens, Hm. Qed.
End quiet.

(** The promises themselves. *)
Class DrainLaws (B : Type) `{DianemoBackend B} (self : ClientData) `{!DrainableQueue B self} := {
  law_neutral : forall {A} (c : call A) b, neutral self c -> quiet b (serve c b).2;
  law_next : forall skipGrants skipIds b o b',
    serve (CGetNextRequest (getQueueKey self) (getMetadataKeyPrefix self) skipGrants skipIds) b
      = (o, b') ->
    sound b ->
    sound b' /\ open_ids b' ⊆ open_ids b /\ grants b' ⊆ grants b
    /\ forall r, o = Return (Some r) ->
         q_requestId r ∈ open_ids b /\ q_requestId r ∉ skipIds
         /\ (forall g, q_grantId r = Some g -> g <> "" /\ g ∈ grants b /\ g ∉ skipGrants)
         /\ match q_claimedAt r with
            | Some s => held b' (q_requestId r) s
            | None => q_requestId r ∉ open_ids b'
            end;
  law_confirm : forall id s b o b',
    serve (CConfirmRequest (getMetadataKeyPrefix self) id s) b = (o, b') ->
    shrinks b b'
    /\ (o = Return true -> sound b -> id ∉ open_ids b')
    /\ (o = Return false -> sound b -> held b id s -> id ∉ open_ids b');
  law_get : forall id b b',
    serve (CGetRequest (getMetadataKeyPrefix self) id) b = (Return None, b') ->
    sound b -> id ∉ open_ids b';
  law_update : forall id u b,
    u_status u = Some "pending" -> u_retries u = None -> u_priority u = None ->
    opens id b (serve (CUpdateRequest (getQueueKey self) (getMetadataKeyPrefix self) id u) b).2
}.

(** * Programs watched from outside

    Rules for programs over a client and a backend that stay within a relation
    on both, and the world with a log in front of it: the backend and the
    subclass see the world as it was, and what is worth counting is logged. *)

(** ** Programs that stay within a relation on both states *)

Section stays.
Context {S B : Type}.

Definition stays (R : S * B -> S * B -> Prop) {A} (m : Prog S B A) : Prop :=
  forall s b, R (s, b) (m s b).2.

Context (R : S * B -> S * B -> Prop) `{!PreOrder R}.

Lemma stays_ret {A} (a : A) : stays R (mret a).
Proof. intros s b. simpl. reflexivity. Qed.
Lemma stays_raise {A} e : stays R (raise e : Prog S B A).
Proof. intros s b. simpl. reflexivity. Qed.
Lemma stays_get : stays R get_state.
Proof. intros s b. simpl. reflexivity. Qed.
Lemma stays_modify f : (forall s b, R (s, b) (f s, b)) -> stays R (modify_state f).
Proof. intros Hf s b. apply Hf. Qed.
Lemma stays_of_result {A} (r : result A) : stays R (of_result r).
Proof. destruct r; intros s b; simpl; reflexivity. Qed.

Lemma stays_bind {A A'} (m : Prog S B A) (f : A -> Prog S B A') :
  stays R m -> (forall a, stays R (f a)) -> stays R (m ≫= f).
Proof.
  intros Hm Hf s b. unfold mbind, Prog_bind. specialize (Hm s b).
  destruct (m s b) as [[a|e] [s' b']]; simpl in *; [|done].
  etransitivity; [exact Hm|apply Hf].
Qed.

Lemma stays_catch {A} (m : Prog S B A) h :
  stays R m -> (forall e, stays R (h e)) -> stays R (catch m h).
Proof.
  intros Hm Hh s b. unfold catch. specialize (Hm s b).
  destruct (m s b) as [[a|e] [s' b']]; simpl in *; [done|].
  etransitivity; [exact Hm|apply Hh].
Qed.

Lemma stays_foreach {A} (l : list A) f : (forall a, stays R (f a)) -> stays R (pforeach l f).
Proof.
  intros Hf. induction l as [|a l IH]; simpl; [apply stays_ret|].
  apply stays_bind; [apply Hf|intros _; exact IH].
Qed.

Lemma stays_when (c : bool) (m : Prog S B unit) : stays R m -> stays R (pwhen c m).
Proof. intros Hm. destruct c; [exact Hm|apply stays_ret]. Qed.
End stays.

Create HintDb stays.
(** Discharge [stays R m] by following the program. *)
Ltac stays_step :=
  match goal with
  | |- stays _ (_ ≫= _) => eapply stays_bind; [apply _| |intros ?]
  | |- stays _ (catch _ _) => eapply stays_catch; [apply _| |intros ?]
  | |- stays _ (or_else _ _) => eapply stays_catch; [apply _| |intros ?]
  | |- stays _ (if ?x then _ else _) => destruct x
  | |- stays _ (match ?x with _ => _ end) => destruct x
  | |- stays _ (pwhen _ _) => eapply stays_when; [apply _|]
  | |- stays _ (pforeach _ _) => eapply stays_foreach; [apply _|intros ?]
  | |- stays _ (mret _) => eapply stays_ret; apply _
  | |- stays _ (raise _) => eapply stays_raise; apply _
  | |- stays _ get_state => eapply stays_get; apply _
  | |- stays _ (of_result _) => eapply stays_of_result; apply _
  | |- stays _ _ => solve [auto 2 with stays]
  end.
Ltac stays_solve := repeat stays_step.

Lemma wp_stays {S B A} (R : S * B -> S * B -> Prop) (m : Prog S B A) (Q : outcome A -> S -> B -> Prop) s b :
  stays R m -> (forall r s' b', R (s, b) (s', b') -> Q r s' b') -> wp m Q s b.
Proof.
  intros Hm HQ. unfold wp. specialize (Hm s b). destruct (m s b) as [r [s' b']]. by apply HQ.
Qed.

Lemma stays_wp {S B A} (R : S * B -> S * B -> Prop) (m : Prog S B A) :
  (forall s b, wp m (fun _ s' b' => R (s, b) (s', b')) s b) -> stays R m.
Proof. intros Hm s b. specialize (Hm s b). unfold wp in Hm. by destruct (m s b) as [r [s' b']]. Qed.

(** ** Programs that do not throw *)

Definition sure {S B A} (m : Prog S B A) : Prop := forall s b, exists a, (m s b).1 = Return a.

Lemma sure_ret {S B A} (a : A) : sure (mret a : Prog S B A).
Proof. intros s b. by exists a. Qed.
Lemma sure_get {S B} : sure (get_state : Prog S B S).
Proof. intros s b. by exists s. Qed.
Lemma sure_modify {S B} f : sure (modify_state f : Prog S B unit).
Proof. intros s b. by exists tt. Qed.
Lemma sure_catch {S B A} (m : Prog S B A) h : (forall e, sure (h e)) -> sure (catch m h).
Proof.
  intros Hh s b. unfold catch. destruct (m s b) as [[a|e] [s' b']]; [by exists a|apply Hh].
Qed.
Lemma sure_bind {S B A A'} (m : Prog S B A) (f : A -> Prog S B A') :
  sure m -> (forall a, sure (f a)) -> sure (m ≫= f).
Proof.
  intros Hm Hf s b. destruct (Hm s b) as [a Ea]. unfold mbind, Prog_bind.
  destruct (m s b) as [o [s' b']]. cbn in Ea. rewrite Ea. apply Hf.
Qed.

Lemma wp_sure {S B A} (R : S * B -> S * B -> Prop) (m : Prog S B A) (Q : outcome A -> S -> B -> Prop) s b :
  stays R m -> sure m -> (forall a s' b', R (s, b) (s', b') -> Q (Return a) s' b') -> wp m Q s b.
Proof.
  intros Hm Hs HQ. unfold wp. specialize (Hm s b). destruct (Hs s b) as [a Ea].
  destruct (m s b) as [o [s' b']]. cbn in Ea. rewrite Ea. by apply HQ.
Qed.

#[export] Hint Resolve sure_ret sure_get sure_modify : sure.
Ltac sure_step :=
  match goal with
  | |- sure (_ ≫= _) => apply sure_bind; [|intros ?]
  | |- sure (catch _ _) => apply sure_catch; intros ?
  | |- sure (or_else _ _) => apply sure_catch; intros ?
  | |- sure (if ?x then _ else _) => destruct x
  | |- sure (match ?x with _ => _ end) => destruct x
  | |- sure (pwhen ?x _) => destruct x; simpl
  | |- sure _ => solve [auto 2 with sure]
  end.
Ltac sure_solve := repeat sure_step.

(** ** A log in front of the world *)

Definition Traced (X B : Type) : Type := list X * B.

Section traced.
Context {X B : Type}.

#[export] Instance traced_backend `{DianemoBackend B} : DianemoBackend (Traced X B) := {|
  serve := fun A c lb => let '(r, b') := serve c lb.2 in (r, (lb.1, b'));
  implements := implements
|}.

(** A program that does not know of the log. *)
Definition traced {A} (m : C B A) : C (Traced X B) A := fun c lb =>
  match m c lb.2 with (r, (c', b')) => (r, (c', (lb.1, b'))) end.

(** One that does nothing else. *)
Definition log_entry (x : X) : C (Traced X B) unit := fun c lb => (Return tt, (c, (x :: lb.1, lb.2))).

(** [m], and [x] on the log if it returns. *)
Definition logged {A} (x : X) (m : C B A) : C (Traced X B) A := a ← traced m; log_entry x ;; mret a.

(** A subclass that does not know of the log. *)
Definition traced_class `{BaseClient B} : BaseClient (Traced X B) := {|
  b_tryAdmitImmediately := fun m => traced (b_tryAdmitImmediately m);
  b_tryAcquireTurn := fun m => traced (b_tryAcquireTurn m);
  b_refundUnusedAdmission := fun m => traced (b_refundUnusedAdmission m);
  b_claimsReleasableCapacity := b_claimsReleasableCapacity;
  b_getCostProblem := b_getCostProblem;
  b_assertReadyToQueue := traced b_assertReadyToQueue;
  b_handleOwnTypeRequestDone := fun d => traced (b_handleOwnTypeRequestDone d);
  b_handleFreezeOwnTypeRequests := fun g => traced (b_handleFreezeOwnTypeRequests g);
  b_getRetryBackoffBaseTime := b_getRetryBackoffBaseTime;
  b_getFreezeBaseTime := b_getFreezeBaseTime;
  b_freezeEmptiesBucket := b_freezeEmptiesBucket;
  b_settleAttempt := fun m v => traced (b_settleAttempt m v)
|}.

(** Nothing is logged. *)
Definition same_log {S} (sb sb' : S * Traced X B) : Prop := sb'.2.1 = sb.2.1.

#[export] Instance same_log_preorder {S} : PreOrder (same_log (S:=S)).
Proof. split; [done|]. unfold same_log. intros x y z E1 E2. congruence. Qed.

Lemma same_log_ask `{DianemoBackend B} {A} (c : call A) : stays same_log (ask (B:=Traced X B) c).
Proof. intros s [l b]. unfold ask. simpl. by destruct (serve c b). Qed.

Lemma same_log_modify {S} (f : S -> S) : stays same_log (modify_state (B:=Traced X B) f).
Proof. by intros s b. Qed.

Lemma same_log_traced {A} (m : C B A) : stays same_log (traced m).
Proof. intros c [l b]. unfold traced. cbn [fst snd]. by destruct (m c b) as [r [c' b']]. Qed.
End traced.
#[export] Hint Resolve same_log_ask same_log_modify same_log_traced : stays.

(** ** What a subclass promises to the loop *)

(** What decides whether a pass starts, and whether another follows it. *)
Definition gate (c : Client) : ClientRole * bool * bool * bool :=
  (c_role c, c_admissionHalted c, c_processingLock c, c_processingPending c).

(** The client's gate is left as it was. *)
Definition gate_kept {B} (cb cb' : Client * B) : Prop := gate cb'.1 = gate cb.1.

#[export] Instance gate_kept_preorder {B} : PreOrder (gate_kept (B:=B)).
Proof. split; [done|]. unfold gate_kept. intros x y z E1 E2. congruence. Qed.

(** A subclass whose claims and refunds open no entry, and leave the gate alone. *)
Class QuietClient (B : Type) `{DianemoBackend B} (self : ClientData) `{!DrainableQueue B self}
    `{BaseClient B} := {
  quiet_turn : forall m, within quiet (b_tryAcquireTurn m);
  quiet_refund : forall m, within quiet (b_refundUnusedAdmission m);
  gate_turn : forall m, stays gate_kept (b_tryAcquireTurn m);
  gate_refund : forall m, stays gate_kept (b_refundUnusedAdmission m)
}.
