(* ===== verification/DrainProps.v ===== *)
(** * The drain loop ends, and gives its lock back

    Theorems on [Drain.processRequests] for every backend and every client
    class that keep the promises of [DrainSpec]. *)
From S2P Require Import Prelude JsNumber JsString Json Value RateLimit Cost Timers.
From S2P Require Import Shared MemoryStore TokenBucket Queue Freeze Backend.
From S2P Require Import Election Requests Client Drain DrainSpec.

Section loop.
Context {B : Type} `{DianemoBackend B} {self : ClientData} `{!DrainableQueue B self}.
Context `{!DrainLaws B self} `{BaseClient B} `{!QuietClient B self}.

Local Notation L := (Prog (Client * Pass) B).

(** ** What the helpers of a turn do to the queue *)

Lemma ask_quiet {A} (c : call A) : neutral self c -> within quiet (ask c).
Proof.
  intros Hc s b. unfold ask. pose proof (law_neutral c b Hc) as Hq.
  by destruct (serve c b) as [r b'].
Qed.
Local Hint Resolve ask_quiet : within.
Local Hint Resolve quiet_turn quiet_refund : within.

Lemma publish_quiet channel message : within quiet (publish_ self channel message).
Proof. by apply ask_quiet. Qed.

Lemma canProcess_quiet g : within quiet (canProcessNextRequest self g).
Proof. apply ask_quiet. by exists g. Qed.

Lemma freezes_quiet : within quiet (getFrozenGrantIds self).
Proof. unfold getFrozenGrantIds. destruct (usesGrantIsolation self); [by apply ask_quiet|apply within_ret; apply _]. Qed.

Lemma thaw_quiet g id : within quiet (tryStartThawRequest_ self g id).
Proof. by apply ask_quiet. Qed.

Lemma tell_quiet id e : within quiet (tell (B:=B) id e).
Proof. apply within_modify, _. Qed.
Local Hint Resolve publish_quiet canProcess_quiet tell_quiet : within.

Lemma fail_quiet id e : within quiet (failWaitingRequest (B:=B) id e).
Proof. unfold failWaitingRequest. within_solve. Qed.

Lemma remove_quiet id : within quiet (removeRequestFromQueue self id).
Proof. by apply ask_quiet. Qed.

Lemma scheduleDrain_quiet w : within quiet (scheduleDrain (B:=B) w).
Proof. apply within_modify, _. Qed.
Local Hint Resolve fail_quiet remove_quiet scheduleDrain_quiet : within.

Lemma freeze_drain_quiet u g : within quiet (scheduleDrainForFreeze self u g).
Proof.
  unfold scheduleDrainForFreeze. eapply within_bind; [apply _| |].
  - destruct u; within_solve. apply ask_quiet. by exists g.
  - intros [d|]; within_solve. by apply ask_quiet.
Qed.

Lemma hopeless_quiet m : within quiet (isPermanentlyUnsatisfiable (B:=B) m).
Proof. unfold isPermanentlyUnsatisfiable. within_solve. Qed.

Lemma failUnsatisfiable_quiet m known : within quiet (failUnsatisfiable self m known).
Proof. unfold failUnsatisfiable. within_solve. Qed.

Lemma goneClaim_quiet r m : within quiet (releaseGoneClaim (B:=B) r m).
Proof. unfold releaseGoneClaim, releaseUnusedAdmission. within_solve. by apply ask_quiet. Qed.

Lemma announce_quiet m : within quiet (announce self m).
Proof. unfold announce, handleRequestReady. within_solve. Qed.

Lemma reread_quiet id : within quiet (reread_entry self id).
Proof. unfold reread_entry, getRequestFromQueue. within_solve. by apply ask_quiet. Qed.
Local Hint Resolve freeze_drain_quiet hopeless_quiet failUnsatisfiable_quiet goneClaim_quiet
  announce_quiet reread_quiet thaw_quiet freezes_quiet : within.

(** ** Programs of the loop *)

Lemma wp_client {A} (R : B -> B -> Prop) (m : C B A) (Q : outcome A -> Client * Pass -> B -> Prop) cp b :
  within R m -> (forall r c' b', R b b' -> Q r (c', cp.2) b') -> wp (client m) Q cp b.
Proof.
  intros Hm HQ. unfold wp, client. specialize (Hm cp.1 b).
  destruct (m cp.1 b) as [r [c' b']]. by apply HQ.
Qed.

Lemma wp_pass (Q : outcome Pass -> Client * Pass -> B -> Prop) cp b :
  Q (Return cp.2) cp b -> wp pass Q cp b.
Proof. done. Qed.

Lemma wp_set_pass f (Q : outcome unit -> Client * Pass -> B -> Prop) cp b :
  Q (Return tt) (cp.1, f cp.2) b -> wp (set_pass f) Q cp b.
Proof. done. Qed.

Lemma wp_get_client (Q : outcome Client -> Client * Pass -> B -> Prop) cp b :
  Q (Return cp.1) cp b -> wp (client get_state) Q cp b.
Proof. destruct cp. done. Qed.

(** *** One turn, from the pass [p0] and with the entry it claimed *)

Section turn.
Variable p0 : Pass.
Variable O G : gset string.
Variable request : QueuedRequest.
Local Notation id := (q_requestId request).
Hypothesis id_open : id ∈ O.

(** What holds all along the turn. *)
Definition along (p : Pass) (b : B) : Prop :=
  sound b /\ open_ids b ⊆ O /\ grants b ⊆ G
  /\ skippedRequestIds p0 ⊆ skippedRequestIds p /\ blockedGrantIds p0 ⊆ blockedGrantIds p.

(** The entry will not be taken again by this pass. *)
Definition settled (p : Pass) (b : B) : Prop :=
  id ∈ skippedRequestIds p
  \/ (exists g, q_grantId request = Some g /\ g <> "" /\ g ∈ blockedGrantIds p)
  \/ id ∉ open_ids b.

(** The claim stands, or the entry is gone. *)
Definition claimed (b : B) : Prop :=
  match q_claimedAt request with
  | Some s => held b id s \/ id ∉ open_ids b
  | None => id ∉ open_ids b
  end.

Definition over (r : outcome flow) (cp : Client * Pass) (b : B) : Prop :=
  along cp.2 b /\ (r = Return Continue -> settled cp.2 b).

Lemma along_opens p b b' : along p b -> opens id b b' -> along p b'.
Proof.
  intros (Hs & Ho & Hg & Hi & Hb) Hq. destruct (Hq Hs) as (Hs' & Ho' & Hg').
  split_and!; try done; set_solver.
Qed.

Lemma along_quiet p b b' : along p b -> quiet b b' -> along p b'.
Proof. intros Ha Hq. eapply along_opens; [done|by apply quiet_opens]. Qed.

Lemma along_shrinks p b b' : along p b -> shrinks b b' -> along p b'.
Proof. intros Ha Hq. eapply along_opens; [done|by apply shrinks_opens]. Qed.

Lemma along_pass p p' b :
  along p b -> skippedRequestIds p ⊆ skippedRequestIds p' -> blockedGrantIds p ⊆ blockedGrantIds p' ->
  along p' b.
Proof. intros (? & ? & ? & ? & ?) Hi Hb. split_and!; try done; set_solver. Qed.

Lemma settled_quiet p b b' : sound b -> settled p b -> quiet b b' -> settled p b'.
Proof.
  intros Hs [Hd|[Hd|Hd]] Hq; [by left|by right; left|]. right; right.
  destruct (Hq Hs) as (_ & Ho & _). set_solver.
Qed.

Lemma claimed_quiet b b' : sound b -> claimed b -> quiet b b' -> claimed b'.
Proof.
  intros Hs Hc Hq. destruct (Hq Hs) as (_ & Ho & _ & Hh). unfold claimed in *.
  destruct (q_claimedAt request) as [s|]; [|set_solver].
  destruct Hc as [Hc|Hc]; [by apply Hh|]. right. set_solver.
Qed.

(** A program that keeps the pass's sets and what holds along the turn. *)
Lemma wp_confirm (Q : outcome bool -> Client * Pass -> B -> Prop) cp b :
  along cp.2 b ->
  (forall r c' p' b',
    along p' b' ->
    skippedRequestIds p' = skippedRequestIds cp.2 -> blockedGrantIds p' = blockedGrantIds cp.2 ->
    requestMetadata p' = requestMetadata cp.2 ->
    (claimed b -> forall ok, r = Return ok -> id ∉ open_ids b') ->
    Q r (c', p') b') ->
  wp (confirm self request) Q cp b.
Proof.
  intros Ha HQ. destruct cp as [c p]. unfold confirm. apply wp_bind, wp_set_pass.
  apply wp_bind. unfold confirmRequestInQueue.
  destruct (q_claimedAt request) as [s|] eqn:Es.
  - unfold wp, client, ask. cbn [fst snd].
    destruct (serve (CConfirmRequest (getMetadataKeyPrefix self) id s) b) as [o b'] eqn:E.
    destruct (law_confirm _ _ _ _ _ E) as (Hq & Ht & Hf).
    assert (along (set_confirmation sent p) b') as Ha'
      by (eapply along_pass; [eapply along_shrinks; eassumption|done|done]).
    assert (claimed b -> forall ok, o = Return ok -> id ∉ open_ids b') as Hgone.
    { intros Hc [|] ->; [by apply Ht, Ha|]. unfold claimed in Hc. rewrite Es in Hc.
      destruct Hc as [Hh|Hn]; [apply Hf; [done|apply Ha|done]|].
      destruct (Hq (proj1 Ha)) as (_ & Ho & _). set_solver. }
    destruct o as [[|]|e]; simpl.
    + apply HQ; first [done|by intros Hc ok [= <-]; apply (Hgone Hc _ eq_refl)].
    + apply HQ; first [done|by intros Hc ok [= <-]; apply (Hgone Hc _ eq_refl)].
    + by apply HQ.
  - simpl. apply HQ; try done. intros Hc ok _. unfold claimed in Hc. by rewrite Es in Hc.
Qed.

Lemma wp_returnToQueue (Q : outcome unit -> Client * Pass -> B -> Prop) cp b :
  along cp.2 b ->
  (forall r c' p' b',
    along p' b' ->
    skippedRequestIds p' = skippedRequestIds cp.2 -> blockedGrantIds p' = blockedGrantIds cp.2 ->
    Q r (c', p') b') ->
  wp (returnToQueue self request) Q cp b.
Proof.
  intros Ha HQ. destruct cp as [c p]. unfold returnToQueue. apply wp_bind, wp_pass. cbn [fst snd].
  destruct (decide _); [by apply wp_ret, HQ|]. apply wp_bind.
  assert (forall c' p' b', along p' b' ->
    skippedRequestIds p' = skippedRequestIds p -> blockedGrantIds p' = blockedGrantIds p ->
    wp (p1 ← pass;
        pwhen (m_isThawRequest (requestMetadata p1))
          (set_pass (set_metadata (with_isThawRequest false (requestMetadata p1)))) ;;
        client (updateRequestInQueue self id (pending_again (m_isThawRequest (requestMetadata p1)))))
      Q (c', p') b') as Hupd.
  { intros c' p' b' Ha' E1 E2. apply wp_bind, wp_pass. cbn [fst snd]. apply wp_bind.
    assert (within (opens id) (updateRequestInQueue self id
      (pending_again (m_isThawRequest (requestMetadata p'))))) as Hw.
    { intros s b''. unfold updateRequestInQueue, ask.
      match goal with |- context [serve ?cc ?bb] =>
        pose proof (law_update id (pending_again (m_isThawRequest (requestMetadata p'))) bb eq_refl eq_refl eq_refl);
        by destruct (serve cc bb) end. }
    destruct (m_isThawRequest (requestMetadata p')); simpl; [apply wp_set_pass|apply wp_ret];
      (eapply wp_client; [exact Hw|]); intros r c1 b1 Hop; apply HQ; try done;
      (eapply along_pass; [eapply along_opens; eassumption|done|done]). }
  destruct (decide _).
  - eapply wp_confirm; [done|]. intros [[|]|err] c' p' b' Ha' E1 E2 _ _; simpl.
    + by apply Hupd.
    + by apply wp_ret, HQ.
    + by apply HQ.
  - by apply wp_ret, Hupd.
Qed.

Lemma wp_step_over cp b : along cp.2 b -> wp (step_over self request) over cp b.
Proof.
  intros Ha. destruct cp as [c p]. unfold step_over.
  assert (forall i, along (set_skipped (oset_add i (skippedRequestIds p)) p) b) as Hskip.
  { intros i. eapply along_pass; [done| |done]. simpl. intros x. unfold oset_add. case_decide; set_solver. }
  assert (forall g, along (set_blocked (oset_add g (blockedGrantIds p)) p) b) as Hblock.
  { intros g. apply (along_pass p); [done..|]. simpl. intros x. unfold oset_add. case_decide; set_solver. }
  assert (forall l : list string, forall x, x ∈ oset_add x l) as Hadd
    by (intros l x; unfold oset_add; case_decide; set_solver).
  destruct (q_grantId request) as [g|] eqn:Eg; [destruct (negb (bool_decide (g = "")) && _) eqn:E|];
    [|destruct (usesGrantIsolation self)..];
    try (apply wp_ret; split; [done|discriminate]);
    apply wp_bind, wp_set_pass, wp_ret; split; try done; cbn [fst snd].
  all: try apply Hblock; try apply Hskip; intros _.
  2, 3: left; apply Hadd.
  right; left. exists g. split_and!; [done| |apply Hadd].
  by apply andb_true_iff in E as [E%negb_true_iff%bool_decide_eq_false _].
Qed.

(** A client method after which the turn is settled anyway. *)
Lemma wp_last {A} (m : C B A) cp b :
  within quiet m -> along cp.2 b -> settled cp.2 b ->
  wp (client m ;; mret Continue) over cp b.
Proof.
  intros Hm Ha Hs. apply wp_bind. eapply wp_client; [exact Hm|].
  intros r c' b' Hq. assert (over (Return Continue) (c', cp.2) b') as [Ha' Hs'].
  { split; [by eapply along_quiet|]. intros _. eapply settled_quiet; [apply Ha|done|done]. }
  destruct r; [by apply wp_ret|split; [done|discriminate]].
Qed.

(** A client method in the middle of a turn. *)
Lemma wp_quietly {A A'} (m : C B A) (f : A -> L A') (Q : outcome A' -> Client * Pass -> B -> Prop) cp b :
  within quiet m -> along cp.2 b ->
  (forall e c' b', along cp.2 b' -> Q (Raise e) (c', cp.2) b') ->
  (forall a c' b', along cp.2 b' -> quiet b b' -> wp (f a) Q (c', cp.2) b') ->
  wp (client m ≫= f) Q cp b.
Proof.
  intros Hm Ha He Hf. apply wp_bind. eapply wp_client; [exact Hm|].
  intros [a|e] c' b' Hq; [apply Hf|apply He]; try done; by eapply along_quiet.
Qed.

Lemma raise_over e cp b : along cp.2 b -> over (Raise e) cp b.
Proof. intros Ha. split; [done|discriminate]. Qed.

Lemma break_over cp b : along cp.2 b -> wp (mret Break : L flow) over cp b.
Proof. intros Ha. apply wp_ret. split; [done|discriminate]. Qed.

(** What a re-read that finds the entry gone says of the queue. *)
Lemma wp_reread (Q : outcome reread -> Client * Pass -> B -> Prop) cp b :
  along cp.2 b ->
  (forall r c' b', along cp.2 b' -> quiet b b' ->
    (r = Return Gone -> id ∉ open_ids b') -> Q r (c', cp.2) b') ->
  wp (client (reread_entry self id)) Q cp b.
Proof.
  intros Ha HQ. destruct cp as [c p]. cbn [fst snd] in *.
  pose proof (reread_quiet id c b) as Hq.
  unfold wp, client. cbn [fst snd]. unfold reread_entry, or_else, catch, getRequestFromQueue, ask in *.
  unfold mbind, Prog_bind in *.
  destruct (serve (CGetRequest (getMetadataKeyPrefix self) id) b) as [[[e|]|err] b'] eqn:E;
    simpl in *; apply HQ; first [done|by eapply along_quiet|idtac].
  intros _. apply (law_get _ _ _ E), Ha.
Qed.

Lemma wp_hand_over cp b :
  along cp.2 b -> claimed b -> wp (hand_over self request) over cp b.
Proof.
  intros Ha Hc. destruct cp as [c p]. cbn [fst snd] in *. unfold hand_over.
  apply wp_bind, wp_get_client. cbn [fst snd]. apply wp_bind.
  assert (forall g c' b', along p b' -> claimed b' -> (g = Gone -> id ∉ open_ids b') ->
    wp (p1 ← pass;
        match g with
        | Gone => client (releaseGoneClaim request (requestMetadata p1)) ;; mret Continue
        | _ =>
            confirmed ← confirm self request;
            if negb confirmed then
              c1 ← client get_state;
              gone ← (if b_claimsReleasableCapacity c1
                      then client (reread_entry self id) else mret StillQueued);
              match gone with
              | Gone => client (releaseGoneClaim request (requestMetadata p1))
              | _ => mret tt
              end ;;
              mret Continue
            else client (announce self (requestMetadata p1)) ;; mret Continue
        end) over (c', p) b') as Hrest.
  { intros g c' b' Ha' Hc' Hg. apply wp_bind, wp_pass. cbn [fst snd].
    assert (wp (confirmed ← confirm self request;
            if negb confirmed then
              c1 ← client get_state;
              gone ← (if b_claimsReleasableCapacity c1
                      then client (reread_entry self id) else mret StillQueued);
              match gone with
              | Gone => client (releaseGoneClaim request (requestMetadata p))
              | _ => mret tt
              end ;;
              mret Continue
            else client (announce self (requestMetadata p)) ;; mret Continue) over (c', p) b') as Hcf.
    { apply wp_bind. eapply wp_confirm; [done|]. cbn [fst snd].
      intros [ok|e] c2 p2 b2 Ha2 E1 E2 _ Hgone; [|by apply raise_over].
      specialize (Hgone Hc' ok eq_refl).
      destruct ok; simpl.
      - apply wp_last; [auto with within|done|by right; right].
      - apply wp_bind, wp_get_client. cbn [fst snd]. apply wp_bind.
        destruct (b_claimsReleasableCapacity c2).
        + eapply wp_reread; [done|]. cbn [fst snd]. intros [g'|e] c3 b3 Ha3 Hq3 _; [|by apply raise_over].
          assert (settled p2 b3) as Hs3
            by (eapply settled_quiet; [apply Ha2|by right; right|done]).
          destruct g'; [|by apply wp_bind, wp_ret, wp_ret..].
          apply wp_last; [auto with within|done|done].
        + by apply wp_ret, wp_bind, wp_ret, wp_ret; split; [|intros _; right; right]. }
    destruct g; [|exact Hcf..].
    apply wp_last; [auto with within|done|by right; right; apply Hg]. }
  destruct (b_claimsReleasableCapacity c).
  - eapply wp_reread; [done|]. cbn [fst snd]. intros [g|e] c3 b3 Ha3 Hq3 Hg; [|by apply raise_over].
    apply Hrest; [done| |by intros ->; apply Hg]. eapply claimed_quiet; [apply Ha|done|done].
  - apply wp_ret. by apply (Hrest StillQueued).
Qed.

Lemma wp_take_turn cp b :
  along cp.2 b -> claimed b -> wp (take_turn self request) over cp b.
Proof.
  intros Ha Hc. destruct cp as [c p]. cbn [fst snd] in *. unfold take_turn.
  apply wp_bind, wp_pass. cbn [fst snd].
  eapply wp_quietly; [apply quiet_turn|done|by intros; apply raise_over|].
  cbn [fst snd]. intros [t m] c' b' Ha' Hq. apply wp_bind, wp_set_pass. cbn [fst snd].
  assert (along (set_metadata m p) b') as Ha1 by (by eapply along_pass).
  destruct (t_acquired t); simpl.
  - apply wp_hand_over; [done|]. eapply claimed_quiet; [apply Ha|done|done].
  - apply wp_bind. eapply wp_returnToQueue; [done|].
    intros [?|e] c2 p2 b2 Ha2 _ _; [|by apply raise_over].
    eapply wp_quietly; [apply scheduleDrain_quiet|done|by intros; apply raise_over|].
    intros _ c3 b3 Ha3 _. by apply wp_step_over.
Qed.

Lemma skipped_along p b : along p b -> along (set_skipped (oset_add id (skippedRequestIds p)) p) b.
Proof.
  intros Ha. eapply along_pass; [done| |done]. simpl. intros x. unfold oset_add. case_decide; set_solver.
Qed.

Lemma skipped_settled p b : settled (set_skipped (oset_add id (skippedRequestIds p)) p) b.
Proof. left. simpl. unfold oset_add. case_decide; set_solver. Qed.

Lemma wp_admit cp b : along cp.2 b -> claimed b -> wp (admit_turn self request) over cp b.
Proof.
  intros Ha Hc. destruct cp as [c p]. cbn [fst snd] in *. unfold admit_turn.
  eapply wp_quietly; [apply canProcess_quiet|done|by intros; apply raise_over|].
  cbn [fst snd]. intros d c1 b1 Ha1 Hq1.
  assert (claimed b1) as Hc1 by (eapply claimed_quiet; [apply Ha|done|done]).
  destruct (canProcess d); simpl.
  - destruct (pd_isThawRequest d); [|by apply wp_take_turn].
    eapply wp_quietly; [apply thaw_quiet|done|by intros; apply raise_over|].
    cbn [fst snd]. intros [|] c2 b2 Ha2 Hq2.
    + apply wp_bind, wp_set_pass. cbn [fst snd]. apply wp_take_turn; [by eapply along_pass|].
      eapply claimed_quiet; [apply Ha1|done|done].
    + apply wp_bind. eapply wp_returnToQueue; [done|].
      intros [?|e] c3 p3 b3 Ha3 _ _; [by apply break_over|by apply raise_over].
  - apply wp_bind. eapply wp_returnToQueue; [done|].
    intros [?|e] c2 p2 b2 Ha2 _ _; [|by apply raise_over].
    apply wp_bind, wp_pass. cbn [fst snd].
    eapply wp_quietly; [apply hopeless_quiet|done|by intros; apply raise_over|].
    cbn [fst snd]. intros [|] c3 b3 Ha3 _.
    + apply wp_bind, wp_set_pass. cbn [fst snd].
      apply wp_last; [auto with within|by apply skipped_along|apply skipped_settled].
    + eapply wp_quietly; [apply freeze_drain_quiet|done|by intros; apply raise_over|].
      intros _ c4 b4 Ha4 _. by apply wp_step_over.
Qed.

Lemma wp_recover error cp b : along cp.2 b -> wp (recover self request error) over cp b.
Proof.
  intros Ha. destruct cp as [c p]. cbn [fst snd] in *. unfold recover.
  apply wp_bind, wp_catch. eapply wp_returnToQueue; [done|]. cbn [fst snd].
  intros r c1 p1 b1 Ha1 _ _.
  assert (forall c1, wp (p ← pass;
    match error with
    | JsError (ConfigurationError code _) =>
        if decide (code = "invalid_request_cost") then
          skip_request id ;;
          (if decide (m_ownerId (requestMetadata p) = k_instanceId self) then
             failed ← client (failWaitingRequest id error);
             pwhen failed (client (or_else (removeRequestFromQueue self id ;; mret tt) tt))
           else mret tt) ;;
          mret Continue
        else mret Break
    | CostError e =>
        skip_request id ;; client (failUnsatisfiable self (requestMetadata p) (Some e)) ;; mret Continue
    | ClientFrozenError _ =>
        client (scheduleDrainForFreeze self None (q_grantId request)) ;; mret Break
    | _ => mret Break
    end) over (c1, p1) b1) as Hrest.
  { clear r c1. intros c1. apply wp_bind, wp_pass. cbn [fst snd].
    destruct error as [[|code message]|e|?|? ?|?|?|? ?|?| |?]; try (by apply break_over).
    - destruct (decide _); [|by apply break_over].
      apply wp_bind, wp_set_pass. cbn [fst snd]. apply wp_bind.
      destruct (decide _).
      + apply wp_bind. eapply wp_client; [apply fail_quiet|]. cbn [fst snd].
        intros [f|e'] c2 b2 Hq2; [|apply raise_over; eapply along_quiet; [by apply skipped_along|done]].
        assert (along (set_skipped (oset_add id (skippedRequestIds p1)) p1) b2) as Ha2
          by (eapply along_quiet; [by apply skipped_along|done]).
        destruct f; simpl; [|by apply wp_ret, wp_ret; split; [|intros _; apply skipped_settled]].
        eapply (wp_client quiet); [within_solve|]. cbn [fst snd].
        intros [?|e'] c3 b3 Hq3; [|apply raise_over; by eapply along_quiet].
        apply wp_ret. split; [by eapply along_quiet|intros _; apply skipped_settled].
      + apply wp_ret, wp_ret. split; [by apply skipped_along|intros _; apply skipped_settled].
    - apply wp_bind, wp_set_pass. cbn [fst snd].
      apply wp_last; [auto with within|by apply skipped_along|apply skipped_settled].
    - eapply wp_quietly; [apply freeze_drain_quiet|done|by intros; apply raise_over|].
      intros _ c2 b2 Ha2 _. by apply break_over. }
  destruct r; simpl; [apply Hrest|apply wp_ret, Hrest].
Qed.
End turn.

(** ** The measure of a pass *)

(** Entries a claim may still take and this pass has not stepped over, and
    grants it has not blocked. *)
Definition pass_measure (b : B) (p : Pass) : nat :=
  (size (open_ids b ∖ list_to_set (skippedRequestIds p))
   + size (grants b ∖ list_to_set (blockedGrantIds p)))%nat.

Lemma settled_decreases p b p' b' request :
  q_requestId request ∈ open_ids b -> q_requestId request ∉ skippedRequestIds p ->
  (forall g, q_grantId request = Some g -> g ∈ grants b /\ g ∉ blockedGrantIds p) ->
  along p (open_ids b) (grants b) p' b' -> settled request p' b' ->
  (pass_measure b' p' < pass_measure b p)%nat.
Proof.
  intros Ho Hs Hg (_ & HO & HG & Hi & Hb) Hd. unfold pass_measure.
  assert (open_ids b' ∖ list_to_set (skippedRequestIds p')
    ⊆ open_ids b ∖ list_to_set (skippedRequestIds p)) as H1 by set_solver.
  assert (grants b' ∖ list_to_set (blockedGrantIds p')
    ⊆ grants b ∖ list_to_set (blockedGrantIds p)) as H2 by set_solver.
  destruct Hd as [Hd|[(g & Eg & _ & Hd)|Hd]].
  - apply Nat.add_lt_le_mono; [apply subset_size; set_solver|by apply subseteq_size].
  - destruct (Hg g Eg). apply Nat.add_le_lt_mono; [by apply subseteq_size|apply subset_size; set_solver].
  - apply Nat.add_lt_le_mono; [apply subset_size; set_solver|by apply subseteq_size].
Qed.

Lemma elem_of_fold_oset (l acc : list string) g :
  g ∈ fold_left (fun acc g => oset_add g acc) l acc <-> g ∈ l \/ g ∈ acc.
Proof.
  revert acc. induction l as [|x l IH]; intros acc; simpl; [set_solver|].
  rewrite IH. unfold oset_add. case_decide; set_solver.
Qed.

Lemma turn_decreases cp b :
  sound b ->
  wp (turn self) (fun r cp' b' => sound b' /\
    (r = Return Continue -> (pass_measure b' cp'.2 < pass_measure b cp.2)%nat)) cp b.
Proof.
  intros Hs. destruct cp as [c p]. cbn [fst snd]. unfold turn.
  apply wp_bind. eapply wp_client; [apply freezes_quiet|]. cbn [fst snd].
  intros [frozen|e] c1 b1 Hq; destruct (Hq Hs) as (Hs1 & Ho1 & Hg1 & _); [|by split].
  apply wp_bind, wp_pass. cbn [fst snd]. apply wp_bind.
  unfold wp, client, getNextRequest_, ask. cbn [fst snd].
  set (skip := fold_left _ _ _). destruct (serve _ b1) as [o b2] eqn:E.
  destruct (law_next _ _ _ _ _ E Hs1) as (Hs2 & Ho2 & Hg2 & Hr).
  destruct o as [[request|]|e]; simpl; [|by split; [|discriminate]..].
  destruct (Hr request eq_refl) as (Hid & Hskip & Hgr & Hcl).
  set (p1 := set_confirmation unsent (set_metadata (metadata_of request) p)).
  assert (along p (open_ids b) (grants b) p1 b2) as Ha by (split_and!; [done|set_solver..]).
  assert (wp (catch (admit_turn self request) (recover self request))
    (over p (open_ids b) (grants b) request) (c1, p1) b2) as Hwp.
  { apply wp_catch. eapply wp_mono; [apply (wp_admit p (open_ids b) (grants b) request); [set_solver|done|]|].
    - unfold claimed. destruct (q_claimedAt request); auto.
    - intros [f|e] cp' b' Hov; [done|]. apply wp_recover; [set_solver|apply Hov]. }
  change (wp (catch (admit_turn self request) (recover self request)) (fun r cp' b' => sound b' /\
    (r = Return Continue -> (pass_measure b' cp'.2 < pass_measure b p)%nat)) (c1, p1) b2).
  eapply wp_mono; [exact Hwp|]. intros r [c' p'] b' [Ha' Hd]. cbn [fst snd] in *.
  split; [apply Ha'|]. intros ->. apply (settled_decreases p b p' b' request); [set_solver|done| |exact Ha'|by apply Hd].
  intros g Eg. destruct (Hgr g Eg) as (_ & Hin & Hnot). split; [set_solver|].
  intros Hb. apply Hnot, elem_of_fold_oset. left. set_solver.
Qed.

(** ** The gate while a pass runs *)

Lemma gate_ask {A} (c : call A) : stays gate_kept (ask (B:=B) c).
Proof. intros s b. unfold ask, gate_kept. by destruct (serve c b). Qed.

Lemma gate_modify f : (forall c, gate (f c) = gate c) -> stays gate_kept (modify_state (B:=B) f).
Proof. intros Hf c b. apply Hf. Qed.

(** The same, from inside the loop. *)
Definition pass_kept (cb cb' : (Client * Pass) * B) : Prop := gate cb'.1.1 = gate cb.1.1.

#[local] Instance pass_kept_preorder : PreOrder pass_kept.
Proof. split; [done|]. unfold pass_kept. intros x y z E1 E2. congruence. Qed.

Lemma kept_of_client {A} (m : C B A) : stays gate_kept m -> stays pass_kept (client m).
Proof. intros Hm [c p] b. specialize (Hm c b). unfold client, pass_kept. cbn [fst]. by destruct (m c b) as [r [c' b']]. Qed.

Lemma kept_pass : stays pass_kept pass.
Proof. by intros cp b. Qed.

Lemma kept_set_pass f : stays pass_kept (set_pass f).
Proof. by intros [c p] b. Qed.

Lemma gate_acquire m : stays gate_kept (b_tryAcquireTurn (B:=B) m).
Proof. apply (gate_turn (self:=self)). Qed.

Lemma gate_giving_back m : stays gate_kept (b_refundUnusedAdmission (B:=B) m).
Proof. apply (gate_refund (self:=self)). Qed.
Local Hint Resolve kept_pass kept_set_pass gate_ask gate_acquire gate_giving_back : stays.
Local Hint Extern 1 (stays gate_kept (modify_state _)) => by apply gate_modify : stays.

(** Follows a program of the loop, and those of the client it calls. *)
Ltac kept_solve :=
  repeat first [stays_step | match goal with |- stays pass_kept (client _) => apply kept_of_client end].

Lemma kept_returnToQueue request : stays pass_kept (returnToQueue self request).
Proof. unfold returnToQueue, confirm, confirmRequestInQueue, updateRequestInQueue. kept_solve. Qed.

Lemma kept_step_over request : stays pass_kept (step_over self request).
Proof. unfold step_over, block_grant, skip_request. kept_solve. Qed.

Lemma gate_fail id e : stays gate_kept (failWaitingRequest (B:=B) id e).
Proof. unfold failWaitingRequest, tell. kept_solve. Qed.

Lemma gate_remove id : stays gate_kept (removeRequestFromQueue self id).
Proof. apply gate_ask. Qed.

Lemma gate_unsatisfiable m known : stays gate_kept (failUnsatisfiable self m known).
Proof. unfold failUnsatisfiable. pose proof gate_fail. pose proof gate_remove. kept_solve. Qed.

Lemma gate_schedule w : stays gate_kept (scheduleDrain (B:=B) w).
Proof. apply gate_modify. intros c. cbv zeta. by repeat case_match. Qed.
Local Hint Resolve gate_schedule : stays.

Lemma gate_freeze_drain u g : stays gate_kept (scheduleDrainForFreeze self u g).
Proof. unfold scheduleDrainForFreeze. kept_solve. Qed.
Local Hint Resolve kept_returnToQueue kept_step_over gate_fail gate_remove gate_unsatisfiable gate_freeze_drain : stays.

Lemma kept_hand_over request : stays pass_kept (hand_over self request).
Proof.
  unfold hand_over, confirm, confirmRequestInQueue, reread_entry, getRequestFromQueue, announce, handleRequestReady, tell,
    publish_, releaseGoneClaim, releaseUnusedAdmission. kept_solve.
Qed.
Local Hint Resolve kept_hand_over : stays.

Lemma kept_take_turn request : stays pass_kept (take_turn self request).
Proof. unfold take_turn. kept_solve. Qed.
Local Hint Resolve kept_take_turn : stays.

Lemma kept_admit request : stays pass_kept (admit_turn self request).
Proof.
  unfold admit_turn, canProcessNextRequest, isPermanentlyUnsatisfiable, tryStartThawRequest_, skip_request. kept_solve.
Qed.

Lemma kept_recover request error : stays pass_kept (recover self request error).
Proof. unfold recover, skip_request. kept_solve. Qed.
Local Hint Resolve kept_admit kept_recover : stays.

Lemma turn_kept : stays pass_kept (turn self).
Proof. unfold turn, getFrozenGrantIds, getNextRequest_. kept_solve. Qed.

(** A call that comes in while a pass runs leaves word of itself, and that is all. *)
Definition calling (cp : Client * Pass) : Prop :=
  c_role cp.1 <> worker /\ c_admissionHalted cp.1 = false /\ c_processingLock cp.1 = true.

Lemma calling_gate (cp cp' : Client * Pass) : calling cp -> gate cp'.1 = gate cp.1 ->
  calling cp' /\ c_processingPending cp'.1 = c_processingPending cp.1.
Proof. unfold calling, gate. intros (Hr & Hh & Hl) [= -> -> -> ->]. done. Qed.

Lemma calls_meanwhile_run (n : nat) cp (b : B) : calling cp ->
  calls_meanwhile n cp b = (Return tt, ((if decide (n = 0%nat) then cp.1 else set_processingPending true cp.1, cp.2), b)).
Proof.
  destruct cp as [c p]. intros Hc. revert c Hc. induction n as [|n IH]; intros c Hc; [done|].
  assert (client enter_pass (c, p) b = (Return false, ((set_processingPending true c, p), b))) as E.
  { destruct Hc as (Hr & Hh & Hl). unfold client, enter_pass, mbind, Prog_bind, get_state, modify_state, mret, Prog_ret. cbn [fst snd] in *.
    rewrite decide_False, Hh, Hl by done. done. }
  unfold calls_meanwhile in *. cbn [repeat pforeach]. unfold mbind, Prog_bind in *. rewrite E. cbn [mret Prog_ret].
  unfold mret, Prog_ret. rewrite IH; [|done]. cbn [fst snd]. by destruct (decide (n = 0%nat)).
Qed.

(** Nothing else of the loop's state or of the backend changes. *)
Lemma calls_then {A} (m : L A) (n : nat) cp b : calling cp ->
  (calls_meanwhile n ;; m) cp b = m (if decide (n = 0%nat) then cp.1 else set_processingPending true cp.1, cp.2) b.
Proof. intros Hc. unfold mbind, Prog_bind. by rewrite calls_meanwhile_run. Qed.

Lemma calls_meanwhile_wp (n : nat) (Q : outcome unit -> Client * Pass -> B -> Prop) cp b : calling cp ->
  Q (Return tt) (if decide (n = 0%nat) then cp.1 else set_processingPending true cp.1, cp.2) b ->
  wp (calls_meanwhile n) Q cp b.
Proof. intros Hc HQ. unfold wp. by rewrite calls_meanwhile_run. Qed.

(** The loop ends, and the word of a call that came in is there at its end. *)
Lemma turns_end calls fuel cp b : calling cp ->
  sound b -> (pass_measure b cp.2 < fuel)%nat ->
  wp (turns self calls fuel) (fun r cp' _ => r <> Return None /\ calling cp' /\
    c_processingPending cp'.1 = c_processingPending cp.1 || negb (bool_decide (arrived self calls fuel cp b = 0%nat))) cp b.
Proof.
  revert calls cp b. induction fuel as [|fuel IH]; intros calls cp b Hc Hs Hm; [lia|]. cbn [turns arrived].
  apply wp_bind, calls_meanwhile_wp; [done|].
  rewrite (calls_then (turn self)) by done.
  set (n := hd 0%nat calls). set (cp1 := (_, _) : Client * Pass).
  assert (calling cp1) as Hc1 by (unfold cp1; by destruct (decide (n = 0%nat))).
  assert (c_processingPending cp1.1 = c_processingPending cp.1 || negb (bool_decide (n = 0%nat))) as Hp1.
  { unfold cp1. destruct (decide (n = 0%nat)); [rewrite bool_decide_true by done|rewrite bool_decide_false by done];
      cbn; by rewrite ?orb_false_r, ?orb_true_r. }
  assert (pass_measure b cp1.2 = pass_measure b cp.2) as Hm1 by done.
  apply wp_bind. pose proof (turn_decreases cp1 b Hs) as Hd. pose proof (turn_kept cp1 b) as Hk.
  unfold wp, pass_kept in *. cbn [fst] in Hk. destruct (turn self cp1 b) as [r [cp2 b2]]. cbn [fst snd] in Hk.
  destruct Hd as [Hs2 Hd]. destruct (calling_gate cp1 cp2 Hc1 Hk) as [Hc2 Hp2].
  destruct r as [[|]|e].
  - specialize (Hd eq_refl). specialize (IH (tl calls) cp2 b2 Hc2 Hs2 ltac:(lia)). unfold wp in IH.
    destruct (turns self (tl calls) fuel cp2 b2) as [r [cp3 b3]]. destruct IH as (Hr & Hc3 & Hp3). split_and!; [done..|].
    rewrite Hp3, Hp2, Hp1, <- orb_assoc. f_equal. repeat case_bool_decide; done || lia.
  - cbn [mret Prog_ret]. split_and!; [done..|]. by rewrite Hp2, Hp1, Nat.add_0_r.
  - split_and!; [done..|]. by rewrite Hp2, Hp1, Nat.add_0_r.
Qed.

(** C29: A pass of the drain loop ends.  Whatever waits in the queue, whatever
    is frozen, declined or failing, every turn that goes on either steps over
    an entry or a grant for the rest of the pass or closes the entry it
    claimed, so fuel above the number of open entries and grants is enough.
    However the pass ends, returning or throwing, the lock it took is given
    back; and however often the method was called meanwhile ([calls] says how
    often during each turn, [arrived] counts those before the loop was left), no
    call is forgotten: exactly one more pass is left to the event loop than the
    turns themselves left to it if there was such a call, none if there was not,
    and the flag of it is down again.  A call that finds a pass running only
    puts that flag up. *)
Theorem drain_ends calls c b fuel :
  sound b -> (size (open_ids b) + size (grants b) < fuel)%nat ->
  let start := (set_processingPending false (set_processingLock true c), new_pass) in
  let c2 := (turns self calls fuel start b).2.1.1 in
  let '(r, (c', b')) := processRequests self calls fuel c b in
  r <> Return None
  /\ (c_processingLock c = false -> c_processingLock c' = false)
  /\ (c_role c = controller -> c_admissionHalted c = false ->
       (c_processingLock c = true -> c' = set_processingPending true c /\ b' = b)
       /\ (c_processingLock c = false ->
            c_processingPending c' = false
            /\ c_passes c' = (c_passes c2 + if decide (arrived self calls fuel start b = 0) then 0 else 1)%nat)).
Proof.
  intros Hs Hf start c2. pose proof (turns_end calls fuel start b) as Ht. subst c2.
  unfold processRequests, enter_pass, finally, run_pass, leave_pass, pwhen, poke, modify_state, mret, Prog_ret, mbind, Prog_bind,
    get_state.
  destruct (decide (c_role c = worker)) as [Hw|Hw]; [by rewrite Hw|].
  destruct (c_admissionHalted c) eqn:Eh; [done|].
  destruct (c_processingLock c) eqn:El; [done|]. fold start.
  assert (pass_measure b start.2 < fuel)%nat as Hm by (unfold pass_measure; simpl; rewrite !difference_empty_L; lia).
  assert (calling start) as Hc by (split_and!; [exact Hw|exact Eh|done]).
  specialize (Ht Hc Hs Hm). unfold wp in Ht. destruct (turns self calls fuel start b) as [r [[c2 p2] b2]]. cbn [fst snd] in *.
  destruct Ht as (Hr & (_ & _ & Hl) & Hp).
  change (c_processingPending (set_processingLock false c2)) with (c_processingPending c2). rewrite Hp.
  destruct (decide (arrived self calls fuel start b = 0%nat)) as [E|E];
    [rewrite bool_decide_true in Hp |- * by done|rewrite bool_decide_false by done]; cbn; split_and!; try done; intros _ _.
  all: split; [done|]; intros _; split; [exact Hp || done|]; cbn; lia.
Qed.
End loop.
