(* ===== verification/Footprint.v ===== *)
(** * What a backend call may write

    Every operation of the memory backend writes the keys it is given and those
    it derives from them, and no other: a key outside its footprint keeps its
    entry, unless that entry had expired and the operation looked at it.  Two
    clients, or two grants, whose keys differ cannot disturb each other. *)
From S2P Require Import Prelude JsNumber JsString Shared SharedFacts MemoryStore StoreFacts.
From S2P Require Import TokenBucket Concurrency MultiLimit Queue Freeze Backend.

(** ** Operations within a set of keys *)

(** A key keeps its entry, or loses one that had expired. *)
Definition spared (now : num) (w w' : World) (k : string) : Prop :=
  store w' !! k = store w !! k
  \/ (store w' !! k = None /\ exists e, store w !! k = Some e /\ expired now e = true).

(** Writes only the keys in [K], and returns only values that satisfy [Q]. *)
Definition touches (K : string -> Prop) {A} (Q : A -> Prop) (m : M A) : Prop :=
  forall now w, (forall k, ~ K k -> spared now w (m now w).2 k)
                /\ forall a, (m now w).1 = Ok a -> Q a.

Abbreviation any := (fun _ => True).

Lemma spared_refl now w k : spared now w w k.
Proof. by left. Qed.

Lemma spared_trans now w1 w2 w3 k : spared now w1 w2 k -> spared now w2 w3 k -> spared now w1 w3 k.
Proof.
  intros [E12|(E12 & e & E1 & Hx)] [E23|(E23 & e' & E2 & Hx')].
  - left. congruence.
  - right. split; [done|]. exists e'. split; congruence.
  - right. split; [congruence|eauto].
  - congruence.
Qed.

Section rules.
Variable K : string -> Prop.

Lemma touches_bind {A B} (P : A -> Prop) (Q : B -> Prop) (m : M A) (f : A -> M B) :
  touches K P m -> (forall a, P a -> touches K Q (f a)) -> touches K Q (m ≫= f).
Proof.
  intros Hm Hf now w. rewrite bind_run. destruct (Hm now w) as [Hs Hp].
  destruct (m now w) as [[a|e] w1]; simpl in *; [|done].
  destruct (Hf a (Hp a eq_refl) now w1) as [Hs' Hq]. split; [|done].
  intros k Hk. eapply spared_trans; [by apply Hs|by apply Hs'].
Qed.

Lemma touches_ret {A} (Q : A -> Prop) (a : A) : Q a -> touches K Q (mret a).
Proof. intros Ha now w. split; [intros; apply spared_refl|by intros ? [= <-]]. Qed.
Lemma touches_throw {A} (Q : A -> Prop) e : touches K Q (throw e : M A).
Proof. intros now w. split; [intros; apply spared_refl|done]. Qed.
Lemma touches_lift {A} (r : result A) : touches K any (lift r).
Proof. intros now w. by split; [intros; apply spared_refl|]. Qed.
Lemma touches_date_now : touches K any date_now.
Proof. intros now w. by split; [intros; apply spared_refl|]. Qed.
Lemma touches_get_store : touches K any get_store.
Proof. intros now w. by split; [intros; apply spared_refl|]. Qed.
Lemma touches_modify f : (forall w, store (f w) = store w) -> touches K any (modify f).
Proof. intros Hf now w. split; [|done]. intros k _. left. simpl. by rewrite Hf. Qed.
Lemma touches_next_epoch : touches K any next_epoch.
Proof. intros now w. split; [|done]. intros k _. by left. Qed.

Lemma touches_put key e : K key -> touches K any (put key e).
Proof.
  intros Hk now w. split; [|done]. intros k Hn. left. simpl.
  apply lookup_insert_ne. by intros ->.
Qed.
Lemma touches_update key f : K key -> touches K any (update_entry key f).
Proof.
  intros Hk now w. split; [|done]. intros k Hn. left. simpl.
  apply lookup_alter_ne. by intros ->.
Qed.
Lemma touches_delete key : K key -> touches K any (store_delete key).
Proof.
  intros Hk now w. split; [|done]. intros k Hn. left. simpl.
  apply lookup_delete_ne. by intros ->.
Qed.

Lemma touches_live key : touches K any (live key).
Proof.
  intros now w. split; [|done]. intros k _. unfold live, mbind, M_bind, date_now, get_store, mret, M_ret.
  destruct (store w !! key) as [e|] eqn:E; [|by left].
  destruct (expired now e) eqn:Ex; [|by left]. simpl.
  destruct (decide (k = key)) as [->|Hne].
  - right. split; [apply lookup_delete_eq|eauto].
  - left. by apply lookup_delete_ne.
Qed.

Lemma touches_weaken {A} (Q Q' : A -> Prop) (m : M A) :
  touches K Q m -> (forall a, Q a -> Q' a) -> touches K Q' m.
Proof. intros Hm HQ now w. destruct (Hm now w) as [Hs Hp]. split; [done|]. intros a Ha. by apply HQ, Hp. Qed.

Lemma touches_mforeach {A} (P : A -> Prop) (l : list A) (f : A -> M unit) :
  Forall P l -> (forall a, P a -> touches K any (f a)) -> touches K any (mforeach l f).
Proof.
  intros Hl Hf. induction Hl; simpl; [by apply touches_ret|].
  eapply touches_bind; [by apply Hf|done].
Qed.
Lemma touches_mcollect {A B} (P : A -> Prop) (Q : B -> Prop) (l : list A) (f : A -> M B) :
  Forall P l -> (forall a, P a -> touches K Q (f a)) -> touches K (Forall Q) (mcollect l f).
Proof.
  intros Hl Hf. induction Hl; simpl; [by apply touches_ret|].
  eapply touches_bind; [by apply Hf|intros b Hb]. eapply touches_bind; [done|intros bs Hbs].
  apply touches_ret. by constructor.
Qed.
Lemma touches_mfold {A B} (f : A -> B -> M A) (l : list B) :
  (forall a b, touches K any (f a b)) -> forall a, touches K any (mfold f a l).
Proof.
  intros Hf. induction l; intros a0; simpl; [by apply touches_ret|].
  eapply touches_bind; [apply Hf|auto].
Qed.
Lemma touches_mwhen b (m : M unit) : touches K any m -> touches K any (mwhen b m).
Proof. intros Hm. destruct b; [done|by apply touches_ret]. Qed.
End rules.

Create HintDb touches.

(** Follow the program; the keys it writes are left to [auto]. *)
Ltac touch_step :=
  lazymatch goal with
  | |- touches _ _ (_ ≫= _) => eapply (touches_bind _ any); [|intros ? _]
  | |- touches _ _ (mret _) => apply touches_ret
  | |- touches _ _ (throw _) => apply touches_throw
  | |- touches _ _ (lift _) => apply touches_lift
  | |- touches _ _ date_now => apply touches_date_now
  | |- touches _ _ get_store => apply touches_get_store
  | |- touches _ _ next_epoch => apply touches_next_epoch
  | |- touches _ _ (live _) => apply touches_live
  | |- touches _ _ (put _ _) => apply touches_put
  | |- touches _ _ (update_entry _ _) => apply touches_update
  | |- touches _ _ (store_delete _) => apply touches_delete
  | |- touches _ _ (mwhen _ _) => apply touches_mwhen
  | |- touches _ _ (mfold _ _ _) => apply touches_mfold; intros ? ?
  | |- touches _ _ (if ?x then _ else _) => destruct x
  | |- touches _ _ (match ?x with _ => _ end) => destruct x
  | |- touches _ _ _ => solve [auto 3 with touches]
  | |- True => exact I
  end.
Ltac touch := repeat (intros; touch_step); auto.

Section primitives.
Variable K : string -> Prop.

Lemma touches_entry key : K key -> touches K any (entry key).
Proof. unfold entry. touch. Qed.
Local Hint Resolve touches_entry : touches.
Lemma touches_hash key : K key -> touches K any (hash key).
Proof. unfold hash. touch. Qed.
Lemma touches_zset key : K key -> touches K any (zset key).
Proof. unfold zset. touch. Qed.
Lemma touches_setOf key : K key -> touches K any (setOf key).
Proof. unfold setOf. touch. Qed.
Lemma touches_expire key t : K key -> touches K any (expire key t).
Proof. unfold expire. touch. Qed.
Lemma touches_dropIfEmpty key : K key -> touches K any (dropIfEmpty key).
Proof. unfold dropIfEmpty. touch. Qed.
Lemma touches_live_zset key : touches K any (live_zset key).
Proof. unfold live_zset. touch. Qed.
Lemma touches_live_hash key : touches K any (live_hash key).
Proof. unfold live_hash. touch. Qed.
Lemma touches_live_set key : touches K any (live_set key).
Proof. unfold live_set. touch. Qed.
Lemma touches_live_str key : touches K any (live_str key).
Proof. unfold live_str. touch. Qed.
Local Hint Resolve touches_live_zset touches_live_hash touches_live_set touches_live_str : touches.
Lemma touches_sorted key : touches K any (sorted key).
Proof. unfold sorted. touch. Qed.
Lemma touches_hget key f : touches K any (hget key f).
Proof. unfold hget. touch. Qed.
Lemma touches_hash_set key f v : K key -> touches K any (hash_set key f v).
Proof. apply touches_update. Qed.
Lemma touches_hash_delete key f : K key -> touches K any (hash_delete key f).
Proof. apply touches_update. Qed.
Lemma touches_zset_set key m s : K key -> touches K any (zset_set key m s).
Proof. apply touches_update. Qed.
Lemma touches_zset_delete key m : K key -> touches K any (zset_delete key m).
Proof. apply touches_update. Qed.
Lemma touches_set_add key m : K key -> touches K any (set_add key m).
Proof. apply touches_update. Qed.
Lemma touches_set_delete key m : K key -> touches K any (set_delete key m).
Proof. apply touches_update. Qed.
Local Hint Resolve touches_dropIfEmpty touches_set_delete : touches.
Lemma touches_removeMember key m : K key -> touches K any (removeMember key m).
Proof. unfold removeMember. touch. Qed.
End primitives.

#[export] Hint Resolve touches_entry touches_hash touches_zset touches_setOf touches_expire
  touches_dropIfEmpty touches_live_zset touches_live_hash touches_live_set touches_live_str
  touches_sorted touches_hget touches_hash_set touches_hash_delete touches_zset_set
  touches_zset_delete touches_set_add touches_set_delete touches_removeMember : touches.

(** ** Footprints *)

Definition mark_key (key : string) (mark : option ClaimMark) (k : string) : Prop :=
  exists m, mark = Some m /\ k = claimMarkKey key (mark_id m).
Definition bucket_keys (key : string) (mark : option ClaimMark) (k : string) : Prop :=
  k = key \/ mark_key key mark k.
Definition slot_keys (key k : string) : Prop := k = key \/ k = costs_key key.
Definition spec_keys (s : MultiLimitSpec) (k : string) : Prop :=
  match s with
  | TokenBucketSpec _ _ key _ mark => bucket_keys key mark k
  | ConcurrencySpec _ _ key _ _ => slot_keys key k
  end.
(** A queue's sorted set, and the metadata and tombstones under its prefix. *)
Definition queue_keys (queueKey prefix k : string) : Prop :=
  k = queueKey \/ exists id, k = metadata_key prefix id.

Definition op_key (op : BatchOp) (k : string) : Prop :=
  match op with
  | BSet key _ _ | BDel key | BExpire key _ | BSadd key _ | BSrem key _ | BHset key _ _ => k = key
  | BPublish _ _ => False
  end.

(** The keys a call may write. *)
Definition footprint {A} (c : call A) (k : string) : Prop :=
  match c with
  | CSet key _ _ | CHset key _ _ | CSadd key _ | CSrem key _ => k = key
  | CAcquireLock key _ _ | CReleaseLock key _ => k = key
  | CDel keys => k ∈ keys
  | CBatch ops => exists op, op ∈ ops /\ op_key op k
  | CAcquireTokens key _ _ mark => bucket_keys key mark k
  | CResetTokenBucket key _ | CEmptyTokenBucket key _ | CRefundTokens key _ _ _ => k = key
  | CSettleTokens specs =>
      exists s, s ∈ specs /\ (k = ss_key s \/ k = claimMarkKey (ss_key s) (ss_markId s))
  | CTryAdmitImmediately _ key _ _ _ _ mark => bucket_keys key mark k
  | CAcquireMultiLimit specs | CReleaseMultiLimit specs | CTryAdmitMultiLimit _ _ specs _ =>
      exists s, s ∈ specs /\ spec_keys s k
  | CAcquireConcurrency key _ _ _ | CAcquireQueuedConcurrency key _ _ _ _
  | CTryAdmitConcurrency _ key _ _ _ _ _ | CReleaseConcurrency key _
  | CTouchConcurrency key _ _ | CGetConcurrencyState key _ | CClearConcurrency key => slot_keys key k
  | CTouchClaimMark key markId _ => k = claimMarkKey key markId
  | CAddRequest q p _ _ | CGetNextRequest q p _ _ | CUpdateRequest q p _ _
  | CRemoveRequest q p _ _ | CCleanupOrphanedRequests q p _ _ => queue_keys q p k
  | CConfirmRequest p id _ => k = metadata_key p id
  | CSetFreezeState key _ _ _ | CArmFreeze key _ _ _ | CClearFreezeState key => k = key
  | CUpdateThawProgress key _ _ => k = key \/ k = completions_key key
  | CTryStartThawRequest fg _ p id _ _ => k = fg \/ k = metadata_key p id
  | CCleanupStaleFrozenGrants fg _ _ _ => k = fg
  | CGetInstances s _ _ => k = s
  | _ => False
  end.

(** ** Every operation stays within its footprint *)

Section buckets.
Variable K : string -> Prop.

Lemma touches_refill key config now : touches K any (refill key config now).
Proof. unfold refill. touch. Qed.
Lemma touches_writeBucket key s t c : K key -> touches K any (writeBucket key s t c).
Proof. unfold writeBucket. touch. Qed.
Lemma touches_blocks fk now : touches K any (freezeBlocksAdmission fk now).
Proof. unfold freezeBlocksAdmission. touch. Qed.
Lemma touches_emptied fk now : touches K any (freezeEmptiedBucket fk now).
Proof. unfold freezeEmptiedBucket. touch. Qed.
Local Hint Resolve touches_refill touches_writeBucket touches_blocks touches_emptied : touches.

Lemma touches_writeMark key m cost s :
  K key -> K (claimMarkKey key (mark_id m)) -> touches K any (writeMark key m cost s).
Proof. unfold writeMark. touch. Qed.

Lemma touches_claimMark mark :
  touches K (fun m' => mark_id <$> m' = mark_id <$> mark) (claimMark mark).
Proof.
  destruct mark as [m|]; simpl; [|by apply touches_ret].
  eapply (touches_bind _ any); [apply touches_lift|intros t _]. by apply touches_ret.
Qed.

Lemma touches_mark_opt key mark mark' cost s :
  K key -> (forall k, mark_key key mark k -> K k) -> mark_id <$> mark' = mark_id <$> mark ->
  touches K any (write_mark_opt key mark' cost s).
Proof.
  intros Hk Hm E. destruct mark' as [m'|]; simpl; [|by apply touches_ret].
  destruct mark as [m|]; [|done]. injection E as E.
  apply touches_writeMark; [done|]. apply Hm. exists m. by rewrite E.
Qed.

Lemma touches_acquireTokens key cost config mark :
  (forall k, bucket_keys key mark k -> K k) -> touches K any (acquireTokens key cost config mark).
Proof.
  intros HK. assert (K key) by (apply HK; by left). unfold acquireTokens.
  eapply touches_bind; [apply touches_claimMark|intros mark' E].
  touch. eapply touches_mark_opt; [done| |exact E]. intros k Hk. apply HK. by right.
Qed.

Lemma touches_bumpGeneration key : K key -> touches K any (bumpGeneration key).
Proof. unfold bumpGeneration. touch. Qed.
Local Hint Resolve touches_bumpGeneration : touches.
Lemma touches_resetTokenBucket key m : K key -> touches K any (resetTokenBucket key m).
Proof. unfold resetTokenBucket. touch. Qed.
Lemma touches_emptyTokenBucket key c : K key -> touches K any (emptyTokenBucket key c).
Proof. unfold emptyTokenBucket. touch. Qed.
Lemma touches_creditTokens key cost m fk : K key -> touches K any (creditTokens key cost m fk).
Proof. unfold creditTokens. touch. Qed.

Lemma touches_settle_one now s :
  K (ss_key s) -> K (claimMarkKey (ss_key s) (ss_markId s)) -> touches K any (settle_one now s).
Proof. unfold settle_one. touch. Qed.

Lemma touches_tryAdmitImmediately q key fk cost config ttl mark :
  (forall k, bucket_keys key mark k -> K k) ->
  touches K any (tryAdmitImmediately q key fk cost config ttl mark).
Proof.
  intros HK. assert (K key) by (apply HK; by left). unfold tryAdmitImmediately.
  touch_step; [touch|]. eapply touches_bind; [apply touches_claimMark|intros mark' E].
  touch. eapply touches_mark_opt; [done| |exact E]. intros k Hk. apply HK. by right.
Qed.
End buckets.

#[export] Hint Resolve touches_refill touches_writeBucket touches_blocks touches_emptied
  touches_bumpGeneration touches_creditTokens : touches.

Section slots.
Variable K : string -> Prop.

Lemma touches_reap key t : (forall k, slot_keys key k -> K k) -> touches K any (reapConcurrency key t).
Proof.
  intros HK. assert (K key) by (apply HK; by left). assert (K (costs_key key)) by (apply HK; by right).
  unfold reapConcurrency. touch. apply (touches_mforeach _ any); [by apply Forall_true|]. touch.
Qed.
Lemma touches_concurrencyCost key e : touches K any (concurrencyCost key e).
Proof. unfold concurrencyCost. touch. Qed.
Lemma touches_claimSlot key id cost now t :
  (forall k, slot_keys key k -> K k) -> touches K any (claimSlot key id cost now t).
Proof.
  intros HK. assert (K key) by (apply HK; by left). assert (K (costs_key key)) by (apply HK; by right).
  unfold claimSlot. touch.
Qed.
Lemma touches_releaseSlot key id :
  (forall k, slot_keys key k -> K k) -> touches K any (releaseSlot key id).
Proof.
  intros HK. assert (K key) by (apply HK; by left). assert (K (costs_key key)) by (apply HK; by right).
  unfold releaseSlot. touch.
Qed.
Local Hint Resolve touches_reap touches_concurrencyCost touches_claimSlot touches_releaseSlot : touches.
Lemma touches_acquireConcurrency key cost id config :
  (forall k, slot_keys key k -> K k) -> touches K any (acquireConcurrency key cost id config).
Proof. intros HK. unfold acquireConcurrency. touch. Qed.
Local Hint Resolve touches_acquireConcurrency : touches.
Lemma touches_acquireQueued key mk cost id config :
  (forall k, slot_keys key k -> K k) -> touches K any (acquireQueuedConcurrency key mk cost id config).
Proof. intros HK. unfold acquireQueuedConcurrency. touch. Qed.
Lemma touches_tryAdmitConcurrency q key fk cost id config ttl :
  (forall k, slot_keys key k -> K k) -> touches K any (tryAdmitConcurrency q key fk cost id config ttl).
Proof. intros HK. unfold tryAdmitConcurrency. touch. Qed.
Lemma touches_touchConcurrency key id ttl :
  (forall k, slot_keys key k -> K k) -> touches K any (touchConcurrency key id ttl).
Proof.
  intros HK. assert (K key) by (apply HK; by left). assert (K (costs_key key)) by (apply HK; by right).
  unfold touchConcurrency. touch.
Qed.
Lemma touches_getConcurrencyState key t :
  (forall k, slot_keys key k -> K k) -> touches K any (getConcurrencyState key t).
Proof. intros HK. unfold getConcurrencyState. touch. Qed.
Lemma touches_clearConcurrency key :
  (forall k, slot_keys key k -> K k) -> touches K any (clearConcurrency key).
Proof.
  intros HK. assert (K key) by (apply HK; by left). assert (K (costs_key key)) by (apply HK; by right).
  unfold clearConcurrency. touch.
Qed.
End slots.

#[export] Hint Resolve touches_reap touches_concurrencyCost touches_claimSlot touches_releaseSlot
  touches_acquireConcurrency : touches.

Section several.
Variable K : string -> Prop.

Definition spec_in (s : MultiLimitSpec) : Prop := forall k, spec_keys s k -> K k.

Lemma touches_claimMarks specs :
  Forall spec_in specs -> touches K (Forall spec_in) (claimMarks specs).
Proof.
  intros Hs. unfold claimMarks. eapply touches_mcollect; [exact Hs|]. intros s Hin.
  destruct s as [fk cost key config [m|]|]; unfold claimMarks_one; [|by apply touches_ret..].
  eapply (touches_bind K (fun m' => mark_id <$> m' = mark_id <$> Some m));
    [apply touches_claimMark|intros mark' E]. apply touches_ret.
  intros k Hk. apply Hin. destruct Hk as [Hk|(m' & -> & ->)]; [by left|right].
  injection E as E. exists m. by rewrite E.
Qed.

Definition bucket_in (b : PlannedBucket) : Prop := forall k, bucket_keys (pb_key b) (pb_mark b) k -> K k.
Definition slot_in (s : PlannedSlot) : Prop := forall k, slot_keys (ps_key s) k -> K k.
Definition plan_in (p : Plan) : Prop := Forall bucket_in (pl_buckets p) /\ Forall slot_in (pl_slots p).

Lemma touches_plan_step now p s : plan_in p -> spec_in s -> touches K plan_in (plan_step now p s).
Proof.
  intros [Hb Hs] Hin. destruct s as [fk cost key config mark|fk cost key config slotId]; simpl.
  - destruct (unusableBudget _ _); [by apply touches_ret|].
    eapply (touches_bind _ any); [apply touches_refill|intros st _].
    assert (forall b, pb_key b = key -> pb_mark b = mark ->
      plan_in (plan_add_bucket p b)) as Hadd.
    { intros b <- <-. split; [|done]. simpl. apply Forall_app_2; [done|]. by repeat constructor. }
    destruct (coversCost _ _ _); apply touches_ret; [by apply Hadd|].
    split; [|done]. by apply Hadd.
  - destruct (slot_error _ _); [by apply touches_ret|].
    do 2 (eapply (touches_bind _ any); [auto with touches|intros ? _]).
    destruct (_ >? _)%num; apply touches_ret; [done|]. split; [done|]. simpl.
    apply Forall_app_2; [done|]. by repeat constructor.
Qed.

Lemma touches_plan_loop now p specs :
  plan_in p -> Forall spec_in specs -> touches K plan_in (plan_loop now p specs).
Proof.
  intros Hp Hs. revert p Hp. induction Hs as [|s specs Hin Hs IH]; intros p Hp; simpl;
    [by apply touches_ret|].
  eapply touches_bind; [by apply touches_plan_step|]. intros p' Hp'.
  destruct (pl_error p'); [by apply touches_ret|by apply IH].
Qed.

Lemma touches_persist p ttl : plan_in p -> touches K any (persistRefills p ttl).
Proof.
  intros [Hb _]. apply (touches_mforeach _ bucket_in); [done|]. intros b Hin.
  apply touches_writeBucket, Hin. by left.
Qed.

Lemma touches_commit p now ttl : plan_in p -> touches K any (commit_plan p now ttl).
Proof.
  intros [Hb Hs]. unfold commit_plan. eapply (touches_bind _ any).
  - apply (touches_mforeach _ bucket_in); [done|]. intros b Hin. unfold commitBucket.
    assert (K (pb_key b)) by (apply Hin; by left).
    touch_step; [auto with touches|]. eapply touches_mark_opt; [done| |done].
    intros k Hk. apply Hin. by right.
  - intros _ _. apply (touches_mforeach _ slot_in); [done|]. intros s Hin. auto with touches.
Qed.
Local Hint Resolve touches_persist touches_commit : touches.

Lemma touches_acquireMultiLimit specs :
  Forall spec_in specs -> touches K any (acquireMultiLimit specs).
Proof.
  intros Hs. unfold acquireMultiLimit.
  eapply touches_bind; [by apply touches_claimMarks|intros claims Hc]. touch_step; [touch|].
  eapply touches_bind; [apply touches_plan_loop; [by repeat constructor|exact Hc]|intros p Hp].
  touch.
Qed.

Lemma touches_releaseMultiLimit specs :
  Forall spec_in specs -> touches K any (releaseMultiLimit specs).
Proof.
  intros Hs. apply (touches_mforeach _ spec_in); [done|]. intros [fk cost key config mark|fk cost key config id] Hin; simpl.
  - apply touches_creditTokens, Hin. by left.
  - by apply touches_releaseSlot.
Qed.

Lemma touches_any_freeze ks now : touches K any (any_freeze_blocks ks now).
Proof. induction ks; simpl; touch. Qed.
Local Hint Resolve touches_any_freeze : touches.

Lemma touches_tryAdmitMultiLimit q fks specs ttl :
  Forall spec_in specs -> touches K any (tryAdmitMultiLimit q fks specs ttl).
Proof.
  intros Hs. unfold tryAdmitMultiLimit. touch_step; [touch|].
  eapply touches_bind; [by apply touches_claimMarks|intros claims Hc].
  touch_step; [touch|]. touch_step; [touch|]. touch_step; [touch|]. touch_step; [touch|].
  touch_step; [touch|].
  eapply touches_bind; [apply touches_plan_loop; [by repeat constructor|exact Hc]|intros p Hp].
  touch.
Qed.
End several.

Section queue.
Variable K : string -> Prop.

Lemma touches_set_opt key f v : K key -> touches K any (set_opt key f v).
Proof. unfold set_opt. touch. Qed.
Lemma touches_drop_member q id : K q -> touches K any (drop_member q id).
Proof. unfold drop_member. touch. Qed.
Local Hint Resolve touches_set_opt touches_drop_member : touches.

Lemma touches_confirm p id s : K (metadata_key p id) -> touches K any (confirmRequest p id s).
Proof. unfold confirmRequest. touch. Qed.

Lemma touches_getRequest p id : touches K any (getRequest p id).
Proof. unfold getRequest, hgetall. touch. Qed.

Section keys.
Variables q p : string.
Hypothesis HK : forall k, queue_keys q p k -> K k.

Lemma queue_in : K q.
Proof. apply HK. by left. Qed.
Lemma metadata_in id : K (metadata_key p id).
Proof. apply HK. right. by exists id. Qed.
Lemma tombstone_in id : K (tombstoneKey p id).
Proof. apply HK. right. by exists (id +:+ ":removed"). Qed.
Local Hint Resolve queue_in metadata_in tombstone_in : core touches.

Lemma touches_addRequest r ttl : touches K any (addRequest q p r ttl).
Proof. unfold addRequest. touch. Qed.
Lemma touches_next_in ids gs rs now : touches K any (next_in ids p gs rs now).
Proof. induction ids as [|id ids IH]; simpl; touch. Qed.
Local Hint Resolve touches_next_in : touches.
Lemma touches_getNextRequest gs rs : touches K any (getNextRequest q p gs rs).
Proof. unfold getNextRequest. touch. Qed.
Lemma touches_updateRequest id u : touches K any (updateRequest q p id u).
Proof. unfold updateRequest. touch. Qed.
Lemma touches_removeRequest id ttl : touches K any (removeRequest q p id ttl).
Proof. unfold removeRequest. touch. Qed.
Lemma touches_cleanup alive me : touches K any (cleanupOrphanedRequests q p alive me).
Proof. unfold cleanupOrphanedRequests, cleanup_step. touch. Qed.
End keys.

Lemma touches_getAll q p : touches K any (getAllRequests q p).
Proof. unfold getAllRequests. touch. Qed.
Lemma touches_stats q p : touches K any (getQueueStats q p).
Proof.
  unfold getQueueStats. touch. unfold stats_step. touch.
Qed.
End queue.

Section freezes.
Variable K : string -> Prop.

Lemma touches_merged key mode now u c e : touches K any (merged_freeze key mode now u c e).
Proof. unfold merged_freeze. touch. Qed.
Local Hint Resolve touches_merged : touches.
Lemma touches_writeFreeze key u c m e : K key -> touches K any (writeFreezeState key u c m e).
Proof. unfold writeFreezeState. touch. Qed.
Lemma touches_readFreeze key now : touches K any (readFreezeState key now).
Proof. unfold readFreezeState. touch. Qed.
Local Hint Resolve touches_writeFreeze touches_readFreeze : touches.
Lemma touches_setFreezeState key u c e : K key -> touches K any (setFreezeState key u c e).
Proof. unfold setFreezeState. touch. Qed.
Lemma touches_armFreeze key u c e : K key -> touches K any (armFreeze key u c e).
Proof. unfold armFreeze. touch. Qed.
Lemma touches_updateThaw key s id :
  K key -> K (completions_key key) -> touches K any (updateThawProgress key s id).
Proof. unfold updateThawProgress. touch. Qed.
Lemma touches_canProcess key : touches K any (canProcessRequest key).
Proof. unfold canProcessRequest. touch. Qed.
Lemma touches_isFrozen key : touches K any (isFrozen key).
Proof. unfold isFrozen. touch. Qed.
Lemma touches_competing ids p e g any_ now : touches K any (any_competing ids p e g any_ now).
Proof. induction ids as [|id ids IH]; simpl; [touch|]. unfold isCompetingProbe. touch. Qed.
Local Hint Resolve touches_competing : touches.
Lemma touches_hasThaw q p g a : touches K any (hasThawRequestInProgress q p g a).
Proof. unfold hasThawRequestInProgress. touch. Qed.
Lemma touches_tryStartThaw fg q p id g a :
  K fg -> K (metadata_key p id) -> touches K any (tryStartThawRequest fg q p id g a).
Proof. unfold tryStartThawRequest. touch. Qed.
Lemma touches_stale fg q p fs : K fg -> touches K any (cleanupStaleFrozenGrants fg q p fs).
Proof. unfold cleanupStaleFrozenGrants, probing_step, stale_step. touch. Qed.
End freezes.

Section misc.
Variable K : string -> Prop.

Lemma touches_optional_ttl t : touches K any (optional_ttl t).
Proof. unfold optional_ttl. touch. Qed.
Lemma touches_emit ch m : touches K any (emit ch m).
Proof. by apply touches_modify. Qed.
Local Hint Resolve touches_optional_ttl touches_emit : touches.
Lemma touches_writeString key v t : K key -> touches K any (writeString key v t).
Proof. unfold writeString. touch. Qed.
Lemma touches_writeHash key fs t : K key -> touches K any (writeHash key fs t).
Proof.
  unfold writeHash. touch. apply (touches_mforeach _ any); [by apply Forall_true|]. touch.
Qed.
Lemma touches_sadd key m : K key -> touches K any (sadd key m).
Proof. unfold sadd. touch. Qed.
Local Hint Resolve touches_writeString touches_writeHash touches_sadd : touches.
Lemma touches_run_op op : (forall k, op_key op k -> K k) -> touches K any (run_op op).
Proof. intros HK. destruct op; simpl in *; touch. Qed.
Lemma touches_batch ops :
  Forall (fun op => forall k, op_key op k -> K k) ops -> touches K any (batch ops).
Proof.
  intros HK. unfold batch. touch_step.
  - apply (touches_mforeach _ any); [by apply Forall_true|]. touch.
  - eapply touches_mforeach; [exact HK|]. intros op Hop. by apply touches_run_op.
Qed.
Lemma touches_getInstances s p me : K s -> touches K any (getInstances s p me).
Proof. unfold getInstances. touch. Qed.
Lemma touches_acquireLock key t ms : K key -> touches K any (acquireLock key t ms).
Proof. unfold acquireLock. touch. Qed.
Lemma touches_releaseLock key t : K key -> touches K any (releaseLock key t).
Proof. unfold releaseLock. touch. Qed.
Lemma touches_hgetall key : touches K any (hgetall key).
Proof. unfold hgetall. touch. Qed.
Lemma touches_smembers key : touches K any (smembers key).
Proof. unfold smembers. touch. Qed.
Lemma touches_getTokenBucketState key c : touches K any (getTokenBucketState key c).
Proof. unfold getTokenBucketState. touch. Qed.
Lemma touches_tryAdmitNoLimit q fk : touches K any (tryAdmitNoLimit q fk).
Proof. unfold tryAdmitNoLimit. touch. Qed.
Lemma touches_touchClaimMark key m t : K (claimMarkKey key m) -> touches K any (touchClaimMark key m t).
Proof. unfold touchClaimMark. touch. Qed.
Lemma touches_getQueueLength q : touches K any (getQueueLength q).
Proof. unfold getQueueLength. touch. Qed.
Lemma touches_getFreezeState key : touches K any (getFreezeState key).
Proof. unfold getFreezeState. touch_step; [touch|]. apply touches_readFreeze. Qed.
Lemma touches_del keys : Forall K keys -> touches K any (del keys).
Proof. intros HK. eapply touches_mforeach; [exact HK|]. intros k. apply touches_delete. Qed.
Lemma touches_settleTokens specs :
  Forall (fun s => K (ss_key s) /\ K (claimMarkKey (ss_key s) (ss_markId s))) specs ->
  touches K any (settleTokens specs).
Proof.
  intros HK. unfold settleTokens. touch_step; [touch|].
  eapply touches_weaken; [|done]. eapply (touches_mcollect _ _ any); [exact HK|].
  intros s [H1 H2]. by apply touches_settle_one.
Qed.
End misc.

Lemma exec_touches {A} (c : call A) : touches (footprint c) any (exec c).
Proof.
  destruct c; simpl.
  all: first
    [ apply touches_writeString | apply touches_writeHash | apply touches_sadd
    | apply touches_removeMember | apply touches_acquireLock | apply touches_releaseLock
    | apply touches_emit | apply touches_hgetall | apply touches_smembers
    | apply touches_del | apply touches_batch | apply touches_live_str
    | apply touches_acquireTokens | apply touches_resetTokenBucket | apply touches_emptyTokenBucket
    | apply touches_creditTokens | apply touches_tryAdmitImmediately | apply touches_tryAdmitNoLimit
    | apply touches_getTokenBucketState | apply touches_settleTokens | apply touches_touchClaimMark
    | apply touches_acquireMultiLimit | apply touches_releaseMultiLimit
    | apply touches_tryAdmitMultiLimit | apply touches_acquireConcurrency
    | apply touches_acquireQueued | apply touches_tryAdmitConcurrency | apply touches_releaseSlot
    | apply touches_touchConcurrency | apply touches_getConcurrencyState
    | apply touches_clearConcurrency | apply touches_getQueueLength
    | eapply touches_addRequest | eapply touches_getNextRequest | eapply touches_updateRequest
    | eapply touches_removeRequest | eapply touches_cleanup | apply touches_confirm
    | apply touches_getRequest | apply touches_stats | apply touches_getAll
    | apply touches_setFreezeState | apply touches_armFreeze | apply touches_updateThaw
    | apply touches_canProcess | apply touches_isFrozen | apply touches_getFreezeState
    | apply touches_hasThaw | apply touches_tryStartThaw | apply touches_stale
    | apply touches_getInstances | apply touches_delete | apply touches_date_now
    | apply touches_modify; intros; by repeat case_match ].
  all: cbn [footprint]; try done; try (by left); try (by right); try (by right; eexists).
  all: apply list.Forall_forall; intros x Hx; unfold spec_in; try split; intros; cbn [footprint]; eauto.
Qed.

(** C30: No backend call writes a key outside its footprint: any other key keeps
    its entry, unless the entry had expired.  Whatever one client, grant or
    budget does, the keys of another are as they were. *)
Theorem call_footprint {A} (c : call A) now w k :
  ~ footprint c k -> spared now w (exec c now w).2 k.
Proof. intros Hk. by apply (proj1 (exec_touches c now w)). Qed.

(** Two grants of one client: a claim on the first leaves the second's bucket. *)
Lemma call_footprint_witness :
  spared (int 5) MemoryBackend
    (exec (CAcquireTokens "app:c:grant:a:rateLimit:default" (int 1)
             {| maxTokens := int 2; tokensToAdd := int 1; interval := int 1000 |} None)
       (int 5) MemoryBackend).2
    "app:c:grant:b:rateLimit:default".
Proof.
  apply (call_footprint (CAcquireTokens "app:c:grant:a:rateLimit:default" (int 1)
             {| maxTokens := int 2; tokensToAdd := int 1; interval := int 1000 |} None)).
  intros [E|(m & Em & _)]; discriminate.
Defined.
