(* ===== verification/MemoryDrain.v ===== *)
(** * The memory backend keeps the queue's promises

    The memory backend as a client's backend, at one instant: the state is the
    clock reading and the store.  Its queue is a [DrainableQueue], the laws of
    [DrainSpec] hold of it, and the claims of a metered client are quiet. *)
From S2P Require Import Prelude JsNumber JsString Json Value RateLimit Cost Timers.
From S2P Require Import Shared SharedFacts MemoryStore StoreFacts TokenBucket Concurrency MultiLimit Queue Freeze Backend.
From S2P Require Import Observe Election Requests Client Metered Drain DrainSpec Footprint.

(** ** The server *)

Definition MemoryServer : Type := num * World.

Definition outcome_of {A} (r : result A) : outcome A :=
  match r with Ok a => Return a | Throw e => Raise (JsError e) end.

#[export] Instance memory_backend : DianemoBackend MemoryServer := {|
  serve := fun A c b => let '(r, w) := exec c b.1 b.2 in (outcome_of r, (b.1, w));
  implements := fun _ => true
|}.

Lemma serve_run {A} (c : call A) (b : MemoryServer) :
  (serve c b).2 = ((b.1, (exec c b.1 b.2).2) : MemoryServer) /\ (serve c b).1 = outcome_of (exec c b.1 b.2).1.
Proof. cbn [serve memory_backend]. by destruct (exec c b.1 b.2). Qed.

Lemma spared_live now w w' k : spared now w w' k -> live_at now w' k = live_at now w k.
Proof.
  unfold live_at. intros [->|(-> & e & -> & ->)]; done.
Qed.

(** ** Keys *)

Section keys.
Variable self : ClientData.
Local Notation q := (getQueueKey self).
Local Notation p := (getMetadataKeyPrefix self).

(** The queue's own keys. *)
Definition protected (k : string) : Prop := k = q \/ exists id, k = metadata_key p id.

(** The client's keys that are no part of its queue: under its namespace, with
    another first letter. *)
Definition other_key (k : string) : Prop :=
  exists c t, k = k_namespace self +:+ String ":" (String c t) /\ c <> "q"%char
              /\ (c = "r"%char -> exists t', t = String "a" t').

Lemma ns_inj (s t : string) : k_namespace self +:+ s = k_namespace self +:+ t -> s = t.
Proof. apply (inj (String.append (k_namespace self))). Qed.

Lemma metadata_text id : metadata_key p id = k_namespace self +:+ ":request:" +:+ id.
Proof.
  unfold metadata_key, getMetadataKeyPrefix. by rewrite <- string_app_assoc.
Qed.

Lemma other_not_protected k : other_key k -> ~ protected k.
Proof.
  intros (c & t & -> & Hq & Hr) [E|[id E]].
  - apply ns_inj in E. injection E as -> _. done.
  - rewrite metadata_text in E. apply ns_inj in E. injection E as -> E.
    destruct (Hr eq_refl) as [t' ->]. discriminate E.
Qed.

Lemma queue_not_metadata id : q <> metadata_key p id.
Proof. rewrite metadata_text. unfold getQueueKey. intros E%ns_inj. discriminate E. Qed.

Lemma metadata_inj id id' : metadata_key p id = metadata_key p id' -> id = id'.
Proof. rewrite !metadata_text. intros E%ns_inj. by injection E. Qed.

Lemma frozen_grants_other : other_key (getFrozenGrantsKey self).
Proof. exists "f"%char, "rozenGrants". split_and!; done. Qed.

Lemma other_app k s : other_key k -> other_key (k +:+ s).
Proof.
  intros (c & t & -> & Hq & Hr). exists c, (t +:+ s). split_and!; [|done|].
  - by rewrite <- string_app_assoc.
  - intros Hc. destruct (Hr Hc) as [t' ->]. by exists (t' +:+ s).
Qed.

Lemma grant_key_other c suffix g :
  c <> "q"%char -> (c = "r"%char -> exists t, suffix = String "a" t) ->
  other_key (grant_key self (String c suffix) g).
Proof.
  intros Hq Hr. unfold grant_key.
  assert (other_key (k_namespace self +:+ ":" +:+ String c suffix)) as Hb by by exists c, suffix.
  destruct g as [g|]; [|done]. destruct (_ || _); [done|].
  exists "g"%char, ("rant:" +:+ g +:+ ":" +:+ String c suffix). by split_and!.
Qed.

Lemma bucket_key_other name g : other_key (getBucketKey self name g).
Proof.
  unfold getBucketKey, getRateLimitKey. apply other_app, grant_key_other; [done|]. by eexists.
Qed.

Lemma slot_key_other name g : other_key (getSlotKey self name g).
Proof. unfold getSlotKey, getConcurrencyKey. by apply other_app, grant_key_other. Qed.
End keys.

(** ** The queue *)

Section queue.
Variable self : ClientData.
Local Notation q := (getQueueKey self).
Local Notation p := (getMetadataKeyPrefix self).

(** The hash of an entry, as it is read. *)
Definition entry_at (b : MemoryServer) (id : string) : option (gmap string string) :=
  hash_at b.1 b.2 (metadata_key p id).

Definition members (b : MemoryServer) : list string :=
  (default [] (zset_at b.1 b.2 q)).*1.

Definition takeable (h : gmap string string) : bool :=
  bool_decide (h !! "status" = Some "pending")
  || (bool_decide (h !! "status" = Some "inProgress") && bool_decide (is_Some (h !! "claimedAt"))).

(** An entry has the fields a claim reads back, and names its own member. *)
Definition good (id : string) (h : gmap string string) : Prop :=
  id <> "" /\ h !! "requestId" = Some id
  /\ (exists c, h !! "clientName" = Some c /\ c <> "")
  /\ (exists s, h !! "status" = Some s /\ s <> "")
  /\ is_Some (h !! "requestName").

(** What a claim stamped [s] leaves on its entry, while the lease has not run out. *)
Definition claimed_entry (now : num) (h : gmap string string) (s : num) : Prop :=
  h !! "status" = Some "inProgress"
  /\ (parseStoredNumber (h !! "claimedAt") NaN =? s)%num = true
  /\ claimLapsed (h !! "claimedAt") now = false.

#[export] Instance memory_queue : DrainableQueue MemoryServer self := {|
  sound := fun b =>
    (exists z, b.1 = int z /\ safe z)
    /\ forall id h, id ∈ members b -> entry_at b id = Some h -> good id h;
  open_ids := fun b =>
    list_to_set (filter (fun id => (takeable <$> entry_at b id) = Some true) (members b));
  grants := fun b =>
    list_to_set (omap (fun id => entry_at b id ≫= lookup "grantId") (members b));
  held := fun b id s => exists h, entry_at b id = Some h /\ claimed_entry b.1 h s
|}.

Lemma elem_of_open b id :
  id ∈ open_ids b <-> id ∈ members b /\ exists h, entry_at b id = Some h /\ takeable h = true.
Proof.
  cbn [open_ids memory_queue]. rewrite elem_of_list_to_set, list_elem_of_filter.
  destruct (entry_at b id) as [h|]; simpl; split.
  - intros [[= E] Hm]. eauto.
  - intros [Hm (h' & [= <-] & ->)]. by split.
  - by intros [? ?].
  - by intros (? & ? & ? & ?).
Qed.

Lemma elem_of_grants b g :
  g ∈ grants b <-> exists id h, id ∈ members b /\ entry_at b id = Some h /\ h !! "grantId" = Some g.
Proof.
  cbn [grants memory_queue]. rewrite elem_of_list_to_set, list_elem_of_omap. split.
  - intros (id & Hm & (h & Hh & Hg)%bind_Some). eauto.
  - intros (id & h & Hm & Hh & Hg). exists id. split; [done|]. by rewrite Hh.
Qed.

(** ** Operations that keep the entries *)

(** The fields other than the probe mark are as they were. *)
Definition alike (h h' : gmap string string) : Prop :=
  forall f, f <> "isThawRequest" -> h' !! f = h !! f.

(** Entries may go, and their probe marks change. *)
Definition calm (now : num) (w w' : World) : Prop :=
  members (now, w') ⊆ members (now, w)
  /\ forall id h', entry_at (now, w') id = Some h' ->
       exists h, entry_at (now, w) id = Some h /\ alike h h'.

Lemma calm_refl now w : calm now w w.
Proof. split; [done|]. intros id h Hh. exists h. by split. Qed.

Lemma calm_trans now w1 w2 w3 : calm now w1 w2 -> calm now w2 w3 -> calm now w1 w3.
Proof.
  intros [M12 E12] [M23 E23]. split; [set_solver|]. intros id h3 H3.
  destruct (E23 _ _ H3) as (h2 & H2 & A23). destruct (E12 _ _ H2) as (h1 & H1 & A12).
  exists h1. split; [done|]. intros f Hf. rewrite A23, A12; done.
Qed.

Lemma alike_takeable h h' : alike h h' -> takeable h' = takeable h.
Proof. intros Ha. unfold takeable. by rewrite !Ha. Qed.

Lemma alike_good id h h' : alike h h' -> good id h -> good id h'.
Proof. intros Ha Hg. unfold good. by rewrite !Ha. Qed.

Lemma calm_quiet now w w' : calm now w w' -> quiet (now, w) (now, w').
Proof.
  intros [Hm He] [Hz Hg]. split_and!; [split; [done|]|..].
  - intros id h' Hin Hh'. destruct (He _ _ Hh') as (h & Hh & Ha).
    eapply alike_good; [exact Ha|]. apply Hg; [by apply Hm|done].
  - intros id (Hin & h' & Hh' & Ht)%elem_of_open. apply elem_of_open. split; [by apply Hm|].
    destruct (He _ _ Hh') as (h & Hh & Ha). exists h. split; [done|]. by rewrite <- (alike_takeable h h').
  - intros g (id & h' & Hin & Hh' & Hgr)%elem_of_grants. apply elem_of_grants.
    destruct (He _ _ Hh') as (h & Hh & Ha). exists id, h. split_and!; [by apply Hm|done|].
    by rewrite <- Ha.
  - intros id s (h & Hh & Hc). destruct (entry_at (now, w') id) as [h'|] eqn:E.
    + left. destruct (He _ _ E) as (h0 & Hh0 & Ha). rewrite Hh in Hh0. injection Hh0 as <-.
      exists h'. split; [done|]. unfold claimed_entry in *. cbn [fst snd] in *. by rewrite !Ha.
    + right. intros (_ & h' & Hh' & _)%elem_of_open. congruence.
Qed.

(** Views decide everything: what spares the queue's keys is calm. *)
Lemma view_calm now w w' :
  (forall k, protected self k -> live_at now w' k = live_at now w k) -> calm now w w'.
Proof.
  intros Hv. assert (forall id, entry_at (now, w') id = entry_at (now, w) id) as He.
  { intros id. unfold entry_at, hash_at. cbn [fst snd]. rewrite Hv; [done|]. right. by exists id. }
  split.
  - unfold members, zset_at. cbn [fst snd]. rewrite (Hv q); [done|by left].
  - intros id h' Hh'. exists h'. rewrite <- He. by split.
Qed.

Lemma spared_calm now w w' :
  (forall k, protected self k -> spared now w w' k) -> calm now w w'.
Proof. intros Hs. apply view_calm. intros k Hk. by apply spared_live, Hs. Qed.

Lemma purge_calm now k w : calm now w (purge_key now k w).
Proof. apply view_calm. intros k' _. apply live_at_purge_key. Qed.

(** A call whose footprint is outside the queue. *)
Lemma outside_quiet {A} (c : call A) (b : MemoryServer) :
  (forall now w k, protected self k -> spared now w (exec c now w).2 k) -> quiet b (serve c b).2.
Proof.
  intros Hf. rewrite (proj1 (serve_run c b)). destruct b as [now w]. cbn [fst snd].
  apply calm_quiet, spared_calm. intros k Hk. by apply Hf.
Qed.

(** *** Operations that are calm *)

Definition calmM {A} (m : M A) : Prop := forall now w, calm now w (m now w).2.

Lemma calm_bind {A B} (m : M A) (f : A -> M B) : calmM m -> (forall a, calmM (f a)) -> calmM (m ≫= f).
Proof.
  intros Hm Hf now w. rewrite bind_run. specialize (Hm now w).
  destruct (m now w) as [[a|e] w1]; [|done]. eapply calm_trans; [exact Hm|apply Hf].
Qed.

Lemma calm_ret {A} (a : A) : calmM (mret a).
Proof. intros now w. apply calm_refl. Qed.

Lemma calm_touches K {A} (Q : A -> Prop) (m : M A) :
  touches K Q m -> (forall k, K k -> ~ protected self k) -> calmM m.
Proof.
  intros Hm HK now w. apply spared_calm. intros k Hk. apply (proj1 (Hm now w)). intros Hk'. by apply (HK k).
Qed.

(** Reads. *)
Lemma calm_reads {A} (m : M A) : touches (fun _ => False) any m -> calmM m.
Proof. intros Hm. eapply calm_touches; [exact Hm|done]. Qed.

Lemma calm_when b (m : M unit) : calmM m -> calmM (mwhen b m).
Proof. intros Hm. destruct b; [done|apply calm_ret]. Qed.

Lemma hash_at_update key f now w k :
  hash_at now (update_entry key (on_hash f) now w).2 k
  = if decide (k = key) then f <$> hash_at now w key else hash_at now w k.
Proof.
  unfold hash_at, update_entry, modify_store, modify. cbn [snd].
  rewrite live_at_alter by apply keeps_on_hash. case_decide; [|done]. subst k.
  destruct (live_at now w key) as [[? [?|] ? ? ?]|]; done.
Qed.

Lemma zset_at_hash_update key f now w k :
  zset_at now (update_entry key (on_hash f) now w).2 k = zset_at now w k.
Proof.
  unfold zset_at, update_entry, modify_store, modify. cbn [snd].
  rewrite live_at_alter by apply keeps_on_hash. case_decide; [|done]. subst k.
  destruct (live_at now w key) as [[? [?|] ? ? ?]|]; done.
Qed.

(** What a write through the hash of [id] leaves of every entry. *)
Lemma entry_at_update id f now w id' :
  entry_at (now, (update_entry (metadata_key p id) (on_hash f) now w).2) id'
  = if decide (id' = id) then f <$> entry_at (now, w) id else entry_at (now, w) id'.
Proof.
  unfold entry_at. cbn [fst snd]. rewrite hash_at_update.
  destruct (decide (id' = id)) as [->|Hne]; [by rewrite decide_True|].
  rewrite decide_False; [done|]. by intros ->%metadata_inj.
Qed.

Lemma members_update id f now w :
  members (now, (update_entry (metadata_key p id) (on_hash f) now w).2) = members (now, w).
Proof. unfold members. cbn [fst snd]. by rewrite zset_at_hash_update. Qed.

Lemma calm_mark id v : calmM (hash_set (metadata_key p id) "isThawRequest" v).
Proof.
  intros now w. unfold hash_set. split; [by rewrite members_update|].
  intros id' h'. rewrite entry_at_update. case_decide as E; [subst id'|].
  - intros (h & Hh & ->)%fmap_Some. exists h. split; [done|]. intros f Hf. by apply lookup_insert_ne.
  - intros Hh. exists h'. by split.
Qed.

(** A queue that changed, with the entries as they were. *)
Lemma queue_calm now w w' :
  (forall k, k <> q -> live_at now w' k = live_at now w k) ->
  members (now, w') ⊆ members (now, w) -> calm now w w'.
Proof.
  intros Hk Hm. split; [done|]. intros id h' Hh'. exists h'. split; [|done].
  unfold entry_at, hash_at in *. cbn [fst snd] in *. rewrite <- Hk; [done|].
  apply not_eq_sym, queue_not_metadata.
Qed.

Lemma calm_drop_member id : calmM (drop_member q id).
Proof.
  apply calm_bind; [apply calm_reads; unfold live_zset; touch|intros z]. apply calm_when.
  intros now w. apply queue_calm.
  - intros k Hk. unfold zset_delete, update_entry, modify_store, modify. cbn [snd].
    rewrite live_at_alter by apply keeps_on_zset. by rewrite decide_False.
  - unfold members, zset_at, zset_delete, update_entry, modify_store, modify. cbn [fst snd].
    rewrite live_at_alter by apply keeps_on_zset. rewrite decide_True by done.
    destruct (live_at now w q) as [[? ? ? [z'|] ?]|]; simpl; [|done..].
    intros x Hx. apply elem_of_omap_keys_delete in Hx. tauto.
Qed.

Lemma calm_delete_queue now w : calm now w (with_store (delete q (store w)) w).
Proof.
  apply queue_calm.
  - intros k Hk. by rewrite live_at_delete, decide_False.
  - unfold members, zset_at. cbn [fst snd]. rewrite live_at_delete, decide_True by done. simpl. set_solver.
Qed.

Lemma calm_dropIfEmpty : calmM (dropIfEmpty q).
Proof.
  intros now w. rewrite dropIfEmpty_run. cbn [snd]. destruct (store w !! q); [|apply calm_refl].
  case_decide; [apply calm_delete_queue|apply calm_refl].
Qed.

(** One entry gone, the rest as they were. *)
Lemma gone_calm now w w' id :
  (forall k, k <> metadata_key p id -> live_at now w' k = live_at now w k) ->
  hash_at now w' (metadata_key p id) = None -> calm now w w'.
Proof.
  intros Hk Hn. split.
  - unfold members, zset_at. cbn [fst snd]. by rewrite Hk by apply queue_not_metadata.
  - intros id' h' Hh'. unfold entry_at in *. cbn [fst snd] in *.
    destruct (decide (id' = id)) as [->|Hne]; [congruence|].
    exists h'. split; [|done]. unfold hash_at in *. rewrite <- Hk; [done|]. by intros ?%metadata_inj.
Qed.

Lemma calm_delete_entry id : calmM (store_delete (metadata_key p id)).
Proof.
  intros now w. unfold store_delete, modify_store, modify. cbn [snd]. apply (gone_calm _ _ _ id).
  - intros k Hk. by rewrite live_at_delete, decide_False.
  - unfold hash_at. by rewrite live_at_delete, decide_True.
Qed.

Lemma calm_tombstone id v x : calmM (put (tombstoneKey p id) (string_entry v x)).
Proof.
  intros now w. apply (gone_calm _ _ _ (id +:+ ":removed")).
  - intros k Hk. unfold live_at. simpl. by rewrite lookup_insert_ne.
  - unfold hash_at, live_at. simpl. change (metadata_key p (id +:+ ":removed")) with (tombstoneKey p id).
    rewrite lookup_insert_eq. by destruct (expired _ _).
Qed.

Lemma calm_removeRequest id ttl : calmM (removeRequest q p id ttl).
Proof.
  unfold removeRequest. apply calm_bind; [apply calm_reads; touch|intros m].
  apply calm_bind; [apply calm_drop_member|intros _].
  apply calm_bind; [apply calm_dropIfEmpty|intros _].
  apply calm_bind; [apply calm_delete_entry|intros _].
  apply calm_bind; [apply calm_reads; touch|intros now].
  apply calm_bind; [apply calm_tombstone|intros _]. apply calm_ret.
Qed.

Lemma calm_tryStartThaw id g anyGrant :
  calmM (tryStartThawRequest (getFrozenGrantsKey self) q p id g anyGrant).
Proof.
  assert (forall k, k = getFrozenGrantsKey self -> ~ protected self k) as HK
    by (intros k ->; apply other_not_protected, frozen_grants_other).
  unfold tryStartThawRequest.
  apply calm_bind; [eapply (calm_touches (fun k => k = getFrozenGrantsKey self)); [|exact HK]; touch|intros _].
  apply calm_bind; [apply calm_reads; touch|intros now].
  apply calm_bind; [apply calm_reads; touch|intros ids].
  apply calm_bind; [apply calm_reads, touches_competing|intros [|]]; [apply calm_ret|].
  intros now' w. rewrite (bind_ok _ _ _ _ _ _ (live_hash_run _ _ _)).
  destruct (hash_at now' w (metadata_key p id)) as [h|] eqn:E; [|apply purge_calm].
  eapply calm_trans; [apply purge_calm|].
  rewrite (bind_ok _ _ _ _ _ _ (hash_run _ _ _)).
  match goal with |- calm _ _ ((?m : M _) _ (upsert _ _ _ ?w0)).2 =>
    assert (upsert now' (metadata_key p id) ensure_hash w0 = w0) as -> end.
  { rewrite upsert_purge_key. unfold upsert, hash_at in *. destruct (live_at now' w _) as [e|] eqn:El; [|done].
    simpl in E. unfold purge_key. rewrite (live_at_lookup _ _ _ _ El), (live_at_not_expired _ _ _ _ El).
    destruct e; simpl in *; subst. unfold ensure_hash, with_hash. simpl.
    rewrite insert_id by by rewrite (live_at_lookup _ _ _ _ El). apply with_store_id. }
  apply (calm_bind (hash_set (metadata_key p id) "isThawRequest" "true") (fun _ => mret Started)).
  - apply calm_mark.
  - intros _. apply calm_ret.
Qed.

(** *** Claims, confirmations and updates *)

Lemma good_toQueued id h : good id h -> exists r, toQueued h = Some r
  /\ q_requestId r = id
  /\ q_grantId r = (if non_empty (h !! "grantId") then h !! "grantId" else None)
  /\ q_claimedAt r = (let c := parseStoredNumber (h !! "claimedAt") NaN in
                      if isFinite c then Some c else None).
Proof.
  intros (Hid & Hr & (c & Hc & Hcn) & (s & Hs & Hsn) & (n & Hn)).
  unfold toQueued. rewrite Hr, Hc, Hn, Hs. rewrite !bool_decide_false by done. simpl.
  eexists. by split_and!.
Qed.

Lemma lapsed_none now : claimLapsed None now = false.
Proof. unfold claimLapsed, parseStoredNumber. by destruct now. Qed.

Lemma claimable_takeable h now :
  claimable (h !! "status") (h !! "claimedAt") now = true -> takeable h = true.
Proof.
  unfold claimable, takeable. case_decide as Hp; [by rewrite bool_decide_true|].
  case_decide as Hi; [|done]. intros Hl. apply orb_true_iff. right.
  rewrite (bool_decide_true (h !! "status" = _)) by done. simpl. apply bool_decide_eq_true.
  destruct (h !! "claimedAt") eqn:E; [by eexists|]. by rewrite lapsed_none in Hl.
Qed.

(** A turn of the claim loop that takes [id]: its entry is held, stamped with
    the instant, and nothing else changed. *)
Definition takes (gs : list string) (now : num) (w w' : World) (id : string) (r : option QueuedRequest)
    : Prop :=
  exists h h',
    entry_at (now, w) id = Some h /\ skips h gs now = false
    /\ entry_at (now, w') id = Some h' /\ r = toQueued h'
    /\ h' !! "status" = Some "inProgress" /\ h' !! "claimedAt" = Some (num_to_string now)
    /\ (forall f, f <> "status" -> f <> "claimedAt" -> f <> "isThawRequest" -> h' !! f = h !! f)
    /\ members (now, w') = members (now, w)
    /\ forall id', id' <> id -> entry_at (now, w') id' = entry_at (now, w) id'.

Lemma purge_views now k w :
  members (now, purge_key now k w) = members (now, w)
  /\ forall id, entry_at (now, purge_key now k w) id = entry_at (now, w) id.
Proof.
  split; [unfold members|intros id; unfold entry_at]; cbn [fst snd].
  - by rewrite zset_at_purge_key.
  - by rewrite hash_at_purge_key.
Qed.

Lemma entry_set now w id id' f v :
  entry_at (now, (hash_set (metadata_key p id) f v now w).2) id'
  = if decide (id' = id) then <[f := v]> <$> entry_at (now, w) id else entry_at (now, w) id'.
Proof. apply entry_at_update. Qed.

Lemma members_set now w id f v :
  members (now, (hash_set (metadata_key p id) f v now w).2) = members (now, w).
Proof. apply members_update. Qed.

Lemma set_run key f v now w : hash_set key f v now w = (Ok tt, (hash_set key f v now w).2).
Proof. done. Qed.

Lemma next_in_takes ids gs rs now w :
  exists o w', next_in ids p gs rs now now w = (Ok o, w')
    /\ (o = None /\ calm now w w' \/ exists id, id ∈ ids /\ id ∉ rs /\ takes gs now w w' id o).
Proof.
  revert w. induction ids as [|id ids IH]; intros w; cbn [next_in].
  { do 2 eexists. split; [done|]. left. split; [done|apply calm_refl]. }
  assert (forall w0, members (now, w0) = members (now, w) ->
    (forall id', entry_at (now, w0) id' = entry_at (now, w) id') ->
    exists o w', next_in ids p gs rs now now w0 = (Ok o, w')
      /\ (o = None /\ calm now w w' \/ exists id', id' ∈ id :: ids /\ id' ∉ rs /\ takes gs now w w' id' o)) as Hrest.
  { intros w0 Hm He. destruct (IH w0) as (o & w' & E & H). exists o, w'. split; [done|].
    destruct H as [[-> Hc]|(id' & Hin & Hrs & h & h' & Hh & Hs & Ht)].
    - left. split; [done|]. eapply calm_trans; [|exact Hc]. split; [by rewrite Hm|].
      intros i hi. rewrite He. intros Hi. by exists hi.
    - right. exists id'. split_and!; [by right|done|]. exists h, h'. rewrite <- He. split_and!; try apply Ht; try done.
      + rewrite <- Hm. apply Ht.
      + intros i Hi. rewrite <- He. by apply Ht. }
  case_decide as Hrs; [by apply Hrest|].
  rewrite (bind_ok _ _ _ _ _ _ (live_hash_run _ _ _)).
  destruct (purge_views now (metadata_key p id) w) as [Hm He].
  set (w0 := purge_key now (metadata_key p id) w) in *.
  destruct (hash_at now w (metadata_key p id)) as [h|] eqn:Eh; [|by apply Hrest].
  destruct (skips h gs now) eqn:Es; [by apply Hrest|].
  assert (entry_at (now, w0) id = Some h) as H0 by by rewrite He.
  set (thaw := negb (bool_decide (h !! "status" = Some "pending"))).
  set (w1 := if thaw then (hash_set (metadata_key p id) "isThawRequest" "false" now w0).2 else w0).
  assert (mwhen thaw (hash_set (metadata_key p id) "isThawRequest" "false") now w0 = (Ok tt, w1)) as E1
    by by unfold w1; destruct thaw.
  rewrite (bind_ok _ _ _ _ _ _ E1), (bind_ok _ _ _ _ _ _ (set_run _ _ _ _ _)),
    (bind_ok _ _ _ _ _ _ (set_run _ _ _ _ _)), (bind_ok _ _ _ _ _ _ (live_hash_run _ _ _)).
  set (w2 := (hash_set (metadata_key p id) "status" "inProgress" now w1).2).
  set (w3 := (hash_set (metadata_key p id) "claimedAt" (num_to_string now) now w2).2).
  set (h1 := if thaw then <["isThawRequest" := "false"]> h else h).
  assert (entry_at (now, w1) id = Some h1 /\ members (now, w1) = members (now, w)
    /\ forall i, i <> id -> entry_at (now, w1) i = entry_at (now, w) i) as (H1 & M1 & N1).
  { unfold w1, h1. destruct thaw; [|by split_and!].
    rewrite entry_set, decide_True, members_set, H0 by done. split_and!; [done|done|].
    intros i Hi. by rewrite entry_set, decide_False. }
  set (h3 := <["claimedAt" := num_to_string now]> (<["status" := "inProgress"]> h1)).
  assert (entry_at (now, w3) id = Some h3) as H3.
  { unfold w3, w2. rewrite entry_set, decide_True, entry_set, decide_True, H1 by done. done. }
  assert (hash_at now w3 (metadata_key p id) = Some h3) as Eh3 by exact H3.
  rewrite Eh3. do 2 eexists. split; [done|]. right. exists id. split_and!; [by left|done|].
  destruct (purge_views now (metadata_key p id) w3) as [Hm3 He3].
  exists h, h3. rewrite He3. split_and!; try done.
  - unfold h3. rewrite lookup_insert_ne by done. apply lookup_insert_eq.
  - unfold h3. apply lookup_insert_eq.
  - intros f Hf1 Hf2 Hf3. unfold h3, h1. rewrite !lookup_insert_ne by done.
    destruct thaw; [by apply lookup_insert_ne|done].
  - rewrite Hm3. unfold w3, w2. by rewrite !members_set, M1.
  - intros i Hi. rewrite He3. unfold w3, w2. rewrite !entry_set, !decide_False by done. by apply N1.
Qed.

Lemma sorted_members now w id : id ∈ sorted_at now w q -> id ∈ members (now, w).
Proof.
  unfold sorted_at, members, sort_members. cbn [fst snd]. destruct (zset_at now w q) as [z|]; [|set_solver].
  simpl. by rewrite (merge_sort_Permutation _ z).
Qed.

Lemma stamp_back z : safe z ->
  parseStoredNumber (Some (num_to_string (int z))) NaN = int z.
Proof. intros Hz. apply parseStored_num_to_string; [by apply wf_int|done]. Qed.

Lemma takes_law gs now w w' id o :
  sound (now, w) -> id ∈ members (now, w) -> takes gs now w w' id o ->
  sound (now, w') /\ open_ids (now, w') ⊆ open_ids (now, w) /\ grants (now, w') ⊆ grants (now, w)
  /\ exists r, o = Some r /\ q_requestId r = id /\ id ∈ open_ids (now, w)
     /\ (forall g, q_grantId r = Some g -> g <> "" /\ g ∈ grants (now, w) /\ g ∉ gs)
     /\ exists s, q_claimedAt r = Some s /\ held (now, w') id s.
Proof.
  intros [(z & Hz & Hsafe) Hg] Hin (h & h' & Hh & Hs & Hh' & -> & St & Cl & Al & Mem & Ne).
  cbn [fst] in Hz. subst now.
  unfold skips in Hs. apply orb_false_iff in Hs as [[Hc%negb_false_iff Hgr]%orb_false_iff _].
  apply claimable_takeable in Hc.
  assert (good id h') as Hgood.
  { destruct (Hg id h Hin Hh) as (? & ? & (c & Hcn & ?) & _ & Hn).
    unfold good. rewrite (Al "requestId"), (Al "clientName"), (Al "requestName"), St by done. split_and!; [done|done|by exists c|by exists "inProgress"|done]. }
  assert (forall i, i ∈ members (int z, w') -> forall hi', entry_at (int z, w') i = Some hi' ->
    exists hi, entry_at (int z, w) i = Some hi /\ hi' !! "grantId" = hi !! "grantId"
      /\ (takeable hi' = true -> takeable hi = true) /\ (good i hi -> good i hi')) as Hback.
  { intros i Hi hi' Hhi'. destruct (decide (i = id)) as [->|Hne].
    - exists h. rewrite Hh' in Hhi'. injection Hhi' as <-. split_and!; [done|by apply Al|done|done].
    - exists hi'. rewrite <- Ne by done. by split_and!. }
  split_and!.
  - split; [by exists z|]. intros i hi' Hi Hhi'. destruct (Hback i Hi hi' Hhi') as (hi & Hhi & _ & _ & Hgi).
    apply Hgi, Hg; [by rewrite <- Mem|done].
  - intros i (Hi & hi' & Hhi' & Ht)%elem_of_open. apply elem_of_open.
    destruct (Hback i Hi hi' Hhi') as (hi & Hhi & _ & Hti & _). rewrite <- Mem. eauto.
  - intros g (i & hi' & Hi & Hhi' & Hgi)%elem_of_grants. apply elem_of_grants.
    destruct (Hback i Hi hi' Hhi') as (hi & Hhi & E & _ & _). exists i, hi. rewrite <- E, <- Mem. done.
  - destruct (good_toQueued id h' Hgood) as (r & Er & Hid & Hgq & Hcq). exists r.
    split_and!; [done|done|by apply elem_of_open; eauto| |].
    + intros g Eg. rewrite Hgq, Al in Eg by done. unfold non_empty in Eg.
      destruct (h !! "grantId") as [g0|] eqn:E0; [|done].
      destruct (bool_decide (g0 = "")) eqn:Eb; [done|]. simpl in Eg. injection Eg as <-.
      apply bool_decide_eq_false in Eb. split_and!; [done|apply elem_of_grants; eauto|].
      simpl in Hgr. rewrite bool_decide_false in Hgr by done. simpl in Hgr.
      by apply bool_decide_eq_false in Hgr.
    + exists (int z). rewrite Hcq, Cl, stamp_back by done. split; [done|].
      exists h'. split; [done|]. split_and!; [done| |].
      * rewrite Cl, stamp_back by done. by rewrite eqb_int, Z.eqb_refl.
      * rewrite Cl. unfold claimLapsed, QUEUE_CLAIM_LEASE_MS. rewrite stamp_back by done. cbn [fst].
        rewrite sub_int, geb_int by (unfold safe; lia). apply Z.leb_gt. lia.
Qed.

(** A confirmation of a claim that stands. *)
Lemma confirm_law id s now w :
  shrinks (now, w) (now, (confirmRequest p id s now w).2)
  /\ ((confirmRequest p id s now w).1 = Ok true -> sound (now, w) ->
        id ∉ open_ids (now, (confirmRequest p id s now w).2))
  /\ ((confirmRequest p id s now w).1 = Ok false -> sound (now, w) -> held (now, w) id s ->
        id ∉ open_ids (now, (confirmRequest p id s now w).2)).
Proof.
  unfold confirmRequest. rewrite (bind_ok _ _ _ _ _ _ (live_hash_run _ _ _)).
  destruct (purge_views now (metadata_key p id) w) as [Hm He].
  pose proof (calm_quiet _ _ _ (purge_calm now (metadata_key p id) w)) as Hq.
  set (w0 := purge_key now (metadata_key p id) w) in *.
  assert (shrinks (now, w) (now, w0)) as Hsh by (intros Hs; destruct (Hq Hs) as (? & ? & ? & _); done).
  destruct (hash_at now w (metadata_key p id)) as [h|] eqn:Eh.
  2:{ cbn [fst snd]. split_and!; [done|done|]. intros _ _ (h & Hh & _). unfold entry_at in Hh. cbn [fst snd] in Hh. congruence. }
  assert (entry_at (now, w) id = Some h) as Hh by exact Eh.
  destruct (bool_decide (h !! "status" = Some "inProgress")) eqn:Est; simpl.
  2:{ split_and!; [done|done|]. intros _ _ (h' & Hh' & Hc & _). apply bool_decide_eq_false in Est. congruence. }
  destruct (parseStoredNumber (h !! "claimedAt") NaN =? s)%num eqn:Ecl; simpl.
  2:{ split_and!; [done|done|]. intros _ _ (h' & Hh' & _ & Hc & _). congruence. }
  rewrite date_now_run. destruct (claimLapsed (h !! "claimedAt") now) eqn:El; simpl.
  { split_and!; [done|done|]. intros _ _ (h' & Hh' & _ & _ & Hc). simpl in Hc. congruence. }
  set (w1 := with_store _ _).
  assert (forall i, entry_at (now, w1) i = if decide (i = id) then delete "claimedAt" <$> entry_at (now, w0) id
                                          else entry_at (now, w0) i) as E1 by (intros i; apply (entry_at_update id (delete "claimedAt") now w0)).
  assert (members (now, w1) = members (now, w0)) as M1 by apply (members_update id (delete "claimedAt") now w0).
  assert (id ∉ open_ids (now, w1)) as Hgone.
  { intros (_ & h1 & Hh1 & Ht)%elem_of_open. rewrite E1, decide_True, He, Hh in Hh1 by done.
    injection Hh1 as <-. apply bool_decide_eq_true in Est. unfold takeable in Ht.
    rewrite lookup_delete_ne, Est, lookup_delete_eq in Ht by done. done. }
  split_and!; [|done|done]. intros Hs. destruct (Hsh Hs) as ([Hz0 Hg0] & Ho0 & Hgr0). split_and!.
  - split; [done|]. intros i hi Hi. rewrite E1, M1 in *. destruct (decide (i = id)) as [->|Hne]; [|by apply Hg0].
    intros (h0 & Hh0 & ->)%fmap_Some. destruct (Hg0 id h0 Hi Hh0) as (? & ? & ? & ? & ?).
    unfold good. by rewrite !lookup_delete_ne.
  - intros i Hi. apply Ho0. destruct (decide (i = id)) as [->|Hne]; [done|].
    apply elem_of_open in Hi as (Hi & hi & Hhi & Ht). apply elem_of_open.
    rewrite M1 in Hi. rewrite E1, decide_False in Hhi by done. eauto.
  - intros g (i & hi & Hi & Hhi & Hgi)%elem_of_grants. apply Hgr0, elem_of_grants.
    rewrite M1 in Hi. rewrite E1 in Hhi. destruct (decide (i = id)) as [->|Hne]; [|by exists i, hi].
    apply fmap_Some in Hhi as (h0 & Hh0 & ->). rewrite lookup_delete_ne in Hgi by done. by exists id, h0.
Qed.

(** Only the entry [id] is edited, and only its status, its stamp and its mark. *)
Definition edits (id : string) (now : num) (w w' : World) : Prop :=
  members (now, w') ⊆ members (now, w)
  /\ (forall i, i <> id -> entry_at (now, w') i = entry_at (now, w) i)
  /\ forall h', entry_at (now, w') id = Some h' -> exists h, entry_at (now, w) id = Some h
       /\ (forall f, f <> "status" -> f <> "claimedAt" -> f <> "isThawRequest" -> h' !! f = h !! f)
       /\ (h' !! "status" = h !! "status" \/ h' !! "status" = Some "pending").

Lemma edits_trans id now w1 w2 w3 : edits id now w1 w2 -> edits id now w2 w3 -> edits id now w1 w3.
Proof.
  intros (M1 & N1 & E1) (M2 & N2 & E2). split_and!.
  - set_solver.
  - intros i Hi. rewrite N2, N1; done.
  - intros h3 H3. destruct (E2 h3 H3) as (h2 & H2 & A2 & S2). destruct (E1 h2 H2) as (h1 & H1 & A1 & S1).
    exists h1. split_and!; [done| |destruct S2 as [->|?]; auto]. intros f ? ? ?. rewrite A2, A1; done.
Qed.

Lemma edits_opens id now w w' : edits id now w w' -> opens id (now, w) (now, w').
Proof.
  intros (Hm & Hn & He) [Hz Hg]. split_and!; [split; [done|]|..].
  - intros i h' Hi Hh'. destruct (decide (i = id)) as [->|Hne].
    + destruct (He h' Hh') as (h & Hh & Al & St). destruct (Hg id h (Hm _ Hi) Hh) as (? & ? & ? & (s & Hs & Hsn) & ?).
      unfold good. rewrite (Al "requestId"), (Al "clientName"), (Al "requestName") by done.
      split_and!; try done.
      destruct St as [->| ->]; [by exists s|by exists "pending"].
    + rewrite Hn in Hh' by done. by apply Hg; [apply Hm|].
  - intros i (Hi & h' & Hh' & Ht)%elem_of_open. apply elem_of_union.
    destruct (decide (i = id)) as [->|Hne]; [left; by apply elem_of_singleton|right].
    apply elem_of_open. rewrite Hn in Hh' by done. split; [by apply Hm|eauto].
  - intros g (i & h' & Hi & Hh' & Hgi)%elem_of_grants. apply elem_of_grants.
    destruct (decide (i = id)) as [->|Hne].
    + destruct (He h' Hh') as (h & Hh & Al & _). exists id, h. rewrite <- Al by done. split_and!; auto.
    + rewrite Hn in Hh' by done. exists i, h'. split_and!; auto.
Qed.

Lemma edits_update id f now w :
  (forall h, (forall x, x <> "status" -> x <> "claimedAt" -> x <> "isThawRequest" -> f h !! x = h !! x)
             /\ (f h !! "status" = h !! "status" \/ f h !! "status" = Some "pending")) ->
  edits id now w (update_entry (metadata_key p id) (on_hash f) now w).2.
Proof.
  intros Hf. split_and!.
  - by rewrite members_update.
  - intros i Hi. by rewrite entry_at_update, decide_False.
  - intros h'. rewrite entry_at_update, decide_True by done. intros (h & Hh & ->)%fmap_Some.
    exists h. split; [done|]. apply Hf.
Qed.

Lemma edits_purge id k now w : edits id now w (purge_key now k w).
Proof.
  destruct (purge_views now k w) as [Hm He]. split_and!; [by rewrite Hm|auto|].
  intros h'. rewrite He. intros Hh'. exists h'. split_and!; auto.
Qed.

Lemma edits_status id now w : edits id now w (hash_set (metadata_key p id) "status" "pending" now w).2.
Proof.
  apply edits_update. intros h. split; [|right; apply lookup_insert_eq].
  intros x Hx _ _. by apply lookup_insert_ne.
Qed.

Lemma edits_stamp id now w : edits id now w (hash_delete (metadata_key p id) "claimedAt" now w).2.
Proof.
  apply edits_update. intros h. split; [|left; by apply lookup_delete_ne].
  intros x _ Hx _. by apply lookup_delete_ne.
Qed.

Lemma edits_mark id v now w :
  edits id now w (set_opt (metadata_key p id) "isThawRequest" v now w).2.
Proof.
  destruct v as [v|]; simpl.
  - apply edits_update. intros h. split; [|left; by apply lookup_insert_ne].
    intros x _ _ Hx. by apply lookup_insert_ne.
  - split_and!; [done|done|]. intros h' Hh'. exists h'. split_and!; auto.
Qed.

Lemma edits_refl id now w : edits id now w w.
Proof. split_and!; [done|done|]. intros h' Hh'. exists h'. split_and!; auto. Qed.

Definition editsM (id : string) {A} (m : M A) : Prop := forall now w, edits id now w (m now w).2.

Lemma edits_bind id {A B} (m : M A) (f : A -> M B) :
  editsM id m -> (forall a, editsM id (f a)) -> editsM id (m ≫= f).
Proof.
  intros Hm Hf now w. rewrite bind_run. specialize (Hm now w).
  destruct (m now w) as [[a|e] w1]; [|done]. eapply edits_trans; [exact Hm|apply Hf].
Qed.

Lemma edits_ret id {A} (a : A) : editsM id (mret a).
Proof. intros now w. apply edits_refl. Qed.

(** An update to pending, without retries or priority, edits the entry alone. *)
Lemma update_law id u now w :
  u_status u = Some "pending" -> u_retries u = None -> u_priority u = None ->
  opens id (now, w) (now, (updateRequest q p id u now w).2).
Proof.
  intros Hst Hr Hp. apply edits_opens. revert now w.
  change (editsM id (updateRequest q p id u)). unfold updateRequest.
  apply edits_bind; [intros now w; rewrite live_hash_run; apply edits_purge|].
  intros [h|]; [|apply edits_ret]. rewrite Hr, Hp, Hst.
  assert (bool_decide (is_Some (finite_update None)) = false) as -> by done.
  cbn [orb andb negb fmap option_fmap option_map].
  repeat (apply edits_bind; [|intros ?]).
  - intros now w. apply edits_status.
  - intros now w. apply edits_stamp.
  - apply edits_ret.
  - apply edits_ret.
  - intros now w. apply edits_mark.
  - destruct (h !! "requestId"); apply edits_ret.
Qed.

(** ** The laws *)

Lemma get_law id now w w' :
  getRequest p id now w = (Ok None, w') -> sound (now, w) -> id ∉ open_ids (now, w').
Proof.
  unfold getRequest, hgetall. rewrite bind_run, (bind_ok _ _ _ _ _ _ (live_hash_run _ _ _)), !ret_run.
  intros [= Hn <-] [_ Hg]. destruct (purge_views now (metadata_key p id) w) as [Hm He].
  intros (Hi & h & Hh & _)%elem_of_open. rewrite Hm in Hi. rewrite He in Hh.
  unfold entry_at in Hh. cbn [fst snd] in Hh. rewrite Hh in Hn. simpl in Hn.
  destruct (good_toQueued id h (Hg id h Hi Hh)) as (r & Er & _). congruence.
Qed.

Lemma next_law gs rs now w o w' :
  getNextRequest q p gs rs now w = (o, w') -> sound (now, w) ->
  sound (now, w') /\ open_ids (now, w') ⊆ open_ids (now, w) /\ grants (now, w') ⊆ grants (now, w)
  /\ forall r, o = Ok (Some r) -> q_requestId r ∈ open_ids (now, w) /\ q_requestId r ∉ rs
     /\ (forall g, q_grantId r = Some g -> g <> "" /\ g ∈ grants (now, w) /\ g ∉ gs)
     /\ match q_claimedAt r with
        | Some s => held (now, w') (q_requestId r) s
        | None => q_requestId r ∉ open_ids (now, w')
        end.
Proof.
  unfold getNextRequest. rewrite date_now_run, (bind_ok _ _ _ _ _ _ (sorted_run _ _ _)).
  destruct (purge_views now q w) as [Hm He].
  destruct (next_in_takes (sorted_at now w q) gs rs now (purge_key now q w)) as (o' & w1 & -> & Ht).
  intros [= <- <-] Hs.
  destruct (calm_quiet _ _ _ (purge_calm now q w) Hs) as (Hs0 & Ho0 & Hg0 & _).
  destruct Ht as [[-> Hc]|(id & Hin & Hrs & Ht)].
  - destruct (calm_quiet _ _ _ Hc Hs0) as (? & ? & ? & _). split_and!; [done|set_solver|set_solver|done].
  - apply sorted_members in Hin. rewrite <- Hm in Hin.
    destruct (takes_law _ _ _ _ _ _ Hs0 Hin Ht) as (? & ? & ? & r & -> & <- & Hop & Hgr & s & Ec & Hh).
    split_and!; [done|set_solver|set_solver|]. intros r' [= <-]. rewrite Ec.
    split_and!; [set_solver|done| |done]. intros g Eg. destruct (Hgr g Eg) as (? & ? & ?).
    split_and!; [done|set_solver|done].
Qed.

Lemma neutral_law {A} (c : call A) (b : MemoryServer) : neutral self c -> quiet b (serve c b).2.
Proof.
  intros Hn. rewrite (proj1 (serve_run c b)). destruct b as [now w]. cbn [fst snd]. apply calm_quiet.
  destruct c; try done; simpl in Hn.
  - apply calm_reads, touches_smembers.
  - apply (calm_touches (footprint (CPublish channel message)) any); [apply exec_touches|done].
  - apply calm_reads, touches_getRequest.
  - destruct Hn as [-> ->]. apply calm_removeRequest.
  - apply calm_reads, touches_canProcess.
  - destruct Hn as (-> & -> & ->). apply calm_tryStartThaw.
  - apply calm_refl.
Qed.

#[export] Instance memory_laws : DrainLaws MemoryServer self.
Proof.
  split.
  - intros A c b. apply neutral_law.
  - intros gs rs [now w] o b'. cbn [serve memory_backend fst snd exec].
    destruct (getNextRequest q p gs rs now w) as [r w'] eqn:E. intros [= <- <-] Hs.
    destruct (next_law gs rs now w r w' E Hs) as (? & ? & ? & Hr). split_and!; [done..|].
    intros req Hq. apply Hr. by destruct r; simplify_eq/=.
  - intros id s [now w] o b'. cbn [serve memory_backend fst snd exec].
    destruct (confirm_law id s now w) as (Hsh & Ht & Hf).
    destruct (confirmRequest p id s now w) as [r w'] eqn:E. intros [= <- <-].
    split_and!; [done| |]; intros Ho; [apply Ht|apply Hf]; by destruct r; simplify_eq/=.
  - intros id [now w] b'. cbn [serve memory_backend fst snd exec].
    destruct (getRequest p id now w) as [r w'] eqn:E. intros [= Hr <-].
    apply (get_law id now w w'). by destruct r; simplify_eq/=.
  - intros id u [now w] Hst Hr Hp. rewrite (proj1 (serve_run _ _)). by apply update_law.
Qed.
End queue.
