(* ===== verification/QueueProps.v ===== *)
(** * The claim loop, run

    What [getNextRequest] does to a queue, entry by entry: the entry it takes
    is the first in queue order that nothing holds off, and it alone changes. *)
From S2P Require Import Prelude JsNumber JsString Shared SharedFacts MemoryStore StoreFacts.
From S2P Require Import TokenBucket TokenBucketFacts Queue Freeze Backend Observe Footprint.
Local Open Scope num_scope.

(** ** Time and single writes *)

(** What a key holds later is what it held, unless it expired meanwhile. *)
Lemma live_at_future now now' w k : (now <=? now') = true ->
  live_at now' w k = e ← live_at now w k; if expired now' e then None else Some e.
Proof.
  intros Hle. destruct (live_at now w k) as [e|] eqn:E.
  - unfold live_at. by rewrite (live_at_lookup _ _ _ _ E).
  - simpl. by eapply live_at_dead_later.
Qed.

Section queue.
Variables q p : string.
Local Notation mk := (metadata_key p).

(** The hash of an entry once it is claimed. *)
Definition claimed (now : num) (h : gmap string string) : gmap string string :=
  let h1 := if bool_decide (h !! "status" = Some "pending") then h else <["isThawRequest" := "false"]> h in
  <["claimedAt" := num_to_string now]> (<["status" := "inProgress"]> h1).

(** Whether the loop takes [id]. *)
Definition takes_id (gs rs : list string) (now : num) (w : World) (id : string) : bool :=
  negb (bool_decide (id ∈ rs)) &&
  match hash_at now w (mk id) with Some h => negb (skips h gs now) | None => false end.

(** Where [id] was claimed. *)
Definition after_claim (now : num) (id : string) (w : World) (k : string) : option Entry :=
  if decide (k = mk id) then (fun e => on_hash (claimed now) e) <$> live_at now w k else live_at now w k.

Lemma takes_id_ext gs rs now w w' id :
  (forall k, live_at now w' k = live_at now w k) -> takes_id gs rs now w' id = takes_id gs rs now w id.
Proof. intros Hw. unfold takes_id, hash_at. by rewrite Hw. Qed.

Lemma find_takes_ext gs rs now w w' ids :
  (forall k, live_at now w' k = live_at now w k) ->
  List.find (takes_id gs rs now w') ids = List.find (takes_id gs rs now w) ids.
Proof. intros Hw. induction ids as [|id ids IH]; simpl; [done|]. by rewrite (takes_id_ext _ _ _ _ _ _ Hw), IH. Qed.

Lemma on_hash_compose f g e : on_hash f (on_hash g e) = on_hash (fun h => f (g h)) e.
Proof. unfold on_hash. by destruct (e_hash e) eqn:E; simpl; rewrite ?E. Qed.

Lemma live_set_field now w id k f v :
  live_at now (hash_set (mk id) f v now w).2 k
  = if decide (k = mk id) then on_hash <[f := v]> <$> live_at now w k else live_at now w k.
Proof. unfold hash_set, update_entry, modify_store, modify. cbn [snd]. rewrite live_at_alter by auto with store. by case_decide; subst. Qed.

Lemma next_in_run gs rs now ids : forall w,
  match List.find (takes_id gs rs now w) ids with
  | None => exists w', next_in ids p gs rs now now w = (Ok None, w') /\ forall k, live_at now w' k = live_at now w k
  | Some id => exists w' h, next_in ids p gs rs now now w = (Ok (toQueued (claimed now h)), w') /\
      hash_at now w (mk id) = Some h /\ forall k, live_at now w' k = after_claim now id w k
  end.
Proof.
  induction ids as [|id ids IH]; intros w; cbn [List.find next_in]; [by eexists|].
  assert (forall w0, (forall k, live_at now w0 k = live_at now w k) ->
    match List.find (takes_id gs rs now w) ids with
    | None => exists w', next_in ids p gs rs now now w0 = (Ok None, w') /\ forall k, live_at now w' k = live_at now w k
    | Some id => exists w' h, next_in ids p gs rs now now w0 = (Ok (toQueued (claimed now h)), w') /\
        hash_at now w (mk id) = Some h /\ forall k, live_at now w' k = after_claim now id w k
    end) as Hrest.
  { intros w0 Hw. specialize (IH w0). rewrite (find_takes_ext _ _ _ _ _ _ Hw) in IH.
    destruct (List.find _ ids) as [i|].
    - destruct IH as (w' & h & E & Hh & Hk). exists w', h. split; [done|]. split; [by unfold hash_at in *; rewrite <- Hw|].
      intros k. rewrite Hk. unfold after_claim. by rewrite Hw.
    - destruct IH as (w' & E & Hk). exists w'. split; [done|]. intros k. by rewrite Hk, Hw. }
  unfold takes_id at 1. case_decide as Hrs; [rewrite bool_decide_true by done; by apply Hrest|].
  rewrite bool_decide_false by done. simpl. rewrite (bind_ok _ _ _ _ _ _ (live_hash_run _ _ _)).
  set (w0 := purge_key now (mk id) w).
  assert (forall k, live_at now w0 k = live_at now w k) as H0 by (intros; apply live_at_purge_key).
  destruct (hash_at now w (mk id)) as [h|] eqn:Eh; [|by apply Hrest].
  destruct (skips h gs now) eqn:Es; simpl; [by apply Hrest|].
  set (thaw := negb (bool_decide (h !! "status" = Some "pending"))).
  set (w1 := if thaw then (hash_set (mk id) "isThawRequest" "false" now w0).2 else w0).
  assert (mwhen thaw (hash_set (mk id) "isThawRequest" "false") now w0 = (Ok tt, w1)) as E1
    by by unfold w1; destruct thaw.
  rewrite (bind_ok _ _ _ _ _ _ E1).
  set (w2 := (hash_set (mk id) "status" "inProgress" now w1).2).
  set (w3 := (hash_set (mk id) "claimedAt" (num_to_string now) now w2).2).
  rewrite (bind_ok _ _ _ _ _ w2 eq_refl), (bind_ok _ _ _ _ _ w3 eq_refl),
    (bind_ok _ _ _ _ _ _ (live_hash_run _ _ _)).
  assert (forall k, live_at now w3 k = after_claim now id w k) as H3.
  { intros k. unfold w3, w2, w1, after_claim. rewrite !live_set_field. destruct thaw eqn:Et.
    - rewrite live_set_field, H0. case_decide; [|done]. subst k.
      unfold hash_at in Eh. destruct (live_at now w (mk id)) as [e|]; [|done]. simpl in *.
      f_equal. unfold on_hash. rewrite Eh. simpl. unfold claimed. apply negb_true_iff in Et. by rewrite Et.
    - rewrite H0. case_decide; [|done]. subst k.
      unfold hash_at in Eh. destruct (live_at now w (mk id)) as [e|]; [|done]. simpl in *.
      f_equal. unfold on_hash. rewrite Eh. simpl. unfold claimed. apply negb_false_iff in Et. by rewrite Et. }
  assert (hash_at now w3 (mk id) = Some (claimed now h)) as Eh3.
  { unfold hash_at in *. rewrite H3. unfold after_claim. rewrite decide_True by done.
    destruct (live_at now w (mk id)) as [e|]; [|done]. simpl in *. unfold on_hash. by rewrite Eh. }
  rewrite Eh3. exists (purge_key now (mk id) w3), h. split; [done|]. split; [done|].
  intros k. by rewrite live_at_purge_key.
Qed.

Lemma getNextRequest_run gs rs now w :
  match List.find (takes_id gs rs now w) (sorted_at now w q) with
  | None => exists w', getNextRequest q p gs rs now w = (Ok None, w') /\ forall k, live_at now w' k = live_at now w k
  | Some id => exists w' h, getNextRequest q p gs rs now w = (Ok (toQueued (claimed now h)), w') /\
      hash_at now w (mk id) = Some h /\ forall k, live_at now w' k = after_claim now id w k
  end.
Proof.
  unfold getNextRequest. rewrite date_now_run, (bind_ok _ _ _ _ _ _ (sorted_run _ _ _)).
  pose proof (next_in_run gs rs now (sorted_at now w q) (purge_key now q w)) as H.
  rewrite (find_takes_ext _ _ _ w) in H by (intros; apply live_at_purge_key).
  destruct (List.find _ _) as [id|].
  - destruct H as (w' & h & E & Hh & Hk). exists w', h. rewrite hash_at_purge_key in Hh. split_and!; [done|done|].
    intros k. rewrite Hk. unfold after_claim. by rewrite live_at_purge_key.
  - destruct H as (w' & E & Hk). exists w'. split; [done|]. intros k. by rewrite Hk, live_at_purge_key.
Qed.

(** ** Leases *)

Lemma lease_lapsed z z' : safe z -> safe (z' - z) ->
  claimLapsed (Some (num_to_string (int z))) (int z') = (10000 <=? z' - z)%Z.
Proof.
  intros Hz Hd. unfold claimLapsed, QUEUE_CLAIM_LEASE_MS.
  rewrite parseStored_num_to_string by (by apply wf_int || done). rewrite sub_int by done. apply geb_int.
Qed.

Lemma claimed_status now h : claimed now h !! "status" = Some "inProgress".
Proof. unfold claimed. by rewrite lookup_insert_ne, lookup_insert_eq by done. Qed.
Lemma claimed_stamp now h : claimed now h !! "claimedAt" = Some (num_to_string now).
Proof. unfold claimed. apply lookup_insert_eq. Qed.
Lemma claimed_other now h f :
  f <> "status" -> f <> "claimedAt" -> f <> "isThawRequest" -> claimed now h !! f = h !! f.
Proof.
  intros. unfold claimed. rewrite !lookup_insert_ne by done. destruct (bool_decide _); [done|].
  by rewrite lookup_insert_ne.
Qed.

(** Held off while the claim's lease runs. *)
Lemma held_skipped gs z z' h : safe z -> safe (z' - z) -> (z' - z < 10000)%Z ->
  h !! "status" = Some "inProgress" -> h !! "claimedAt" = Some (num_to_string (int z)) -> skips h gs (int z') = true.
Proof.
  intros Hz Hd Hl Hs Hc. unfold skips, claimable. rewrite Hs, Hc.
  rewrite decide_False by done. rewrite decide_True by done. rewrite lease_lapsed by done.
  by rewrite (proj2 (Z.leb_gt _ _)) by lia.
Qed.

(** A confirmed claim has no stamp, and lapses never. *)
Lemma confirmed_skipped gs now h :
  h !! "status" = Some "inProgress" -> h !! "claimedAt" = None -> skips h gs now = true.
Proof.
  intros Hs Hc. unfold skips, claimable. rewrite Hs, Hc.
  rewrite decide_False by done. rewrite decide_True by done. unfold claimLapsed, parseStoredNumber. by destruct now.
Qed.
End queue.

(** * What a queue promises those who wait in it

    Replicas that share a queue call it in any order, and claims, confirmations
    and calls about other keys interleave.  Whatever the interleaving, each
    entry is handed out once, in its turn. *)

(** ** Histories of a queue *)

(** A claim, a confirmation of any claim, or a call about something else. *)
Inductive queue_event : Type :=
  | Next
  | Confirm (requestId : string) (claimedAt : num)
  | Elsewhere {A : Type} (c : call A).

Section histories.
Variables q p : string.
Local Notation mk := (metadata_key p).

Definition event_call (e : queue_event) : { A : Type & call A } :=
  match e with
  | Next => existT _ (CGetNextRequest q p [] [])
  | Confirm id s => existT _ (CConfirmRequest p id s)
  | Elsewhere c => existT _ c
  end.

Definition event_world (e : queue_event) (now : num) (w : World) : World :=
  (exec (projT2 (event_call e)) now w).2.

Definition next_reply (now : num) (w : World) : result (option string) :=
  rbind (exec (CGetNextRequest q p [] []) now w).1 (fun r => Ok (q_requestId <$> r)).

(** What the claims of a history are answered, in order. *)
Fixpoint replies (h : list (Z * queue_event)) (w : World) : list (result (option string)) :=
  match h with
  | [] => []
  | (z, e) :: h' =>
      match e with Next => [next_reply (int z) w] | _ => [] end
      ++ replies h' (event_world e (int z) w)
  end.

Definition is_next (e : Z * queue_event) : bool := match e.2 with Next => true | _ => false end.
Definition claims (h : list (Z * queue_event)) : nat := length (List.filter is_next h).

(** Calls elsewhere leave the queue and its entries alone. *)
Definition aside (ids : list string) (e : queue_event) : Prop :=
  match e with
  | Elsewhere c => ~ footprint c q /\ forall id, id ∈ ids -> ~ footprint c (mk id)
  | _ => True
  end.

(** An entry that waits for its first claim. *)
Definition waits (id : string) (h : gmap string string) : bool :=
  bool_decide (h !! "status" = Some "pending") && bool_decide (h !! "requestId" = Some id)
  && bool_decide (toQueued h <> None).

(** One that was claimed since [z0]. *)
Definition taken (z0 z1 : Z) (h : gmap string string) : Prop :=
  h !! "status" = Some "inProgress" /\
  (h !! "claimedAt" = None \/ exists z, (z0 <= z <= z1)%Z /\ h !! "claimedAt" = Some (num_to_string (int z))).

(** ** What one event does to entries that outlive the history *)

Section span.
Variables z0 z1 : Z.
Hypothesis Hsafe : safe z0 /\ safe z1.
Hypothesis Hspan : (z0 <= z1 < z0 + 10000)%Z.

Definition in_span (z : Z) : Prop := (z0 <= z <= z1)%Z.

Lemma live_at_end z w k e : in_span z -> live_at (int z1) w k = Some e -> live_at (int z) w k = Some e.
Proof.
  intros [Hz0 Hz] He. destruct (live_at (int z) w k) as [e'|] eqn:E.
  - pose proof (live_at_lookup _ _ _ _ E) as E1. pose proof (live_at_lookup _ _ _ _ He) as E2. congruence.
  - rewrite (live_at_dead_later (int z) (int z1) w k) in He; [done|by rewrite leb_int; apply Z.leb_le|done].
Qed.
Lemma hash_at_end z w k h : in_span z -> hash_at (int z1) w k = Some h -> hash_at (int z) w k = Some h.
Proof.
  unfold hash_at. intros Hz. destruct (live_at (int z1) w k) as [e|] eqn:E; [|done].
  by rewrite (live_at_end z w k e Hz E).
Qed.

(** A world whose live entries are another's, but for an edit of one hash. *)
Definition edited (z : Z) (k0 : string) (f : gmap string string -> gmap string string) (w w' : World) : Prop :=
  forall k, live_at (int z) w' k
            = if decide (k = k0) then on_hash f <$> live_at (int z) w k else live_at (int z) w k.

Lemma edited_end z k0 f w w' : in_span z -> edited z k0 f w w' -> edited z1 k0 f w w'.
Proof.
  intros [Hz0 Hz] Hw k. assert (int z <=? int z1 = true) as Hle by (by rewrite leb_int; apply Z.leb_le).
  rewrite !(live_at_future (int z) (int z1)), Hw by done. case_decide; [|done].
  destruct (live_at (int z) w k) as [e|]; simpl; [|done].
  assert (expired (int z1) (on_hash f e) = expired (int z1) e) as -> by by unfold on_hash; destruct (e_hash e).
  by destruct (expired (int z1) e).
Qed.

(** The queue is as it was, and its first entries are claimed. *)
Definition served (ids gone left_ : list string) (w : World) : Prop :=
  (ids = gone ++ left_ /\ NoDup ids) /\
  (exists e, live_at (int z1) w q = Some e /\ sort_members (default [] (e_zset e)) = ids) /\
  (forall id, id ∈ gone -> exists h, hash_at (int z1) w (mk id) = Some h /\ taken z0 z1 h) /\
  (forall id, id ∈ left_ -> exists h, hash_at (int z1) w (mk id) = Some h /\ waits id h = true).

Lemma on_hash_zset f e : e_zset (on_hash f e) = e_zset e.
Proof. unfold on_hash. by destruct (e_hash e). Qed.

Lemma hash_edited z k0 f w w' k h : edited z k0 f w w' -> hash_at (int z) w k = Some h ->
  hash_at (int z) w' k = Some (if decide (k = k0) then f h else h).
Proof.
  intros Hw Hh. unfold hash_at in *. rewrite Hw. case_decide; [|done].
  destruct (live_at (int z) w k) as [e|]; [|done]. simpl in *. unfold on_hash. by rewrite Hh.
Qed.

Lemma queue_edited z k0 f w w' ids : edited z k0 f w w' ->
  (exists e, live_at (int z) w q = Some e /\ sort_members (default [] (e_zset e)) = ids) ->
  exists e, live_at (int z) w' q = Some e /\ sort_members (default [] (e_zset e)) = ids.
Proof.
  intros Hw (e & He & Hids). rewrite Hw, He. case_decide; simpl; eexists; (split; [done|]); [|done].
  by rewrite on_hash_zset.
Qed.

(** A hash edit keeps what is served if it keeps each claimed and each waiting entry so. *)
Lemma served_edited z k0 f ids gone left_ w w' : in_span z -> edited z k0 f w w' ->
  served ids gone left_ w ->
  (forall h, hash_at (int z) w k0 = Some h -> taken z0 z1 h -> taken z0 z1 (f h)) ->
  (forall id h, hash_at (int z) w k0 = Some h -> waits id h = true -> waits id (f h) = true) ->
  served ids gone left_ w'.
Proof.
  intros Hz Hw%(edited_end z) (Hids & Hq & Hg & Hl) Htk Hwt; [|done]. split; [done|]. split_and!; [by eapply queue_edited| |].
  - intros id Hid. destruct (Hg id Hid) as (h & Hh & Ht). exists (if decide (mk id = k0) then f h else h).
    split; [by eapply hash_edited|]. case_decide; [|done]. subst k0. apply Htk; [by apply hash_at_end|done].
  - intros id Hid. destruct (Hl id Hid) as (h & Hh & Ht). exists (if decide (mk id = k0) then f h else h).
    split; [by eapply hash_edited|]. case_decide; [|done]. subst k0. apply Hwt; [by apply hash_at_end|done].
Qed.

Lemma served_ext ids gone left_ w w' :
  (forall k, k = q \/ (exists id, id ∈ ids /\ k = mk id) -> live_at (int z1) w' k = live_at (int z1) w k) ->
  served ids gone left_ w -> served ids gone left_ w'.
Proof.
  intros Hw ([-> Hnd] & Hq & Hg & Hl). split_and!; [done|done|by rewrite Hw by auto| |].
  - intros id Hid. unfold hash_at. rewrite Hw by (right; exists id; rewrite elem_of_app; auto). by apply Hg.
  - intros id Hid. unfold hash_at. rewrite Hw by (right; exists id; rewrite elem_of_app; auto). by apply Hl.
Qed.

(** *** Calls elsewhere *)

Lemma outlives_call z w w' k : in_span z -> spared (int z) w w' k -> (exists e, live_at (int z1) w k = Some e) ->
  live_at (int z1) w' k = live_at (int z1) w k.
Proof.
  intros Hz [E|(E & e' & E' & Hx)] [e He]; [by unfold live_at; rewrite E|].
  pose proof (live_at_end z w k e Hz He) as H. unfold live_at in H. rewrite E', Hx in H. done.
Qed.

Lemma elsewhere_serves {A} z (c : call A) ids gone left_ w : in_span z ->
  ~ footprint c q -> (forall id, id ∈ ids -> ~ footprint c (mk id)) ->
  served ids gone left_ w -> served ids gone left_ (exec c (int z) w).2.
Proof.
  intros Hz Hq Hids Hs. apply (served_ext ids gone left_ w); [|done].
  destruct Hs as ([-> _] & (e & He & _) & Hg & Hl). intros k Hk. eapply outlives_call; [done| |].
  - apply (proj1 (exec_touches c (int z) w)). destruct Hk as [->|(id & Hid & ->)]; auto.
  - destruct Hk as [->|(id & Hid & ->)]; [eauto|].
    assert (exists h, hash_at (int z1) w (mk id) = Some h) as [h Hh].
    { apply elem_of_app in Hid as [Hid|Hid]; [destruct (Hg id Hid)|destruct (Hl id Hid)]; naive_solver. }
    unfold hash_at in Hh. apply bind_Some in Hh. naive_solver.
Qed.

(** *** Confirmations *)

Lemma confirm_edits id s z w :
  let w' := (confirmRequest p id s (int z) w).2 in
  (forall k, live_at (int z) w' k = live_at (int z) w k) \/
  (edited z (mk id) (delete "claimedAt") w w' /\
   exists h, hash_at (int z) w (mk id) = Some h /\ h !! "status" = Some "inProgress").
Proof.
  unfold confirmRequest. rewrite (bind_ok _ _ _ _ _ _ (live_hash_run _ _ _)).
  assert (forall k, live_at (int z) (purge_key (int z) (mk id) w) k = live_at (int z) w k) as H0
    by (intros; apply live_at_purge_key).
  destruct (hash_at (int z) w (mk id)) as [h|] eqn:Eh; [|by left].
  case_bool_decide as Hst; simpl; [|by left]. destruct (parseStoredNumber _ _ =? s); simpl; [|by left].
  rewrite date_now_run. destruct (claimLapsed _ _); [by left|]. right. split; [|by eauto].
  intros k. rewrite bind_run. simpl. unfold hash_delete, update_entry, modify_store, modify. cbn [snd].
  rewrite live_at_alter by auto with store. rewrite H0. by case_decide; subst.
Qed.

Lemma confirm_serves id s z ids gone left_ w : in_span z ->
  served ids gone left_ w -> served ids gone left_ (confirmRequest p id s (int z) w).2.
Proof.
  intros Hz Hs. destruct (confirm_edits id s z w) as [Hw|[Hw (h & Hh & Hst)]].
  - assert (edited z "" (fun h => h) w (confirmRequest p id s (int z) w).2) as He.
    { intros k. rewrite Hw. case_decide; [|done]. destruct (live_at (int z) w k) as [e|]; [|done]. simpl. f_equal.
      unfold on_hash. destruct e as [? [?|] ? ?]; done. }
    by eapply served_edited.
  - eapply served_edited; [done..| |].
    + intros h' Hh' [Ht _]. split; [by rewrite lookup_delete_ne|]. left. apply lookup_delete_eq.
    + intros id' h' Hh' Hw'. rewrite Hh in Hh'. injection Hh' as <-. exfalso. unfold waits in Hw'.
      rewrite Hst in Hw'. done.
Qed.

(** *** Claims *)

Lemma taken_passed z w id h : in_span z -> hash_at (int z) w (mk id) = Some h -> taken z0 z1 h ->
  takes_id p [] [] (int z) w id = false.
Proof.
  intros Hz Hh [Hst Hc]. unfold takes_id. rewrite Hh. apply andb_false_intro2, negb_false_iff.
  unfold in_span in Hz. destruct Hsafe as [Hs0 Hs1]. unfold safe in *. change (2 ^ 53)%Z with 9007199254740992%Z in *.
  destruct Hc as [Hc|(z' & Hz' & Hc)]; [by apply confirmed_skipped|].
  eapply (held_skipped _ z'); [unfold safe; change (2 ^ 53)%Z with 9007199254740992%Z; lia..|lia|done|done].
Qed.

Lemma waits_spec id h : waits id h = true ->
  h !! "status" = Some "pending" /\ h !! "requestId" = Some id /\ toQueued h <> None.
Proof. unfold waits. rewrite !andb_true_iff. intros [[H1 H2] H3]. by rewrite !bool_decide_eq_true in *. Qed.

Lemma waiting_taken z w id h : hash_at (int z) w (mk id) = Some h -> waits id h = true ->
  takes_id p [] [] (int z) w id = true.
Proof.
  intros Hh (Hst & Hid & Hq)%waits_spec. unfold takes_id. rewrite Hh. simpl. unfold skips, claimable.
  rewrite Hst. rewrite decide_True by done. simpl. rewrite (bool_decide_false (toQueued h = None)) by done.
  by rewrite andb_false_r.
Qed.

Lemma claimed_reads z id h : waits id h = true ->
  q_requestId <$> toQueued (claimed (int z) h) = Some id.
Proof.
  intros (Hst & Hid & Hq)%waits_spec. unfold toQueued in *.
  rewrite claimed_status, !claimed_other, Hid by done. rewrite Hid, Hst in Hq.
  destruct (h !! "clientName") as [c|]; [|done]. destruct (h !! "requestName") as [n|]; [|done].
  destruct (bool_decide (id = "")); [done|]. by destruct (bool_decide (c = "")).
Qed.

Lemma find_first gone id rest z w : in_span z ->
  (forall i, i ∈ gone -> exists h, hash_at (int z1) w (mk i) = Some h /\ taken z0 z1 h) ->
  takes_id p [] [] (int z) w id = true ->
  List.find (takes_id p [] [] (int z) w) (gone ++ id :: rest) = Some id.
Proof.
  intros Hz Hg Hid. induction gone as [|i gone IH]; simpl; [by rewrite Hid|].
  destruct (Hg i (list_elem_of_here _ _)) as (h & Hh & Ht).
  rewrite (taken_passed z w i h) by (done || by apply hash_at_end).
  apply IH. intros. apply Hg. by right.
Qed.

Lemma find_none gone z w : in_span z ->
  (forall i, i ∈ gone -> exists h, hash_at (int z1) w (mk i) = Some h /\ taken z0 z1 h) ->
  List.find (takes_id p [] [] (int z) w) gone = None.
Proof.
  intros Hz Hg. induction gone as [|i gone IH]; simpl; [done|].
  destruct (Hg i (list_elem_of_here _ _)) as (h & Hh & Ht).
  rewrite (taken_passed z w i h) by (done || by apply hash_at_end).
  apply IH. intros. apply Hg. by right.
Qed.

Lemma sorted_at_end z w ids : in_span z ->
  (exists e, live_at (int z1) w q = Some e /\ sort_members (default [] (e_zset e)) = ids) ->
  sorted_at (int z) w q = ids.
Proof.
  intros Hz (e & He & Hs). unfold sorted_at, zset_at. rewrite (live_at_end z w q e Hz He). simpl.
  by destruct (e_zset e).
Qed.

Lemma metadata_key_inj id id' : mk id = mk id' -> id = id'.
Proof. unfold metadata_key. by intros E%(inj (String.append p))%(inj (String.append ":")). Qed.

(** With entries waiting, a claim answers the first of them. *)
Lemma next_serves z id ids gone rest w : in_span z -> served ids gone (id :: rest) w ->
  next_reply (int z) w = Ok (Some id) /\ served ids (gone ++ [id]) rest (event_world Next (int z) w).
Proof.
  intros Hz Hs. pose proof Hs as ([Eids Hnd] & Hq & Hg & Hl).
  destruct (Hl id (list_elem_of_here _ _)) as (h & Hh1 & Hw). pose proof (hash_at_end z _ _ _ Hz Hh1) as Hh.
  pose proof (getNextRequest_run q p [] [] (int z) w) as Hrun. rewrite (sorted_at_end z w ids) in Hrun by done.
  rewrite Eids, find_first in Hrun by (done || by eapply waiting_taken).
  destruct Hrun as (w' & h' & Erun & Hh' & Hlive). rewrite Hh in Hh'. injection Hh' as <-.
  unfold next_reply, event_world. cbn [event_call projT2 exec]. rewrite Erun. split.
  { cbn [fst rbind]. f_equal. by apply (claimed_reads z). }
  cbn [snd]. assert (edited z (mk id) (claimed (int z)) w w') as Hed%(edited_end z) by exact Hlive; [|done].
  split_and!; [by rewrite <- (assoc_L (++))|done|by eapply queue_edited| |].
  - intros i [Hi| ->%list_elem_of_singleton]%elem_of_app.
    + destruct (Hg i Hi) as (hi & Hhi & Hti). exists hi. split; [|done].
      rewrite (hash_edited _ _ _ _ _ _ _ Hed Hhi). case_decide as Hk; [|done]. exfalso.
      apply waits_spec in Hw as [Hst _]. rewrite Hk, Hh1 in Hhi. injection Hhi as <-. destruct Hti. congruence.
    + exists (claimed (int z) h). split.
      * by rewrite (hash_edited _ _ _ _ _ _ _ Hed Hh1), decide_True.
      * split; [apply claimed_status|]. right. exists z. split; [done|]. apply claimed_stamp.
  - intros i Hi. destruct (Hl i (list_elem_of_further _ _ _ Hi)) as (hi & Hhi & Hwi). exists hi. split; [|done].
    rewrite (hash_edited _ _ _ _ _ _ _ Hed Hhi), decide_False; [done|]. intros <-%metadata_key_inj.
    subst ids. apply NoDup_app in Hnd as (_ & _ & [Hn _]%NoDup_cons). done.
Qed.

(** With none waiting, it answers that there is none. *)
Lemma next_idle z ids w : in_span z -> served ids ids [] w ->
  next_reply (int z) w = Ok None /\ served ids ids [] (event_world Next (int z) w).
Proof.
  intros Hz Hs. pose proof Hs as ([Eids Hnd] & Hq & Hg & Hl).
  pose proof (getNextRequest_run q p [] [] (int z) w) as Hrun. rewrite (sorted_at_end z w ids) in Hrun by done.
  rewrite find_none in Hrun by done. destruct Hrun as (w' & Erun & Hlive).
  unfold next_reply, event_world. cbn [event_call projT2 exec]. rewrite Erun. split; [done|]. cbn [snd].
  apply (served_ext ids ids [] w); [|done]. intros k _. destruct Hz as [_ Hz].
  rewrite !(live_at_future (int z) (int z1)) by (rewrite leb_int; by apply Z.leb_le). by rewrite Hlive.
Qed.

(** *** Histories *)

Definition timely (h : list (Z * queue_event)) : Prop := Forall (fun e => in_span e.1) h.

Lemma replies_served h ids : forall gone rest w,
  timely h -> Forall (fun e => aside ids e.2) h -> served ids gone rest w ->
  replies h w = (Ok <$> (Some <$> take (claims h) rest)) ++ replicate (claims h - length rest) (Ok None).
Proof.
  induction h as [|[z e] h IH]; intros gone rest w Ht Ha Hs; [done|].
  apply Forall_cons in Ht as [Hz Ht]. apply Forall_cons in Ha as [Hae Ha]. cbn [fst snd] in *.
  cbn [replies]. destruct e as [|id s|A c].
  - change (claims ((z, Next) :: h)) with (S (claims h)). destruct rest as [|id rest].
    + assert (ids = gone) as -> by (destruct Hs as [[-> _] _]; by rewrite app_nil_r).
      destruct (next_idle z gone w Hz Hs) as [-> Hs']. rewrite (IH gone [] _ Ht Ha Hs').
      rewrite !take_nil. simpl. by rewrite Nat.sub_0_r.
    + destruct (next_serves z id ids gone rest w Hz Hs) as [-> Hs'].
      by rewrite (IH (gone ++ [id]) rest _ Ht Ha Hs').
  - apply (IH gone rest); [done..|]. by apply confirm_serves.
  - apply (IH gone rest); [done..|]. by apply elsewhere_serves; destruct Hae.
Qed.
End span.
End histories.

(** ** The queue is served *)

(** C38.  Everyone who waits is served, once and in turn.  Let the entries [ids]
    wait in a queue, let nothing of it expire by [z1], and let any history of
    claims, confirmations and calls about other keys run within one lease.  Its
    claims answer the entries in the order of the queue, each exactly once, and
    after the last that nothing waits: [length ids] claims serve them all,
    whoever makes them and whatever interleaves. *)
Theorem queue_is_served (q p : string) (z0 z1 : Z) (w : World) (h : list (Z * queue_event)) :
  safe z0 /\ safe z1 -> (z0 <= z1 < z0 + 10000)%Z ->
  let ids := sorted_at (int z1) w q in
  NoDup ids -> is_Some (live_at (int z1) w q) ->
  (forall id, id ∈ ids -> waits id (default ∅ (hash_at (int z1) w (metadata_key p id))) = true) ->
  Forall (fun e => (z0 <= e.1 <= z1)%Z) h -> Forall (fun e => aside q p ids e.2) h ->
  replies q p h w
  = (Ok <$> (Some <$> take (claims h) ids)) ++ replicate (claims h - length ids) (Ok None).
Proof.
  intros Hsafe Hspan ids Hnd [e He] Hw Ht Ha. apply (replies_served q p z0 z1 Hsafe Hspan h ids []); [done..|].
  split; [done|]. split_and!.
  - exists e. split; [done|]. unfold ids, sorted_at, zset_at. rewrite He. simpl. by destruct (e_zset e).
  - intros id Hid. by apply not_elem_of_nil in Hid.
  - intros id Hid. specialize (Hw id Hid). destruct (hash_at _ w _) as [hh|]; [by eexists|].
    exfalso. simpl in Hw. apply waits_spec in Hw as [Hst _]. by rewrite lookup_empty in Hst.
Qed.

(** Two requests of different priority; a confirmation and another queue's
    arrival come between the claims. *)
Definition demo_request (id : string) (priority : num) : QueuedRequest :=
  {| q_requestId := id; q_clientName := "acme"; q_requestName := "call"; q_status := "pending";
     q_priority := priority; q_cost := CostNumber (int 1); q_retries := int 0;
     q_timestamp := int 1700000000000; q_grantId := None; q_isThawRequest := false;
     q_settles := false; q_ownerId := "replica"; q_claimedAt := None |}.

Definition demo_queue : World :=
  let add q p r w := (exec (CAddRequest q p r (int 3600)) (int 1700000000000) w).2 in
  add "q" "m" (demo_request "b" (int 5)) (add "q" "m" (demo_request "a" (int 1)) MemoryBackend).

Definition demo_history : list (Z * queue_event) :=
  [ (1700000000001, Next); (1700000000005, Confirm "b" (int 1700000000001));
    (1700000000003, Elsewhere (CAddRequest "other" "o" (demo_request "c" (int 1)) (int 60)));
    (1700000002000, Next); (1700000009000, Next) ]%Z.

Lemma queue_is_served_witness :
  replies "q" "m" demo_history demo_queue = [Ok (Some "b"); Ok (Some "a"); Ok None].
Proof.
  assert (sorted_at (int 1700000009999) demo_queue "q" = ["b"; "a"]) as Hids by (vm_compute; reflexivity).
  rewrite (queue_is_served "q" "m" 1700000000000 1700000009999 demo_queue demo_history); rewrite ?Hids.
  - reflexivity.
  - unfold safe; lia.
  - lia.
  - apply (bool_decide_unpack _). vm_compute. exact I.
  - apply (bool_decide_unpack _). vm_compute. exact I.
  - intros id Hid. rewrite !elem_of_cons in Hid. destruct Hid as [-> | [-> | Hid]]; [| |exfalso; inversion Hid].
    all: vm_compute; reflexivity.
  - unfold demo_history. repeat constructor; simpl; lia.
  - unfold demo_history. repeat constructor; cbn.
    + by intros [|[]].
    + intros id _. by intros [|[]].
Defined.
