(* ===== verification/AuthProps.v ===== *)
(** * What the credential cache promises

    A token that one replica stored is sent by every replica that shares the
    client's name and the handler's key, until it is due for renewal. *)
From S2P Require Import Prelude JsNumber JsString Value Timers Shared SharedFacts MemoryStore StoreFacts.
From S2P Require Import TokenBucketFacts Backend Observe Footprint Requests Client MemoryDrain QueueProps.
From S2P Require Import Encryption Authenticate.
Local Open Scope num_scope.

(** ** Margins and lifetimes *)

Definition renewal_margin (lifetime : Z) : Z := Z.max 2000 (Z.min 300000 (lifetime * 500)).

Lemma half_units : MAX_RENEWAL_FRACTION = Fin (2 ^ 1073).
Proof. vm_compute. reflexivity. Qed.

Lemma mul_half k : safe k -> int (2 * k) * MAX_RENEWAL_FRACTION = int k.
Proof.
  intros Hk. rewrite half_units. unfold mul, int at 1.
  assert (unit1 = 2 * 2 ^ 1073)%Z as Hu by (vm_compute; reflexivity). pose proof unit1_pos as Hpos.
  set (p := (2 ^ 1073)%Z) in *. replace (2 * k * unit1 * p)%Z with (k * unit1 * unit1)%Z by (rewrite Hu; lia).
  rewrite <- (Z.mul_1_l unit1) at 3. rewrite round_ratio_scale by lia.
  change (round_ratio (k * unit1) 1) with (rnd (k * unit1)). by apply rnd_exact, (wf_int k).
Qed.

Lemma renewalMargin_int E : (0 < E <= 315360000)%Z ->
  renewalMargin (Some (int (E * 1000))) = int (renewal_margin E).
Proof.
  intros HE. unfold renewalMargin. rewrite (leb_int (E * 1000) 0), (proj2 (Z.leb_gt _ _)) by lia.
  change (negb (isFinite (int (E * 1000))) || false) with false. cbv iota.
  replace (E * 1000)%Z with (2 * (E * 500))%Z by lia. rewrite mul_half by (unfold safe; lia).
  unfold MIN_RENEWAL_MARGIN_MS, RENEWAL_MARGIN_MS. by rewrite fmin_int, fmax_int.
Qed.

(** A credential's TTL is whole seconds, and covers the access token. *)
Lemma credential_ttl E hasRefresh refresh : (0 < E <= 315360000)%Z ->
  exists T, credentialTtlSeconds (int E) hasRefresh refresh = int T /\ (E <= T <= 315360000)%Z /\ (60 <= T)%Z.
Proof.
  intros HE. unfold credentialTtlSeconds. change (if isFinite (int E) then int E else int 0) with (int E).
  set (ttl := if hasRefresh then _ else _).
  assert (exists x, ttl = Fin x /\ (E * unit1 <= x)%Z) as (x & -> & Hx).
  { unfold ttl. destruct hasRefresh; [|by exists (E * unit1)%Z].
    set (r := match refresh with Some _ => _ | None => _ end).
    assert (exists y, r = Fin y) as [y ->].
    { unfold r. destruct refresh as [t|]; [|by eexists]. destruct t as [| |y]; by eexists. }
    unfold fmax, int, ltb. destruct (Z.ltb_spec (E * unit1) y); eexists; (split; [done|lia]). }
  rewrite ceil_units. pose proof (ceilZ_ge x) as Hc. pose proof unit1_pos. set (c := ceilZ x) in *.
  assert (E <= c)%Z as HEc by nia.
  unfold TTL_BUFFER_SECONDS, MINIMUM_TTL_SECONDS, MAXIMUM_TTL_SECONDS.
  destruct (Z.le_gt_cases c 315360000) as [Hle|Hgt].
  - rewrite add_int, fmax_int, fmin_int by (unfold safe; lia). eexists. split; [done|lia].
  - exists 315360000%Z. split; [|lia]. set (m := (60 * 60 * 24 * 365 * 10)%Z).
    assert (int m <=? int c + int 60 = true) as Hge.
    { assert (int m = rnd (m * unit1)) as -> by (symmetry; apply rnd_exact, (wf_int m); unfold m, safe; lia).
      unfold add, int. apply round_ratio_mono; [lia|]. unfold m. nia. }
    destruct (int c + int 60) as [| [] |b]; [done|done| |].
    + by vm_compute.
    + unfold fmax, fmin, int, ltb, leb in *. apply Z.leb_le in Hge. unfold m in *.
      assert (~ (b < 60 * unit1)%Z) as Hb by lia. apply Z.ltb_nlt in Hb. rewrite Hb.
      destruct (Z.ltb_spec (60 * 60 * 24 * 365 * 10 * unit1) b); [done|]. f_equal. lia.
Qed.

(** ** Writing a hash with a lifetime *)

Definition set_fields (fields : list (string * field_value)) (h : gmap string string) : gmap string string :=
  fold_left (fun h fv => <[fv.1 := field_string fv.2]> h) fields h.

Fixpoint write_fields (fields : list (string * field_value)) (g : Entry -> Entry) : Entry -> Entry :=
  match fields with
  | [] => g
  | fv :: fields' => write_fields fields' (on_hash <[fv.1 := field_string fv.2]> ∘ g)
  end.

Lemma fields_upsert key fields now w : forall g,
  mforeach fields (fun fv => hash_set key fv.1 (field_string fv.2)) now (upsert now key g w)
  = (Ok tt, upsert now key (write_fields fields g) w).
Proof.
  induction fields as [|fv fields IH]; intros g; [done|]. cbn [mforeach write_fields].
  etransitivity; [exact (bind_ok _ _ _ _ _ _ (update_upsert now key (on_hash <[fv.1 := field_string fv.2]>) g w))|].
  apply IH.
Qed.

Lemma fields_entry fields : forall g e h, e_hash (g e) = Some h ->
  e_hash (write_fields fields g e) = Some (set_fields fields h)
  /\ expiresAt (write_fields fields g e) = expiresAt (g e).
Proof.
  induction fields as [|fv fields IH]; intros g e h Hh; [done|]. cbn [write_fields].
  destruct (IH (on_hash <[fv.1 := field_string fv.2]> ∘ g) e (<[fv.1 := field_string fv.2]> h)) as [-> ->].
  { simpl. unfold on_hash. by rewrite Hh. }
  split; [done|]. simpl. unfold on_hash. by rewrite Hh.
Qed.

(** The hash holds the fields over what it held, until the TTL has passed. *)
Lemma writeHash_run key fields n T w : fields <> [] ->
  (Z.abs n <= 2 ^ 51)%Z -> (60 <= T <= 315360000)%Z ->
  exists w', writeHash key fields (Some (int T)) (int n) w = (Ok tt, w') /\
    forall n1, (n <= n1 < n + T * 1000)%Z ->
      hash_at (int n1) w' key = Some (set_fields fields (default ∅ (hash_at (int n) w key))).
Proof.
  intros Hf Hn HT. destruct (normalizeTtl_int T ltac:(lia)) as [H1 H2].
  set (G := write_fields fields ensure_hash).
  assert (forall e, e_hash (G e) = Some (set_fields fields (default ∅ (e_hash e))) /\ expiresAt (G e) = expiresAt e) as HG
    by (intros e; exact (fields_entry fields ensure_hash e _ eq_refl)).
  exists (upsert (int n) key (expired_at (int n) (int T) ∘ G) w). split.
  - unfold writeHash, optional_ttl. rewrite H1.
    assert ((ttl ← lift (Ok (int T)); mret (Some ttl) : M (option num)) (int n) w = (Ok (Some (int T)), w)) as E by done.
    rewrite (bind_ok _ _ _ _ _ _ E).
    destruct fields as [|fv fields']; [done|]. set (fields := fv :: fields') in *.
    assert ((hash key ;; mforeach fields (fun fv => hash_set key fv.1 (field_string fv.2))) (int n) w
      = (Ok tt, upsert (int n) key G w)) as E2.
    { rewrite (bind_ok _ _ _ _ _ _ (hash_run _ _ _)). apply fields_upsert. }
    rewrite (bind_ok _ _ _ _ _ _ E2). apply expire_upsert; [done..|]. intros e. apply HG.
  - intros n1 Hn1. unfold hash_at at 1. unfold live_at at 1. rewrite upsert_store, lookup_insert_eq.
    set (e := default empty_entry (live_at (int n) w key)). destruct (HG e) as [Hh _].
    assert (expired (int n1) ((expired_at (int n) (int T) ∘ G) e) = false) as ->.
    { unfold expired, expired_at. simpl. rewrite mul_int, add_int, geb_int by (unfold safe; lia). apply Z.leb_gt. lia. }
    simpl. rewrite Hh. unfold hash_at, e. by destruct (live_at (int n) w key).
Qed.

(** ** Programs over the memory backend *)

Lemma prog_ok {S B A A'} (m : Prog S B A) (f : A -> Prog S B A') s b a s' b' :
  m s b = (Return a, (s', b')) -> (m ≫= f) s b = f a s' b'.
Proof. intros E. unfold mbind, Prog_bind. by rewrite E. Qed.

Lemma request_run {A} (c : call A) (s : AuthState) n w r w' :
  exec c n w = (r, w') -> request c s ((n, w) : MemoryServer) = (outcome_of r, (s, (n, w'))).
Proof. intros E. unfold request. cbn [serve memory_backend fst snd]. by rewrite E. Qed.

Lemma hgetall_run key now w :
  exec (CHgetall key) now w = (Ok (default ∅ (hash_at now w key)), purge_key now key w).
Proof. cbn [exec]. unfold hgetall. by rewrite (bind_ok _ _ _ _ _ _ (live_hash_run _ _ _)). Qed.

Lemma spared_later now now' w w' k : (now <=? now') = true -> spared now w w' k ->
  live_at now' w' k = live_at now' w k.
Proof.
  intros Hle [E|(E & e & E' & Hx)]; unfold live_at; [by rewrite E|]. rewrite E, E'.
  assert (expired now' e = true) as ->; [|done].
  unfold expired in *. destruct (expiresAt e) as [t|]; [|done]. by eapply leb_trans_num.
Qed.

Lemma hash_elsewhere {A} (c : call A) n n1 w k : (n <= n1)%Z -> ~ footprint c k ->
  hash_at (int n1) (exec c (int n) w).2 k = hash_at (int n1) w k.
Proof.
  intros Hn Hk. unfold hash_at. rewrite (spared_later (int n) (int n1) w); [done| |].
  - rewrite leb_int. by apply Z.leb_le.
  - by apply (proj1 (exec_touches c (int n) w)).
Qed.

Lemma num_to_string_ne x : wf_num x -> isFinite x = true -> num_to_string x <> "".
Proof. intros Hw Hf E. destruct (num_to_string_text x Hw Hf) as [Ht _]. by rewrite E in Ht. Qed.

Lemma truthy_some s : s <> "" -> truthy (Some s) = Some s.
Proof. intros Hs. unfold truthy. by rewrite bool_decide_false. Qed.

Lemma set_fields_other fields f : forall h, (forall fv, fv ∈ fields -> fv.1 <> f) ->
  set_fields fields h !! f = h !! f.
Proof.
  unfold set_fields. induction fields as [|fv fields IH]; intros h Hf; [done|]. cbn [fold_left].
  rewrite IH by (intros; apply Hf; by right). apply lookup_insert_ne. apply Hf. by left.
Qed.

(** ** A cached credential, read *)

Section reading.
Context {Crypto : NodeCrypto}.
Variable self : AuthClient MemoryServer.
Variable host : TokenHost MemoryServer.
Local Notation ns := (auth_namespace self).

(** The hash of a token issued at [t0] that lives to [x]. *)
Definition holds_token (token : string) (t0 x : Z) (h : gmap string string) : Prop :=
  (exists st, sound_caches st /\ h !! "accessToken" = Some (encrypt token (ac_key self) st).1) /\
  h !! "expiresAt" = Some (num_to_string (int x)) /\ h !! "issuedAt" = Some (num_to_string (int t0)).

Lemma encrypt_ne token key st : sound_caches st -> (encrypt token key st).1 <> "".
Proof.
  intros Hst. unfold encrypt. pose proof (saltForEncrypt_spec key st Hst) as [Hsalt _].
  destruct (saltForEncrypt key st) as [salt st1]. cbn [fst] in Hsalt. destruct (deriveKey key salt st1) as [k st2].
  destruct (draw IV_LENGTH st2) as [iv st3]. destruct (encipher k iv token) as [ct tag]. cbn [fst]. intros E.
  pose proof (base64_roundtrip (salt +:+ iv +:+ tag +:+ ct)) as Hr. rewrite E in Hr.
  apply (f_equal String.length) in Hr. rewrite !string_length_app, Hsalt in Hr. done.
Qed.

Lemma decryptCached_run token h st (s : AuthState) (b : MemoryServer) :
  sound_caches st -> sound_caches (z_crypto s) -> h = Some (encrypt token (ac_key self) st).1 ->
  exists st', decryptCached self h s b = (Return (Some token), (set_crypto st' s, b)) /\ sound_caches st'.
Proof.
  intros Hst Hs ->. unfold decryptCached. rewrite truthy_some by by apply encrypt_ne.
  pose proof (encrypt_opens token (ac_key self) st (z_crypto s) Hst Hs) as E.
  pose proof (decrypt_sound (encrypt token (ac_key self) st).1 (ac_key self) (z_crypto s) Hs) as Hd.
  destruct (decrypt _ _ _) as [p st']. cbn [fst snd] in *. subst p. by exists st'.
Qed.

Section at_.
Variables (grantId : option string) (token : string) (t0 E t1 : Z) (n1 : num) (w : World) (s : AuthState).
Hypothesis Htoken : token <> "".
Hypothesis HE : (0 < E <= 315360000)%Z.
Hypothesis Ht : (Z.abs t0 <= 2 ^ 51 /\ Z.abs t1 <= 2 ^ 51)%Z.
Hypothesis Hs : sound_caches (z_crypto s).
Hypothesis Hnow : z_now s = int t1.
Hypothesis Hh : exists h, hash_at n1 w (oauth_key ns grantId) = Some h /\ holds_token token t0 (t0 + E * 1000) h.

Lemma getExistingToken_run :
  exists s' w', getExistingToken self grantId s ((n1, w) : MemoryServer)
  = (Return (if (t1 <? t0 + E * 1000 - renewal_margin E)%Z then Some token else None), (s', (n1, w'))).
Proof.
  destruct Hh as (h & Ehash & (st & Hst & Ha) & Hx & Hi). unfold getExistingToken.
  rewrite (prog_ok _ _ _ _ _ _ _ (request_run _ s _ _ _ _ (hgetall_run _ _ _))). rewrite Ehash. cbn [default from_option id].
  rewrite Hx, Hi, Ha. rewrite !truthy_some by (apply num_to_string_ne; [apply wf_int; unfold safe; lia|done]) || by apply encrypt_ne.
  rewrite !Number_num_to_string by (apply wf_int; unfold safe; lia).
  change (negb (isFinite (int (t0 + E * 1000)))) with false. change (isFinite (int t0)) with true. cbv iota.
  rewrite (prog_ok get_state _ s _ s s _ eq_refl). rewrite Hnow.
  rewrite !sub_int by (unfold safe; lia). replace (t0 + E * 1000 - t0)%Z with (E * 1000)%Z by lia.
  rewrite renewalMargin_int, leb_int by done.
  destruct (Z.ltb_spec t1 (t0 + E * 1000 - renewal_margin E)).
  - rewrite (proj2 (Z.leb_gt _ _)) by lia.
    destruct (decryptCached_run token _ st s (n1, purge_key n1 (oauth_key ns grantId) w) Hst Hs eq_refl) as (st' & -> & _). eauto.
  - rewrite (proj2 (Z.leb_le _ _)) by lia. eexists _, _. reflexivity.
Qed.

Lemma getUnexpiredToken_run :
  exists s' w', getUnexpiredToken self grantId s ((n1, w) : MemoryServer)
  = (Return (if (t1 <? t0 + E * 1000)%Z then Some token else None), (s', (n1, w'))).
Proof.
  destruct Hh as (h & Ehash & (st & Hst & Ha) & Hx & Hi). unfold getUnexpiredToken.
  rewrite (prog_ok _ _ _ _ _ _ _ (request_run _ s _ _ _ _ (hgetall_run _ _ _))). rewrite Ehash. cbn [default from_option id].
  rewrite Hx, Ha. rewrite !truthy_some by by apply encrypt_ne.
  rewrite Number_num_to_string by (apply wf_int; unfold safe; lia).
  change (negb (isFinite (int (t0 + E * 1000)))) with false. cbv iota.
  rewrite (prog_ok get_state _ s _ s s _ eq_refl). rewrite Hnow, leb_int.
  destruct (Z.ltb_spec t1 (t0 + E * 1000)).
  - rewrite (proj2 (Z.leb_gt _ _)) by lia.
    destruct (decryptCached_run token _ st s (n1, purge_key n1 (oauth_key ns grantId) w) Hst Hs eq_refl) as (st' & -> & _). eauto.
  - rewrite (proj2 (Z.leb_le _ _)) by lia. eexists _, _. reflexivity.
Qed.

Lemma authenticate_run h a requestId : ac_authData self = Some (AuthOAuth2 h a) ->
  (t1 < t0 + E * 1000 - renewal_margin E)%Z ->
  exists s' w', authenticate self host requestId grantId s ((n1, w) : MemoryServer)
  = (Return (Some (auth_header h "Bearer" token)), (s', (n1, w'))).
Proof.
  intros Ha Hlt. unfold authenticate. rewrite Ha.
  destruct getExistingToken_run as (s' & w' & E1). rewrite (proj2 (Z.ltb_lt _ _)) in E1 by done.
  assert (handleOAuth2 self host a requestId grantId s ((n1, w) : MemoryServer) = (Return token, (s', (n1, w')))) as E2.
  { unfold handleOAuth2. rewrite (prog_ok _ _ _ _ _ _ _ E1). by rewrite truthy_some. }
  rewrite (prog_ok _ _ _ _ _ _ _ E2). eauto.
Qed.
End at_.
End reading.

(** ** A token response, stored *)

Section saving.
Context {Crypto : NodeCrypto}.
Variable self : AuthClient MemoryServer.
Local Notation ns := (auth_namespace self).

Lemma encrypt_run text (s : AuthState) (b : MemoryServer) : sound_caches (z_crypto s) ->
  exists st', encrypt_ self text s b = (Return (encrypt text (ac_key self) (z_crypto s)).1, (set_crypto st' s, b))
    /\ sound_caches st'.
Proof.
  intros Hs. unfold encrypt_. pose proof (encrypt_sound text (ac_key self) (z_crypto s) Hs) as H.
  destruct (encrypt _ _ _) as [t st']. by exists st'.
Qed.

Definition grants_key : string := ns +:+ ":grants".

Lemma oauth_not_grants g : oauth_key ns g <> grants_key.
Proof.
  unfold oauth_key, grants_key. intros E%(inj (String.append ns)). destruct (truthy g); discriminate.
Qed.

(** Tracking a grant writes the index and no token. *)
Lemma trackGrantId_run g (s : AuthState) n w : exists w',
  trackGrantId self g s ((int n, w) : MemoryServer) = (Return tt, (s, (int n, w'))) /\
  forall k n1, (n <= n1)%Z -> k <> grants_key -> hash_at (int n1) w' k = hash_at (int n1) w k.
Proof.
  unfold trackGrantId. rewrite (prog_ok get_state _ s _ s s _ eq_refl).
  destruct (bool_decide (g = "") || isCredentialWriteRetired (ac_object self) s); [by exists w|].
  set (c1 := CSadd (ns +:+ ":grants") g).
  set (c2 := CBatch [BExpire (ns +:+ ":grants") DEFAULT_REFRESH_TOKEN_TTL_SECONDS]).
  assert (exists w1, exec c1 (int n) w = (Ok tt, w1)) as [w1 E1].
  { unfold c1. cbn [exec]. unfold sadd. rewrite (bind_ok _ _ _ _ _ _ (setOf_run _ _ _)). by eexists. }
  rewrite (prog_ok _ _ _ _ _ _ _ (request_run c1 s _ _ _ _ E1)).
  set (w2 := (exec c2 (int n) w1).2). exists w2. split.
  - unfold answered_or, catch, request. cbn [serve memory_backend fst snd]. unfold w2.
    by destruct (exec c2 (int n) w1) as [[[]|] ?].
  - intros k n1 Hn Hk. unfold w2. rewrite hash_elsewhere.
    + assert (w1 = (exec c1 (int n) w).2) as -> by by rewrite E1. by apply hash_elsewhere.
    + done.
    + cbn [footprint c2]. intros (op & Hop%list_elem_of_singleton & Hk'). subst op. by cbn in Hk'.
Qed.

(** The refresh token of a response, when it has one. *)
Definition readable_refresh (v : value) : Prop := value_truthy v = true -> exists r, v = VStr r.

Lemma refresh_field_run v (s : AuthState) (b : MemoryServer) : readable_refresh v -> sound_caches (z_crypto s) ->
  exists rf st', (if value_truthy v then text ← encrypt_value self v; mret [("refreshToken", FStr text)] else mret []) s b
    = (Return rf, (set_crypto st' s, b)) /\ sound_caches st' /\ forall fv, fv ∈ rf -> fv.1 = "refreshToken".
Proof.
  intros Hr Hs. destruct (value_truthy v) eqn:E.
  - destruct (Hr E) as [r ->]. cbn [encrypt_value]. destruct (encrypt_run r s b Hs) as (st' & Er & Hst).
    rewrite (prog_ok _ _ _ _ _ _ _ Er). eexists _, st'. split; [reflexivity|]. split; [done|].
    by intros fv ->%list_elem_of_singleton.
  - exists [], (z_crypto s). split; [by destruct s|]. split; [done|]. intros fv Hfv. inversion Hfv.
Qed.

Variables (response : value) (grantId : option string) (token : string) (E t0 n0 : Z) (s : AuthState) (w : World).
Hypothesis Htoken : value_field response "access_token" = VStr token /\ token <> "".
Hypothesis Hrefresh : readable_refresh (value_field response "refresh_token").
Hypothesis HE : believed_lifetime (value_field response "expires_in") = int E /\ (0 < E <= 315360000)%Z.
Hypothesis Hbound : (Z.abs t0 <= 2 ^ 51 /\ Z.abs n0 <= 2 ^ 51)%Z.
Hypothesis Hs : sound_caches (z_crypto s).
Hypothesis Hlive : isCredentialWriteRetired (ac_object self) s = false.
Hypothesis Hnow : z_now s = int t0.

Lemma save_run : exists s' w',
  saveOAuthData self response grantId s ((int n0, w) : MemoryServer) = (Return tt, (s', (int n0, w'))) /\
  sound_caches (z_crypto s') /\
  forall n1, (n0 <= n1 < n0 + E * 1000)%Z ->
    exists h, hash_at (int n1) w' (oauth_key ns grantId) = Some h /\ holds_token self token t0 (t0 + E * 1000) h.
Proof.
  destruct Htoken as [Hfield Htok], HE as [Hlife HE'].
  assert (exists p l, response = VObj p l) as (p & l & Eobj) by (destruct response; try done; eauto).
  unfold saveOAuthData. rewrite Eobj. rewrite <- Eobj. clear p l Eobj.
  set (key := oauth_key ns grantId). rewrite (prog_ok get_state _ s _ s s _ eq_refl). rewrite Hfield.
  rewrite bool_decide_false by done. cbv zeta.
  rewrite (prog_ok _ _ _ _ _ _ _ (request_run _ s _ _ _ _ (hgetall_run _ _ _))). cbn [outcome_of].
  rewrite (prog_ok get_state _ s _ s s _ eq_refl). rewrite Hlive, Hlife.
  set (w1 := purge_key (int n0) key w).
  destruct (encrypt_run token s (int n0, w1) Hs) as (st1 & E1 & Hst1). rewrite (prog_ok _ _ _ _ _ _ _ E1).
  set (s1 := set_crypto st1 s). set (refresh := value_field response "refresh_token") in *.
  destruct (refresh_field_run refresh s1 (int n0, w1) Hrefresh Hst1) as (rf & st2 & E2 & Hst2 & Hrf).
  rewrite (prog_ok _ _ _ _ _ _ _ E2). set (s2 := set_crypto st2 s1).
  set (fields := [("accessToken", _); _; _; _] ++ _).
  match goal with |- context [credentialTtlSeconds (int E) ?b ?r] =>
    destruct (credential_ttl E b r HE') as (T & -> & HT & HT60) end.
  assert (fields <> []) as Hne by done.
  destruct (writeHash_run key fields n0 T w1 Hne (proj2 Hbound)) as (w2 & E3 & Hw2); [lia|].
  assert (exec (CHset key fields (Some (int T))) (int n0) w1 = (Ok tt, w2)) as E3' by exact E3.
  rewrite (prog_ok _ _ _ _ _ _ _ (request_run _ s2 _ _ _ _ E3')).
  set (h := set_fields fields (default ∅ (hash_at (int n0) w1 key))) in *.
  assert (holds_token self token t0 (t0 + E * 1000) h) as Hholds.
  { assert (forall f, f <> "refreshToken" -> f <> "refreshTokenExpiresAt" ->
      h !! f = set_fields (take 4 fields) (default ∅ (hash_at (int n0) w1 key)) !! f) as Hother.
    { intros f Hf1 Hf2. unfold h, set_fields. rewrite <- (take_drop 4 fields) at 1. rewrite fold_left_app.
      apply set_fields_other. intros fv [Hfv%Hrf|Hfv]%elem_of_app; [congruence|].
      destruct (stated_lifetime _); [|destruct (_ && _)]; repeat (apply elem_of_cons in Hfv as [->|Hfv]; [done|]); inversion Hfv. }
    unfold holds_token. rewrite !Hother by done. unfold fields. cbn [take app]. rewrite take_0.
    cbn [set_fields fold_left fst snd field_string].
    rewrite Hnow. rewrite mul_int, add_int by (unfold safe; lia). split_and!.
    - exists (z_crypto s). split; [done|]. by rewrite !lookup_insert_ne, lookup_insert_eq by done.
    - by rewrite !lookup_insert_ne, lookup_insert_eq by done.
    - by rewrite lookup_insert_ne, lookup_insert_eq by done. }
  destruct (truthy grantId) as [g|] eqn:Eg.
  - rewrite (prog_ok get_state _ s2 _ s2 s2 _ eq_refl).
    destruct (isCredentialWriteRetired (ac_object self) s2).
    + exists s2, w2. split; [done|]. split; [done|]. intros n1 Hn1. exists h. split; [apply Hw2; lia|done].
    + destruct (trackGrantId_run g s2 n0 w2) as (w3 & E4 & Hw3). rewrite E4.
      exists s2, w3. split; [done|]. split; [done|]. intros n1 Hn1. exists h.
      rewrite Hw3 by (lia || apply oauth_not_grants). split; [apply Hw2; lia|done].
  - exists s2, w2. split; [done|]. split; [done|]. intros n1 Hn1. exists h. split; [apply Hw2; lia|done].
Qed.
End saving.

(** ** The cache's contract *)

(** C39.  A refreshed token is sent until it is due for renewal.  Let a client
    that was not removed store a token response whose believed lifetime is [E]
    seconds.  Nothing is thrown, and for those [E] seconds, while nobody writes
    the credential's key again, every client object of any process that has the
    same credential namespace and handler key, whatever its caches hold and
    whatever its host does, sends exactly that token, decrypted from the store,
    until half its lifetime is left, or five minutes, but no less than two
    seconds; from there it counts as absent, so it is renewed; and a failed
    renewal may still use it until it expires, and not after. *)
Theorem saved_token_served {Crypto : NodeCrypto} (self peer : AuthClient MemoryServer)
    (host : TokenHost MemoryServer) (h : CustomHeader) (a : AuthDataOAuth2 MemoryServer)
    (response : value) (grantId : option string) (token requestId : string) (E t0 n0 t1 n1 : Z)
    (s s1 : AuthState) (w w1 : World) :
  value_field response "access_token" = VStr token /\ token <> "" ->
  readable_refresh (value_field response "refresh_token") ->
  believed_lifetime (value_field response "expires_in") = int E /\ (0 < E <= 315360000)%Z ->
  (Z.abs t0 <= 2 ^ 51 /\ Z.abs n0 <= 2 ^ 51 /\ Z.abs t1 <= 2 ^ 51)%Z ->
  sound_caches (z_crypto s) /\ sound_caches (z_crypto s1) ->
  isCredentialWriteRetired (ac_object self) s = false ->
  z_now s = int t0 /\ z_now s1 = int t1 -> (n0 <= n1 < n0 + E * 1000)%Z ->
  auth_namespace peer = auth_namespace self -> ac_key peer = ac_key self ->
  ac_authData peer = Some (AuthOAuth2 h a) ->
  let '(r, (s', (_, w'))) := saveOAuthData self response grantId s ((int n0, w) : MemoryServer) in
  let key := oauth_key (auth_namespace self) grantId in
  r = Return tt /\ sound_caches (z_crypto s') /\
  (hash_at (int n1) w1 key = hash_at (int n1) w' key ->
   let b : MemoryServer := (int n1, w1) in
   let due := (t0 + E * 1000 - renewal_margin E)%Z in
   (getExistingToken peer grantId s1 b).1 = Return (if (t1 <? due)%Z then Some token else None) /\
   (getUnexpiredToken peer grantId s1 b).1 = Return (if (t1 <? t0 + E * 1000)%Z then Some token else None) /\
   ((t1 < due)%Z ->
    (authenticate peer host requestId grantId s1 b).1 = Return (Some (auth_header h "Bearer" token)))).
Proof.
  intros Htok Href HE (Ht0 & Hn0 & Ht1) [Hs Hs1] Hlive [Hnow Hnow1] Hn1 Hns Hkey Hauth.
  destruct (save_run self response grantId token E t0 n0 s w Htok Href HE (conj Ht0 Hn0) Hs Hlive Hnow)
    as (s' & w' & -> & Hs' & Hholds).
  split; [done|]. split; [done|]. intros Hsame. cbv zeta.
  destruct (Hholds n1 Hn1) as (hh & Hhash & Hh).
  assert (exists h', hash_at (int n1) w1 (oauth_key (auth_namespace peer) grantId) = Some h'
    /\ holds_token peer token t0 (t0 + E * 1000) h') as Hpeer.
  { exists hh. rewrite Hns, Hsame. split; [done|]. unfold holds_token in *. by rewrite Hkey. }
  destruct Htok as [_ Htok], HE as [_ HE].
  destruct (getExistingToken_run peer grantId token t0 E t1 (int n1) w1 s1 HE (conj Ht0 Ht1) Hs1 Hnow1 Hpeer) as (? & ? & ->).
  destruct (getUnexpiredToken_run peer grantId token t0 E t1 (int n1) w1 s1 HE (conj Ht0 Ht1) Hs1 Hnow1 Hpeer) as (? & ? & ->).
  split; [done|]. split; [done|]. intros Hdue.
  by destruct (authenticate_run peer host grantId token t0 E t1 (int n1) w1 s1 Htok HE (conj Ht0 Ht1) Hs1 Hnow1 Hpeer
    h a requestId Hauth Hdue) as (? & ? & ->).
Qed.

(** A cipher that keeps the laws, and two replicas. *)
Definition open_cipher : NodeCrypto.
Proof.
  refine {| scryptSync := fun secret salt => secret +:+ salt;
            encipher := fun key iv text => (text, "0123456789abcdef");
            decipher := fun key iv tag text => if bool_decide (tag = "0123456789abcdef") then Some text else None;
            randomBytes := fun draw n => string_of_bytes (repeat 65%Z n) |}.
  - reflexivity.
  - intros. reflexivity.
  - intros draw n. induction n; simpl; congruence.
Defined.

Definition demo_refresh : RefreshConfig MemoryServer :=
  {| rc_fields := {| rf_url := "https://vendor/token"; rf_dataLocation := "jsonBody";
                     rf_data := [("refresh_token", "{{refreshToken}}")]; rf_customHeaders := [];
                     rf_useBasicAuth := false |};
     rc_requestInterceptor := None; rc_responseInterceptor := None |}.

Definition demo_header : CustomHeader :=
  {| hd_customPrefix := None; hd_excludePrefix := false; hd_customHeaderName := None |}.

Definition demo_oauth : AuthDataOAuth2 MemoryServer :=
  {| oa_clientId := "id"; oa_clientSecret := "secret"; oa_refreshConfig := demo_refresh;
     oa_grantRefreshConfig := Some demo_refresh |}.

Definition demo_replica (object : nat) (instance : string) : AuthClient MemoryServer :=
  {| ac_object := object; ac_instanceId := instance; ac_name := "acme:org:1"; ac_handlerNamespace := "app";
     ac_authOwnerName := None; ac_key := "handler key"; ac_authData := Some (AuthOAuth2 demo_header demo_oauth);
     ac_timeout := None |}.

(** A host that is no help at all. *)
Definition dead_host : TokenHost MemoryServer :=
  {| th_post := fun _ => raise NoResponseError; th_sleep := fun _ => mret tt;
     th_join := fun _ => raise NoResponseError; th_listens := false; th_aborted := mret false |}.

Definition auth_at (now : Z) : AuthState :=
  {| z_now := int now; z_inFlight := []; z_lines := []; z_retired := []; z_fresh := 0; z_crypto := no_keys |}.

Definition demo_response : value :=
  VObj true [("access_token", VStr "tok"); ("expires_in", VNum (int 3600)); ("refresh_token", VStr "next");
             ("token_type", VStr "bearer")].

Lemma saved_token_served_witness :
  let saved := (saveOAuthData (Crypto := open_cipher) (demo_replica 0 "r0") demo_response (Some "g")
                  (auth_at 1000000) ((int 5000, MemoryBackend) : MemoryServer)).2.2.2 in
  (authenticate (Crypto := open_cipher) (demo_replica 7 "r7") dead_host "q" (Some "g") (auth_at 2000000)
     ((int 905000, saved) : MemoryServer)).1
  = Return (Some [("Authorization", VStr "Bearer tok")]).
Proof.
  intros saved.
  pose proof (saved_token_served (Crypto := open_cipher) (demo_replica 0 "r0") (demo_replica 7 "r7") dead_host
    demo_header demo_oauth demo_response (Some "g") "tok" "q" 3600 1000000 5000 2000000 905000
    (auth_at 1000000) (auth_at 2000000) MemoryBackend saved) as H.
  unfold saved in *. destruct (saveOAuthData _ _ _ _ _) as [r [s' [n' w']]].
  apply H; try reflexivity.
  - split; [reflexivity|discriminate].
  - intros _. by exists "next".
  - split; [vm_compute; reflexivity|lia].
  - lia.
  - split; apply sound_no_keys.
  - by split.
  - lia.
Defined.

(** ** A refresh that never happens

    The deep copy that protects [refreshConfig] from its own interceptor is
    [structuredClone], which refuses functions, and a config with an interceptor
    holds one: the refresh fails before the interceptor and the endpoint are
    called. *)
Lemma intercepted_refresh_refused {Crypto : NodeCrypto} {B} `{DianemoBackend B} (self : AuthClient B)
    (host : TokenHost B) (a : AuthDataOAuth2 B) intercept (s : AuthState) (b : B) :
  rc_requestInterceptor (oa_refreshConfig a) = Some intercept ->
  handleRefreshMethod self host a None s b = (Raise (ForeignError "DataCloneError"), (s, b)).
Proof.
  intros Hi. unfold handleRefreshMethod, getRefreshConfig. simpl.
  unfold mbind, Prog_bind at 1. simpl. rewrite Hi. unfold clone_config. by rewrite Hi.
Qed.

(** ** Waiting for a peer ends

    [MAX_POLLS] sleeps are enough: with a clock that moves at least as far as a
    timer slept, the deadline comes first, and more polls change nothing. *)
Section waiting.
Context {Crypto : NodeCrypto} {B : Type} {Srv : DianemoBackend B}.
Variable self : AuthClient B.
Variable host : TokenHost B.
Variable tryLock : Prog AuthState B bool.

Hypothesis Hsleep : forall s b t, z_now s = int t ->
  match th_sleep host (int 100) s b with
  | (Return _, (s', _)) => exists t', z_now s' = int t' /\ (t + 100 <= t')%Z
  | (Raise _, _) => True
  end.
Hypothesis Hlock : forall s b, z_now (tryLock s b).2.1 = z_now s.

Lemma decryptCached_clock v (s : AuthState) (b : B) : z_now (decryptCached self v s b).2.1 = z_now s.
Proof. unfold decryptCached. destruct (truthy v) as [x|]; [|done]. by destruct (decrypt _ _ _). Qed.

Lemma getExistingToken_clock g (s : AuthState) (b : B) : z_now (getExistingToken self g s b).2.1 = z_now s.
Proof.
  unfold getExistingToken, mbind, Prog_bind, request. destruct (serve _ b) as [[h|e] b']; [|done].
  destruct (truthy _); [|done]. destruct (truthy _); [|done]. destruct (negb _); [done|]. simpl.
  destruct (_ <=? _); [done|]. apply decryptCached_clock.
Qed.

Lemma poll_enough d g more : forall polls s b t, z_now s = int t -> (d - t < 100 * Z.of_nat polls)%Z ->
  poll_peer self host (polls + more) (int d) g tryLock s b = poll_peer self host polls (int d) g tryLock s b.
Proof.
  induction polls as [|polls IH]; intros s b t Ht Hd.
  - destruct more as [|more]; [done|]. cbn [poll_peer Nat.add]. rewrite (prog_ok get_state _ s _ s s _ eq_refl).
    rewrite Ht, ltb_int. by rewrite (proj2 (Z.ltb_ge _ _)) by lia.
  - cbn [poll_peer Nat.add]. rewrite !(prog_ok get_state _ s _ s s _ eq_refl). destruct (z_now s <? int d); [|done].
    unfold mbind at 1 4, Prog_bind. pose proof (Hsleep s b t Ht) as H1.
    destruct (th_sleep host (int 100) s b) as [[u|e] [s1 b1]]; [|done]. destruct H1 as (t1 & Ht1 & Hle).
    unfold mbind, Prog_bind. pose proof (getExistingToken_clock g s1 b1) as H2.
    destruct (getExistingToken self g s1 b1) as [[tok|e] [s2 b2]]; [|done]. destruct (truthy tok); [done|].
    pose proof (Hlock s2 b2) as H3. destruct (tryLock s2 b2) as [[[]|e] [s3 b3]]; try done.
    cbn [fst snd] in *. apply (IH s3 b3 t1); [congruence|lia].
Qed.

Lemma wait_ends g more (s : AuthState) (b : B) t : z_now s = int t -> (Z.abs t <= 2 ^ 52)%Z ->
  waitForPeerRefresh self host g tryLock s b
  = poll_peer self host (MAX_POLLS + more) (z_now s + REFRESH_LOCK_TTL_MS) g tryLock s b.
Proof.
  intros Ht Hb. unfold waitForPeerRefresh. rewrite (prog_ok get_state _ s _ s s _ eq_refl).
  unfold REFRESH_LOCK_TTL_MS. rewrite Ht, add_int by (unfold safe; lia). symmetry. apply (poll_enough _ _ _ _ _ _ t); [done|].
  unfold MAX_POLLS. lia.
Qed.
End waiting.
