(* ===== verification/TemplateProps.v ===== *)
(** * What a tenant's clients are built with

    A plan and an operator's overrides retune the limits of the clients a
    template's builder returns; they never turn a client that borrows a budget
    into one that owns one, or the reverse, down to the clients constructed. *)
From S2P Require Import Prelude JsNumber JsString Json Value ClientName RateLimit Requests Client Metered Authenticate Templates.

(** ** The clients of a declaration, with the limits in force *)

Record node := { nd_path : string; nd_own : option given_limits; nd_limits : given_limits }.

Fixpoint nodes (path : string) (inherited : option given_limits) (c : CreateClientData) : list node :=
  match c with
  | CreateClient f own subs =>
      let eff := effective_limits own inherited in
      {| nd_path := path; nd_own := own; nd_limits := eff |}
      :: concat (map (fun s => nodes (sub_path path s) (Some eff) s) subs)
  end.

Definition all_nodes (clients : list CreateClientData) : list node := concat (map (nodes "" None) clients).

Definition in_force (inherited : option given_limits) : given_limits := default (Limits no_limit) inherited.

(** A list of the kind that is in force. *)
Definition same_kind (existing limit : given_limits) : bool := Bool.eqb (shares existing) (shares limit).

Lemma mismatch_kind existing limit :
  describeShapeMismatch existing limit = None <-> same_kind existing limit = true.
Proof. unfold describeShapeMismatch, same_kind. by destruct (Bool.eqb _ _). Qed.

Lemma same_kind_shares existing limit : same_kind existing limit = true -> shares limit = shares existing.
Proof. unfold same_kind. intros H%eqb_prop. done. Qed.

(** ** One pass over a declaration

    Both passes replace, at some clients, the limits in force by a list of the
    same kind: [f] says where and by what. *)
Section pass.
Variable f : string -> given_limits -> option given_limits.
Hypothesis Hf : forall path e g, f path e = Some g -> shares g = shares e /\ nullish g = false.

Fixpoint retune (path : string) (inherited : option given_limits) (c : CreateClientData) : CreateClientData :=
  match c with
  | CreateClient d own subs =>
      let e := effective_limits own inherited in
      let own' := match f path e with Some g => Some g | None => own end in
      let e' := default e (f path e) in
      CreateClient d own' (map (fun s => retune (sub_path path s) (Some e') s) subs)
  end.

(** What the pass makes of one client: [e] is what was in force where it
    stands, its own list when it has one. *)
Definition retuned (n n' : node) : Prop :=
  nd_path n' = nd_path n /\ shares (nd_limits n') = shares (nd_limits n) /\
  exists e, shares e = shares (nd_limits n) /\ (forall g, nd_own n = Some g -> nullish g = false -> e = g) /\
    match f (nd_path n) e with
    | Some g => nd_own n' = Some g /\ nd_limits n' = g
    | None => nd_own n' = nd_own n /\ nd_limits n' = e
    end.

Lemma effective_shares own i i' : shares (in_force i) = shares (in_force i') ->
  shares (effective_limits own i) = shares (effective_limits own i').
Proof. unfold effective_limits, in_force. destruct own as [g|]; [|done]. by destruct (nullish g). Qed.

Lemma sub_path_retune path p i s : sub_path path (retune p i s) = sub_path path s.
Proof. unfold sub_path, cd_name. by destruct s. Qed.

Lemma Forall2_concat_map {A B C} (R : B -> C -> Prop) (g : A -> list B) (h : A -> list C) (l : list A) :
  Forall (fun x => Forall2 R (g x) (h x)) l -> Forall2 R (concat (map g l)) (concat (map h l)).
Proof. induction 1; simpl; [constructor|]. by apply Forall2_app. Qed.

Lemma retune_nodes c : forall path i i', shares (in_force i) = shares (in_force i') ->
  Forall2 retuned (nodes path i c) (nodes path i' (retune path i' c)).
Proof.
  induction c as [d own subs IH] using CreateClientData_ind'. intros path i i' Hi. cbn [nodes retune].
  set (e := effective_limits own i). set (e0 := effective_limits own i').
  assert (shares e0 = shares e) as He by (symmetry; by apply effective_shares).
  set (own' := match f path e0 with Some g => Some g | None => own end).
  set (e' := default e0 (f path e0)).
  assert (effective_limits own' i' = e' /\ shares e' = shares e) as [Heff Hse].
  { unfold own', e'. destruct (f path e0) as [g|] eqn:Eg; [|done].
    destruct (Hf _ _ _ Eg) as [Hg Hn]. unfold effective_limits. rewrite Hn. cbn. split; [done|congruence]. }
  constructor.
  - unfold retuned. cbn [nd_path nd_limits nd_own]. rewrite Heff. split; [done|]. split; [done|].
    exists e0. split; [done|]. split; [|unfold own', e'; by destruct (f path e0)].
    intros g -> Hg. unfold e0, effective_limits. by rewrite Hg.
  - rewrite Heff, map_map. apply Forall2_concat_map.
    apply list.Forall_forall. intros s Hs. rewrite list.Forall_forall in IH. rewrite sub_path_retune.
    apply (IH s Hs). cbn. congruence.
Qed.
End pass.

(** ** The two passes *)

Definition plan_pass (rl : PathLimits) (path : string) (e : given_limits) : option given_limits :=
  g ← omap_get path rl; if same_kind e g then Some g else None.

Lemma plan_retunes rl c : forall path i, plan_client rl path i c = retune (plan_pass rl) path i c.
Proof.
  induction c as [d own subs IH] using CreateClientData_ind'. intros path i. cbn [plan_client retune].
  unfold plan_pass, describeShapeMismatch, same_kind. set (e := effective_limits own i).
  rewrite list.Forall_forall in IH.
  destruct (omap_get path rl) as [g|]; simpl; [destruct (Bool.eqb _ _)|]; simpl; f_equal; apply map_ext_in;
    intros s Hs; apply IH; by apply list_elem_of_In.
Qed.

Definition override_pass (ov : list (string * list DeclaredRateLimit)) (path : string) (e : given_limits)
    : option given_limits :=
  o ← omap_get path ov; if same_kind e (Limits o) then Some (renamed_override e o) else None.

Lemma overrides_retune ov c : forall path i, applyOverrides ov path i c = retune (override_pass ov) path i c.
Proof.
  induction c as [d own subs IH] using CreateClientData_ind'. intros path i. cbn [applyOverrides retune].
  unfold override_pass, describeShapeMismatch, same_kind. set (e := effective_limits own i).
  rewrite list.Forall_forall in IH.
  destruct (omap_get path ov) as [o|]; simpl; [destruct (Bool.eqb _ _)|]; simpl; f_equal; apply map_ext_in;
    intros s Hs; apply IH; by apply list_elem_of_In.
Qed.

Lemma renamed_shares e o : shares (renamed_override e o) = isSharedOnly o.
Proof.
  unfold renamed_override. cbn [shares]. unfold isSharedOnly. rewrite map_map. unfold normalizeRateLimit.
  by rewrite map_map.
Qed.

Definition lists_only (rl : PathLimits) : Prop := forall path g, omap_get path rl = Some g -> exists l, g = Limits l.

Lemma plan_pass_ok rl path e g : lists_only rl -> plan_pass rl path e = Some g ->
  shares g = shares e /\ nullish g = false.
Proof.
  unfold plan_pass. intros Hl (g' & Hg & Hs)%bind_Some. destruct (same_kind e g') eqn:E; [|done].
  injection Hs as ->. split; [by apply same_kind_shares|]. by destruct (Hl _ _ Hg) as [l ->].
Qed.

Lemma override_pass_ok ov path e g : override_pass ov path e = Some g -> shares g = shares e /\ nullish g = false.
Proof.
  unfold override_pass. intros (o & Ho & Hs)%bind_Some. destruct (same_kind e (Limits o)) eqn:E; [|done].
  injection Hs as <-. split; [|done]. rewrite renamed_shares. by apply same_kind_shares in E.
Qed.

(** ** Construction *)

Lemma normalize_limits l p : map n_limit (normalizeRateLimit l p) = map d_limit l.
Proof. unfold normalizeRateLimit. by rewrite map_map. Qed.

(** A client built for a node: with its limits, which are usable, and of the
    class they ask for. *)
Definition built_for (n : node) (r : BuiltClient) : Prop :=
  exists l, nd_limits n = Limits l /\ bc_limits r = normalizeRateLimit l None /\ usable_config (bc_limits r) /\
    (bc_kind r = MeteredKind <-> shares (nd_limits n) = false).

Section construction.
Variable supports : optional_method -> bool.
Variable same_object : value -> value -> bool.
Variable clients : list (string * BuiltClient).
Variable retiring : list string.
Variable fresh : nat.

(** Whoever a client borrows from is there to stay, and owns its limits. *)
Definition lender_sound (reps : list BuiltClient) (r : BuiltClient) : Prop :=
  forall owner, bc_kind r = SharedKind owner ->
    exists lender, (lender ∈ reps \/ ((owner, lender) ∈ clients /\ owner ∉ retiring)) /\
      isSharedLimitOnly (map n_limit (bc_limits lender)) = false.

Lemma buildClient_spec object data lookup r : buildClient supports object data lookup = Ok r ->
  exists l, effective_limits (cd_rateLimit data) None = Limits l /\ bc_limits r = normalizeRateLimit l None /\
    usable_config (bc_limits r) /\ (bc_kind r = MeteredKind <-> isSharedOnly l = false) /\
    forall owner, bc_kind r = SharedKind owner -> exists lender, lookup owner = Some lender /\
      isSharedLimitOnly (map n_limit (bc_limits lender)) = false.
Proof.
  unfold buildClient. destruct (declared_limits data) as [l|] eqn:Ed; [|done]. cbn [mbind result_bind rbind].
  assert (effective_limits (cd_rateLimit data) None = Limits l) as El.
  { unfold declared_limits in Ed. destruct (cd_rateLimit data) as [[l'| |v]|]; simplify_eq/=; try done.
    by destruct v. }
  destruct (assertUsableRateLimits _ _) as [[]|] eqn:Eu; [|done]. apply usable_config_iff in Eu. cbn [rbind].
  rewrite normalize_limits. unfold isSharedOnly.
  cbn [mbind result_bind rbind]. intros H. exists l. split; [done|].
  assert (forall k, Ok {| bc_object := object; bc_data := data; bc_limits := normalizeRateLimit l None; bc_kind := k |} = Ok r ->
    bc_limits r = normalizeRateLimit l None /\ bc_kind r = k) as Hr by (by intros k [= <-]).
  destruct (map d_limit l) as [|x [|y xs]]; [|destruct x|destruct x]; cbn [isSharedLimitOnly];
    try (destruct (assertBackendCanClaim _ _ _) as [[]|]; [|done]; cbn [rbind] in H; apply Hr in H as [-> ->]; by split_and!).
  destruct (lookup clientName) as [lender|] eqn:Elk; [|done]. destruct (isSharedLimitOnly (map _ _)) eqn:Es; [done|].
  apply Hr in H as [-> ->]. split_and!; [done|done|done|]. intros owner [= <-]. by exists lender.
Qed.

Definition prepared (ns : list node) (acc : Preparation) : Prop :=
  Forall (fun r => (exists n, n ∈ ns /\ built_for n r) /\ lender_sound (pr_replacements acc) r) (pr_replacements acc)
  /\ forall name c, omap_get name (pr_built acc) = Some c -> c ∈ pr_replacements acc.

Lemma lender_sound_grow reps more r : lender_sound reps r -> lender_sound (reps ++ more) r.
Proof.
  intros H owner Ho. destruct (H owner Ho) as (lender & [Hl|Hl] & Hs); exists lender; (split; [|done]); [left|by right].
  rewrite elem_of_app. by left.
Qed.

Lemma prepare_client_spec ns n data acc acc' : prepared ns acc -> n ∈ ns ->
  effective_limits (cd_rateLimit data) None = nd_limits n ->
  prepare_client supports same_object clients retiring fresh data acc = Ok acc' -> prepared ns acc'.
Proof.
  intros [Hreps Hbuilt] Hn Heff. unfold prepare_client. cbv zeta.
  destruct (match omap_get _ clients with Some _ => _ | None => _ end); [|by intros [= <-]].
  destruct (buildClient _ _ _ _) as [next|] eqn:Eb; [|done]. cbn [mbind result_bind rbind]. intros [= <-].
  destruct (buildClient_spec _ _ _ _ Eb) as (l & El & Hlim & Hus & Hkind & Hlend). cbn [pr_built pr_replacements].
  assert ((exists n, n ∈ ns /\ built_for n next) /\ lender_sound (pr_replacements acc ++ [next]) next) as Hnext.
  { split.
    - exists n. split; [done|]. exists l. rewrite <- Heff, El. by split_and!.
    - intros owner Ho. destruct (Hlend owner Ho) as (lender & Elk & Hs). exists lender. split; [|done].
      unfold lookup_client in Elk. destruct (omap_get owner (pr_built acc)) as [c|] eqn:Ec.
      + injection Elk as ->. left. rewrite elem_of_app. left. by eapply Hbuilt.
      + case_bool_decide as Hr; [done|]. right. split; [by apply omap_get_elem|done]. }
  split.
  - apply Forall_app. split; [|by constructor]. eapply Forall_impl; [exact Hreps|].
    intros r [Hr Hl]. split; [done|]. by apply lender_sound_grow.
  - intros name c. cbn [pr_built pr_replacements]. rewrite omap_get_set. case_decide.
    + intros [= <-]. rewrite elem_of_app. right. by apply list_elem_of_singleton.
    + intros Hc. rewrite elem_of_app. left. by eapply Hbuilt.
Qed.

(** No declaration spells its limits [null] or [undefined]. *)
Definition spelled (n : node) : Prop := forall g, nd_own n = Some g -> nullish g = false.

Definition parent_holds (parent : option CreateClientData) (inherited : option given_limits) : Prop :=
  match parent with
  | Some p => inherited = Some (effective_limits (cd_rateLimit p) None)
  | None => inherited = None
  end.

Lemma merged_limits f own subs parent inherited client :
  parent_holds parent inherited -> (forall g, own = Some g -> nullish g = false) ->
  client = match parent with Some p => mergeChildParentClients (CreateClient f own subs) p | None => CreateClient f own subs end ->
  effective_limits (cd_rateLimit client) None = effective_limits own inherited.
Proof.
  intros Hp Hn ->. destruct parent as [p|]; cbn in Hp; subst inherited; [|done]. cbn [cd_rateLimit mergeChildParentClients].
  destruct own as [g|]; [|done]. unfold effective_limits. by rewrite (Hn g).
Qed.

Lemma prepare_tree_spec ns c : forall parent path inherited acc acc',
  parent_holds parent inherited -> Forall spelled (nodes path inherited c) ->
  (forall n, n ∈ nodes path inherited c -> n ∈ ns) -> prepared ns acc ->
  prepare_tree supports same_object clients retiring fresh parent c acc = Ok acc' -> prepared ns acc'.
Proof.
  induction c as [f own subs IH] using CreateClientData_ind'. intros parent path inherited acc acc' Hp Hsp Hns Hacc.
  cbn [prepare_tree nodes] in *. apply Forall_cons in Hsp as [Hown Hsp].
  destruct (match parent with Some _ => assertNameSegment _ _ | None => Ok tt end) as [[]|] eqn:Es; [|done]. cbn [mbind result_bind rbind].
  set (client := match parent with Some p => _ | None => _ end).
  pose proof (merged_limits f own subs parent inherited client Hp Hown eq_refl) as Heff.
  destruct (prepare_client supports same_object clients retiring fresh client acc) as [acc1|] eqn:E1; [|done]. cbn [rbind].
  assert (prepared ns acc1) as Hacc1.
  { eapply (prepare_client_spec ns _ client acc); [done|apply Hns; left|exact Heff|exact E1]. }
  clear E1 Hacc Es. clearbody client. rewrite <- Heff in Hsp, Hns.
  assert (forall n, n ∈ concat (map (fun s => nodes (sub_path path s) (Some (effective_limits (cd_rateLimit client) None)) s) subs)
    -> n ∈ ns) as Hns' by (intros n Hn; apply Hns; by right).
  clear Hns. revert acc1 Hacc1. induction IH as [|s subs' Hs _ IHsubs]; intros acc1 Hacc1; [by intros [= <-]|].
  cbn [map concat] in Hsp, Hns'. apply Forall_app in Hsp as [Hsp1 Hsp2].
  cbn [mbind result_bind rbind].
  destruct (prepare_tree supports same_object clients retiring fresh (Some client) s acc1) as [acc2|] eqn:E2; [|done]. cbn [rbind].
  assert (prepared ns acc2) as Hacc2.
  { eapply Hs; [|exact Hsp1| |exact Hacc1|exact E2]; [done|]. intros n Hn. apply Hns'. rewrite elem_of_app. by left. }
  intros Hrest. eapply IHsubs; [done| |exact Hacc2|exact Hrest]. intros n Hn. apply Hns'. rewrite elem_of_app. by right.
Qed.

Lemma prepare_list_spec ns l : forall acc acc', Forall spelled (all_nodes l) -> (forall n, n ∈ all_nodes l -> n ∈ ns) ->
  prepared ns acc -> prepare_list supports same_object clients retiring fresh l acc = Ok acc' -> prepared ns acc'.
Proof.
  unfold all_nodes. induction l as [|c l IH]; intros acc acc' Hsp Hns Hacc; cbn [prepare_list]; [by intros [= <-]|].
  cbn [map concat] in Hsp, Hns. apply Forall_app in Hsp as [Hsp1 Hsp2].
  destruct (prepare_tree supports same_object clients retiring fresh None c acc) as [acc1|] eqn:E1; [|done]. cbn [mbind result_bind rbind].
  intros Hrest. eapply IH; [done| | |exact Hrest].
  - intros n Hn. apply Hns. rewrite elem_of_app. by right.
  - eapply prepare_tree_spec; [|exact Hsp1| |exact Hacc|exact E1]; [done|]. intros n Hn. apply Hns. rewrite elem_of_app. by left.
Qed.

Lemma prepareClients_spec l reps : Forall spelled (all_nodes l) ->
  prepareClients supports same_object clients retiring fresh l = Ok reps ->
  Forall (fun r => (exists n, n ∈ all_nodes l /\ built_for n r) /\ lender_sound reps r) reps.
Proof.
  intros Hsp. unfold prepareClients. destruct (prepare_list supports same_object clients retiring fresh l _) as [acc|] eqn:E; [|done]. intros [= <-].
  destruct (prepare_list_spec (all_nodes l) l _ _ Hsp (fun n H => H)
    (ltac:(split; [constructor|done]) : prepared _ {| pr_built := []; pr_replacements := [] |}) E) as [H _]. exact H.
Qed.
End construction.

(** ** A plan that was checked holds lists only *)

Lemma rforeach_ok {A} (l : list A) f : rforeach l f = Ok tt <-> forall x, x ∈ l -> f x = Ok tt.
Proof.
  induction l as [|x l IH]; cbn [rforeach]; [split; [intros _ x H; exfalso; inversion H|done]|].
  destruct (f x) as [[]|] eqn:E; cbn [mbind result_bind rbind].
  - rewrite IH. split; [intros H y [->|Hy]%elem_of_cons; auto|intros H y Hy; apply H; by right].
  - split; [done|]. intros H. specialize (H x ltac:(left)). congruence.
Qed.

Lemma checked_plan templateName options chosen plan :
  assertTemplateOptions templateName options = Ok tt ->
  to_rateLimitOptions options ≫= omap_get chosen = Some plan -> lists_only (planPaths plan).
Proof.
  unfold assertTemplateOptions. intros H (declared & Hd & Hp)%bind_Some. rewrite Hd in H.
  destruct (rforeach declared _) as [[]|] eqn:E; [clear H|done]. rewrite rforeach_ok in E.
  specialize (E _ (omap_get_elem _ _ _ Hp)). rewrite rforeach_ok in E. cbn [fst snd] in E.
  assert (planPaths plan = plan_entries plan) as ->.
  { destruct plan as [[l|x|x]|m]; [done|specialize (E ("", BareLimit x))|specialize (E ("", OtherLimits x))|done];
      cbn [plan_entries assert_plan_entry] in E; specialize (E ltac:(left)); done. }
  intros path g Hg. specialize (E _ (omap_get_elem _ _ _ Hg)). unfold assert_plan_entry in E. destruct g as [l|x|x]; [by exists l|done|done].
Qed.

(** The plan a tenant's build applies, and its overrides. *)
Definition plan_of (context : ClientTemplateContext) : PathLimits := default [] (tx_rateLimits context).
Definition overrides_in (settings : TemplateClientOptions) : list (string * list DeclaredRateLimit) :=
  default [] (ts_rateLimitOverrides settings).

Lemma chosen_plan templateName options settings :
  assertTemplateOptions templateName options = Ok tt ->
  lists_only (plan_of (resolveTemplateContext templateName options settings).1).
Proof.
  intros H. unfold resolveTemplateContext, plan_of.
  destruct (match ts_rateLimitOption settings with Some o => Some o | None => _ end) as [chosen|]; [|done].
  destruct (to_rateLimitOptions options ≫= omap_get chosen) as [plan|] eqn:E; [|done]. cbn [fst tx_rateLimits default].
  by eapply checked_plan.
Qed.

(** ** What placing a plan and overrides comes to *)

(** The limits of its own a client has once the plan is on it. *)
Definition own_planned (plan : PathLimits) (n : node) : option given_limits :=
  match omap_get (nd_path n) plan with
  | Some g => if same_kind (nd_limits n) g then Some g else nd_own n
  | None => nd_own n
  end.

(** A client before and after: an override of its kind replaces what the plan
    gave it, and takes the names of the list it replaces. *)
Definition placed (plan : PathLimits) (overrides : list (string * list DeclaredRateLimit)) (n n' : node) : Prop :=
  nd_path n' = nd_path n /\ shares (nd_limits n') = shares (nd_limits n) /\
  match omap_get (nd_path n) overrides with
  | Some o =>
      if same_kind (nd_limits n) (Limits o) then
        exists existing, nd_own n' = Some (renamed_override existing o) /\
          forall g, own_planned plan n = Some g -> nullish g = false -> existing = g
      else nd_own n' = own_planned plan n
  | None => nd_own n' = own_planned plan n
  end.

Lemma same_kind_eq e e' g : shares e = shares e' -> same_kind e g = same_kind e' g.
Proof. unfold same_kind. by intros ->. Qed.

Lemma passes_placed plan ov n m n' : retuned (plan_pass plan) n m -> retuned (override_pass ov) m n' -> placed plan ov n n'.
Proof.
  intros (Hp1 & Hs1 & e & He & _ & Hm) (Hp2 & Hs2 & e' & He' & Hex & Hn'). unfold placed.
  rewrite Hp2, Hp1, Hs2, Hs1. split; [done|]. split; [done|].
  assert (nd_own m = own_planned plan n) as Hown.
  { unfold own_planned, plan_pass in *. destruct (omap_get (nd_path n) plan) as [g|]; cbn in Hm; [|by destruct Hm].
    rewrite <- (same_kind_eq _ _ g He). by destruct (same_kind e g), Hm. }
  unfold override_pass in Hn'. rewrite Hp1 in Hn'. rewrite <- Hown.
  destruct (omap_get (nd_path n) ov) as [o|]; cbn in Hn'; [|by destruct Hn'].
  rewrite <- (same_kind_eq e' (nd_limits n) (Limits o)) by congruence.
  destruct (same_kind e' (Limits o)); destruct Hn' as [Hn' _]; [|done]. by exists e'.
Qed.

Lemma Forall2_trans {A B C} (R : A -> B -> Prop) (S : B -> C -> Prop) (T : A -> C -> Prop) l m n :
  (forall x y z, R x y -> S y z -> T x z) -> Forall2 R l m -> Forall2 S m n -> Forall2 T l n.
Proof.
  intros H Hl. revert n. induction Hl; intros n Hm; inversion Hm; subst; constructor; eauto.
Qed.

Lemma retune_all f l : (forall path e g, f path e = Some g -> shares g = shares e /\ nullish g = false) ->
  Forall2 (retuned f) (all_nodes l) (all_nodes (map (retune f "" None) l)).
Proof.
  intros Hf. unfold all_nodes. rewrite map_map. apply Forall2_concat_map. apply list.Forall_forall.
  intros c _. by apply retune_nodes.
Qed.

(** The two passes of [planTemplateBuild], a missing one being one with no
    entries. *)
Lemma plan_pass_none c : forall path i, retune (plan_pass []) path i c = c.
Proof.
  induction c as [d own subs IH] using CreateClientData_ind'. intros path i. cbn. f_equal.
  rewrite <- (map_id subs) at 2. apply map_ext_in. intros s Hs. rewrite list.Forall_forall in IH. apply IH.
  by apply list_elem_of_In.
Qed.

Lemma override_pass_none c : forall path i, retune (override_pass []) path i c = c.
Proof.
  induction c as [d own subs IH] using CreateClientData_ind'. intros path i. cbn. f_equal.
  rewrite <- (map_id subs) at 2. apply map_ext_in. intros s Hs. rewrite list.Forall_forall in IH. apply IH.
  by apply list_elem_of_In.
Qed.

Lemma assert_instance_names_ok templateName instanceId l : assert_instance_names templateName instanceId l = Ok tt ->
  Forall (fun c => instanceId ∈ split_char ":" (cd_name c)) l.
Proof.
  induction l as [|c l IH]; cbn [assert_instance_names]; [by constructor|]. case_bool_decide; [|done].
  intros Hl. constructor; auto.
Qed.

Lemma planTemplateBuild_spec template templateName instanceId credentials settings build :
  planTemplateBuild template templateName instanceId credentials settings = Ok build ->
  let context := (resolveTemplateContext templateName (tp_options template) settings).1 in
  exists built, tp_builder template credentials context = Ok built /\
    tb_clients build = map (retune (override_pass (overrides_in settings)) "" None)
                         (map (retune (plan_pass (plan_of context)) "" None) built) /\
    Forall (fun c => instanceId ∈ split_char ":" (cd_name c)) (tb_clients build).
Proof.
  unfold planTemplateBuild. cbv zeta. set (context := fst _). unfold plan_of, overrides_in.
  destruct (tp_builder template credentials context) as [built|]; [|done]. cbn [mbind result_bind rbind].
  assert (match tx_rateLimits context with
          | Some rateLimits => (applyPlan templateName (default "" (tx_rateLimitOption context)) built rateLimits).1
          | None => built end = map (retune (plan_pass (default [] (tx_rateLimits context))) "" None) built) as ->.
  { destruct (tx_rateLimits context) as [rl|]; cbn [default applyPlan fst].
    - apply map_ext. intros c. by rewrite plan_retunes.
    - rewrite <- (map_id built) at 1. apply map_ext. intros c. by rewrite plan_pass_none. }
  set (planned := map _ built). intros H. exists built. split; [done|].
  assert (match ts_rateLimitOverrides settings with
          | Some overrides => if bool_decide (overrides = []) then planned else map (applyOverrides overrides "" None) planned
          | None => planned end = map (retune (override_pass (default [] (ts_rateLimitOverrides settings))) "" None) planned) as E.
  { assert (planned = map (retune (override_pass []) "" None) planned) as Hid.
    { rewrite <- (map_id planned) at 1. apply map_ext. intros c. by rewrite override_pass_none. }
    destruct (ts_rateLimitOverrides settings) as [ov|]; cbn [default]; [|done]. case_bool_decide; [by subst|].
    apply map_ext. intros c. by rewrite overrides_retune. }
  rewrite E in H. destruct (assert_instance_names _ _ _) as [[]|] eqn:Ei; [|done]. injection H as <-.
  split; [done|]. by eapply assert_instance_names_ok.
Qed.

(** C40: What a tenant's clients are built with.  When the template's plans
    passed their check, a build that succeeds is the builder's own clients,
    client by client and in order, each at its path: an override of the same
    kind (one that shares another client's budget, or one that owns its own)
    replaces its limits and takes the names of the list it replaces, else the
    plan's entry of the same kind does, else its own stand; none changes kind,
    not even through what its ancestors pass down.  Each root names its
    instance.  And whatever clients stand already, the clients constructed from
    it are each a client of the build, with exactly the limits in force there,
    which are usable, metered if and only if those limits are its own, and
    whoever lends another its budget is constructed too, or stays, and owns
    it. *)
Theorem build_keeps_kinds (template : RegisteredTemplate) (templateName instanceId : string) (credentials : value)
    (settings : TemplateClientOptions) (build : TemplateBuild) :
  assertTemplateOptions templateName (tp_options template) = Ok tt ->
  planTemplateBuild template templateName instanceId credentials settings = Ok build ->
  let context := (resolveTemplateContext templateName (tp_options template) settings).1 in
  exists built, tp_builder template credentials context = Ok built /\
    Forall2 (placed (plan_of context) (overrides_in settings)) (all_nodes built) (all_nodes (tb_clients build)) /\
    Forall (fun c => instanceId ∈ split_char ":" (cd_name c)) (tb_clients build) /\
    forall supports same_object clients retiring fresh replacements,
      Forall spelled (all_nodes (tb_clients build)) ->
      prepareClients supports same_object clients retiring fresh (tb_clients build) = Ok replacements ->
      Forall (fun r => (exists n, n ∈ all_nodes (tb_clients build) /\ built_for n r) /\
                       lender_sound clients retiring replacements r) replacements.
Proof.
  intros Hopt Hbuild. destruct (planTemplateBuild_spec _ _ _ _ _ _ Hbuild) as (built & Hb & Hc & Hi). exists built.
  split; [done|]. split; [|split; [done|intros; by eapply prepareClients_spec]]. rewrite Hc.
  eapply Forall2_trans; [apply passes_placed| |].
  - apply retune_all. intros path e g. by apply plan_pass_ok, (chosen_plan templateName (tp_options template)).
  - apply retune_all. intros path e g. apply override_pass_ok.
Qed.

(** A tenant of two clients: the root paces itself, [reports] borrows from it.
    The plan retunes the root and would give [reports] a budget of its own; the
    operator overrides the root. *)
Definition per_second (n : Z) (name : option string) : DeclaredRateLimit :=
  {| d_limit := requestLimit {| rl_interval := int 1000; rl_tokensToAdd := int n; rl_maxTokens := int n; rl_maxDebt := None |};
     d_name := name |}.

Definition demo_fields (name : string) : ClientFields :=
  {| cf_name := name; cf_authOwnerName := None; cf_authentication := None; cf_metadata := None; cf_axiosOptions := None;
     cf_requestOptions := None; cf_retryOptions := None; cf_rest := [] |}.

Definition demo_template : RegisteredTemplate :=
  {| tp_builder := fun _ _ =>
       Ok [CreateClient (demo_fields "crm:acme") (Some (Limits [per_second 5 None]))
             [CreateClient (demo_fields "reports") (Some (Limits [{| d_limit := sharedLimit "crm:acme"; d_name := None |}])) []]];
     tp_options := {| to_rateLimitOptions := Some [("gold", PathPlan [("", Limits [per_second 50 (Some "burst")]);
                                                                      ("reports", Limits [per_second 9 None])])];
                      to_defaultRateLimitOption := Some "gold" |} |}.

Definition demo_settings : TemplateClientOptions :=
  {| ts_rateLimitOption := None; ts_rateLimitOverrides := Some [("", [per_second 70 None])] |}.

Definition demo_build : TemplateBuild :=
  {| tb_clients :=
       [CreateClient (demo_fields "crm:acme") (Some (Limits [per_second 70 (Some "burst")]))
          [CreateClient (demo_fields "reports") (Some (Limits [{| d_limit := sharedLimit "crm:acme"; d_name := None |}])) []]];
     tb_names := ["crm:acme"; "crm:acme:reports"] |}.

Lemma build_keeps_kinds_witness : exists built replacements,
  tp_builder demo_template VUndefined no_context = Ok built /\
  length (all_nodes built) = length (all_nodes (tb_clients demo_build)) /\
  prepareClients (fun _ => true) (fun _ _ => false) [] [] 0 (tb_clients demo_build) = Ok replacements /\
  map bc_kind replacements = [MeteredKind; SharedKind "crm:acme"] /\
  Forall (lender_sound [] [] replacements) replacements.
Proof.
  destruct (build_keeps_kinds demo_template "crm" "acme" VUndefined demo_settings demo_build) as (built & Hb & H2 & _ & H).
  { vm_compute. reflexivity. }
  { vm_compute. reflexivity. }
  destruct (prepareClients (fun _ => true) (fun _ _ => false) [] [] 0 (tb_clients demo_build)) as [replacements|e] eqn:E;
    [|exfalso; revert E; vm_compute; discriminate].
  exists built, replacements. split; [exact Hb|]. split; [exact (Forall2_length _ _ _ H2)|]. split; [reflexivity|]. split.
  - revert E. vm_compute. intros [= <-]. reflexivity.
  - eapply Forall_impl; [eapply H; [|exact E]|intros r [_ Hr]; exact Hr].
    repeat constructor; intros g [= <-]; reflexivity.
Defined.
