(* ===== verification/LifecycleProps.v ===== *)
(** * What the lifecycle promises

    Whatever calls come in and however the awaited steps settle, a handler
    starts or stops one at a time, hears each message once while it is up, and a
    stop ends, leaving it stopped and refusing until somebody starts it. *)
From S2P Require Import Prelude JsNumber Election Lifecycle.
Local Open Scope Z_scope.

(** ** The invariant *)

Definition tearing (x : option stop_stage) : bool :=
  match x with Some (Draining | AwaitingInFlight | Deregistering | ClosingBackend) => true | _ => false end.

Definition up (s : Lifecycle) : Prop := lc_status s = starting \/ lc_status s = started.

Record sound (s : Lifecycle) : Prop := {
  so_starting : lc_status s = starting <-> lc_running s <> None;
  so_running : forall p st, lc_running s = Some (p, st) -> lc_startPromise s = Some p;
  so_promise : forall p, lc_startPromise s = Some p -> (p < lc_next s)%nat /\ p ∉ lc_closing s /\ p ∉ lc_rejected s;
  so_old : forall p, p ∈ lc_closing s \/ p ∈ lc_rejected s -> (p < lc_next s)%nat;
  so_stopped : lc_status s = stopped -> lc_startPromise s = None /\ lc_subscriptionsStarted s = false;
  so_up : up s -> lc_subscriptionsStarted s = true /\ lc_startPromise s <> None;
  so_stopping : lc_status s = stopping <-> tearing (lc_stop s) = true;
  so_handlers : lc_handlers s
    = if lc_subscriptionsStarted s && negb (bool_decide (lc_stop s = Some ClosingBackend)) then 1%nat else 0%nat;
  so_hooks : lc_shutdownHooks s = bool_decide (lc_status s = started);
  so_settling : lc_stop s = Some Settling -> lc_status s = stopped;
  so_awaiting : forall p, lc_stop s = Some (AwaitingStart p) ->
    lc_startPromise s = Some p \/ (lc_status s = stopped /\ (p ∈ lc_closing s \/ p ∈ lc_rejected s))
}.

Lemma fresh_sound id hooks : sound (fresh_handler id hooks).
Proof.
  split; unfold up; cbn; try done; try naive_solver.
  intros p Hp. exfalso. destruct Hp as [Hp|Hp]; inversion Hp.
Qed.

(** The fields the invariant speaks of. *)
Definition same_core (s s' : Lifecycle) : Prop :=
  lc_status s' = lc_status s /\ lc_startPromise s' = lc_startPromise s /\ lc_running s' = lc_running s /\
  lc_closing s' = lc_closing s /\ lc_rejected s' = lc_rejected s /\ lc_next s' = lc_next s /\ lc_stop s' = lc_stop s /\
  lc_subscriptionsStarted s' = lc_subscriptionsStarted s /\ lc_handlers s' = lc_handlers s /\
  lc_shutdownHooks s' = lc_shutdownHooks s.

Lemma same_core_refl s : same_core s s.
Proof. by repeat split. Qed.

Lemma same_core_trans s s' s'' : same_core s s' -> same_core s' s'' -> same_core s s''.
Proof. unfold same_core. intros H1 H2. intuition congruence. Qed.

Lemma same_core_sound s s' : same_core s s' -> sound s -> sound s'.
Proof.
  intros (H1 & H2 & H3 & H4 & H5 & H6 & H7 & H8 & H9 & H10) [].
  split; unfold up in *; rewrite ?H1, ?H2, ?H3, ?H4, ?H5, ?H6, ?H7, ?H8, ?H9, ?H10; assumption.
Qed.

(** What a peer's message or timer writes is outside it. *)
Lemma started_core peer now s : same_core s (handleInstanceStarted peer now s).
Proof. unfold handleInstanceStarted. case_bool_decide; [apply same_core_refl|]. by destruct (lc_status s) eqn:E; repeat split; rewrite ?E. Qed.

Lemma heartbeat_core peer now s : same_core s (handleInstanceHeartbeat peer now s).
Proof.
  unfold handleInstanceHeartbeat. case_bool_decide; [apply same_core_refl|].
  destruct (omap_get _ _); [by repeat split|apply started_core].
Qed.

Lemma stopped_core peer s : same_core s (handleInstanceStopped peer s).
Proof. unfold handleInstanceStopped. case_bool_decide; by repeat split. Qed.

Lemma delivered_core f s : (forall s, same_core s (f s)) -> same_core s (delivered f s).
Proof.
  intros Hf. unfold delivered. induction (lc_handlers s) as [|n IH]; cbn; [apply same_core_refl|].
  eapply same_core_trans; [exact IH|apply Hf].
Qed.

(** ** Every label keeps it *)

Lemma with_caller_core b s : same_core s (with_caller b s).
Proof. by repeat split. Qed.

(** Without a stop that tears down, a handler with no start promise is stopped. *)
Lemma idle_stopped s : sound s -> lc_startPromise s = None -> tearing (lc_stop s) = false -> lc_status s = stopped.
Proof.
  intros [] Hp Ht. unfold up in *. destruct (lc_status s) eqn:E; [|..|done].
  - destruct so_up0 as [_ []]; auto.
  - destruct so_up0 as [_ []]; auto.
  - destruct so_stopping0 as [H _]. by rewrite H in Ht.
Qed.

Lemma doStart_sound s : sound s -> lc_startPromise s = None -> lc_stop s = None -> sound (doStart s).
Proof.
  intros Hs Hp Hn. pose proof (idle_stopped s Hs Hp ltac:(by rewrite Hn)) as Hst. destruct Hs.
  destruct (so_stopped0 Hst) as [_ Hsub]. rewrite Hsub in so_handlers0. cbn in so_handlers0.
  unfold doStart, subscribe_, up. cbn. rewrite Hsub. cbn.
  split; cbn; rewrite ?Hn, ?so_handlers0, ?so_hooks0, ?Hst; unfold up; cbn; try done.
  - by intros ? ? [= <- _].
  - intros ? [= <-]. split; [lia|]. split; intros Hin; exfalso; [specialize (so_old0 (lc_next s) ltac:(by left))|specialize (so_old0 (lc_next s) ltac:(by right))]; lia.
  - intros p Hin. specialize (so_old0 p Hin). lia.
Qed.

Lemma enter_start_sound s : sound s -> resumable s = true -> sound (enter_start s).
Proof.
  intros Hs Hr. unfold enter_start. pose proof (same_core_sound _ _ (with_caller_core false s) Hs) as Hs'.
  case_bool_decide; [done|]. destruct (lc_startPromise (with_caller false s)) as [p|] eqn:E; [done|].
  apply doStart_sound; [done|done|]. cbn in *. unfold resumable in Hr. destruct (lc_stop s) as [[]|] eqn:En; try done.
  apply bool_decide_eq_true in Hr. destruct (lc_running s) as [[q st]|] eqn:Er; [|done]. 
  destruct Hs. specialize (so_running0 _ _ Er). congruence.
Qed.

Lemma set_stage_sound p st st' s : sound s -> lc_running s = Some (p, st) -> sound (set_stage p st' s).
Proof.
  intros [] Hr. split; unfold up in *; cbn; try assumption.
  - rewrite so_starting0, Hr. done.
  - intros ? ? [= <- _]. by eapply so_running0.
Qed.

Lemma hooks_ran_core n ran s : same_core s (with_hooks n ran (lc_shutdownHooks s) s).
Proof. by repeat split. Qed.

Lemma next_hook_sound p i st s : sound s -> lc_running s = Some (p, st) -> sound (next_hook p i s).
Proof.
  intros Hs Hr. unfold next_hook. case_match; [by eapply set_stage_sound|].
  eapply set_stage_sound; [by eapply same_core_sound, Hs; apply hooks_ran_core|exact Hr].
Qed.

(** While a start runs, no stop is past the wait for it. *)
Lemma running_status s p st : sound s -> lc_running s = Some (p, st) ->
  lc_status s = starting /\ tearing (lc_stop s) = false /\ lc_stop s <> Some Settling.
Proof.
  intros [] Hr. assert (lc_status s = starting) as Hst by (apply so_starting0; by rewrite Hr). split; [done|].
  rewrite Hst in *. split; [|intros H; by specialize (so_settling0 H)].
  destruct (tearing (lc_stop s)); [|done]. by destruct so_stopping0 as [_ H]; specialize (H eq_refl).
Qed.

Lemma start_step_sound ok s s' : sound s -> start_step ok s = Some s' -> sound s'.
Proof.
  intros Hs. unfold start_step. destruct (lc_running s) as [[p st]|] eqn:Er; [|done]. cbn. intros [= <-].
  destruct (running_status _ _ _ Hs Er) as (Hst & Ht & Hse). destruct ok.
  - destruct st; [by eapply set_stage_sound|by eapply next_hook_sound|by eapply next_hook_sound|by eapply set_stage_sound|].
    destruct Hs. split; unfold up in *; cbn in *; rewrite ?Hst in *; try assumption; try done; try naive_solver.
  - destruct Hs. split; unfold up in *; cbn in *; rewrite ?Hst in *; try assumption; try done.
    + intros q [[Hq|Hq%list_elem_of_singleton]%elem_of_app|Hq]; [by apply so_old0; left| |by apply so_old0; right].
      subst q. by destruct (so_promise0 p (so_running0 _ _ Er)).
    + by intros [|].
    + by rewrite Ht.
    + intros q Hq. right. split; [done|]. rewrite elem_of_app, list_elem_of_singleton.
      destruct (so_awaiting0 q Hq) as [H|[H _]]; [|done]. rewrite (so_running0 _ _ Er) in H. injection H as ->. auto.
Qed.

Lemma close_settles_sound p s : sound s ->
  sound (with_start (lc_startPromise s) (lc_running s) (oset_delete p (lc_closing s)) (p :: lc_rejected s) (lc_next s) s)
  \/ p ∉ lc_closing s.
Proof.
  intros Hs. destruct (decide (p ∈ lc_closing s)) as [Hp|]; [left|by right]. destruct Hs.
  assert (forall q, q ∈ oset_delete p (lc_closing s) <-> q <> p /\ q ∈ lc_closing s) as Hdel
    by (intros q; unfold oset_delete; by rewrite list_elem_of_filter).
  split; unfold up in *; cbn; try assumption.
  - intros q Hq. destruct (so_promise0 q Hq) as (H1 & H2 & H3). split; [done|]. rewrite Hdel, elem_of_cons.
    split; [tauto|]. intros [->|H]; [done|done].
  - intros q. rewrite Hdel, elem_of_cons. intros [[_ H]|[->|H]]; apply so_old0; auto.
  - intros q Hq. destruct (so_awaiting0 q Hq) as [H|[Hst [H|H]]]; [by left|right..]; (split; [done|]);
      rewrite Hdel, elem_of_cons; destruct (decide (q = p)); auto.
Qed.

Lemma at_stop_fields x s : lc_stop (at_stop x s) = Some x /\ lc_status (at_stop x s) = lc_status s.
Proof. done. Qed.

(** From a handler that is up and that no stop tears down. *)
Lemma doStop_up_sound s : sound s -> lc_status s = started -> sound (doStop s) /\ lc_stop (doStop s) = Some Draining.
Proof.
  intros Hs Hst. unfold doStop. rewrite Hst. split; [|done]. destruct Hs. destruct so_up0 as [Hsub Hp]; [by right|].
  assert (lc_running s = None) as Hr.
  { destruct (lc_running s); [|done]. destruct so_starting0 as [_ H]. by rewrite H in Hst. }
  assert (tearing (lc_stop s) = false) as Ht.
  { destruct (tearing (lc_stop s)); [|done]. destruct so_stopping0 as [_ H]. by rewrite H in Hst. }
  split; unfold up; cbn; rewrite ?Hr, ?Hsub in *; try done; try by intros [].
  rewrite so_handlers0. by destruct (lc_stop s) as [[]|].
Qed.

(** Between the stages of a teardown. *)
Lemma tearing_step_sound x s : sound s -> tearing (lc_stop s) = true -> lc_stop s <> Some ClosingBackend ->
  tearing (Some x) = true -> x <> ClosingBackend -> sound (at_stop x s).
Proof.
  intros [] Ht Hc Hx Hxc. assert (lc_status s = stopping) as Hst by by apply so_stopping0.
  split; unfold up in *; cbn; rewrite ?Hst in *; try assumption; try done.
  - rewrite so_handlers0. destruct (lc_subscriptionsStarted s); [|done]. cbn.
    by rewrite !bool_decide_false by congruence.
  - intros ->%(inj Some). done.
  - intros p ->%(inj Some). done.
Qed.

Lemma close_backend_sound s : sound s -> tearing (lc_stop s) = true -> sound (close_backend s).
Proof.
  intros [] Ht. assert (lc_status s = stopping) as Hst by by apply so_stopping0.
  split; unfold up in *; cbn; rewrite ?Hst in *; try assumption; try done.
  by destruct (lc_subscriptionsStarted s).
Qed.

Lemma finish_stop_sound s : sound s -> lc_stop s = Some ClosingBackend -> sound (finish_stop s) /\ lc_status (finish_stop s) = stopped.
Proof.
  intros [] Hc. assert (lc_status s = stopping) as Hst by (apply so_stopping0; by rewrite Hc). split; [|done].
  rewrite Hc in so_handlers0. rewrite andb_false_r in so_handlers0.
  assert (lc_running s = None) as Hr.
  { destruct (lc_running s); [|done]. destruct so_starting0 as [_ H]. by rewrite H in Hst. }
  split; unfold up; cbn; rewrite ?Hr, ?Hst, ?so_handlers0, ?so_hooks0 in *; try assumption; try done; try by intros [].
Qed.

Lemma settle_sound s w : sound s -> lc_stop s = Some Settling -> sound (with_stop None w true s).
Proof.
  intros [] Hc. pose proof (so_settling0 Hc) as Hst. destruct (so_stopped0 Hst) as [Hp Hsub].
  split; unfold up in *; cbn; rewrite ?Hst, ?Hsub, ?Hp in *; try assumption; try done; by intros [].
Qed.

Lemma rejected_sound p s : sound s -> lc_stop s = Some (AwaitingStart p) -> settled p s = true -> p ∈ lc_rejected s ->
  sound (at_stop Settling s).
Proof.
  intros [] Ha Hse Hr. destruct (so_awaiting0 p Ha) as [H|[Hst _]]; [by destruct (so_promise0 p H) as (_ & _ & ?)|].
  destruct (so_stopped0 Hst) as [Hp Hsub].
  split; unfold up in *; cbn; rewrite ?Hst, ?Hsub, ?Hp in *; try assumption; try done.
Qed.

(** A start that is over and was not rejected left its handler started. *)
Lemma awaited_started p s : sound s -> lc_stop s = Some (AwaitingStart p) -> settled p s = true -> p ∉ lc_rejected s ->
  lc_status s = started.
Proof.
  intros [] Ha Hse Hr. unfold settled in Hse. apply andb_prop in Hse as [H1 H2].
  apply negb_true_iff, bool_decide_eq_false in H1, H2.
  destruct (so_awaiting0 p Ha) as [Hp|[_ [H|H]]]; [|done..].
  destruct (lc_status s) eqn:E; [|done|..].
  - destruct (lc_running s) as [[q st]|] eqn:Er; [|by destruct so_starting0 as [H _]; destruct (H eq_refl)].
    rewrite (so_running0 _ _ eq_refl) in Hp. injection Hp as ->. done.
  - destruct so_stopping0 as [H _]. rewrite Ha in H. by specialize (H eq_refl).
  - destruct (so_stopped0 eq_refl) as [H _]. congruence.
Qed.

Lemma stop_step_sound ok s s' : sound s -> stop_step ok s = Some s' -> sound s'.
Proof.
  intros Hs. unfold stop_step. destruct (lc_stop s) as [x|] eqn:Ex; [|done]. cbn.
  destruct x as [p| | | | |].
  - destruct (settled p s) eqn:Ese; [|done]. case_bool_decide as Hr; intros [= <-]; [by eapply rejected_sound|].
    apply doStop_up_sound; [done|by eapply awaited_started].
  - destruct ok; intros [= <-]; [|by apply close_backend_sound; rewrite ?Ex].
    eapply same_core_sound; [|apply (tearing_step_sound AwaitingInFlight s)]; rewrite ?Ex; done.
  - destruct ok; intros [= <-]; [|by apply close_backend_sound; rewrite ?Ex]. apply tearing_step_sound; by rewrite ?Ex.
  - intros [= <-]. apply close_backend_sound; by rewrite ?Ex.
  - intros [= <-]. by apply finish_stop_sound.
  - intros [= <-]. by apply settle_sound.
Qed.

Lemma stop_sound s : sound s -> sound (stop s).
Proof.
  intros Hs. unfold stop. destruct (lc_stop s) as [x|] eqn:Ex; [done|].
  destruct (lc_status s) eqn:Est; [|by apply doStop_up_sound|by eapply same_core_sound, Hs; apply with_caller_core..].
  pose proof Hs as []. destruct so_up0 as [Hsub Hp]; [by left|]. destruct (lc_startPromise s) as [p|] eqn:Ep; [|done].
  rewrite Ex, Hsub in so_handlers0. cbn in so_handlers0.
  split; unfold up in *; cbn; rewrite ?Ex, ?Est, ?Hsub, ?Ep, ?so_handlers0 in *; try assumption; try done.
  intros ? [= <-]. by left.
Qed.

Lemma lstep_sound l s s' : sound s -> lstep l s = Some s' -> sound s'.
Proof.
  intros Hs. destruct l as [| |ok|p| |ok| | |cl tn|peer now|peer now|peer|t now]; cbn [lstep].
  - intros [= <-]. unfold start. destruct (lc_stop s) as [x|] eqn:Ex.
    + eapply same_core_sound, Hs. by repeat split.
    + apply enter_start_sound; [done|]. unfold resumable. by rewrite Ex.
  - destruct (lc_waiting s) as [|w]; [done|]. destruct (resumable s) eqn:Er; [|done]. intros [= <-].
    apply enter_start_sound; [|exact Er]. eapply same_core_sound, Hs. by repeat split.
  - by apply start_step_sound.
  - case_bool_decide; [|done]. intros [= <-]. by destruct (close_settles_sound p s Hs).
  - intros [= <-]. by apply stop_sound.
  - by apply stop_step_sound.
  - intros [= <-]. eapply same_core_sound, Hs. by repeat split.
  - destruct (lc_status s) eqn:E; intros [= <-]; try done; (eapply same_core_sound, Hs; by repeat split).
  - intros [= <-]. eapply same_core_sound, Hs. by repeat split.
  - intros [= <-]. eapply same_core_sound, Hs. apply delivered_core, started_core.
  - intros [= <-]. eapply same_core_sound, Hs. apply delivered_core, heartbeat_core.
  - intros [= <-]. eapply same_core_sound, Hs. apply delivered_core, stopped_core.
  - destruct (omap_get _ _) as [[peer due]|]; [|done]. case_match; [|done]. intros [= <-].
    eapply same_core_sound, Hs. eapply same_core_trans; [|apply stopped_core]. by repeat split.
Qed.

Lemma reachable_sound id hooks s : reachable id hooks s -> sound s.
Proof. induction 1; [apply fresh_sound|by eapply lstep_sound]. Qed.

Lemma lrun_sound ls : forall s s', sound s -> lrun ls s = Some s' -> sound s'.
Proof.
  induction ls as [|l ls IH]; cbn; intros s s' Hs; [by intros [= <-]|].
  intros (s1 & H1 & H2)%bind_Some. eapply IH; [|exact H2]. by eapply lstep_sound.
Qed.

Lemma lrun_reachable id hooks ls : forall s s', reachable id hooks s -> lrun ls s = Some s' -> reachable id hooks s'.
Proof.
  induction ls as [|l ls IH]; cbn; intros s s' Hs; [by intros [= <-]|].
  intros (s1 & H1 & H2)%bind_Some. eapply IH; [|exact H2]. by econstructor.
Qed.

(** A property kept by every label a schedule may use holds along it. *)
Lemma lrun_invariant (ok : Label -> Prop) (P : Lifecycle -> Prop) :
  (forall l s s', ok l -> sound s -> P s -> lstep l s = Some s' -> P s') ->
  forall ls s s', Forall ok ls -> sound s -> P s -> lrun ls s = Some s' -> P s'.
Proof.
  intros Hstep ls. induction ls as [|l ls IH]; cbn; intros s s' Hok Hs HP; [by intros [= <-]|].
  apply Forall_cons in Hok as [Hl Hok]. intros (s1 & H1 & H2)%bind_Some.
  eapply IH; [done| |by eapply Hstep|exact H2]. by eapply lstep_sound.
Qed.

(** ** After a stop *)

(** Stopped by a caller, and nobody waits to start it. *)
Definition quiet (s : Lifecycle) : Prop :=
  lc_status s = stopped /\ lc_stop s = None /\ lc_stoppedByCaller s = true.

Lemma delivered_none f s : lc_handlers s = 0%nat -> delivered f s = s.
Proof. unfold delivered. by intros ->. Qed.

Lemma stopped_unheard s : sound s -> lc_status s = stopped -> lc_handlers s = 0%nat /\ lc_running s = None.
Proof.
  intros [] Hst. destruct (so_stopped0 Hst) as [_ Hsub]. rewrite so_handlers0, Hsub. split; [done|].
  destruct (lc_running s); [|done]. destruct so_starting0 as [_ H]. by rewrite H in Hst.
Qed.

Lemma quiet_step l s s' : l <> CallStart -> (l = ResumeStart -> lc_waiting s = 0%nat) -> sound s -> quiet s ->
  lstep l s = Some s' -> quiet s' /\ lc_waiting s' = lc_waiting s.
Proof.
  intros Hc Hw Hs (Hst & Hn & Hby). destruct (stopped_unheard s Hs Hst) as [Hh Hrun].
  destruct l as [| |ok|p| |ok| | |cl tn|peer now|peer now|peer|t now]; cbn [lstep]; try done;
    rewrite ?(delivered_none _ _ Hh); try by intros [= <-].
  - by rewrite Hw.
  - unfold start_step. by rewrite Hrun.
  - case_bool_decide; [|done]. by intros [= <-].
  - unfold stop. rewrite Hn, Hst. by intros [= <-].
  - unfold stop_step. by rewrite Hn.
  - rewrite Hst. by intros [= <-].
  - destruct (omap_get _ _) as [[peer due]|]; [|done]. case_match; [|done]. intros [= <-].
    unfold handleInstanceStopped. by case_bool_decide.
Qed.

(** ** A stop ends *)

(** The labels that settle what is awaited already. *)
Definition internal (l : Label) : bool :=
  match l with StartStep _ | CloseSettles _ | StopStep _ => true | _ => false end.

Definition start_work (hooks : nat) (r : option (nat * start_stage)) : nat :=
  match r with
  | None => 0
  | Some (_, Subscribing) => hooks + 6
  | Some (_, BuildingDefault) => hooks + 5
  | Some (_, RunningHook i) => (hooks - S i) + 5
  | Some (_, LoadingTenants) => 4
  | Some (_, ElectingRoles) => 3
  end.

Definition stop_work (x : option stop_stage) : nat :=
  match x with
  | None => 0 | Some Settling => 1 | Some ClosingBackend => 2 | Some Deregistering => 3
  | Some AwaitingInFlight => 4 | Some Draining => 5 | Some (AwaitingStart _) => 6
  end.

(** How many awaited steps are left at most. *)
Definition work (s : Lifecycle) : nat :=
  start_work (lc_startupHooks s) (lc_running s) + 2 * length (lc_closing s) + stop_work (lc_stop s).

Lemma oset_delete_shorter (p : nat) l : p ∈ l -> (length (oset_delete p l) < length l)%nat.
Proof.
  unfold oset_delete. induction l as [|q l IH]; [intros H; exfalso; inversion H|].
  rewrite elem_of_cons. intros [<-|H].
  - rewrite filter_cons_False by (by intros []). cbn. pose proof (length_filter (fun k' => k' <> p) l). lia.
  - rewrite filter_cons. specialize (IH H). case_decide; cbn; lia.
Qed.

Lemma internal_works l s s' : internal l = true -> lstep l s = Some s' -> (work s' < work s)%nat.
Proof.
  unfold work. destruct l as [| |ok|p| |ok| | |cl tn|peer now|peer now|peer|t now]; cbn [internal lstep]; try done; intros _.
  - unfold start_step. destruct (lc_running s) as [[p st]|] eqn:E; [|done]. cbn. intros [= <-]. destruct ok.
    + destruct st as [| |i| |]; unfold next_hook; try (cbn; lia).
      * destruct (Nat.ltb_spec 0 (lc_startupHooks s)); cbn; lia.
      * destruct (Nat.ltb_spec (S i) (lc_startupHooks s)); cbn; lia.
    + cbn. rewrite length_app. destruct st; cbn; lia.
  - case_bool_decide as Hp; [|done]. intros [= <-]. cbn. apply oset_delete_shorter in Hp. lia.
  - unfold stop_step. destruct (lc_stop s) as [x|] eqn:E; [|done]. cbn.
    destruct x as [p| | | | |]; [|destruct ok..|]; repeat case_match; try done; intros [= <-]; cbn; try lia.
    unfold doStop. destruct (lc_status s); cbn; lia.
Qed.

Lemma settle_quiet ok s s' : sound s -> lc_stop s = Some Settling -> stop_step ok s = Some s' ->
  quiet s' /\ lc_waiting s' = lc_waiting s.
Proof. intros [] Hc. unfold stop_step. rewrite Hc. cbn. intros [= <-]. split; [|done]. by repeat split; cbn; auto. Qed.

(** While a stop is pending, something it awaits can settle. *)
Lemma stop_progress s : sound s -> lc_stop s <> None -> exists l s', internal l = true /\ lstep l s = Some s'.
Proof.
  intros Hs Hn. destruct (lc_stop s) as [x|] eqn:E; [clear Hn|done].
  assert ((forall p, x = AwaitingStart p -> settled p s = true) -> exists l s', internal l = true /\ lstep l s = Some s') as Hstop.
  { intros Hx. exists (StopStep true). cbn. unfold stop_step. rewrite E. cbn. destruct x; try by eexists.
    rewrite (Hx p eq_refl). by eexists. }
  destruct x as [p| | | | |]; try by apply Hstop. destruct (settled p s) eqn:Hse; [apply Hstop; by intros ? [= <-]|].
  clear Hstop. unfold settled in Hse. case_bool_decide as H1.
  - exists (StartStep true). cbn. unfold start_step. destruct (lc_running s) as [[q st]|]; [by eexists|done].
  - cbn in Hse. case_bool_decide as H2; [|done]. exists (CloseSettles p). cbn. rewrite bool_decide_true by done. by eexists.
Qed.

(** A stop that is pending stays so until it has settled. *)
Definition stopping_or_quiet (s : Lifecycle) : Prop := lc_stop s <> None \/ quiet s.

Lemma stopping_or_quiet_step l s s' : internal l = true -> sound s -> stopping_or_quiet s -> lstep l s = Some s' ->
  stopping_or_quiet s'.
Proof.
  intros Hl Hs [Hn|Hq] Hstep; [|right; eapply quiet_step; [..|exact Hstep]; by try intros ->].
  destruct l; try done; cbn [lstep] in Hstep.
  - left. unfold start_step in Hstep. destruct (lc_running s) as [[p st]|]; [|done]. cbn in Hstep. injection Hstep as <-.
    destruct ok; [|done]. destruct st; unfold next_hook; repeat case_match; done.
  - left. case_bool_decide; [|done]. by injection Hstep as <-.
  - destruct (lc_stop s) as [x|] eqn:E; [clear Hn|done]. destruct (decide (x = Settling)) as [->|Hx].
    { right. by apply (settle_quiet ok s). }
    left. unfold stop_step in Hstep. rewrite E in Hstep. cbn in Hstep.
    destruct x as [p| | | | |]; [|destruct ok..]; repeat case_match; try done; injection Hstep as <-; try done.
    unfold doStop. by destruct (lc_status s).
Qed.

(** ** The properties *)

(** C4: In every state a handler can reach, whatever calls come in, in whatever
    order and with whatever outcome the awaited steps settle: it is starting
    exactly while one start runs, and stopping exactly while one stop tears it
    down; while it is starting or started the backend delivers it every message
    exactly once, and while it is stopped none; the signal listeners are there
    exactly while it is started.  And a stop, when its promise settles, leaves it
    stopped; from there, until [start] is called, it stays stopped, hears
    nothing and refuses every request and mutation with [handler_stopped]. *)
Theorem lifecycle_sound (id : string) (hooks : nat) (s : Lifecycle) : reachable id hooks s ->
  (lc_status s = starting <-> lc_running s <> None) /\
  (lc_status s = stopping <-> tearing (lc_stop s) = true) /\
  (up s -> lc_handlers s = 1%nat) /\ (lc_status s = stopped -> lc_handlers s = 0%nat) /\
  (lc_shutdownHooks s = true <-> lc_status s = started) /\
  forall ok s' ls s'', lc_stop s = Some Settling -> stop_step ok s = Some s' -> lc_waiting s = 0%nat ->
    Forall (fun l => l <> CallStart) ls -> lrun ls s' = Some s'' ->
    lc_status s'' = stopped /\ lc_handlers s'' = 0%nat /\ refusal s'' = Some "handler_stopped".
Proof.
  intros Hr%reachable_sound. pose proof Hr as []. split_and!; try done.
  - intros Hup. rewrite so_handlers0. destruct (so_up0 Hup) as [-> _]. rewrite bool_decide_false; [done|].
    intros Hc. rewrite Hc in so_stopping0. destruct so_stopping0 as [_ H]. destruct Hup as [E|E]; by rewrite H in E.
  - intros Hst. by apply stopped_unheard.
  - rewrite so_hooks0. apply bool_decide_eq_true.
  - intros ok s' ls s'' Hc Hstep Hw Hls Hrun. destruct (settle_quiet _ _ _ Hr Hc Hstep) as [Hq Hw'].
    assert (sound s') as Hs' by (by eapply stop_step_sound).
    assert (quiet s'' /\ lc_waiting s'' = 0%nat) as [Hq'' _].
    { eapply (lrun_invariant (fun l => l <> CallStart) (fun s => quiet s /\ lc_waiting s = 0%nat));
        [|exact Hls|exact Hs'|split; [exact Hq|congruence]|exact Hrun].
      clear. intros l s s' Hl Hs [Hq Hw] Hstep. rewrite <- Hw. by eapply quiet_step. }
    destruct Hq'' as (Hst & Hn & Hby). split; [done|]. split; [|by unfold refusal; rewrite Hst, Hn, Hby].
    apply stopped_unheard; [|done]. by eapply lrun_sound.
Qed.

(** C24: Every stop ends.  Once [stop] is called, however the steps that are
    awaited settle, and nothing else coming in: no more than [work s] of them can
    settle, of which there is a bound in the number of startup hooks; and when
    none is left the stop has settled, and left the handler stopped and refusing. *)
Theorem stop_ends (id : string) (hooks : nat) (s : Lifecycle) (ls : list Label) (s' : Lifecycle) :
  reachable id hooks s -> lc_stop s <> None -> Forall (fun l => internal l = true) ls -> lrun ls s = Some s' ->
  (length ls <= work s)%nat /\
  (work s <= lc_startupHooks s + 2 * length (lc_closing s) + 12)%nat /\
  ((forall l, internal l = true -> lstep l s' = None) -> quiet s').
Proof.
  intros Hr%reachable_sound Hn Hls Hrun. split_and!.
  - clear Hr Hn. revert s Hrun. induction Hls as [|l ls Hl _ IH]; cbn; intros s Hrun; [lia|].
    apply bind_Some in Hrun as (s1 & H1 & H2). specialize (IH s1 H2). apply internal_works in H1; [lia|done].
  - unfold work. destruct (lc_running s) as [[p []]|]; destruct (lc_stop s) as [[]|]; cbn; lia.
  - intros Hmax. assert (sound s') as Hs' by (by eapply lrun_sound).
    assert (stopping_or_quiet s') as [Hp|]; [|exfalso|done].
    { eapply (lrun_invariant (fun l => internal l = true) stopping_or_quiet); [|exact Hls|exact Hr|by left|exact Hrun].
      intros. by eapply stopping_or_quiet_step. }
    destruct (stop_progress s' Hs' Hp) as (l & s'' & Hl & Hstep). by rewrite Hmax in Hstep.
Qed.

(** A handler with one hook is started and stopped, and called after. *)
Definition demo_shift : list Label :=
  [CallStart; StartStep true; PeerStarted "b" 0; StartStep true; StartStep true; StartStep true; StartStep true;
   CallStop; StopStep true; StopStep true; StopStep false; StopStep true].

Definition demo_stopping : Lifecycle := default (fresh_handler "" 0) (lrun demo_shift (fresh_handler "a" 1)).

Lemma lifecycle_sound_witness : exists s s', stop_step true demo_stopping = Some s /\
  lrun [CallStop; PeerStarted "c" 1; Elected] s = Some s' /\
  lc_status s' = stopped /\ lc_handlers s' = 0%nat /\ refusal s' = Some "handler_stopped".
Proof.
  destruct (stop_step true demo_stopping) as [s|] eqn:E; [|exfalso; revert E; vm_compute; discriminate].
  destruct (lrun [CallStop; PeerStarted "c" 1; Elected] s) as [s'|] eqn:E'; [|exfalso; revert E'].
  2: { revert E. vm_compute. intros [= <-]. discriminate. }
  exists s, s'. split; [done|]. split; [done|].
  assert (reachable "a" 1 demo_stopping) as Hr
    by (apply (lrun_reachable "a" 1 demo_shift (fresh_handler "a" 1)); [apply reachable_fresh|vm_compute; reflexivity]).
  destruct (lifecycle_sound "a" 1 demo_stopping Hr) as (_ & _ & _ & _ & _ & H).
  eapply (H true s [CallStop; PeerStarted "c" 1; Elected] s'); [vm_compute; reflexivity|exact E|vm_compute; reflexivity| |exact E'].
  repeat constructor; discriminate.
Defined.

(** [stop] during a start whose hook then fails. *)
Definition demo_pending : Lifecycle :=
  default (fresh_handler "" 0) (lrun [CallStart; StartStep true; StartStep true; CallStop] (fresh_handler "a" 1)).

Lemma stop_ends_witness : exists s,
  lrun [StartStep false; CloseSettles 0; StopStep true; StopStep true] demo_pending = Some s /\ quiet s /\ (4 <= work demo_pending)%nat.
Proof.
  destruct (lrun [StartStep false; CloseSettles 0; StopStep true; StopStep true] demo_pending) as [s|] eqn:E;
    [|exfalso; revert E; vm_compute; discriminate].
  exists s. split; [done|].
  destruct (stop_ends "a" 1 demo_pending [StartStep false; CloseSettles 0; StopStep true; StopStep true] s) as (H1 & _ & H3).
  - apply (lrun_reachable "a" 1 [CallStart; StartStep true; StartStep true; CallStop] (fresh_handler "a" 1));
      [apply reachable_fresh|vm_compute; reflexivity].
  - vm_compute. discriminate.
  - repeat constructor.
  - exact E.
  - split; [|exact H1]. apply H3. revert E. vm_compute. intros [= <-].
    intros [] Hl; try discriminate Hl; reflexivity.
Defined.

(** ** Two timers that are left behind *)

(** An election during a start that then fails leaves the heartbeat armed, and
    [stop] does not end it: the replica stays registered, owning its clients. *)
Lemma failed_start_keeps_heartbeat :
  exists s, lrun [CallStart; StartStep true; StartStep true; PeerBeat "b" 0; Elected; StartStep false; CloseSettles 0; CallStop]
              (fresh_handler "a" 1) = Some s
    /\ lc_status s = stopped /\ lc_running s = None /\ refusal s = Some "handler_stopped" /\ lc_heartbeat s = true.
Proof. eexists. vm_compute. repeat split. Qed.

(** A peer heard before it announces its start is watched by two timers, of
    which only the second is refreshed: when the first is due, the peer is
    dropped, half a second after it was last heard. *)
Lemma heard_peer_lost :
  exists s, lrun ([CallStart] ++ repeat (StartStep true) 4 ++ [PeerBeat "b" 0; PeerStarted "b" 500]
                  ++ map (fun i => PeerBeat "b" (500 + 1000 * Z.of_nat i)) (seq 1 11) ++ [PeerTimer 0 12000])
              (fresh_handler "a" 0) = Some s
    /\ lc_status s = started /\ lc_peers s = [].
Proof. eexists. vm_compute. repeat split. Qed.
