(* ===== verification/RedactProps.v ===== *)
(** * Nothing named like a credential is shown

    A redacted body holds no field, form pair or JSON text whose name or value
    gives a credential away, at any depth, and the recursion ends. *)
From S2P Require Import Prelude JsNumber JsString Json JsonFacts Value Cost Shared Client Authenticate Redact.
Local Open Scope Z_scope.

(** ** JSON text is no longer once it is read *)

Fixpoint json_size (j : json) : nat :=
  match j with
  | JStr s => S (String.length s)
  | JArr l => S (fold_right (fun x n => json_size x + n) 0 l)%nat
  | JObj l => S (fold_right (fun p n => json_size p.2 + n) 0 l)%nat
  | _ => 1
  end.

Definition arr_size (l : list json) : nat := fold_right (fun x n => json_size x + n)%nat 0%nat l.
Definition obj_size (l : list (string * json)) : nat := fold_right (fun p n => json_size p.2 + n)%nat 0%nat l.

Lemma arr_size_app l x : arr_size (l ++ [x]) = (arr_size l + json_size x)%nat.
Proof. induction l as [|y l IH]; cbn; [lia|]. unfold arr_size in *. lia. Qed.

Lemma obj_size_set k v l : (obj_size (omap_set k v l) <= obj_size l + json_size v)%nat.
Proof.
  unfold obj_size. induction l as [|[k' v'] l IH]; cbn; [lia|]. case_decide; cbn; lia.
Qed.

Lemma skip_ws_length s : (String.length (skip_ws s) <= String.length s)%nat.
Proof. induction s as [|c s IH]; cbn; [lia|]. destruct (json_space c); cbn; lia. Qed.

Lemma drop_prefix_length p s r : drop_prefix p s = Some r -> (String.length s = String.length p + String.length r)%nat.
Proof.
  revert s. induction p as [|a p IH]; intros [|b s]; cbn; try done; [by intros [= <-]..|].
  case_bool_decide; [|done]. intros Hr%IH. lia.
Qed.

Lemma read_digits_length s : (String.length s = length (read_digits s).1 + String.length (read_digits s).2)%nat.
Proof.
  induction s as [|c s IH]; [done|]. cbn. destruct (char_digit c); [|done]. destruct (read_digits s). cbn in *. lia.
Qed.

Lemma read_sign_length s : (String.length (read_sign s).2 <= String.length s)%nat.
Proof. unfold read_sign. destruct s as [|c s]; cbn; [lia|]. repeat case_match; cbn in *; lia. Qed.

(** A number takes a character. *)
Lemma point_length r1 : exists fp r2, match r1 with String "." r => read_digits r | _ => ([], r1) end = (fp, r2) /\
  (length fp + String.length r2 <= String.length r1)%nat.
Proof.
  destruct r1 as [|c r1]; [by exists [], ""|]. destruct (decide (c = "."%char)) as [->|Hc].
  - pose proof (read_digits_length r1) as Hl. destruct (read_digits r1) as [fp r2]. exists fp, r2. split; [done|cbn in *; lia].
  - exists [], (String c r1). split; [|done]. destruct c as [[] [] [] [] [] [] [] []]; done.
Qed.

Lemma exponent_length r2 (m e0 : Z) : exists e r, match r2 with
    | String ("e" | "E") r =>
        let '(sg, r3) := read_sign r in
        match read_digits r3 with
        | ([], _) => Some (m, e0, r2)
        | (ep, r4) => Some (m, e0 + (if sg then - dval ep else dval ep), r4)
        end
    | _ => Some (m, e0, r2)
    end = Some (m, e, r) /\ (String.length r <= String.length r2)%nat.
Proof.
  destruct r2 as [|c r2]; [by exists e0, ""|].
  assert (exists e r, (let '(sg, r3) := read_sign r2 in
    match read_digits r3 with
    | ([], _) => Some (m, e0, String c r2)
    | (ep, r4) => Some (m, e0 + (if sg then - dval ep else dval ep), r4)
    end) = Some (m, e, r) /\ (String.length r <= S (String.length r2))%nat) as H.
  { pose proof (read_sign_length r2) as Hs. destruct (read_sign r2) as [sg r3].
    pose proof (read_digits_length r3) as Hl. cbn in Hs. destruct (read_digits r3) as [[|d ds] r4]; cbn in Hl.
    - exists e0, (String c r2). split; [done|cbn; lia].
    - do 2 eexists. split; [done|lia]. }
  assert (exists e r, Some (m, e0, String c r2) = Some (m, e, r) /\ (String.length r <= S (String.length r2))%nat) as H'
    by (exists e0, (String c r2); split; [done|cbn; lia]).
  destruct c as [[] [] [] [] [] [] [] []]; exact H || exact H'.
Qed.

Lemma read_decimal_length s m e r : read_decimal s = Some (m, e, r) -> (String.length r < String.length s)%nat.
Proof.
  unfold read_decimal. pose proof (read_digits_length s) as H1. destruct (read_digits s) as [ip r1]. cbn [fst snd] in H1.
  destruct (point_length r1) as (fp & r2 & -> & H2).
  destruct (ip ++ fp) as [|d ds] eqn:Eds; [done|].
  assert (1 <= length ip + length fp)%nat as Hlen by (apply (f_equal length) in Eds; rewrite length_app in Eds; cbn in Eds; lia).
  cbv zeta. destruct (exponent_length r2 (dval (d :: ds)) (- Z.of_nat (length fp))) as (e' & r' & -> & H3).
  intros [= _ _ ->]. lia.
Qed.

Lemma parse_number_length s n r : parse_number s = Some (n, r) -> (String.length r < String.length s)%nat.
Proof.
  unfold parse_number.
  assert (exists sg s1, match s with String "-" s' => (true, s') | _ => (false, s) end = (sg, s1) /\
    (String.length s1 <= String.length s)%nat) as (sg & s1 & -> & Hs).
  { destruct s as [|c s]; [by exists false, ""|].
    assert (exists sg s1, (true, s) = (sg, s1) /\ (String.length s1 <= S (String.length s))%nat) as H
      by (do 2 eexists; split; [done|lia]).
    assert (exists sg s1, (false, String c s) = (sg, s1) /\ (String.length s1 <= S (String.length s))%nat) as H'
      by (do 2 eexists; split; [done|cbn; lia]).
    destruct c as [[] [] [] [] [] [] [] []]; exact H || exact H'. }
  destruct (json_number_shape s1); [|done]. destruct (read_decimal s1) as [[[m e] r']|] eqn:E; [|done].
  apply read_decimal_length in E. intros [= _ ->]. lia.
Qed.

Lemma parse_chars_length s : forall t r, parse_chars s = Some (t, r) -> (S (String.length t) + String.length r <= String.length s)%nat.
Proof.
  induction s as [s IH] using (induction_ltof1 _ String.length). unfold ltof in IH. intros t r.
  destruct s as [|c s]; [done|]. cbn [parse_chars].
  assert (forall x s', (String.length s' <= String.length s)%nat ->
    option_map (fun p => (String x p.1, p.2)) (parse_chars s') = Some (t, r) ->
    (S (String.length t) + String.length r <= S (String.length s))%nat) as Hkeep.
  { intros x s' Hs. destruct (parse_chars s') as [[t' r']|] eqn:E; [|done]. cbn. intros [= <- <-].
    specialize (IH s' ltac:(cbn; lia) _ _ E). cbn. lia. }
  case_bool_decide; [intros [= <- <-]; cbn; lia|].
  case_bool_decide.
  - destruct s as [|a s]; [done|].
    assert (forall x, option_map (fun p => (String x p.1, p.2)) (parse_chars s) = Some (t, r) ->
      (S (String.length t) + String.length r <= S (S (String.length s)))%nat) as Hk
      by (intros x; apply Hkeep; cbn; lia).
    destruct (decide (a = "u"%char)) as [->|Hu].
    + repeat case_match; try done; simplify_eq; apply Hkeep; cbn; lia.
    + destruct a as [[] [] [] [] [] [] [] []]; try (exfalso; by apply Hu); try apply Hk; done.
  - case_match; [done|]. by apply Hkeep.
Qed.

(** A literal or a number at the head of a text. *)
Definition parse_scalar (s1 : string) : option (json * string) :=
  match drop_prefix "null" s1, drop_prefix "true" s1, drop_prefix "false" s1 with
  | Some r, _, _ => Some (JNull, r)
  | _, Some r, _ => Some (JBool true, r)
  | _, _, Some r => Some (JBool false, r)
  | _, _, _ => option_map (fun p => (JNum p.1, p.2)) (parse_number s1)
  end.

Lemma parse_scalar_length s v r : parse_scalar s = Some (v, r) -> (json_size v + String.length r <= String.length s)%nat.
Proof.
  unfold parse_scalar. destruct (drop_prefix "null" s) as [r1|] eqn:E1.
  { intros [= <- <-]. apply drop_prefix_length in E1. cbn in *. lia. }
  destruct (drop_prefix "true" s) as [r1|] eqn:E2.
  { intros [= <- <-]. apply drop_prefix_length in E2. cbn in *. lia. }
  destruct (drop_prefix "false" s) as [r1|] eqn:E3.
  { intros [= <- <-]. apply drop_prefix_length in E3. cbn in *. lia. }
  destruct (parse_number s) as [[n r1]|] eqn:E4; [|done]. apply parse_number_length in E4. intros [= <- <-]. cbn. lia.
Qed.

Lemma parse_sizes fuel :
  (forall s v r, parse_value fuel s = Some (v, r) -> (json_size v + String.length r <= String.length s)%nat) /\
  (forall acc s v r, parse_members fuel acc s = Some (v, r) ->
    (json_size v + String.length r <= S (obj_size acc) + String.length s)%nat) /\
  (forall acc s v r, parse_elems fuel acc s = Some (v, r) ->
    (json_size v + String.length r <= S (arr_size acc) + String.length s)%nat).
Proof.
  induction fuel as [|f (IHv & IHm & IHe)]; [done|]. split_and!.
  - intros s v r. cbn [parse_value]. pose proof (skip_ws_length s) as Hs.
    destruct (skip_ws s) as [|c s1]; cbn [String.length] in Hs; [done|].
    assert (parse_scalar (String c s1) = Some (v, r) -> (json_size v + String.length r <= String.length s)%nat) as Hscalar.
    { intros H%parse_scalar_length. cbn in H. lia. }
    assert (parse_members f [] s1 = Some (v, r) -> (json_size v + String.length r <= String.length s)%nat) as Hmem.
    { intros H%IHm. cbn in H. lia. }
    assert (parse_elems f [] s1 = Some (v, r) -> (json_size v + String.length r <= String.length s)%nat) as Helem.
    { intros H%IHe. cbn in H. lia. }
    assert (forall r', (String.length r' < String.length s1)%nat -> forall v', json_size v' = 1%nat -> Some (v', r') = Some (v, r) ->
      (json_size v + String.length r <= String.length s)%nat) as Hempty by (intros r' Hr v' Hv [= <- <-]; lia).
    pose proof (skip_ws_length s1) as Hs1.
    assert (option_map (fun p => (JStr p.1, p.2)) (parse_chars s1) = Some (v, r) ->
      (json_size v + String.length r <= String.length s)%nat) as Hstr.
    { destruct (parse_chars s1) as [[t r']|] eqn:E; [|done]. apply parse_chars_length in E. intros [= <- <-]. cbn. lia. }
    destruct (decide (c = "{"%char)) as [->|Hc1].
    { destruct (skip_ws s1) as [|d s2]; [exact Hmem|]. cbn in Hs1.
      destruct (decide (d = "}"%char)) as [->|Hd]; [by apply Hempty|].
      destruct d as [[] [] [] [] [] [] [] []]; try exact Hmem; done. }
    destruct (decide (c = "["%char)) as [->|Hc2].
    { destruct (skip_ws s1) as [|d s2]; [exact Helem|]. cbn in Hs1.
      destruct (decide (d = "]"%char)) as [->|Hd]; [by apply Hempty|].
      destruct d as [[] [] [] [] [] [] [] []]; try exact Helem; done. }
    destruct (decide (c = "034"%char)) as [->|Hc3]; [exact Hstr|].
    destruct c as [[] [] [] [] [] [] [] []]; try exact Hscalar; done.
  - intros acc s v r. cbn [parse_members]. pose proof (skip_ws_length s) as Hs.
    destruct (skip_ws s) as [|c s1]; cbn [String.length] in Hs; [done|].
    destruct (decide (c = "034"%char)) as [->|Hc]; [|destruct c as [[] [] [] [] [] [] [] []]; done].
    destruct (parse_chars s1) as [[k r1]|] eqn:Ek; [|done]. apply parse_chars_length in Ek.
    pose proof (skip_ws_length r1) as Hr1. destruct (skip_ws r1) as [|c r2]; cbn [String.length] in Hr1; [done|].
    destruct (decide (c = ":"%char)) as [->|Hc]; [|destruct c as [[] [] [] [] [] [] [] []]; done].
    destruct (parse_value f r2) as [[x r3]|] eqn:Ex; [|done]. apply IHv in Ex.
    pose proof (skip_ws_length r3) as Hr3. destruct (skip_ws r3) as [|c r4]; cbn [String.length] in Hr3; [done|].
    pose proof (obj_size_set k x acc) as Hset.
    destruct (decide (c = ","%char)) as [->|Hc]; [intros H%IHm; lia|].
    destruct (decide (c = "}"%char)) as [->|Hc']; [intros [= <- <-]; change (json_size (JObj ?l)) with (S (obj_size l)); lia|].
    destruct c as [[] [] [] [] [] [] [] []]; done.
  - intros acc s v r. cbn [parse_elems].
    destruct (parse_value f s) as [[x r1]|] eqn:Ex; [|done]. apply IHv in Ex.
    pose proof (skip_ws_length r1) as Hr1. destruct (skip_ws r1) as [|c r2]; cbn [String.length] in Hr1; [done|].
    pose proof (arr_size_app acc x) as Happ.
    destruct (decide (c = ","%char)) as [->|Hc]; [intros H%IHe; lia|].
    destruct (decide (c = "]"%char)) as [->|Hc']; [intros [= <- <-]; change (json_size (JArr ?l)) with (S (arr_size l)); lia|].
    destruct c as [[] [] [] [] [] [] [] []]; done.
Qed.

Lemma parse_size s j : parse s = Some j -> (json_size j <= String.length s)%nat.
Proof.
  unfold parse. destruct (parse_value _ s) as [[v r]|] eqn:E; [|done]. apply parse_sizes in E.
  destruct (skip_ws r); [|done]. intros [= <-]. lia.
Qed.

Lemma of_json_size j : body_size (of_json j) = json_size j.
Proof.
  induction j as [|b|n|s|l IH|l IH] using json_ind'; try done; cbn; f_equal.
  - induction IH as [|x l Hx _ IH]; [done|]. cbn. by rewrite Hx, IH.
  - induction IH as [|[k x] l Hx _ IH]; [done|]. cbn in *. by rewrite Hx, IH.
Qed.

Lemma trimStart_length s : (String.length (trimStart s) <= String.length s)%nat.
Proof. induction s as [|c s IH]; cbn; [lia|]. destruct (is_space c); cbn; lia. Qed.

Lemma rev_length s : String.length (String.rev s) = String.length s.
Proof.
  unfold String.rev. assert (forall t, String.length (String.rev_app s t) = (String.length s + String.length t)%nat) as H.
  { induction s as [|c s IH]; intros t; cbn; [done|]. rewrite IH. cbn. lia. }
  rewrite H. cbn. lia.
Qed.

Lemma trim_length s : (String.length (trim s) <= String.length s)%nat.
Proof.
  unfold trim. rewrite rev_length. pose proof (trimStart_length (String.rev (trimStart s))) as H.
  rewrite rev_length in H. pose proof (trimStart_length s). lia.
Qed.

Lemma json_body_size s j : json_body s = Some j -> (body_size j <= String.length s)%nat.
Proof.
  unfold json_body. pose proof (trim_length s) as Ht. destruct (trim s) as [|c t]; [done|].
  assert (forall t', (String.length t' <= String.length s)%nat ->
    match parse t' with Some ((JArr _ | JObj _) as j) => Some (of_json j) | _ => None end = Some j ->
    (body_size j <= String.length s)%nat) as H.
  { intros t' Hl. destruct (parse t') as [j'|] eqn:E; [|done]. apply parse_size in E.
    destruct j' as [| | | |l|l]; try done; intros [= <-]; [pose proof (of_json_size (JArr l))|pose proof (of_json_size (JObj l))];
      cbn [of_json] in *; lia. }
  destruct c as [[] [] [] [] [] [] [] []]; try done; by apply H.
Qed.

(** ** Sums over a list *)

Lemma sum_bound {A} (f : A -> nat) (x : A) l : x ∈ l -> (f x <= fold_right (fun x n => f x + n) 0 l)%nat.
Proof. induction l as [|y l IH]; [intros H; exfalso; inversion H|]. intros [->|H]%elem_of_cons; cbn; [lia|]. specialize (IH H). lia. Qed.

Section hiding.
Context {Web : WebPlatform}.

(** ** The recursion ends *)

Lemma redact_fuel n : forall m v, (body_size v < n)%nat -> (body_size v < m)%nat -> redact_body n v = redact_body m v.
Proof.
  induction n as [|n IH]; intros m v Hn Hm; [lia|]. destruct m as [|m]; [lia|]. destruct v as [| |b|x|s|l|pl l|t]; try done.
  - cbn [redact_body]. destruct (looksSensitive s); [done|]. destruct (json_body s) as [j|] eqn:E; [|done].
    apply json_body_size in E. cbn in Hn, Hm. by rewrite (IH m) by lia.
  - cbn [redact_body]. f_equal. apply map_ext_in. intros x Hx%list_elem_of_In. cbn in Hn, Hm.
    pose proof (sum_bound body_size x l Hx). apply IH; lia.
  - cbn [redact_body]. destruct (isReadableStream _); [done|]. f_equal. apply map_ext_in. intros x Hx%list_elem_of_In.
    cbn in Hn, Hm. pose proof (sum_bound (fun p => body_size p.2) x l Hx). f_equal. destruct (isSensitiveName _ _); [done|].
    apply IH; cbn in *; lia.
Qed.

(** ** What is shown *)

Inductive hidden : value -> Prop :=
  | hidden_atom v : match v with VStr _ | VArr _ | VObj _ _ => False | _ => True end -> hidden v
  | hidden_mask : hidden (VStr REDACTED)
  | hidden_stream : hidden (VStr "[stream]")
  | hidden_json v : match v with VArr _ | VObj _ _ => True | _ => False end -> hidden v ->
      hidden (VStr (stringify_text v))
  | hidden_text s : looksSensitive s = false -> json_body s = None ->
      (forall p, p ∈ split_char "&" s -> sensitive_pair p = false) -> hidden (VStr s)
  | hidden_form pairs :
      (exists p name, p ∈ pairs /\ split_pair p = Some (name, REDACTED)) ->
      (forall p, p ∈ pairs -> sensitive_pair p = false \/ exists name, split_pair p = Some (name, REDACTED)) ->
      hidden (VStr (join "&" pairs))
  | hidden_arr l : (forall x, x ∈ l -> hidden x) -> hidden (VArr l)
  | hidden_obj l :
      (forall k x, (k, x) ∈ l -> isSensitiveName k [] = true -> x = VStr REDACTED) ->
      (forall k x, (k, x) ∈ l -> isSensitiveName k [] = false -> hidden x) -> hidden (VObj true l).

Lemma split_pair_none p : includes_char "=" p = false -> split_pair p = None.
Proof.
  induction p as [|c p IH]; [done|]. cbn. intros [Hc Hp]%orb_false_iff. rewrite Hc, IH; done.
Qed.

Lemma split_char_excludes a c s p : includes_char a s = false -> p ∈ split_char c s -> includes_char a p = false.
Proof.
  revert p. induction s as [|b s IH]; cbn; intros p.
  { by intros _ ->%list_elem_of_singleton. }
  intros [Hb Hs]%orb_false_iff. destruct (bool_decide (b = c)).
  - intros [->|Hp]%elem_of_cons; auto.
  - pose proof (split_char_ne c s) as Hne. destruct (split_char c s) as [|x l]; [done|].
    intros [->|Hp]%elem_of_cons; [|apply IH; [done|by right]]. cbn. rewrite Hb. apply IH; [done|left].
Qed.

Lemma split_pair_name p name raw v : split_pair p = Some (name, raw) -> split_pair (name +:+ "=" +:+ v) = Some (name, v).
Proof.
  revert name raw. induction p as [|c p IH]; cbn; intros name raw; [done|]. case_bool_decide as Hc.
  - intros [= <- <-]. done.
  - destruct (split_pair p) as [[n r]|]; [|done]. cbn. intros [= <- <-].
    change (String c n +:+ "=" +:+ v) with (String c (n +:+ "=" +:+ v)). cbn. rewrite bool_decide_false by done.
    by rewrite (IH n r eq_refl).
Qed.

Lemma redact_pair_sensitive p : sensitive_pair p = true -> exists name, split_pair (redact_pair p) = Some (name, REDACTED).
Proof.
  intros Hs. unfold redact_pair. rewrite Hs. unfold sensitive_pair in Hs.
  destruct (split_pair p) as [[name raw]|] eqn:E; [|done]. exists name. by eapply split_pair_name.
Qed.

Lemma redact_pair_masks p :
  sensitive_pair (redact_pair p) = false \/ exists name, split_pair (redact_pair p) = Some (name, REDACTED).
Proof.
  destruct (sensitive_pair p) eqn:E; [right; by apply redact_pair_sensitive|left].
  unfold redact_pair. rewrite E. by destruct (split_pair p) as [[name raw]|].
Qed.

Lemma form_hidden s : looksSensitive s = false -> json_body s = None -> hidden (VStr (redactFormEncoded s)).
Proof.
  intros Hl Hj. unfold redactFormEncoded. destruct (includes_char "=" s) eqn:Ei; cbn [negb].
  - destruct (existsb sensitive_pair (split_char "&" s)) eqn:Ee.
    + apply existsb_exists in Ee as (p & Hp%list_elem_of_In & Hs).
      apply hidden_form; [|intros q (p' & -> & _)%list_elem_of_fmap; apply redact_pair_masks].
      destruct (redact_pair_sensitive p Hs) as [name Hn]. exists (redact_pair p), name. split; [by apply list_elem_of_fmap_2|done].
    + apply hidden_text; [done..|]. intros p Hp. destruct (sensitive_pair p) eqn:E; [|done].
      rewrite <- Ee. symmetry. apply existsb_exists. exists p. split; [by apply list_elem_of_In|done].
  - apply hidden_text; [done..|]. intros p Hp. unfold sensitive_pair.
    by rewrite (split_pair_none p (split_char_excludes _ _ _ _ Ei Hp)).
Qed.

Lemma json_body_shape s j : json_body s = Some j ->
  match j with VArr _ => True | VObj _ _ => isReadableStream j = false | _ => False end.
Proof.
  unfold json_body. destruct (trim s) as [|c t]; [done|].
  assert (forall t', match parse t' with Some ((JArr _ | JObj _) as j) => Some (of_json j) | _ => None end = Some j ->
    match j with VArr _ => True | VObj _ _ => isReadableStream j = false | _ => False end) as H.
  { intros t'. destruct (parse t') as [[| | | |l|l]|]; try done; intros [= <-]; [done|]. unfold isReadableStream.
    assert (forall k, match value_field (of_json (JObj l)) k with VFun _ => False | _ => True end) as Hk.
    { intros k. cbn. induction l as [|[k' x] l IH]; [done|]. cbn. case_decide; [by destruct x|exact IH]. }
    specialize (Hk "pipe"). cbn [of_json] in *. by destruct (value_field _ "pipe"). }
  destruct c as [[] [] [] [] [] [] [] []]; try done; apply H.
Qed.

Lemma redact_body_hidden n v : (body_size v < n)%nat -> hidden (redact_body n v).
Proof.
  revert v. induction n as [|n IH]; intros v Hn; [lia|]. destruct v as [| |b|x|s|l|pl l|t]; try by apply hidden_atom.
  - cbn [redact_body]. destruct (looksSensitive s) eqn:El; [apply hidden_mask|].
    destruct (json_body s) as [j|] eqn:Ej; [|by apply form_hidden].
    pose proof (json_body_size s j Ej). cbn in Hn. apply hidden_json; [|apply IH; lia].
    apply json_body_shape in Ej. destruct n as [|n]; [lia|]. destruct j; try done. cbn [redact_body]. by rewrite Ej.
  - cbn [redact_body]. apply hidden_arr. intros x (y & -> & Hy)%list_elem_of_fmap. apply IH.
    pose proof (sum_bound body_size y l Hy). cbn in Hn. lia.
  - cbn [redact_body]. destruct (isReadableStream _); [apply hidden_stream|]. apply hidden_obj;
      intros k x ([k' y] & [= -> ->] & Hy)%list_elem_of_fmap; cbn [fst snd]; intros ->; [done|]. apply IH.
    pose proof (sum_bound (fun p => body_size p.2) _ l Hy). cbn in *. lia.
Qed.

Lemma redactBody_hidden v : hidden (redactBody v).
Proof. apply redact_body_hidden. lia. Qed.

(** ** Headers and URLs *)

Definition masked_text (v : value) : Prop := forall s, v = VStr s -> s = REDACTED \/ looksSensitive s = false.

Definition safe_headers (extra : list string) (headers : option (list (string * value))) : Prop :=
  forall l k x, headers = Some l -> (k, x) ∈ l -> (isSensitiveName k extra = true -> x = VStr REDACTED) /\ masked_text x.

Lemma redactHeaders_safe headers extra : safe_headers extra (redactHeaders headers extra).
Proof.
  intros l k x. unfold redactHeaders. destruct headers as [hs|]; [|done]. intros [= <-].
  intros ([k' y] & [= -> ->] & _)%list_elem_of_fmap. cbn [fst snd].
  assert (masked_text (VStr REDACTED)) as Hmask by (intros s [= <-]; by left).
  destruct (isSensitiveName k' extra); cbn [orb]; [split; [done|exact Hmask]|]. destruct y as [| | | |s| | |]; try (split; [done|by intros ? [=]]).
  destruct (looksSensitive s) eqn:E; (split; [done|]); [exact Hmask|]. intros s' [= <-]. by right.
Qed.

(** The text of a URL's query. *)
Definition url_query (url : string) : option string :=
  match (span_chars (none_of ["?"%char]) url).2 with String _ q => Some q | EmptyString => None end.

Definition safe_param (p : string * string) : Prop :=
  p.2 = REDACTED \/ (isSensitiveName p.1 [] = false /\ looksSensitive p.2 = false).

Definition safe_url (url : option string) : Prop :=
  forall u q, url = Some u -> url_query u = Some q -> forall p, p ∈ parse_query q -> safe_param p.

Lemma span_chars_split f s : let '(a, b) := span_chars f s in
  s = a +:+ b /\ all_chars f a = true /\ match b with String c _ => f c = false | EmptyString => True end.
Proof.
  induction s as [|c s IH]; [done|]. cbn. destruct (f c) eqn:E; [|done]. destruct (span_chars f s) as [a b].
  destruct IH as (-> & Ha & Hb). cbn. by rewrite E, Ha.
Qed.

Lemma span_chars_app f a c b : all_chars f a = true -> f c = false -> span_chars f (a +:+ String c b) = (a, String c b).
Proof.
  induction a as [|x a IH]; intros Ha Hc.
  - change ("" +:+ String c b) with (String c b). cbn [span_chars]. by rewrite Hc.
  - cbn [all_chars] in Ha. apply andb_prop in Ha as [Hx Ha].
    change (String x a +:+ String c b) with (String x (a +:+ String c b)). cbn [span_chars]. by rewrite Hx, IH.
Qed.

(** ** Userinfo *)

Abbreviation lacks cs s := (all_chars (none_of cs) s = true).

Lemma all_chars_app f a b : all_chars f (a +:+ b) = all_chars f a && all_chars f b.
Proof.
  induction a as [|c a IH]; [done|]. change (String c a +:+ b) with (String c (a +:+ b)). cbn. by rewrite IH, andb_assoc.
Qed.

Lemma lacks_fewer cs cs' s : (forall c, c ∈ cs -> c ∈ cs') -> lacks cs' s -> lacks cs s.
Proof.
  intros Hc. induction s as [|c s IH]; [done|]. cbn. rewrite !andb_true_iff. unfold none_of at 1 3.
  rewrite !negb_true_iff, !bool_decide_eq_false. naive_solver.
Qed.

(** No [@] before the first character of [stop]. *)
Definition clear_of (stop : list ascii) (r : string) : Prop := forall a b, r = a +:+ b -> lacks stop a -> lacks ["@"%char] a.

Lemma clear_fewer stop stop' r : (forall c, c ∈ stop -> c ∈ stop') -> clear_of stop r -> clear_of stop' r.
Proof. intros Hc Hr a b E Ha. apply (Hr a b E). by eapply lacks_fewer. Qed.

Lemma clear_before stop r s : lacks ["@"%char] r -> match s with String c _ => none_of stop c = false | EmptyString => True end ->
  clear_of stop (r +:+ s).
Proof.
  intros Hr Hs a b. revert r Hr. induction a as [|c a IH]; intros r Hr E Ha; [done|]. cbn in Ha.
  apply andb_prop in Ha as [Hc Ha]. destruct r as [|c' r].
  - change ("" +:+ s) with s in E. subst s. change (String c a +:+ b) with (String c (a +:+ b)) in Hs. cbn in Hs. congruence.
  - change (String c' r +:+ s) with (String c' (r +:+ s)) in E. change (String c a +:+ b) with (String c (a +:+ b)) in E.
    injection E as <- E. cbn in Hr |- *. apply andb_prop in Hr as [H1 H2]. rewrite H1. by apply (IH r).
Qed.

(** What a URL with its query written anew keeps. *)
Lemma clear_base stop r q : "?"%char ∈ stop -> clear_of stop r -> clear_of stop ((span_chars (none_of ["?"%char]) r).1 +:+ String "?" q).
Proof.
  intros Hin Hr. pose proof (span_chars_split (none_of ["?"%char]) r) as Hs. destruct (span_chars _ r) as [x y]. cbn [fst].
  destruct Hs as (-> & _ & _). intros a b E Ha.
  assert (exists t, x = a +:+ t) as [t ->].
  { revert x Hr E. induction a as [|c a IH]; intros x Hr E; [by exists x|]. cbn in Ha. apply andb_prop in Ha as [Hc Ha].
    change (String c a +:+ b) with (String c (a +:+ b)) in E. destruct x as [|c' x].
    - injection E as <- _. unfold none_of in Hc. by rewrite bool_decide_true in Hc.
    - change (String c' x +:+ ?z) with (String c' (x +:+ z)) in E. injection E as <- E.
      destruct (IH Ha x) as [t ->]; [|exact E|by exists t].
      intros a' b' E' Ha'. assert (lacks ["@"%char] (String c' a')) as H; [|apply andb_prop in H as [_ H]; exact H].
      apply (Hr _ b'); [|cbn; by rewrite Hc, Ha'].
      change (String c' x +:+ y) with (String c' (x +:+ y)). by rewrite E'. }
  apply (Hr a (t +:+ y)); [by rewrite <- string_app_assoc|done].
Qed.

Lemma span_chars_lacks f a b : all_chars f a = true -> span_chars f (a +:+ b) = (a +:+ (span_chars f b).1, (span_chars f b).2).
Proof.
  induction a as [|c a IH]; [intros _; change ("" +:+ b) with b; destruct (span_chars f b); done|]. cbn [all_chars]. intros [Hc Ha]%andb_prop.
  change (String c a +:+ b) with (String c (a +:+ b)). cbn [span_chars]. by rewrite Hc, IH.
Qed.

Lemma split_last_at_some a b : is_Some (split_last_at (a +:+ String "@" b)).
Proof.
  induction a as [|c a IH].
  - change ("" +:+ String "@" b) with (String "@" b). cbn [split_last_at]. destruct (split_last_at b) as [[x y]|]; by eexists.
  - change (String c a +:+ String "@" b) with (String c (a +:+ String "@" b)). cbn [split_last_at]. destruct IH as [[x y] ->]. by eexists.
Qed.

Lemma split_last_at_spec s : match split_last_at s with
  | Some (a, b) => s = a +:+ String "@" b /\ lacks ["@"%char] b
  | None => lacks ["@"%char] s
  end.
Proof.
  induction s as [|c s IH]; [done|]. cbn [split_last_at]. destruct (split_last_at s) as [[a b]|].
  - destruct IH as [-> Hb]. done.
  - case_bool_decide as E; [by subst|]. cbn. rewrite IH, andb_true_r. unfold none_of. rewrite bool_decide_false; [done|].
    by rewrite list_elem_of_singleton.
Qed.

Lemma drop_prefix_split p s r : drop_prefix p s = Some r -> s = p +:+ r.
Proof.
  revert s. induction p as [|a p IH]; intros s; cbn; [by intros [= ->]|]. destruct s as [|b s]; [done|].
  case_bool_decide; [|done]. subst b. intros ->%IH. done.
Qed.

Lemma drop_prefix_back p r : drop_prefix p (p +:+ r) = Some r.
Proof.
  induction p as [|a p IH]; [done|]. change (String a p +:+ r) with (String a (p +:+ r)). cbn. by rewrite bool_decide_true.
Qed.

(** A scheme is known by itself, and has none of the characters that end one. *)
Lemma url_scheme_spec u scheme r : url_scheme u = Some (scheme, r) ->
  u = scheme +:+ r /\ lacks ["?"%char] scheme /\ forall x, url_scheme (scheme +:+ x) = Some (scheme, x).
Proof.
  unfold url_scheme. set (f := fun c => is_alnum c || bool_decide (c ∈ ["+"; "."; "-"]%char)).
  assert (forall c, f c = true -> none_of ["?"%char] c = true) as Hf by (intros [[] [] [] [] [] [] [] []]; done || discriminate).
  assert (forall a, all_chars f a = true -> lacks ["?"%char] a) as Hlacks.
  { induction a as [|c a IH]; [done|]. cbn. intros [Hc Ha]%andb_prop. by rewrite (Hf c Hc), IH. }
  assert (forall s, (fun rest => ("//", rest)) <$> drop_prefix "//" s = Some (scheme, r) ->
    s = scheme +:+ r /\ lacks ["?"%char] scheme /\ scheme = "//") as Hrel.
  { intros s. destruct (drop_prefix "//" s) as [x|] eqn:E; [|done]. cbn. intros [= <- <-]. by apply drop_prefix_split in E as ->. }
  assert (forall x, match (match "//" +:+ x with
      | String c s' => if is_lower c || is_upper c then let '(a, b) := span_chars f s' in
          (fun rest => (String c a +:+ "://", rest)) <$> drop_prefix "://" b else None
      | EmptyString => None end) with Some r => Some r | None => (fun rest => ("//", rest)) <$> drop_prefix "//" ("//" +:+ x) end
      = Some ("//", x)) as Hslash by done.
  destruct u as [|c u]; [done|]. destruct (is_lower c || is_upper c) eqn:Ec.
  2: { intros (E1 & E2 & ->)%Hrel. by split_and!. }
  pose proof (span_chars_split f u) as Hu. destruct (span_chars f u) as [a b] eqn:Es. destruct Hu as (-> & Ha & Hb).
  destruct (drop_prefix "://" b) as [x|] eqn:E; cbn [fmap option_fmap option_map].
  2: { intros (E1 & E2 & ->)%Hrel. by split_and!. }
  intros [= <- <-]. apply drop_prefix_split in E as ->. split_and!.
  - change (String c (a +:+ "://" +:+ x) = (String c a +:+ "://") +:+ x). rewrite <- string_app_assoc. done.
  - change (String c a +:+ "://") with (String c (a +:+ "://")). cbn [all_chars]. rewrite all_chars_app, (Hlacks a Ha), (Hf c); [done|].
    unfold f, is_alnum. destruct (is_lower c), (is_upper c); try done; by rewrite ?orb_true_r.
  - intros y. rewrite <- string_app_assoc. change (String c a +:+ ?z) with (String c (a +:+ z)). cbn [url_scheme]. rewrite Ec.
    change ("://" +:+ y) with (String ":" ("//" +:+ y)). rewrite (span_chars_app f a ":" _ Ha eq_refl).
    change (String ":" ("//" +:+ y)) with ("://" +:+ y). by rewrite drop_prefix_back.
Qed.

(** A user with a password is found, whichever run is looked at; what follows
    the last [@] of the run has none before the run's end. *)
Lemma userinfo_found stop u scheme name pw rest :
  url_scheme u = Some (scheme, name +:+ ":" +:+ pw +:+ "@" +:+ rest) -> lacks ["/"; "?"; "#"; "@"; ":"]%char name ->
  lacks stop pw -> "@"%char ∉ stop -> exists r, userinfo stop u = Some (scheme, name +:+ ":", r).
Proof.
  intros Hu Hn Hpw Hat. unfold userinfo. rewrite Hu. cbn [mbind option_bind].
  change (name +:+ ":" +:+ ?x) with (name +:+ String ":" x). rewrite (span_chars_app _ name ":" _ Hn eq_refl). cbn [mbind option_bind].
  change (pw +:+ "@" +:+ rest) with (pw +:+ String "@" rest).
  rewrite (span_chars_lacks _ pw (String "@" rest) Hpw). cbn [span_chars].
  assert (none_of stop "@"%char = true) as -> by (unfold none_of; by rewrite bool_decide_false).
  destruct (span_chars (none_of stop) rest) as [run s4]. cbn [fst snd].
  destruct (split_last_at_some pw run) as [[x y] E]. rewrite E. eexists. done.
Qed.

Lemma userinfo_spec stop u scheme user r : userinfo stop u = Some (scheme, user, r) ->
  exists name s3, url_scheme u = Some (scheme, name +:+ ":" +:+ s3) /\ user = name +:+ ":" /\
    lacks ["/"; "?"; "#"; "@"; ":"]%char name /\ clear_of stop r.
Proof.
  unfold userinfo. destruct (url_scheme u) as [[sch s1]|]; [|done]. cbn [mbind option_bind].
  pose proof (span_chars_split (none_of ["/"; "?"; "#"; "@"; ":"]%char) s1) as Hs.
  destruct (span_chars _ s1) as [name s2]. destruct Hs as (-> & Hn & Hs2). destruct s2 as [|c s3]; [done|].
  destruct (decide (c = ":"%char)) as [->|Hc]; [|destruct c as [[] [] [] [] [] [] [] []]; done].
  pose proof (span_chars_split (none_of stop) s3) as Hs3. destruct (span_chars (none_of stop) s3) as [run s4].
  destruct Hs3 as (-> & Hrun & Hs4). pose proof (split_last_at_spec run) as Hl.
  destruct (split_last_at run) as [[x after]|]; [|done]. cbn [mbind option_bind]. intros [= <- <- <-].
  exists name, (run +:+ s4). split_and!; [done..|]. destruct Hl as [_ Hl]. by apply clear_before.
Qed.

(** The user of a URL is masked: its password, and it itself when it stands
    alone; and nothing that is left of them stands before the host. *)
Definition userinfo_masked (u w : string) : Prop :=
  (forall scheme name pw rest, url_scheme u = Some (scheme, name +:+ ":" +:+ pw +:+ "@" +:+ rest) ->
     lacks ["/"; "?"; "#"; "@"; ":"]%char name -> lacks ["/"%char] pw ->
     exists host, w = scheme +:+ name +:+ ":" +:+ REDACTED +:+ "@" +:+ host /\ clear_of ["/"; "?"; "#"]%char host) /\
  (forall scheme user rest, url_scheme u = Some (scheme, user +:+ "@" +:+ rest) ->
     user <> "" -> lacks ["/"; "?"; "#"; ":"]%char user ->
     exists host, w = scheme +:+ REDACTED +:+ "@" +:+ host /\ clear_of ["/"; "?"; "#"; ":"]%char host).

Lemma redactUser_keeps scheme name s : url_scheme (scheme +:+ name +:+ ":" +:+ s) = Some (scheme, name +:+ ":" +:+ s) ->
  lacks ["/"; "?"; "#"; "@"; ":"]%char name ->
  redactUser (scheme +:+ name +:+ ":" +:+ s) = scheme +:+ name +:+ ":" +:+ s.
Proof.
  intros Hu Hn. unfold redactUser. rewrite Hu. cbn [mbind option_bind].
  change (name +:+ ":" +:+ s) with (name +:+ String ":" s).
  assert (lacks ["/"; "?"; "#"; ":"]%char name) as Hn'
    by (eapply lacks_fewer; [|exact Hn]; intros c; rewrite !elem_of_cons; tauto).
  rewrite (span_chars_app _ name ":" s Hn' eq_refl). cbn [mbind option_bind].
  pose proof (split_last_at_spec name) as Hl. destruct (split_last_at name) as [[x y]|]; [|done].
  destruct Hl as [-> _]. rewrite all_chars_app in Hn. apply andb_prop in Hn as [_ Hn]. cbn in Hn. discriminate.
Qed.

Lemma redactPassword_spec u scheme name pw rest :
  url_scheme u = Some (scheme, name +:+ ":" +:+ pw +:+ "@" +:+ rest) -> lacks ["/"; "?"; "#"; "@"; ":"]%char name ->
  lacks ["/"%char] pw ->
  exists host, redactPassword u = scheme +:+ name +:+ ":" +:+ REDACTED +:+ "@" +:+ host /\ clear_of ["/"; "?"; "#"]%char host.
Proof.
  intros Hu Hn Hpw.
  destruct (userinfo_found ["/"%char] u scheme name pw rest Hu Hn Hpw) as [r2 E2]; [by rewrite list_elem_of_singleton|].
  assert (forall stop r user sch, (forall c, c ∈ stop -> c ∈ ["/"; "?"; "#"]%char) -> userinfo stop u = Some (sch, user, r) ->
    sch = scheme /\ user = name +:+ ":" /\ clear_of ["/"; "?"; "#"]%char r) as Hany.
  { intros stop r user sch Hstop (name' & s3 & Hu' & -> & Hn' & Hr)%userinfo_spec. rewrite Hu in Hu'. injection Hu' as <- E.
    apply (f_equal (fun s => (span_chars (none_of ["/"; "?"; "#"; "@"; ":"]%char) s).1)) in E.
    change (name +:+ ":" +:+ ?x) with (name +:+ String ":" x) in E. change (name' +:+ ":" +:+ ?x) with (name' +:+ String ":" x) in E.
    rewrite (span_chars_app _ name ":" _ Hn eq_refl), (span_chars_app _ name' ":" _ Hn' eq_refl) in E. cbn in E. subst name'.
    split_and!; [done..|]. by eapply clear_fewer. }
  unfold redactPassword. destruct (userinfo ["/"; "?"; "#"]%char u) as [[[sch user] r]|] eqn:E1; [|rewrite E2].
  - apply Hany in E1 as (-> & -> & Hr); [|done]. exists r. split; [by rewrite <- string_app_assoc|done].
  - apply Hany in E2 as (_ & _ & Hr); [|intros c ->%list_elem_of_singleton; left]. exists r2.
    split; [by rewrite <- string_app_assoc|done].
Qed.

(** A user that stands alone is not taken for one with a password. *)
Lemma userinfo_lone stop u scheme user rest : url_scheme u = Some (scheme, user +:+ "@" +:+ rest) ->
  lacks ["/"; "?"; "#"; ":"]%char user -> userinfo stop u = None.
Proof.
  intros Hu Huser.
  destruct (userinfo stop u) as [[[sch us] r]|] eqn:E; [|done]. exfalso.
  apply userinfo_spec in E as (name & s3 & Hu' & -> & Hn & _). rewrite Hu in Hu'. injection Hu' as _ E.
  clear -E Huser Hn. revert name Hn E. induction user as [|c user IH]; intros [|c' name] Hn E.
  - discriminate.
  - change ("" +:+ ?x) with x in E. change (String c' name +:+ ?x) with (String c' (name +:+ x)) in E. injection E as <- _.
    cbn in Hn. discriminate.
  - change (String c user +:+ ?x) with (String c (user +:+ x)) in E. change ("" +:+ ?x) with x in E. injection E as -> _.
    cbn in Huser. discriminate.
  - change (String c user +:+ ?x) with (String c (user +:+ x)) in E. change (String c' name +:+ ?x) with (String c' (name +:+ x)) in E.
    injection E as <- E. cbn in Huser, Hn. apply andb_prop in Huser as [_ Huser], Hn as [_ Hn]. by apply (IH Huser name).
Qed.

Lemma redactUser_lone u scheme user rest : url_scheme u = Some (scheme, user +:+ "@" +:+ rest) ->
  user <> "" -> lacks ["/"; "?"; "#"; ":"]%char user ->
  exists host, redactUser u = scheme +:+ REDACTED +:+ "@" +:+ host /\ clear_of ["/"; "?"; "#"; ":"]%char host.
Proof.
  intros Hu Hne Huser.
  unfold redactUser. rewrite Hu. cbn [mbind option_bind]. change (user +:+ "@" +:+ rest) with (user +:+ String "@" rest).
  rewrite (span_chars_lacks _ user _ Huser). cbn [span_chars].
  change (none_of ["/"; "?"; "#"; ":"]%char "@"%char) with true. cbn iota.
  pose proof (span_chars_split (none_of ["/"; "?"; "#"; ":"]%char) rest) as Hs.
  destruct (span_chars _ rest) as [run s2]. destruct Hs as (-> & Hrun & Hs2). cbn [fst snd mbind option_bind].
  pose proof (split_last_at_some user run) as [[x after] E]. pose proof (split_last_at_spec (user +:+ String "@" run)) as Hl.
  rewrite E in Hl |- *. cbn [mbind option_bind]. destruct Hl as [El Hl].
  assert (x <> "") as Hx.
  { intros ->. change ("" +:+ ?y) with y in El. destruct user as [|c user]; [done|].
    change (String c user +:+ ?y) with (String c (user +:+ y)) in El. injection El as -> El. subst after.
    rewrite all_chars_app in Hl. apply andb_prop in Hl as [_ Hl]. cbn in Hl. discriminate. }
  rewrite bool_decide_false by done. eexists. split; [reflexivity|]. by apply clear_before.
Qed.

Lemma password_masked u : userinfo_masked u (redactUser (redactPassword u)).
Proof.
  split.
  - intros scheme name pw rest Hu Hn Hpw. destruct (redactPassword_spec u _ _ _ _ Hu Hn Hpw) as (host & E & Hc).
    exists host. split; [|done]. rewrite E. apply redactUser_keeps; [|done]. by apply (url_scheme_spec u _ _ Hu).
  - intros scheme user rest Hu Hne Huser.
    assert (redactPassword u = u) as -> by (unfold redactPassword; by rewrite !(userinfo_lone _ u _ _ _ Hu Huser)).
    by apply (redactUser_lone u scheme user rest).
Qed.

(** The query comes after, and may be written anew. *)
Lemma redactUrl_masked u w : redactUrl (Some u) = Some w -> userinfo_masked u w.
Proof.
  unfold redactUrl. case_bool_decide as Hu.
  { intros [= <-]. subst u. split; intros ? ? ?; [intros ?|]; done. }
  set (out := redactUser (redactPassword u)). pose proof (password_masked u) as [Hp Hl]. fold out in Hp, Hl.
  assert (forall q, q = out \/ (exists t, q = (span_chars (none_of ["?"%char]) out).1 +:+ String "?" t) ->
    userinfo_masked u q) as Hall.
  { intros q Hq.
    assert (forall stop p host, out = p +:+ host -> lacks ["?"%char] p -> "?"%char ∈ stop -> clear_of stop host ->
      exists host', q = p +:+ host' /\ clear_of stop host') as Hkeep.
    { intros stop p host E Hp' Hin Hc. destruct Hq as [->|[t ->]]; [by exists host|]. rewrite E, (span_chars_lacks _ p host Hp'). cbn [fst].
      exists ((span_chars (none_of ["?"%char]) host).1 +:+ String "?" t). split; [by rewrite string_app_assoc|by apply clear_base]. }
    split.
    - intros scheme name pw rest Hs Hn Hpw. destruct (Hp scheme name pw rest Hs Hn Hpw) as (host & E & Hc).
      destruct (Hkeep ["/"; "?"; "#"]%char (scheme +:+ name +:+ ":" +:+ REDACTED +:+ "@") host) as (host' & -> & Hc').
      + by rewrite E, <- !string_app_assoc.
      + rewrite !all_chars_app. destruct (url_scheme_spec _ _ _ Hs) as (_ & -> & _).
        rewrite (lacks_fewer ["?"%char] ["/"; "?"; "#"; "@"; ":"]%char name); [done| |done]. intros c ->%list_elem_of_singleton. right. left.
      + right. left.
      + done.
      + exists host'. split; [by rewrite <- !string_app_assoc|done].
    - intros scheme user rest Hs Hne Huser. destruct (Hl scheme user rest Hs Hne Huser) as (host & E & Hc).
      destruct (Hkeep ["/"; "?"; "#"; ":"]%char (scheme +:+ REDACTED +:+ "@") host) as (host' & -> & Hc').
      + by rewrite E, <- !string_app_assoc.
      + rewrite !all_chars_app. by destruct (url_scheme_spec _ _ _ Hs) as (_ & -> & _).
      + right. left.
      + done.
      + exists host'. split; [by rewrite <- !string_app_assoc|done]. }
  destruct (span_chars (none_of ["?"%char]) out) as [base rest] eqn:Eo. cbn [fst] in Hall. destruct rest as [|c query].
  { intros [= <-]. apply Hall. by left. }
  destruct (_ && _) eqn:Et; intros [= <-]; apply Hall.
  - apply andb_prop in Et as [_ Et%bool_decide_eq_true]. by left.
  - right. by eexists.
Qed.

Hypothesis Hround : forall l, parse_query (query_text l) = l.

Lemma redactUrl_safe url : safe_url (redactUrl url).
Proof.
  intros w q. unfold redactUrl. destruct url as [u|]; [|done]. case_bool_decide as Hu.
  { intros [= <-]. by rewrite Hu. }
  set (out := redactUser (redactPassword u)). pose proof (span_chars_split (none_of ["?"%char]) out) as Hs.
  destruct (span_chars (none_of ["?"%char]) out) as [base rest] eqn:Eo. destruct rest as [|c query].
  { intros [= <-]. unfold url_query. by rewrite Eo. }
  destruct (existsb _ (parse_query query)) eqn:Et; cbn [negb andb].
  2: case_bool_decide as Hout.
  2: { intros [= <-]. unfold url_query. rewrite <- Hout, Eo. cbn. intros [= <-] p Hp. right.
       destruct (isSensitiveName p.1 [] || looksSensitive p.2) eqn:E; [|by apply orb_false_iff in E].
       rewrite <- Et. assert (existsb (fun p => isSensitiveName p.1 [] || looksSensitive p.2) (parse_query query) = true) as H
         by (apply existsb_exists; exists p; split; [by apply list_elem_of_In|done]). congruence. }
  all: intros [= <-]; unfold url_query; change (base +:+ "?" +:+ ?t) with (base +:+ String "?" t);
    destruct Hs as (_ & Hb & _); rewrite (span_chars_app _ _ _ _ Hb) by done; cbn [snd]; intros [= <-]; rewrite Hround;
    intros p (p' & -> & _)%list_elem_of_fmap; unfold redact_param, safe_param;
    (destruct (isSensitiveName p'.1 [] || looksSensitive p'.2) eqn:E; [by left|right; by apply orb_false_iff in E]).
Qed.

(** ** What is thrown *)

Definition safe_config (extra : list string) (c : AxiosConfig) : Prop :=
  hidden (ax_params c) /\ hidden (ax_data c) /\ safe_headers extra (ax_headers c) /\
  safe_url (ax_url c) /\ safe_url (ax_baseURL c).

Lemma redactConfig_safe c extra : safe_config extra (redactConfig c extra).
Proof. split_and!; try apply redactBody_hidden; [apply redactHeaders_safe|apply redactUrl_safe..]. Qed.

(** A config's URL after redaction, against the one before. *)
Definition url_masked (url url' : option string) : Prop :=
  forall u, url = Some u -> exists w, url' = Some w /\ userinfo_masked u w.

Lemma redactUrl_url_masked url : url_masked url (redactUrl url).
Proof.
  intros u ->. destruct (redactUrl (Some u)) as [w|] eqn:E; [exists w; split; [done|by apply redactUrl_masked]|].
  unfold redactUrl in E. case_bool_decide; [done|]. destruct (span_chars _ _) as [b [|c q]]; [done|]. by destruct (_ && _).
Qed.

(** C9. An error that [sanitizeError] lets out shows no credential.  The request
    is gone from the error and from its response; the config that is left (put on
    the response as well, when the error has one) holds only the method and: URLs
    whose password is masked whenever a user and a password stand before the
    host, and whose user is when it stands alone, nothing of either before the
    host (a user name with a raw [@] before the password apart, see
    [at_in_user_leaks]); their every query parameter with a credential's name or
    look is masked; headers are masked by name (those the client configured
    included) whatever they hold, and by look when they are text; and parameters
    and a body are [hidden] — at any depth, in objects, in form text and in JSON
    text, no field named like a credential has another value than the mask, and
    no text has a credential's look.  So are the response's headers, its body (a
    stream apart, which stays the caller's) and its reason phrase.  And redacting
    a body always ends: more fuel than its size changes nothing. *)
Theorem error_shows_no_credential (e : AxiosFailure) (extra : list string) :
  let e' := sanitizeError e extra in
  ef_request e' = false /\
  (forall c, ef_config e' = Some c -> safe_config extra c) /\
  (forall c, ef_config e = Some c -> exists c', ef_config e' = Some c' /\
     url_masked (ax_url c) (ax_url c') /\ url_masked (ax_baseURL c) (ax_baseURL c')) /\
  (forall r, ef_response e' = Some r ->
     ep_request r = false /\ (is_Some (ef_config e) -> ep_config r = ef_config e') /\
     safe_headers extra (ep_headers r) /\ (isReadableStream (ep_data r) = true \/ hidden (ep_data r)) /\
     (forall s, ep_statusText r = VStr s -> hidden (VStr s))) /\
  forall v more, redact_body (S (body_size v) + more) v = redactBody v.
Proof.
  split_and!; [done| | | |].
  - intros c Hc. cbn in Hc. destruct (ef_config e) as [c'|]; [|done]. injection Hc as <-. apply redactConfig_safe.
  - intros c Hc. unfold sanitizeError. rewrite Hc. cbn. eexists. split; [done|]. split; apply redactUrl_url_masked.
  - intros r Hr. cbn in Hr. destruct (ef_response e) as [r'|]; [|done]. injection Hr as <-.
    cbn [sanitizeResponse ep_request ep_config ep_headers ep_data ep_statusText]. split_and!; [done| | | |].
    + intros [c Ec]. unfold sanitizeError. cbn [ef_config]. by rewrite Ec.
    + apply redactHeaders_safe.
    + destruct (isReadableStream (ep_data r')) eqn:E; [by left|right].
      destruct (ep_data r') eqn:Ed; first [by apply hidden_atom|apply redactBody_hidden].
    + intros s. destruct (ep_statusText r'); try done. intros <-. apply redactBody_hidden.
  - intros v more. apply redact_fuel; lia.
Qed.
End hiding.

(** ** What a wrapped failure still tells *)

(** Of a failed call a plugin can read the vendor's status and its body, the body
    redacted, and nothing of either when there was no answer; a failure that was
    wrapped further in says what it said there. *)
Lemma wrapped_error_tells `{WebPlatform} clientName code message context metadata e :
  let w := wrap_error clientName code message context metadata e in
  match e with
  | AxiosThrown _ _ status _ data =>
      getOriginalStatus w = (match status with VNum n => Some n | _ => None end) /\ getOriginalResponseData w = redactBody data
  | Wrapped _ _ _ => w = e
  | ErrorThrown _ _ | OtherThrown _ => getOriginalStatus w = None /\ getOriginalResponseData w = VUndefined
  end.
Proof.
  cbv zeta. assert (forall (v : value) m, omap_get "originalError" (omap_set "originalError" v m) = Some v) as Hget.
  { intros v m. by rewrite omap_get_set, decide_True. }
  destruct e; cbn [wrap_error]; [done|..]; unfold getOriginalStatus, getOriginalResponseData, original_error; by rewrite Hget.
Qed.

(** What the handler refuses a caller for is the caller's to change or to retry;
    [500] is only a configuration's fault or an answer that never came. *)
Lemma handler_error_status e h : handler_error_of e = Some h ->
  he_statusCode h ∈ [400; 408; 499; 503] \/
  (he_statusCode h = 500 /\ ((exists code message, e = JsError (ConfigurationError code message)) \/ e = NoResponseError)).
Proof.
  destruct e as [[]|[]| | | | | | | |]; intros E; try discriminate E; injection E as <-; cbn [he_statusCode];
    rewrite ?elem_of_cons; eauto 10.
Qed.

(** ** A platform, and an error *)

(** Queries written as JSON text: one codec that reads its own texts back. *)
Definition query_json (l : list (string * string)) : json := JArr (map (fun p => JArr [JStr p.1; JStr p.2]) l).

Definition read_pairs (l : list json) : list (string * string) :=
  omap (fun j => match j with JArr [JStr k; JStr v] => Some (k, v) | _ => None end) l.

#[local] Instance json_platform : WebPlatform :=
  {| decodeURIComponent := Some;
     parse_query := fun s => match parse s with Some (JArr l) => read_pairs l | _ => [] end;
     query_text := fun l => stringify (query_json l) |}.

Lemma json_platform_round l : parse_query (query_text l) = l.
Proof.
  cbn [parse_query query_text json_platform]. rewrite parse_stringify.
  - unfold query_json, read_pairs. induction l as [|[k v] l IH]; [done|]. cbn. by rewrite IH.
  - constructor. apply list.Forall_forall. intros j (p & -> & _)%list_elem_of_fmap. repeat constructor.
Qed.

Definition demo_error : AxiosFailure :=
  let c := {| ax_method := VStr "post"; ax_baseURL := None;
              ax_url := Some ("https://me:pw@api/x?" +:+ query_text [("api_key", "k"); ("page", "2")]);
              ax_params := VUndefined; ax_headers := Some [("Authorization", VStr "Bearer t"); ("Accept", VStr "*/*")];
              ax_data := VStr "grant=a&client_secret=s" |} in
  {| ef_config := Some c; ef_request := true;
     ef_response := Some {| ep_config := Some c; ep_request := true; ep_headers := Some [("Set-Cookie", VStr "sid")];
                            ep_data := VObj true [("token", VStr "t"); ("error", VStr "no")]; ep_statusText := VStr "Bearer t" |} |}.

Lemma error_shows_no_credential_witness :
  let e := sanitizeError demo_error [] in
  ef_request e = false /\
  (exists c, ef_config e = Some c /\ safe_config [] c /\ ax_data c = VStr "grant=a&client_secret=[REDACTED]"
    /\ ax_headers c = Some [("Authorization", VStr REDACTED); ("Accept", VStr "*/*")]
    /\ exists w host, ax_url c = Some w /\ w = "https://" +:+ "me" +:+ ":" +:+ REDACTED +:+ "@" +:+ host) /\
  (exists r, ef_response e = Some r /\ ep_request r = false /\ ep_config r = ef_config e /\ ep_statusText r = VStr REDACTED /\
    ep_data r = VObj true [("token", VStr REDACTED); ("error", VStr "no")]).
Proof.
  intros e. destruct (error_shows_no_credential json_platform_round demo_error []) as (H1 & H2 & Hu & H3 & _).
  split; [exact H1|]. split.
  - eexists. split; [reflexivity|]. split; [apply H2; reflexivity|]. split; [vm_compute; reflexivity|]. split; [vm_compute; reflexivity|].
    destruct (Hu _ eq_refl) as (c' & Hc & Hm & _). destruct (Hm _ eq_refl) as (w & Hw & Hp & _).
    destruct (Hp "https://" "me" "pw" ("api/x?" +:+ query_text [("api_key", "k"); ("page", "2")])) as (host & E & _);
      [vm_compute; reflexivity..|].
    exists w, host. split; [|exact E]. injection Hc as <-. exact Hw.
  - eexists. split; [reflexivity|]. destruct (H3 _ eq_refl) as (H4 & H5 & _).
    split; [exact H4|]. split; [apply H5; by eexists|]. split; vm_compute; reflexivity.
Defined.

(** A user name with a raw [@] before its password: neither pattern takes the
    password for one, and what stands before the first [:] alone is masked. *)
Example at_in_user_leaks : redactUrl (Some "https://me@corp.com:secret@host/x") = Some "https://[REDACTED]@corp.com:secret@host/x".
Proof. vm_compute. reflexivity. Qed.
