(* ===== verification/MeteredProps.v ===== *)
(** * A metered client over the memory backend

    The client's claims and refunds stay off its queue, so its drain loop ends;
    and what the client's keys, waits and updates promise. *)
From S2P Require Import Prelude JsNumber JsString Json Value RateLimit Cost Timers.
From S2P Require Import Shared SharedFacts MemoryStore StoreFacts TokenBucket Concurrency MultiLimit Queue Freeze Backend.
From S2P Require Import Election Requests Client Metered Drain DrainSpec DrainProps Footprint MemoryDrain.

(** ** The client's calls stay off its queue *)

Section quiet.
Variable self : ClientData.
Local Notation other := (other_key self).
Local Notation quietly m := (within (quiet (B:=MemoryServer) (self:=self)) m).

Lemma ask_outside {A} (c : call A) :
  (forall k, footprint c k -> other k) -> quietly (ask (B:=MemoryServer) c).
Proof.
  intros Hc s b. unfold ask. pose proof (outside_quiet self c b) as Hq.
  destruct (serve c b) as [r b']. apply Hq. intros now w k Hk.
  apply (proj1 (exec_touches c now w)). intros Hf. by apply (other_not_protected self k (Hc k Hf)).
Qed.

Lemma within_of_result_bind {A A'} (r : result A) (f : A -> C MemoryServer A') :
  (forall a, r = Ok a -> quietly (f a)) -> quietly (of_result r ≫= f).
Proof.
  intros Hf. destruct r as [a|e]; [by apply Hf|]. intros s b. simpl. reflexivity.
Qed.

(** Every key a spec claims is one of the client's budget keys. *)
Definition spec_other (s : MultiLimitSpec) : Prop := forall k, spec_keys s k -> other k.

Lemma limit_spec_other g slot cost rel l s :
  limit_spec self g slot cost rel l = Ok (Some s) -> spec_other s.
Proof.
  unfold limit_spec. destruct (n_limit l); try done;
    destruct ((if rel then claimedAmount cost else costFor cost) (n_name l)); simpl; try done;
    intros [= <-] k Hk.
  - unfold spec_keys, bucket_keys in Hk. destruct Hk as [Hk|(mk & Hmk & _)]; [|done].
    rewrite Hk. apply bucket_key_other.
  - unfold spec_keys, slot_keys in Hk. destruct Hk as [Hk|Hk]; rewrite Hk; [|apply other_app];
      apply slot_key_other.
Qed.

Lemma limit_specs_other g slot cost rel l specs :
  limit_specs self g slot cost rel l = Ok specs -> Forall spec_other specs.
Proof.
  revert specs. induction l as [|x l IH]; simpl; intros specs; [by intros [= <-]|].
  destruct (limit_spec self g slot cost rel x) as [o|] eqn:E; simpl; [|done].
  destruct (limit_specs self g slot cost rel l) as [specs'|]; simpl; [|done]. intros [= <-].
  apply Forall_app_2; [|by apply IH]. destruct o as [s|]; [|constructor].
  constructor; [by eapply limit_spec_other|constructor].
Qed.

Lemma withMarks_other m specs : Forall spec_other specs -> Forall spec_other (withMarks self m specs).
Proof.
  intros Hs. unfold withMarks. destruct (m_settles m); [|done].
  apply Forall_fmap. eapply Forall_impl; [exact Hs|]. intros [fk cost key config mark|] Hk; [|done].
  intros k [->|(mk & _ & ->)]; [apply Hk; by left|]. apply other_app, Hk. by left.
Qed.

Lemma spec_key_other s : spec_other s -> other (spec_key s).
Proof. intros Hs. apply Hs. destruct s; by left. Qed.

Lemma startsWith_split x s : startsWith x s = true -> exists t, s = x +:+ t.
Proof.
  revert s. induction x as [|c x IH]; intros s; simpl; [by exists s|].
  destruct s as [|c' s]; [done|]. intros [->%bool_decide_eq_true Hs]%andb_true_iff.
  destruct (IH s Hs) as [t ->]. by exists t.
Qed.

Lemma slot_prefix_other g key :
  startsWith (getConcurrencyKey self g +:+ ":") key = true -> other key.
Proof.
  intros [t ->]%startsWith_split. do 2 apply other_app. by apply grant_key_other.
Qed.

Lemma specs_in_outside (specs : list MultiLimitSpec) k :
  Forall spec_other specs -> (exists s, s ∈ specs /\ spec_keys s k) -> other k.
Proof. intros Hs (s & Hin & Hk). rewrite Forall_forall in Hs. by apply (Hs s). Qed.

Lemma stale_quiet request specs slot : quietly (releaseStaleSlots (B:=MemoryServer) self request specs slot).
Proof.
  unfold releaseStaleSlots. destruct (m_claimedKeys request) as [keys|]; [|within_solve].
  eapply within_foreach; [apply _|]. intros key.
  destruct (startsWith (getConcurrencyKey self (m_grantId request) +:+ ":") key) eqn:E;
    [|rewrite orb_true_r; within_solve].
  apply slot_prefix_other in E. destruct (_ || _); [within_solve|].
  apply ask_outside. intros k [->| ->]; [done|by apply other_app].
Qed.

Lemma releaseClaim_quiet request cost : quietly (releaseClaim (B:=MemoryServer) self request cost).
Proof.
  unfold releaseClaim. within_step; [within_solve|]. apply within_of_result_bind. intros specs Hs.
  apply limit_specs_other in Hs. within_step; [apply stale_quiet|].
  assert (Forall spec_other (filter (fun s => wasClaimed request (spec_key s) = true) specs)) as Hf
    by (apply Forall_forall; intros s [_ Hin]%list_elem_of_filter; rewrite Forall_forall in Hs; by apply Hs).
  destruct (filter _ specs) as [|s claimed] eqn:Ef; [within_solve|].
  assert (other (spec_key s)) as Hk by (apply spec_key_other; by inversion Hf).
  assert (forall k, (exists s', s' ∈ s :: claimed /\ spec_keys s' k) -> other k) as Hall
    by (intros k; by apply specs_in_outside).
  destruct (soleRateLimit _) as [[limit name]|]; [destruct limit|]; cbn [n_limit n_name implements memory_backend negb pwhen];
    try (apply ask_outside; exact Hall).
  - apply ask_outside. by intros k ->.
  - apply ask_outside. intros k [->| ->]; [done|by apply other_app].
Qed.

Lemma isFrozen_quiet g : quietly (isFrozen_ (B:=MemoryServer) self g).
Proof.
  unfold isFrozen_. within_step; [|within_solve]. apply ask_outside. intros k [].
Qed.

Lemma claim_quiet request cost : quietly (claim (B:=MemoryServer) self request cost).
Proof.
  unfold claim. within_step; [within_solve|].
  match goal with |- within _ (match ?x with _ => _ end) =>
    destruct x as [[[o|k0| |owner|t] name]|] end; cbn [implements memory_backend negb].
  3-6: apply within_of_result_bind; intros specs Hs%limit_specs_other;
    apply (withMarks_other request) in Hs;
    (within_step; [|within_solve]); apply ask_outside; intros k Hin; by eapply specs_in_outside.
  - apply within_of_result_bind. intros amount _. within_step; [|within_solve].
    apply ask_outside. intros k [->|(m & _ & ->)]; [|apply other_app]; apply bucket_key_other.
  - apply within_of_result_bind. intros amount _. within_step; [|within_solve].
    apply ask_outside. intros k [->| ->]; [|apply other_app]; apply slot_key_other.
Qed.

Local Hint Resolve gate_ask : stays.

Lemma releaseClaim_gate request cost : stays gate_kept (releaseClaim (B:=MemoryServer) self request cost).
Proof. unfold releaseClaim, releaseStaleSlots. stays_solve. Qed.

Lemma claim_gate request cost : stays gate_kept (claim (B:=MemoryServer) self request cost).
Proof. unfold claim. stays_solve. Qed.

Lemma isFrozen_gate g : stays gate_kept (isFrozen_ (B:=MemoryServer) self g).
Proof. unfold isFrozen_. stays_solve. Qed.
Local Hint Resolve releaseClaim_gate claim_gate isFrozen_gate : stays.

#[export] Instance metered_quiet : QuietClient MemoryServer self (H0 := MeteredClient self).
Proof.
  split; intros m; cbn [b_tryAcquireTurn b_refundUnusedAdmission MeteredClient].
  - unfold tryAcquireTurn. within_step; [within_solve|]. within_step; [within_solve|].
    within_step; [within_solve|]. apply within_of_result_bind. intros [problem|] _; [within_solve|].
    within_step; [apply isFrozen_quiet|]. within_step; [within_solve|].
    within_step; [apply claim_quiet|]. destruct a0 as [claimed request].
    within_step; [within_solve|]. within_step; [within_solve|].
    within_step; [apply isFrozen_quiet|]. within_step; [|within_solve].
    within_step; [|within_solve]. within_step; [apply releaseClaim_quiet|within_solve].
  - unfold refundUnusedAdmission_. within_step; [within_solve|]. within_step; [within_solve|].
    apply releaseClaim_quiet.
  - unfold tryAcquireTurn. stays_solve.
  - unfold refundUnusedAdmission_. stays_solve.
Qed.
End quiet.

(** ** A client to run *)

Definition demo_client : ClientData :=
  {| k_instanceId := "i1"; k_name := "api"; k_registeredName := "api"; k_handlerNamespace := "app";
     k_authData := None; k_ownerAuthData := None;
     k_requestOptions := {| o_settleWindow := None; o_streamTimeout := None;
                            o_cleanupTimeout := None; o_concurrencySlotTtl := None |};
     k_retryOptions := resolve_retryOptions None None None None None None None;
     k_healthCheckIntervalMs := int 5000 |}.

Definition demo_limits : list NamedRateLimitData :=
  [{| n_name := "default"; n_limit := requestLimit
        {| rl_interval := int 1000; rl_tokensToAdd := int 1; rl_maxTokens := int 1;
           rl_maxDebt := None |} |}].

Definition demo_state (limits : list NamedRateLimitData) : Client :=
  {| c_role := controller; c_rateLimit := limits; c_admissionHalted := false; c_now := int 5000;
     c_processingLock := false; c_processingPending := false; c_drainTimer := None;
     c_waitingRequests := []; c_parked := []; c_events := []; c_passes := 0;
     c_pendingRequestDone := []; c_completedRequestIds := []; c_freezeTimers := [];
     c_forwardTimer := false; c_forwardAttempts := int 0; c_inFlight := 0; c_openStreams := [] |}.

Definition demo_request (id : string) (cost : num) : QueuedRequest :=
  {| q_requestId := id; q_clientName := "api"; q_requestName := "get"; q_status := "pending";
     q_priority := int 1; q_cost := CostNumber cost; q_retries := int 0; q_timestamp := int 4000;
     q_grantId := None; q_isThawRequest := false; q_settles := false; q_ownerId := "i1";
     q_claimedAt := None |}.

(** Two requests queued, one of which the bucket covers. *)
Definition demo_server : MemoryServer :=
  let add := fun (b : MemoryServer) id =>
    (serve (CAddRequest (getQueueKey demo_client) (getMetadataKeyPrefix demo_client)
              (demo_request id (int 1)) (int 86400)) b).2 in
  add (add (int 5000, MemoryBackend) "r1") "r2".

(** Nothing stored yet. *)
Definition demo_empty : MemoryServer := (int 5000, MemoryBackend).

(** The pass of this queue, with two calls coming in during its first turn:
    the request the bucket covers goes out, and one more pass follows. *)
Lemma drain_ends_witness :
  let '(r, (c', _)) := processRequests (H0:=MeteredClient demo_client) demo_client [2%nat] 4 (demo_state demo_limits) demo_server in
  r <> Return None /\ c_processingLock c' = false /\ c_processingPending c' = false /\ c_passes c' = 1%nat
  /\ map (fun e => match e with Ready m _ => Some (m_requestId m) | Failed _ _ => None end) (c_events c') = [Some "r1"].
Proof.
  assert (map (fun e => match e with Ready m _ => Some (m_requestId m) | Failed _ _ => None end)
       (c_events (processRequests (H0:=MeteredClient demo_client) demo_client [2%nat] 4
                    (demo_state demo_limits) demo_server).2.1) = [Some "r1"]) as He by (vm_compute; reflexivity).
  set (start := (set_processingPending false (set_processingLock true (demo_state demo_limits)), new_pass)).
  assert (c_passes (turns (H0:=MeteredClient demo_client) demo_client [2%nat] 4 start demo_server).2.1.1 = 0%nat)
    as Hp by (vm_compute; reflexivity).
  assert (arrived (H0:=MeteredClient demo_client) demo_client [2%nat] 4 start demo_server = 2%nat) as Ha by (vm_compute; reflexivity).
  pose proof (drain_ends (self:=demo_client) (H0:=MeteredClient demo_client) [2%nat] (demo_state demo_limits) demo_server 4) as Hd.
  cbv zeta in Hd. fold start in Hd. rewrite Hp, Ha in Hd.
  destruct (processRequests demo_client [2%nat] 4 (demo_state demo_limits) demo_server) as [r [c' b']].
  cut (sound (self:=demo_client) demo_server).
  { intros Hs. destruct Hd as (Hr & Hl & Hpass); [exact Hs|vm_compute; lia|].
    destruct (Hpass eq_refl eq_refl) as [_ Hfree]. destruct (Hfree eq_refl) as [Hpend Hmore].
    split_and!; [exact Hr|by apply Hl|exact Hpend|exact Hmore|exact He]. }
  split; [exists 5000%Z; split; [vm_compute; reflexivity|unfold safe; lia]|].
  intros id h Hid Hh.
  assert (id = "r1" \/ id = "r2") as Hc.
  { assert (members demo_client demo_server = ["r1"; "r2"]) as E by (vm_compute; reflexivity).
    rewrite E in Hid. apply elem_of_cons in Hid as [Hid|Hid]; [by left|right].
    by apply list_elem_of_singleton in Hid. }
  assert (forall f v, (entry_at demo_client demo_server id ≫= lookup f) = Some v -> h !! f = Some v) as Hf
    by (intros f v; rewrite Hh; done).
  clear Hid Hh.
  split_and!; [by destruct Hc as [->| ->]| | | |];
    [|exists "api"; split; [|discriminate]|exists "pending"; split; [|discriminate]|exists "get"];
    apply Hf; destruct Hc as [->| ->]; vm_compute; reflexivity.
Defined.
