(* ===== verification/RequestFacts.v ===== *)
(** * Completions on the wire

    A completion is announced as JSON text.  When its numbers are finite the text
    parses to the fields that were written, none lost and none written twice; and
    a request whose own numbers are finite announces such completions, as long as
    its pacing is finite too. *)
From S2P Require Import Prelude JsNumber JsString Json JsonFacts Value RateLimit Cost.
From S2P Require Import Shared MemoryStore Queue Freeze Backend Requests Client Completions.

(** ** Objects with optional properties *)

(** The properties that are there, in order. *)
Definition present (l : list (string * option json)) : list (string * json) :=
  omap (fun e => pair e.1 <$> e.2) l.

Lemma present_get k l : NoDup l.*1 -> omap_get k (present l) = omap_get k l ≫= id.
Proof.
  induction l as [|[k' v] l IH]; [done|]. intros Hd. apply NoDup_cons in Hd as [Hk Hd].
  specialize (IH Hd). destruct v as [v|]; cbn [omap_get].
  - change (present ((k', Some v) :: l)) with ((k', v) :: present l). cbn [omap_get].
    by case_decide.
  - change (present ((k', None) :: l)) with (present l). rewrite IH. case_decide; [|done]. subst k'.
    destruct (omap_get k l) as [v|] eqn:E; [|done]. apply omap_get_elem in E.
    destruct Hk. apply list_elem_of_fmap. by exists (k, v).
Qed.

Lemma present_keys l : (present l).*1 `sublist_of` l.*1.
Proof. induction l as [|[k [v|]] l IH]; cbn; by constructor. Qed.

Lemma present_ok l :
  NoDup l.*1 -> Forall (fun e => forall j, e.2 = Some j -> json_ok j) l -> json_ok (JObj (present l)).
Proof.
  intros Hd Hl. constructor.
  - by eapply sublist_NoDup; [|apply present_keys].
  - clear Hd. induction Hl as [|[k [v|]] l Hx Hl IH]; cbn; [done| |done]. constructor; [by apply Hx|done].
Qed.

(** ** The properties of a completion *)

Definition metadata_table (m : RequestMetadata) : list (string * option json) :=
  [("requestId", Some (JStr (m_requestId m))); ("status", Some (JStr (status_name (m_status m))));
   ("clientName", Some (JStr (m_clientName m))); ("timestamp", Some (JNum (m_timestamp m)));
   ("priority", Some (JNum (m_priority m))); ("cost", Some (cost_json (m_cost m)));
   ("explicitCost", cost_json <$> m_explicitCost m);
   ("requestName", Some (JStr (m_requestName m))); ("retries", Some (JNum (m_retries m)));
   ("grantId", JStr <$> m_grantId m); ("isThawRequest", Some (JBool (m_isThawRequest m)));
   ("settles", if m_settles m then Some (JBool true) else None);
   ("fastPath", Some (JBool (m_fastPath m)));
   ("claimedKeys", (fun l => JArr (map JStr l)) <$> m_claimedKeys m);
   ("ownerId", Some (JStr (m_ownerId m)))].

Definition done_table (d : RequestDoneData) : list (string * option json) :=
  metadata_table (d_metadata d) ++
  [("responseStatus", Some (JStr (response_name (d_responseStatus d))));
   ("waitTime", Some (JNum (d_waitTime d))); ("freezeTime", JNum <$> d_freezeTime d);
   ("isRateLimited", Some (JBool (d_isRateLimited d)));
   ("freezeClient", Some (JBool (d_freezeClient d))); ("completedAt", Some (JNum (d_completedAt d)));
   ("httpStatus", JNum <$> d_httpStatus d);
   ("phase", (fun p => JStr (phase_name p)) <$> d_phase d)].

Lemma metadata_present m : metadata_fields m = present (metadata_table m).
Proof. destruct m as [? ? ? ? ? ? [?|] ? ? [?|] ? ? [] [?|] ?]; reflexivity. Qed.

Lemma done_present d : done_json d = JObj (present (done_table d)).
Proof.
  unfold done_json, done_table, present. rewrite metadata_present, omap_app. do 2 f_equal.
  destruct d as [? ? [?|] ? [?|] ? ? ? [?|]]; reflexivity.
Qed.

Lemma done_keys d : NoDup (done_table d).*1.
Proof.
  assert ((done_table d).*1 =
    ["requestId"; "status"; "clientName"; "timestamp"; "priority"; "cost"; "explicitCost";
     "requestName"; "retries"; "grantId"; "isThawRequest"; "settles"; "fastPath"; "claimedKeys";
     "ownerId"; "responseStatus"; "waitTime"; "freezeTime"; "isRateLimited"; "freezeClient";
     "completedAt"; "httpStatus"; "phase"]) as -> by done.
  apply (bool_decide_unpack _). vm_compute. exact I.
Qed.

(** ** What can be announced *)

Definition finite (x : num) : Prop := wf_num x /\ isFinite x = true.

Definition cost_ok (c : RequestCost) : Prop := json_ok (cost_json c).

(** A completion whose numbers are all finite. *)
Record announceable (d : RequestDoneData) : Prop := {
  an_timestamp : finite (m_timestamp (d_metadata d));
  an_priority : finite (m_priority (d_metadata d));
  an_retries : finite (m_retries (d_metadata d));
  an_cost : cost_ok (m_cost (d_metadata d));
  an_explicit : forall c, m_explicitCost (d_metadata d) = Some c -> cost_ok c;
  an_wait : finite (d_waitTime d);
  an_freeze : forall t, d_freezeTime d = Some t -> finite t;
  an_completed : finite (d_completedAt d);
  an_http : forall s, d_httpStatus d = Some s -> finite s
}.

Lemma finite_ok x : finite x -> json_ok (JNum x).
Proof. intros []. by constructor. Qed.

Lemma strings_ok l : json_ok (JArr (map JStr l)).
Proof. constructor. induction l; constructor; [constructor|done]. Qed.

Lemma done_ok d : announceable d -> json_ok (done_json d).
Proof.
  intros []. rewrite done_present. apply present_ok; [apply done_keys|].
  assert (Hopt : forall (o : option num), (forall t, o = Some t -> finite t) ->
            forall j, JNum <$> o = Some j -> json_ok j).
  { intros [t|] Ht j [= <-]. by apply finite_ok, Ht. }
  unfold done_table, metadata_table. cbn [app].
  repeat (constructor; [cbn [snd]; intros j Hj|]); try constructor;
    first [injection Hj as <-; first [by constructor | by apply finite_ok | done] 
      | by apply (Hopt _ an_freeze0) | by apply (Hopt _ an_http0) | idtac].
  - destruct (m_explicitCost (d_metadata d)) as [c|]; [|done]. injection Hj as <-. by apply an_explicit0.
  - destruct (m_grantId (d_metadata d)); [|done]. injection Hj as <-. constructor.
  - destruct (m_settles (d_metadata d)); [|done]. injection Hj as <-. constructor.
  - destruct (m_claimedKeys (d_metadata d)); [|done]. injection Hj as <-. apply strings_ok.
  - destruct (d_phase d); [|done]. injection Hj as <-. constructor.
Qed.

(** The text of a completion whose numbers are all finite is the text of exactly
    its fields.  ([JSON.stringify] writes another number as [null].) *)
Lemma done_text (d : RequestDoneData) : announceable d -> parse (stringify (done_json d)) = Some (done_json d).
Proof. intros Hd. by apply parse_stringify, done_ok. Qed.

(** ** What a request announces *)

(** A request whose numbers are finite announces completions that can be. *)
Record sound_request (r : Request) : Prop := {
  so_timestamp : finite (r_timestamp r);
  so_priority : finite (r_priority r);
  so_retries : finite (r_retries r);
  so_cost : cost_ok (r_cost r);
  so_explicit : forall c, r_explicitCost r = Some c -> cost_ok c
}.

Lemma request_announceable r retryData status phase now :
  sound_request r -> finite now -> (forall s, status = Some s -> finite s) ->
  (forall t, retryData = Some t -> (isNaN (rt_waitTime t) = true \/ finite (rt_waitTime t)) /\
     forall f, rt_freezeTime t = Some f -> finite f) ->
  announceable (getRequestDoneData r retryData status phase now).
Proof.
  intros [] Hnow Hst Ht.
  assert (Hz : finite (int 0)) by (split; [apply wf_int; unfold safe; lia|done]).
  split; cbn; try done.
  - destruct retryData as [t|]; [|done]. destruct (Ht t eq_refl) as [Hw _]. unfold num_or.
    destruct Hw as [->|Hw]; [done|]. by destruct (_ || _).
  - destruct retryData as [t|]; [|done]. by apply Ht.
Qed.
