(* ===== verification/CompletionProps.v ===== *)
(** * Completions are applied once

    What the bookkeeping of [Completions] is for: whatever fails and is retried
    on a controller, and however often a completion is announced, its cleanup
    succeeds once and no completion is dropped before it was applied. *)
From S2P Require Import Prelude JsNumber JsString Json Value RateLimit Cost Timers.
From S2P Require Import Shared MemoryStore TokenBucket Queue Freeze Backend.
From S2P Require Import Election Requests Client Metered Completions DrainSpec MemoryDrain MeteredProps.

(** ** The books, and the subclasses that leave them alone *)

Definition books (c : Client) : list (string * PendingRequestDone) * list string * ClientRole :=
  (c_pendingRequestDone c, c_completedRequestIds c, c_role c).

Section book_laws.
Context {B : Type}.

Definition same_books (cb cb' : Client * B) : Prop := books cb'.1 = books cb.1.

#[export] Instance same_books_preorder : PreOrder same_books.
Proof. split; [done|]. unfold same_books. intros x y z H1 H2. congruence. Qed.
End book_laws.

(** A subclass whose completion work leaves the bookkeeping to the base class. *)
Class BookLaws (B : Type) `{client_class : BaseClient B} := {
  law_own_books : forall d, stays same_books (b_handleOwnTypeRequestDone d);
  law_freeze_books : forall g, stays same_books (b_handleFreezeOwnTypeRequests g)
}.

(** ** Counting the cleanups that succeed

    The world with a log in front: a subclass's completion work is logged, under
    the completion's id, when it succeeds. *)

Section traced.
Context {B : Type} `{DianemoBackend B} `{BaseClient B}.

#[export] Instance traced_client : BaseClient (Traced string B) := {|
  b_tryAdmitImmediately := fun m => traced (b_tryAdmitImmediately m);
  b_tryAcquireTurn := fun m => traced (b_tryAcquireTurn m);
  b_refundUnusedAdmission := fun m => traced (b_refundUnusedAdmission m);
  b_claimsReleasableCapacity := b_claimsReleasableCapacity;
  b_getCostProblem := b_getCostProblem;
  b_assertReadyToQueue := traced b_assertReadyToQueue;
  b_handleOwnTypeRequestDone := fun d => logged (completionIdOf d) (b_handleOwnTypeRequestDone d);
  b_handleFreezeOwnTypeRequests := fun g => traced (b_handleFreezeOwnTypeRequests g);
  b_getRetryBackoffBaseTime := b_getRetryBackoffBaseTime;
  b_getFreezeBaseTime := b_getFreezeBaseTime;
  b_freezeEmptiesBucket := b_freezeEmptiesBucket;
  b_settleAttempt := fun m v => traced (b_settleAttempt m v)
|}.
End traced.

(** ** What the books say *)

(** Completions the headers of a stream announced: the end releases the slot. *)
Definition at_headers (id : string) : Prop :=
  exists d, completionIdOf d = id /\ d_phase d = Some headers.

Definition times (id : string) (log : list string) : nat := length (filter (fun x => x = id) log).

Lemma times_cons id x log : times id (x :: log) = ((if decide (x = id) then 1 else 0) + times id log)%nat.
Proof. unfold times. rewrite filter_cons. by case_decide. Qed.

(** [given] are the completions announced so far and [acked] those another
    replica acknowledged, all of them among [ids]. *)
Record kept_books (ids given acked : list string) (pend : list (string * PendingRequestDone))
    (done : list string) (log : list string) : Prop := {
  kb_once : forall id, (times id log <= 1)%nat;
  kb_logged : forall id, times id log = 1%nat ->
    id ∈ done \/ exists p, omap_get id pend = Some p /\ p_ownTypeHandled p = true;
  kb_apart : forall id, id ∈ done -> omap_get id pend = None;
  kb_named : forall id p, omap_get id pend = Some p -> completionIdOf (p_data p) = id /\ id ∈ ids;
  kb_own : forall id p, omap_get id pend = Some p -> p_ownTypeHandled p = true ->
    times id log = 1%nat \/ at_headers id;
  kb_done : forall id, id ∈ done -> (times id log = 1%nat \/ id ∈ acked \/ at_headers id) /\ id ∈ ids;
  kb_nodup : NoDup done;
  kb_given : forall id, id ∈ given -> id ∈ done \/ is_Some (omap_get id pend)
}.

(** What the stages may do to a record and the log. *)
Definition stage_step (p : PendingRequestDone) (log : list string) (p' : PendingRequestDone)
    (log' : list string) : Prop :=
  completionIdOf (p_data p') = completionIdOf (p_data p) /\ d_phase (p_data p') = d_phase (p_data p)
  /\ ((p_ownTypeHandled p' = p_ownTypeHandled p /\ log' = log)
      \/ (p_ownTypeHandled p = false /\ p_ownTypeHandled p' = true
          /\ (log' = completionIdOf (p_data p) :: log
              \/ (log' = log /\ d_phase (p_data p) = Some headers)))).

Section books_lemmas.
Context (ids given acked : list string).

Lemma kb_stage pend done log id p p' log' :
  kept_books ids given acked pend done log -> omap_get id pend = Some p ->
  stage_step p log p' log' ->
  kept_books ids given acked (omap_set id p' pend) done log'.
Proof.
  intros [Ho Hl Ha Hn Hw Hd Hnd Hg] Hp (Hid & Hph & Hs).
  destruct (Hn id p Hp) as [En Ein].
  assert (p_ownTypeHandled p = false -> times id log = 0%nat) as Hz.
  { intros Hf. specialize (Ho id). destruct (decide (times id log = 1%nat)) as [E|E]; [|lia].
    destruct (Hl id E) as [Hin|(q & Hq & Hqt)]; [by rewrite (Ha id Hin) in Hp|congruence]. }
  assert (forall i, times i log' = times i log
    \/ (i = id /\ log' = id :: log /\ p_ownTypeHandled p = false /\ p_ownTypeHandled p' = true)) as Ht.
  { intros i. destruct Hs as [[_ ->]|(Hf & Ht & [->|[-> _]])]; [by left| |by left].
    rewrite En, times_cons. case_decide; [right; by subst|by left]. }
  assert (forall i, times i log <= times i log')%nat as Hmon.
  { intros i. destruct Hs as [[_ ->]|(_ & _ & [->|[-> _]])]; try done. rewrite times_cons. lia. }
  assert (p_ownTypeHandled p = true -> p_ownTypeHandled p' = true) as Hkeep
    by (destruct Hs as [[-> _]|(-> & _)]; done).
  split.
  - intros i. destruct (Ht i) as [->|(-> & -> & Hf & _)]; [apply Ho|]. rewrite times_cons, Hz by done. case_decide; lia.
  - intros i Ei. rewrite omap_get_set. destruct (Ht i) as [E|(-> & _ & _ & Hpt)]; [|right; exists p'; by rewrite decide_True].
    rewrite E in Ei. destruct (Hl i Ei) as [Hin|(q & Hq & Hqt)]; [by left|right].
    case_decide; [|by exists q]. subst i. exists p'. split; [done|]. apply Hkeep. congruence.
  - intros i Hi. rewrite omap_get_set. case_decide; [subst; by rewrite (Ha _ Hi) in Hp|by apply Ha].
  - intros i q. rewrite omap_get_set. case_decide; [|apply Hn]. intros [= <-]. subst i. split; [congruence|done].
  - intros i q. rewrite omap_get_set. case_decide as Ei.
    + intros [= <-] Hpt. subst i. destruct Hs as [[E ->]|(Hf & _ & [->|[-> Hh]])].
      * apply (Hw id p Hp). congruence.
      * left. rewrite times_cons, Hz by done. by rewrite decide_True.
      * right. by exists (p_data p).
    + intros Hq Hqt. destruct (Ht i) as [->|(-> & _)]; [by eapply Hw|done].
  - intros i Hi. destruct (Hd i Hi) as [[E|E] Hin]; (split; [|done]); [|by right].
    left. specialize (Hmon i). destruct (Ht i) as [->|(-> & _)]; [done|]. by rewrite (Ha _ Hi) in Hp.
  - done.
  - intros i Hi. rewrite omap_get_set. case_decide; [by right; eexists|]. by apply Hg.
Qed.

Lemma remember_within id done :
  (length ids <= completed_limit)%nat -> NoDup done -> (forall i, i ∈ id :: done -> i ∈ ids) ->
  remember id done = oset_add id done.
Proof.
  intros Hlen Hnd Hin. unfold remember. rewrite decide_False; [done|].
  assert (NoDup (oset_add id done)) as Hn.
  { unfold oset_add. case_decide; [done|]. apply NoDup_app. split_and!; [done|set_solver|apply NoDup_singleton]. }
  assert (oset_add id done ⊆+ ids) as Hs.
  { apply NoDup_submseteq; [done|]. intros i. unfold oset_add. case_decide; set_solver. }
  apply submseteq_length in Hs. lia.
Qed.

(** The record of [id] leaves the kept ones for the applied ones. *)
Lemma kb_finish acked' pend done log id :
  (length ids <= completed_limit)%nat ->
  kept_books ids given acked pend done log -> acked ⊆ acked' -> id ∈ ids ->
  times id log = 1%nat \/ id ∈ acked' \/ at_headers id ->
  kept_books ids given acked' (omap_delete id pend) (remember id done) log.
Proof.
  intros Hlen [Ho Hl Ha Hn Hw Hd Hnd Hg] Hac Hid Hwhy.
  assert (forall i, i ∈ id :: done -> i ∈ ids) as Hall
    by (intros i [->|Hi]%elem_of_cons; [done|by apply Hd]).
  rewrite remember_within by done.
  split.
  - done.
  - intros i Ei. rewrite elem_of_oset_add, omap_get_delete.
    destruct (decide (id = i)) as [->|Hne]; [by left; left|].
    destruct (Hl i Ei) as [Hi|Hi]; [by left; right|by right].
  - intros i Hi%elem_of_oset_add. rewrite omap_get_delete. case_decide; [done|].
    destruct Hi as [->|Hi]; [done|by apply Ha].
  - intros i q. rewrite omap_get_delete. case_decide; [done|apply Hn].
  - intros i q. rewrite omap_get_delete. case_decide; [done|apply Hw].
  - intros i [->|Hi]%elem_of_oset_add; [done|]. destruct (Hd i Hi) as [[?|[?|?]] ?]; split; auto.
  - unfold oset_add. case_decide; [done|]. apply NoDup_app. split_and!; [done|set_solver|apply NoDup_singleton].
  - intros i Hi. rewrite elem_of_oset_add, omap_get_delete. case_decide; [by left; left|].
    destruct (Hg i Hi); auto.
Qed.

(** A completion is announced: its record is stored, unless it was applied. *)
Lemma kb_store pend done log d p :
  kept_books ids given acked pend done log -> completionIdOf d ∈ ids ->
  completionIdOf d ∉ done -> omap_get (completionIdOf d) pend = None ->
  p_data p = d -> p_ownTypeHandled p = false ->
  kept_books ids (completionIdOf d :: given) acked (omap_set (completionIdOf d) p pend) done log.
Proof.
  intros [Ho Hl Ha Hn Hw Hd Hnd Hg] Hin Hnot Hnone Hp Hf. split.
  - done.
  - intros i Ei. destruct (Hl i Ei) as [Hi|(q & Hq & Hqt)]; [by left|right].
    exists q. rewrite omap_get_set. case_decide; [congruence|done].
  - intros i Hi. rewrite omap_get_set. case_decide; [congruence|by apply Ha].
  - intros i q. rewrite omap_get_set. case_decide; [|apply Hn]. intros [= <-]. subst i. by rewrite Hp.
  - intros i q. rewrite omap_get_set. case_decide; [|apply Hw]. intros [= <-]. congruence.
  - done.
  - done.
  - intros i [->|Hi]%elem_of_cons; rewrite omap_get_set; [by right; rewrite decide_True; [eexists|]|].
    case_decide; [by right; eexists|]. by apply Hg.
Qed.

Lemma kb_give pend done log id :
  kept_books ids given acked pend done log -> id ∈ done \/ is_Some (omap_get id pend) ->
  kept_books ids (id :: given) acked pend done log.
Proof.
  intros [Ho Hl Ha Hn Hw Hd Hnd Hg] Hid. split; try done.
  intros i [->|Hi]%elem_of_cons; [done|by apply Hg].
Qed.
End books_lemmas.

(** ** What the base class's own operations leave alone *)

Section programs.
Context {B : Type} `{DianemoBackend B} `{!BaseClient B} `{!BookLaws B}.
Variable self : ClientData.
Local Notation T := (Traced string B).

Definition unlogged (cb cb' : Client * T) : Prop :=
  books cb'.1 = books cb.1 /\ cb'.2.1 = cb.2.1.

#[export] Instance unlogged_preorder : PreOrder unlogged.
Proof. split; [done|]. unfold unlogged. intros x y z [? ?] [? ?]. split; congruence. Qed.

Lemma unlogged_ask {A} (c : call A) : stays unlogged (ask (B:=T) c).
Proof. intros s [l b]. unfold ask. simpl. by destruct (serve c b). Qed.

Lemma unlogged_modify (f : Client -> Client) :
  (forall c, books (f c) = books c) -> stays unlogged (modify_state (B:=T) f).
Proof. intros Hf s b. by split; [apply Hf|]. Qed.

Lemma unlogged_traced {A} (m : C B A) : stays same_books m -> stays unlogged (traced m).
Proof.
  intros Hm c [l b]. unfold traced. specialize (Hm c b). cbn [fst snd].
  destruct (m c b) as [r [c' b']]. by split.
Qed.

Lemma unlogged_poke : stays unlogged (poke (B:=T)).
Proof. by apply unlogged_modify. Qed.
Hint Resolve unlogged_ask unlogged_poke : stays.

Lemma unlogged_publish ch j : stays unlogged (publish_ (B:=T) self ch j).
Proof. apply unlogged_ask. Qed.
Lemma unlogged_addFrozen g : stays unlogged (addFrozenGrantId (B:=T) self g).
Proof. unfold addFrozenGrantId. stays_solve. Qed.
Lemma unlogged_removeFrozen g : stays unlogged (removeFrozenGrantId (B:=T) self g).
Proof. unfold removeFrozenGrantId. stays_solve. Qed.
Lemma unlogged_acknowledge d : stays unlogged (acknowledgeCompletion (B:=T) self d).
Proof. unfold acknowledgeCompletion, publish_. stays_solve. Qed.
Lemma unlogged_cleanup : stays unlogged (cleanupOrphanedRequests_ (B:=T) self).
Proof. unfold cleanupOrphanedRequests_. stays_solve. Qed.
Lemma unlogged_stale : stays unlogged (cleanupStaleFrozenGrants_ (B:=T) self).
Proof. unfold cleanupStaleFrozenGrants_. stays_solve. Qed.
Lemma unlogged_remove id : stays unlogged (removeRequestFromQueue (B:=T) self id).
Proof. apply unlogged_ask. Qed.
Lemma unlogged_get id : stays unlogged (getRequestFromQueue (B:=T) self id).
Proof. apply unlogged_ask. Qed.
Hint Resolve unlogged_publish unlogged_addFrozen unlogged_removeFrozen unlogged_acknowledge
  unlogged_cleanup unlogged_stale unlogged_remove unlogged_get : stays.

Lemma unlogged_freeze d : stays unlogged (handleFreezeRequests (B:=T) self d).
Proof.
  unfold handleFreezeRequests, publishFreezeStateChanged.
  pose proof (fun g => unlogged_traced _ (law_freeze_books g)) as Hf.
  repeat (stays_step || apply Hf).
Qed.
Hint Resolve unlogged_freeze : stays.

(** ** The stages of one completion *)

Local Notation CP := (Client * PendingRequestDone)%type.

Definition staged (cpb cpb' : CP * T) : Prop :=
  books cpb'.1.1 = books cpb.1.1 /\ stage_step cpb.1.2 cpb.2.1 cpb'.1.2 cpb'.2.1.

#[export] Instance staged_preorder : PreOrder staged.
Proof.
  split; [intros [[c p] [l b]]; unfold staged, stage_step; tauto|].
  intros [[c1 p1] [l1 b1]] [[c2 p2] [l2 b2]] [[c3 p3] [l3 b3]]. unfold staged, stage_step. cbn [fst snd].
  intros (E1 & I1 & P1 & S1) (E2 & I2 & P2 & S2). split_and!; [congruence..|].
  destruct S1 as [[O1 ->]|(F1 & T1 & [->|[-> H1]])], S2 as [[O2 ->]|(F2 & T2 & [->|[-> H2]])];
    try congruence; rewrite ?O1, ?O2, ?I1, ?P1 in *; auto 8.
Qed.

Lemma staged_own {A} (m : C T A) : stays unlogged m -> stays staged (own m).
Proof.
  intros Hm [c p] [l b]. unfold own. specialize (Hm c (l, b)). cbn [fst snd].
  destruct (m c (l, b)) as [r [c' [l' b']]]. destruct Hm as [Hb Hl]. cbn [fst snd] in *. subst l'.
  split; [done|]. unfold stage_step. tauto.
Qed.

Lemma staged_set (f : PendingRequestDone -> PendingRequestDone) :
  (forall p l, stage_step p l (f p) l) -> stays staged (set_pending (B:=T) f).
Proof. intros Hf [c p] [l b]. by split; [|apply Hf]. Qed.

Lemma staged_pending : stays staged (pending (B:=T)).
Proof. intros [c p] [l b]. unfold staged, stage_step. simpl. tauto. Qed.
Hint Resolve staged_pending : stays.

Ltac staged_solve :=
  repeat (stays_step || apply staged_own
          || (apply staged_set; intros ? ?; unfold stage_step; simpl; tauto)
          || (apply unlogged_modify; done)).

Lemma staged_queue : stays staged (queue_stage (B:=T) self).
Proof. unfold queue_stage. staged_solve. Qed.
Lemma staged_freeze : stays staged (freeze_stage (B:=T) self).
Proof. unfold freeze_stage. staged_solve. Qed.
Lemma staged_thaw b : stays staged (thaw_stage (B:=T) self b).
Proof. unfold thaw_stage. staged_solve. Qed.

Lemma staged_phase : stays staged (set_pending (B:=T) phase_stages).
Proof.
  apply staged_set. intros p l. unfold stage_step, phase_stages.
  destruct (d_phase (p_data p)) as [[|]|] eqn:E; simpl; rewrite ?E; try tauto.
  split_and!; [done..|]. destruct (p_ownTypeHandled p); [by left|by right; auto].
Qed.

Lemma staged_own_type : stays staged (own_type_stage (B:=T)).
Proof.
  intros [c p] [l b]. unfold own_type_stage, pending, own, set_pending, modify_state, mbind, Prog_bind.
  cbn [fst snd]. destruct (p_ownTypeHandled p) eqn:Ep; simpl; [split; [done|by unfold stage_step; auto]|].
  unfold logged, traced, log_entry, mbind, Prog_bind. cbn [fst snd]. pose proof (law_own_books (p_data p) c b) as Hb.
  destruct (b_handleOwnTypeRequestDone (p_data p) c b) as [[[]|e] [c' b']]; simpl;
    (split; [exact Hb|unfold stage_step; simpl; rewrite Ep; auto 10]).
Qed.
Hint Resolve staged_queue staged_freeze staged_thaw staged_phase staged_own_type : stays.

Lemma staged_done : stays staged (handleRequestDone (B:=T) self).
Proof. unfold handleRequestDone. staged_solve. Qed.

(** What runs to its end has done the subclass's work. *)
Definition own_handled (r : outcome unit) (cp : CP) (_ : T) : Prop :=
  r = Return tt -> p_ownTypeHandled cp.2 = true.

Lemma wp_own_type cp tb : wp (own_type_stage (B:=T)) own_handled cp tb.
Proof.
  destruct cp as [c p], tb as [l b]. unfold wp, own_type_stage, pending, own, set_pending, modify_state, mbind, Prog_bind.
  cbn [fst snd]. destruct (p_ownTypeHandled p) eqn:Ep; simpl; [by intros _|].
  destruct (logged _ _ c (l, b)) as [[[]|e] [c' b']]; simpl; by intros.
Qed.

Lemma wp_after (m : Prog CP T unit) cp tb :
  stays staged m -> p_ownTypeHandled cp.2 = true -> wp m own_handled cp tb.
Proof.
  intros Hm Hp. eapply wp_stays; [exact Hm|]. intros r cp' tb' [_ (_ & _ & Hs)] _. cbn [fst snd] in *.
  destruct Hs as [[-> _]|[Hf _]]; congruence.
Qed.

Lemma wp_done cp tb : wp (handleRequestDone (B:=T) self) own_handled cp tb.
Proof.
  assert (forall {A} (m : Prog CP T A) (k : A -> Prog CP T unit) cp tb, stays staged m ->
    (forall a cp' tb', wp (k a) own_handled cp' tb') -> wp (m ≫= k) own_handled cp tb) as Hbind.
  { intros A m k cp0 tb0 Hm Hk. apply wp_bind. eapply wp_stays; [exact Hm|]. intros [a|e] cp' tb' _; [apply Hk|done]. }
  unfold handleRequestDone. do 3 (apply Hbind; [auto with stays|intros ? ? ?]).
  apply wp_bind. eapply wp_mono; [apply wp_own_type|]. intros [[]|e] cp2 tb2 Hp; [|done].
  apply wp_after; [|by apply Hp]. staged_solve.
Qed.

(** ** The operations of a controller *)

Context (ids : list string) (Hlen : (length ids <= completed_limit)%nat).

(** A controller with its books in order. *)
Definition in_order (given acked : list string) (c : Client) (tb : T) : Prop :=
  c_role c = controller
  /\ kept_books ids given acked (c_pendingRequestDone c) (c_completedRequestIds c) tb.1.

Definition orderly (given acked : list string) (cb cb' : Client * T) : Prop :=
  in_order given acked cb.1 cb.2 -> in_order given acked cb'.1 cb'.2.

#[export] Instance orderly_preorder given acked : PreOrder (orderly given acked).
Proof. split; [by intros ? ?|]. intros x y z H12 H23 Ho. by apply H23, H12. Qed.

Lemma unlogged_orderly given acked cb cb' : unlogged cb cb' -> orderly given acked cb cb'.
Proof.
  intros [Hb Hl] [Hr Hk]. unfold in_order. injection Hb as -> -> ->. by rewrite Hl.
Qed.

Lemma stays_orderly {A} given acked (m : C T A) : stays unlogged m -> stays (orderly given acked) m.
Proof. intros Hm s b. apply unlogged_orderly, Hm. Qed.

Lemma orderly_flush_one given acked id : stays (orderly given acked) (flush_one (B:=T) self id).
Proof.
  apply stays_wp. intros c [l b]. unfold flush_one. apply wp_bind, wp_get.
  destruct (omap_get id (c_pendingRequestDone c)) as [p|] eqn:Ep; [|by apply wp_ret; intros ?].
  apply wp_catch, wp_bind. unfold wp at 1, run_stages.
  pose proof (wp_done (c, p) (l, b)) as Hd. pose proof (staged_done (c, p) (l, b)) as Hbs.
  unfold wp in Hd. revert Hd Hbs.
  destruct (handleRequestDone (B:=T) self (c, p) (l, b)) as [r [[c' p'] [l' b']]]. intros Hd [Hb Hs].
  cbn [fst snd] in *. injection Hb as Epend Edone Erole. rewrite Epend, Ep.
  assert (in_order given acked c (l, b) -> c_role c = controller /\ kept_books ids given acked
    (omap_set id p' (c_pendingRequestDone c)) (c_completedRequestIds c) l') as Hst
    by (intros [Hr Hk]; split; [done|]; eapply kb_stage; [exact Hk|exact Ep|exact Hs]).
  destruct r as [[]|e].
  - apply wp_bind, wp_modify, wp_bind, wp_modify.
    eapply (wp_stays (orderly given acked)); [apply stays_orderly; stays_solve|].
    intros r c2 tb2 H2.
    assert (orderly given acked (c, (l, b)) (c2, tb2)) as Ho; [|destruct r; [exact Ho|by apply wp_ret]].
    intros Ho. apply H2. destruct (Hst Ho) as [Hr Hk']. split; cbn; [by rewrite Erole|].
    rewrite Edone. eapply kb_finish; [done|exact Hk'|done| |].
    + destruct Ho as [_ Hk]. apply (kb_named _ _ _ _ _ _ Hk id p Ep).
    + destruct (kb_own _ _ _ _ _ _ Hk' id p') as [Hone|Hh];
        [by rewrite omap_get_set, decide_True|by apply (Hd eq_refl)|by left|by right; right].
  - apply wp_ret. intros Ho. destruct (Hst Ho). split; cbn; [by rewrite Erole|by rewrite Edone].
Qed.

Lemma orderly_flush given acked only : stays (orderly given acked) (flushPendingRequestDone (B:=T) self only).
Proof.
  unfold flushPendingRequestDone. stays_step; [stays_step|].
  eapply stays_foreach; [apply _|]. intros id. apply orderly_flush_one.
Qed.

Lemma orderly_tick given acked : stays (orderly given acked) (health_tick (B:=T) self (mret tt)).
Proof.
  intros c tb Ho. unfold health_tick.
  assert (wp (or_else (mret tt ;; c ← get_state;
     (if decide (c_role c = controller) then flushPendingRequestDone self None
      else forwardPendingRequestDone self) ;;
     c ← get_state;
     pwhen (bool_decide (c_role c = controller))
       (cleanupOrphanedRequests_ self ;; cleanupStaleFrozenGrants_ self) ;;
     poke) tt) (fun _ c' tb' => in_order given acked c' tb') c tb) as Hw; [|unfold wp in Hw].
  - unfold or_else. apply wp_catch, wp_bind, wp_ret, wp_bind, wp_get.
    rewrite decide_True by apply Ho. apply wp_bind.
    eapply wp_stays; [apply (orderly_flush given acked)|]. intros r c1 tb1 Hr.
    specialize (Hr Ho). cbn [fst snd] in Hr. destruct r as [[]|e]; [|by apply wp_ret].
    eapply (wp_stays (orderly given acked)); [apply stays_orderly; stays_solve|].
    intros r c2 tb2 Hr2. specialize (Hr2 Hr). destruct r; [done|by apply wp_ret].
  - destruct (or_else _ _ c tb) as [r [c' tb']]. exact Hw.
Qed.

Lemma order_finalize given acked d c tb :
  completionIdOf d ∈ ids -> in_order given acked c tb ->
  wp (finalizeOwnedRequest (B:=T) self d)
    (fun _ c' tb' => in_order (completionIdOf d :: given) acked c' tb') c tb.
Proof.
  intros Hid [Hrole Hk]. unfold finalizeOwnedRequest. apply wp_bind, wp_get. case_decide as Hin.
  - eapply (wp_stays (orderly (completionIdOf d :: given) acked)); [apply stays_orderly; stays_solve|].
    intros r c' tb' Hr. apply Hr. split; [done|]. apply kb_give; [done|by left].
  - apply wp_bind. unfold storePendingRequestDone. apply wp_modify. rewrite decide_False by done.
    set (c1 := match omap_get (completionIdOf d) (c_pendingRequestDone c) with Some _ => c | None => _ end).
    assert (in_order (completionIdOf d :: given) acked c1 tb) as H1.
    { subst c1. destruct (omap_get _ _) as [p|] eqn:Ep.
      - split; [done|]. apply kb_give; [done|]. right. by rewrite Ep.
      - split; [done|]. by apply kb_store. }
    apply wp_bind, wp_get. destruct H1 as [Hr1 Hk1]. rewrite Hr1.
    eapply (wp_stays (orderly (completionIdOf d :: given) acked)); [apply orderly_flush|].
    intros r c' tb' Hr. apply Hr. by split.
Qed.

Lemma order_applied given acked id c tb :
  id ∈ ids -> in_order given acked c tb ->
  wp (handleRequestDoneApplied (B:=T) id) (fun _ c' tb' => in_order given (id :: acked) c' tb') c tb.
Proof.
  intros Hid [Hrole Hk]. apply wp_bind, wp_modify, wp_modify. split; [done|].
  cbn. eapply kb_finish; [done|done|set_solver|done|]. right. left. set_solver.
Qed.

(** ** A controller's history *)

(** What reaches a controller: announcements, acknowledgements of another
    replica, health ticks, freeze timers, time, and whatever other replicas do
    to the backend. *)
Inductive completion_event :=
  | Delivered (d : RequestDoneData)
  | Applied (completionId : string)
  | Tick
  | FreezeTimer (n : nat)
  | Clock (now : num)
  | Elsewhere (f : B -> B).

Definition event_step (e : completion_event) : C T unit :=
  match e with
  | Delivered d => finalizeOwnedRequest self d
  | Applied id => handleRequestDoneApplied id
  | Tick => health_tick self (mret tt)
  | FreezeTimer n => freeze_timer_fires self n
  | Clock now => modify_state (set_now now)
  | Elsewhere f => fun c lb => (Return tt, (c, (lb.1, f lb.2)))
  end.

(** The state after a history; what an event rejects with is logged, no more. *)
Definition event_run (h : list completion_event) (c : Client) (tb : T) : Client * T :=
  fold_left (fun cb e => (event_step e cb.1 cb.2).2) h (c, tb).

Definition delivered (h : list completion_event) : list RequestDoneData :=
  omap (fun e => match e with Delivered d => Some d | _ => None end) h.
Definition acknowledged (h : list completion_event) : list string :=
  omap (fun e => match e with Applied id => Some id | _ => None end) h.

Lemma order_step given acked e c tb :
  (forall d, e = Delivered d -> completionIdOf d ∈ ids) ->
  (forall id, e = Applied id -> id ∈ ids) ->
  in_order given acked c tb ->
  exists given' acked',
    in_order given' acked' (event_step e c tb).2.1 (event_step e c tb).2.2
    /\ given' = map completionIdOf (delivered [e]) ++ given /\ acked' = acknowledged [e] ++ acked.
Proof.
  intros Hd Ha Ho. eexists _, _. split; [|split; reflexivity]. destruct e as [d|id| |n|now|f]; simpl.
  - pose proof (order_finalize given acked d c tb (Hd d eq_refl) Ho) as Hw. unfold wp in Hw.
    by destruct (finalizeOwnedRequest (B:=T) self d c tb) as [r [c' tb']].
  - by pose proof (order_applied given acked id c tb (Ha id eq_refl) Ho).
  - by apply (orderly_tick given acked c tb).
  - assert (stays unlogged (freeze_timer_fires (B:=T) self n)) as Hs.
    { unfold freeze_timer_fires. repeat (stays_step || (apply unlogged_modify; done)). }
    eapply (unlogged_orderly given acked); [apply Hs|done].
  - by destruct Ho.
  - by destruct Ho.
Qed.

Lemma order_run h given acked c tb :
  (forall d, d ∈ delivered h -> completionIdOf d ∈ ids) ->
  (forall id, id ∈ acknowledged h -> id ∈ ids) ->
  in_order given acked c tb ->
  exists given' acked',
    in_order given' acked' (event_run h c tb).1 (event_run h c tb).2
    /\ (forall id, id ∈ given' <-> id ∈ given \/ id ∈ map completionIdOf (delivered h))
    /\ (forall id, id ∈ acked' <-> id ∈ acked \/ id ∈ acknowledged h).
Proof.
  revert given acked c tb. induction h as [|e h IH]; intros given acked c tb Hd Ha Ho.
  - exists given, acked. simpl. set_solver.
  - destruct (order_step given acked e c tb) as (g1 & a1 & H1 & -> & ->);
      [intros d ->; apply Hd; left|intros id ->; apply Ha; left|done|].
    edestruct (IH (map completionIdOf (delivered [e]) ++ given) (acknowledged [e] ++ acked)
                 (event_step e c tb).2.1 (event_step e c tb).2.2)
      as (g2 & a2 & H2 & Hg & Hac); [| |exact H1|].
    + intros d Hin. apply Hd. unfold delivered in *. destruct e; simpl; set_solver.
    + intros id Hin. apply Ha. unfold acknowledged in *. destruct e; simpl; set_solver.
    + exists g2, a2. split; [|split].
      * unfold event_run in *. simpl. by rewrite <- surjective_pairing in H2.
      * intros id. rewrite Hg. unfold delivered. destruct e; simpl; set_solver.
      * intros id. rewrite Hac. unfold acknowledged. destruct e; simpl; set_solver.
Qed.
End programs.

(** ** The id of a completion tells its phase *)

Lemma append_suffix (s t u v : string) :
  s +:+ u = t +:+ v -> String.length u = String.length v -> u = v.
Proof.
  intros E Hl. apply (f_equal String.list_ascii_of_string) in E.
  assert (forall s t, String.list_ascii_of_string (s +:+ t)
            = String.list_ascii_of_string s ++ String.list_ascii_of_string t) as Happ
    by (intros s0 t0; induction s0 as [|c s0 IH]; [done|]; simpl; by rewrite IH).
  rewrite !Happ in E. apply app_inj_2 in E.
  - destruct E as [_ E]. apply (f_equal String.string_of_list_ascii) in E.
    by rewrite !String.string_of_list_ascii_of_string in E.
  - assert (forall s, length (String.list_ascii_of_string s) = String.length s) as Hlen
      by (intros s0; induction s0; simpl; congruence).
    by rewrite !Hlen.
Qed.

(** The last two letters of an id. *)
Definition tail_of (d : RequestDoneData) : string :=
  match d_phase d with
  | Some headers => "rs"
  | Some end_ => "nd"
  | None => match d_responseStatus d with success => "ss" | failure => "re" | retry => "ry" end
  end.

Lemma completionId_tail d : exists s, completionIdOf d = s +:+ tail_of d.
Proof.
  unfold completionIdOf, tail_of. set (r := num_to_string _).
  destruct (d_phase d) as [[|]|].
  - exists ((m_requestId (d_metadata d) +:+ ":" +:+ r +:+ ":" +:+ response_name (d_responseStatus d)) +:+ ":heade").
    by rewrite <- !string_app_assoc.
  - exists ((m_requestId (d_metadata d) +:+ ":" +:+ r +:+ ":" +:+ response_name (d_responseStatus d)) +:+ ":e").
    by rewrite <- !string_app_assoc.
  - destruct (d_responseStatus d).
    + exists (m_requestId (d_metadata d) +:+ ":" +:+ r +:+ ":succe"). by rewrite <- !string_app_assoc.
    + exists (m_requestId (d_metadata d) +:+ ":" +:+ r +:+ ":failu"). by rewrite <- !string_app_assoc.
    + exists (m_requestId (d_metadata d) +:+ ":" +:+ r +:+ ":ret"). by rewrite <- !string_app_assoc.
Qed.

Lemma at_headers_phase d : at_headers (completionIdOf d) -> d_phase d = Some headers.
Proof.
  intros (d' & E & Hp). destruct (completionId_tail d) as [s Es], (completionId_tail d') as [s' Es'].
  rewrite Es, Es' in E. apply append_suffix in E.
  - unfold tail_of in E. rewrite Hp in E. destruct (d_phase d) as [[|]|]; [done|discriminate|].
    destruct (d_responseStatus d); discriminate.
  - unfold tail_of. rewrite Hp. destruct (d_phase d) as [[|]|]; [done..|by destruct (d_responseStatus d)].
Qed.

(** ** Metered clients leave the books alone *)

Section metered.
Context {B : Type} `{DianemoBackend B}.
Variable self : ClientData.
Local Notation stays_books m := (stays (same_books (B:=B)) m).

Lemma books_ask {A} (c : call A) : stays_books (ask c).
Proof. intros s b. unfold ask. by destruct (serve c b). Qed.
Lemma books_poke : stays_books poke.
Proof. by intros s b. Qed.
Hint Resolve books_ask books_poke : stays.

#[export] Instance metered_books : BookLaws B (client_class := MeteredClient self).
Proof.
  split; intros; cbn [b_handleOwnTypeRequestDone b_handleFreezeOwnTypeRequests MeteredClient].
  - unfold handleOwnTypeRequestDone, releaseStaleSlots. stays_solve.
  - unfold handleFreezeOwnTypeRequests. stays_solve.
Qed.
End metered.

(** C31: A controller applies each completion once.  Whatever is announced to it,
    however often, whatever fails and is retried by its health tick, whatever
    other replicas do to the backend meanwhile: the subclass's cleanup of a
    completion (the release of its slots) succeeds at most once, no announced
    completion is dropped before it was applied, and one that was applied here
    was cleaned up, unless its end is announced separately.  The history may
    name up to the 10,000 completions the client remembers. *)
Theorem completion_applied_once {B} `{DianemoBackend B} `{!BaseClient B} `{!BookLaws B}
    (self : ClientData) (h : list (completion_event (B:=B))) (c : Client) (b : B) :
  c_role c = controller -> c_pendingRequestDone c = [] -> c_completedRequestIds c = [] ->
  (length (remove_dups (map completionIdOf (delivered h) ++ acknowledged h)) <= completed_limit)%nat ->
  let '(c', (log, _)) := event_run self h c ([], b) in
  (forall id, (times id log <= 1)%nat)
  /\ (forall d, d ∈ delivered h ->
        completionIdOf d ∈ c_completedRequestIds c'
        \/ is_Some (omap_get (completionIdOf d) (c_pendingRequestDone c')))
  /\ (forall d, d ∈ delivered h -> completionIdOf d ∈ c_completedRequestIds c' ->
        completionIdOf d ∉ acknowledged h -> d_phase d <> Some headers ->
        times (completionIdOf d) log = 1%nat).
Proof.
  intros Hr Hp Hd Hlen. set (ids := remove_dups _) in Hlen.
  destruct (order_run self ids Hlen h [] [] c ([], b)) as (g & a & [_ Hk] & Hg & Ha).
  - intros d Hin. apply elem_of_remove_dups. apply elem_of_app. left. by apply list_elem_of_fmap_2.
  - intros id Hin. apply elem_of_remove_dups. apply elem_of_app. by right.
  - split; [done|]. rewrite Hp, Hd. split; try done; try set_solver; try constructor.
  - destruct (event_run self h c ([], b)) as [c' [log b']]. cbn [fst snd] in *. split_and!.
    + apply Hk.
    + intros d Hin. apply (kb_given _ _ _ _ _ _ Hk). apply Hg. right. by apply list_elem_of_fmap_2.
    + intros d Hin Hdone Hack Hph. destruct (kb_done _ _ _ _ _ _ Hk _ Hdone) as [[E|[E|E]] _]; [done| |].
      * apply Ha in E. set_solver.
      * by apply at_headers_phase in E.
Qed.

(** A finished attempt that held a slot. *)
Definition demo_done : RequestDoneData :=
  {| d_metadata :=
       {| m_requestId := "r1"; m_status := inProgress; m_priority := int 1; m_timestamp := int 4000;
          m_clientName := "api"; m_cost := CostNumber (int 1); m_explicitCost := None;
          m_requestName := "get"; m_retries := int 0; m_grantId := None; m_isThawRequest := false;
          m_fastPath := true; m_settles := false;
          m_claimedKeys := Some ["app:api:concurrency:default"]; m_ownerId := "i2" |};
     d_responseStatus := success; d_phase := None; d_waitTime := int 0; d_freezeTime := None;
     d_isRateLimited := false; d_freezeClient := false; d_completedAt := int 5000;
     d_httpStatus := Some (int 200) |}.

Definition demo_slots : list NamedRateLimitData :=
  [{| n_name := "default"; n_limit := concurrencyLimit (int 1) |}].

(** Announced twice, and a health tick after. *)
Definition demo_completions : list (completion_event (B:=MemoryServer)) :=
  [Delivered demo_done; Tick; Delivered demo_done].

Lemma completion_applied_once_witness :
  times "r1:0:success"
    (event_run (BaseClient0 := MeteredClient demo_client) demo_client demo_completions
       (demo_state demo_slots) ([], demo_empty)).2.1 = 1%nat.
Proof.
  pose proof (completion_applied_once (BaseClient0 := MeteredClient demo_client) demo_client
                demo_completions (demo_state demo_slots) demo_empty) as Hw.
  assert (completionIdOf demo_done = "r1:0:success") as Eid by (vm_compute; reflexivity).
  assert (bool_decide ("r1:0:success" ∈ c_completedRequestIds (event_run (BaseClient0 := MeteredClient demo_client)
    demo_client demo_completions (demo_state demo_slots) ([], demo_empty)).1) = true) as Hin
    by (vm_compute; reflexivity).
  destruct (event_run (BaseClient0 := MeteredClient demo_client) demo_client demo_completions
    (demo_state demo_slots) ([], demo_empty)) as [c' [log b']]. cbn [fst snd] in *.
  destruct Hw as (_ & _ & Hw); [reflexivity..|apply Nat.leb_le; vm_compute; reflexivity|].
  rewrite <- Eid. apply Hw.
  - left.
  - rewrite Eid. exact (bool_decide_eq_true_1 _ Hin).
  - intros Hn. by apply not_elem_of_nil in Hn.
  - discriminate.
Defined.
