(* ===== verification/AttemptProps.v ===== *)
(** * Every attempt is announced once

    However a request fares - refused, aborted, timed out, rejected by the
    vendor, retried, answered - its loop ends, and each attempt that was
    admitted or queued is announced once; a streamed one again at its end. *)
From S2P Require Import Prelude JsNumber JsString Json Value RateLimit Cost Timers.
From S2P Require Import Shared MemoryStore TokenBucket Queue Freeze Backend.
From S2P Require Import Election Requests Client Metered Completions Attempts DrainSpec Atomicity MemoryDrain MeteredProps.

(** ** What a completion says of an attempt *)

Record tells (r : Request) (status : ResponseStatus) (phase : option Phase) (d : RequestDoneData) : Prop := {
  tells_id : m_requestId (d_metadata d) = r_id r;
  tells_retries : m_retries (d_metadata d) = r_retries r;
  tells_status : d_responseStatus d = status;
  tells_phase : d_phase d = phase
}.

Lemma tells_done r retryData status phase now :
  tells r match retryData with None => success | Some t => if rt_retry t then retry else failure end
    phase (getRequestDoneData r retryData status phase now).
Proof. by split. Qed.

(** The request an attempt started with, whatever was written to it since. *)
Definition same_attempt (r r' : Request) : Prop := r_id r' = r_id r /\ r_retries r' = r_retries r.

Lemma tells_same r r' status phase d : same_attempt r r' -> tells r' status phase d -> tells r status phase d.
Proof. intros [E1 E2] [H1 H2 H3 H4]. split; congruence. Qed.

(** The host in a logged world, which does not know of the log. *)
Definition traced_host {X B} (the_host : Host B) : Host (Traced X B) := {|
  h_send := fun config => traced (h_send the_host config);
  h_requestInterceptor := (fun f config => traced (f config)) <$> h_requestInterceptor the_host;
  h_authenticate := traced (h_authenticate the_host);
  h_responseInterceptor := (fun f res => traced (f res)) <$> h_responseInterceptor the_host;
  h_rateLimitChange := (fun f res => traced (f res)) <$> h_rateLimitChange the_host;
  h_retryHandler := (fun f e => traced (f e)) <$> h_retryHandler the_host;
  h_classifyError := (fun f e => traced (f e)) <$> h_classifyError the_host;
  h_settle := (fun f o => traced (f o)) <$> h_settle the_host;
  h_observer := traced <$> h_observer the_host;
  h_aborted := traced (h_aborted the_host);
  h_overran := traced (h_overran the_host);
  h_until_ready := traced (h_until_ready the_host);
  h_until_slept := fun ms => traced (h_until_slept the_host ms)
|}.

(** ** What is seen of an announcement *)

(** A publish on the completions' channel, and whether the backend took it; a
    completion handed to this replica's own handler. *)
Inductive happening :=
  | Published (text : string) (accepted : bool)
  | Finalized (d : RequestDoneData).

Definition finish {B} (d : RequestDoneData) : C (Traced happening B) unit := log_entry (Finalized d).

(** What a call publishes on the completions' channel. *)
Definition completion_text {A} (self : ClientData) (c : call A) : option string :=
  match c with
  | CPublish channel text => if bool_decide (channel = k_handlerNamespace self +:+ ":requestDone") then Some text else None
  | _ => None
  end.

(** The backend, its completions watched. *)
Definition watched_backend `{DianemoBackend B} (self : ClientData) : DianemoBackend (Traced happening B) := {|
  serve := fun A c lb =>
    let '(r, b') := serve c lb.2 in
    (r, (match completion_text self c with
         | Some text => Published text (match r with Return _ => true | Raise _ => false end) :: lb.1
         | None => lb.1
         end, b'));
  implements := implements
|}.

(** One announcement of a completion, oldest first: the publish is tried again
    when it is refused, up to three times, and the completion is handed to this
    replica once, after it; an attempt that never went out is handed over first,
    and published once. *)
Inductive announced (d : RequestDoneData) : list happening -> Prop :=
  | announced_sent refusals : (refusals < 3)%nat ->
      announced d (repeat (Published (stringify (done_json d)) false) refusals
                   ++ [Published (stringify (done_json d)) true; Finalized d])
  | announced_refused :
      announced d (repeat (Published (stringify (done_json d)) false) 3 ++ [Finalized d])
  | announced_abandoned taken : d_responseStatus d = failure ->
      announced d [Finalized d; Published (stringify (done_json d)) taken].

(** Between two logs, newest first, stands one announcement. *)
Definition logs (d : RequestDoneData) (l l' : list happening) : Prop := exists es, announced d es /\ l' = rev es ++ l.

Section attempts.
Context {B : Type} `{DianemoBackend B} `{!BaseClient B}.
Variable self : ClientData.
Variable the_host : Host B.
Variable Date_parse : string -> num.

Local Notation T := (Traced happening B).
Local Notation CR := (Client * Request)%type.
#[local] Existing Instance traced_class.
#[local] Instance watched : DianemoBackend T | 0 := watched_backend self.
Local Notation host := (traced_host (X:=happening) the_host).

(** ** The client's part, which logs nothing *)

Local Notation silent m := (stays (same_log (X:=happening) (B:=B) (S:=Client)) m).

Lemma silent_ask {A} (c : call A) : completion_text self c = None -> silent (ask c).
Proof. intros Hc s [l b]. unfold ask. cbn [serve watched watched_backend snd fst]. rewrite Hc. by destruct (serve c b). Qed.

Ltac silent_step :=
  match goal with
  | |- stays _ (match ?o with _ => _ end) => destruct o
  | _ => stays_step
  | |- stays _ (modify_state _) => apply same_log_modify
  | |- stays _ (ask _) => apply silent_ask; reflexivity
  | |- stays _ (traced _) => apply same_log_traced
  end.
Ltac silent_solve := repeat silent_step.

Lemma silent_publish ch j : ch <> ":requestDone" -> silent (publish_ self ch j).
Proof.
  intros Hch. apply silent_ask. cbn [completion_text]. rewrite bool_decide_false; [done|].
  intros E. apply Hch. by apply (inj (String.append (k_handlerNamespace self))) in E.
Qed.
Lemma silent_refund m : silent (releaseUnusedAdmission m).
Proof. apply same_log_traced. Qed.
Lemma silent_overran {A} (m : C T A) t id : silent m -> silent (withDeadline host m t id).
Proof. intros Hm. unfold withDeadline. stays_step; [exact Hm|]. stays_step; [apply same_log_traced|silent_solve]. Qed.
Lemma silent_update id u : silent (updateRequestInQueue self id u).
Proof. by apply silent_ask. Qed.
Lemma silent_poke : silent poke.
Proof. apply same_log_modify. Qed.
Hint Extern 1 (stays _ (publish_ _ _ _)) => by apply silent_publish : stays.
Hint Resolve silent_refund silent_overran silent_update silent_poke : stays.
Lemma silent_notify : silent (notifyRequestAdded self).
Proof. unfold notifyRequestAdded. silent_solve. Qed.
Hint Resolve silent_notify : stays.
Lemma silent_add q : silent (addRequestToQueue self q).
Proof. unfold addRequestToQueue. silent_solve. Qed.
Lemma silent_hooks res : silent (runResponseHooks self host res).
Proof.
  unfold runResponseHooks, updateRateLimit. cbn [traced_host h_responseInterceptor h_rateLimitChange].
  stays_step; [destruct (h_responseInterceptor the_host); simpl; silent_solve|].
  destruct (h_rateLimitChange the_host); simpl; silent_solve.
Qed.
Lemma silent_settle r o : silent (runSettle host r o).
Proof.
  unfold runSettle. cbn [traced_host h_settle]. destruct (h_settle the_host); simpl; [|silent_solve].
  stays_step; [|silent_solve]. stays_step; [silent_solve|]. destruct (is_undefined _); [silent_solve|].
  apply same_log_traced.
Qed.
Lemma silent_classify e : silent (classifyError host e).
Proof. unfold classifyError. cbn [traced_host h_classifyError]. destruct (h_classifyError the_host); simpl; silent_solve. Qed.
Lemma silent_class e out : silent (class_of self host e out).
Proof. unfold class_of. cbn [traced_host h_retryHandler]. destruct (h_retryHandler the_host); simpl; silent_solve. Qed.
Hint Resolve silent_add silent_hooks silent_settle silent_classify silent_class : stays.

(** ** Waiting for a turn *)

(** Nothing was announced, and nothing given up. *)
Definition calm (x y : CR * T) : Prop :=
  same_attempt x.1.2 y.1.2 /\ r_abandonmentPublished y.1.2 = r_abandonmentPublished x.1.2 /\ y.2.1 = x.2.1.

(** The attempt may have been given up, and said so once. *)
Definition gave_up (x y : CR * T) : Prop :=
  same_attempt x.1.2 y.1.2
  /\ ((r_abandonmentPublished y.1.2 = r_abandonmentPublished x.1.2 /\ y.2.1 = x.2.1)
      \/ (r_abandonmentPublished y.1.2 = true
          /\ exists d, tells x.1.2 failure None d /\ logs d x.2.1 y.2.1)).

#[export] Instance calm_preorder : PreOrder calm.
Proof.
  unfold calm, same_attempt. split; [intros x; tauto|].
  intros x y z ([E1 E2] & E3 & E4) ([F1 F2] & F3 & F4). split_and!; congruence.
Qed.

Lemma calm_gave_up x y : calm x y -> gave_up x y.
Proof. intros (H1 & H2 & H3). split; [done|]. by left. Qed.

Lemma calm_then x y z : calm x y -> gave_up y z -> gave_up x z.
Proof.
  intros ([E1 E2] & E3 & E4) ([F1 F2] & F). split; [split; congruence|].
  destruct F as [[F3 F4]|(F4 & d & [D1 D2 D3 D4] & F5)]; [left; split; congruence|right].
  split; [done|]. exists d. split; [split; congruence|]. by rewrite <- E4.
Qed.

(** Returns with nothing announced, or rejects having given up at most once. *)
Definition waits {A} (m : Prog CR T A) : Prop :=
  forall cr tb, r_abandonmentPublished cr.2 = false -> wp m (fun o cr' tb' =>
    match o with Return _ => calm (cr, tb) (cr', tb') | Raise _ => gave_up (cr, tb) (cr', tb') end) cr tb.

Lemma waits_calm {A} (m : Prog CR T A) : stays calm m -> waits m.
Proof.
  intros Hm cr tb _. eapply wp_stays; [exact Hm|]. intros [a|e] cr' tb' H'; [exact H'|by apply calm_gave_up].
Qed.

Lemma waits_bind {A A'} (m : Prog CR T A) (f : A -> Prog CR T A') :
  waits m -> (forall a, waits (f a)) -> waits (m ≫= f).
Proof.
  intros Hm Hf cr tb Ha. apply wp_bind. eapply wp_mono; [by apply Hm|]. intros [a|e] cr1 tb1 H1; [|exact H1].
  eapply wp_mono; [apply Hf; destruct H1 as (_ & Hr & _); cbn in Hr; congruence|]. intros [a'|e'] cr2 tb2 H2; [by etransitivity|by eapply calm_then].
Qed.

Lemma calm_client {A} (m : C T A) : silent m -> stays calm (of_client m).
Proof.
  intros Hm [c r] [l b]. unfold of_client. specialize (Hm c (l, b)). cbn [fst snd].
  destruct (m c (l, b)) as [o [c' [l' b']]]. by split_and!.
Qed.

(** The client's own part leaves the request alone. *)
Definition kept (x y : CR * T) : Prop := y.1.2 = x.1.2 /\ y.2.1 = x.2.1.

Lemma kept_client {A} (m : C T A) : silent m -> stays kept (of_client m).
Proof.
  intros Hm [c r] [l b]. unfold of_client. specialize (Hm c (l, b)). cbn [fst snd].
  destruct (m c (l, b)) as [o [c' [l' b']]]. by split.
Qed.

Lemma sure_client {A} (m : C T A) : sure m -> sure (of_client m).
Proof.
  intros Hm [c r] tb. destruct (Hm c tb) as [a Ea]. unfold of_client. cbn [fst snd].
  destruct (m c tb) as [o [c' tb']]. cbn in Ea. rewrite Ea. by exists a.
Qed.

Lemma calm_request (f : Request -> Request) :
  (forall r, same_attempt r (f r) /\ r_abandonmentPublished (f r) = r_abandonmentPublished r) ->
  stays calm (set_the_request (B:=T) f).
Proof. intros Hf [c r] tb. destruct (Hf r). by split_and!. Qed.

Lemma calm_read : stays calm (the_request (B:=T)).
Proof. intros cr tb. by split_and!. Qed.

Lemma silent_get : silent get_state.
Proof. by intros c tb. Qed.
Hint Resolve calm_read silent_get : stays.

Ltac calm_step :=
  match goal with
  | |- waits (_ ≫= _) => apply waits_bind; [|intros ?]
  | |- waits (if ?x then _ else _) => destruct x
  | |- waits (match ?x with _ => _ end) => destruct x
  | |- waits (mret _) => apply waits_calm
  | |- waits (raise _) => apply waits_calm
  | |- waits (the_request) => apply waits_calm
  | |- waits (of_client _) => apply waits_calm, calm_client
  | |- waits (set_the_request _) => apply waits_calm, calm_request; done
  | |- stays calm (of_client _) => apply calm_client
  | |- stays calm (set_the_request _) => apply calm_request; done
  | _ => silent_step
  end.
Ltac calm_solve := repeat calm_step.

Lemma waits_aborted : waits (raise_if_aborted host).
Proof. unfold raise_if_aborted. cbn [traced_host h_aborted]. calm_solve. Qed.
Lemma waits_halted : waits (raise_if_halted (B:=T) self).
Proof. unfold raise_if_halted. calm_solve. Qed.

Lemma announce_run d c l b : exists taken b' o,
  announce_done (B:=T) self d c (l, b) = (o, (c, (Published (stringify (done_json d)) taken :: l, b')))
  /\ match o with Return _ => taken = true | Raise _ => taken = false end.
Proof.
  unfold announce_done, publish_, ask. cbn [serve watched watched_backend fst snd completion_text].
  rewrite bool_decide_true by done. destruct (serve _ b) as [[[]|e] b']; eexists _, _, _; by split.
Qed.

Lemma publish_run (n : nat) d c l b : exists es b',
  publish_attempts (B:=T) self n d c (l, b) = (Return tt, (c, (rev es ++ l, b')))
  /\ ((exists k : nat, (k < n)%nat /\ es = repeat (Published (stringify (done_json d)) false) k ++ [Published (stringify (done_json d)) true])
      \/ es = repeat (Published (stringify (done_json d)) false) n).
Proof.
  revert l b. induction n as [|n IH]; intros l b; [exists [], b; split; [done|by right]|]. cbn [publish_attempts].
  unfold catch. destruct (announce_run d c l b) as (taken & b1 & o & -> & Ho). destruct o as [[]|e]; subst taken.
  - exists [Published (stringify (done_json d)) true], b1. split; [done|left]. exists 0%nat. split; [lia|done].
  - destruct (IH (Published (stringify (done_json d)) false :: l) b1) as (es & b2 & -> & He).
    exists (Published (stringify (done_json d)) false :: es), b2. split; [cbn [rev]; by rewrite <- app_assoc|].
    destruct He as [(k & Hk & ->)| ->]; [left; exists (S k); split; [lia|done]|by right].
Qed.

(** A completion is announced. *)
Lemma publishRequestDone_run d c l b : exists l' b',
  publishRequestDone (B:=T) self finish d c (l, b) = (Return tt, (c, (l', b'))) /\ logs d l l'.
Proof.
  destruct (publish_run 3 d c l b) as (es & b' & E & He). unfold publishRequestDone, mbind, Prog_bind. rewrite E.
  exists (Finalized d :: rev es ++ l), b'. split; [done|]. exists (es ++ [Finalized d]). rewrite rev_app_distr. split; [|done].
  destruct He as [(k & Hk & ->)| ->]; [|constructor]. rewrite <- app_assoc. by constructor.
Qed.

(** An abandonment is announced once. *)
Lemma abandon_logs r message c l b :
  exists c' b' l' d, publishAbandoned (B:=T) self host finish r message c (l, b)
    = (Return tt, (c', (l', b'))) /\ tells r failure None d /\ logs d l l'.
Proof.
  set (d := getRequestDoneData r (Some (classed false message false false)) None None (c_now c)).
  assert (exists c' b' taken, publishAbandoned (B:=T) self host finish r message c (l, b)
    = (Return tt, (c', (Published (stringify (done_json d)) taken :: Finalized d :: l, b')))) as (c' & b' & taken & E).
  { unfold publishAbandoned, detached, or_else, catch, finish, log_entry, withDeadline, get_state, mbind, Prog_bind. fold d.
    destruct (announce_run d c (Finalized d :: l) b) as (taken & b1 & o & E & _). cbn [fst snd]. fold d. rewrite E. destruct o as [[]|e].
    - cbn [traced_host h_overran]. unfold traced. cbn [fst snd]. destruct (h_overran the_host c b1) as [[[]|e] [c' b']]; eexists _, _, _; reflexivity.
    - eexists _, _, _. reflexivity. }
  exists c', b'. eexists. exists d. split; [exact E|]. split; [apply (tells_done r (Some (classed false message false false)))|].
  exists [Finalized d; Published (stringify (done_json d)) taken]. split; [by constructor|done].
Qed.

Lemma wp_give_up {A} r message e cr tb :
  same_attempt cr.2 r ->
  wp (of_client (detached (publishAbandoned self host finish r message)) ;;
      set_the_request set_abandonmentPublished ;; (raise e : Prog CR T A))
    (fun o cr' tb' => match o with Return _ => False | Raise _ => gave_up (cr, tb) (cr', tb') end) cr tb.
Proof.
  intros Hr. destruct cr as [c r0], tb as [l b]. apply wp_bind.
  destruct (abandon_logs r message c l b) as (c' & b' & l' & d & E & Hd & Hl).
  unfold wp at 1, of_client, detached, or_else, catch. cbn [fst snd]. rewrite E. cbn.
  split; [done|]. right. split; [done|]. exists d. split; [by eapply tells_same|done].
Qed.

Lemma waits_turn : waits (await_turn self host finish).
Proof.
  intros cr tb Ha. unfold await_turn. apply wp_bind.
  unfold the_request, wp at 1. apply wp_bind. eapply (wp_stays calm); [apply calm_client, same_log_traced|].
  intros [ended|e] cr1 tb1 H1; [|by apply calm_gave_up].
  apply wp_bind. eapply (wp_stays calm); [apply calm_client; unfold unpark, unregisterWaitingRequest; silent_solve|].
  intros [[]|e] cr2 tb2 H2; [|by eapply calm_gave_up; etransitivity].
  assert (calm (cr, tb) (cr2, tb2)) as H12 by (by etransitivity). destruct ended as [m|e| |].
  - cbn. destruct H12 as ([E1 E2] & E3 & E4). by split_and!.
  - cbn. by apply calm_gave_up.
  - eapply wp_mono; [apply wp_give_up; destruct H12 as ([E1 E2] & _); cbn in E1, E2; by split|]. intros [[]|e] cr3 tb3 H3; [done|by eapply calm_then].
  - eapply wp_mono; [apply wp_give_up; destruct H12 as ([E1 E2] & _); cbn in E1, E2; by split|]. intros [[]|e] cr3 tb3 H3; [done|by eapply calm_then].
Qed.

Lemma waits_ready : waits (waitForRequestReady self host finish).
Proof.
  unfold waitForRequestReady. pose proof waits_turn as Ht. pose proof waits_aborted as Hab. pose proof waits_halted as Hh.
  repeat (exact Ht || exact Hab || exact Hh || calm_step || apply silent_overran);
    first [apply same_log_traced|unfold detached; silent_solve].
Qed.

Lemma waits_backoff ms : waits (waitOutBackoff self host ms).
Proof.
  unfold waitOutBackoff, registerWaitingRequest, unregisterWaitingRequest. cbn [traced_host h_until_slept].
  pose proof waits_aborted as Hab. pose proof waits_halted as Hh.
  repeat (exact Hab || exact Hh || calm_step).
Qed.

Lemma waits_prerequest : waits (handlePreRequest self host finish).
Proof.
  unfold handlePreRequest. cbn [traced_host h_requestInterceptor h_authenticate].
  pose proof waits_ready as Hr. destruct (h_requestInterceptor the_host); simpl; repeat (exact Hr || calm_step).
Qed.

(** What rejects before the request is sent is announced once. *)
Lemma wp_before ms cr tb :
  r_abandonmentPublished cr.2 = false ->
  wp (before_sending self host finish ms)
    (fun o cr' tb' =>
      match o with
      | Return _ => calm (cr, tb) (cr', tb')
      | Raise _ => exists d, tells cr.2 failure None d /\ logs d tb.1 tb'.1
      end) cr tb.
Proof.
  destruct cr as [c r], tb as [l b]. intros Ha. unfold before_sending. apply wp_catch.
  match goal with |- wp ?m _ _ _ => assert (waits m) as Hm end.
  { apply waits_bind; [destruct (_ >? _)%num; [apply waits_backoff|calm_solve]|intros _].
    apply waits_bind; [apply waits_prerequest|intros _].
    apply waits_bind; [apply waits_aborted|intros _; apply waits_halted]. }
  eapply wp_mono; [by apply Hm|]. intros [[]|e] [c1 r1] [l1 b1] H1; [exact H1|].
  destruct H1 as [Hr1 H1]. cbn [fst snd] in *.
  unfold releaseAbandonedRequest. apply wp_bind, wp_bind. unfold the_request at 1, wp at 1. cbn [fst snd].
  destruct H1 as [[Hf Hl]|(Ht & d & Hd & Hl)].
  - rewrite Hf, Ha. apply wp_bind, wp_modify, wp_bind. unfold the_request, wp at 1. cbn [fst snd].
    apply wp_bind. eapply (wp_sure calm); [calm_solve|case_decide; [apply sure_client|]; sure_solve|].
    intros [] [c2 r2] [l2 b2] ([E1 E2] & _ & El). cbn [fst snd] in *. subst l2 l1.
    match goal with |- context [publishAbandoned _ _ _ ?r ?m] =>
      destruct (abandon_logs r m c2 l b2) as (c3 & b3 & l3 & d & E & Hd & Hl) end.
    unfold wp at 1, of_client. cbn [fst snd]. rewrite E. exists d. split; [|exact Hl].
    eapply tells_same; [exact Hr1|]. by destruct Hd.
  - rewrite Ht. cbn. eauto.
Qed.

(** ** Failures *)

(** How a failed attempt is classed. *)
Definition retried (x y : Request) (retry_ : bool) : Prop :=
  r_id y = r_id x /\ r_abandonmentPublished y = r_abandonmentPublished x
  /\ if retry_ then r_retries y = (r_retries x + int 1)%num
                   /\ (r_retries x >=? o_maxRetries (k_retryOptions self))%num = false
     else r_retries y = r_retries x.

Lemma wp_retry e cr tb :
  wp (handleRetry self host Date_parse e) (fun o cr' tb' =>
    exists data, o = Return data /\ retried cr.2 cr'.2 (rt_retry data) /\ tb'.1 = tb.1) cr tb.
Proof.
  unfold handleRetry. apply wp_bind. unfold the_request at 1, wp at 1.
  apply wp_bind. unfold of_client at 1, get_state, wp at 1. cbn [fst snd].
  destruct cr as [c r], tb as [l b]. cbn [fst snd].
  set (out := (r_retries r >=? _)%num). apply wp_bind.
  eapply (wp_sure calm); [calm_solve|apply sure_client; unfold classifyError; cbn [traced_host h_classifyError];
    destruct (h_classifyError the_host); simpl; sure_solve|].
  intros decision [c1 r1] tb1 H1. apply wp_bind. eapply (wp_sure calm).
  { destruct decision as [[|[] ms|]|]; calm_solve. }
  { destruct decision as [[|[] ms|]|]; sure_solve; apply sure_client; unfold class_of;
      cbn [traced_host h_retryHandler]; destruct (h_retryHandler the_host); simpl; sure_solve. }
  intros [data floorMs] [c2 r2] tb2 H2.
  assert (calm (c, r, (l, b)) (c2, r2, tb2)) as H12 by (by etransitivity). clear H1 H2.
  apply wp_bind. unfold of_client at 1, get_state, wp at 1. cbn [fst snd].
  set (data' := if out then out_of_retries data else data).
  destruct H12 as ([E1 E2] & E3 & E4). cbn [fst snd] in *.
  destruct (rt_retry data') eqn:Er; cbn [negb].
  - apply wp_bind, wp_modify, wp_bind. unfold the_request, wp. cbn.
    eexists. split; [reflexivity|]. cbn. rewrite Er. split; [|exact E4]. split_and!; cbn; [exact E1|exact E3|by rewrite E2|].
    change (out = false). subst data'. clearbody out. by destruct out.
  - unfold wp. cbn. eexists. split; [reflexivity|]. destruct (rt_freezeClient data'); cbn; rewrite Er; by split_and!.
Qed.

(** Updates of an entry do not throw: what a retry relies on to be announced. *)
Definition updates_land : Prop :=
  forall q p id u (b : B), exists b', serve (CUpdateRequest q p id u) b = (Return tt, b').

(** A completion's announcement logs it, and does nothing else. *)
Lemma wp_announced d cr tb :
  wp (of_client (publishRequestDone self finish d)) (fun o cr' tb' =>
    o = Return tt /\ cr'.2 = cr.2 /\ logs d tb.1 tb'.1) cr tb.
Proof.
  destruct cr as [c r], tb as [l b]. destruct (publishRequestDone_run d c l b) as (l' & b' & E & Hl).
  unfold wp, of_client. cbn [fst snd]. by rewrite E.
Qed.

Lemma wp_error e cr tb :
  updates_land ->
  wp (handleError self host Date_parse finish e) (fun o cr' tb' =>
    exists retry_ d, retried cr.2 cr'.2 retry_ /\ logs d tb.1 tb'.1
      /\ m_requestId (d_metadata d) = r_id cr.2 /\ d_phase d = None
      /\ m_retries (d_metadata d) = r_retries cr'.2
      /\ match o with
         | Return data => retry_ = true /\ d_responseStatus d = retry
         | Raise _ => retry_ = false /\ d_responseStatus d = failure
         end) cr tb.
Proof.
  intros Hu. destruct cr as [c r], tb as [l b]. unfold handleError. apply wp_bind.
  unfold the_request at 1, wp at 1. cbn [fst snd]. apply wp_bind.
  eapply (wp_sure calm); [calm_solve| |].
  { apply sure_client. unfold runSettle. cbn [traced_host h_settle]. destruct (h_settle the_host); simpl; sure_solve. }
  intros [] cr1 tb1 H1. apply wp_bind. eapply wp_mono; [apply wp_retry|].
  intros o [c2 r2] [l2 b2] (data & -> & H2 & Hl2).
  assert (retried r r2 (rt_retry data) /\ l2 = l) as [Hr ->].
  { destruct H1 as ([E1 E2] & E3 & E4), H2 as (F1 & F2 & F4). cbn [fst snd] in *.
    split; [|congruence]. split_and!; [congruence..|]. destruct (rt_retry data); rewrite E2 in F4; exact F4. }
  clear H1 H2 Hl2. apply wp_bind. unfold the_request, wp at 1. cbn [fst snd]. apply wp_bind.
  match goal with |- wp _ ?Q _ _ =>
    assert (forall c3 b3, Q (Return tt) (c3, r2) (l, b3)) as Hcont end.
  { intros c3 b3. apply wp_bind. unfold of_client at 1, get_state, wp at 1. cbn [fst snd].
    apply wp_bind. set (d := getRequestDoneData _ _ _ _ _).
    eapply wp_mono; [apply wp_announced|]. intros o [c4 r4] [l4 b4] (-> & Er4 & El4). cbn [fst snd] in *. subst r4.
    destruct (rt_retry data) eqn:Ed; unfold wp; cbn; exists (rt_retry data), d; rewrite Ed;
      (split_and!; [exact Hr|exact El4|apply Hr|done|done|done|cbn; by rewrite Ed]). }
  destruct (rt_retry data); [|apply Hcont].
  unfold wp, of_client, updateRequestInQueue, ask. cbn [fst snd serve watched watched_backend completion_text].
  destruct (Hu (getQueueKey self) (getMetadataKeyPrefix self) (r_id r2)
    {| u_status := None; u_retries := Some (r_retries r2); u_priority := None; u_isThawRequest := None |} b2) as [b3 Eb].
  rewrite Eb. apply Hcont.
Qed.

(** ** One attempt, and all of them *)

Lemma sure_hooks res : sure (runResponseHooks self host res).
Proof.
  unfold runResponseHooks. cbn [traced_host h_responseInterceptor h_rateLimitChange].
  destruct (h_responseInterceptor the_host), (h_rateLimitChange the_host); simpl; sure_solve.
Qed.

Lemma sure_settle r o : sure (runSettle host r o).
Proof. unfold runSettle. cbn [traced_host h_settle]. destruct (h_settle the_host); simpl; sure_solve. Qed.

Lemma wp_attempt ms cr tb :
  updates_land -> r_abandonmentPublished cr.2 = false ->
  wp (attempt self host Date_parse finish ms) (fun o cr' tb' =>
    match o with
    | Return (Responded _) => exists d, tells cr.2 success None d /\ logs d tb.1 tb'.1
    | Return (Streaming _) =>
        (r_fastPath cr'.2 = true /\ tb'.1 = tb.1)
        \/ exists d, tells cr.2 success (Some headers) d /\ logs d tb.1 tb'.1
    | Return (TryAgain _) =>
        exists d, m_requestId (d_metadata d) = r_id cr.2 /\ d_responseStatus d = retry /\ d_phase d = None
          /\ m_retries (d_metadata d) = r_retries cr'.2 /\ retried cr.2 cr'.2 true /\ logs d tb.1 tb'.1
    | Raise _ => exists d, tells cr.2 failure None d /\ logs d tb.1 tb'.1
    end) cr tb.
Proof.
  intros Hu Ha. destruct cr as [c r], tb as [l b]. unfold attempt. apply wp_bind, wp_modify.
  apply wp_bind. eapply wp_mono; [by apply wp_before|]. intros [[]|e] cr1 tb1 H1.
  2: { destruct H1 as (d & Hd & El). exists d. split; [eapply tells_same; [|exact Hd]; by split|done]. }
  assert (calm (c, r, (l, b)) (cr1, tb1)) as H1' by exact H1. clear H1.
  apply wp_bind. unfold the_request at 1, wp at 1. apply wp_bind.
  eapply (wp_sure calm); [calm_solve; apply same_log_traced|apply sure_client, sure_catch; intros; apply sure_ret|].
  intros answer cr2 tb2 H2. assert (calm (c, r, (l, b)) (cr2, tb2)) as H12 by (by etransitivity).
  clear H1' H2. destruct cr2 as [c2 r2], tb2 as [l2 b2]. destruct H12 as ([E1 E2] & E3 & E4). cbn [fst snd] in *. subst l2.
  destruct answer as [res|e].
  - apply wp_bind. unfold the_request at 1, wp at 1. cbn [fst snd].
    destruct (is_streamed r2 res); apply wp_bind.
    + unfold announce_headers. apply wp_bind. unfold the_request, wp at 1. cbn [fst snd].
      apply wp_bind. unfold of_client at 1, get_state, wp at 1. cbn [fst snd]. apply wp_bind.
      set (d := getRequestDoneData _ _ _ _ _).
      assert (tells r success (Some headers) d) as Hd by (split; cbn; done).
      eapply (wp_mono _ (fun o cr3 tb3 => o = Return tt /\ cr3.2 = r2
        /\ if r_fastPath r2 then tb3.1 = l else logs d l tb3.1)).
      { destruct (r_fastPath r2); [by apply wp_ret|]. apply wp_announced. }
      intros o [c3 r3] [l3 b3] (-> & Er3 & El3). cbn [fst snd] in *. subst r3.
      apply wp_bind. eapply (wp_sure kept); [apply kept_client, silent_hooks|apply sure_client, sure_hooks|].
      intros [] [c4 r4] [l4 b4] [F1 F2]. cbn [fst snd] in *. subst r4 l4.
      unfold wp. cbn. destruct (r_fastPath r2); [by left|right; by exists d].
    + unfold handleResponse. apply wp_bind. unfold the_request, wp at 1. cbn [fst snd]. apply wp_bind.
      eapply (wp_sure kept); [apply kept_client, silent_settle|apply sure_client, sure_settle|].
      intros [] [c3 r3] [l3 b3] [F1 F2]. cbn [fst snd] in *. subst r3 l3.
      apply wp_bind. unfold of_client at 1, get_state, wp at 1. cbn [fst snd]. apply wp_bind.
      set (d := getRequestDoneData _ _ _ _ _).
      assert (tells r success None d) as Hd by (split; cbn; done).
      eapply wp_mono; [apply wp_announced|]. intros o [c4 r4] [l4 b4] (-> & Er4 & El4). cbn [fst snd] in *. subst r4.
      eapply (wp_sure kept); [apply kept_client, silent_hooks|apply sure_client, sure_hooks|].
      intros [] [c5 r5] [l5 b5] [G1 G2]. cbn [fst snd] in *. subst r5 l5. unfold wp. cbn. by exists d.
  - apply wp_bind. eapply wp_mono; [by apply wp_error|].
    intros o [c3 r3] [l3 b3] (again & d & Hr & Hl & D1 & D2 & D3 & D4). destruct Hr as (R1 & R2 & R4). cbn [fst snd] in *.
    destruct o as [data|e']; destruct D4 as [-> D4].
    + unfold wp. cbn. exists d. destruct R4 as [R4 R5]. rewrite E2 in R4, R5.
      split_and!; try exact Hl; try congruence; split_and!; cbn; congruence.
    + exists d. split; [split; congruence|exact Hl].
Qed.

(** A completion that says what became of the attempt made after [k] retries. *)
Record says (id : string) (k : Z) (status : ResponseStatus) (phase : option Phase)
    (d : RequestDoneData) : Prop := {
  says_id : m_requestId (d_metadata d) = id;
  says_retries : m_retries (d_metadata d) = int k;
  says_status : d_responseStatus d = status;
  says_phase : d_phase d = phase
}.

(** The completions of a request from its [k]th retry on, oldest first.  A
    streamed response is announced at its headers, unless the attempt never
    had a queue entry; its end is announced by [end_stream]. *)
Inductive trail (id : string) (fastPath : bool) : Z -> outcome (option turn_end) -> list RequestDoneData -> Prop :=
  | trail_answered k res d :
      says id k success None d -> trail id fastPath k (Return (Some (Responded res))) [d]
  | trail_streaming k res d :
      says id k success (Some headers) d -> trail id fastPath k (Return (Some (Streaming res))) [d]
  | trail_streaming_fast k res :  (* its one announcement is at its end *)
      fastPath = true -> trail id fastPath k (Return (Some (Streaming res))) []
  | trail_failed k e d : says id k failure None d -> trail id fastPath k (Raise e) [d]
  | trail_retried k o d ds :
      says id (k + 1) retry None d -> trail id fastPath (k + 1) o ds -> trail id fastPath k o (d :: ds).

Lemma wp_attempts fuel k n ms cr tb :
  updates_land -> o_maxRetries (k_retryOptions self) = int n -> (0 <= k <= n)%Z -> (n < 2 ^ 50)%Z ->
  (n - k < Z.of_nat fuel)%Z -> r_abandonmentPublished cr.2 = false -> r_retries cr.2 = int k ->
  wp (attempts self host Date_parse finish fuel ms) (fun o cr' tb' =>
    exists ds ess, trail (r_id cr.2) (r_fastPath cr'.2) k o ds /\ Forall2 announced ds ess
      /\ tb'.1 = rev (concat ess) ++ tb.1 /\ (Z.of_nat (length ds) <= n - k + 1)%Z) cr tb.
Proof.
  intros Hu Hn Hk Hbig Hf Ha Er. revert k ms cr tb Hk Hf Ha Er.
  induction fuel as [|fuel IH]; intros k ms cr tb Hk Hf Ha Er; [lia|]. cbn [attempts].
  assert (forall id fast o d (tb' : T), trail id fast k o [d] -> logs d tb.1 tb'.1 ->
    exists ds ess, trail id fast k o ds /\ Forall2 announced ds ess /\ tb'.1 = rev (concat ess) ++ tb.1
      /\ (Z.of_nat (length ds) <= n - k + 1)%Z) as Hone.
  { intros id fast o d tb' Ht (es & He & El). exists [d], [es]. split_and!; [done|by repeat constructor| |simpl; lia].
    cbn [concat]. by rewrite app_nil_r. }
  apply wp_bind. eapply wp_mono; [by apply wp_attempt|]. intros [[res|res|ms']|e] cr1 tb1 H1.
  - destruct H1 as (d & [D1 D2 D3 D4] & El). apply (Hone _ _ _ d tb1); [|done]. constructor. split; congruence.
  - destruct H1 as [[Ef El]|(d & [D1 D2 D3 D4] & El)].
    + exists [], []. split_and!; [by constructor|constructor|done|simpl; lia].
    + apply (Hone _ _ _ d tb1); [|done]. constructor. split; congruence.
  - destruct H1 as (d & D1 & D2 & D3 & D4 & (R1 & R2 & R4 & R5) & es & He & El1).
    rewrite Er in R4, R5. rewrite Hn, geb_int in R5.
    assert (k < n)%Z as Hlt by lia. rewrite add_int in R4 by (unfold safe, max_safe; lia).
    apply wp_bind. unfold the_request, wp at 1. rewrite R4, Hn, leb_int.
    assert ((k + 1 <=? n)%Z = true) as -> by lia.
    eapply wp_mono; [apply (IH (k + 1)%Z); [lia|lia|congruence|done]|].
    intros o cr2 tb2 (ds & ess & Ht & Hes & El & Hl). exists (d :: ds), (es :: ess). rewrite R1 in Ht.
    split_and!; [constructor; [split; congruence|done]|by constructor| |simpl; lia].
    rewrite El, El1. cbn [concat]. by rewrite rev_app_distr, <- app_assoc.
  - destruct H1 as (d & [D1 D2 D3 D4] & El). apply (Hone _ _ _ d tb1); [|done]. constructor. split; congruence.
Qed.

(** ** The end of a stream *)

(** What tells a stream's end of the request it answers. *)
Definition ends_request (r : Request) (d : RequestDoneData) : Prop :=
  m_requestId (d_metadata d) = r_id r /\ m_retries (d_metadata d) = r_retries r
  /\ (d_responseStatus d = success \/ d_responseStatus d = failure) /\ d_phase d = Some end_.

Local Notation CS := (Client * Stream)%type.

(** The request of the stream is the same, and nothing was logged. *)
Definition stream_calm (x y : CS * T) : Prop :=
  st_request y.1.2 = st_request x.1.2 /\ st_ended y.1.2 = st_ended x.1.2 /\ y.2.1 = x.2.1.

#[local] Instance stream_calm_preorder : PreOrder stream_calm.
Proof. unfold stream_calm. split; [done|]. intros x y z (E1 & E2 & E3) (F1 & F2 & F3). split_and!; congruence. Qed.

Lemma calm_from_client {A} (m : C T A) : silent m -> stays stream_calm (from_client m).
Proof.
  intros Hm [c s] [l b]. unfold from_client. specialize (Hm c (l, b)). cbn [fst snd].
  destruct (m c (l, b)) as [o [c' [l' b']]]. by split_and!.
Qed.

Lemma sure_from_client {A} (m : C T A) : sure m -> sure (from_client m).
Proof.
  intros Hm [c s] tb. destruct (Hm c tb) as [a Ea]. unfold from_client. cbn [fst snd].
  destruct (m c tb) as [o [c' tb']]. cbn in Ea. rewrite Ea. by exists a.
Qed.

Lemma settle_stream_calm cost : stays stream_calm (settle_stream (B:=T) cost) /\ sure (settle_stream (B:=T) cost).
Proof.
  unfold settle_stream. split.
  - apply stays_bind; [apply _|by intros cs tb; split_and!|intros st]. destruct (st_settled st); [apply stays_ret, _|].
    apply stays_bind; [apply _|by intros [c s] tb; split_and!|intros _]. apply calm_from_client.
    stays_step; [apply same_log_traced|silent_solve].
  - apply sure_bind; [by intros cs tb; eexists|intros st]. destruct (st_settled st); [apply sure_ret|].
    apply sure_bind; [by intros cs tb; eexists|intros _]. apply sure_from_client. sure_solve.
Qed.

Lemma wp_finally_calm {S} (R : S * T -> S * T -> Prop) {A} (m : Prog S T A) (h : Prog S T unit) Q s b :
  wp m Q s b -> stays R h ->
  (forall o o' s1 b1 s2 b2, R (s1, b1) (s2, b2) -> Q o s1 b1 -> Q o' s2 b2) -> wp (finally m h) Q s b.
Proof.
  intros Hm Hh HQ. unfold wp, finally in *. destruct (m s b) as [o [s1 b1]]. specialize (Hh s1 b1).
  destruct (h s1 b1) as [[[]|e] [s2 b2]]; by eapply HQ.
Qed.

Lemma wp_finish reason cs tb :
  wp (finishStream self host finish reason) (fun _ cs' tb' =>
    st_request cs'.2 = st_request cs.2 /\ st_ended cs'.2 = st_ended cs.2
    /\ exists d, ends_request (st_request cs.2) d /\ logs d tb.1 tb'.1) cs tb.
Proof.
  unfold finishStream. apply (wp_finally_calm stream_calm); [|apply calm_from_client; unfold trackRequestFinished; silent_solve|].
  2: { intros o1 o2 x1 tb1 x2 tb2 (F1 & F2 & F3) (E1 & E2 & d & Hd & Hl). cbn [fst snd] in *. split_and!; [congruence..|].
       exists d. split; [exact Hd|]. by rewrite F3. }
  apply wp_bind. eapply (wp_sure stream_calm).
  { cbn [traced_host h_observer]. destruct (h_observer the_host); simpl; [|apply stays_ret, _].
    apply calm_from_client. stays_step; [apply same_log_traced|silent_solve]. }
  { cbn [traced_host h_observer]. destruct (h_observer the_host); simpl; [|apply sure_ret]. apply sure_from_client. sure_solve. }
  intros result [c1 s1] tb1 H1. apply wp_bind. unfold the_stream, wp at 1. cbn [fst snd].
  apply wp_bind. eapply (wp_sure stream_calm).
  { destruct (negb _); [apply settle_stream_calm|]. destruct (negb _); [|apply stays_ret, _].
    apply calm_from_client, silent_settle. }
  { destruct (negb _); [apply settle_stream_calm|]. destruct (negb _); [|apply sure_ret].
    apply sure_from_client, sure_settle. }
  intros [] [c2 s2] [l2 b2] H2. assert (stream_calm (cs, tb) (c2, s2, (l2, b2))) as (E1 & E2 & E3) by (by etransitivity).
  assert (stream_calm (cs, tb) (c1, s1, tb1)) as (F1 & _) by exact H1. clear H1 H2. cbn [fst snd] in *.
  apply wp_bind. unfold from_client at 1, get_state, wp at 1. cbn [fst snd]. rewrite F1.
  set (d := getRequestDoneData _ _ _ _ _). destruct (publishRequestDone_run d c2 l2 b2) as (l3 & b3 & E & Hl).
  unfold wp, from_client. cbn [fst snd]. rewrite E. split_and!; [done..|]. exists d. split; [|by rewrite <- E3].
  split_and!; [done..| |done]. cbn. unfold stream_retryData. destruct (streamErrorOf result) as [[]|]; [by right|].
  destruct (decide _); [by right|]. destruct (decide _); [by right|by left].
Qed.

Lemma wp_end_stream reason cs tb :
  wp (end_stream self host finish reason) (fun o cs' tb' =>
    o = Return tt /\ st_request cs'.2 = st_request cs.2 /\ st_ended cs'.2 = true
    /\ if st_ended cs.2 then tb'.1 = tb.1 else exists d, ends_request (st_request cs.2) d /\ logs d tb.1 tb'.1) cs tb.
Proof.
  unfold end_stream. apply wp_bind. unfold the_stream, wp at 1. destruct cs as [c s]. cbn [fst snd].
  destruct (st_ended s) eqn:Es; [by apply wp_ret|]. apply wp_bind, wp_modify, wp_bind, wp_catch.
  eapply wp_mono; [apply wp_finish|]. intros o [c1 s1] tb1 (E1 & E2 & Hd). cbn [fst snd st_request st_ended set_ended] in *.
  assert (wp (from_client (unregisterStream (r_id (st_request s)))) (fun o cs' tb' =>
    o = Return tt /\ st_request cs'.2 = st_request s /\ st_ended cs'.2 = true
    /\ exists d, ends_request (st_request s) d /\ logs d tb.1 tb'.1) (c1, s1) tb1) as Hend by (by unfold wp, from_client, unregisterStream).
  destruct o; [exact Hend|]. by apply wp_ret.
Qed.

(** However often a stream is ended. *)
Lemma wp_ends reasons cs tb :
  wp (pforeach reasons (end_stream self host finish)) (fun _ _ tb' =>
    if st_ended cs.2 then tb'.1 = tb.1
    else match reasons with
         | [] => tb'.1 = tb.1
         | _ => exists d, ends_request (st_request cs.2) d /\ logs d tb.1 tb'.1
         end) cs tb.
Proof.
  revert cs tb. induction reasons as [|reason reasons IH]; intros cs tb; [by apply wp_ret; destruct (st_ended cs.2)|].
  cbn [pforeach]. apply wp_bind. eapply wp_mono; [apply wp_end_stream|]. intros o cs1 tb1 (-> & E1 & E2 & Hd).
  eapply wp_mono; [apply IH|]. intros o2 cs2 tb2 H2. rewrite E2 in H2. rewrite H2. exact Hd.
Qed.
End attempts.

(** C32: A request is tried at most [maxRetries + 1] times, and every attempt is
    announced exactly once.  Whatever the vendor, the consumer's hooks, the
    abort signal, the deadlines and the backend do, short of refusing an update
    of a queue entry, a call ends, and what was published on the completions'
    channel and handed to this replica's own handler is, in order, one
    announcement ([announced]: a refused publish is tried again, three times at
    the most, and the handler is called once) for each completion of its
    [trail]: one [retry] for each attempt that is tried again, numbered from one,
    then its success, or its failure when the caller is thrown an error.  A
    streamed response is announced once for each of its phases: its headers when
    the call returns, unless the attempt never had a queue entry, and its end,
    once, however often and in whatever order the events that end a stream come.
    (What a call leaves behind is not part of it: after an enqueue that failed
    its timer announces the attempt again, see [failed_enqueue_announced_twice].) *)
Theorem attempts_announced_once {B} `{DianemoBackend B} `{!BaseClient B} (self : ClientData)
    (host : Host B) (Date_parse : string -> num) (n : Z)
    (id : string) (now : num) (name : string) (config : RequestConfig) (instanceId : string)
    (defaults : option RequestDefaults) (request : Request) (c : Client) (b : B) :
  updates_land (B:=B) ->
  o_maxRetries (k_retryOptions self) = int n -> (0 <= n < 2 ^ 50)%Z ->
  new_Request id now name config instanceId defaults = Ok request ->
  let '(o, ((_, r), (log, _))) :=
    attempts (H := watched_backend self) (H0 := traced_class) self (traced_host host) Date_parse finish
      (S (Z.to_nat n)) (int 0) (c, request) ([], b) in
  (exists ds ess, trail id (r_fastPath r) 0 o ds /\ Forall2 announced ds ess /\ rev log = concat ess
     /\ (Z.of_nat (length ds) <= n + 1)%Z)
  /\ forall metadata status c2 b2 reasons, reasons <> [] ->
     let stream := {| st_request := r; st_metadata := metadata; st_status := status; st_settled := false; st_ended := false |} in
     let '(_, (_, (log', _))) :=
       pforeach reasons (end_stream (H := watched_backend self) (H0 := traced_class) self (traced_host host) finish)
         (c2, stream) (log, b2) in
     exists d es, ends_request r d /\ announced d es /\ rev log' = rev log ++ es.
Proof.
  intros Hu Hn Hr Hnew. unfold new_Request in Hnew.
  destruct (assertUsableRequest _ _ _ _ _) as [[]|]; [|done]. simpl in Hnew.
  pose proof (wp_attempts self host Date_parse (S (Z.to_nat n)) 0 n (int 0) (c, request) ([], b) Hu Hn) as Hw.
  unfold wp in Hw. injection Hnew as <-.
  destruct (attempts _ _ _ _ _ _ _ _) as [o [[c' r] [log b']]].
  destruct Hw as (ds & ess & Ht & Hes & El & Hl); [lia..|done|done|]. cbn [fst snd] in *. split.
  - exists ds, ess. rewrite app_nil_r in El. subst log. split_and!; [done|done|apply rev_involutive|lia].
  - intros metadata status c2 b2 reasons Hne.
    match goal with |- context [(c2, ?s)] => set (stream := s) end. pose proof (wp_ends self host reasons (c2, stream) (log, b2)) as Hends.
    unfold wp in Hends. destruct (pforeach _ _ _ _) as [o2 [cs2 [log2 b3]]]. destruct reasons; [done|].
    destruct Hends as (d & Hd & es & He & El2). cbn [fst snd] in *. subst log2. exists d, es. split_and!; [done|done|].
    by rewrite rev_app_distr, rev_involutive.
Qed.


(** ** A vendor that always fails *)

Definition demo_config : RequestConfig :=
  {| c_requestName := VStr "get"; c_priority := None; c_cost := VUndefined; c_grantId := VUndefined;
     c_signal := VUndefined; c_settle := false; c_settleStream := false; c_responseType := None;
     c_baseURL := None; c_headers := []; c_params := []; c_requestId := None |}.

Definition demo_error : HttpError :=
  {| he_error := ForeignError "Request failed with status code 429"; he_code := None;
     he_status := Some (int 429); he_headers := NoHeaders |}.

(** Every attempt is rate limited, and every wait is slept out. *)
Definition demo_host : Host MemoryServer :=
  {| h_send := fun _ => mret (Rejected demo_error); h_requestInterceptor := None;
     h_authenticate := mret None; h_responseInterceptor := None; h_rateLimitChange := None;
     h_retryHandler := None; h_classifyError := None; h_settle := None; h_observer := None;
     h_aborted := mret false; h_overran := mret false;
     h_until_ready := mret TimedOut; h_until_slept := fun _ => mret SleptOut |}.

(** The client of [MeteredProps], told to try again once. *)
Definition once_client : ClientData :=
  {| k_instanceId := "i1"; k_name := "api"; k_registeredName := "api"; k_handlerNamespace := "app";
     k_authData := None; k_ownerAuthData := None; k_requestOptions := k_requestOptions demo_client;
     k_retryOptions := resolve_retryOptions None None None None (Some (int 1)) None None;
     k_healthCheckIntervalMs := int 5000 |}.

Definition demo_unlimited : list NamedRateLimitData :=
  [{| n_name := "default"; n_limit := noLimit |}].

Lemma memory_updates_land : updates_land (B:=MemoryServer).
Proof.
  intros q p id u [now w]. cbn [serve memory_backend exec fst snd].
  assert (returns (updateRequest q p id u)) as Hr by (unfold updateRequest; solve_returns).
  destruct (Hr now w) as ([] & E & _). destruct (updateRequest q p id u now w) as [r w'].
  cbn in E. subst r. by eexists.
Qed.

Definition demo_made : Request :=
  {| r_id := "r1"; r_config := with_requestId "r1" demo_config; r_retries := int 0;
     r_priority := int 1; r_clientName := "api"; r_timestamp := int 5000;
     r_cost := CostNumber (int 1); r_explicitCost := None; r_requestName := "get";
     r_status := inQueue; r_ownerId := "i1"; r_isThawRequest := false; r_fastPath := false;
     r_claimedKeys := None; r_abandonmentPublished := false |}.

Definition demo_run : outcome (option turn_end) * ((Client * Request) * Traced happening MemoryServer) :=
  attempts (H := watched_backend once_client) (H0 := traced_class (H:=MeteredClient once_client)) once_client
    (traced_host demo_host) (fun _ => NaN) finish 2 (int 0) (demo_state demo_unlimited, demo_made) ([], demo_empty).

Definition finalized (es : list happening) : list ResponseStatus :=
  omap (fun e => match e with Finalized d => Some (d_responseStatus d) | _ => None end) es.

(** Two attempts, each published once and handed over once. *)
Lemma attempts_announced_once_witness :
  (exists ds ess, trail "r1" (r_fastPath demo_run.2.1.2) 0 demo_run.1 ds /\ Forall2 announced ds ess
     /\ rev demo_run.2.2.1 = concat ess)
  /\ finalized (rev demo_run.2.2.1) = [retry; failure] /\ length demo_run.2.2.1 = 4%nat.
Proof.
  split; [|split; vm_compute; reflexivity].
  pose proof (attempts_announced_once (BaseClient0 := MeteredClient once_client) once_client demo_host
    (fun _ => NaN) 1 "r1" (int 5000) "api" demo_config "i1" None demo_made (demo_state demo_unlimited) demo_empty) as Hw.
  change (attempts _ _ _ _ _ _ _ _) with demo_run in Hw.
  destruct demo_run as [o [[c' r'] [log b']]]. cbn [fst snd].
  destruct Hw as [(ds & ess & Ht & Hes & El & _) _];
    [exact memory_updates_land|vm_compute; reflexivity|lia|vm_compute; reflexivity|].
  by exists ds, ess.
Defined.



(** ** An enqueue that fails

    The wait for a turn is set up before the entry is added.  When the backend
    refuses the entry the caller is failed and the attempt announced; the timer
    of the wait is left running, and announces the same attempt again. *)

(** The memory backend, refusing to take queue entries. *)
Definition full_backend : DianemoBackend MemoryServer := {|
  serve := fun A c =>
    match c in call A' return MemoryServer -> outcome A' * MemoryServer with
    | CAddRequest _ _ _ _ => fun b => (Raise (ForeignError "ECONNRESET"), b)
    | c => serve c
    end;
  implements := fun _ => true
|}.

(** A call while others are queued, and then the timer it left. *)
Definition failed_enqueue_run : outcome (option turn_end) * ((Client * Request) * Traced RequestDoneData MemoryServer) :=
  attempts (H := traced_backend (H:=full_backend))
    (H0 := traced_class (H:=MeteredClient (H:=full_backend) demo_client)) demo_client
    (traced_host demo_host) (fun _ => NaN) log_entry 1 (int 0)
    (demo_state demo_limits, demo_made) ([], demo_server).

Definition timer_run : outcome unit * ((Client * Request) * Traced RequestDoneData MemoryServer) :=
  admission_timer_fires (H := traced_backend (H:=full_backend)) demo_client (traced_host demo_host)
    log_entry failed_enqueue_run.2.1 failed_enqueue_run.2.2.

Lemma failed_enqueue_announced_twice :
  failed_enqueue_run.1 = Raise (ForeignError "ECONNRESET")
  /\ map completionIdOf (rev timer_run.2.2.1) = ["r1:0:failure"; "r1:0:failure"].
Proof. split; vm_compute; reflexivity. Qed.
