(* ===== verification/PacingProps.v ===== *)
(** * Waits and freezes

    Whatever a client's retry options say, a failure classed as freezing arms a
    freeze, and neither the freeze nor the retry undercuts the vendor's word. *)
From S2P Require Import Prelude JsNumber JsString Json Value RateLimit Cost Timers.
From S2P Require Import Shared MemoryStore TokenBucket Queue Freeze Backend.
From S2P Require Import Election Requests Client Metered Completions Attempts MemoryDrain MeteredProps.
Local Open Scope num_scope.

(** ** Positive delays *)

(** A delay that is a positive double. *)
Definition delay (x : num) : Prop := wf_num x /\ (int 0 <? x) = true.

Lemma delay_not_nan x : delay x -> isNaN x = false.
Proof. intros [_ Hx]. by apply ltb_not_nan in Hx as [_ ?]. Qed.

Lemma delay_mul k x : (1 <= k)%Z -> delay x -> (x <=? int k * x) = true /\ (int 0 <? int k * x) = true.
Proof.
  intros Hk [Hwf Hx]. pose proof (mul_int_ge k x Hk Hwf Hx) as Hm.
  split; [done|]. by eapply ltb_leb_trans.
Qed.

Lemma delay_fmin x y : delay x -> delay y -> delay (fmin x y).
Proof.
  intros Hx Hy.
  by destruct (fmin_either x y (delay_not_nan x Hx) (delay_not_nan y Hy)) as [->| ->].
Qed.

Lemma delay_fmax x y : delay x -> delay y -> delay (fmax x y).
Proof.
  intros Hx Hy.
  by destruct (fmax_either x y (delay_not_nan x Hx) (delay_not_nan y Hy)) as [->| ->].
Qed.

Lemma shortest_delay limits interval :
  (forall l o, In l limits -> n_limit l = requestLimit o -> wf_num (rl_interval o)) ->
  shortestRefillInterval limits = Some interval -> delay interval.
Proof.
  unfold shortestRefillInterval. intros Hwf.
  enough (H : forall acc, (forall i, acc = Some i -> delay i) ->
            fold_left shortest_step limits acc = Some interval -> delay interval) by by apply H.
  induction limits as [|l limits IH]; simpl; [by auto|]. intros acc Hacc.
  apply IH; [intros l' o Hl; apply (Hwf l' o); by right|]. unfold shortest_step. intros i.
  destruct (n_limit l) as [o|k| |owner|t] eqn:El; try by apply Hacc.
  destruct (not_positive (rl_interval o)) eqn:Ep; [by apply Hacc|].
  assert (Hr : delay (rl_interval o)).
  { split; [apply (Hwf l o); [by left|done]|]. unfold not_positive in Ep. destruct (rl_interval o) as [| |a]; try done.
    apply orb_false_iff in Ep as [_ Ep]. apply Z.leb_gt in Ep. by apply Z.ltb_lt. }
  intros [= <-]. destruct acc; [|done]. apply delay_fmin; [by apply Hacc|done].
Qed.

Lemma timer_delay_not_nan x : timer_delay x -> isNaN x = false.
Proof. by intros (k & -> & _). Qed.

Lemma wf_timer_delay x : timer_delay x -> wf_num x.
Proof. intros (k & -> & Hk). apply wf_int. unfold safe. lia. Qed.

Lemma positive_mul_nan m x : (1 <= m)%Z -> isNaN x = false -> isNaN (int m * x) = false.
Proof.
  intros Hm. pose proof unit1_pos. destruct x as [|s|a]; [done| |]; intros _; unfold mul, int.
  - by rewrite (proj2 (Z.eqb_neq (m * unit1) 0)) by nia.
  - unfold round_ratio. by destruct (_ <? _)%Z.
Qed.

Section paced.
Context {B : Type} `{DianemoBackend B}.
Variable self : ClientData.
Notation base := (o_retryBackoffBaseTime (k_retryOptions self)).

Lemma freeze_base_delay : wf_num base -> delay (base_freeze_time self).
Proof.
  intros Hb. unfold base_freeze_time. destruct (isFinite base && (base >? int 0)) eqn:E.
  - apply andb_true_iff in E as [_ E]. by split.
  - split; [by apply wf_int|done].
Qed.

Lemma floored_delay limits limited x :
  (forall l o, In l limits -> n_limit l = requestLimit o -> wf_num (rl_interval o)) ->
  delay x -> delay (floored limits limited x).
Proof.
  intros Hwf Hx. unfold floored. destruct (shortestRefillInterval limits) eqn:E; [|done].
  destruct limited; [|done]. apply delay_fmax; [by eapply shortest_delay|done].
Qed.

Lemma floored_ge limits limited x :
  (forall l o, In l limits -> n_limit l = requestLimit o -> wf_num (rl_interval o)) ->
  isNaN x = false -> (x <=? floored limits limited x) = true.
Proof.
  intros Hwf Hx. unfold floored. destruct (shortestRefillInterval limits) eqn:E; [|by apply leb_refl_num].
  destruct limited; [|by apply leb_refl_num].
  apply fmax_ge; [by eapply delay_not_nan, shortest_delay|done].
Qed.

Lemma floored_not_nan limits limited x :
  (forall l o, In l limits -> n_limit l = requestLimit o -> wf_num (rl_interval o)) ->
  isNaN x = false -> isNaN (floored limits limited x) = false.
Proof. intros Hwf Hx. by eapply leb_not_nan, floored_ge. Qed.

Lemma multiplier_int k :
  (0 <= k)%Z -> safe (k * k) ->
  exists m, backoff_multiplier self (int k) = int m /\ (1 <= m)%Z.
Proof.
  intros Hk Hs. unfold backoff_multiplier. rewrite fmax_int.
  destruct (o_retryBackoffMethod (k_retryOptions self)); [exists (Z.max 1 k * Z.max 1 k)%Z|exists (Z.max 1 k)].
  - rewrite mul_int; [split; [done|nia]|]. unfold safe in *. nia.
  - split; [done|lia].
Qed.

(** A duration that is not zero and not NaN freezes as the failure was classed. *)
Lemma freezes_as_classed d t :
  d_freezeTime d = Some t -> delay t -> freezesClient d = d_freezeClient d.
Proof.
  intros Ht [Hwf Hpos]. unfold freezesClient, freezeDuration. rewrite Ht. cbn [from_option].
  change (id t) with t.
  destruct t as [|s|a]; [done|by rewrite andb_true_r|].
  unfold ltb, int in Hpos. apply Z.ltb_lt in Hpos.
  assert (E : (Fin a =? int 0) = false) by (apply bool_decide_eq_false; intros [= ->]; lia).
  rewrite E. by rewrite andb_true_r.
Qed.

(** [C34] Whatever the retry options, and on a first failure as on the last, the
    freeze a metered client computes for a failure is a positive time no shorter
    than the vendor's stated wait, than the client's base freeze time, and, after
    a rate limit, than the shortest refill interval of its limits; so a completion
    classed as freezing does arm a freeze, and no other one does.  The wait before
    the retry is no shorter than the vendor's wait either. *)
Theorem freeze_outlasts (c : Client) (k : Z) (data : RequestRetryData) (floorMs : num) :
  wf_num base -> (0 <= k)%Z -> safe (k * k) -> timer_delay floorMs ->
  (forall l o, In l (c_rateLimit c) -> n_limit l = requestLimit o -> wf_num (rl_interval o)) ->
  let data' := handleBackoff (H := MeteredClient self) self c (int k) data floorMs in
  (exists t, rt_freezeTime data' = Some t /\ delay t /\ (floorMs <=? t) = true /\
    (base_freeze_time self <=? t) = true /\
    (rt_isRateLimited data = true -> forall interval,
       shortestRefillInterval (c_rateLimit c) = Some interval -> (interval <=? t) = true)) /\
  (isNaN base = false -> (floorMs <=? rt_waitTime data') = true) /\
  forall r status phase now,
    freezesClient (getRequestDoneData r (Some data') status phase now) = rt_freezeClient data.
Proof.
  intros Hb Hk Hs Hf Hwf data'. subst data'.
  destruct (multiplier_int k Hk Hs) as (m & Em & Hm).
  pose proof (timer_delay_not_nan floorMs Hf) as Hf'.
  set (x := floored (c_rateLimit c) (rt_isRateLimited data) (base_freeze_time self)).
  assert (Hx : delay x) by (apply floored_delay, freeze_base_delay; done).
  set (t := fmax floorMs (int m * x)).
  destruct (delay_mul m x Hm Hx) as [Hge Hpos].
  destruct (fmax_ge floorMs (int m * x) Hf' (proj2 (ltb_not_nan _ _ Hpos))) as [Ht1 Ht2].
  assert (Ht : delay t).
  { split; [|by eapply ltb_leb_trans]. subst t.
    destruct (fmax_either floorMs (int m * x) Hf' (proj2 (ltb_not_nan _ _ Hpos))) as [->| ->].
    - by apply wf_timer_delay.
    - apply wf_mul. }
  assert (Hxt : (x <=? t) = true) by by eapply leb_trans_num.
  assert (Et : rt_freezeTime (handleBackoff (H := MeteredClient self) self c (int k) data floorMs) = Some t)
    by (cbn; by rewrite Em).
  split_and!.
  - exists t. split_and!; [done..| |].
    + eapply leb_trans_num; [|done]. by apply floored_ge, delay_not_nan, freeze_base_delay.
    + intros Hl i Ei. eapply leb_trans_num; [|done]. subst x. unfold floored. rewrite Ei, Hl.
      apply fmax_ge; [by eapply delay_not_nan, shortest_delay|by apply delay_not_nan, freeze_base_delay].
  - intros Hnan. cbn. rewrite Em. apply fmax_ge; [done|].
    by apply positive_mul_nan, floored_not_nan.
  - intros. by erewrite freezes_as_classed by (simpl; done || done).
Qed.
End paced.

Definition demo_failure : RequestRetryData := classed true "Rate limited" true true.

Lemma freeze_outlasts_witness :
  let data' := handleBackoff (H := MeteredClient demo_client) demo_client (demo_state demo_limits)
                 (int 3) demo_failure (int 700) in
  (exists t, rt_freezeTime data' = Some t /\ (int 700 <=? t) = true /\ (int 1000 <=? t) = true) /\
  rt_waitTime data' = int 9000.
Proof.
  assert (forall z, safe z -> wf_num (int z)) as Hi by apply wf_int.
  assert (H : forall l o, In l demo_limits -> n_limit l = requestLimit o -> wf_num (rl_interval o)).
  { intros l o [<-|[]] [= <-]. apply Hi. unfold safe; lia. }
  destruct (freeze_outlasts demo_client (demo_state demo_limits) 3 demo_failure (int 700))
    as ((t & Et & _ & Hf & _ & Hl) & _).
  - apply Hi. unfold safe; lia.
  - lia.
  - unfold safe; lia.
  - exists 700%Z. split; [done|lia].
  - exact H.
  - split; [|vm_compute; reflexivity]. exists t. split_and!; [done..|].
    apply Hl; [done|vm_compute; reflexivity].
Defined.
