(* ===== verification/RedisServer.v ===== *)
(** * The Redis server and its Lua, as the scripts use them

    The scripts of [packages/backend-redis/src/lua] run inside a Redis server,
    which the repository does not contain.  The server is an interface: a type
    of states, what a key holds at an instant ([look]), the writing commands
    ([perform]), and the laws of both as the Redis manual states them
    ([effect], [RedisLaws]).  The reading commands are what [look] shows.  So is
    the Lua runtime: [tonumber], and the text a double is written as, which is
    ['%.17g'] both in [string.format] and in the arguments of [redis.call].

    Below the interface: the fragments several scripts share
    ([lua/fragments.ts]), and how a reply's number is read ([luaNumber.ts]). *)
From S2P Require Import Prelude JsNumber JsString Json Shared MemoryStore TokenBucket Queue Freeze Backend.
From S2P Require Import RateLimit Cost Client.
Local Open Scope num_scope.

(** ** What a server holds *)

Inductive rvalue :=
  | RString (s : string)
  | RHash (h : gmap string string)
  | RZset (z : list (string * num))
  | RSet (s : list string).

(** A value and when it lapses, in milliseconds. *)
Definition slot : Type := rvalue * option num.

Inductive write :=
  | SET (key value : string) (ttl : option num)
  | SETPX (key value : string) (milliseconds : num)
  | HSET (key : string) (fields : list (string * string))
  | HDEL (key field : string)
  | HINCRBY (key field : string) (by_ : Z)
  | ZADD (key : string) (score : num) (member : string)
  | ZREM (key : string) (members : list string)
  | SADD (key member : string)
  | SREM (key : string) (members : list string)
  | DEL (key : string)
  | EXPIRE (key : string) (seconds : num).

Definition write_key (c : write) : string :=
  match c with
  | SET k _ _ | SETPX k _ _ | HSET k _ | HDEL k _ | HINCRBY k _ _ | ZADD k _ _ | ZREM k _ | SADD k _
  | SREM k _ | DEL k | EXPIRE k _ => k
  end.

(** What an absent key reads as to a command of each type. *)
Definition hash_in (v : option slot) : option (gmap string string) :=
  match v with Some (RHash h, _) => Some h | None => Some ∅ | _ => None end.
Definition zset_in (v : option slot) : option (list (string * num)) :=
  match v with Some (RZset z, _) => Some z | None => Some [] | _ => None end.
Definition set_in (v : option slot) : option (list string) :=
  match v with Some (RSet s, _) => Some s | None => Some [] | _ => None end.
Definition string_in (v : option slot) : option (option string) :=
  match v with Some (RString s, _) => Some (Some s) | None => Some None | _ => None end.

Definition lapse (v : option slot) : option num := v ≫= snd.

(** A collection that became empty is a key that is gone. *)
Definition hash_slot (h : gmap string string) (x : option num) : option slot :=
  if decide (h = ∅) then None else Some (RHash h, x).
Definition zset_slot (z : list (string * num)) (x : option num) : option slot :=
  match z with [] => None | _ => Some (RZset z, x) end.
Definition set_slot (s : list string) (x : option num) : option slot :=
  match s with [] => None | _ => Some (RSet s, x) end.

Definition put_fields (kvs : list (string * string)) (h : gmap string string) : gmap string string :=
  fold_left (fun h kv => <[kv.1 := kv.2]> h) kvs h.

(** The integer a decimal text stands for. *)
Definition integer_of (t : string) : Z := match Number t with Fin u => zdiv u unit1 | _ => 0%Z end.
Definition integer_text (z : Z) : string := num_to_string (int z).

(** The documented effect of a command, at an instant, on its key. *)
Definition effect (now : num) (c : write) (v : option slot) : option slot :=
  match c with
  | SET _ value ttl =>
      Some (RString value, (fun t => now + t * int 1000) <$> ttl)
  | SETPX _ value px => Some (RString value, Some (now + px))
  | HSET _ kvs => (fun h => (RHash (put_fields kvs h), lapse v)) <$> hash_in v
  | HDEL _ f => hash_in v ≫= fun h => hash_slot (delete f h) (lapse v)
  | HINCRBY _ f z =>
      (fun h => (RHash (<[f := integer_text (default 0%Z (integer_of <$> h !! f) + z)]> h), lapse v))
        <$> hash_in v
  | ZADD _ score m => (fun z => (RZset (omap_set m score z), lapse v)) <$> zset_in v
  | ZREM _ ms => zset_in v ≫= fun z => zset_slot (fold_left (fun z m => omap_delete m z) ms z) (lapse v)
  | SADD _ m => (fun s => (RSet (oset_add m s), lapse v)) <$> set_in v
  | SREM _ ms => set_in v ≫= fun s => set_slot (fold_left (fun s m => oset_delete m s) ms s) (lapse v)
  | DEL _ => None
  | EXPIRE _ seconds => (fun p => (p.1, Some (now + seconds * int 1000))) <$> v
  end.

(** When the manual promises that effect: the key has the command's type, an
    increment finds an integer, and a lifetime is a whole number of seconds the
    server can store. *)
Definition in_range (seconds : num) : Prop :=
  exists z, seconds = int z /\ (0 < z)%Z /\ (seconds <=? REDIS_MAX_TTL_SECONDS) = true.

Definition in_range_ms (px : num) : Prop := exists z, px = int z /\ (0 < z <= 2 ^ 52)%Z.

Definition applicable (c : write) (v : option slot) : Prop :=
  match c with
  | SET _ _ ttl => forall t, ttl = Some t -> in_range t
  | SETPX _ _ px => in_range_ms px
  | HSET _ kvs => kvs <> [] /\ is_Some (hash_in v)
  | HDEL _ _ => is_Some (hash_in v)
  | HINCRBY _ f z => exists h, hash_in v = Some h /\
      forall t, h !! f = Some t -> exists z0, t = integer_text z0 /\ safe z0 /\ safe (z0 + z)
  | ZADD _ score _ => isNaN score = false /\ is_Some (zset_in v)
  | ZREM _ _ => is_Some (zset_in v)
  | SADD _ _ | SREM _ _ => is_Some (set_in v)
  | DEL _ => True
  | EXPIRE _ seconds => in_range seconds
  end.

(** A reading of the clock: whole milliseconds since the epoch. *)
Definition instant (now : num) : Prop := exists z, now = int z /\ (0 <= z <= 2 ^ 52)%Z.

(** ** The interfaces *)

Class RedisServer (R : Type) := {
  look : num -> R -> string -> option slot;
  perform : num -> write -> R -> R
}.

Class LuaRuntime := {
  tonumber : string -> option num;
  fmt17 : num -> string;  (** ['%.17g'] *)
  fmt14 : num -> string;  (** ['%.14g'], which [tostring] and [..] write a number as *)
  cjson_decode : string -> option json  (** [None] where it raises *)
}.

(** [parseLuaNumber], of a reply's number: a text, or a number as it is. *)
Definition parseLuaNumber (v : json) : num :=
  match v with
  | JNum n => n
  | JStr s =>
      if bool_decide (s = "inf") then Inf false
      else if bool_decide (s = "-inf") then Inf true
      else Number s
  | _ => NaN
  end.

Class LuaLaws `{LuaRuntime} : Prop := {
  (** 17 digits are enough for every double *)
  tonumber_fmt17 : forall n, wf_num n -> tonumber (fmt17 n) = Some n;
  (** and [strtod] gives nothing but doubles *)
  tonumber_wf : forall s n, tonumber s = Some n -> wf_num n;
  (** the shortest decimal JavaScript writes is read back by [strtod] *)
  tonumber_string : forall n, wf_num n -> tonumber (num_to_string n) = Some n;
  parse_fmt17 : forall n, wf_num n -> parseLuaNumber (JStr (fmt17 n)) = n;
  (** and so does the reading of a stored text, which refuses what is not finite *)
  stored_fmt17 : forall n d, wf_num n ->
    parseFiniteStored (Some (fmt17 n)) d = if isFinite n then n else d;
  (** an integer of at most 17, or 14, digits is written in full *)
  fmt17_int : forall z, safe z -> fmt17 (int z) = num_to_string (int z);
  fmt14_int : forall z, (Z.abs z < 10 ^ 14)%Z -> fmt14 (int z) = num_to_string (int z)
}.

Class RedisLaws (R : Type) `{RedisServer R} : Prop := {
  look_perform : forall now c (s : R) k,
    instant now -> applicable c (look now s (write_key c)) ->
    look now (perform now c s) k
    = if decide (k = write_key c) then effect now c (look now s k) else look now s k;
  (** a key stays as it is until its lifetime is over, and is gone after *)
  look_before : forall now now' (s : R) k v x, (now <=? now') = true ->
    look now s k = Some (v, Some x) -> (now' <? x) = true -> look now' s k = Some (v, Some x);
  look_after : forall now now' (s : R) k v x, (now <=? now') = true ->
    look now s k = Some (v, Some x) -> (x <? now') = true -> look now' s k = None;
  look_persistent : forall now now' (s : R) k v, (now <=? now') = true ->
    look now s k = Some (v, None) -> look now' s k = Some (v, None);
  look_absent : forall now now' (s : R) k, (now <=? now') = true ->
    look now s k = None -> look now' s k = None
}.

(** Values of one type, of the same members where they have members, and of the
    same fields but for the counter that [c] counts up. *)
Definition counts (c : write) (f : string) : Prop := exists k z, c = HINCRBY k f z.

Definition same_shape (c : write) (v v' : option slot) : Prop :=
  match v, v' with
  | None, None => True
  | Some (RString _, _), Some (RString _, _) => True
  | Some (RHash h, _), Some (RHash h', _) => forall f, counts c f \/ h' !! f = h !! f
  | Some (RZset z, _), Some (RZset z', _) => z'.*1 = z.*1
  | Some (RSet l, _), Some (RSet l', _) => l' = l
  | _, _ => False
  end.

(** What holds of a command whatever its arguments: it is refused and changes
    nothing, removes the key, or does what it does to a key of its type; and
    time only takes keys away. *)
Class RedisShapes (R : Type) `{RedisServer R} : Prop := {
  look_elsewhere : forall now c (s : R) k, instant now -> k <> write_key c ->
    look now (perform now c s) k = look now s k;
  look_shape : forall now c (s : R), instant now ->
    let v := look now s (write_key c) in
    let v' := look now (perform now c s) (write_key c) in
    v' = None \/ same_shape c v v' \/ same_shape c (effect now c v) v';
  look_later : forall now now' (s : R) k, (now <=? now') = true ->
    look now' s k = None \/ look now' s k = look now s k
}.

(** ** Scripts *)

(** A script runs alone, from one state to another; a command it calls may
    raise, which ends it with what it wrote so far. *)
Definition Script (R A : Type) : Type := R -> outcome A * R.

#[export] Instance Script_ret R : MRet (Script R) := fun A a s => (Return a, s).
#[export] Instance Script_bind R : MBind (Script R) := fun A B f m s =>
  match m s with (Return a, s') => f a s' | (Raise e, s') => (Raise e, s') end.

Definition lua_error {R A} (message : string) : Script R A := fun s => (Raise (ForeignError message), s).

Definition wrongtype : string :=
  "WRONGTYPE Operation against a key holding the wrong kind of value".

Fixpoint sforeach {R A} (l : list A) (f : A -> Script R unit) : Script R unit :=
  match l with [] => mret tt | x :: l => f x ;; sforeach l f end.

Fixpoint scollect {R A B} (l : list A) (f : A -> Script R B) : Script R (list B) :=
  match l with [] => mret [] | x :: l => y ← f x; ys ← scollect l f; mret (y :: ys) end.

Fixpoint sfold {R A B} (f : A -> B -> Script R A) (a : A) (l : list B) : Script R A :=
  match l with [] => mret a | x :: l => a ← f a x; sfold f a l end.

(** ** Commands *)

Section commands.
Context {R : Type} `{RedisServer R} `{LuaRuntime}.
Variable now : num.  (** [redisNow]: the server's clock, in whole milliseconds *)

Definition typed {A} (read : option slot -> option A) (key : string) : Script R A := fun s =>
  match read (look now s key) with
  | Some a => (Return a, s)
  | None => (Raise (ForeignError wrongtype), s)
  end.

Definition call_HGETALL (key : string) : Script R (gmap string string) := typed hash_in key.
Definition call_HGET (key field : string) : Script R (option string) :=
  h ← call_HGETALL key; mret (h !! field).
Definition call_ZRANGE (key : string) : Script R (list string) :=
  z ← typed zset_in key; mret (sort_members z).
Definition call_ZCARD (key : string) : Script R nat := z ← typed zset_in key; mret (length z).
Definition call_ZSCORE (key member : string) : Script R (option num) :=
  z ← typed zset_in key; mret (omap_get member z).
(** [ZRANGEBYSCORE key -inf max], and [ZRANGEBYSCORE key (min +inf]. *)
Definition call_ZRANGE_to (key : string) (max : num) : Script R (list string) :=
  z ← typed zset_in key; mret (sort_members (filter (fun e => (e.2 <=? max) = true) z)).
Definition call_ZRANGE_above (key : string) (min : num) : Script R (list string) :=
  z ← typed zset_in key; mret (sort_members (filter (fun e => (min <? e.2) = true) z)).
Definition call_SMEMBERS (key : string) : Script R (list string) := typed set_in key.
Definition call_SISMEMBER (key member : string) : Script R bool :=
  s ← typed set_in key; mret (bool_decide (member ∈ s)).
Definition call_GET (key : string) : Script R (option string) := typed string_in key.
Definition call_EXISTS (key : string) : Script R bool := fun s =>
  (Return (bool_decide (is_Some (look now s key))), s).

Definition perform_ (c : write) : Script R unit := fun s => (Return tt, perform now c s).

(** A writing command, after the check of its key's type. *)
Definition call_write {A} (read : option slot -> option A) (c : write) : Script R unit :=
  typed read (write_key c) ;; perform_ c.
Definition call_HSET (key : string) (kvs : list (string * string)) : Script R unit :=
  call_write hash_in (HSET key kvs).
Definition call_HDEL (key field : string) : Script R unit := call_write hash_in (HDEL key field).
Definition call_HINCRBY (key field : string) (z : Z) : Script R unit :=
  call_write hash_in (HINCRBY key field z).
Definition call_HSETNX (key field value : string) : Script R unit :=
  old ← call_HGET key field;
  match old with Some _ => mret tt | None => call_HSET key [(field, value)] end.
Definition call_ZADD (key : string) (score : num) (member : string) : Script R unit :=
  call_write zset_in (ZADD key score member).
Definition call_ZREM (key : string) (members : list string) : Script R unit :=
  call_write zset_in (ZREM key members).
Definition call_SADD (key member : string) : Script R unit := call_write set_in (SADD key member).
Definition call_SREM (key : string) (members : list string) : Script R unit :=
  call_write set_in (SREM key members).
Definition call_DEL (key : string) : Script R unit := perform_ (DEL key).
Definition call_SETPX (key value : string) (px : num) : Script R unit := perform_ (SETPX key value px).
Definition call_SET (key value : string) (ttl : option num) : Script R unit := perform_ (SET key value ttl).
Definition call_EXPIRE (key : string) (ttl : num) : Script R unit := perform_ (EXPIRE key ttl).

(** ** Fragments *)

(** [finiteNumber(value, default)]. *)
Definition finiteNumber (v : option string) (d : num) : num :=
  match v ≫= tonumber with
  | Some n => if isFinite n then n else d
  | None => d
  end.

(** [finiteNumber(value, nil)]. *)
Definition finiteNumber_nil (v : option string) : option num :=
  n ← v ≫= tonumber; if isFinite n then Some n else None.

(** [tonumber(x)] of what may be [nil], and the comparisons guarded by it. *)
Definition positive_budget (n : option num) : bool :=
  match n with Some n => n >? int 0 | None => false end.
Definition lua_usableConcurrency (max : option num) : bool :=
  match max with Some m => negb (isNaN m) && negb (m =? Inf false) && (m >? int 0) | None => false end.
Definition lua_usableCost (cost : option num) : bool :=
  match cost with Some c => negb (isNaN c) && negb (c =? Inf false) && (c >=? int 0) | None => false end.
Definition lua_usableRequestTtl (ttl : option num) : bool := lua_usableConcurrency ttl.

Definition lua_claimLapsed (claimedAt : option string) : bool :=
  match claimedAt ≫= tonumber with
  | Some stamp => now - stamp >=? QUEUE_CLAIM_LEASE_MS
  | None => false
  end.

Definition lua_min (a b : num) : num := if b <? a then b else a.
Definition lua_max (a b : num) : num := if a <? b then b else a.

Definition lua_bucketTtl (ttl maxTokens tokensToAdd interval : num) : num :=
  let refill := ceil (ceil (maxTokens / tokensToAdd) * interval / int 1000) in
  if negb (refill >? ttl) then ttl
  else if refill >? REDIS_MAX_TTL_SECONDS then REDIS_MAX_TTL_SECONDS
  else refill.

(** [queueEmptyGate] and [freezeGate]: whether they let the fast path through. *)
Definition queueEmptyGate (queueKey : string) : Script R bool :=
  n ← call_ZCARD queueKey; mret (negb (0 <? n)%nat).

Definition freezeGate (freezeKey : string) : Script R bool :=
  freeze ← call_HGETALL freezeKey;
  mret (match finiteNumber_nil (freeze !! "frozenUntil") with
        | Some frozenUntil =>
            if now <? frozenUntil then false
            else negb (finiteNumber (freeze !! "thawRequestCount") (int 0) >? int 0)
        | None => true
        end).

(** [lazyRefill], on the four locals it reads and assigns. *)
Definition lazyRefill (maxTokens tokensToAdd interval : num) (b : BucketState) : BucketState :=
  let belowCap := tokens b <? maxTokens in
  let elapsed := now - lastUpdate b in
  let '(t, u) :=
    if (elapsed >? int 0) && (interval >? int 0) then
      let intervalsElapsed := floor (elapsed / interval) in
      if intervalsElapsed >? int 0 then
        (tokens b + (intervalsElapsed * tokensToAdd), lastUpdate b + (intervalsElapsed * interval))
      else (tokens b, lastUpdate b)
    else (tokens b, lastUpdate b) in
  if t >? maxTokens then
    {| tokens := maxTokens; lastUpdate := u; overflow := overflow b + (t - maxTokens);
       fills := fills b + int 1 |}
  else if belowCap && (t >=? maxTokens) then
    {| tokens := t; lastUpdate := u; overflow := overflow b; fills := fills b + int 1 |}
  else {| tokens := t; lastUpdate := u; overflow := overflow b; fills := fills b |}.

(** The reads the scripts put before it. *)
Definition read_bucket (key : string) (maxTokens : num) : Script R BucketState :=
  t ← call_HGET key "tokens";
  u ← call_HGET key "lastUpdate";
  o ← call_HGET key "overflow";
  f ← call_HGET key "fills";
  mret {| tokens := finiteNumber t maxTokens; lastUpdate := finiteNumber u now;
          overflow := finiteNumber o (int 0); fills := finiteNumber f (int 0) |}.

(** The fields the scripts write back with the balance. *)
Definition bucket_kvs (b : BucketState) : list (string * string) :=
  [("tokens", fmt17 (tokens b)); ("lastUpdate", fmt17 (lastUpdate b));
   ("overflow", fmt17 (overflow b)); ("fills", fmt17 (fills b))].

(** [clock] is the server's clock to the microsecond, as [TIME] gives it. *)
Definition lua_writeMark (clock : string) (markKey : string) (ttl : num) (claimed : num)
    (b : BucketState) (bucketKey : string) : Script R unit :=
  call_HSETNX bucketKey "epoch" clock ;;
  bucket ← call_HGETALL bucketKey;
  call_HSET markKey
    [("claimed", fmt17 claimed); ("overflow", fmt17 (overflow b)); ("fills", fmt17 (fills b));
     ("generation", fmt17 (finiteNumber (bucket !! "generation") (int 0)));
     ("epoch", default "" (bucket !! "epoch"));
     ("forgiven", fmt17 (finiteNumber (bucket !! "forgiven") (int 0)))] ;;
  call_EXPIRE markKey ttl.

(** [slotAccounting]: the occupancy without [requestId]'s own slot, after the
    slots older than [requestTtl] were dropped. *)
Definition slotAccounting (key requestId : string) (requestTtl : num) : Script R num :=
  let expireTime := now - requestTtl in
  let costKey := key +:+ ":costs" in
  expiredMembers ← call_ZRANGE_to key expireTime;
  (if decide (0 < length expiredMembers)%nat then
     call_ZREM key expiredMembers ;; sforeach expiredMembers (call_HDEL costKey)
   else mret tt) ;;
  members ← call_ZRANGE key;
  sfold (fun currentCost member =>
    if decide (member = requestId) then mret currentCost
    else
      cost ← call_HGET costKey member;
      mret (currentCost + finiteNumber cost (int 1))) (int 0) members.
End commands.
