(* ===== verification/RedisFacts.v ===== *)
(** * How the scripts run

    Equations for the commands of a script, over any server that keeps the laws:
    what each shows afterwards ([shows]), and how the number texts are read
    back. *)
From S2P Require Import Prelude JsNumber JsString Json Shared SharedFacts.
From S2P Require Import MemoryStore StoreFacts TokenBucket Atomicity Client RedisServer.
Local Open Scope num_scope.

(** ** Lifetimes lie in the future *)

Lemma in_range_units t : in_range t -> exists u, t * int 1000 = Inf false \/
  t * int 1000 = Fin u /\ (1000 * unit1 <= u)%Z.
Proof.
  intros (k & -> & Hk & _). pose proof unit1_pos as Hu.
  assert (leb (int 1000) (int k * int 1000) = true) as Hm.
  { rewrite <- (rnd_int 1000) at 1 by (unfold safe; lia). unfold rnd, mul, int.
    rewrite <- (round_ratio_scale _ 1 unit1) by lia. apply round_ratio_mono; nia. }
  unfold int in Hm at 1. destruct (int k * int 1000) as [|[]|u]; try done; [by exists 0%Z; left|].
  exists u. right. split; [done|]. unfold leb in Hm. apply Z.leb_le in Hm. lia.
Qed.

Lemma lifetime_future now t : instant now -> in_range t -> (now <? now + t * int 1000) = true.
Proof.
  intros (z & -> & Hz) Ht. pose proof unit1_pos as Hu.
  destruct (in_range_units t Ht) as (u & [->|[-> Hm]]); [done|].
  assert (leb (int (z + 1000)) (int z + Fin u) = true) as Hl.
  { rewrite <- (rnd_int (z + 1000)) by (unfold safe; lia). unfold add, int, rnd.
    apply round_ratio_mono; lia. }
  unfold int in Hl at 1. destruct (int z + Fin u) as [|[]|v]; try done.
  unfold leb in Hl. apply Z.leb_le in Hl. unfold int, ltb. apply Z.ltb_lt. lia.
Qed.

Lemma ltb_asym a b : (a <? b) = true -> (b <? a) = false.
Proof. destruct a as [|[]|], b as [|[]|]; try done. unfold ltb. intros ?%Z.ltb_lt. apply Z.ltb_ge. lia. Qed.

Lemma ltb_not_geb a b : (a <? b) = true -> (a >=? b) = false.
Proof.
  destruct a as [|[]|], b as [|[]|]; try done. unfold ltb, geb, leb. intros ?%Z.ltb_lt. apply Z.leb_gt. lia.
Qed.

(** ** Lifetimes as the normalisers return them *)

Lemma wf_ceil x : wf_num x -> wf_num (ceil x).
Proof.
  destruct x as [| |m]; [done..|]. intros [(k & e & He & Hk & Em) Hb]. rewrite ceil_Fin.
  pose proof unit1_pos as Hu. pose proof (ceil_bounds m) as Hc.
  destruct (Z.le_gt_cases 1074 e) as [Hl|Hl].
  - assert (m = k * 2 ^ (e - 1074) * unit1)%Z as E.
    { rewrite Em, unit1_pow, <- Z.mul_assoc, <- Z.pow_add_r by lia. f_equal. f_equal. lia. }
    assert (- (- m / unit1) * unit1 = m)%Z as ->.
    { rewrite E, <- Z.mul_opp_l, Z.div_mul by lia. lia. }
    split; [by exists k, e|done].
  - apply wf_int. unfold safe in *.
    assert (2 ^ e * 2 <= unit1)%Z as Hp.
    { rewrite unit1_pow. replace (2 ^ e * 2)%Z with (2 ^ (e + 1))%Z by (rewrite Z.pow_add_r by lia; lia).
      apply Z.pow_le_mono_r; lia. }
    assert (0 < 2 ^ e)%Z by (apply Z.pow_pos_nonneg; lia).
    set (c := (- (- m / unit1))%Z) in *. assert (Z.abs m * 2 <= 2 ^ 53 * unit1)%Z by nia.
    assert (Z.abs c * unit1 < Z.abs m + unit1)%Z by nia. nia.
Qed.

Lemma ttl_pos_in_range t : ttl_pos t -> in_range t.
Proof.
  intros [Hn Hp]. apply normalizeTtl_inv in Hn as (Hf & Hm & [[H0 _]|[_ E]]); [congruence|].
  destruct t as [| |m]; [done..|]. rewrite ceil_Fin in E. injection E as E.
  exists (- (- m / unit1))%Z. split_and!.
  - unfold int. by rewrite <- E.
  - unfold leb, int in Hp. apply Z.leb_gt in Hp. pose proof unit1_pos. nia.
  - unfold gtb, ltb in Hm. rewrite REDIS_MAX_units in *. unfold leb. apply Z.leb_le.
    by apply Z.ltb_ge in Hm.
Qed.

Lemma in_range_ttl_pos t : in_range t -> ttl_pos t.
Proof.
  intros (z & -> & Hz & Hm). pose proof unit1_pos. rewrite REDIS_MAX_units in Hm.
  unfold leb, int in Hm. apply Z.leb_le in Hm.
  assert ((int z <=? int 0) = false) as Hp by (unfold leb, int; apply Z.leb_gt; nia).
  split; [|done]. unfold ttl_norm, normalizeTtlSeconds. rewrite REDIS_MAX_units, Hp. unfold gtb, ltb, int.
  rewrite (proj2 (Z.ltb_ge _ _)) by lia. cbn -[ceil]. f_equal. rewrite ceil_Fin. f_equal.
  rewrite <- Z.mul_opp_l, Z.div_mul by lia. lia.
Qed.

Lemma fmin_max_ttl x :
  isNaN x = false -> fmin x REDIS_MAX_TTL_SECONDS
  = if x >? REDIS_MAX_TTL_SECONDS then REDIS_MAX_TTL_SECONDS else x.
Proof. intros Hx. unfold fmin, gtb. rewrite REDIS_MAX_units. by destruct x as [|[]|m]. Qed.

Lemma lua_bucketTtl_eq ttl config :
  lua_bucketTtl ttl (maxTokens config) (tokensToAdd config) (interval config) = bucketTtl ttl config.
Proof.
  unfold lua_bucketTtl, bucketTtl. cbv zeta. set (r := ceil _). destruct (r >? ttl) eqn:E; [|done].
  cbn [negb]. rewrite fmin_max_ttl; [done|]. unfold gtb in E. by apply ltb_not_nan in E as [_ ?].
Qed.

(** The lifetime both backends give a bucket is one that Redis can store. *)
Lemma bucketTtl_in_range ttl config : in_range ttl -> in_range (bucketTtl ttl config).
Proof.
  intros Ht. rewrite <- lua_bucketTtl_eq. unfold lua_bucketTtl. cbv zeta. set (q := _ / int 1000).
  destruct (ceil q >? ttl) eqn:E; [|done]. cbn [negb].
  destruct (ceil q >? REDIS_MAX_TTL_SECONDS) eqn:Em.
  { exists 9200000000000000%Z. split_and!; [done|done|by vm_compute]. }
  destruct Ht as (z & -> & Hz & Hr). rewrite REDIS_MAX_units in *.
  destruct q as [|[]|m]; try done. exists (- (- m / unit1))%Z. rewrite ceil_Fin in *. unfold gtb, ltb, int in E, Em.
  apply Z.ltb_lt in E. apply Z.ltb_ge in Em. pose proof unit1_pos. split_and!; [done|nia|].
  unfold leb. rewrite REDIS_MAX_units. by apply Z.leb_le.
Qed.

Lemma in_range_day : in_range (int 86400).
Proof. apply ttl_pos_in_range, ttl_pos_day. Qed.

Lemma wf_stateTtl t x : wf_num t -> normalizeStateTtlSeconds t = Ok x -> wf_num x /\ in_range x.
Proof.
  intros Hw H. pose proof (ttl_pos_in_range _ (normalizeStateTtl_pos _ _ H)) as Hr.
  unfold normalizeStateTtlSeconds, rbind in H. destruct (normalizeTtlSeconds t) as [y|] eqn:E; [|done].
  destruct (y <=? int 0) eqn:E0; [done|]. injection H as <-. split; [|done].
  apply normalizeTtl_inv in E as (_ & _ & [[_ ->]|[_ ->]]); [by apply wf_int|].
  by apply wf_ceil.
Qed.

(** ** Number texts *)

Section texts.
Context `{LuaLaws}.

Lemma finiteNumber_written n d : wf_num n -> finiteNumber (Some (fmt17 n)) d = if isFinite n then n else d.
Proof. intros Hn. unfold finiteNumber. cbn. by rewrite tonumber_fmt17. Qed.

Lemma finiteNumber_js n d : wf_num n -> finiteNumber (Some (num_to_string n)) d = if isFinite n then n else d.
Proof. intros Hn. unfold finiteNumber. cbn. by rewrite tonumber_string. Qed.

Lemma arg_some n : wf_num n -> tonumber (num_to_string n) = Some n.
Proof. apply tonumber_string. Qed.

(** A text of Redis and a text of the memory backend that every reading takes
    for the same number. *)
Definition reads (r m : option string) : Prop :=
  forall d, finiteNumber r d = parseFiniteStored m d /\ parseFiniteStored r d = parseFiniteStored m d.

Lemma parseFinite_None d : parseFiniteStored None d = d.
Proof. unfold parseFiniteStored, parseStoredNumber. by destruct (isFinite d). Qed.

Lemma reads_None : reads None None.
Proof. intros d. by rewrite parseFinite_None. Qed.

Lemma reads_written n : wf_num n -> reads (Some (fmt17 n)) (Some (num_to_string n)).
Proof. intros Hn d. by rewrite finiteNumber_written, stored_fmt17, parseFinite_written. Qed.

Lemma reads_js n : wf_num n -> reads (Some (num_to_string n)) (Some (num_to_string n)).
Proof. intros Hn d. by rewrite finiteNumber_js, parseFinite_written. Qed.

(** What an absent field and a written zero have in common. *)
Definition reads0 (r m : option string) : Prop :=
  finiteNumber r (int 0) = parseFiniteStored m (int 0).

Lemma reads_reads0 r m : reads r m -> reads0 r m.
Proof. intros Hr. apply Hr. Qed.

Lemma reads0_written n : wf_num n -> reads0 (Some (fmt17 n)) (Some (num_to_string n)).
Proof. intros Hn. by apply reads_reads0, reads_written. Qed.

Lemma reads_deadline r m : reads r m -> finiteNumber_nil r = usableDeadline m.
Proof.
  intros Hr. destruct (Hr NaN) as [Hn _]. unfold usableDeadline, finiteNumber_nil.
  unfold finiteNumber, parseFiniteStored in Hn. destruct (isFinite (parseStoredNumber m NaN)) eqn:E.
  - destruct (r ≫= tonumber) as [n|]; cbn in *.
    + destruct (isFinite n) eqn:En; [by subst|]. rewrite <- Hn in E. done.
    + by rewrite <- Hn in E.
  - destruct (r ≫= tonumber) as [n|]; cbn in *; [|done]. destruct (isFinite n) eqn:En; [by subst|done].
Qed.
End texts.

(** ** Commands *)

Section commands.
Context {R : Type} `{RedisServer R} `{!RedisLaws R}.
Implicit Types (s : R) (f : string -> option slot).

(** What a server shows at an instant, key by key. *)
Definition shows (now : num) s f : Prop := forall k, look now s k = f k.

(** One key changed. *)
Definition patch {A} (key : string) (v : A) (f : string -> A) : string -> A :=
  fun k => if decide (k = key) then v else f k.

Lemma patch_eq {A} key (v : A) (f : string -> A) : patch key v f key = v.
Proof. unfold patch. by rewrite decide_True. Qed.
Lemma patch_ne {A} key (v : A) (f : string -> A) k : k <> key -> patch key v f k = f k.
Proof. intros. unfold patch. by rewrite decide_False. Qed.

Lemma sbind_ok {A B} (m : Script R A) (g : A -> Script R B) s a s' :
  m s = (Return a, s') -> (m ≫= g) s = g a s'.
Proof. intros Hm. unfold mbind, Script_bind. by rewrite Hm. Qed.

Lemma sret_bind {A B} (a : A) (g : A -> Script R B) s : (mret a ≫= g) s = g a s.
Proof. done. Qed.

Context (now : num).

Lemma typed_run {A} (read : option slot -> option A) key a s :
  read (look now s key) = Some a -> typed now read key s = (Return a, s).
Proof. intros Hr. unfold typed. by rewrite Hr. Qed.

Lemma HGETALL_run key h s : hash_in (look now s key) = Some h -> call_HGETALL now key s = (Return h, s).
Proof. apply typed_run. Qed.

Lemma HGET_run key field h s :
  hash_in (look now s key) = Some h -> call_HGET now key field s = (Return (h !! field), s).
Proof. intros Hh. unfold call_HGET. by rewrite (sbind_ok _ _ _ _ _ (HGETALL_run _ _ _ Hh)). Qed.

Lemma ZCARD_run key z s :
  zset_in (look now s key) = Some z -> call_ZCARD now key s = (Return (length z), s).
Proof. intros Hz. unfold call_ZCARD. by rewrite (sbind_ok _ _ _ _ _ (typed_run _ _ _ _ Hz)). Qed.

Context (Hnow : instant now).

Lemma perform_run c s :
  applicable c (look now s (write_key c)) ->
  exists s', perform_ now c s = (Return tt, s') /\
    shows now s' (patch (write_key c) (effect now c (look now s (write_key c))) (look now s)).
Proof.
  intros Ha. eexists. split; [done|]. intros k. rewrite look_perform by done. unfold patch.
  by case_decide; subst.
Qed.

Lemma HSET_run key kvs h s :
  kvs <> [] -> hash_in (look now s key) = Some h ->
  exists s', call_HSET now key kvs s = (Return tt, s') /\
    shows now s' (patch key (Some (RHash (put_fields kvs h), lapse (look now s key))) (look now s)).
Proof.
  intros Hk Hh. unfold call_HSET, call_write.
  rewrite (sbind_ok _ _ _ _ _ (typed_run _ _ _ _ Hh)).
  destruct (perform_run (HSET key kvs) s) as (s' & E & Hs); [by split; eauto|].
  exists s'. split; [done|]. cbn in Hs. by rewrite Hh in Hs.
Qed.

Lemma HINCRBY_run key field z z0 h s :
  hash_in (look now s key) = Some h -> safe z0 -> safe (z0 + z) ->
  h !! field = Some (integer_text z0) \/ h !! field = None /\ z0 = 0%Z ->
  exists s', call_HINCRBY now key field z s = (Return tt, s') /\
    shows now s' (patch key (Some (RHash (<[field := integer_text (z0 + z)]> h), lapse (look now s key)))
                   (look now s)).
Proof.
  intros Hh Hz0 Hz Hf. unfold call_HINCRBY, call_write.
  rewrite (sbind_ok _ _ _ _ _ (typed_run _ _ _ _ Hh)).
  destruct (perform_run (HINCRBY key field z) s) as (s' & E & Hs).
  { exists h. split; [done|]. intros t Ht. exists z0. destruct Hf as [Hf|[Hf _]]; [|congruence].
    by simplify_eq. }
  exists s'. split; [done|]. cbn in Hs. rewrite Hh in Hs. cbn in Hs.
  assert (default 0%Z (integer_of <$> h !! field) = z0) as Ez.
  { destruct Hf as [->|[-> ->]]; [|done]. cbn. unfold integer_of, integer_text.
    rewrite Number_num_to_string by by apply wf_int. unfold int. rewrite zdiv_eq. apply Z.div_mul.
    pose proof unit1_pos. lia. }
  by rewrite Ez in Hs.
Qed.

Lemma EXPIRE_run key ttl v x s :
  in_range ttl -> look now s key = Some (v, x) ->
  exists s', call_EXPIRE now key ttl s = (Return tt, s') /\
    shows now s' (patch key (Some (v, Some (now + ttl * int 1000))) (look now s)).
Proof.
  intros Ht Hk. destruct (perform_run (EXPIRE key ttl) s Ht) as (s' & E & Hs).
  exists s'. split; [done|]. cbn in Hs. by rewrite Hk in Hs.
Qed.

Lemma EXPIRE_absent_run key ttl s :
  in_range ttl -> look now s key = None ->
  exists s', call_EXPIRE now key ttl s = (Return tt, s') /\ shows now s' (look now s).
Proof.
  intros Ht Hk. destruct (perform_run (EXPIRE key ttl) s Ht) as (s' & E & Hs).
  exists s'. split; [done|]. cbn in Hs. rewrite Hk in Hs. intros k. rewrite Hs. unfold patch.
  by case_decide; subst.
Qed.

Lemma DEL_run key s :
  exists s', call_DEL now key s = (Return tt, s') /\ shows now s' (patch key None (look now s)).
Proof. destruct (perform_run (DEL key) s I) as (s' & E & Hs). by exists s'. Qed.

(** A hash written and given a lifetime. *)
Lemma HSET_EXPIRE_run {B} key kvs ttl h (g : unit -> Script R B) s :
  kvs <> [] -> hash_in (look now s key) = Some h -> in_range ttl ->
  exists s', (call_HSET now key kvs ;; call_EXPIRE now key ttl ;; g tt) s = g tt s' /\
    shows now s' (patch key (Some (RHash (put_fields kvs h), Some (now + ttl * int 1000))) (look now s)).
Proof.
  intros Hk Hh Ht. destruct (HSET_run key kvs h s Hk Hh) as (s1 & E1 & H1).
  rewrite (sbind_ok _ _ _ _ _ E1).
  destruct (EXPIRE_run key ttl _ _ s1 Ht (eq_trans (H1 key) (patch_eq _ _ _))) as (s2 & E2 & H2).
  rewrite (sbind_ok _ _ _ _ _ E2). exists s2. split; [done|]. intros k. rewrite H2. unfold patch.
  case_decide; [done|]. rewrite H1. by apply patch_ne.
Qed.

Lemma HSET_EXPIRE_end key kvs ttl h s :
  kvs <> [] -> hash_in (look now s key) = Some h -> in_range ttl ->
  exists s', (call_HSET now key kvs ;; call_EXPIRE now key ttl) s = (Return tt, s') /\
    shows now s' (patch key (Some (RHash (put_fields kvs h), Some (now + ttl * int 1000))) (look now s)).
Proof.
  intros Hk Hh Ht. destruct (HSET_EXPIRE_run key kvs ttl h mret s Hk Hh Ht) as (s' & E & Hs).
  exists s'. split; [|done]. unfold mret, Script_ret in E. rewrite <- E. unfold mbind, Script_bind.
  destruct (call_HSET now key kvs s) as [[[]|] s1]; [|done].
  by destruct (call_EXPIRE now key ttl s1) as [[[]|] s2].
Qed.
End commands.
