(* ===== verification/RedisModel.v ===== *)
(** * A server that keeps the laws

    The smallest server with the documented commands: a map from keys to values
    and when they lapse.  It shows that [RedisLaws] and [LuaLaws] can hold. *)
From S2P Require Import Prelude JsNumber JsString Json Shared SharedFacts SharedProps.
From S2P Require Import MemoryStore RedisServer RedisFacts.
Local Open Scope num_scope.

Abbreviation ModelRedis := (gmap string slot).

Definition lapsed (now : num) (v : slot) : bool :=
  match v.2 with Some x => x <? now | None => false end.

Definition model_look (now : num) (s : ModelRedis) (key : string) : option slot :=
  v ← s !! key; if lapsed now v then None else Some v.

#[export] Instance model_server : RedisServer ModelRedis := {|
  look := model_look;
  perform := fun now c s =>
    match effect now c (model_look now s (write_key c)) with
    | Some v => <[write_key c := v]> s
    | None => delete (write_key c) s
    end
|}.

Definition standing (now : num) (v : option slot) : Prop := forall p, v = Some p -> lapsed now p = false.

Lemma standing_look now s key : standing now (model_look now s key).
Proof.
  intros p. unfold model_look. destruct (s !! key) as [v|]; [|done]. simpl.
  destruct (lapsed now v) eqn:E; [done|]. by intros [= <-].
Qed.

Lemma standing_lapse now v : standing now v -> forall a, lapsed now (a, lapse v) = false.
Proof. intros Hv a. destruct v as [[r x]|]; [|done]. exact (Hv _ eq_refl). Qed.

Lemma future_not_past now t : instant now -> in_range t -> (now + t * int 1000 <? now) = false.
Proof. intros Hn Ht. by apply ltb_asym, lifetime_future. Qed.

Lemma future_ms now v px : instant now -> in_range_ms px -> lapsed now (v, Some (now + px)) = false.
Proof.
  intros (n & -> & Hn) (z & -> & Hz). unfold lapsed. cbn [snd].
  rewrite add_int by (unfold safe; lia). rewrite ltb_int. apply Z.ltb_ge. lia.
Qed.

(** A command leaves nothing that has lapsed already. *)
Lemma standing_effect now c v :
  instant now -> applicable c v -> standing now v -> standing now (effect now c v).
Proof.
  intros Hn Ha Hv. pose proof (standing_lapse now v Hv) as Hl. destruct c; cbn [effect]; intros p Hp.
  - injection Hp as <-. destruct ttl as [t|]; [|done]. simpl. apply future_not_past; [done|]. by apply Ha.
  - injection Hp as <-. by apply future_ms.
  - destruct (hash_in v); [|done]. injection Hp as <-. apply Hl.
  - destruct (hash_in v); [|done]. simpl in Hp. unfold hash_slot in Hp. case_decide; [done|]. injection Hp as <-. apply Hl.
  - destruct (hash_in v); [|done]. injection Hp as <-. apply Hl.
  - destruct (zset_in v); [|done]. injection Hp as <-. apply Hl.
  - destruct (zset_in v); [|done]. simpl in Hp. unfold zset_slot in Hp. destruct (fold_left _ _ _); [done|]. injection Hp as <-. apply Hl.
  - destruct (set_in v); [|done]. injection Hp as <-. apply Hl.
  - destruct (set_in v); [|done]. simpl in Hp. unfold set_slot in Hp. destruct (fold_left _ _ _); [done|]. injection Hp as <-. apply Hl.
  - done.
  - destruct v; [|done]. injection Hp as <-. simpl. by apply future_not_past.
Qed.

Lemma model_look_some now s k v :
  model_look now s k = Some v <-> s !! k = Some v /\ lapsed now v = false.
Proof.
  unfold model_look. destruct (s !! k) as [v'|]; simpl; [|by split; [|intros []]].
  destruct (lapsed now v') eqn:E; split; [done|intros [[= ->] ?]; congruence| |].
  - by intros [= ->].
  - by intros [[= ->] _].
Qed.

Lemma model_look_insert now (s : ModelRedis) key v k :
  lapsed now v = false ->
  model_look now (<[key := v]> s : ModelRedis) k = if decide (k = key) then Some v else model_look now s k.
Proof.
  intros Hv. unfold model_look. case_decide as Hk.
  - subst. rewrite lookup_insert_eq. simpl. by rewrite Hv.
  - by rewrite lookup_insert_ne.
Qed.

Lemma model_look_delete now (s : ModelRedis) key k :
  model_look now (delete key s : ModelRedis) k = if decide (k = key) then None else model_look now s k.
Proof.
  unfold model_look. case_decide as Hk; [subst; by rewrite lookup_delete_eq|by rewrite lookup_delete_ne].
Qed.

#[export] Instance model_laws : RedisLaws ModelRedis.
Proof.
  split; cbn [look perform model_server].
  - intros now c s k Hn Ha. pose proof (standing_effect now c _ Hn Ha (standing_look now s _)) as Hs.
    destruct (effect now c (model_look now s (write_key c))) as [v|] eqn:E.
    + rewrite (model_look_insert _ _ _ _ _ (Hs _ eq_refl)). by case_decide; subst.
    + rewrite model_look_delete. by case_decide; subst.
  - intros now now' s k v x Hle Hv Hx. apply model_look_some in Hv as [Hv _]. apply model_look_some.
    split; [done|]. simpl. destruct (x <? now') eqn:E; [|done].
    pose proof (ltb_leb_trans now' x now' Hx) as Ht. destruct (x <=? now') eqn:El.
    + specialize (Ht eq_refl). by rewrite ltb_irrefl in Ht.
    + destruct x as [|[]|], now' as [|[]|]; try done. simpl in *. apply Z.ltb_lt in E. apply Z.leb_gt in El. lia.
  - intros now now' s k v x Hle Hv Hx. apply model_look_some in Hv as [Hv _]. unfold model_look. rewrite Hv.
    simpl. unfold lapsed. cbn [snd]. by rewrite Hx.
  - intros now now' s k v Hle Hv. apply model_look_some in Hv as [Hv _]. by apply model_look_some.
  - intros now now' s k Hle Hv. unfold model_look in *.
    destruct (s !! k) as [[a [x|]]|]; [|done|done]. cbn in *. unfold lapsed in *. cbn [snd] in *.
    destruct (x <? now) eqn:E; [|done]. by rewrite (ltb_leb_trans _ _ _ E Hle).
Qed.

#[export] Instance model_shapes : RedisShapes ModelRedis.
Proof.
  split; cbn [look perform model_server].
  - intros now c s k Hn Hk. destruct (effect now c (model_look now s (write_key c))) as [v|]; unfold model_look.
    + by rewrite lookup_insert_ne.
    + by rewrite lookup_delete_ne.
  - intros now c s Hn. destruct (effect now c (model_look now s (write_key c))) as [e|] eqn:E.
    + assert (model_look now (<[write_key c := e]> s : ModelRedis) (write_key c)
              = if lapsed now e then None else Some e) as ->.
      { unfold model_look. by rewrite lookup_insert_eq. }
      destruct (lapsed now e); [by left|]. right. right. destruct e as [[] ?]; try done. by right.
    + left. unfold model_look. by rewrite lookup_delete_eq.
  - intros now now' s k Hle. unfold model_look. destruct (s !! k) as [[a [x|]]|]; [|by right..]. simpl.
    unfold lapsed. cbn [snd]. destruct (x <? now') eqn:E; [by left|].
    destruct (x <? now) eqn:E'; [by rewrite (ltb_leb_trans _ _ _ E' Hle) in E|by right].
Qed.

(** Texts as JavaScript writes them, read as JavaScript reads them. *)
#[export] Instance model_lua : LuaRuntime := {|
  tonumber := fun s => if isNaN (Number s) && negb (bool_decide (s = "NaN")) then None else Some (Number s);
  fmt17 := num_to_string;
  fmt14 := num_to_string;
  cjson_decode := parse
|}.

Lemma tonumber_back n : wf_num n -> tonumber (num_to_string n) = Some n.
Proof.
  intros Hn. cbn [tonumber model_lua]. rewrite Number_num_to_string by done.
  destruct n as [|s|m]; cbn [isNaN andb]; [by vm_compute|done..].
Qed.

#[export] Instance model_lua_laws : LuaLaws.
Proof.
  split; [exact tonumber_back| |exact tonumber_back| |by intros; apply parseFinite_written|done|done].
  { intros s n. cbn [tonumber model_lua]. destruct (_ && _); [done|]. intros [= <-]. apply wf_Number. }
  intros n Hn. cbn [fmt17 model_lua parseLuaNumber].
  assert (forall w, bool_decide (num_to_string n = w) = true -> Number w = n) as Hw.
  { intros w Hb. apply bool_decide_eq_true in Hb. rewrite <- Hb. by apply Number_num_to_string. }
  destruct (bool_decide (num_to_string n = "inf")) eqn:E1; [specialize (Hw "inf" E1)|].
  { exfalso. subst n. vm_compute in E1. done. }
  destruct (bool_decide (num_to_string n = "-inf")) eqn:E2; [specialize (Hw "-inf" E2)|].
  { exfalso. subst n. vm_compute in E2. done. }
  by apply Number_num_to_string.
Qed.
