(* ===== verification/RedisBucket.v ===== *)
(** * Token buckets on Redis

    The scripts of [packages/backend-redis/src/lua/tokenBucket.ts] and the
    operations of [ops/tokenBucket.ts] that run them.  A script's numeric
    arguments are the texts JavaScript writes them as; a reply encoded with
    [cjson] is the object it is parsed back to. *)
From S2P Require Import Prelude JsNumber JsString Json RateLimit Shared MemoryStore TokenBucket.
From S2P Require Import Concurrency Queue Cost Freeze Backend Client RedisServer.
Local Open Scope num_scope.

(** The server's clock: [redisNow]'s milliseconds, and [TIME]'s own two
    numbers joined by a dot. *)
Record clock := { ms : num; micros : string }.

(** [arguments] as a script receives them. *)
Definition arg `{LuaRuntime} (n : num) : option num := tonumber (num_to_string n).
Definition arg_or `{LuaRuntime} (n d : num) : num := default d (arg n).

(** What both acquiring scripts test before anything else. *)
Definition bad_interval (interval : option num) : bool :=
  match interval with
  | Some i => isNaN i || (i =? Inf false) || (i =? Inf true)
  | None => true
  end.
Definition bad_max (maxTokens : option num) : bool :=
  match maxTokens with
  | Some m => negb (m >? int 0) || (m =? Inf false)
  | None => true
  end.

Section scripts.
Context {R : Type} `{RedisServer R} `{LuaRuntime}.
Variable t : clock.
Local Notation now := (ms t).

(** ** The scripts *)

Definition refusal (error : string) : json :=
  JObj [("acquired", JBool false); ("waitTime", JNum (int 0)); ("remainingTokens", JNum (int 0));
        ("error", JStr error)].
Definition exact (n : num) : json := JStr (fmt17 n).

(** [tokens >= cost - math.min(maxTokens, cost) * BALANCE_TOLERANCE]. *)
Definition lua_covers (tokens_ cost maxTokens_ : num) : bool :=
  tokens_ >=? cost - lua_min maxTokens_ cost * BALANCE_TOLERANCE.

(** What a claim that was let through does to its bucket: whether it is spent,
    and the balance and refill clock it found. *)
Definition spend (key markKey : string) (cost maxTokens_ tokensToAdd_ interval_ ttl markTtl : num)
    (hasMark : bool) : Script R (bool * BucketState) :=
  let ttl := lua_bucketTtl ttl maxTokens_ tokensToAdd_ interval_ in
  b ← read_bucket now key maxTokens_;
  let b := lazyRefill now maxTokens_ tokensToAdd_ interval_ b in
  if lua_covers (tokens b) cost maxTokens_ then
    call_HSET now key (bucket_kvs (with_tokens (tokens b - cost) b)) ;;
    call_EXPIRE now key ttl ;;
    (if hasMark then lua_writeMark now (micros t) markKey markTtl cost b key else mret tt) ;;
    mret (true, b)
  else
    call_HSET now key (bucket_kvs b) ;;
    call_EXPIRE now key ttl ;;
    mret (false, b).

Definition tokenBucket (key markKey : string) (cost maxTokens_ tokensToAdd_ interval_ : option num)
    (ttl markTtl : num) (hasMark : bool) : Script R json :=
  match tokensToAdd_ with
  | None => mret (refusal "tokensToAdd must be greater than 0")
  | Some a =>
  if negb (a >? int 0) then mret (refusal "tokensToAdd must be greater than 0") else
  match maxTokens_ with
  | None => mret (refusal "maxTokens must be a finite number greater than 0")
  | Some m =>
  if bad_max maxTokens_ then mret (refusal "maxTokens must be a finite number greater than 0") else
  match cost with
  | None => mret (refusal "cost must be a finite number that is not negative")
  | Some c =>
  if negb (lua_usableCost cost) then mret (refusal "cost must be a finite number that is not negative") else
  match interval_ with
  | None => mret (refusal "interval must be a finite number")
  | Some i =>
  if bad_interval interval_ then mret (refusal "interval must be a finite number") else
    spent ← spend key markKey c m a i ttl markTtl hasMark;
    let '(granted, b) := spent : bool * BucketState in
    if granted then
      mret (JObj [("acquired", JBool true); ("remainingTokens", exact (tokens b - c))])
    else
      let needed := c - tokens b in
      let intervalsNeeded := ceil (needed / a) in
      let waitTime := intervalsNeeded * i - (now - lastUpdate b) in
      let waitTime := if waitTime <? int 0 then int 0 else waitTime in
      mret (JObj [("acquired", JBool false); ("waitTime", exact waitTime);
                  ("remainingTokens", exact (tokens b))])
  end end end end.

Definition tryAdmitImmediately_script (queueKey bucketKey freezeKey markKey : string)
    (cost maxTokens_ tokensToAdd_ interval_ : option num) (ttl markTtl : num) (hasMark : bool)
    : Script R bool :=
  match tokensToAdd_, maxTokens_, cost, interval_ with
  | Some a, Some m, Some c, Some i =>
      if negb (a >? int 0) || bad_max maxTokens_ || negb (lua_usableCost cost)
         || bad_interval interval_ then mret false
      else
        empty ← queueEmptyGate now queueKey;
        if negb empty then mret false
        else
          thawed ← freezeGate now freezeKey;
          if negb thawed then mret false
          else spent ← spend bucketKey markKey c m a i ttl markTtl hasMark; mret spent.1
  | _, _, _, _ => mret false
  end.

(** Whether a refund is refused: a freeze that emptied the bucket stands. *)
Definition emptied_freeze (freeze : gmap string string) : bool :=
  (finiteNumber (freeze !! "frozenUntil") (int 0) >? now)
  && negb (bool_decide (freeze !! "emptiesBucket" = Some "0")).

Definition refundTokens_script (key freezeKey : string) (cost maxTokens_ : option num)
    (hasFreeze : bool) : Script R unit :=
  match cost with
  | Some c =>
      if negb (lua_usableCost cost) then mret tt
      else
        refused ← (if hasFreeze then
                     freeze ← call_HGETALL now freezeKey; mret (emptied_freeze freeze)
                   else mret false);
        if (refused : bool) then mret tt
        else
          raw ← call_HGET now key "tokens";
          match raw with
          | None => mret tt
          | Some _ =>
              match maxTokens_ with
              | Some m =>
                  call_HSET now key
                    [("tokens", fmt17 (lua_min m (finiteNumber raw (int 0) + c)))]
              | None => lua_error "bad argument #1 to 'min' (number expected, got nil)"
              end
          end
  | None => mret tt
  end.

Definition resetTokenBucket_script (key maxTokens_ : string) : Script R unit :=
  call_HSET now key [("tokens", maxTokens_); ("lastUpdate", fmt17 now)] ;;
  call_HINCRBY now key "generation" 1 ;;
  call_EXPIRE now key (int 86400).

Definition emptyTokenBucket_script (key : string) (maxTokens_ tokensToAdd_ interval_ : option num)
    (ttl : num) : Script R unit :=
  raw ← call_HGET now key "tokens";
  let tokens_ := finiteNumber raw (int 0) in
  let tokens_ := if tokens_ >? int 0 then int 0 else tokens_ in
  g ← call_HGET now key "generation";
  call_HSET now key [("tokens", fmt17 tokens_); ("lastUpdate", fmt17 now);
                     ("generation", fmt17 (finiteNumber g (int 0) + int 1))] ;;
  call_EXPIRE now key
    (match tokensToAdd_, maxTokens_, interval_ with
     | Some a, Some m, Some i =>
         if (a >? int 0) && (m >? int 0) && negb (m =? Inf false)
            && negb (isNaN i) && negb (i =? Inf false)
         then lua_bucketTtl ttl m a i else ttl
     | _, _, _ => ttl
     end).

(** One entry of [settleTokens]' argument, its keys looked up and its numbers
    read with [tonumber]. *)
Record settle_entry := {
  se_key : string;
  se_markKey : string;
  se_actual : option num;
  se_maxTokens : option num;
  se_tokensToAdd : option num;
  se_interval : option num;
  se_maxDebt : option num
}.

(** The [result] table, before it is encoded. *)
Record settled_reply := { sd_settled : bool; sd_applied : json; sd_unapplied : json }.

(** What a settlement applies, leaves over and forgives. *)
Definition settle_amounts (b : BucketState) (bucket mark : gmap string string)
    (actual maxTokens_ : num) (maxDebt : option num) : num * num * num :=
  let forgiven := finiteNumber (bucket !! "forgiven") (int 0) in
  let generation := finiteNumber (bucket !! "generation") (int 0) in
  let epoch := default "" (bucket !! "epoch") in
  let claimed := finiteNumber (mark !! "claimed") (int 0) in
  let overflowAtClaim := finiteNumber (mark !! "overflow") (int 0) in
  let fillsAtClaim := finiteNumber (mark !! "fills") (int 0) in
  let generationAtClaim := finiteNumber (mark !! "generation") (int 0) in
  let epochAtClaim := default "" (mark !! "epoch") in
  let forgivenAtClaim := finiteNumber (mark !! "forgiven") (int 0) in
  if negb (bool_decide (epochAtClaim = "")) && bool_decide (epoch = epochAtClaim)
     && (generation =? generationAtClaim) && (overflow b >=? overflowAtClaim)
     && (fills b >=? fillsAtClaim) then
    let delta := actual - claimed in
    if delta >? int 0 then
      let slack := overflow b - overflowAtClaim - (forgiven - forgivenAtClaim) in
      let slack := if slack <? int 0 then int 0 else slack in
      let used := lua_min delta slack in
      let owed := delta - used in
      let debt := match maxDebt with
                  | Some d => if negb (isNaN d) && negb (d =? Inf false) && (d >? int 0) then d else int 0
                  | None => int 0
                  end in
      let room := tokens b + debt in
      let room := if room <? int 0 then int 0 else room in
      let applied := lua_min owed room in
      (applied, owed - applied, forgiven + used)
    else if (delta <? int 0) && (fills b =? fillsAtClaim) then
      let headroom := maxTokens_ - tokens b in
      let headroom := if headroom <? int 0 then int 0 else headroom in
      (- lua_min (- delta) headroom, int 0, forgiven)
    else (int 0, int 0, forgiven)
  else (int 0, int 0, forgiven).

Definition settle_script_one (baseTtl : num) (e : settle_entry) : Script R settled_reply :=
  let nothing settled := {| sd_settled := settled; sd_applied := exact (int 0); sd_unapplied := exact (int 0) |} in
  mark ← call_HGETALL now (se_markKey e);
  match mark !! "claimed", se_actual e, se_tokensToAdd e, se_maxTokens e, se_interval e with
  | Some _, Some actual, Some a, Some m, Some i =>
      if negb (lua_usableCost (Some actual) && (a >? int 0) && negb (bad_max (Some m))
               && negb (bad_interval (Some i))) then mret (nothing false)
      else
        call_DEL now (se_markKey e) ;;
        bucket ← call_HGETALL now (se_key e);
        match bucket !! "tokens" with
        | None => mret (nothing true)
        | Some _ =>
            b ← read_bucket now (se_key e) m;
            let b := lazyRefill now m a i b in
            bucket ← call_HGETALL now (se_key e);
            let '(applied, unapplied, forgiven) := settle_amounts b bucket mark actual m (se_maxDebt e) in
            call_HSET now (se_key e)
              (bucket_kvs (with_tokens (tokens b - applied) b) ++ [("forgiven", fmt17 forgiven)]) ;;
            call_EXPIRE now (se_key e) (lua_bucketTtl baseTtl m a i) ;;
            mret {| sd_settled := true; sd_applied := exact applied; sd_unapplied := exact unapplied |}
        end
  | _, _, _, _, _ => mret (nothing false)
  end.

(** ** The operations *)

Definition script_of {A} (r : result A) : Script R A := fun s =>
  (match r with Ok a => Return a | Throw e => Raise (JsError e) end, s).

(** [markArgs]: the mark's key, its lifetime and whether there is one. *)
Definition markArgs (bucketKey : string) (mark : option ClaimMark) : Script R (string * num * bool) :=
  match mark with
  | None => mret (bucketKey, int 0, false)
  | Some m =>
      ttl ← script_of (normalizeStateTtlSeconds (mark_ttlSeconds m));
      mret (claimMarkKey bucketKey (mark_id m), ttl, true)
  end.

(** The parsed reply of [tokenBucket]. *)
Definition read_acquired (v : json) : AcquireTokensResult :=
  let field k := match v with JObj l => omap_get k l | _ => None end in
  {| at_acquired := match field "acquired" with Some (JBool b) => b | _ => false end;
     at_waitTime := parseLuaNumber <$> field "waitTime";
     at_remainingTokens := parseLuaNumber <$> field "remainingTokens";
     at_error := match field "error" with Some (JStr e) => Some e | _ => None end |}.

Definition redis_acquireTokens (key : string) (cost : num) (config : TokenBucketConfig)
    (mark : option ClaimMark) : Script R AcquireTokensResult :=
  args ← markArgs key mark;
  let '(markKey, markTtl, hasMark) := args : string * num * bool in
  result ← tokenBucket key markKey (arg cost) (arg (maxTokens config)) (arg (tokensToAdd config))
             (arg (interval config)) (arg_or (int 86400) (int 86400)) (arg_or markTtl (int 0)) hasMark;
  mret (read_acquired result).

Definition redis_tryAdmitImmediately (queueKey bucketKey freezeKey : string) (cost : num)
    (config : TokenBucketConfig) (ttl : num) (mark : option ClaimMark) : Script R bool :=
  ttlSeconds ← script_of (normalizeStateTtlSeconds ttl);
  args ← markArgs bucketKey mark;
  let '(markKey, markTtl, hasMark) := args : string * num * bool in
  tryAdmitImmediately_script queueKey bucketKey freezeKey markKey (arg cost) (arg (maxTokens config))
    (arg (tokensToAdd config)) (arg (interval config)) (arg_or ttlSeconds (int 86400))
    (arg_or markTtl (int 0)) hasMark.

(** A [MULTI] of a [TIME] and an [HMGET], and the refill in JavaScript. *)
Definition redis_getTokenBucketState (key : string) (config : TokenBucketConfig)
    : Script R (num * num) :=
  h ← call_HGETALL now key;
  let currentTokens := parseFiniteStored (h !! "tokens") (maxTokens config) in
  let currentLastUpdate := parseFiniteStored (h !! "lastUpdate") now in
  let elapsed := now - currentLastUpdate in
  let '(currentTokens, currentLastUpdate) :=
    if (elapsed >? int 0) && (interval config >? int 0) then
      let intervalsElapsed := floor (elapsed / interval config) in
      if intervalsElapsed >? int 0 then
        (fmin (currentTokens + intervalsElapsed * tokensToAdd config) (maxTokens config),
         currentLastUpdate + intervalsElapsed * interval config)
      else (currentTokens, currentLastUpdate)
    else (currentTokens, currentLastUpdate) in
  mret (fmin currentTokens (maxTokens config), currentLastUpdate).

Definition redis_resetTokenBucket (key : string) (max : num) : Script R unit :=
  resetTokenBucket_script key (num_to_string max).

(** [wire]: a number as JSON can carry it, and as a script's [tonumber] reads it. *)
Definition wire (n : num) : json := if isFinite n then JNum n else JStr (num_to_string n).
Definition unwire (v : json) : option num :=
  match v with JNum n => Some n | JStr s => tonumber s | _ => None end.

(** An argument that is a [wire]d number is sent as its text. *)
Definition wire_text (n : num) : string :=
  match wire n with JNum n => num_to_string n | JStr s => s | _ => "" end.

Definition redis_emptyTokenBucket (key : string) (config : TokenBucketConfig) : Script R unit :=
  emptyTokenBucket_script key (tonumber (wire_text (maxTokens config)))
    (tonumber (wire_text (tokensToAdd config))) (tonumber (wire_text (interval config)))
    (arg_or (int 86400) (int 86400)).

(** [KeyIndex.of]: the position a key is sent at, and the keys with it. *)
Definition index_of (key : string) (keys : list string) : nat * list string :=
  match list_find (eq key) keys with
  | Some (i, _) => (S i, keys)
  | None => (S (length keys), keys ++ [key])
  end.

(** The specifications with the positions of their keys, and all the keys. *)
Fixpoint encode_settles (specs : list SettleSpec) (keys : list string)
    : list (nat * nat * SettleSpec) * list string :=
  match specs with
  | [] => ([], keys)
  | spec :: specs =>
      let '(k, keys) := index_of (ss_key spec) keys in
      let '(mk, keys) := index_of (claimMarkKey (ss_key spec) (ss_markId spec)) keys in
      let '(rest, keys) := encode_settles specs keys in
      ((k, mk, spec) :: rest, keys)
  end.

(** [KEYS[i]], whose first position is one. *)
Definition KEYS_at (keys : list string) (i : nat) : string := default "" (keys !! pred i).

Definition entry_of (keys : list string) (e : nat * nat * SettleSpec) : settle_entry :=
  let '(k, mk, spec) := e in
  {| se_key := KEYS_at keys k; se_markKey := KEYS_at keys mk;
     se_actual := unwire (wire (ss_actual spec));
     se_maxTokens := unwire (wire (maxTokens (ss_config spec)));
     se_tokensToAdd := unwire (wire (tokensToAdd (ss_config spec)));
     se_interval := unwire (wire (interval (ss_config spec)));
     se_maxDebt := unwire (wire (ss_maxDebt spec)) |}.

Definition redis_settleTokens (specs : list SettleSpec) : Script R (list SettleResult) :=
  match specs with
  | [] => mret []
  | _ =>
      let '(entries, keys) := encode_settles specs [] in
      replies ← scollect (entry_of keys <$> entries)
                  (settle_script_one (arg_or (int 86400) (int 86400)));
      mret (zip_with (fun spec d =>
        {| sr_key := ss_key spec; sr_settled := sd_settled d;
           sr_applied := parseLuaNumber (sd_applied d);
           sr_unapplied := parseLuaNumber (sd_unapplied d) |}) specs replies)
  end.

(** [EXPIRE], and whether there was a key to set it on. *)
Definition redis_touchClaimMark (bucketKey markId : string) (ttlSeconds : num) : Script R bool :=
  ttl ← script_of (normalizeStateTtlSeconds ttlSeconds);
  held ← call_EXISTS now (claimMarkKey bucketKey markId);
  call_EXPIRE now (claimMarkKey bucketKey markId) ttl ;;
  mret held.

Definition redis_refundTokens (key : string) (cost max : num) (freezeKey : option string)
    : Script R unit :=
  let named := match freezeKey with Some k => negb (bool_decide (k = "")) | None => false end in
  refundTokens_script key (if named then default "" freezeKey else key) (arg cost) (arg max) named.
End scripts.

(** * Slot ledgers on Redis

    The scripts of [packages/backend-redis/src/lua/concurrency.ts] and the
    operations of [ops/concurrency.ts] that run them.  A slot is a member of a
    sorted set, scored with the time it was claimed; its cost is a field of the
    hash beside it. *)

Section scripts.
Context {R : Type} `{RedisServer R} `{LuaRuntime}.
Variable t : clock.
Local Notation now := (ms t).

(** ** The scripts *)

(** The three refusals, in order. *)
Definition slot_refusal (maxConcurrency_ cost requestTtl_ : option num) : option string :=
  if negb (lua_usableConcurrency maxConcurrency_) then
    Some "maxConcurrency must be a finite number greater than 0"
  else if negb (lua_usableCost cost) then
    Some "cost must be a finite number that is not negative"
  else if negb (lua_usableRequestTtl requestTtl_) then
    Some "requestTtl must be a finite number greater than 0"
  else None.

Definition slot_refused (error : string) : json :=
  JObj [("acquired", JBool false); ("currentConcurrency", JNum (int 0)); ("error", JStr error)].
Definition slot_reply (acquired : bool) (currentCost : num) : json :=
  JObj [("acquired", JBool acquired); ("currentConcurrency", exact currentCost)].

(** The four writes of a slot that is granted. *)
Definition take_slot (key requestId : string) (cost keyTtl : num) : Script R unit :=
  call_ZADD now key now requestId ;;
  call_HSET now (key +:+ ":costs") [(requestId, fmt17 cost)] ;;
  call_EXPIRE now key keyTtl ;;
  call_EXPIRE now (key +:+ ":costs") keyTtl.

(** What both claims do once their arguments are usable; [queued] is what the
    queued one reads first. *)
Definition claim_slot_script (key requestId : string) (cost maxConcurrency_ requestTtl_ keyTtl : num)
    (queued : Script R bool) : Script R json :=
  currentCost ← slotAccounting now key requestId requestTtl_;
  open_ ← queued;
  if negb (open_ : bool) then mret (slot_reply false currentCost)
  else if currentCost + cost >? maxConcurrency_ then mret (slot_reply false currentCost)
  else take_slot key requestId cost keyTtl ;; mret (slot_reply true (currentCost + cost)).

Definition acquireConcurrency_script (key : string) (cost maxConcurrency_ : option num)
    (requestId : string) (requestTtl_ : option num) (keyTtl : num) : Script R json :=
  match slot_refusal maxConcurrency_ cost requestTtl_, cost, maxConcurrency_, requestTtl_ with
  | None, Some c, Some m, Some ttl => claim_slot_script key requestId c m ttl keyTtl (mret true)
  | Some error, _, _, _ => mret (slot_refused error)
  | None, _, _, _ => mret JNull  (* no refusal leaves none of them [nil] *)
  end.

Definition acquireQueuedConcurrency_script (key metadataKey : string) (cost maxConcurrency_ : option num)
    (requestId : string) (requestTtl_ : option num) (keyTtl : num) : Script R json :=
  match slot_refusal maxConcurrency_ cost requestTtl_, cost, maxConcurrency_, requestTtl_ with
  | None, Some c, Some m, Some ttl =>
      claim_slot_script key requestId c m ttl keyTtl
        (status ← call_HGET now metadataKey "status"; mret (bool_decide (status = Some "inProgress")))
  | Some error, _, _, _ => mret (slot_refused error)
  | None, _, _, _ => mret JNull
  end.

Definition releaseConcurrency_script (key requestId : string) : Script R unit :=
  call_ZREM now key [requestId] ;; call_HDEL now (key +:+ ":costs") requestId.

Definition touchConcurrency_script (key slotId : string) (keyTtl : num) : Script R bool :=
  score ← call_ZSCORE now key slotId;
  match score with
  | None => mret false
  | Some _ =>
      call_ZADD now key now slotId ;;
      call_EXPIRE now key keyTtl ;;
      costs ← call_EXISTS now (key +:+ ":costs");
      (if (costs : bool) then call_EXPIRE now (key +:+ ":costs") keyTtl else mret tt) ;;
      mret true
  end.

(** [finiteNumber(redis.call('HGET', costKey, member), 1)], summed. *)
Definition sum_costs (costKey : string) (members : list string) : Script R num :=
  sfold (fun total member =>
    cost ← call_HGET now costKey member; mret (total + finiteNumber cost (int 1))) (int 0) members.

(** The bound [.. expireTime] is written with 14 digits. *)
Definition getConcurrencyState_script (key : string) (requestTtl_ : option num) : Script R json :=
  match requestTtl_ ≫= fun ttl => tonumber (fmt14 (now - ttl)) with
  | None => lua_error "min or max is not a float"
  | Some cutoff =>
      members ← call_ZRANGE_above now key cutoff;
      totalCost ← sum_costs (key +:+ ":costs") members;
      mret (JObj [("currentConcurrency", exact totalCost); ("activeRequests", JArr (JStr <$> members))])
  end.

Definition tryAdmitConcurrency_script (queueKey key freezeKey : string) (cost maxConcurrency_ : option num)
    (requestId : string) (requestTtl_ : option num) (keyTtl : num) : Script R bool :=
  match slot_refusal maxConcurrency_ cost requestTtl_, cost, maxConcurrency_, requestTtl_ with
  | None, Some c, Some m, Some ttl =>
      empty ← queueEmptyGate now queueKey;
      if negb empty then mret false
      else
        thawed ← freezeGate now freezeKey;
        if negb thawed then mret false
        else
          currentCost ← slotAccounting now key requestId ttl;
          if currentCost + c >? m then mret false
          else take_slot key requestId c keyTtl ;; mret true
  | _, _, _, _ => mret false
  end.

(** ** The operations *)

Definition reply_field (v : json) (k : string) : option json :=
  match v with JObj l => omap_get k l | _ => None end.

(** [readConcurrency], at the type of a claim's reply. *)
Definition readConcurrency (v : json) : AcquireConcurrencyResult :=
  {| ac_acquired := match reply_field v "acquired" with Some (JBool b) => b | _ => false end;
     ac_currentConcurrency := match reply_field v "currentConcurrency" with
                              | Some n => parseLuaNumber n | None => NaN end;
     ac_error := match reply_field v "error" with Some (JStr e) => Some e | _ => None end |}.

Definition redis_tryAdmitConcurrency (queueKey concurrencyKey freezeKey : string) (cost : num)
    (requestId : string) (config : ConcurrencyConfig) (ttl : num) : Script R bool :=
  ttlSeconds ← script_of (normalizeStateTtlSeconds ttl);
  tryAdmitConcurrency_script queueKey concurrencyKey freezeKey (arg cost) (arg (maxConcurrency config))
    requestId (arg (requestTtl config)) (arg_or ttlSeconds (int 86400)).

Definition redis_acquireConcurrency (key : string) (cost : num) (requestId : string)
    (config : ConcurrencyConfig) : Script R AcquireConcurrencyResult :=
  result ← acquireConcurrency_script key (arg cost) (arg (maxConcurrency config)) requestId
             (arg (requestTtl config)) (arg_or (int 86400) (int 86400));
  mret (readConcurrency result).

Definition redis_acquireQueuedConcurrency (key metadataKey : string) (cost : num) (requestId : string)
    (config : ConcurrencyConfig) : Script R AcquireConcurrencyResult :=
  result ← acquireQueuedConcurrency_script key metadataKey (arg cost) (arg (maxConcurrency config))
             requestId (arg (requestTtl config)) (arg_or (int 86400) (int 86400));
  mret (readConcurrency result).

Definition redis_releaseConcurrency (key requestId : string) : Script R unit :=
  releaseConcurrency_script key requestId.

Definition redis_touchConcurrency (key slotId : string) (ttlSeconds : num) : Script R bool :=
  ttl ← script_of (normalizeStateTtlSeconds ttlSeconds);
  touchConcurrency_script key slotId (arg_or ttl (int 0)).

Definition redis_getConcurrencyState (key : string) (requestTtl_ : num) : Script R (num * list string) :=
  if negb (isFinite requestTtl_) then
    script_of (Throw (RangeError ("requestTtl must be a finite number, received " +:+ num_to_string requestTtl_)))
  else
    result ← getConcurrencyState_script key (arg requestTtl_);
    mret (match reply_field result "currentConcurrency" with Some n => parseLuaNumber n | None => NaN end,
          match reply_field result "activeRequests" with
          | Some (JArr l) => omap (fun v => match v with JStr s => Some s | _ => None end) l
          | _ => []
          end).

Definition redis_clearConcurrency (key : string) : Script R unit :=
  call_DEL now key ;; call_DEL now (key +:+ ":costs").
End scripts.
