(* ===== verification/RedisMulti.v ===== *)
(** * Claims across several budgets on Redis

    The scripts of [packages/backend-redis/src/lua/multiLimit.ts] and the
    operations of [ops/multiLimit.ts].  A script's specifications address their
    keys by position in [KEYS] and carry their numbers as [wire] sends them. *)
From S2P Require Import Prelude JsNumber JsString Json Shared MemoryStore TokenBucket Concurrency MultiLimit.
From S2P Require Import Queue Freeze Backend RateLimit Cost Client RedisServer RedisBucket.
Local Open Scope num_scope.

(** One decoded specification: the two kinds carry different fields. *)
Record bucket_payload := {
  bp_maxTokens : json;
  bp_tokensToAdd : json;
  bp_interval : json;
  bp_mark : option (nat * num)  (** [mk] and [mt] *)
}.
Record slot_payload := {
  sp_maxConcurrency : json;
  sp_requestTtl : json;
  sp_slotId : string
}.
Record SpecPayload := {
  k_ : nat;
  c_ : json;
  fk_ : option nat;
  kind_ : bucket_payload + slot_payload
}.

(** What the check phase adds to its plan. *)
Record planned_bucket := {
  rb_key : string;
  rb_state : BucketState;
  rb_cost : num;
  rb_ttl : num;
  rb_mark : option (nat * num)
}.

Record redis_plan := {
  rp_acquired : bool;
  rp_error : option string;
  rp_waitTime : option num;
  rp_blockedBy : option string;
  rp_buckets : list planned_bucket;
  rp_slots : list PlannedSlot
}.

Definition rp_empty : redis_plan :=
  {| rp_acquired := true; rp_error := None; rp_waitTime := None; rp_blockedBy := None;
     rp_buckets := []; rp_slots := [] |}.

(** An error is returned in place of the plan. *)
Definition rp_fail (error : string) : redis_plan :=
  {| rp_acquired := false; rp_error := Some error; rp_waitTime := None; rp_blockedBy := None;
     rp_buckets := []; rp_slots := [] |}.

Definition rp_add_bucket (b : planned_bucket) (p : redis_plan) : redis_plan :=
  {| rp_acquired := rp_acquired p; rp_error := rp_error p; rp_waitTime := rp_waitTime p;
     rp_blockedBy := rp_blockedBy p; rp_buckets := rp_buckets p ++ [b]; rp_slots := rp_slots p |}.
Definition rp_add_slot (x : PlannedSlot) (p : redis_plan) : redis_plan :=
  {| rp_acquired := rp_acquired p; rp_error := rp_error p; rp_waitTime := rp_waitTime p;
     rp_blockedBy := rp_blockedBy p; rp_buckets := rp_buckets p; rp_slots := rp_slots p ++ [x] |}.
Definition rp_decline_bucket (key : string) (wait : num) (p : redis_plan) : redis_plan :=
  let longer := match rp_waitTime p with None => true | Some x => wait >? x end in
  {| rp_acquired := false; rp_error := rp_error p;
     rp_waitTime := if longer then Some wait else rp_waitTime p;
     rp_blockedBy := if longer then Some key else rp_blockedBy p;
     rp_buckets := rp_buckets p; rp_slots := rp_slots p |}.
Definition rp_decline_slot (key : string) (p : redis_plan) : redis_plan :=
  {| rp_acquired := false; rp_error := rp_error p; rp_waitTime := rp_waitTime p;
     rp_blockedBy := match rp_blockedBy p with None => Some key | b => b end;
     rp_buckets := rp_buckets p; rp_slots := rp_slots p |}.

Section scripts.
Context {R : Type} `{RedisServer R} `{LuaRuntime}.
Variable t : clock.
Local Notation now := (ms t).

(** ** The scripts *)

(** The four refusals of a budget, in order. *)
Definition bucket_refusal (cost maxTokens_ tokensToAdd_ interval_ : option num) : option string :=
  if negb (positive_budget tokensToAdd_) then Some "tokensToAdd must be greater than 0"
  else if bad_max maxTokens_ then Some "maxTokens must be a finite number greater than 0"
  else if negb (lua_usableCost cost) then Some "cost must be a finite number that is not negative"
  else if bad_interval interval_ then Some "interval must be a finite number"
  else None.

Definition plan_bucket (key : string) (cost : option num) (b : bucket_payload) (ttl : num) (p : redis_plan)
    : Script R redis_plan :=
  let m := unwire (bp_maxTokens b) in
  let a := unwire (bp_tokensToAdd b) in
  let i := unwire (bp_interval b) in
  match bucket_refusal cost m a i, cost, m, a, i with
  | Some error, _, _, _, _ => mret (rp_fail error)
  | None, Some cost, Some maxTokens_, Some tokensToAdd_, Some interval_ =>
      st ← read_bucket now key maxTokens_;
      let st := lazyRefill now maxTokens_ tokensToAdd_ interval_ st in
      let p := rp_add_bucket {| rb_key := key; rb_state := st; rb_cost := cost;
                                rb_ttl := lua_bucketTtl ttl maxTokens_ tokensToAdd_ interval_;
                                rb_mark := bp_mark b |} p in
      if lua_covers (tokens st) cost maxTokens_ then mret p
      else
        let intervalsNeeded := ceil ((cost - tokens st) / tokensToAdd_) in
        let wait := intervalsNeeded * interval_ - (now - lastUpdate st) in
        let wait := if wait <? int 0 then int 0 else wait in
        mret (rp_decline_bucket key wait p)
  | None, _, _, _, _ => mret p  (* no refusal leaves none of them [nil] *)
  end.

Definition plan_slot (key : string) (cost : option num) (b : slot_payload) (p : redis_plan)
    : Script R redis_plan :=
  let m := unwire (sp_maxConcurrency b) in
  let ttl := unwire (sp_requestTtl b) in
  match slot_refusal m cost ttl, cost, m, ttl with
  | Some error, _, _, _ => mret (rp_fail error)
  | None, Some cost, Some maxConcurrency_, Some requestTtl_ =>
      currentCost ← slotAccounting now key (sp_slotId b) requestTtl_;
      if currentCost + cost >? maxConcurrency_ then mret (rp_decline_slot key p)
      else mret (rp_add_slot {| ps_key := key; ps_slotId := sp_slotId b; ps_cost := cost |} p)
  | None, _, _, _ => mret p
  end.

Definition plan_spec (keys : list string) (ttl : num) (p : redis_plan) (spec : SpecPayload)
    : Script R redis_plan :=
  let key := KEYS_at keys (k_ spec) in
  let cost := unwire (c_ spec) in
  match kind_ spec with
  | inl b => plan_bucket key cost b ttl p
  | inr b => plan_slot key cost b p
  end.

(** The loop, which an error leaves. *)
Fixpoint planMultiLimit_script (keys : list string) (ttl : num) (p : redis_plan)
    (specs : list SpecPayload) : Script R redis_plan :=
  match specs with
  | [] => mret p
  | spec :: specs =>
      p ← plan_spec keys ttl p spec;
      match rp_error p with
      | Some _ => mret p
      | None => planMultiLimit_script keys ttl p specs
      end
  end.

Definition commitMultiLimit (keys : list string) (p : redis_plan) (ttl : num) : Script R unit :=
  sforeach (rp_buckets p) (fun b =>
    call_HSET now (rb_key b) (bucket_kvs (with_tokens (tokens (rb_state b) - rb_cost b) (rb_state b))) ;;
    call_EXPIRE now (rb_key b) (rb_ttl b) ;;
    match rb_mark b with
    | Some (mk, mt) =>
        lua_writeMark now (micros t) (KEYS_at keys mk) mt (rb_cost b) (rb_state b) (rb_key b)
    | None => mret tt
    end) ;;
  sforeach (rp_slots p) (fun x => take_slot t (ps_key x) (ps_slotId x) (ps_cost x) ttl).

Definition persistRefills_script (p : redis_plan) : Script R unit :=
  sforeach (rp_buckets p) (fun b =>
    call_HSET now (rb_key b) (bucket_kvs (rb_state b)) ;; call_EXPIRE now (rb_key b) (rb_ttl b)).

Definition acquireMultiLimit_script (keys : list string) (specs : list SpecPayload) (ttl : num)
    : Script R json :=
  plan ← planMultiLimit_script keys ttl rp_empty specs;
  match rp_error plan with
  | Some error => mret (JObj [("acquired", JBool false); ("error", JStr error)])
  | None =>
      if negb (rp_acquired plan) then
        persistRefills_script plan ;;
        mret (JObj ([("acquired", JBool false); ("waitTime", exact (default (int 0) (rp_waitTime plan)))]
                    ++ match rp_blockedBy plan with Some k => [("blockedBy", JStr k)] | None => [] end))
      else
        commitMultiLimit keys plan ttl ;; mret (JObj [("acquired", JBool true)])
  end.

(** The freezes that govern the budgets, until the first that stands. *)
Fixpoint freezes_let_through (keys : list string) (indices : list nat) : Script R bool :=
  match indices with
  | [] => mret true
  | i :: indices =>
      through ← freezeGate now (KEYS_at keys i);
      if (through : bool) then freezes_let_through keys indices else mret false
  end.

Definition tryAdmitMultiLimit_script (keys : list string) (freezeKeys : list nat)
    (specs : list SpecPayload) (ttl : num) : Script R bool :=
  empty ← queueEmptyGate now (KEYS_at keys 1);
  if negb empty then mret false
  else
    through ← freezes_let_through keys freezeKeys;
    if negb through then mret false
    else
      plan ← planMultiLimit_script keys ttl rp_empty specs;
      match rp_error plan with
      | Some _ => mret false
      | None =>
          if negb (rp_acquired plan) then persistRefills_script plan ;; mret false
          else commitMultiLimit keys plan ttl ;; mret true
      end.

Definition release_spec (keys : list string) (spec : SpecPayload) : Script R unit :=
  let key := KEYS_at keys (k_ spec) in
  match kind_ spec with
  | inr b => call_ZREM now key [sp_slotId b] ;; call_HDEL now (key +:+ ":costs") (sp_slotId b)
  | inl b =>
      match unwire (c_ spec) with
      | Some cost =>
          if lua_usableCost (Some cost) then
            frozen ← (match fk_ spec with
                      | Some fk => freeze ← call_HGETALL now (KEYS_at keys fk); mret (emptied_freeze t freeze)
                      | None => mret false
                      end);
            if (frozen : bool) then mret tt
            else
              raw ← call_HGET now key "tokens";
              match raw with
              | None => mret tt
              | Some _ =>
                  match unwire (bp_maxTokens b) with
                  | Some m =>
                      call_HSET now key [("tokens", fmt17 (lua_min m (finiteNumber raw (int 0) + cost)))]
                  | None => lua_error "bad argument #1 to 'min' (number expected, got nil)"
                  end
              end
          else mret tt
      | None => mret tt
      end
  end.

Definition releaseMultiLimit_script (keys : list string) (specs : list SpecPayload) : Script R unit :=
  sforeach specs (release_spec keys).

(** ** The operations *)

(** [encodeSpecs]: what is sent of a specification, and the keys with it. *)
Definition encode_spec (includeFreezeKeys includeMarks : bool) (spec : MultiLimitSpec) (keys : list string)
    : result (SpecPayload * list string) :=
  let freeze_index fk keys :=
    match fk with
    | Some f => if includeFreezeKeys && negb (bool_decide (f = ""))
                then let '(i, keys) := index_of f keys in (Some i, keys) else (None, keys)
    | None => (None, keys)
    end in
  match spec with
  | TokenBucketSpec fk cost key config mark =>
      let '(k, keys) := index_of key keys in
      let '(fki, keys) := freeze_index fk keys in
      let payload mk := {| k_ := k; c_ := wire cost; fk_ := fki;
        kind_ := inl {| bp_maxTokens := wire (maxTokens config); bp_tokensToAdd := wire (tokensToAdd config);
                        bp_interval := wire (interval config); bp_mark := mk |} |} in
      match (if includeMarks then mark else None) with
      | Some m =>
          let '(mk, keys) := index_of (claimMarkKey key (mark_id m)) keys in
          rbind (normalizeStateTtlSeconds (mark_ttlSeconds m)) (fun mt => Ok (payload (Some (mk, mt)), keys))
      | None => Ok (payload None, keys)
      end
  | ConcurrencySpec fk cost key config slotId =>
      let '(k, keys) := index_of key keys in
      let '(fki, keys) := freeze_index fk keys in
      Ok ({| k_ := k; c_ := wire cost; fk_ := fki;
             kind_ := inr {| sp_maxConcurrency := wire (maxConcurrency config);
                             sp_requestTtl := wire (requestTtl config); sp_slotId := slotId |} |}, keys)
  end.

Fixpoint encodeSpecs (includeFreezeKeys includeMarks : bool) (specs : list MultiLimitSpec) (keys : list string)
    : result (list SpecPayload * list string) :=
  match specs with
  | [] => Ok ([], keys)
  | spec :: specs =>
      rbind (encode_spec includeFreezeKeys includeMarks spec keys) (fun '(p, keys) =>
      rbind (encodeSpecs includeFreezeKeys includeMarks specs keys) (fun '(ps, keys) => Ok (p :: ps, keys)))
  end.

Definition redis_acquireMultiLimit (specs : list MultiLimitSpec) : Script R AcquireMultiLimitResult :=
  encoded ← script_of (encodeSpecs false true specs []);
  let '(payload, keys) := encoded : list SpecPayload * list string in
  v ← acquireMultiLimit_script keys payload (arg_or (int 86400) (int 86400));
  mret {| am_acquired := match reply_field v "acquired" with Some (JBool b) => b | _ => false end;
          am_waitTime := parseLuaNumber <$> reply_field v "waitTime";
          am_error := match reply_field v "error" with Some (JStr e) => Some e | _ => None end;
          am_blockedBy := match reply_field v "blockedBy" with Some (JStr k) => Some k | _ => None end |}.

Definition redis_releaseMultiLimit (specs : list MultiLimitSpec) : Script R unit :=
  match specs with
  | [] => mret tt
  | _ =>
      encoded ← script_of (encodeSpecs true false specs []);
      let '(payload, keys) := encoded : list SpecPayload * list string in
      releaseMultiLimit_script keys payload
  end.

(** [freezeKeys.map((key) => index.of(key))]. *)
Fixpoint index_all (freezeKeys keys : list string) : list nat * list string :=
  match freezeKeys with
  | [] => ([], keys)
  | k :: freezeKeys =>
      let '(i, keys) := index_of k keys in
      let '(is_, keys) := index_all freezeKeys keys in (i :: is_, keys)
  end.

Definition redis_tryAdmitMultiLimit (queueKey : string) (freezeKeys : list string)
    (specs : list MultiLimitSpec) (ttl : num) : Script R bool :=
  ttlSeconds ← script_of (normalizeStateTtlSeconds ttl);
  let '(freezeIndices, keys) := index_all freezeKeys [queueKey] in
  encoded ← script_of (encodeSpecs false true specs keys);
  let '(payload, keys) := encoded : list SpecPayload * list string in
  tryAdmitMultiLimit_script keys freezeIndices payload (arg_or ttlSeconds (int 86400)).
End scripts.
