(* ===== verification/RedisQueue.v ===== *)
(** * The request queue on Redis

    The scripts of [packages/backend-redis/src/lua/queue.ts], the operations of
    [ops/queue.ts] that run them and the codec of [requestCodec.ts].  An id list
    that is sent as JSON is the list it is decoded back to, and so is a reply. *)
From S2P Require Import Prelude JsNumber JsString Json Shared MemoryStore TokenBucket Concurrency.
From S2P Require Import Queue Freeze Backend RateLimit Cost Client RedisServer RedisBucket.
Local Open Scope num_scope.

(** ** requestCodec.ts *)

(** [HGETALL]'s flat array. *)
Definition flat_hash (h : gmap string string) : list string :=
  flat_map (fun kv => [kv.1; kv.2]) (map_to_list h).

Fixpoint flat_pairs (arr : list string) (metadata : gmap string string) : option (gmap string string) :=
  match arr with
  | [] => Some metadata
  | [_] => None
  | k :: v :: arr => flat_pairs arr (<[k := v]> metadata)
  end.

Definition decodeFlatHash (arr : list string) : option (gmap string string) :=
  match arr with [] => None | _ => flat_pairs arr ∅ end.

Definition decodeRequest (metadata : option (gmap string string)) : option QueuedRequest :=
  match metadata with
  | None => None
  | Some m =>
      if negb (non_empty (m !! "requestId")) || negb (non_empty (m !! "clientName"))
         || bool_decide (m !! "requestName" = None) || negb (non_empty (m !! "status")) then None
      else
        let claimedAt := parseStoredNumber (m !! "claimedAt") NaN in
        let whole f := num_or (match m !! f with Some s => parseInt s | None => NaN end) (int 0) in
        Some {| q_requestId := default "" (m !! "requestId");
                q_clientName := default "" (m !! "clientName");
                q_requestName := default "" (m !! "requestName");
                q_status := default "" (m !! "status");
                q_priority := parsePriority (m !! "priority");
                q_cost := parseStoredCost (m !! "cost");
                q_retries := whole "retries";
                q_timestamp := whole "timestamp";
                q_grantId := if non_empty (m !! "grantId") then m !! "grantId" else None;
                q_isThawRequest := bool_decide (m !! "isThawRequest" = Some "true");
                q_settles := bool_decide (m !! "settles" = Some "true");
                q_ownerId := default "" (m !! "ownerId");
                q_claimedAt := if isFinite claimedAt then Some claimedAt else None |}
  end.

(** The pairs of the [HSET] argument list. *)
Definition encodeRequestFields (request : QueuedRequest) : list (string * string) :=
  [("requestId", q_requestId request);
   ("clientName", q_clientName request);
   ("requestName", q_requestName request);
   ("status", q_status request);
   ("priority", num_to_string (q_priority request));
   ("cost", formatStoredCost (q_cost request));
   ("retries", num_to_string (q_retries request));
   ("timestamp", num_to_string (q_timestamp request));
   ("grantId", default "" (q_grantId request));
   ("isThawRequest", if q_isThawRequest request then "true" else "false");
   ("ownerId", q_ownerId request)]
  ++ (if q_settles request then [("settles", "true")] else []).

(** [string.match(raw, '^%s*{')]. *)
Definition lua_space (c : ascii) : bool :=
  match c with
  | " "%char | "009"%char | "010"%char | "011"%char | "012"%char | "013"%char => true
  | _ => false
  end.
Fixpoint opens_brace (s : string) : bool :=
  match s with
  | EmptyString => false
  | String c s' => if lua_space c then opens_brace s' else bool_decide (c = "{"%char)
  end.

(** [score], of what the script's three [tonumber]s read. *)
Definition lua_or (n : option num) (d : num) : num :=
  match n with Some n => if isNaN n then d else n | None => d end.
Definition lua_clamp (n lo hi : num) : num :=
  let n := if n <? lo then lo else n in if n >? hi then hi else n.
Definition lua_rescore (priority retries timestamp : option num) : num :=
  let priority := lua_clamp (lua_or priority (int 1)) (int 0) MAX_QUEUE_PRIORITY in
  let retries := lua_clamp (lua_or retries (int 0)) (int 0) MAX_QUEUE_RETRIES in
  let timestamp := lua_or timestamp (int 0) in
  let arrival := lua_clamp (timestamp - QUEUE_SCORE_EPOCH_MS) (int 0) (QUEUE_RETRY_BAND - int 1) in
  (MAX_QUEUE_PRIORITY - priority) * QUEUE_PRIORITY_BAND
  + (MAX_QUEUE_RETRIES - retries) * QUEUE_RETRY_BAND
  + arrival.

Section scripts.
Context {R : Type} `{RedisServer R} `{LuaRuntime}.
Variable t : clock.
Local Notation now := (ms t).

(** ** The scripts *)

(** A score and a lifetime as [ZADD], [EXPIRE] and [SET] take them. *)
Definition float_arg (n : option num) : Script R num :=
  match n with
  | Some n => if isNaN n then lua_error "ERR value is not a valid float" else mret n
  | None => lua_error "ERR value is not a valid float"
  end.
Definition integer_arg (n : option num) : Script R num :=
  match n with
  | Some n => mret n
  | None => lua_error "ERR value is not an integer or out of range"
  end.

Definition addRequest_script (queueKey metadataKey tombstone requestId : string) (score ttl : option num)
    (fields : list (string * string)) : Script R bool :=
  removed ← call_EXISTS now tombstone;
  if (removed : bool) then mret false
  else
    known ← call_EXISTS now metadataKey;
    if (known : bool) then mret false
    else
      s ← float_arg score; call_ZADD now queueKey s requestId ;;
      call_HSET now metadataKey fields ;;
      x ← integer_arg ttl; call_EXPIRE now queueKey x ;; call_EXPIRE now metadataKey x ;;
      mret true.

Definition removeRequest_script (queueKey metadataKey tombstone requestId : string)
    (tombstoneTtl : option num) : Script R string :=
  isThawRequest ← call_HGET now metadataKey "isThawRequest";
  call_ZREM now queueKey [requestId] ;;
  call_DEL now metadataKey ;;
  x ← integer_arg tombstoneTtl; call_SET now tombstone "1" (Some x) ;;
  mret (default "false" isThawRequest).

(** Whether the claim loop takes an entry, on what it reads of it. *)
Definition lua_claimable (status claimedAt : option string) : bool :=
  bool_decide (status = Some "pending")
  || (bool_decide (status = Some "inProgress") && lua_claimLapsed now claimedAt).

Definition lua_decodable (fields : gmap string string) : bool :=
  non_empty (fields !! "requestId") && non_empty (fields !! "clientName")
  && bool_decide (is_Some (fields !! "requestName")).

Definition lua_takes (entry : gmap string string) (skipGrantIds : list string) : bool :=
  let grantId := default "" (entry !! "grantId") in
  lua_decodable entry && (bool_decide (grantId = "") || negb (bool_decide (grantId ∈ skipGrantIds))).

Definition claim_entry (entryKey : string) (status : option string) : Script R (gmap string string) :=
  (if bool_decide (status = Some "pending") then mret tt
   else call_HSET now entryKey [("isThawRequest", "false")]) ;;
  call_HSET now entryKey [("status", "inProgress"); ("claimedAt", num_to_string now)] ;;
  call_HGETALL now entryKey.

Fixpoint next_of (ids : list string) (metadataKey : string) (skipGrantIds skipRequestIds : list string)
    : Script R (option (list string)) :=
  match ids with
  | [] => mret None
  | requestId :: ids =>
      let entryKey := metadata_key metadataKey requestId in
      entry ← call_HGETALL now entryKey;
      if lua_claimable (entry !! "status") (entry !! "claimedAt")
         && negb (bool_decide (requestId ∈ skipRequestIds)) && lua_takes entry skipGrantIds then
        claimed ← claim_entry entryKey (entry !! "status");
        mret (Some (flat_hash claimed))
      else next_of ids metadataKey skipGrantIds skipRequestIds
  end.

Definition getNextRequest_script (queueKey metadataKey : string)
    (skipGrantIds skipRequestIds : list string) : Script R (option (list string)) :=
  allRequests ← call_ZRANGE now queueKey;
  next_of allRequests metadataKey skipGrantIds skipRequestIds.

Definition confirmRequest_script (metadataKey claimedAt : string) : Script R bool :=
  fields ← call_HGETALL now metadataKey;
  if negb (bool_decide (fields !! "status" = Some "inProgress")) then mret false
  else
    match fields !! "claimedAt" ≫= tonumber, tonumber claimedAt with
    | Some stored, Some stamp =>
        if negb (stored =? stamp) then mret false
        else if lua_claimLapsed now (fields !! "claimedAt") then mret false
        else call_HDEL now metadataKey "claimedAt" ;; mret true
    | _, _ => mret false
    end.

Definition set_some (key field : string) (v : option string) : Script R unit :=
  match v with Some s => call_HSET now key [(field, s)] | None => mret tt end.

(** [updates] after the trip through JSON: what is not finite is [null], which
    is not a number. *)
Definition updateRequest_script (queueKey metadataKey : string) (updates : RequestUpdates) : Script R bool :=
  known ← call_EXISTS now metadataKey;
  if negb known then mret false
  else
    let retries := finite_update (u_retries updates) in
    let priority := finite_update (u_priority updates) in
    let needsScoreUpdate := bool_decide (is_Some retries) || bool_decide (is_Some priority) in
    requestId ← (if needsScoreUpdate then call_HGET now metadataKey "requestId" else mret None);
    if needsScoreUpdate && bool_decide (requestId = None) then mret false
    else
      match u_status updates with
      | Some status =>
          call_HSET now metadataKey [("status", status)] ;; call_HDEL now metadataKey "claimedAt"
      | None => mret tt
      end ;;
      set_some metadataKey "retries" (fmt14 <$> retries) ;;
      set_some metadataKey "priority" (fmt14 <$> priority) ;;
      set_some metadataKey "isThawRequest"
        ((fun b : bool => if b then "true" else "false") <$> u_isThawRequest updates) ;;
      match requestId with
      | Some requestId =>
          p ← call_HGET now metadataKey "priority";
          r ← call_HGET now metadataKey "retries";
          ts ← call_HGET now metadataKey "timestamp";
          call_ZADD now queueKey (lua_rescore (p ≫= tonumber) (r ≫= tonumber) (ts ≫= tonumber)) requestId ;;
          mret true
      | None => mret true
      end.

(** The amounts of a per-limit cost; the order of [costByLimit] is the table's,
    which Lua does not fix. *)
Definition lua_add_cost (raw : option string) (totals : num * list (string * num))
    : num * list (string * num) :=
  let '(total, by_limit) := totals in
  if match raw with Some r => opens_brace r | None => false end then
    match raw ≫= cjson_decode with
    | Some (JObj l) =>
        (total,
         fold_left (fun acc (e : string * json) =>
           match e.2 with
           | JNum amount =>
               if isFinite amount
               then omap_set e.1 (default (int 0) (omap_get e.1 acc) + amount) acc else acc
           | _ => acc
           end) l by_limit)
    | _ => totals
    end
  else (total + finiteNumber raw (int 1), by_limit).

Definition lua_stats_step (metadataKeyPrefix : string) (s : QueueStats) (requestId : string)
    : Script R QueueStats :=
  fields ← call_HGETALL now (metadata_key metadataKeyPrefix requestId);
  let status := fields !! "status" in
  if negb (non_empty status) then mret s
  else
    let '(total, by_limit) := lua_add_cost (fields !! "cost") (qs_totalCost s, qs_costByLimit s) in
    mret {| qs_pending := if decide (status = Some "pending") then qs_pending s + int 1 else qs_pending s;
            qs_inProgress := if decide (status = Some "inProgress") then qs_inProgress s + int 1
                             else qs_inProgress s;
            qs_totalCost := total; qs_costByLimit := by_limit |}.

(** The two counts, and the sums as [exact] strings. *)
Definition getQueueStats_script (queueKey metadataKeyPrefix : string)
    : Script R (num * num * json * list (string * json)) :=
  requestIds ← call_ZRANGE now queueKey;
  s ← sfold (lua_stats_step metadataKeyPrefix)
        {| qs_pending := int 0; qs_inProgress := int 0; qs_totalCost := int 0; qs_costByLimit := [] |}
        requestIds;
  mret (qs_pending s, qs_inProgress s, exact (qs_totalCost s),
        (fun e : string * num => (e.1, exact e.2)) <$> qs_costByLimit s).

Definition getAllRequests_script (queueKey metadataKeyPrefix : string) : Script R (list (list string)) :=
  requestIds ← call_ZRANGE now queueKey;
  sfold (fun requests requestId =>
    metadata ← call_HGETALL now (metadata_key metadataKeyPrefix requestId);
    mret (match flat_hash metadata with [] => requests | arr => requests ++ [arr] end)) [] requestIds.

Definition lua_cleanup_step (queueKey metadataKeyPrefix : string) (aliveIds : list string)
    (cleanedUp : num) (requestId : string) : Script R num :=
  let metadataKey := metadata_key metadataKeyPrefix requestId in
  ownerId ← call_HGET now metadataKey "ownerId";
  match ownerId with
  | None => call_ZREM now queueKey [requestId] ;; mret (cleanedUp + int 1)
  | Some owner =>
      if bool_decide (owner = "") || negb (bool_decide (owner ∈ aliveIds)) then
        call_ZREM now queueKey [requestId] ;;
        call_DEL now metadataKey ;;
        mret (cleanedUp + int 1)
      else mret cleanedUp
  end.

Definition cleanupOrphanedRequests_script (queueKey metadataKeyPrefix : string) (aliveIds : list string)
    (currentInstanceId : string) : Script R num :=
  if negb (bool_decide (currentInstanceId ∈ aliveIds)) then mret (int 0)
  else
    requestIds ← call_ZRANGE now queueKey;
    sfold (lua_cleanup_step queueKey metadataKeyPrefix aliveIds) (int 0) requestIds.

(** ** The operations *)

Definition redis_addRequest (queueKey metadataKeyPrefix : string) (request : QueuedRequest) (ttl : num)
    : Script R bool :=
  score ← script_of (calculateQueueScore (q_priority request) (q_retries request) (q_timestamp request));
  ttlSeconds ← script_of (normalizeStateTtlSeconds ttl);
  addRequest_script queueKey (metadata_key metadataKeyPrefix (q_requestId request))
    (tombstoneKey metadataKeyPrefix (q_requestId request)) (q_requestId request)
    (arg score) (arg ttlSeconds) (encodeRequestFields request).

Definition redis_getQueueLength (queueKey : string) : Script R nat := call_ZCARD now queueKey.

Definition redis_getNextRequest (queueKey metadataKeyPrefix : string)
    (skipGrantIds skipRequestIds : list string) : Script R (option QueuedRequest) :=
  result ← getNextRequest_script queueKey metadataKeyPrefix skipGrantIds skipRequestIds;
  mret (arr ← result; decodeRequest (decodeFlatHash arr)).

Definition redis_confirmRequest (metadataKeyPrefix requestId : string) (claimedAt : num) : Script R bool :=
  confirmRequest_script (metadata_key metadataKeyPrefix requestId) (num_to_string claimedAt).

(** [hgetall] of an absent key is an object with no field. *)
Definition redis_getRequest (metadataKeyPrefix requestId : string) : Script R (option QueuedRequest) :=
  h ← call_HGETALL now (metadata_key metadataKeyPrefix requestId);
  mret (decodeRequest (Some h)).

Definition no_update (updates : RequestUpdates) : bool :=
  bool_decide (u_status updates = None) && negb (bool_decide (is_Some (u_retries updates)))
  && negb (bool_decide (is_Some (u_priority updates))) && bool_decide (u_isThawRequest updates = None).

Definition redis_updateRequest (queueKey metadataKeyPrefix requestId : string) (updates : RequestUpdates)
    : Script R unit :=
  if no_update updates then mret tt
  else updateRequest_script queueKey (metadata_key metadataKeyPrefix requestId) updates ;; mret tt.

Definition redis_removeRequest (queueKey metadataKeyPrefix requestId : string) (tombstoneTtlSeconds : num)
    : Script R bool :=
  result ← removeRequest_script queueKey (metadata_key metadataKeyPrefix requestId)
             (tombstoneKey metadataKeyPrefix requestId) requestId
             (arg (normalizeTombstoneTtl tombstoneTtlSeconds));
  mret (bool_decide (result = "true")).

Definition redis_getQueueStats (queueKey metadataKeyPrefix : string) : Script R QueueStats :=
  result ← getQueueStats_script queueKey metadataKeyPrefix;
  let '(pending, inProgress, totalCost, costByLimit) := result : num * num * json * list (string * json) in
  mret {| qs_pending := pending; qs_inProgress := inProgress; qs_totalCost := parseLuaNumber totalCost;
          qs_costByLimit := (fun e : string * json => (e.1, parseLuaNumber e.2)) <$> costByLimit |}.

Definition redis_getAllRequests (queueKey metadataKeyPrefix : string) : Script R (list QueuedRequest) :=
  rawRequests ← getAllRequests_script queueKey metadataKeyPrefix;
  mret (omap (fun arr => decodeRequest (decodeFlatHash arr)) rawRequests).

Definition redis_cleanupOrphanedRequests (queueKey metadataKeyPrefix : string)
    (aliveInstanceIds : list string) (currentInstanceId : string) : Script R num :=
  cleanupOrphanedRequests_script queueKey metadataKeyPrefix aliveInstanceIds currentInstanceId.
End scripts.
