(* ===== verification/RedisFreeze.v ===== *)
(** * Freezes, thaw probes and instances on Redis

    The scripts of [packages/backend-redis/src/lua/freeze.ts] and
    [lua/instances.ts], and the operations of [ops/freeze.ts] and
    [ops/instances.ts] that run them.  A key is named as ioredis sends it;
    where a key's prefix travels in [ARGV], the operation adds the connection's
    [keyPrefix] itself. *)
From S2P Require Import Prelude JsNumber JsString Json Shared MemoryStore TokenBucket Concurrency.
From S2P Require Import Queue Freeze Backend RateLimit Cost Client RedisServer RedisBucket.
Local Open Scope num_scope.

(** ['%d'] of a number of C's integer range. *)
Definition fmt_d (n : num) : string :=
  match n with Fin u => integer_text (Z.quot u unit1) | _ => "0" end.

(** [storable(value, min)]. *)
Definition lua_storable (value min : num) : num :=
  let value := if value >=? int 0 then floor value else ceil value in
  if value <? min then min
  else if value >? MAX_SAFE_INTEGER then MAX_SAFE_INTEGER
  else value.

Section scripts.
Context {R : Type} `{RedisServer R} `{LuaRuntime}.
Variable t : clock.
Local Notation now := (ms t).

(** ** The scripts *)

Definition freezeTtl (until count : num) : num :=
  let window := ceil ((until - now) / int 1000) in
  let window := if window <? int 0 then int 0 else window in
  if count >? int 0 then window + FREEZE_PROBE_TTL_SECONDS else window + int 60.

Definition tryAdmitNoLimit_script (queueKey freezeKey : string) : Script R bool :=
  empty ← queueEmptyGate now queueKey;
  if negb empty then mret false
  else thawed ← freezeGate now freezeKey; mret thawed.

(** The merge of an arm with what stands: deadline, probes, and whether the
    bucket is emptied. *)
Definition lua_merge (existing : gmap string string) (until count : num) (empties : bool) : num * num * bool :=
  match finiteNumber_nil (existing !! "frozenUntil") with
  | None => (until, count, empties)
  | Some existingUntil =>
      let existingThaw := finiteNumber (existing !! "thawRequestCount") (int 0) in
      (if existingUntil >? until then existingUntil else until,
       if existingThaw >? count then existingThaw else count,
       if (existingUntil >? now) && negb (bool_decide (existing !! "emptiesBucket" = Some "0"))
       then true else empties)
  end.

Definition writeFreezeState_script (key frozenUntil_ thawRequestCount_ : string) (mode : freeze_mode)
    (emptiesBucket : string) : Script R (string * string) :=
  let until := finiteNumber (Some frozenUntil_) (int 0) in
  let count := finiteNumber (Some thawRequestCount_) (int 0) in
  let empties := negb (bool_decide (emptiesBucket = "0")) in
  merged ← (match mode with
            | FreezeMax => existing ← call_HGETALL now key; mret (lua_merge existing until count empties)
            | FreezeSet => mret (until, count, empties)
            end);
  let '(until, count, empties) := merged : num * num * bool in
  let until := lua_storable until (- MAX_SAFE_INTEGER) in
  let count := lua_storable count (int 0) in
  call_HSET now key [("frozenUntil", fmt_d until); ("thawRequestCount", fmt_d count);
                     ("emptiesBucket", if empties then "1" else "0")] ;;
  call_EXPIRE now key (freezeTtl until count) ;;
  mret (fmt_d until, fmt_d count).

(** The deadline, the probes owed and whether the window is still open. *)
Definition readFreezeState_script (key : string) : Script R (option (json * json * bool)) :=
  state ← call_HGETALL now key;
  match finiteNumber_nil (state !! "frozenUntil") with
  | None => mret None
  | Some until =>
      let count := finiteNumber (state !! "thawRequestCount") (int 0) in
      if (now >=? until) && (count <=? int 0) then mret None
      else mret (Some (exact until, exact count, now <? until))
  end.

Definition updateThawProgress_script (key completionKey completionId : string) (success : bool)
    : Script R (option (string * string)) :=
  let reply until count : option (string * string) := Some (fmt17 until, fmt17 count) in
  let named := negb (bool_decide (completionId = "")) in
  seen ← (if named then call_SISMEMBER now completionKey completionId else mret false);
  if (seen : bool) then
    state ← call_HGETALL now key;
    mret (match finiteNumber_nil (state !! "frozenUntil") with
          | None => None
          | Some until => reply until (finiteNumber (state !! "thawRequestCount") (int 0))
          end)
  else
    (if named then call_SADD now completionKey completionId ;;
                   call_EXPIRE now completionKey FREEZE_PROBE_TTL_SECONDS
     else mret tt) ;;
    state ← call_HGETALL now key;
    match finiteNumber_nil (state !! "frozenUntil") with
    | None => mret None
    | Some until =>
        let count := finiteNumber (state !! "thawRequestCount") (int 0) in
        if (now >=? until) && (count <=? int 0) then call_DEL now key ;; mret None
        else if negb success then mret (reply until count)
        else
          let newCount := lua_max (int 0) (count - int 1) in
          if (newCount =? int 0) && (now >=? until) then call_DEL now key ;; mret None
          else
            call_HSET now key [("thawRequestCount", fmt17 newCount)] ;;
            call_EXPIRE now key (freezeTtl until newCount) ;;
            mret (reply until newCount)
    end.

(** Whether an entry is a probe under way for the grant. *)
Definition lua_probes (fields : gmap string string) (grantId : string) (anyGrant : bool) : bool :=
  bool_decide (fields !! "status" = Some "inProgress")
  && (anyGrant || bool_decide (default "" (fields !! "grantId") = grantId))
  && bool_decide (fields !! "isThawRequest" = Some "true")
  && negb (lua_claimLapsed now (fields !! "claimedAt")).

Fixpoint any_probe (ids : list string) (metadataKeyPrefix : string) (except : option string)
    (grantId : string) (anyGrant : bool) : Script R bool :=
  match ids with
  | [] => mret false
  | reqId :: ids =>
      if bool_decide (Some reqId = except) then any_probe ids metadataKeyPrefix except grantId anyGrant
      else
        fields ← call_HGETALL now (metadata_key metadataKeyPrefix reqId);
        if lua_probes fields grantId anyGrant then mret true
        else any_probe ids metadataKeyPrefix except grantId anyGrant
  end.

Definition tryStartThawRequest_script (frozenGrantsKey queueKey metadataKeyPrefix metadataKey
    grantId requestId : string) (anyGrant : bool) : Script R thaw_result :=
  (if bool_decide (grantId = "") then mret tt
   else call_SADD now frozenGrantsKey grantId ;; call_EXPIRE now frozenGrantsKey (int 86400)) ;;
  requestIds ← call_ZRANGE now queueKey;
  competing ← any_probe requestIds metadataKeyPrefix (Some requestId) grantId anyGrant;
  if (competing : bool) then mret Exists_
  else
    known ← call_EXISTS now metadataKey;
    if negb known then mret Exists_
    else call_HSET now metadataKey [("isThawRequest", "true")] ;; mret Started.

Definition hasThawRequestInProgress_script (queueKey metadataKeyPrefix targetGrantId : string)
    (anyGrant : bool) : Script R bool :=
  requestIds ← call_ZRANGE now queueKey;
  any_probe requestIds metadataKeyPrefix None targetGrantId anyGrant.

Definition lua_probing_step (metadataKeyPrefix : string) (grants : list string) (requestId : string)
    : Script R (list string) :=
  fields ← call_HGETALL now (metadata_key metadataKeyPrefix requestId);
  mret (match fields !! "grantId" with
        | Some grantId =>
            if bool_decide (fields !! "status" = Some "inProgress")
               && bool_decide (fields !! "isThawRequest" = Some "true")
            then oset_add grantId grants else grants
        | None => grants
        end).

Definition lua_stale_step (frozenGrantsKey freezeStateKeyPrefix : string) (thawRequestGrants : list string)
    (cleaned : num) (grantId : string) : Script R num :=
  if bool_decide (grantId ∈ thawRequestGrants) then mret cleaned
  else
    raw ← call_HGET now (freezeStateKeyPrefix +:+ grantId +:+ ":freezeState") "frozenUntil";
    if now >=? finiteNumber raw (int 0) then
      call_SREM now frozenGrantsKey [grantId] ;; mret (cleaned + int 1)
    else mret cleaned.

Definition cleanupStaleFrozenGrants_script (frozenGrantsKey queueKey metadataKeyPrefix
    freezeStateKeyPrefix : string) : Script R num :=
  frozenGrantIds ← call_SMEMBERS now frozenGrantsKey;
  requestIds ← call_ZRANGE now queueKey;
  thawRequestGrants ← sfold (lua_probing_step metadataKeyPrefix) [] requestIds;
  sfold (lua_stale_step frozenGrantsKey freezeStateKeyPrefix thawRequestGrants) (int 0) frozenGrantIds.

(** The ids whose heartbeat is gone are taken out of the set 500 at a time. *)
Fixpoint chunks {A} (fuel n : nat) (l : list A) : list (list A) :=
  match fuel, l with
  | S fuel, _ :: _ => take n l :: chunks fuel n (drop n l)
  | _, _ => []
  end.

Definition instance_step (instanceKeyPrefix currentInstanceId : string)
    (acc : list (string * string) * list string) (id : string)
    : Script R (list (string * string) * list string) :=
  let '(instances, staleIds) := acc in
  if bool_decide (id = currentInstanceId) then mret acc
  else
    data ← call_GET now (instanceKeyPrefix +:+ id);
    mret (match data with
          | Some d => if bool_decide (d = "") then (instances, staleIds ++ [id])
                      else (instances ++ [(id, d)], staleIds)
          | None => (instances, staleIds ++ [id])
          end).

Definition getInstances_script (instanceSetKey instanceKeyPrefix currentInstanceId : string)
    : Script R (list (string * string)) :=
  ids ← call_SMEMBERS now instanceSetKey;
  found ← sfold (instance_step instanceKeyPrefix currentInstanceId) ([], []) ids;
  let '(instances, staleIds) := found : list (string * string) * list string in
  sforeach (chunks (length staleIds) 500 staleIds) (call_SREM now instanceSetKey) ;;
  mret instances.

(** ** The operations *)

Definition redis_tryAdmitNoLimit (queueKey freezeKey : string) : Script R bool :=
  tryAdmitNoLimit_script queueKey freezeKey.

Definition redis_writeFreezeState (key : string) (until count : num) (mode : freeze_mode)
    (emptiesBucket : option bool) : Script R FreezeState :=
  result ← writeFreezeState_script key (num_to_string until) (num_to_string count) mode
             (if bool_decide (emptiesBucket = Some false) then "0" else "1");
  let '(u, c) := result : string * string in
  mret {| frozenUntil := parseLuaNumber (JStr u); thawRequestCount := parseLuaNumber (JStr c) |}.

Definition redis_setFreezeState (key : string) (until count : num) (emptiesBucket : option bool)
    : Script R unit :=
  redis_writeFreezeState key until count FreezeSet emptiesBucket ;; mret tt.

Definition redis_armFreeze (key : string) (until count : num) (emptiesBucket : option bool)
    : Script R FreezeState :=
  redis_writeFreezeState key until count FreezeMax emptiesBucket.

(** The state, and [inFreezeWindow]. *)
Definition redis_readFreezeState (key : string) : Script R (option (FreezeState * bool)) :=
  result ← readFreezeState_script key;
  mret (match result with
        | None => None
        | Some (u, c, window) =>
            Some ({| frozenUntil := parseLuaNumber u; thawRequestCount := parseLuaNumber c |}, window)
        end).

Definition redis_getFreezeState (key : string) : Script R (option FreezeState) :=
  state ← redis_readFreezeState key; mret (fst <$> state).

Definition redis_updateThawProgress (key : string) (success : bool) (completionId : option string)
    : Script R (option FreezeState) :=
  result ← updateThawProgress_script key (completions_key key) (default "" completionId) success;
  mret (match result with
        | None => None
        | Some (u, c) => Some {| frozenUntil := Number u; thawRequestCount := Number c |}
        end).

Definition redis_clearFreezeState (key : string) : Script R unit := call_DEL now key.

Definition redis_isFrozen (key : string) : Script R bool :=
  state ← redis_readFreezeState key; mret (match state with Some _ => true | None => false end).

Definition redis_canProcessRequest (key : string) : Script R ProcessDecision :=
  state ← redis_readFreezeState key;
  mret (match state with
        | None => {| canProcess := true; pd_isThawRequest := false; pd_frozenUntil := None |}
        | Some (s, true) =>
            {| canProcess := false; pd_isThawRequest := false; pd_frozenUntil := Some (frozenUntil s) |}
        | Some (s, false) =>
            {| canProcess := true; pd_isThawRequest := true; pd_frozenUntil := Some (frozenUntil s) |}
        end).

Definition redis_hasThawRequestInProgress (queueKey metadataKeyPrefix grantId : string) (anyGrant : bool)
    : Script R bool :=
  hasThawRequestInProgress_script queueKey metadataKeyPrefix grantId anyGrant.

Definition redis_tryStartThawRequest (frozenGrantsKey queueKey metadataKeyPrefix requestId grantId : string)
    (anyGrant : bool) : Script R thaw_result :=
  tryStartThawRequest_script frozenGrantsKey queueKey metadataKeyPrefix
    (metadata_key metadataKeyPrefix requestId) grantId requestId anyGrant.

Definition redis_cleanupStaleFrozenGrants (keyPrefix frozenGrantsKey queueKey metadataKeyPrefix
    freezeStateKeyPrefix : string) : Script R num :=
  cleanupStaleFrozenGrants_script frozenGrantsKey queueKey metadataKeyPrefix
    (keyPrefix +:+ freezeStateKeyPrefix).

Definition redis_getInstances (keyPrefix instanceSetKey instanceKeyPrefix currentInstanceId : string)
    : Script R (list (string * string)) :=
  getInstances_script instanceSetKey (keyPrefix +:+ instanceKeyPrefix) currentInstanceId.
End scripts.
