(* ===== verification/RedisBackend.v ===== *)
(** * The Redis backend's own class

    The key-value operations, batches, locks and publish/subscribe of
    [packages/backend-redis/src/index.ts].  The rest of the class delegates to
    the operation modules.  A pipeline is modelled as its commands in order;
    on a connection that is not in [MULTI] other clients' commands may come
    between them. *)
From S2P Require Import Prelude JsNumber JsString Json RateLimit Shared MemoryStore TokenBucket.
From S2P Require Import Concurrency MultiLimit Queue Cost Freeze Backend Client RedisServer.
From S2P Require Import RedisBucket RedisMulti RedisQueue RedisFreeze.
Local Open Scope num_scope.

Definition normalizeLockTtlMs (ttlMs : num) : result num :=
  if negb (isFinite ttlMs) || (ttlMs <=? int 0) then
    Throw (RangeError ("ttlMs must be a finite number greater than 0, received " +:+ num_to_string ttlMs))
  else Ok (ceil ttlMs).

(** ** Store *)

Section store.
Context {R : Type} `{RedisServer R}.
Variable t : clock.
Local Notation now := (ms t).

Definition redis_get (key : string) : Script R (option string) := call_GET now key.

Definition redis_set (key value : string) (ttlSeconds : option num) : Script R unit :=
  match ttlSeconds with
  | None => call_SET now key value None
  | Some x =>
      ttl ← script_of (normalizeTtlSeconds x);
      if ttl <=? int 0 then call_DEL now key
      else call_SET now key value (Some ttl)
  end.

Definition redis_del (keys : list string) : Script R unit := sforeach keys (call_DEL now).

Definition redis_hgetall (key : string) : Script R (gmap string string) := call_HGETALL now key.

(** The commands of a pipeline or a [MULTI]: each one runs whether or not an
    earlier one failed, and the first failure is thrown once all have run. *)
Fixpoint exec_chain (chain : list (Script R unit)) (failed : option client_error) : Script R unit := fun s =>
  match chain with
  | [] => match failed with Some e => (Raise e, s) | None => (Return tt, s) end
  | command :: chain =>
      let '(r, s) := command s in
      exec_chain chain (match failed, r with None, Raise e => Some e | _, _ => failed end) s
  end.

Definition field_texts (fields : list (string * field_value)) : list (string * string) :=
  (fun f : string * field_value => (f.1, field_string f.2)) <$> fields.

(** The [HSET] that is skipped when there is nothing to write. *)
Definition hset_commands (key : string) (fields : list (string * field_value)) (ttl : option num)
    : list (Script R unit) :=
  match fields with [] => [] | _ => [call_HSET now key (field_texts fields)] end
  ++ match ttl with Some ttl => [call_EXPIRE now key ttl] | None => [] end.

Definition optional_ttl_ (ttlSeconds : option num) : Script R (option num) :=
  match ttlSeconds with
  | None => mret None
  | Some x => ttl ← script_of (normalizeTtlSeconds x); mret (Some ttl)
  end.

Definition redis_hset (key : string) (fields : list (string * field_value)) (ttlSeconds : option num)
    : Script R unit :=
  ttl ← optional_ttl_ ttlSeconds;
  match ttl, fields with
  | None, [] => mret tt
  | None, _ => call_HSET now key (field_texts fields)
  | Some _, _ => exec_chain (hset_commands key fields ttl) None
  end.

Definition redis_sadd (key member : string) : Script R unit := call_SADD now key member.
Definition redis_srem (key member : string) : Script R unit := call_SREM now key [member].
Definition redis_smembers (key : string) : Script R (list string) := call_SMEMBERS now key.

(** ** Locks *)

(** [SET key token PX ttl NX]. *)
Definition redis_acquireLock (key token : string) (ttlMs : num) : Script R bool :=
  px ← script_of (normalizeLockTtlMs ttlMs);
  held ← call_EXISTS now key;
  if (held : bool) then mret false else call_SETPX now key token px ;; mret true.

Definition redis_releaseLock (key token : string) : Script R bool :=
  v ← call_GET now key;
  if bool_decide (v = Some token) then call_DEL now key ;; mret true else mret false.
End store.

(** ** Batches and publishing *)

(** The server, and the messages it was given to deliver. *)
Record Wire (R : Type) := { server : R; sent : list (string * string) }.
Arguments server {R}.
Arguments sent {R}.

Section wire.
Context {R : Type} `{RedisServer R}.
Variable t : clock.
Variable keyPrefix : string.
Local Notation now := (ms t).

Definition on_server {A} (m : Script R A) : Script (Wire R) A := fun w =>
  let '(r, s) := m (server w) in (r, {| server := s; sent := sent w |}).

Definition redis_publish (channel message : string) : Script (Wire R) unit := fun w =>
  (Return tt, {| server := server w; sent := sent w ++ [(keyPrefix +:+ channel, message)] |}).

(** What an operation of a batch puts on the chain, its TTL normalised. *)
Definition batch_commands (op : BatchOp) (ttl : option num) : list (Script (Wire R) unit) :=
  match op with
  | BSet key value _ =>
      [on_server (match ttl with
                  | None => call_SET now key value None
                  | Some x => if x <=? int 0 then call_DEL now key else call_SET now key value (Some x)
                  end)]
  | BDel key => [on_server (call_DEL now key)]
  | BExpire key seconds => [on_server (call_EXPIRE now key (default seconds ttl))]
  | BSadd key member => [on_server (call_SADD now key member)]
  | BSrem key member => [on_server (call_SREM now key [member])]
  | BHset key fields _ => on_server <$> hset_commands t key fields ttl
  | BPublish channel message => [redis_publish channel message]
  end.

Definition redis_batch (ops : list BatchOp) : Script (Wire R) unit :=
  match ops with
  | [] => mret tt
  | _ =>
      ttls ← scollect ops (fun op => on_server (optional_ttl_ (batch_ttl op)));
      exec_chain (concat (zip_with batch_commands ops ttls)) None
  end.
End wire.

(** ** The subscriber *)

Record Listener := {
  listening : bool;  (** whether the duplicate connection is there *)
  r_subscribed : list (string * list handler);
  wire_channels : list string  (** what the duplicate is subscribed to *)
}.

Definition no_listener : Listener := {| listening := false; r_subscribed := []; wire_channels := [] |}.

Definition redis_subscribe (keyPrefix : string) (channels : list string) (h : handler) (l : Listener)
    : Listener :=
  match channels with
  | [] => l
  | _ =>
      {| listening := true;
         r_subscribed := fold_left (fun subs c => omap_set c (oset_add h (default [] (omap_get c subs))) subs)
                           channels (r_subscribed l);
         wire_channels := fold_left (fun cs c => oset_add (keyPrefix +:+ c) cs) channels (wire_channels l) |}
  end.

(** [wireChannel.slice(prefix.length)]. *)
Definition slice_from (n : nat) (s : string) : string :=
  String.substring n (String.length s - n) s.

(** The handlers a message that arrives is dispatched to, in order. *)
Definition dispatch (keyPrefix wireChannel message : string) (l : Listener)
    : list (handler * string * string) :=
  let channel := slice_from (String.length keyPrefix) wireChannel in
  (fun h => (h, channel, message)) <$> default [] (omap_get channel (r_subscribed l)).

Definition redis_close (l : Listener) : Listener := no_listener.

(** * The Redis backend as one interface

    [RedisBackend] of [packages/backend-redis/src/index.ts]: what every member
    of [DianemoBackend] runs.  The calls are those of the memory backend
    ([Backend.call]); a state is the server, what it was given to deliver and
    the connection the backend listens on. *)

Record RedisState (R : Type) := { wire_ : Wire R; listener : Listener }.
Arguments wire_ {R}.
Arguments listener {R}.

(** [new RedisBackend(redis)]: nothing is sent, and nothing listened to. *)
Definition new_backend {R} (r : R) : RedisState R :=
  {| wire_ := {| server := r; sent := [] |}; listener := no_listener |}.

Section backend.
Context {R : Type} `{RedisServer R} `{LuaRuntime}.
Variable t : clock.
Variable keyPrefix : string.

(** A member that only talks to the server, and one that only listens. *)
Definition on_wire {A} (m : Script (Wire R) A) : Script (RedisState R) A := fun s =>
  let '(r, w) := m (wire_ s) in (r, {| wire_ := w; listener := listener s |}).
Definition on_redis {A} (m : Script R A) : Script (RedisState R) A := on_wire (on_server m).
Definition on_listener (f : Listener -> Listener) : Script (RedisState R) unit := fun s =>
  (Return tt, {| wire_ := wire_ s; listener := f (listener s) |}).

(** The delivery of a message to the in-process bus has no counterpart here. *)
Definition redis_exec {A} (c : call A) : Script (RedisState R) A :=
  match c with
  | CGet key => on_redis (redis_get t key)
  | CSet key value ttl => on_redis (redis_set t key value ttl)
  | CDel keys => on_redis (redis_del t keys)
  | CHgetall key => on_redis (redis_hgetall t key)
  | CHset key fields ttl => on_redis (redis_hset t key fields ttl)
  | CSadd key member => on_redis (redis_sadd t key member)
  | CSrem key member => on_redis (redis_srem t key member)
  | CSmembers key => on_redis (redis_smembers t key)
  | CBatch ops => on_wire (redis_batch t keyPrefix ops)
  | CAcquireLock key token ttl => on_redis (redis_acquireLock t key token ttl)
  | CReleaseLock key token => on_redis (redis_releaseLock t key token)
  | CPublish channel message => on_wire (redis_publish keyPrefix channel message)
  | CSubscribe channels h => on_listener (redis_subscribe keyPrefix channels h)
  | CAcquireTokens key cost config mark => on_redis (redis_acquireTokens t key cost config mark)
  | CGetTokenBucketState key config => on_redis (redis_getTokenBucketState t key config)
  | CResetTokenBucket key max => on_redis (redis_resetTokenBucket t key max)
  | CEmptyTokenBucket key config => on_redis (redis_emptyTokenBucket t key config)
  | CSettleTokens specs => on_redis (redis_settleTokens t specs)
  | CRefundTokens key cost max fk => on_redis (redis_refundTokens t key cost max fk)
  | CTryAdmitImmediately q b f cost config ttl mark =>
      on_redis (redis_tryAdmitImmediately t q b f cost config ttl mark)
  | CTryAdmitNoLimit q f => on_redis (redis_tryAdmitNoLimit t q f)
  | CAcquireMultiLimit specs => on_redis (redis_acquireMultiLimit t specs)
  | CReleaseMultiLimit specs => on_redis (redis_releaseMultiLimit t specs)
  | CTryAdmitMultiLimit q fs specs ttl => on_redis (redis_tryAdmitMultiLimit t q fs specs ttl)
  | CAcquireConcurrency key cost id config => on_redis (redis_acquireConcurrency t key cost id config)
  | CAcquireQueuedConcurrency key mk cost id config =>
      on_redis (redis_acquireQueuedConcurrency t key mk cost id config)
  | CTryAdmitConcurrency q k f cost id config ttl =>
      on_redis (redis_tryAdmitConcurrency t q k f cost id config ttl)
  | CReleaseConcurrency key id => on_redis (redis_releaseConcurrency t key id)
  | CTouchConcurrency key id ttl => on_redis (redis_touchConcurrency t key id ttl)
  | CTouchClaimMark key id ttl => on_redis (redis_touchClaimMark t key id ttl)
  | CGetConcurrencyState key ttl => on_redis (redis_getConcurrencyState t key ttl)
  | CClearConcurrency key => on_redis (redis_clearConcurrency t key)
  | CAddRequest q p request ttl => on_redis (redis_addRequest t q p request ttl)
  | CGetQueueLength q => on_redis (redis_getQueueLength t q)
  | CGetNextRequest q p gs rs => on_redis (redis_getNextRequest t q p gs rs)
  | CConfirmRequest p id at_ => on_redis (redis_confirmRequest t p id at_)
  | CGetRequest p id => on_redis (redis_getRequest t p id)
  | CUpdateRequest q p id updates => on_redis (redis_updateRequest t q p id updates)
  | CRemoveRequest q p id ttl => on_redis (redis_removeRequest t q p id ttl)
  | CGetQueueStats q p => on_redis (redis_getQueueStats t q p)
  | CGetAllRequests q p => on_redis (redis_getAllRequests t q p)
  | CCleanupOrphanedRequests q p alive me => on_redis (redis_cleanupOrphanedRequests t q p alive me)
  | CSetFreezeState key until count e => on_redis (redis_setFreezeState t key until count e)
  | CArmFreeze key until count e => on_redis (redis_armFreeze t key until count e)
  | CGetFreezeState key => on_redis (redis_getFreezeState t key)
  | CUpdateThawProgress key success id => on_redis (redis_updateThawProgress t key success id)
  | CClearFreezeState key => on_redis (redis_clearFreezeState t key)
  | CIsFrozen key => on_redis (redis_isFrozen t key)
  | CCanProcessRequest key => on_redis (redis_canProcessRequest t key)
  | CHasThawRequestInProgress q p g any => on_redis (redis_hasThawRequestInProgress t q p g any)
  | CTryStartThawRequest fg q p id g any => on_redis (redis_tryStartThawRequest t fg q p id g any)
  | CCleanupStaleFrozenGrants fg q p prefix =>
      on_redis (redis_cleanupStaleFrozenGrants t keyPrefix fg q p prefix)
  | CGetInstances set prefix me => on_redis (redis_getInstances t keyPrefix set prefix me)
  | CNow => mret (ms t)
  | CClose => on_listener redis_close
  | CRunMicrotask => mret tt
  end.
End backend.
