(* ===== verification/RedisTypes.v ===== *)
(** * The types of Redis keys

    A key of the fleet holds one type for good: a string, a hash, or a sorted
    set or a set of some kind of member.  [sound] scripts raise no [WRONGTYPE]
    on a server whose keys are of their types and leave every key of its type.
    The rules follow the structure of a script; the lemmas below them cover
    every script and operation of the backend. *)
From S2P Require Import Prelude JsNumber JsString Json Shared MemoryStore StoreFacts TokenBucket.
From S2P Require Import Concurrency MultiLimit Queue Freeze Backend RateLimit Cost Client Footprint.
From S2P Require Import RedisServer RedisFacts RedisBucket RedisMulti RedisQueue RedisFreeze.
From S2P Require Import RedisBackend.

(** What the fields of a hash and the members of a collection may be is part of
    its type. *)
Inductive key_type :=
  | TString
  | THash (ok : string -> string -> Prop)
  | TZset (ok : string -> Prop)
  | TSet (ok : string -> Prop).

Definition plain : key_type := THash (fun _ _ => True).

Definition has_type (ty : key_type) (v : option slot) : Prop :=
  match v with
  | None => True
  | Some (RString _, _) => ty = TString
  | Some (RHash h, _) => match ty with THash ok => map_Forall ok h | _ => False end
  | Some (RZset z, _) => match ty with TZset ok => Forall ok z.*1 | _ => False end
  | Some (RSet l, _) => match ty with TSet ok => Forall ok l | _ => False end
  end.

Definition write_typed (ty : key_type) (c : write) : Prop :=
  match c with
  | SET _ _ _ | SETPX _ _ _ => ty = TString
  | HSET _ kvs => match ty with THash ok => Forall (fun kv => ok kv.1 kv.2) kvs | _ => False end
  | HDEL _ _ => match ty with THash _ => True | _ => False end
  | HINCRBY _ f _ => match ty with THash ok => forall v, ok f v | _ => False end
  | ZADD _ _ m => match ty with TZset ok => ok m | _ => False end
  | ZREM _ _ => match ty with TZset _ => True | _ => False end
  | SADD _ m => match ty with TSet ok => ok m | _ => False end
  | SREM _ _ => match ty with TSet _ => True | _ => False end
  | DEL _ | EXPIRE _ _ => True
  end.

Lemma Forall_omap_delete {A} (ok : string -> Prop) m (z : list (string * A)) :
  Forall ok z.*1 -> Forall ok (omap_delete m z).*1.
Proof.
  rewrite !Forall_forall. intros Hz x [_ Hx]%elem_of_omap_keys_delete. auto.
Qed.

Lemma Forall_omap_set {A} (ok : string -> Prop) m (x : A) z :
  ok m -> Forall ok z.*1 -> Forall ok (omap_set m x z).*1.
Proof.
  rewrite !Forall_forall. intros Hm Hz y [->|Hy]%elem_of_omap_keys_set; auto.
Qed.

Lemma Forall_oset_add (ok : string -> Prop) m l : ok m -> Forall ok l -> Forall ok (oset_add m l).
Proof. intros. unfold oset_add. case_decide; [done|]. apply Forall_app. auto. Qed.
Lemma Forall_oset_delete (ok : string -> Prop) m l : Forall ok l -> Forall ok (oset_delete m l).
Proof. rewrite !Forall_forall. intros Hl x [_ Hx]%list_elem_of_filter. auto. Qed.

Lemma map_Forall_put_fields (ok : string -> string -> Prop) kvs : Forall (fun kv => ok kv.1 kv.2) kvs ->
  forall h, map_Forall ok h -> map_Forall ok (put_fields kvs h).
Proof.
  induction 1 as [|[k v] kvs Hk _ IH]; intros h Hh; simpl; [done|]. apply IH. by apply map_Forall_insert_2.
Qed.

Lemma Forall_zrem (ok : string -> Prop) ms : forall z : list (string * num),
  Forall ok z.*1 -> Forall ok (fold_left (fun z m => omap_delete m z) ms z).*1.
Proof. induction ms; intros z Hz; simpl; [done|]. by apply IHms, Forall_omap_delete. Qed.
Lemma Forall_srem (ok : string -> Prop) ms : forall l,
  Forall ok l -> Forall ok (fold_left (fun l m => oset_delete m l) ms l).
Proof. induction ms; intros z Hz; simpl; [done|]. by apply IHms, Forall_oset_delete. Qed.

(** A missing collection is an empty one. *)
Lemma hash_in_typed ok v : has_type (THash ok) v -> exists h, hash_in v = Some h /\ map_Forall ok h.
Proof.
  destruct v as [[[] ?]|]; simpl; try done; [by eauto|]. intros _. eexists. split; [done|apply map_Forall_empty].
Qed.
Lemma zset_in_typed ok v : has_type (TZset ok) v -> exists z, zset_in v = Some z /\ Forall ok z.*1.
Proof. destruct v as [[[] ?]|]; simpl; try done; eauto. Qed.
Lemma set_in_typed ok v : has_type (TSet ok) v -> exists l, set_in v = Some l /\ Forall ok l.
Proof. destruct v as [[[] ?]|]; simpl; try done; eauto. Qed.

Lemma effect_typed now c ty v : write_typed ty c -> has_type ty v -> has_type ty (effect now c v).
Proof.
  intros Hc Hv. destruct c; cbn [write_typed effect] in *; try done.
  - destruct ty as [|ok|ok|ok]; try done. destruct (hash_in_typed _ _ Hv) as (h & -> & Hh).
    by apply map_Forall_put_fields.
  - destruct ty as [|ok|ok|ok]; try done. destruct (hash_in_typed _ _ Hv) as (h & -> & Hh). simpl.
    unfold hash_slot. case_decide; [done|]. by apply map_Forall_delete.
  - destruct ty as [|ok|ok|ok]; try done. destruct (hash_in_typed _ _ Hv) as (h & -> & Hh).
    by apply map_Forall_insert_2.
  - destruct ty as [|ok|ok|ok]; try done. destruct (zset_in_typed _ _ Hv) as (z & -> & Hz).
    by apply Forall_omap_set.
  - destruct ty as [|ok|ok|ok]; try done. destruct (zset_in_typed _ _ Hv) as (z & -> & Hz). simpl.
    pose proof (Forall_zrem ok members z Hz) as Hf. unfold zset_slot. by destruct (fold_left _ _ _).
  - destruct ty as [|ok|ok|ok]; try done. destruct (set_in_typed _ _ Hv) as (l & -> & Hl).
    by apply Forall_oset_add.
  - destruct ty as [|ok|ok|ok]; try done. destruct (set_in_typed _ _ Hv) as (l & -> & Hl). simpl.
    pose proof (Forall_srem ok members l Hl) as Hf. unfold set_slot. by destruct (fold_left _ _ _).
  - by destruct v as [[[] ?]|].
Qed.

Lemma same_shape_typed c ty v v' :
  write_typed ty c -> same_shape c v v' -> has_type ty v -> has_type ty v'.
Proof.
  intros Hc. destruct v as [[[] ?]|], v' as [[[] ?]|]; simpl; try done.
  - destruct ty as [|ok|ok|ok]; try done. intros Hs Hh f x Hx.
    destruct (Hs f) as [(k & z & ->)|Hf]; [apply Hc|]. apply Hh. by rewrite <- Hf.
  - by intros ->.
  - by intros ->.
Qed.

(** ** Sound scripts *)

Section sound.
Context {R : Type} `{!RedisServer R} `{!RedisShapes R}.
Variable kind : string -> key_type.
Variable now : num.
Hypothesis Hnow : instant now.

Definition well_typed (s : R) : Prop := forall k, has_type (kind k) (look now s k).

(** What a script raises, when it raises. *)
Definition typed_raise (e : client_error) : Prop := e <> ForeignError wrongtype.

Definition sound {A} (Q : A -> Prop) (m : Script R A) : Prop :=
  forall s, well_typed s -> well_typed (m s).2 /\
    match (m s).1 with Return a => Q a | Raise e => typed_raise e end.

Lemma sound_bind {A B} (P : A -> Prop) (Q : B -> Prop) (m : Script R A) (f : A -> Script R B) :
  sound P m -> (forall a, P a -> sound Q (f a)) -> sound Q (m ≫= f).
Proof.
  intros Hm Hf s Hs. unfold mbind, Script_bind. destruct (Hm s Hs) as [Hs' Ha].
  destruct (m s) as [[a|e] s']; simpl in *; [by apply Hf|done].
Qed.

Lemma sound_ret {A} (Q : A -> Prop) (a : A) : Q a -> sound Q (mret a).
Proof. by intros. Qed.
Lemma sound_error {A} (Q : A -> Prop) message : message <> wrongtype -> sound Q (lua_error message : Script R A).
Proof. intros Hm s Hs. split; [done|]. unfold typed_raise. simpl. congruence. Qed.
Lemma sound_script_of {A} (r : result A) : sound any (script_of r).
Proof. intros s Hs. split; [done|]. by destruct r. Qed.
Lemma sound_weaken {A} (Q Q' : A -> Prop) (m : Script R A) :
  sound Q m -> (forall a, Q a -> Q' a) -> sound Q' m.
Proof. intros Hm HQ s Hs. destruct (Hm s Hs) as [Hs' Ha]. split; [done|]. destruct (m s).1; auto. Qed.

Lemma sound_typed {A} (read : option slot -> option A) key (Q : A -> Prop) :
  (forall v, has_type (kind key) v -> exists a, read v = Some a /\ Q a) -> sound Q (typed now read key).
Proof.
  intros Hr s Hs. unfold typed. destruct (Hr _ (Hs key)) as (a & -> & Ha). done.
Qed.

Lemma sound_perform c : write_typed (kind (write_key c)) c -> sound any (perform_ now c).
Proof.
  intros Hc s Hs. split; [|done]. intros k. simpl. destruct (decide (k = write_key c)) as [->|Hk].
  - destruct (look_shape now c s Hnow) as [->|[Hv|Hv]]; [done| |]; eapply same_shape_typed; [done..| |].
    + exact Hv.
    + by apply effect_typed.
  - rewrite look_elsewhere by done. apply Hs.
Qed.

Lemma sound_foreach {A} (P : A -> Prop) (l : list A) (f : A -> Script R unit) :
  Forall P l -> (forall a, P a -> sound any (f a)) -> sound any (sforeach l f).
Proof.
  intros Hl Hf. induction Hl; simpl; [by apply sound_ret|]. eapply sound_bind; [by apply Hf|done].
Qed.
Lemma sound_collect {A B} (P : A -> Prop) (l : list A) (f : A -> Script R B) :
  Forall P l -> (forall a, P a -> sound any (f a)) -> sound any (scollect l f).
Proof.
  intros Hl Hf. induction Hl; simpl; [by apply sound_ret|].
  eapply sound_bind; [by apply Hf|intros b _]. eapply sound_bind; [done|]. by intros; apply sound_ret.
Qed.
Lemma sound_fold {A B} (P : B -> Prop) (Q : A -> Prop) (f : A -> B -> Script R A) (l : list B) :
  Forall P l -> (forall a b, Q a -> P b -> sound Q (f a b)) -> forall a, Q a -> sound Q (sfold f a l).
Proof.
  intros Hl Hf. induction Hl; intros a0 Ha; simpl; [by apply sound_ret|]. eapply sound_bind; [by apply Hf|done].
Qed.

(** ** Commands *)

Lemma sound_fields key ok : kind key = THash ok -> sound (map_Forall ok) (call_HGETALL now key).
Proof. intros Hk. apply sound_typed. rewrite Hk. apply hash_in_typed. Qed.
Lemma sound_field key f ok :
  kind key = THash ok -> sound (fun v => forall x, v = Some x -> ok f x) (call_HGET now key f).
Proof.
  intros. eapply sound_bind; [by eapply sound_fields|]. intros h Hh. apply sound_ret. intros x Hx. by apply Hh.
Qed.
Lemma sound_HGETALL key : kind key = plain -> sound any (call_HGETALL now key).
Proof. intros. eapply sound_weaken; [by eapply sound_fields|done]. Qed.
Lemma sound_HGET key field : kind key = plain -> sound any (call_HGET now key field).
Proof. intros. eapply sound_weaken; [by eapply sound_field|done]. Qed.

Lemma sound_zset key ok : kind key = TZset ok -> sound (fun z => Forall ok z.*1) (typed now zset_in key).
Proof. intros Hk. apply sound_typed. rewrite Hk. apply zset_in_typed. Qed.
Lemma sound_set key ok : kind key = TSet ok -> sound (Forall ok) (typed now set_in key).
Proof. intros Hk. apply sound_typed. rewrite Hk. apply set_in_typed. Qed.

Lemma Forall_sort_members (ok : string -> Prop) z : Forall ok z.*1 -> Forall ok (sort_members z).
Proof.
  intros Hz. unfold sort_members. by rewrite merge_sort_Permutation.
Qed.
Lemma Forall_fst_filter (ok : string -> Prop) (P : string * num -> Prop) {HP : forall e, Decision (P e)} z :
  Forall ok z.*1 -> Forall ok (filter P z).*1.
Proof.
  intros Hz. apply Forall_forall. intros x (e & -> & [_ He]%list_elem_of_filter)%list_elem_of_fmap.
  rewrite Forall_forall in Hz. apply Hz, list_elem_of_fmap. eauto.
Qed.

Lemma sound_ZRANGE key ok : kind key = TZset ok -> sound (Forall ok) (call_ZRANGE now key).
Proof.
  intros. eapply sound_bind; [by eapply sound_zset|]. intros. by apply sound_ret, Forall_sort_members.
Qed.
Lemma sound_ZRANGE_to key ok m : kind key = TZset ok -> sound (Forall ok) (call_ZRANGE_to now key m).
Proof.
  intros. eapply sound_bind; [by eapply sound_zset|]. intros.
  by apply sound_ret, Forall_sort_members, Forall_fst_filter.
Qed.
Lemma sound_ZRANGE_above key ok m : kind key = TZset ok -> sound (Forall ok) (call_ZRANGE_above now key m).
Proof.
  intros. eapply sound_bind; [by eapply sound_zset|]. intros.
  by apply sound_ret, Forall_sort_members, Forall_fst_filter.
Qed.
Lemma sound_ZCARD key ok : kind key = TZset ok -> sound any (call_ZCARD now key).
Proof. intros. eapply sound_bind; [by eapply sound_zset|]. by intros; apply sound_ret. Qed.
Lemma sound_ZSCORE key ok m : kind key = TZset ok -> sound any (call_ZSCORE now key m).
Proof. intros. eapply sound_bind; [by eapply sound_zset|]. by intros; apply sound_ret. Qed.
Lemma sound_SMEMBERS key ok : kind key = TSet ok -> sound (Forall ok) (call_SMEMBERS now key).
Proof. by apply sound_set. Qed.
Lemma sound_SISMEMBER key ok m : kind key = TSet ok -> sound any (call_SISMEMBER now key m).
Proof. intros. eapply sound_bind; [by eapply sound_set|]. by intros; apply sound_ret. Qed.
Lemma sound_GET key : kind key = TString -> sound any (call_GET now key).
Proof.
  intros Hk. apply sound_typed. rewrite Hk. intros v Hv. destruct v as [[[] ?]|]; simpl in *; try done; eauto.
Qed.
Lemma sound_EXISTS key : sound any (call_EXISTS now key).
Proof. by intros s Hs. Qed.

Lemma sound_put key kvs ok :
  kind key = THash ok -> Forall (fun kv => ok kv.1 kv.2) kvs -> sound any (call_HSET now key kvs).
Proof.
  intros Hk ?. eapply sound_bind; [by eapply sound_fields|]. intros. apply sound_perform. simpl. by rewrite Hk.
Qed.
Lemma sound_drop key f ok : kind key = THash ok -> sound any (call_HDEL now key f).
Proof.
  intros Hk. eapply sound_bind; [by eapply sound_fields|]. intros. apply sound_perform. simpl. by rewrite Hk.
Qed.
Lemma sound_HSET key kvs : kind key = plain -> sound any (call_HSET now key kvs).
Proof. intros. eapply sound_put; [done|]. by apply Forall_true. Qed.
Lemma sound_HDEL key f : kind key = plain -> sound any (call_HDEL now key f).
Proof. apply sound_drop. Qed.
Lemma sound_HINCRBY key f z : kind key = plain -> sound any (call_HINCRBY now key f z).
Proof.
  intros Hk. eapply sound_bind; [by eapply sound_fields|]. intros. apply sound_perform. simpl. by rewrite Hk.
Qed.
Lemma sound_HSETNX key f v : kind key = plain -> sound any (call_HSETNX now key f v).
Proof.
  intros. eapply sound_bind; [by apply sound_HGET|]. intros [x|] _; [by apply sound_ret|by apply sound_HSET].
Qed.
Lemma sound_ZADD key ok score m : kind key = TZset ok -> ok m -> sound any (call_ZADD now key score m).
Proof.
  intros Hk ?. eapply sound_bind; [by eapply sound_zset|]. intros. apply sound_perform. simpl. by rewrite Hk.
Qed.
Lemma sound_ZREM key ok ms : kind key = TZset ok -> sound any (call_ZREM now key ms).
Proof.
  intros Hk. eapply sound_bind; [by eapply sound_zset|]. intros. apply sound_perform. simpl. by rewrite Hk.
Qed.
Lemma sound_SADD key ok m : kind key = TSet ok -> ok m -> sound any (call_SADD now key m).
Proof.
  intros Hk ?. eapply sound_bind; [by eapply sound_set|]. intros. apply sound_perform. simpl. by rewrite Hk.
Qed.
Lemma sound_SREM key ok ms : kind key = TSet ok -> sound any (call_SREM now key ms).
Proof.
  intros Hk. eapply sound_bind; [by eapply sound_set|]. intros. apply sound_perform. simpl. by rewrite Hk.
Qed.
Lemma sound_DEL key : sound any (call_DEL now key).
Proof. intros. by apply sound_perform. Qed.
Lemma sound_EXPIRE key ttl : sound any (call_EXPIRE now key ttl).
Proof. intros. by apply sound_perform. Qed.
Lemma sound_SET key v ttl : kind key = TString -> sound any (call_SET now key v ttl).
Proof. intros. by apply sound_perform. Qed.
Lemma sound_SETPX key v px : kind key = TString -> sound any (call_SETPX now key v px).
Proof. intros. by apply sound_perform. Qed.
End sound.
