(* ===== verification/RedisTwins.v ===== *)
(** * The buckets of Redis and the buckets of the memory backend

    When a Redis server and a memory backend hold the same buckets, marks,
    freezes and queues ([twins]).  The two store different texts: a number is
    written by Lua with 17 digits and by JavaScript with as few as it takes, an
    absent counter is written as zero by one and left absent by the other, and a
    bucket's incarnation is named by the server's clock in one and by a counter
    in the other.  So two fields agree when every reading takes them for the same
    number, and two incarnations agree when they were minted together. *)
From S2P Require Import Prelude JsNumber JsString Json Shared SharedFacts.
From S2P Require Import MemoryStore StoreFacts TokenBucket TokenBucketFacts Concurrency Queue Freeze.
From S2P Require Import Backend Observe StoreProps Atomicity AdmissionProps SettlementProps.
From S2P Require Import Client RedisServer RedisFacts RedisBucket.
Local Open Scope num_scope.

(** What a key is for, and a mark's bucket. *)
Inductive key_kind := KBucket | KMark (bucketKey : string) | KFreeze | KQueue.

(** An incarnation of a bucket: its name on Redis and its number in memory. *)
Definition incarnation : Type := string * string * Z.

Section relation.
Context `{LuaLaws}.
Variable kind : string -> key_kind.

Definition minted (E : list incarnation) (b : string) (er em : string) : Prop :=
  exists j, (b, er, j) ∈ E /\ em = num_to_string (int j).

Definition same_incarnation (E : list incarnation) (b : string) (er em : option string) : Prop :=
  match er, em with
  | None, None => True
  | Some er, Some em => minted E b er em
  | _, _ => False
  end.

Definition not_negative (m : option string) : Prop := (int 0 <=? parseFiniteStored m (int 0)) = true.

(** [n] bounds the generation. *)
Record bucket_twins (n : Z) (E : list incarnation) (b : string) (r m : gmap string string) : Prop := {
  bt_present : r !! "tokens" = None <-> m !! "tokens" = None;
  bt_tokens : reads (r !! "tokens") (m !! "tokens");
  bt_lastUpdate : reads (r !! "lastUpdate") (m !! "lastUpdate");
  bt_overflow : reads0 (r !! "overflow") (m !! "overflow");
  bt_fills : reads0 (r !! "fills") (m !! "fills");
  bt_forgiven : reads0 (r !! "forgiven") (m !! "forgiven");
  bt_forgave : not_negative (m !! "forgiven");
  bt_generation : exists z, (0 <= z <= n)%Z /\
    (r !! "generation" = Some (integer_text z) \/ r !! "generation" = None /\ z = 0%Z) /\
    parseFiniteStored (m !! "generation") (int 0) = int z;
  bt_epoch : same_incarnation E b (r !! "epoch") (m !! "epoch")
}.

Record mark_twins (E : list incarnation) (b : string) (r m : gmap string string) : Prop := {
  mt_present : is_Some (r !! "claimed");
  mt_claimed : reads0 (r !! "claimed") (m !! "claimed");
  mt_cost : not_negative (m !! "claimed");
  mt_overflow : reads0 (r !! "overflow") (m !! "overflow");
  mt_fills : reads0 (r !! "fills") (m !! "fills");
  mt_generation : reads0 (r !! "generation") (m !! "generation");
  mt_forgiven : reads0 (r !! "forgiven") (m !! "forgiven");
  mt_forgave : not_negative (m !! "forgiven");
  mt_epoch : exists er em, r !! "epoch" = Some er /\ m !! "epoch" = Some em /\ minted E b er em
}.

Record freeze_twins (r m : gmap string string) : Prop := {
  ft_frozenUntil : reads (r !! "frozenUntil") (m !! "frozenUntil");
  ft_thaw : reads (r !! "thawRequestCount") (m !! "thawRequestCount");
  ft_empties : r !! "emptiesBucket" = Some "0" <-> m !! "emptiesBucket" = Some "0"
}.

Definition hash_twins (n : Z) (E : list incarnation) (k : string) (r m : gmap string string) : Prop :=
  match kind k with
  | KBucket => bucket_twins n E k r m
  | KMark b => mark_twins E b r m
  | KFreeze => freeze_twins r m
  | KQueue => False
  end.

(** One key: absent from both, or of one value and one lifetime. *)
Definition key_twins (n : Z) (E : list incarnation) (k : string) (v : option slot) (e : option Entry)
    : Prop :=
  match v, e with
  | None, None => True
  | Some (RHash r, x), Some e =>
      expiresAt e = x /\ exists m, e_hash e = Some m /\ hash_twins n E k r m
  | Some (RZset z, x), Some e =>
      expiresAt e = x /\ kind k = KQueue /\ z <> [] /\ exists z', e_zset e = Some z' /\ z' <> []
  | _, _ => False
  end.

(** The incarnations minted so far: [used] are the clock readings so far. *)
Record ledger (n : Z) (used : list string) (E : list incarnation) (epochs_ : num) : Prop := {
  ld_epochs : exists m, epochs_ = int m /\ (0 <= m <= n)%Z /\
    forall b r j, (b, r, j) ∈ E -> r ∈ used /\ r <> "" /\ (1 <= j <= m)%Z;
  ld_one : forall b r j r' j', (b, r, j) ∈ E -> (b, r', j') ∈ E -> r = r' <-> j = j'
}.

Definition alike (n : Z) (used : list string) (E : list incarnation)
    (f : string -> option slot) (g : string -> option Entry) (epochs_ : num) : Prop :=
  (forall k, key_twins n E k (f k) (g k)) /\ ledger n used E epochs_ /\ (n <= 2 ^ 50)%Z.

(** The two states at an instant, after at most [n] steps. *)
Definition twins {R} `{RedisServer R} (n : Z) (used : list string) (now : num) (s : R) (w : World)
    : Prop :=
  exists E, alike n used E (look now s) (live_at now w) (epochs w).

(** ** More steps and more incarnations keep what was alike *)

Lemma minted_mono E E' b er em : (forall x, x ∈ E -> x ∈ E') -> minted E b er em -> minted E' b er em.
Proof. intros He (j & Hj & Hm). exists j. eauto. Qed.

Lemma key_twins_mono n n' E E' k v e :
  (n <= n')%Z -> (forall x, x ∈ E -> x ∈ E') -> key_twins n E k v e -> key_twins n' E' k v e.
Proof.
  intros Hn He. destruct v as [[[s|r|z|l] x]|], e as [e|]; try done. cbn.
  intros (Hx & m & Hm & Ht). split; [done|]. exists m. split; [done|]. unfold hash_twins in *.
  destruct (kind k); try done.
  - destruct Ht as [H1 H2 H3 H4 H5 H6 H7 (z & Hz & H8) H9]. split; try done.
    + exists z. split; [lia|done].
    + unfold same_incarnation in *. destruct (r !! "epoch"), (m !! "epoch"); try done. by eapply minted_mono.
  - destruct Ht as [H1 H2 H3 H4 H5 H6 H7 H8 (er & em & Hr & Hm' & Hi)]. split; try done.
    exists er, em. split_and!; [done..|]. by eapply minted_mono.
Qed.

Lemma ledger_more n n' used used' E ep :
  (n <= n')%Z -> (forall x, x ∈ used -> x ∈ used') -> ledger n used E ep -> ledger n' used' E ep.
Proof.
  intros Hn Hu [(m & Hm & Hb & Hj) H1]. split; [|done]. exists m. split_and!; try done; [lia..|].
  intros b r j Hin. destruct (Hj b r j Hin) as (? & ? & ?). auto.
Qed.

Lemma alike_more n n' used used' E f g ep :
  (n <= n' <= 2 ^ 50)%Z -> (forall x, x ∈ used -> x ∈ used') ->
  alike n used E f g ep -> alike n' used' E f g ep.
Proof.
  intros Hn Hu (Hk & Hl & _). split_and!; [|by eapply ledger_more; [..|done]; [lia|done]|lia].
  intros k. eapply key_twins_mono; [| |apply Hk]; [lia|done].
Qed.

Lemma alike_ext n used E f f' g g' ep :
  (forall k, f' k = f k) -> (forall k, g' k = g k) -> alike n used E f g ep -> alike n used E f' g' ep.
Proof. intros Hf Hg (Hk & Hl & Hn). split_and!; [|done..]. intros k. by rewrite Hf, Hg. Qed.

(** One key written on both sides. *)
Lemma alike_patch n used E f g ep key v e :
  key_twins n E key v e -> alike n used E f g ep -> alike n used E (patch key v f) (patch key e g) ep.
Proof.
  intros Hv (Hk & Hl & Hn). split_and!; [|done..]. intros k. unfold patch. by case_decide; subst.
Qed.

(** A new incarnation. *)
Lemma ledger_mint n used E m b clock :
  ledger n used E (int m) -> clock ∉ used -> clock <> "" -> (n < 2 ^ 50)%Z ->
  ledger (n + 1) (clock :: used) ((b, clock, m + 1)%Z :: E) (int m + int 1) /\
  int m + int 1 = int (m + 1).
Proof.
  intros [(m' & Em & Hm & Hj) H1] Hc Hne Hn. pose proof unit1_pos as Hu.
  assert (m' = m) as -> by (unfold int in Em; injection Em as Em; nia).
  rewrite add_int by (unfold safe; lia). split; [|done]. split.
  - exists (m + 1)%Z. split_and!; [done|lia|lia|]. intros b' r j [Heq|Hin]%elem_of_cons.
    + injection Heq as -> -> ->. split_and!; [by apply list_elem_of_here|done|lia|lia].
    + destruct (Hj _ _ _ Hin) as (? & ? & ?). split_and!; [by apply list_elem_of_further|done|lia|lia].
  - intros b' r j r' j' [Hr|Hr]%elem_of_cons [Hr'|Hr']%elem_of_cons.
    + by simplify_eq.
    + destruct (Hj _ _ _ Hr') as (Hu' & _ & ?). injection Hr as -> -> ->.
      split; [intros ->; done|lia].
    + destruct (Hj _ _ _ Hr) as (Hu' & _ & ?). injection Hr' as -> -> ->.
      split; [intros <-; done|lia].
    + by eapply H1.
Qed.

(** ** The numbers of twin buckets *)

Lemma twins_refill n E b r m config now :
  bucket_twins n E b r m ->
  lazyRefill now (maxTokens config) (tokensToAdd config) (interval config)
    {| tokens := finiteNumber (r !! "tokens") (maxTokens config);
       lastUpdate := finiteNumber (r !! "lastUpdate") now;
       overflow := finiteNumber (r !! "overflow") (int 0);
       fills := finiteNumber (r !! "fills") (int 0) |}
  = refill_state
    {| tokens := parseFiniteStored (m !! "tokens") (maxTokens config);
       lastUpdate := parseFiniteStored (m !! "lastUpdate") now;
       overflow := parseFiniteStored (m !! "overflow") (int 0);
       fills := parseFiniteStored (m !! "fills") (int 0) |} config now.
Proof.
  intros [_ Ht Hu Ho Hf _ _ _ _]. unfold reads0 in *.
  destruct (Ht (maxTokens config)) as [-> _], (Hu now) as [-> _]. rewrite Ho, Hf. done.
Qed.
End relation.

(** ** What the memory backend's writes leave *)

Definition holds (now : num) (w : World) (g : string -> option Entry) : Prop :=
  forall k, live_at now w k = g k.

Lemma alive_expired_at now ttl e : instant now -> in_range ttl -> expired now (expired_at now ttl e) = false.
Proof. intros Hn Ht. unfold expired, expired_at. cbn. by apply ltb_not_geb, lifetime_future. Qed.

Lemma upsert_holds now key g w :
  expired now (g (default empty_entry (live_at now w key))) = false ->
  holds now (upsert now key g w) (patch key (Some (g (default empty_entry (live_at now w key)))) (live_at now w)).
Proof.
  intros He k. unfold patch. case_decide as Hk; [subst k|by apply live_at_upsert_ne].
  rewrite live_at_upsert. cbv zeta. by rewrite He.
Qed.

Lemma upsert_epochs now key g w : epochs (upsert now key g w) = epochs w.
Proof. unfold upsert. by destruct (live_at now w key). Qed.

Lemma writeBucket_holds key st t config ttl now w :
  normalizeTtlSeconds (match config with Some c => bucketTtl t c | None => t end) = Ok ttl ->
  in_range ttl -> instant now ->
  exists w', writeBucket key st t config now w = (Ok tt, w') /\ epochs w' = epochs w /\
    holds now w' (patch key (Some (bucket_entry st now ttl (default empty_entry (live_at now w key))))
                    (live_at now w)).
Proof.
  intros Ht Hr Hn. eexists.
  split; [apply (writeBucket_run _ _ _ _ _ _ _ Ht), in_range_ttl_pos, Hr|].
  split; [apply upsert_epochs|]. apply upsert_holds. by apply alive_expired_at.
Qed.

Lemma writeMark_holds key mark cost st now w e h :
  live_at now w key = Some e -> e_hash e = Some h ->
  instant now -> in_range (mark_ttlSeconds mark) ->
  let mk := claimMarkKey key (mark_id mark) in
  let em := default empty_entry (live_at now w mk) in
  exists w', writeMark key mark cost st now w = (Ok tt, w') /\
    epochs w' = (match h !! "epoch" with Some _ => epochs w | None => epochs w + int 1 end) /\
    holds now w'
      (patch mk (Some (expired_at now (mark_ttlSeconds mark) (with_hash
           (mark_fields (num_to_string cost) (num_to_string (overflow st)) (num_to_string (fills st))
              (num_to_string (parseFiniteStored (h !! "generation") (int 0))) (epoch_after w h)
              (num_to_string (parseFiniteStored (h !! "forgiven") (int 0))) (default ∅ (e_hash em))) em)))
      (patch key (Some (with_hash (<["epoch" := epoch_after w h]> h) e)) (live_at now w))).
Proof.
  intros He Hh Hn Hr mk em. assert (mk <> key) as Hne by by apply string_app_ne.
  destruct (in_range_ttl_pos _ Hr) as [Ht Hp].
  assert (hash_at now w key = Some h) as Hk by (unfold hash_at; by rewrite He).
  unfold writeMark. rewrite (bind_ok _ _ _ _ _ _ (hash_present_run _ _ _ _ Hk)).
  assert (exists w1, (match h !! "epoch" with
                      | Some _ => mret tt
                      | None => n ← next_epoch; hash_set key "epoch" (num_to_string n)
                      end) now w = (Ok tt, w1) /\
    epochs w1 = (match h !! "epoch" with Some _ => epochs w | None => epochs w + int 1 end) /\
    holds now w1 (patch key (Some (with_hash (<["epoch" := epoch_after w h]> h) e)) (live_at now w)))
    as (w1 & E1 & Ep & H1).
  { unfold epoch_after. destruct (h !! "epoch") as [ep|] eqn:Ee; cbn [default].
    - exists w. split_and!; [done..|]. intros k. unfold patch. case_decide; [subst|done].
      rewrite He, insert_id by done. f_equal. destruct e. unfold with_hash. cbn in *. by subst.
    - eexists. split; [done|]. split; [done|]. intros k.
      rewrite live_at_alter by auto with store. unfold patch. case_decide; [subst|done].
      change (live_at now (with_epochs _ w) key) with (live_at now w key). rewrite He. cbn.
      f_equal. unfold on_hash. by rewrite Hh. }
  rewrite (bind_ok _ _ _ _ _ _ E1). cbv zeta. fold mk. unfold hash_set.
  rewrite (bind_ok _ _ _ _ _ _ (hash_run _ _ _)).
  do 3 rewrite (bind_ok _ _ _ _ _ _ (update_upsert _ _ _ _ _)).
  match goal with |- context [upsert now mk ?g w1] => set (w2 := upsert now mk g w1) end.
  assert (hash_at now w2 key = Some (<["epoch" := epoch_after w h]> h)) as H2.
  { unfold hash_at, w2. rewrite live_at_upsert_ne, H1, patch_eq by done. done. }
  rewrite (bind_ok _ _ _ _ _ _ (hash_present_run _ _ _ _ H2)). unfold w2.
  do 3 rewrite (bind_ok _ _ _ _ _ _ (update_upsert _ _ _ _ _)).
  rewrite (expire_upsert _ _ _ _ _ _ Ht Hp) by auto 10 with store.
  eexists. split; [done|]. split; [by rewrite upsert_epochs|]. intros k.
  rewrite upsert_holds by by apply alive_expired_at.
  assert (live_at now w1 mk = live_at now w mk) as Emk by by rewrite H1, patch_ne.
  rewrite Emk. fold em. destruct (decide (k = mk)) as [->|Hkm]; [|by rewrite !(patch_ne mk), H1].
  rewrite !patch_eq. f_equal.
  rewrite lookup_insert_eq, !lookup_insert_ne by done. by destruct em as [? [?|] ? ? ?].
Qed.

Lemma wf_refill_state st config now :
  wf_num (maxTokens config) -> wf_num (tokens st) -> wf_num (lastUpdate st) ->
  wf_num (overflow st) -> wf_num (fills st) ->
  let st' := refill_state st config now in
  wf_num (tokens st') /\ wf_num (lastUpdate st') /\ wf_num (overflow st') /\ wf_num (fills st').
Proof.
  intros Hm Ht Hu Ho Hf. unfold refill_state.
  assert (wf_num (credit st config now).1 /\ wf_num (credit st config now).2) as [H1 H2].
  { unfold credit. cbv zeta. repeat case_match; split; try done; apply wf_add. }
  destruct (credit st config now) as [t u]. cbn [fst snd] in *.
  repeat case_match; cbn; split_and!; try done; apply wf_add.
Qed.
