(* ===== verification/RedisClaims.v ===== *)
(** * Claims on both backends

    What the claiming scripts and the memory backend's claims do to twin
    buckets: the same answer, and twins again. *)
From S2P Require Import Prelude JsNumber JsString Json Shared SharedFacts.
From S2P Require Import MemoryStore StoreFacts TokenBucket TokenBucketFacts Concurrency Queue Freeze.
From S2P Require Import Backend Observe StoreProps Atomicity AdmissionProps SettlementProps.
From S2P Require Import Client RedisServer RedisFacts RedisBucket RedisTwins.
Local Open Scope num_scope.

(** ** The two ways to write the arithmetic *)

Lemma lua_min_fmin a b : isNaN b = false -> lua_min a b = fmin a b.
Proof. intros Hb. unfold lua_min, fmin. by destruct a as [|[]|], b as [|[]|]. Qed.

Lemma clamp_fmax x : (if x <? int 0 then int 0 else x) = fmax (int 0) x.
Proof.
  destruct x as [|[]|m]; try done. unfold fmax, ltb, int. rewrite Z.mul_0_l.
  destruct (Z.ltb_spec m 0), (Z.ltb_spec 0 m); try done; try lia. f_equal. lia.
Qed.

Lemma lua_usableCost_eq cost : lua_usableCost (Some cost) = usableCost cost.
Proof. unfold lua_usableCost, usableCost. by destruct cost as [|[]|]. Qed.

Lemma usableCost_finite cost : usableCost cost = true -> isFinite cost = true /\ (int 0 <=? cost) = true.
Proof. intros [? ?]%andb_true_iff. done. Qed.

Lemma finite_not_nan x : isFinite x = true -> isNaN x = false.
Proof. by destruct x. Qed.

Lemma lua_covers_eq t cost max :
  isNaN cost = false -> lua_covers t cost max = coversCost t cost max.
Proof. intros Hc. unfold lua_covers, coversCost. by rewrite lua_min_fmin. Qed.

(** The refusals of the two, in their order. *)
Lemma unusableBudget_eq cost config :
  unusableBudget cost config
  = (if negb (tokensToAdd config >? int 0) then Some "tokensToAdd must be greater than 0"
     else if bad_max (Some (maxTokens config)) then Some "maxTokens must be a finite number greater than 0"
     else if negb (lua_usableCost (Some cost)) then Some "cost must be a finite number that is not negative"
     else if bad_interval (Some (interval config)) then Some "interval must be a finite number"
     else None).
Proof.
  unfold unusableBudget. rewrite <- lua_usableCost_eq.
  assert (negb (isFinite (maxTokens config)) || (maxTokens config <=? int 0)
          = bad_max (Some (maxTokens config))) as ->.
  { unfold bad_max, gtb. destruct (maxTokens config) as [|[]|m]; try done. cbn.
    rewrite orb_false_r. unfold int, ltb, leb. by rewrite Z.leb_antisym. }
  assert (negb (isFinite (interval config)) = bad_interval (Some (interval config))) as ->
    by by destruct (interval config) as [|[]|].
  done.
Qed.

Section claims.
Context {R : Type} `{Srv : RedisServer R} `{!RedisLaws R} `{Lua : LuaRuntime} `{!LuaLaws}.
Variable kind : string -> key_kind.
Context (t : clock) (Hnow : instant (ms t)).
Local Notation now := (ms t).

Lemma wf_now : wf_num now.
Proof. destruct Hnow as (z & -> & Hz). apply wf_int. unfold safe. lia. Qed.

(** ** What twin keys read as *)

Lemma twins_bucket n E k v e :
  key_twins kind n E k v e -> kind k = KBucket -> (0 <= n)%Z ->
  exists r, hash_in v = Some r /\ bucket_twins n E k r (default ∅ (e ≫= e_hash)) /\
    (v = None /\ e = None \/ exists e', v = Some (RHash r, expiresAt e') /\ e = Some e').
Proof.
  intros Hk Hb Hn. destruct v as [[[s|r|z|l] x]|], e as [e|]; try done; cbn in Hk.
  - destruct Hk as (<- & m & Hm & Hh). unfold hash_twins in Hh. rewrite Hb in Hh.
    exists r. split; [done|]. cbn. rewrite Hm. split; [done|]. right. eauto.
  - destruct Hk as (_ & Hq & _). congruence.
  - exists ∅. split; [done|]. split; [|by left]. cbn. split; rewrite ?lookup_empty; try done.
    all: first [apply reads_None | apply reads_reads0, reads_None | idtac].
    exists 0%Z. split; [lia|]. split; [by right|]. apply parseFinite_None.
Qed.

Lemma twins_mark n E k b v e :
  key_twins kind n E k v e -> kind k = KMark b ->
  v = None /\ e = None \/
  exists r e' m, v = Some (RHash r, expiresAt e') /\ e = Some e' /\ e_hash e' = Some m /\ mark_twins E b r m.
Proof.
  intros Hk Hb. destruct v as [[[s|r|z|l] x]|], e as [e|]; try done; cbn in Hk; [| |by left].
  - destruct Hk as (<- & m & Hm & Hh). unfold hash_twins in Hh. rewrite Hb in Hh. right. eauto 10.
  - destruct Hk as (_ & Hq & _). congruence.
Qed.

Lemma twins_generation n E b r m :
  bucket_twins n E b r m -> (n <= 2 ^ 50)%Z -> reads0 (r !! "generation") (m !! "generation").
Proof.
  intros [_ _ _ _ _ _ _ (z & Hz & Hg & Hm) _] Hn. unfold reads0. rewrite Hm.
  destruct Hg as [->|[-> ->]]; [|done]. unfold integer_text.
  rewrite finiteNumber_js by (apply wf_int; unfold safe; lia). done.
Qed.

(** ** Writing a bucket *)

(** The numbers of a bucket that is about to be written. *)
Definition wf_bucket (b : BucketState) : Prop :=
  wf_num (tokens b) /\ wf_num (lastUpdate b) /\ wf_num (overflow b) /\ wf_num (fills b).

Lemma bucket_twins_write n E key r m b :
  wf_bucket b -> bucket_twins n E key r m ->
  bucket_twins n E key (put_fields (bucket_kvs b) r) (bucket_fields b m).
Proof.
  intros (Ht & Hu & Ho & Hf) [H1 H2 H3 H4 H5 H6 H7 H8 H9].
  unfold put_fields, bucket_kvs, bucket_fields. cbn [fold_left fst snd].
  split; repeat first [rewrite lookup_insert_eq | rewrite lookup_insert_ne by done];
    auto using reads_written, reads0_written. done.
Qed.

Lemma alike_bucket n used E f g ep key r b ttl :
  alike kind n used E f g ep -> kind key = KBucket -> (0 <= n)%Z -> hash_in (f key) = Some r -> wf_bucket b ->
  alike kind n used E
    (patch key (Some (RHash (put_fields (bucket_kvs b) r), Some (now + ttl * int 1000))) f)
    (patch key (Some (bucket_entry b now ttl (default empty_entry (g key)))) g) ep.
Proof.
  intros Ha Hk Hn Hr Hb. apply alike_patch; [|done]. cbn. split; [done|].
  destruct Ha as (Hks & _ & _). destruct (twins_bucket n E key _ _ (Hks key) Hk Hn) as (r' & Hr' & Ht & _).
  assert (r' = r) as -> by congruence. eexists. split; [done|].
  unfold hash_twins. rewrite Hk.
  assert (default ∅ (e_hash (default empty_entry (g key))) = default ∅ (g key ≫= e_hash)) as ->
    by by destruct (g key).
  by apply bucket_twins_write.
Qed.

(** ** Writing a mark *)

Lemma lua_writeMark_run clk mk ttl claimed b key s r x old :
  in_range ttl -> mk <> key ->
  look now s key = Some (RHash r, x) -> hash_in (look now s mk) = Some old ->
  let r' := <["epoch" := default clk (r !! "epoch")]> r in
  exists s', lua_writeMark now clk mk ttl claimed b key s = (Return tt, s') /\
    shows now s'
      (patch mk (Some (RHash (mark_fields (fmt17 claimed) (fmt17 (overflow b)) (fmt17 (fills b))
                              (fmt17 (finiteNumber (r !! "generation") (int 0)))
                              (default clk (r !! "epoch"))
                              (fmt17 (finiteNumber (r !! "forgiven") (int 0))) old),
                     Some (now + ttl * int 1000)))
      (patch key (Some (RHash r', x)) (look now s))).
Proof.
  intros Ht Hne Hk Hm r'. unfold lua_writeMark, call_HSETNX.
  assert (exists s1, (old ← call_HGET now key "epoch";
                      match old with Some _ => mret tt | None => call_HSET now key [("epoch", clk)] end) s
            = (Return tt, s1) /\ shows now s1 (patch key (Some (RHash r', x)) (look now s))) as (s1 & E1 & H1').
  { rewrite (sbind_ok _ _ _ _ _ (HGET_run now key "epoch" r s ltac:(by rewrite Hk))). unfold r'.
    destruct (r !! "epoch") as [er|] eqn:Ee; cbn [default].
    - exists s. split; [done|]. intros k. unfold patch. case_decide; [subst|done]. by rewrite insert_id.
    - destruct (HSET_run now Hnow key [("epoch", clk)] r s) as (s1 & E1 & H1'); [done|by rewrite Hk|].
      exists s1. split; [done|]. by rewrite Hk in H1'. }
  rewrite (sbind_ok _ _ _ _ _ E1).
  assert (hash_in (look now s1 key) = Some r') as Hk1 by by rewrite H1', patch_eq.
  rewrite (sbind_ok _ _ _ _ _ (HGETALL_run now key r' s1 Hk1)).
  assert (hash_in (look now s1 mk) = Some old) as Hm1 by by rewrite H1', patch_ne.
  destruct (HSET_EXPIRE_end now Hnow mk
    [("claimed", fmt17 claimed); ("overflow", fmt17 (overflow b)); ("fills", fmt17 (fills b));
     ("generation", fmt17 (finiteNumber (r' !! "generation") (int 0)));
     ("epoch", default "" (r' !! "epoch"));
     ("forgiven", fmt17 (finiteNumber (r' !! "forgiven") (int 0)))] ttl old s1)
    as (s2 & E2 & H2); [done..|].
  exists s2. split; [exact E2|].
  intros k. rewrite H2. destruct (decide (k = mk)) as [->|Hkm]; [|by rewrite !(patch_ne mk)].
  rewrite !patch_eq. unfold put_fields, mark_fields, r'. cbn [fold_left fst snd].
  by rewrite lookup_insert_eq, !lookup_insert_ne by done.
Qed.

Lemma patch_ext {A} key (v : A) (f f' : string -> A) :
  (forall k, f k = f' k) -> forall k, patch key v f k = patch key v f' k.
Proof. intros Hf k. unfold patch. by case_decide. Qed.

Lemma reads0_rewritten r m :
  reads0 r m ->
  reads0 (Some (fmt17 (finiteNumber r (int 0)))) (Some (num_to_string (parseFiniteStored m (int 0)))).
Proof. intros ->. apply reads0_written. apply wf_parseFinite, wf_int. done. Qed.

Lemma not_negative_written v :
  wf_num v -> isFinite v = true -> (int 0 <=? v) = true -> not_negative (Some (num_to_string v)).
Proof. intros Hw Hf Hv. unfold not_negative. by rewrite parseFinite_num_to_string. Qed.

(** The mark two claims leave on twin buckets. *)
Lemma mark_twins_write E b (r m : gmap string string) cost st er em old old' :
  wf_num cost -> usableCost cost = true -> wf_bucket st ->
  reads0 (r !! "generation") (m !! "generation") ->
  reads0 (r !! "forgiven") (m !! "forgiven") -> not_negative (m !! "forgiven") -> minted E b er em ->
  mark_twins E b
    (mark_fields (fmt17 cost) (fmt17 (overflow st)) (fmt17 (fills st))
       (fmt17 (finiteNumber (r !! "generation") (int 0))) er
       (fmt17 (finiteNumber (r !! "forgiven") (int 0))) old)
    (mark_fields (num_to_string cost) (num_to_string (overflow st)) (num_to_string (fills st))
       (num_to_string (parseFiniteStored (m !! "generation") (int 0))) em
       (num_to_string (parseFiniteStored (m !! "forgiven") (int 0))) old').
Proof.
  intros Hc Hu (_ & _ & Ho & Hf) Hg Hfo Hn He. destruct (usableCost_finite _ Hu) as [Hfin Hpos].
  unfold mark_fields. split; repeat first [rewrite lookup_insert_eq | rewrite lookup_insert_ne by done];
    auto using reads0_written, reads0_rewritten, not_negative_written. all: try by eauto.
  apply not_negative_written; [by apply wf_parseFinite, wf_int|by apply parseFinite_finite|done].
Qed.

(** Marking a claim on twin buckets, whether or not they have an incarnation. *)
Lemma mark_sim n used E s w key mark cost st r x e m :
  alike kind n used E (look now s) (live_at now w) (epochs w) ->
  (n < 2 ^ 50)%Z -> micros t ∉ used -> micros t <> "" ->
  kind key = KBucket -> kind (claimMarkKey key (mark_id mark)) = KMark key ->
  in_range (mark_ttlSeconds mark) ->
  look now s key = Some (RHash r, x) -> live_at now w key = Some e -> e_hash e = Some m ->
  wf_num cost -> usableCost cost = true -> wf_bucket st ->
  exists s' w', lua_writeMark now (micros t) (claimMarkKey key (mark_id mark)) (mark_ttlSeconds mark)
                  cost st key s = (Return tt, s') /\
    writeMark key mark cost st now w = (Ok tt, w') /\
    twins kind (n + 1) (micros t :: used) now s' w'.
Proof.
  intros Ha Hn Hfresh Hne Hk Hmk Ht Hs Hw Hm Hc Hu Hst.
  set (mk := claimMarkKey key (mark_id mark)) in *. assert (mk <> key) as Hkk by by apply string_app_ne.
  pose proof Ha as (Hkeys & Hl & Hn').
  pose proof (Hkeys key) as Hkey. rewrite Hs, Hw in Hkey. destruct Hkey as (Hx & m' & Hm' & Hbt).
  assert (m' = m) as -> by congruence. unfold hash_twins in Hbt. rewrite Hk in Hbt.
  assert (exists old, hash_in (look now s mk) = Some old) as [old Hold].
  { destruct (twins_mark n E mk key _ _ (Hkeys mk) Hmk) as [[-> _]|(? & ? & ? & -> & _)]; by eexists. }
  destruct (lua_writeMark_run (micros t) mk (mark_ttlSeconds mark) cost st key s r x old Ht Hkk Hs Hold)
    as (s' & E1 & Hs').
  destruct (writeMark_holds key mark cost st now w e m Hw Hm Hnow Ht) as (w' & E2 & Hep & Hw').
  exists s', w'. split; [exact E1|]. split; [exact E2|]. fold mk in Hw'.
  assert (exists E', (forall y, y ∈ E -> y ∈ E') /\ ledger (n + 1) (micros t :: used) E' (epochs w') /\
      minted E' key (default (micros t) (r !! "epoch")) (epoch_after w m)) as (E' & Hsub & Hl' & Hmint).
  { destruct Hbt as [_ _ _ _ _ _ _ _ He]. unfold same_incarnation, epoch_after in *. rewrite Hep.
    destruct (r !! "epoch") as [er|], (m !! "epoch") as [em|]; try done; cbn [default].
    - exists E. split_and!; [done| |done]. eapply ledger_more; [..|exact Hl]; [lia|].
      intros y Hy. by apply list_elem_of_further.
    - pose proof Hl as [(j & Hj & _) _]. rewrite Hj in Hl |- *.
      destruct (ledger_mint n used E j key (micros t) Hl Hfresh Hne Hn) as [Hl' Ej].
      eexists. split_and!; [|exact Hl'|].
      + intros y Hy. by apply list_elem_of_further.
      + exists (j + 1)%Z. rewrite Ej. split; [by apply list_elem_of_here|done]. }
  pose proof (twins_generation n E key r m Hbt Hn') as Hg.
  pose proof (key_twins_mono kind n (n + 1) E E') as Hmono.
  exists E'. eapply alike_ext; [apply Hs'|apply Hw'|].
  apply alike_patch.
  { cbn. split; [done|]. eexists. split; [done|]. unfold hash_twins. rewrite Hmk.
    destruct Hbt as [_ _ _ _ _ Hfo Hnn _ _]. by apply mark_twins_write. }
  apply alike_patch.
  { cbn. split; [done|]. eexists. split; [done|]. unfold hash_twins. rewrite Hk.
    destruct Hbt as [B1 B2 B3 B4 B5 B6 B7 (z & Hz & B8) B9].
    split; rewrite ?lookup_insert_eq, ?lookup_insert_ne by done; try done. exists z. split; [lia|done]. }
  split_and!; [|done|lia]. intros k. apply Hmono; [lia|done|apply Hkeys].
Qed.

(** ** Reading a bucket *)

Lemma field_default now' w k f : field_at now' w k f = default ∅ (hash_at now' w k) !! f.
Proof. unfold field_at. destruct (hash_at now' w k); [done|]. cbn. by rewrite lookup_empty. Qed.

Lemma read_bucket_run key max r s :
  hash_in (look now s key) = Some r ->
  read_bucket now key max s
  = (Return {| tokens := finiteNumber (r !! "tokens") max; lastUpdate := finiteNumber (r !! "lastUpdate") now;
               overflow := finiteNumber (r !! "overflow") (int 0);
               fills := finiteNumber (r !! "fills") (int 0) |}, s).
Proof.
  intros Hr. unfold read_bucket. by rewrite !(sbind_ok _ _ _ _ _ (HGET_run now key _ r s Hr)).
Qed.

(** The refilled bucket a script computes is the one the memory backend does. *)
Lemma refilled_eq n E key r w config :
  bucket_twins n E key r (default ∅ (hash_at now w key)) ->
  lazyRefill now (maxTokens config) (tokensToAdd config) (interval config)
    {| tokens := finiteNumber (r !! "tokens") (maxTokens config);
       lastUpdate := finiteNumber (r !! "lastUpdate") now;
       overflow := finiteNumber (r !! "overflow") (int 0);
       fills := finiteNumber (r !! "fills") (int 0) |} = bucket_at now w key config.
Proof.
  intros Hb. rewrite (twins_refill n E key r _ config now Hb). unfold bucket_at, stored_bucket.
  by rewrite !field_default.
Qed.

Lemma wf_bucket_at w key config : wf_num (maxTokens config) -> wf_bucket (bucket_at now w key config).
Proof.
  intros Hm. apply wf_refill_state; [done|..]; cbn; apply wf_parseFinite; try done;
    [apply wf_now|by apply wf_int..].
Qed.

Lemma wf_with_tokens x b : wf_num x -> wf_bucket b -> wf_bucket (with_tokens x b).
Proof. intros Hx (_ & ? & ? & ?). by split_and!. Qed.

(** ** A claim that was let through *)

(** What the memory backend writes for it. *)
Definition memory_spend (key : string) (cost : num) (config : TokenBucketConfig) (ttl : num)
    (mark : option ClaimMark) (st : BucketState) : M unit :=
  if coversCost (tokens st) cost (maxTokens config) then
    writeBucket key (with_tokens (tokens st - cost) st) ttl (Some config) ;;
    write_mark_opt key mark cost st
  else writeBucket key st ttl (Some config).

(** The mark's key, lifetime and flag, as [markArgs] passes them. *)
Definition mark_args (key : string) (mark : option ClaimMark) : string * num * bool :=
  match mark with
  | Some m => (claimMarkKey key (mark_id m), mark_ttlSeconds m, true)
  | None => (key, int 0, false)
  end.

(** A mark's key names the bucket it is against. *)
Definition mark_fits (key : string) (mark : option ClaimMark) : Prop :=
  forall m, mark = Some m -> kind (claimMarkKey key (mark_id m)) = KMark key /\ in_range (mark_ttlSeconds m).

Lemma bucketTtl_writes ttl config :
  in_range ttl -> normalizeTtlSeconds (bucketTtl ttl config) = Ok (bucketTtl ttl config) /\
  in_range (bucketTtl ttl config).
Proof. intros Ht. pose proof (bucketTtl_in_range ttl config Ht) as Hr. by destruct (in_range_ttl_pos _ Hr). Qed.

Lemma spend_sim n used s w w1 key cost config ttl mark :
  twins kind n used now s w -> (0 <= n < 2 ^ 50)%Z -> micros t ∉ used -> micros t <> "" ->
  kind key = KBucket -> mark_fits key mark -> in_range ttl ->
  usableCost cost = true -> wf_num cost -> wf_num (maxTokens config) ->
  holds now w1 (live_at now w) -> epochs w1 = epochs w ->
  let st := bucket_at now w key config in
  let '(mk, mt, has) := mark_args key mark in
  exists s' w',
    spend t key mk cost (maxTokens config) (tokensToAdd config) (interval config) ttl mt has s
    = (Return (coversCost (tokens st) cost (maxTokens config), st), s') /\
    memory_spend key cost config ttl mark st now w1 = (Ok tt, w') /\
    twins kind (n + 1) (micros t :: used) now s' w'.
Proof.
  intros (E & Ha) Hn Hfresh Hne Hk Hmark Ht Hu Hc Hm Hw1 Hep st.
  destruct (mark_args key mark) as [[mk mt] has] eqn:Eargs.
  destruct (twins_bucket n E key _ _ (proj1 Ha key) Hk ltac:(lia)) as (r & Hr & Hb & _).
  destruct (bucketTtl_writes ttl config Ht) as [Hnorm Hrange].
  pose proof (wf_bucket_at w key config Hm) as Hwf. fold st in Hwf.
  assert (isNaN cost = false) as Hcn by by apply finite_not_nan, usableCost_finite.
  unfold spend, memory_spend. rewrite (sbind_ok _ _ _ _ _ (read_bucket_run key (maxTokens config) r s Hr)).
  rewrite (refilled_eq n E key r w config) by exact Hb. fold st. cbv zeta.
  rewrite lua_bucketTtl_eq, lua_covers_eq by done.
  assert (alike kind n used E (look now s) (live_at now w1) (epochs w1)) as Ha1.
  { rewrite Hep. eapply alike_ext; [done|exact Hw1|exact Ha]. }
  assert (forall b, wf_bucket b -> forall B (g : unit -> Script R B), exists s1 w1',
    (call_HSET now key (bucket_kvs b) ;; call_EXPIRE now key (bucketTtl ttl config) ;; g tt) s = g tt s1 /\
    writeBucket key b ttl (Some config) now w1 = (Ok tt, w1') /\
    alike kind n used E (look now s1) (live_at now w1') (epochs w1') /\
    (exists r1 x e1 m1, look now s1 key = Some (RHash r1, x) /\ live_at now w1' key = Some e1 /\ e_hash e1 = Some m1))
    as Hwrite.
  { intros b Hwb B g.
    destruct (HSET_EXPIRE_run now Hnow key (bucket_kvs b) (bucketTtl ttl config) r g s) as (s1 & -> & Hs1);
      [done..|].
    destruct (writeBucket_holds key b ttl (Some config) _ now w1 Hnorm Hrange Hnow) as (w1' & E1 & Ep1 & Hw1').
    exists s1, w1'. split_and!; [done..| |].
    - rewrite Ep1. eapply alike_ext; [exact Hs1|exact Hw1'|].
      apply alike_bucket; try done; lia.
    - eexists _, _, _, _. split; [by rewrite Hs1, patch_eq|]. split; [by rewrite Hw1', patch_eq|]. done. }
  destruct (coversCost (tokens st) cost (maxTokens config)).
  - destruct (Hwrite _ (wf_with_tokens _ _ (wf_sub (tokens st) cost) Hwf) _
      (fun _ => (if has then lua_writeMark now (micros t) mk mt cost st key else mret tt) ;; mret (true, st)))
      as (s1 & w1' & E1 & E2 & Ha2 & r1 & x & e1 & m1 & H1 & H2 & H3).
    rewrite E1, (bind_ok _ _ _ _ _ _ E2). destruct mark as [mark|]; injection Eargs as <- <- <-.
    + destruct (Hmark mark eq_refl) as [Hmk Hmt].
      destruct (mark_sim n used E s1 w1' key mark cost st r1 x e1 m1 Ha2 ltac:(lia) Hfresh Hne Hk Hmk Hmt H1 H2 H3
        Hc Hu Hwf) as (s2 & w2 & E3 & E4 & Htw).
      exists s2, w2. split; [|by split]. by rewrite (sbind_ok _ _ _ _ _ E3).
    + exists s1, w1'. split_and!; [done..|]. exists E. eapply alike_more; [..|exact Ha2]; [lia|].
      intros y Hy. by apply list_elem_of_further.
  - destruct (Hwrite st Hwf _ (fun _ => mret (false, st))) as (s1 & w1' & E1 & E2 & Ha2 & _).
    exists s1, w1'. split_and!; [exact E1|exact E2|]. exists E. eapply alike_more; [..|exact Ha2]; [lia|].
    intros y Hy. by apply list_elem_of_further.
Qed.
End claims.
