(* ===== verification/RedisAgree.v ===== *)
(** * The bucket operations of the two backends agree

    Each operation on token buckets, run at one instant on a Redis server and on
    a memory backend that hold the same, gives the same reply and leaves the
    same. *)
From S2P Require Import Prelude JsNumber JsString Json Shared SharedFacts.
From S2P Require Import MemoryStore StoreFacts TokenBucket TokenBucketFacts Concurrency Queue Freeze.
From S2P Require Import Backend Observe StoreProps Atomicity AdmissionProps SettlementProps.
From S2P Require Import Client RedisServer RedisFacts RedisBucket RedisTwins RedisClaims.
Local Open Scope num_scope.

Definition outcome_from {A} (r : result A) : outcome A :=
  match r with Ok a => Return a | Throw e => Raise (JsError e) end.

Definition wf_config (config : TokenBucketConfig) : Prop :=
  wf_num (maxTokens config) /\ wf_num (tokensToAdd config) /\ wf_num (interval config).

Section agree.
Context {R : Type} `{Srv : RedisServer R} `{!RedisLaws R} `{Lua : LuaRuntime} `{!LuaLaws}.
Variable kind : string -> key_kind.
Context (t : clock) (Hnow : instant (ms t)).
Local Notation now := (ms t).

(** Both run at one instant: one outcome, and twins again. *)
Definition agrees {A} (n : Z) (used : list string) (m : Script R A) (m' : M A) (s : R) (w : World) : Prop :=
  exists r s' w', m s = (outcome_from r, s') /\ m' now w = (r, w') /\ twins kind n used now s' w'.

Lemma twins_more n used s w w1 :
  twins kind n used now s w -> (n < 2 ^ 50)%Z -> holds now w1 (live_at now w) -> epochs w1 = epochs w ->
  twins kind (n + 1) (micros t :: used) now s w1.
Proof.
  intros (E & Ha) Hn Hw Hep. exists E. rewrite Hep. eapply alike_ext; [done|exact Hw|].
  eapply alike_more; [..|exact Ha]; [lia|]. intros y Hy. by apply list_elem_of_further.
Qed.

(** ** Marks *)

(** A mark's key names its bucket, and its lifetime is a double. *)
Definition mark_named (key : string) (mark : option ClaimMark) : Prop :=
  forall m, mark = Some m -> kind (claimMarkKey key (mark_id m)) = KMark key /\ wf_num (mark_ttlSeconds m).

Lemma markArgs_run key mark (s : R) :
  markArgs key mark s = (match mark_result mark with
                         | Ok m => Return (mark_args key m)
                         | Throw e => Raise (JsError e)
                         end, s).
Proof.
  destruct mark as [m|]; [|done]. unfold markArgs, mark_result, mbind, Script_bind, script_of.
  by destruct (normalizeStateTtlSeconds (mark_ttlSeconds m)).
Qed.

Lemma arg_or_wf n d : wf_num n -> arg_or n d = n.
Proof. intros Hn. unfold arg_or, arg. by rewrite tonumber_string. Qed.

Lemma arg_wf n : wf_num n -> arg n = Some n.
Proof. apply tonumber_string. Qed.

Lemma mark_result_fits key mark m :
  mark_named key mark -> mark_result mark = Ok m ->
  mark_fits kind key m /\ let '(mk, mt, has) := mark_args key m in arg_or mt (int 0) = mt.
Proof.
  intros Hm. destruct mark as [mark|]; cbn.
  2:{ intros [= <-]. split; [done|]. cbn. by apply arg_or_wf, wf_int. }
  destruct (Hm mark eq_refl) as [Hk Hw].
  destruct (normalizeStateTtlSeconds (mark_ttlSeconds mark)) as [ttl|] eqn:E; [|done].
  destruct (wf_stateTtl _ _ Hw E) as [Hwt Hr]. intros [= <-]. split; [|by apply arg_or_wf].
  intros m' [= <-]. by cbn.
Qed.

(** ** Claims *)

Lemma read_granted x :
  read_acquired (JObj [("acquired", JBool true); ("remainingTokens", exact x)])
  = {| at_acquired := true; at_waitTime := None; at_remainingTokens := Some (parseLuaNumber (JStr (fmt17 x)));
       at_error := None |}.
Proof. reflexivity. Qed.

Lemma read_declined x y :
  read_acquired (JObj [("acquired", JBool false); ("waitTime", exact x); ("remainingTokens", exact y)])
  = {| at_acquired := false; at_waitTime := Some (parseLuaNumber (JStr (fmt17 x)));
       at_remainingTokens := Some (parseLuaNumber (JStr (fmt17 y))); at_error := None |}.
Proof. reflexivity. Qed.

Lemma wf_fmax0 x : wf_num x -> wf_num (fmax (int 0) x).
Proof.
  intros Hx. rewrite <- clamp_fmax. destruct (x <? int 0); [by apply wf_int|done].
Qed.

Lemma memory_spend_then {A} key cost config ttl mark st w w' (a b : A) :
  memory_spend key cost config ttl mark st now w = (Ok tt, w') ->
  (if coversCost (tokens st) cost (maxTokens config) then
     writeBucket key (with_tokens (tokens st - cost) st) ttl (Some config) ;;
     write_mark_opt key mark cost st ;; mret a
   else writeBucket key st ttl (Some config) ;; mret b) now w
  = (Ok (if coversCost (tokens st) cost (maxTokens config) then a else b), w').
Proof.
  unfold memory_spend. destruct (coversCost _ _ _).
  - rewrite bind_run. intros Hw. rewrite bind_run.
    destruct (writeBucket _ _ _ _ now w) as [[[]|e] w1]; [|done]. by rewrite (bind_ok _ _ _ _ _ _ Hw).
  - intros Hw. by rewrite (bind_ok _ _ _ _ _ _ Hw).
Qed.

Lemma acquire_agrees n used s w key cost config mark :
  twins kind n used now s w -> (0 <= n < 2 ^ 50)%Z -> micros t ∉ used -> micros t <> "" ->
  kind key = KBucket -> mark_named key mark -> wf_num cost -> wf_config config ->
  agrees (n + 1) (micros t :: used) (redis_acquireTokens t key cost config mark)
    (acquireTokens key cost config mark) s w.
Proof.
  intros Htw Hn Hfresh Hne Hk Hmark Hc (Hm & Ha & Hi). unfold agrees, redis_acquireTokens, acquireTokens.
  unfold mbind at 1, Script_bind at 1. rewrite markArgs_run, bind_run, claimMark_run.
  destruct (mark_result mark) as [m|e] eqn:Em.
  2:{ exists (Throw e), s, w. split_and!; [done..|]. apply (twins_more n used s w w); [done|lia|done..]. }
  destruct (mark_result_fits key mark m Hmark Em) as [Hfit Hmt].
  assert (in_range (int 86400)) as Hday by apply in_range_day.
  destruct (usableCost cost) eqn:Hu.
  2:{ rewrite unusableBudget_eq, lua_usableCost_eq, Hu.
      destruct (mark_args key m) as [[mk mt] has]. cbn [negb].
      unfold tokenBucket. rewrite !arg_wf, lua_usableCost_eq, Hu by done. cbn [negb].
      exists (Ok {| at_acquired := false; at_waitTime := Some (int 0); at_remainingTokens := Some (int 0);
           at_error := Some (if negb (tokensToAdd config >? int 0) then "tokensToAdd must be greater than 0"
             else if bad_max (Some (maxTokens config)) then "maxTokens must be a finite number greater than 0"
             else "cost must be a finite number that is not negative") |}), s, w.
      split_and!; [| |apply (twins_more n used s w w); [done|lia|done..]];
      destruct (negb (tokensToAdd config >? int 0)); [done| |done|]; by destruct (bad_max _). }
  pose proof (spend_sim kind t Hnow n used s w (purge_key now key w) key cost config (int 86400) m Htw Hn Hfresh Hne
    Hk Hfit Hday Hu Hc Hm (fun k => live_at_purge_key now key k w) (purge_key_epochs now key w)) as Hsim.
  cbv zeta in Hsim. set (st := bucket_at now w key config) in *.
  rewrite unusableBudget_eq, lua_usableCost_eq, Hu.
  destruct (mark_args key m) as [[mk mt] has]. rewrite Hmt, (arg_or_wf (int 86400)) by by apply wf_int.
  unfold tokenBucket. rewrite !arg_wf, lua_usableCost_eq, Hu by done. cbn [negb].
  destruct (negb (tokensToAdd config >? int 0)) eqn:Ea.
  { eexists (Ok _), s, w. split_and!; [reflexivity|reflexivity|]. apply (twins_more n used s w w); [done|lia|done..]. }
  destruct (bad_max (Some (maxTokens config))) eqn:Eb.
  { eexists (Ok _), s, w. split_and!; [reflexivity|reflexivity|]. apply (twins_more n used s w w); [done|lia|done..]. }
  destruct (bad_interval (Some (interval config))) eqn:Ei.
  { eexists (Ok _), s, w. split_and!; [reflexivity|reflexivity|]. apply (twins_more n used s w w); [done|lia|done..]. }
  destruct Hsim as (s' & w' & E1 & E2 & Htw').
  rewrite date_now_run, (bind_ok _ _ _ _ _ _ (refill_run key config now w)). fold st.
  rewrite (memory_spend_then _ _ _ _ _ _ _ _ _ _ E2).
  unfold mbind, Script_bind. rewrite E1. unfold mret, Script_ret.
  eexists (Ok _), s', w'. split_and!; [|reflexivity|exact Htw'].
  destruct (wf_bucket_at t Hnow w key config Hm) as (Hwt & _ & _ & _). fold st in Hwt.
  destruct (coversCost (tokens st) cost (maxTokens config)); cbn [outcome_from]; f_equal; f_equal.
  - rewrite read_granted, parse_fmt17 by apply wf_sub. done.
  - rewrite clamp_fmax, read_declined, !parse_fmt17 by (done || apply wf_fmax0, wf_sub). done.
Qed.

(** ** The fast path *)

Lemma twins_freeze n E k v e :
  key_twins kind n E k v e -> kind k = KFreeze ->
  exists r, hash_in v = Some r /\ freeze_twins r (default ∅ (e ≫= e_hash)).
Proof.
  intros Hk Hb. destruct v as [[[x|r|z|l] x']|], e as [e|]; try done; cbn in Hk.
  - destruct Hk as (_ & m & Hm & Hh). unfold hash_twins in Hh. rewrite Hb in Hh.
    exists r. split; [done|]. cbn. by rewrite Hm.
  - destruct Hk as (_ & Hq & _). congruence.
  - exists ∅. split; [done|]. cbn. split; rewrite ?lookup_empty; try done; apply reads_None.
Qed.

Lemma twins_queue n E k v e :
  key_twins kind n E k v e -> kind k = KQueue ->
  exists z, zset_in v = Some z /\ (z = [] <-> default [] (e ≫= e_zset) = []).
Proof.
  intros Hk Hb. destruct v as [[[x|r|z|l] x']|], e as [e|]; try done; cbn in Hk.
  - destruct Hk as (_ & m & _ & Hh). unfold hash_twins in Hh. by rewrite Hb in Hh.
  - destruct Hk as (_ & _ & Hz & z' & Hz' & Hne). exists z. split; [done|]. cbn. by rewrite Hz'.
  - by exists [].
Qed.

Lemma sorted_at_nil w k : sorted_at now w k = [] <-> default [] (live_at now w k ≫= e_zset) = [].
Proof.
  unfold sorted_at, zset_at. destruct (live_at now w k ≫= e_zset) as [z|]; [|done]. cbn.
  unfold sort_members. split; [|by intros ->]. intros Hz. apply fmap_nil_inv in Hz.
  apply Permutation_nil. rewrite <- Hz. apply merge_sort_Permutation.
Qed.

Lemma queueEmptyGate_run n E s w k :
  alike kind n E.1 E.2 (look now s) (live_at now w) (epochs w) -> kind k = KQueue ->
  queueEmptyGate now k s = (Return (bool_decide (sorted_at now w k = [])), s).
Proof.
  intros (Hk & _ & _) Hq. destruct (twins_queue n _ k _ _ (Hk k) Hq) as (z & Hz & Hn).
  unfold queueEmptyGate. rewrite (sbind_ok _ _ _ _ _ (ZCARD_run now k z s Hz)). unfold mret, Script_ret.
  f_equal. f_equal. rewrite <- sorted_at_nil in Hn. destruct z as [|x z].
  - by rewrite bool_decide_eq_true_2 by by apply Hn.
  - rewrite bool_decide_eq_false_2; [done|]. intros Hs. by apply Hn in Hs.
Qed.

Lemma freezeGate_run n E s w k :
  alike kind n E.1 E.2 (look now s) (live_at now w) (epochs w) -> kind k = KFreeze ->
  freezeGate now k s = (Return (negb (freeze_blocks_at now w k)), s).
Proof.
  intros (Hk & _ & _) Hf. destruct (twins_freeze n _ k _ _ (Hk k) Hf) as (r & Hr & [Hu Ht _]).
  unfold freezeGate. rewrite (sbind_ok _ _ _ _ _ (HGETALL_run now k r s Hr)). unfold mret, Script_ret.
  f_equal. f_equal. unfold freeze_blocks_at. rewrite !field_default. fold (hash_at now w k) in Hu, Ht.
  rewrite (reads_deadline _ _ Hu). destruct (usableDeadline _) as [x|]; [|done].
  destruct (Ht (int 0)) as [-> _]. by destruct (now <? x).
Qed.

Lemma admit_agrees n used s w queueKey bucketKey freezeKey cost config ttl mark :
  twins kind n used now s w -> (0 <= n < 2 ^ 50)%Z -> micros t ∉ used -> micros t <> "" ->
  kind queueKey = KQueue -> kind bucketKey = KBucket -> kind freezeKey = KFreeze ->
  mark_named bucketKey mark -> wf_num cost -> wf_config config -> wf_num ttl ->
  agrees (n + 1) (micros t :: used)
    (redis_tryAdmitImmediately t queueKey bucketKey freezeKey cost config ttl mark)
    (tryAdmitImmediately queueKey bucketKey freezeKey cost config ttl mark) s w.
Proof.
  intros Htw Hn Hfresh Hne Hq Hk Hf Hmark Hc (Hm & Ha & Hi) Ht.
  assert (forall w', holds now w' (live_at now w) -> epochs w' = epochs w ->
    twins kind (n + 1) (micros t :: used) now s w') as Hsame by (intros; apply (twins_more n used s w); done || lia).
  unfold agrees, redis_tryAdmitImmediately, tryAdmitImmediately.
  unfold mbind at 1, Script_bind at 1. rewrite bind_run. unfold script_of, lift.
  destruct (normalizeStateTtlSeconds ttl) as [ttl'|e] eqn:Ettl.
  2:{ exists (Throw e), s, w. split_and!; [done..|]. by apply Hsame. }
  destruct (wf_stateTtl _ _ Ht Ettl) as [Hwt Hrange].
  unfold mbind at 1, Script_bind at 1. rewrite markArgs_run, bind_run, claimMark_run.
  destruct (mark_result mark) as [m|e] eqn:Em.
  2:{ exists (Throw e), s, w. split_and!; [done..|]. by apply Hsame. }
  destruct (mark_result_fits bucketKey mark m Hmark Em) as [Hfit Hmt].
  set (w1 := purge_key now freezeKey (purge_key now queueKey w)).
  assert (holds now (purge_key now bucketKey w1) (live_at now w)) as Hw1
    by (intros k; unfold w1; by rewrite !live_at_purge_key).
  assert (epochs (purge_key now bucketKey w1) = epochs w) as Hep1 by (unfold w1; by rewrite !purge_key_epochs).
  rewrite unusableBudget_eq, lua_usableCost_eq.
  pose proof (spend_sim kind t Hnow n used s w (purge_key now bucketKey w1) bucketKey cost config ttl' m
    Htw Hn Hfresh Hne Hk Hfit Hrange) as Hsim. cbv zeta in Hsim.
  destruct (mark_args bucketKey m) as [[mk mt] has]. rewrite Hmt, (arg_or_wf ttl') by done.
  unfold tryAdmitImmediately_script. rewrite !arg_wf, lua_usableCost_eq by done.
  destruct (negb (tokensToAdd config >? int 0)); [exists (Ok false), s, w; split_and!; [done..|by apply Hsame]|].
  destruct (bad_max (Some (maxTokens config))); [exists (Ok false), s, w; split_and!; [done..|by apply Hsame]|].
  destruct (usableCost cost) eqn:Hu; [|exists (Ok false), s, w; split_and!; [done..|by apply Hsame]].
  destruct (bad_interval (Some (interval config))); [exists (Ok false), s, w; split_and!; [done..|by apply Hsame]|].
  cbn [negb orb]. destruct Htw as (E & Hal).
  rewrite (sbind_ok _ _ _ _ _ (queueEmptyGate_run n (used, E) s w queueKey Hal Hq)).
  rewrite bind_run, sorted_run. destruct (sorted_at now w queueKey) as [|id ids] eqn:Es.
  2:{ rewrite bool_decide_eq_false_2, decide_True by (done || cbn; lia).
      exists (Ok false), s, (purge_key now queueKey w). split_and!; [done..|].
      apply Hsame; [intros k; apply live_at_purge_key|apply purge_key_epochs]. }
  rewrite bool_decide_eq_true_2, decide_False by (done || cbn; lia). cbn [negb].
  rewrite (sbind_ok _ _ _ _ _ (freezeGate_run n (used, E) s w freezeKey Hal Hf)).
  rewrite date_now_run, bind_run, freezeBlocks_run, freeze_blocks_purge. fold w1.
  destruct (freeze_blocks_at now w freezeKey); cbn [negb].
  { exists (Ok false), s, w1. split_and!; [done..|].
    apply Hsame; unfold w1; [intros k; by rewrite !live_at_purge_key|by rewrite !purge_key_epochs]. }
  rewrite (bind_ok _ _ _ _ _ _ (refill_run bucketKey config now w1)).
  assert (bucket_at now w1 bucketKey config = bucket_at now w bucketKey config) as ->.
  { unfold bucket_at, stored_bucket, w1. by rewrite !field_at_purge_key. }
  destruct (Hsim eq_refl Hc Hm Hw1 Hep1) as (s' & w' & E1 & E2 & Htw').
  rewrite (sbind_ok _ _ _ _ _ E1). cbn [fst].
  pose proof (memory_spend_then _ _ _ _ _ _ _ _ true false E2) as E3.
  exists (Ok (coversCost (tokens (bucket_at now w bucketKey config)) cost (maxTokens config))), s', w'.
  split_and!; [done| |done]. destruct (coversCost _ _ _); exact E3.
Qed.
End agree.
