(* ===== verification/RedisUpkeep.v ===== *)
(** * Reading, resetting, emptying, refunding and keeping alive

    The bucket operations beside the claims, on a Redis server and on a memory
    backend that hold the same. *)
From S2P Require Import Prelude JsNumber JsString Json Shared SharedFacts.
From S2P Require Import MemoryStore StoreFacts TokenBucket TokenBucketFacts Concurrency Queue Freeze.
From S2P Require Import Backend Observe StoreProps Atomicity AdmissionProps SettlementProps.
From S2P Require Import Client RedisServer RedisFacts RedisBucket RedisTwins RedisClaims RedisAgree.
Local Open Scope num_scope.

Lemma fmin_if x m : isNaN m = false -> fmin x m = if x >? m then m else x.
Proof. intros Hm. unfold fmin, gtb. by destruct x as [|[]|], m as [|[]|]. Qed.

Lemma fmin_idem x m : isNaN m = false -> fmin (fmin x m) m = fmin x m.
Proof.
  intros Hm. rewrite !(fmin_if _ m) by done. destruct (x >? m) eqn:E; [|by rewrite E].
  destruct (m >? m); done.
Qed.

Lemma round_ratio_not_nan a b : isNaN (round_ratio a b) = false.
Proof. unfold round_ratio. by destruct (_ <? _)%Z. Qed.

Lemma add_not_nan x y : isFinite x = true -> isFinite y = true -> isNaN (x + y) = false.
Proof. destruct x, y; try done. intros _ _. apply round_ratio_not_nan. Qed.

(** An interval of minus infinity lengthens no lifetime. *)
Lemma bucketTtl_minus_inf ttl config :
  (maxTokens config >? int 0) = true -> isFinite (maxTokens config) = true ->
  (tokensToAdd config >? int 0) = true -> interval config = Inf true -> isNaN ttl = false ->
  bucketTtl ttl config = ttl.
Proof.
  intros Hm Hf Ha Hi Ht. unfold bucketTtl. rewrite Hi.
  assert (int 0 <=? maxTokens config / tokensToAdd config = true) as Hq.
  { destruct (maxTokens config) as [| |m]; try done. unfold gtb, ltb, int in Hm. apply Z.ltb_lt in Hm.
    destruct (tokensToAdd config) as [|[]|a]; try done. unfold gtb, ltb, int in Ha. apply Z.ltb_lt in Ha.
    unfold div. rewrite (proj2 (Z.eqb_neq _ _)) by lia. rewrite <- (rnd_int 0) by done.
    unfold rnd. rewrite <- (round_ratio_scale (0 * unit1) 1 (Z.abs a)) by lia. rewrite Z.mul_1_l.
    pose proof unit1_pos. apply round_ratio_mono; [lia|]. rewrite Z.sgn_pos by lia. nia. }
  set (q := maxTokens config / tokensToAdd config) in *.
  assert (ceil (ceil q * Inf true / int 1000) >? ttl = false) as ->; [|done].
  assert (Inf true / int 1000 = Inf true) as Hd
    by (pose proof unit1_pos; unfold div, int; by rewrite (proj2 (Z.ltb_ge _ _)) by lia).
  destruct q as [|[]|q]; try done.
  { change (ceil (Inf false) * Inf true) with (Inf true). rewrite Hd. by destruct ttl as [|[]|]. }
  unfold leb, int in Hq. apply Z.leb_le in Hq. pose proof (ceil_bounds q). rewrite ceil_Fin. unfold mul.
  destruct (Z.eqb_spec (- (- q / unit1) * unit1) 0); [by destruct ttl as [|[]|]|].
  rewrite (proj2 (Z.ltb_ge _ _)) by lia. cbn [xorb]. rewrite Hd. by destruct ttl as [|[]|].
Qed.

Section upkeep.
Context {R : Type} `{Srv : RedisServer R} `{!RedisLaws R} `{Lua : LuaRuntime} `{!LuaLaws}.
Variable kind : string -> key_kind.
Context (t : clock) (Hnow : instant (ms t)).
Local Notation now := (ms t).
Implicit Types (s : R).

(** ** Reading *)

Lemma state_agrees n used s w key config :
  twins kind n used now s w -> (0 <= n < 2 ^ 50)%Z -> kind key = KBucket ->
  isNaN (maxTokens config) = false ->
  agrees kind t (n + 1) (micros t :: used) (redis_getTokenBucketState t key config)
    (getTokenBucketState key config) s w.
Proof.
  intros Htw Hn Hk Hm. pose proof Htw as (E & Ha).
  destruct (twins_bucket kind n E key _ _ (proj1 Ha key) Hk ltac:(lia)) as (r & Hr & Hb & _).
  exists (Ok (tokens (bucket_at now w key config), lastUpdate (bucket_at now w key config))), s, (purge_key now key w).
  split_and!.
  - unfold redis_getTokenBucketState. rewrite (sbind_ok _ _ _ _ _ (HGETALL_run now key r s Hr)).
    destruct Hb as [_ Ht Hu _ _ _ _ _ _]. destruct (Ht (maxTokens config)) as [_ ->], (Hu now) as [_ ->].
    unfold bucket_at. pose proof (refill_state_credit (stored_bucket now w key config) config now) as Hc.
    unfold credit, stored_bucket in Hc |- *. cbn [tokens lastUpdate] in Hc.
    rewrite !field_default in *. fold (hash_at now w key).
    set (c := parseFiniteStored _ (maxTokens config)) in *. set (u := parseFiniteStored _ now) in *.
    cbv zeta in *. destruct ((now - u >? int 0) && (interval config >? int 0));
      [destruct (floor ((now - u) / interval config) >? int 0)|]; destruct Hc as [-> ->];
      unfold mret, Script_ret; cbn [outcome_from]; rewrite ?fmin_idem, fmin_if by done; done.
  - unfold getTokenBucketState. rewrite date_now_run.
    by rewrite (bind_ok _ _ _ _ _ _ (refill_run key config now w)).
  - apply twins_more with (w := w); [done|lia| |apply purge_key_epochs]. intros k. apply live_at_purge_key.
Qed.

(** ** A balance written afresh *)

(** A bucket whose balance was set and whose generation was advanced. *)
Lemma bucket_twins_renewed n E key r m text x b kvs :
  bucket_twins n E key r m -> (n < 2 ^ 50)%Z -> wf_num (lastUpdate b) ->
  reads (Some text) (Some (num_to_string (tokens b))) ->
  overflow b = parseFiniteStored (m !! "overflow") (int 0) ->
  fills b = parseFiniteStored (m !! "fills") (int 0) ->
  parseFiniteStored (m !! "generation") (int 0) = int x ->
  kvs = <["generation" := integer_text (x + 1)]>
          (<["lastUpdate" := fmt17 (lastUpdate b)]> (<["tokens" := text]> r)) ->
  bucket_twins (n + 1) E key kvs
    (<["generation" := num_to_string (parseFiniteStored (m !! "generation") (int 0) + int 1)]>
       (bucket_fields b m)).
Proof.
  intros [H1 H2 H3 H4 H5 H6 H7 (z & Hz & Hg & Hgz) H9] Hn Hu Ht Ho Hf Hx ->.
  pose proof unit1_pos as Hu1. assert (z = x) as -> by (rewrite Hgz in Hx; unfold int in Hx; injection Hx as Hx; nia).
  assert (reads0 (r !! "overflow") (Some (num_to_string (overflow b)))) as Hov.
  { unfold reads0. rewrite Ho, H4, parseFinite_num_to_string; [done|by apply wf_parseFinite, wf_int|].
    by apply parseFinite_finite. }
  assert (reads0 (r !! "fills") (Some (num_to_string (fills b)))) as Hfi.
  { unfold reads0. rewrite Hf, H5, parseFinite_num_to_string; [done|by apply wf_parseFinite, wf_int|].
    by apply parseFinite_finite. }
  unfold bucket_fields.
  split; repeat first [rewrite lookup_insert_eq | rewrite lookup_insert_ne by done];
    auto using reads_written; [done|].
  exists (x + 1)%Z. split; [lia|]. split; [by left|]. rewrite Hx, add_int by (unfold safe; lia).
  apply parseFinite_num_to_string; [apply wf_int; unfold safe; lia|done].
Qed.

Lemma bumpGeneration_holds key e m w :
  live_at now w key = Some e -> e_hash e = Some m ->
  exists w', bumpGeneration key now w = (Ok tt, w') /\ epochs w' = epochs w /\
    holds now w' (patch key (Some (with_hash
      (<["generation" := num_to_string (parseFiniteStored (m !! "generation") (int 0) + int 1)]> m) e))
      (live_at now w)).
Proof.
  intros He Hm. assert (hash_at now w key = Some m) as Hh by (unfold hash_at; by rewrite He).
  unfold bumpGeneration. rewrite (bind_ok _ _ _ _ _ _ (hash_present_run _ _ _ _ Hh)).
  eexists. split; [done|]. split; [done|]. intros k. rewrite live_at_alter by auto with store.
  unfold patch. case_decide; [subst|done]. rewrite He. cbn. unfold on_hash. by rewrite Hm.
Qed.

(** Writing it: a balance, the clock, and the next generation, and a lifetime. *)
Lemma renew_sim n used E s w s' key config b ttl r text z :
  alike kind n used E (look now s) (live_at now w) (epochs w) -> (0 <= n < 2 ^ 50)%Z ->
  kind key = KBucket -> hash_in (look now s key) = Some r ->
  normalizeTtlSeconds (match config with Some c => bucketTtl (int 86400) c | None => int 86400 end) = Ok ttl ->
  in_range ttl ->
  let m := default ∅ (hash_at now w key) in
  reads (Some text) (Some (num_to_string (tokens b))) -> wf_num (lastUpdate b) ->
  overflow b = parseFiniteStored (m !! "overflow") (int 0) ->
  fills b = parseFiniteStored (m !! "fills") (int 0) ->
  parseFiniteStored (m !! "generation") (int 0) = int z ->
  shows now s' (patch key (Some (RHash (<["generation" := integer_text (z + 1)]>
          (<["lastUpdate" := fmt17 (lastUpdate b)]> (<["tokens" := text]> r))), Some (now + ttl * int 1000)))
        (look now s)) ->
  exists w', (writeBucket key b (int 86400) config ;; bumpGeneration key) now w = (Ok tt, w') /\
    twins kind (n + 1) (micros t :: used) now s' w'.
Proof.
  intros Ha Hn Hk Hr Hnorm Hrange m Ht Hu Ho Hf Hz Hs'.
  destruct (twins_bucket kind n E key _ _ (proj1 Ha key) Hk ltac:(lia)) as (r' & Hr' & Hb & _).
  assert (r' = r) as -> by congruence. fold (hash_at now w key) in Hb. fold m in Hb.
  destruct (writeBucket_holds key b (int 86400) config ttl now w Hnorm Hrange Hnow) as (w1 & E1 & Ep1 & Hw1).
  set (e1 := bucket_entry b now ttl (default empty_entry (live_at now w key))) in *.
  assert (e_hash e1 = Some (bucket_fields b m)) as He1.
  { unfold e1, bucket_entry, m, hash_at. by destruct (live_at now w key) as [[? [?|] ? ? ?]|]. }
  assert (live_at now w1 key = Some e1) as Hl1 by by rewrite Hw1, patch_eq.
  destruct (bumpGeneration_holds key e1 _ w1 Hl1 He1) as (w2 & E2 & Ep2 & Hw2).
  assert (bucket_fields b m !! "generation" = m !! "generation") as Hgen
    by (unfold bucket_fields; by rewrite !lookup_insert_ne).
  exists w2. split; [by rewrite (bind_ok _ _ _ _ _ _ E1)|]. exists E. rewrite Ep2, Ep1.
  eapply (alike_ext kind _ _ _ (patch key _ (look now s)) _ (patch key _ (live_at now w))); [exact Hs'| |].
  { intros k. rewrite Hw2. unfold patch. case_decide; [done|]. rewrite Hw1. by rewrite patch_ne. }
  apply alike_patch.
  2:{ eapply alike_more; [..|exact Ha]; [lia|]. intros y Hy. by apply list_elem_of_further. }
  cbn. split; [done|]. eexists. split; [done|]. unfold hash_twins. rewrite Hk, Hgen.
  apply (bucket_twins_renewed n E key r m text z b); done || lia.
Qed.

Lemma reset_agrees n used s w key max :
  twins kind n used now s w -> (0 <= n < 2 ^ 50)%Z -> kind key = KBucket -> wf_num max ->
  agrees kind t (n + 1) (micros t :: used) (redis_resetTokenBucket t key max) (resetTokenBucket key max) s w.
Proof.
  intros (E & Ha) Hn Hk Hm.
  destruct (twins_bucket kind n E key _ _ (proj1 Ha key) Hk ltac:(lia)) as (r & Hr & Hb & _).
  pose proof (bt_generation _ _ _ _ _ Hb) as (z & Hz & Hg & Hgm).
  unfold agrees, redis_resetTokenBucket, resetTokenBucket_script.
  set (kvs := [("tokens", num_to_string max); ("lastUpdate", fmt17 now)]).
  destruct (HSET_run now Hnow key kvs r s ltac:(done) Hr) as (s1 & E1 & Hs1).
  rewrite (sbind_ok _ _ _ _ _ E1).
  assert (hash_in (look now s1 key) = Some (put_fields kvs r)) as Hr1 by by rewrite Hs1, patch_eq.
  destruct (HINCRBY_run now Hnow key "generation" 1 z (put_fields kvs r) s1) as (s2 & E2 & Hs2);
    [done|unfold safe; lia|unfold safe; lia|unfold put_fields, kvs; cbn; by rewrite !lookup_insert_ne|].
  rewrite (sbind_ok _ _ _ _ _ E2).
  destruct (EXPIRE_run now Hnow key (int 86400) _ _ s2 in_range_day (eq_trans (Hs2 key) (patch_eq _ _ _)))
    as (s3 & E3 & Hs3).
  destruct (in_range_ttl_pos _ in_range_day) as [Hday _].
  set (w1 := purge_key now key w).
  assert (forall f, field_at now w1 key f = field_at now w key f) as Hw1 by (intros; apply field_at_purge_key).
  assert (alike kind n used E (look now s) (live_at now w1) (epochs w1)) as Ha1.
  { unfold w1. rewrite purge_key_epochs. eapply alike_ext; [done| |exact Ha]. intros k. apply live_at_purge_key. }
  assert (hash_at now w1 key = hash_at now w key) as Hh1 by apply hash_at_purge_key.
  destruct (renew_sim n used E s w1 s3 key None
    {| tokens := max; lastUpdate := now; overflow := parseFiniteStored (field_at now w key "overflow") (int 0);
       fills := parseFiniteStored (field_at now w key "fills") (int 0) |} (int 86400) r (num_to_string max) z
    Ha1 Hn Hk Hr Hday in_range_day) as (w' & E4 & Htw).
  - by apply reads_js.
  - by apply wf_now.
  - cbn. by rewrite field_default, Hh1.
  - cbn. by rewrite field_default, Hh1.
  - by rewrite Hh1.
  - intros k. rewrite Hs3. unfold patch. case_decide; [done|]. rewrite Hs2, patch_ne by done. by rewrite Hs1, patch_ne.
  - exists (Ok tt), s3, w'. split_and!; [exact E3| |exact Htw].
    unfold resetTokenBucket. rewrite date_now_run. do 2 mstep. rewrite purge_key_idemp, field_at_purge_key.
    exact E4.
Qed.

(** The lifetime an emptied bucket is given. *)
Lemma empty_ttl_eq config :
  normalizeTtlSeconds (match (match unusableBudget (int 0) config with Some _ => None | None => Some config end) with
                       | Some c => bucketTtl (int 86400) c | None => int 86400 end)
  = Ok (if (tokensToAdd config >? int 0) && (maxTokens config >? int 0) && negb (maxTokens config =? Inf false)
           && negb (isNaN (interval config)) && negb (interval config =? Inf false)
        then lua_bucketTtl (int 86400) (maxTokens config) (tokensToAdd config) (interval config)
        else int 86400) /\
  in_range (if (tokensToAdd config >? int 0) && (maxTokens config >? int 0) && negb (maxTokens config =? Inf false)
           && negb (isNaN (interval config)) && negb (interval config =? Inf false)
        then lua_bucketTtl (int 86400) (maxTokens config) (tokensToAdd config) (interval config)
        else int 86400).
Proof.
  destruct (bucketTtl_writes (int 86400) config in_range_day) as [Hn Hr].
  destruct (in_range_ttl_pos _ in_range_day) as [Hday _]. unfold ttl_norm in Hday.
  rewrite lua_bucketTtl_eq. rewrite unusableBudget_eq, lua_usableCost_eq. unfold bad_max, bad_interval.
  destruct (tokensToAdd config >? int 0) eqn:Ea; cbn [negb andb]; [|split; [exact Hday|apply in_range_day]].
  destruct (maxTokens config >? int 0) eqn:Em; cbn [negb andb orb]; [|split; [exact Hday|apply in_range_day]].
  destruct (maxTokens config =? Inf false) eqn:Em'; cbn [negb andb orb]; [split; [exact Hday|apply in_range_day]|].
  assert (usableCost (int 0) = true) as -> by (unfold usableCost; by rewrite geb_int). cbn [negb].
  destruct (isNaN (interval config)) eqn:Ei; cbn [negb andb orb]; [split; [exact Hday|apply in_range_day]|].
  destruct (interval config =? Inf false) eqn:Ei'; cbn [negb andb orb]; [split; [exact Hday|apply in_range_day]|].
  destruct (interval config =? Inf true) eqn:Eb; [|split; [exact Hn|exact Hr]].
  rewrite bucketTtl_minus_inf; [split; [exact Hday|apply in_range_day]|exact Em| |exact Ea| |reflexivity].
  - by destruct (maxTokens config) as [|[]|].
  - by destruct (interval config) as [|[]|].
Qed.

Lemma empty_agrees n used s w key config :
  twins kind n used now s w -> (0 <= n < 2 ^ 50)%Z -> kind key = KBucket -> wf_config config ->
  agrees kind t (n + 1) (micros t :: used) (redis_emptyTokenBucket t key config) (emptyTokenBucket key config) s w.
Proof.
  intros (E & Ha) Hn Hk (Hm & Hadd & Hi).
  destruct (twins_bucket kind n E key _ _ (proj1 Ha key) Hk ltac:(lia)) as (r & Hr & Hb & _).
  pose proof (bt_generation _ _ _ _ _ Hb) as (z & Hz & Hg & Hgm).
  pose proof (twins_generation n E key r _ Hb ltac:(lia)) as Hg0. unfold reads0 in Hg0.
  destruct (empty_ttl_eq config) as [Hnorm Hrange].
  unfold agrees, redis_emptyTokenBucket, emptyTokenBucket_script.
  assert (forall x, wf_num x -> tonumber (wire_text x) = Some x) as Hw.
  { intros x Hx. unfold wire_text, wire. destruct (isFinite x); by rewrite tonumber_string. }
  rewrite !Hw, arg_or_wf by (done || by apply wf_int).
  rewrite (sbind_ok _ _ _ _ _ (HGET_run now key "tokens" r s Hr)).
  rewrite (sbind_ok _ _ _ _ _ (HGET_run now key "generation" r s Hr)). cbv zeta.
  rewrite Hg0, Hgm, add_int, fmt17_int by (unfold safe; lia).
  set (tk := finiteNumber (r !! "tokens") (int 0)). set (ttl := if _ : bool then _ else _) in *.
  set (kvs := [("tokens", fmt17 (if tk >? int 0 then int 0 else tk)); ("lastUpdate", fmt17 now);
               ("generation", num_to_string (int (z + 1)))]).
  destruct (HSET_EXPIRE_end now Hnow key kvs ttl r s ltac:(done) Hr Hrange) as (s' & E1 & Hs').
  set (w2 := purge_key now key w).
  assert (alike kind n used E (look now s) (live_at now w2) (epochs w2)) as Ha1.
  { unfold w2. rewrite purge_key_epochs. eapply alike_ext; [done| |exact Ha]. intros k. apply live_at_purge_key. }
  assert (hash_at now w2 key = hash_at now w key) as Hh1 by apply hash_at_purge_key.
  assert (finiteNumber (r !! "tokens") (int 0) = parseFiniteStored (field_at now w key "tokens") (int 0)) as Htk.
  { rewrite field_default. apply (bt_tokens _ _ _ _ _ Hb). }
  destruct (renew_sim n used E s w2 s' key _
    {| tokens := fmin (parseFiniteStored (field_at now w key "tokens") (int 0)) (int 0); lastUpdate := now;
       overflow := parseFiniteStored (field_at now w key "overflow") (int 0);
       fills := parseFiniteStored (field_at now w key "fills") (int 0) |} ttl r
    (fmt17 (if tk >? int 0 then int 0 else tk)) z Ha1 Hn Hk Hr Hnorm Hrange) as (w' & E4 & Htw).
  - cbn. rewrite fmin_if by done. unfold tk. rewrite Htk. apply reads_written.
    match goal with |- wf_num (if ?b then _ else _) => destruct b end;
      [by apply wf_int|by apply wf_parseFinite, wf_int].
  - by apply wf_now.
  - cbn. by rewrite field_default, Hh1.
  - cbn. by rewrite field_default, Hh1.
  - by rewrite Hh1.
  - exact Hs'.
  - exists (Ok tt), s', w'. split_and!; [| |exact Htw].
    + exact E1.
    + unfold emptyTokenBucket. mstep. rewrite date_now_run. do 2 mstep.
      rewrite !purge_key_idemp, !field_at_purge_key. exact E4.
Qed.

(** ** Refunds *)

Lemma refused_eq n E s w fk :
  alike kind n E.1 E.2 (look now s) (live_at now w) (epochs w) ->
  (forall k, fk = Some k -> k <> "" -> kind k = KFreeze) ->
  let named := match fk with Some k => negb (bool_decide (k = "")) | None => false end in
  forall key, (if named then
     freeze ← call_HGETALL now (if named then default "" fk else key); mret (emptied_freeze t freeze)
   else mret false) s = (Return (refund_refused now w fk), s).
Proof.
  intros (Hk & _ & _) Hfk named key. unfold named, refund_refused. destruct fk as [k|]; [|done].
  case_bool_decide as Hd; cbn [negb default]; [by rewrite decide_True|]. rewrite decide_False by done.
  destruct (twins_freeze kind n _ k _ _ (Hk k) (Hfk k eq_refl Hd)) as (r & Hr & [Hu _ He]).
  rewrite (sbind_ok _ _ _ _ _ (HGETALL_run now k r s Hr)). unfold mret, Script_ret. f_equal. f_equal.
  unfold emptied_freeze. rewrite !field_default. fold (hash_at now w k) in Hu, He.
  destruct (Hu (int 0)) as [-> _]. f_equal. f_equal. by apply bool_decide_ext.
Qed.

Lemma bucket_twins_credit n E key r m x :
  bucket_twins n E key r m -> wf_num x ->
  bucket_twins n E key (put_fields [("tokens", fmt17 x)] r) (<["tokens" := num_to_string x]> m).
Proof.
  intros [H1 H2 H3 H4 H5 H6 H7 H8 H9] Hx. unfold put_fields. cbn [fold_left fst snd].
  split; rewrite ?lookup_insert_eq, ?lookup_insert_ne by done; try done. by apply reads_written.
Qed.

Lemma refund_agrees n used s w key cost max fk :
  twins kind n used now s w -> (0 <= n < 2 ^ 50)%Z -> kind key = KBucket ->
  (forall k, fk = Some k -> k <> "" -> kind k = KFreeze) -> wf_num cost -> wf_num max ->
  agrees kind t (n + 1) (micros t :: used) (redis_refundTokens t key cost max fk) (refundTokens key cost max fk) s w.
Proof.
  intros Htw Hn Hk Hfk Hc Hm. pose proof Htw as (E & Ha). unfold agrees, redis_refundTokens, refundTokens_script.
  destruct (creditTokens_run key cost max fk now w) as (w1 & Hv & Ew & Hep). unfold refundTokens. rewrite Ew.
  assert (holds now w1 (live_at now w)) as Hw1.
  { intros k. apply Hv. apply leb_refl_num. by destruct Hnow as (z & -> & _). }
  assert (twins kind (n + 1) (micros t :: used) now s w1) as Hsame
    by (apply (twins_more kind t n used s w w1); [done|lia|done..]).
  rewrite !arg_wf by done. rewrite lua_usableCost_eq.
  destruct (usableCost cost) eqn:Hu; cbn [negb andb].
  2:{ exists (Ok tt), s, w1. split_and!; [done| |done]. by destruct (balance_at now w key). }
  rewrite (sbind_ok _ _ _ _ _ (refused_eq n (used, E) s w fk Ha Hfk key)).
  destruct (refund_refused now w fk); cbn [negb].
  { exists (Ok tt), s, w1. split_and!; [done| |done]. by destruct (balance_at now w key). }
  destruct (twins_bucket kind n E key _ _ (proj1 Ha key) Hk ltac:(lia)) as (r & Hr & Hb & Hpres).
  rewrite (sbind_ok _ _ _ _ _ (HGET_run now key "tokens" r s Hr)).
  unfold balance_at. rewrite field_default. fold (hash_at now w key) in Hb.
  pose proof (bt_present _ _ _ _ _ Hb) as Hpt. pose proof (bt_tokens _ _ _ _ _ Hb (int 0)) as [Htk _].
  destruct (default ∅ (hash_at now w key) !! "tokens") as [raw'|] eqn:Em.
  2:{ rewrite (proj2 Hpt eq_refl). by exists (Ok tt), s, w1. }
  destruct (r !! "tokens") as [raw|] eqn:Er; [|exfalso; specialize (proj1 Hpt eq_refl); done].
  rewrite Htk. set (x := parseFiniteStored (Some raw') (int 0)) in *.
  rewrite lua_min_fmin.
  2:{ destruct (usableCost_finite _ Hu) as [Hf _]. apply add_not_nan; [by apply parseFinite_finite|done]. }
  destruct Hpres as [[Hs Hw]|(e & Hs & Hw)].
  { unfold hash_at in Em. rewrite Hw in Em. cbn in Em. by rewrite lookup_empty in Em. }
  destruct (HSET_run now Hnow key [("tokens", fmt17 (fmin max (x + cost)))] r s ltac:(done) Hr) as (s' & E1 & Hs').
  exists (Ok tt), s'. eexists. split_and!; [exact E1|reflexivity|]. exists E. cbn [epochs with_store].
  eapply (alike_ext kind _ _ _ (patch key _ (look now s)) _ (patch key _ (live_at now w))); [exact Hs'| |].
  { intros k. rewrite live_at_alter by auto with store. unfold patch. case_decide; [subst k|by apply Hw1].
    rewrite Hw1. reflexivity. }
  rewrite Hep. apply alike_patch.
  2:{ eapply alike_more; [..|exact Ha]; [lia|]. intros y Hy. by apply list_elem_of_further. }
  rewrite Hs, Hw. unfold hash_at in Em, Hb. rewrite Hw in Em, Hb. cbn in Em, Hb |- *.
  destruct (e_hash e) as [m|] eqn:Ee; [|discriminate Em]. unfold on_hash. rewrite Ee.
  split; [done|]. eexists. split; [done|].
  assert (hash_twins kind n E key (put_fields [("tokens", fmt17 (fmin max (x + cost)))] r)
            (<["tokens" := num_to_string (fmin max (x + cost))]> m)) as Hh.
  { unfold hash_twins. rewrite Hk. apply bucket_twins_credit; [exact Hb|].
    unfold fmin. destruct max, (x + cost) eqn:Ex; try done; repeat case_match; try done; rewrite <- Ex; apply wf_add. }
  pose proof (key_twins_mono kind n (n + 1) E E key (Some (RHash _, expiresAt e)) (Some (with_hash _ e))
    ltac:(lia) ltac:(done) (conj eq_refl (ex_intro _ _ (conj eq_refl Hh)))) as Hmono.
  cbn in Hmono. destruct Hmono as (_ & m' & Hm' & Hmono). injection Hm' as <-. exact Hmono.
Qed.

(** ** Keeping a mark alive *)

Lemma touch_agrees n used s w bucketKey markId ttl :
  twins kind n used now s w -> (0 <= n < 2 ^ 50)%Z -> kind (claimMarkKey bucketKey markId) = KMark bucketKey ->
  agrees kind t (n + 1) (micros t :: used) (redis_touchClaimMark t bucketKey markId ttl)
    (touchClaimMark bucketKey markId ttl) s w.
Proof.
  intros Htw Hn Hk. pose proof Htw as (E & Ha). unfold agrees, redis_touchClaimMark, touchClaimMark.
  set (mk := claimMarkKey bucketKey markId) in *.
  unfold mbind at 1, Script_bind at 1. rewrite bind_run. unfold script_of, lift.
  destruct (normalizeStateTtlSeconds ttl) as [ttl'|e] eqn:Ettl.
  2:{ exists (Throw e), s, w. split_and!; [done..|]. apply (twins_more kind t n used s w w); [done|lia|done..]. }
  pose proof (normalizeStateTtl_pos _ _ Ettl) as [Hnorm Hpos].
  pose proof (ttl_pos_in_range _ (conj Hnorm Hpos)) as Hr.
  rewrite live_bind. unfold mbind at 1, Script_bind at 1. unfold call_EXISTS.
  destruct (twins_mark kind n E mk bucketKey _ _ (proj1 Ha mk) Hk) as [[Hs Hw]|(r & e & m & Hs & Hw & Hm & Ht)];
    rewrite Hs, Hw.
  - destruct (EXPIRE_absent_run now Hnow mk ttl' s Hr Hs) as (s' & E1 & Hs').
    rewrite (sbind_ok _ _ _ _ _ E1). exists (Ok false), s', (purge_key now mk w). split_and!; [done..|].
    exists E. rewrite purge_key_epochs. eapply alike_ext; [exact Hs'|intros k; apply live_at_purge_key|].
    eapply alike_more; [..|exact Ha]; [lia|]. intros y Hy. by apply list_elem_of_further.
  - destruct (EXPIRE_run now Hnow mk ttl' _ _ s Hr Hs) as (s' & E1 & Hs').
    rewrite (sbind_ok _ _ _ _ _ E1).
    rewrite (bind_ok _ _ _ _ _ _ (expire_run mk ttl' ttl' now _ Hnorm Hpos)).
    rewrite live_at_purge_key, Hw, upsert_purge_key. exists (Ok true), s'. eexists. split_and!; [done..|].
    exists E. rewrite upsert_epochs. eapply alike_ext; [exact Hs'|apply upsert_holds|].
    { by apply alive_expired_at. }
    rewrite Hw. cbn [default]. apply alike_patch.
    2:{ eapply alike_more; [..|exact Ha]; [lia|]. intros y Hy. by apply list_elem_of_further. }
    cbn. split; [done|]. exists m. split; [done|]. unfold hash_twins. by rewrite Hk.
Qed.
End upkeep.
