(* ===== verification/RedisSettle.v ===== *)
(** * Settling on both backends

    The settlement script and the memory backend's settlement apply, leave over
    and forgive the same amounts of the same claim. *)
From S2P Require Import Prelude JsNumber JsString Json Shared SharedFacts.
From S2P Require Import MemoryStore StoreFacts TokenBucket TokenBucketFacts Concurrency Queue Freeze.
From S2P Require Import Backend Observe StoreProps Atomicity AdmissionProps SettlementProps.
From S2P Require Import Client RedisServer RedisFacts RedisBucket RedisTwins RedisClaims RedisAgree RedisUpkeep.
Local Open Scope num_scope.

(** ** Where no arithmetic goes wrong *)

Lemma isNaN_neg x : isNaN (- x) = isNaN x.
Proof. by destruct x. Qed.

Lemma isFinite_neg x : isFinite (- x) = isFinite x.
Proof. by destruct x. Qed.

Lemma finite_add_not_nan x y : isFinite x = true -> isNaN y = false -> isNaN (x + y) = false.
Proof. destruct x, y; try done. intros _ _. apply round_ratio_not_nan. Qed.

Lemma add_finite_not_nan x y : isNaN x = false -> isFinite y = true -> isNaN (x + y) = false.
Proof. destruct x, y; try done. intros _ _. apply round_ratio_not_nan. Qed.

Lemma sub_finite_not_nan x y : isNaN x = false -> isFinite y = true -> isNaN (x - y) = false.
Proof. intros Hx Hy. apply add_finite_not_nan; [done|by rewrite isFinite_neg]. Qed.

Lemma finite_sub_not_nan x y : isFinite x = true -> isNaN y = false -> isNaN (x - y) = false.
Proof. intros Hx Hy. apply finite_add_not_nan; [done|by rewrite isNaN_neg]. Qed.

Lemma mul_pos_not_nan x y : (int 0 <? x) = true -> (int 0 <? y) = true -> isNaN (x * y) = false.
Proof.
  destruct x as [|[]|x], y as [|[]|y]; try done; unfold ltb, int, mul; intros Hx Hy.
  - apply Z.ltb_lt in Hy. by rewrite (proj2 (Z.eqb_neq _ _)) by lia.
  - apply Z.ltb_lt in Hx. by rewrite (proj2 (Z.eqb_neq _ _)) by lia.
  - apply round_ratio_not_nan.
Qed.

Lemma not_nan_negb_ltb x y : isNaN x = false -> isNaN y = false -> negb (x <? y) = (x >=? y).
Proof.
  intros Hx Hy. unfold geb. destruct x as [|[]|x], y as [|[]|y]; try done.
  unfold ltb, leb. by rewrite Z.leb_antisym.
Qed.

(** The difference of two doubles that are not negative is finite. *)
Lemma sub_nonneg_finite x y :
  wf_num x -> wf_num y -> isFinite x = true -> isFinite y = true ->
  (int 0 <=? x) = true -> (int 0 <=? y) = true -> isFinite (x - y) = true.
Proof.
  destruct x as [| |x], y as [| |y]; try done. intros Hx Hy _ _ Hx0 Hy0.
  unfold leb, int in Hx0, Hy0. apply Z.leb_le in Hx0, Hy0.
  assert (wf_num (Fin (- y))) as Hy' by by apply (wf_neg (Fin y)).
  assert (leb (rnd (x + - y)) (Fin x) = true) as H1.
  { rewrite <- (rnd_exact x) by done. apply round_ratio_mono; lia. }
  assert (leb (Fin (- y)) (rnd (x + - y)) = true) as H2.
  { rewrite <- (rnd_exact (- y)) at 1 by done. apply round_ratio_mono; lia. }
  unfold sub, neg, add. by destruct (rnd (x + - y)) as [|[]|].
Qed.

Lemma add_nonneg x y : (int 0 <=? x) = true -> (int 0 <=? y) = true -> (int 0 <=? x + y) = true.
Proof.
  destruct x as [|[]|x], y as [|[]|y]; try done. unfold leb at 1 2, int at 1 2. intros Hx%Z.leb_le Hy%Z.leb_le.
  unfold add. rewrite <- (rnd_int 0) by done. apply round_ratio_mono; lia.
Qed.

Lemma fmax0_nonneg x : isNaN x = false -> (int 0 <=? fmax (int 0) x) = true.
Proof. intros Hx. by apply fmax_ge. Qed.

Lemma fmin_nonneg x y :
  (int 0 <=? x) = true -> (int 0 <=? y) = true -> (int 0 <=? fmin x y) = true.
Proof.
  intros Hx Hy. destruct (leb_not_nan _ _ Hx) as [_ ?], (leb_not_nan _ _ Hy) as [_ ?].
  by destruct (fmin_either x y) as [->| ->].
Qed.

Lemma ltb_leb a b : (a <? b) = true -> (a <=? b) = true.
Proof. destruct a as [|[]|], b as [|[]|]; try done. unfold ltb, leb. intros ?%Z.ltb_lt. apply Z.leb_le. lia. Qed.

(** A refill of finite numbers under a usable configuration. *)
Lemma refill_not_nan st config now :
  unusableBudget (int 0) config = None ->
  isFinite (tokens st) = true -> isFinite (overflow st) = true -> isFinite (fills st) = true ->
  let st' := refill_state st config now in
  isNaN (tokens st') = false /\ isNaN (overflow st') = false /\ isNaN (fills st') = false.
Proof.
  intros Hu Ht Ho Hf.
  assert ((tokensToAdd config >? int 0) = true /\ isFinite (maxTokens config) = true) as [Ha Hm].
  { unfold unusableBudget in Hu. destruct (tokensToAdd config >? int 0); [|done].
    by destruct (isFinite (maxTokens config)). }
  assert (isNaN (credit st config now).1 = false) as Hc.
  { unfold credit. cbv zeta. destruct (_ && _); [|by apply finite_not_nan].
    destruct (floor _ >? int 0) eqn:Ek; [|by apply finite_not_nan].
    apply finite_add_not_nan; [done|by apply mul_pos_not_nan]. }
  unfold refill_state. destruct (credit st config now) as [x u]. cbn [fst] in Hc.
  repeat case_match; cbn; split_and!; auto using finite_not_nan, finite_add_not_nan, sub_finite_not_nan.
Qed.

(** ** The amounts *)

(** The regime two settlements of twin claims are in. *)
Record settle_regular (i : SettleInput) : Prop := {
  sr_tokens_n : isNaN (si_tokens i) = false;
  sr_overflow_n : isNaN (si_overflowNow i) = false;
  sr_fills_n : isNaN (si_fillsNow i) = false;
  sr_max : isFinite (si_maxTokens i) = true;
  sr_overflowAt : isFinite (si_overflowAtClaim i) = true;
  sr_fillsAt : isFinite (si_fillsAtClaim i) = true;
  sr_forgiven : wf_num (si_forgivenNow i) /\ isFinite (si_forgivenNow i) = true /\ (int 0 <=? si_forgivenNow i) = true;
  sr_forgivenAt : wf_num (si_forgivenAtClaim i) /\ isFinite (si_forgivenAtClaim i) = true /\
                  (int 0 <=? si_forgivenAtClaim i) = true
}.

Lemma slack_not_nan i :
  settle_regular i ->
  isNaN (si_overflowNow i - si_overflowAtClaim i - (si_forgivenNow i - si_forgivenAtClaim i)) = false.
Proof.
  intros [_ Ho _ _ Hoa _ (Hw & Hf & Hp) (Hwa & Hfa & Hpa)].
  apply sub_finite_not_nan; [by apply sub_finite_not_nan|by apply sub_nonneg_finite].
Qed.

(** The script's branches on the numbers of a [SettleInput]. *)
Definition lua_amounts (i : SettleInput) : num * num * num :=
  let delta := si_actual i - si_claimed i in
  if delta >? int 0 then
    let slack := si_overflowNow i - si_overflowAtClaim i - (si_forgivenNow i - si_forgivenAtClaim i) in
    let slack := if slack <? int 0 then int 0 else slack in
    let used := lua_min delta slack in
    let owed := delta - used in
    let debt := if negb (isNaN (si_maxDebt i)) && negb (si_maxDebt i =? Inf false) && (si_maxDebt i >? int 0)
                then si_maxDebt i else int 0 in
    let room := si_tokens i + debt in
    let room := if room <? int 0 then int 0 else room in
    let applied := lua_min owed room in
    (applied, owed - applied, si_forgivenNow i + used)
  else if (delta <? int 0) && (si_fillsNow i =? si_fillsAtClaim i) then
    let headroom := si_maxTokens i - si_tokens i in
    let headroom := if headroom <? int 0 then int 0 else headroom in
    (- lua_min (- delta) headroom, int 0, si_forgivenNow i)
  else (int 0, int 0, si_forgivenNow i).

Lemma isNaN_fmax0 x : isNaN x = false -> isNaN (fmax (int 0) x) = false.
Proof. intros Hx. unfold fmax. destruct x as [|[]|]; try done. by destruct (_ <? _). Qed.

Lemma lua_amounts_eq i :
  settle_regular i -> bucket_recreated i = false ->
  lua_amounts i = (so_applied (settleAmount i), so_unapplied (settleAmount i), so_forgiven (settleAmount i)).
Proof.
  intros Hi Hr. pose proof (slack_not_nan i Hi) as Hs. destruct Hi as [Ht _ _ Hm _ _ _ _].
  unfold lua_amounts, settleAmount. rewrite Hr. cbv zeta. rewrite !clamp_fmax.
  assert ((if negb (isNaN (si_maxDebt i)) && negb (si_maxDebt i =? Inf false) && (si_maxDebt i >? int 0)
           then si_maxDebt i else int 0)
          = (if isFinite (si_maxDebt i) && (si_maxDebt i >? int 0) then si_maxDebt i else int 0)) as ->
    by by destruct (si_maxDebt i) as [|[]|].
  set (debt := if isFinite (si_maxDebt i) && (si_maxDebt i >? int 0) then si_maxDebt i else int 0).
  assert (isFinite debt = true) as Hd by (unfold debt; by destruct (si_maxDebt i) as [|[]|]; cbn; repeat case_match).
  clearbody debt. destruct (si_actual i - si_claimed i >? int 0).
  - rewrite (lua_min_fmin _ (fmax (int 0) (_ - _ - _))) by by apply isNaN_fmax0.
    rewrite lua_min_fmin by by apply isNaN_fmax0, add_finite_not_nan. done.
  - destruct (_ && _); [|done]. rewrite lua_min_fmin; [done|]. by apply isNaN_fmax0, finite_sub_not_nan.
Qed.

(** What is forgiven never falls below zero. *)
Lemma forgiven_nonneg i :
  settle_regular i -> (int 0 <=? so_forgiven (settleAmount i)) = true /\ wf_num (so_forgiven (settleAmount i)).
Proof.
  intros Hi. pose proof (slack_not_nan i Hi) as Hs. destruct Hi as [_ _ _ _ _ _ (Hw & _ & Hp) _].
  unfold settleAmount. destruct (bucket_recreated i); [done|]. cbv zeta.
  destruct (si_actual i - si_claimed i >? int 0) eqn:Ed; [|by destruct (_ && _)].
  cbn [so_forgiven]. split; [|apply wf_add]. apply add_nonneg; [done|].
  apply fmin_nonneg; [by apply ltb_leb|by apply fmax0_nonneg].
Qed.

Section settle.
Context {R : Type} `{Srv : RedisServer R} `{!RedisLaws R} `{Lua : LuaRuntime} `{!LuaLaws}.
Variable kind : string -> key_kind.
Context (t : clock) (Hnow : instant (ms t)).
Local Notation now := (ms t).
Implicit Types (s : R).

(** ** Incarnations *)

Lemma incarnation_text j : safe j -> (1 <= j)%Z -> num_to_string (int j) <> "".
Proof.
  intros Hj H1 He. assert (Number "" = int 0) as Hz by done. rewrite <- He, Number_num_to_string in Hz by by apply wf_int.
  apply int_inj in Hz. lia.
Qed.

Lemma incarnation_text_inj i j : safe i -> safe j -> num_to_string (int i) = num_to_string (int j) -> i = j.
Proof.
  intros Hi Hj He. apply int_inj. rewrite <- (Number_num_to_string (int i)), He by by apply wf_int.
  by apply Number_num_to_string, wf_int.
Qed.

(** Twin claims are on one incarnation on Redis exactly when they are in memory. *)
Lemma same_incarnation_iff n used E ep b er em ear eam :
  ledger n used E ep -> (n <= 2 ^ 50)%Z -> same_incarnation E b er em -> minted E b ear eam ->
  ear <> "" /\ eam <> "" /\ (default "" er = ear <-> default "" em = eam).
Proof.
  intros [(m & _ & Hm & Hj) H1] Hn Hs (j & Hin & ->). destruct (Hj _ _ _ Hin) as (_ & Hne & Hjm).
  assert (safe j) as Hsj by (unfold safe; lia). pose proof (incarnation_text j Hsj ltac:(lia)) as Hnej.
  split_and!; [done..|]. destruct er as [er|], em as [em|]; try done.
  - destruct Hs as (i & Hin' & ->). destruct (Hj _ _ _ Hin') as (_ & _ & Him). cbn.
    rewrite (H1 _ _ _ _ _ Hin' Hin). split; [by intros ->|]. apply incarnation_text_inj; [unfold safe; lia|done].
Qed.

(** ** One settlement *)

Lemma recreated_eq i ear er :
  settle_regular i -> ear <> "" -> si_epochAtClaim i <> "" ->
  (er = ear <-> si_epochNow i = si_epochAtClaim i) ->
  negb (bool_decide (ear = "")) && bool_decide (er = ear) && (si_generationNow i =? si_generationAtClaim i)
    && (si_overflowNow i >=? si_overflowAtClaim i) && (si_fillsNow i >=? si_fillsAtClaim i)
  = negb (bucket_recreated i).
Proof.
  intros [_ Ho Hf _ Hoa Hfa _ _] Hne Hne' He. unfold bucket_recreated.
  rewrite !negb_orb, !negb_involutive, !not_nan_negb_ltb by (done || by apply finite_not_nan).
  rewrite !(bool_decide_eq_false_2 (_ = "")) by done. cbn [negb andb].
  by rewrite (bool_decide_ext _ _ He).
Qed.

(** What a script and the memory backend know of one claim. *)
Lemma amounts_agree n used E ep w key config r rm mm actual maxDebt :
  let b := default ∅ (hash_at now w key) in
  let st := bucket_at now w key config in
  let i := {| si_tokens := tokens st; si_maxTokens := maxTokens config; si_maxDebt := maxDebt; si_actual := actual;
     si_claimed := parseFiniteStored (mm !! "claimed") (int 0);
     si_overflowNow := overflow st;
     si_overflowAtClaim := parseFiniteStored (mm !! "overflow") (int 0);
     si_forgivenNow := parseFiniteStored (field_at now w key "forgiven") (int 0);
     si_forgivenAtClaim := parseFiniteStored (mm !! "forgiven") (int 0);
     si_fillsNow := fills st;
     si_fillsAtClaim := parseFiniteStored (mm !! "fills") (int 0);
     si_generationNow := parseFiniteStored (field_at now w key "generation") (int 0);
     si_generationAtClaim := parseFiniteStored (mm !! "generation") (int 0);
     si_epochNow := default "" (field_at now w key "epoch");
     si_epochAtClaim := default "" (mm !! "epoch") |} in
  ledger n used E ep -> (n <= 2 ^ 50)%Z -> bucket_twins n E key r b -> mark_twins E key rm mm ->
  unusableBudget (int 0) config = None ->
  settle_regular i /\
  settle_amounts st r rm actual (maxTokens config) (Some maxDebt)
  = (so_applied (settleAmount i), so_unapplied (settleAmount i), so_forgiven (settleAmount i)).
Proof.
  intros b st i Hl Hn Hb Hm Hu.
  assert (isFinite (maxTokens config) = true) as Hmax.
  { unfold unusableBudget in Hu. destruct (negb (_ >? _)); [done|]. by destruct (isFinite (maxTokens config)). }
  pose proof (refill_not_nan (stored_bucket now w key config) config now Hu) as (Hnt & Hno & Hnf);
    [cbn; by apply parseFinite_finite..|]. fold (bucket_at now w key config) in Hnt, Hno, Hnf. fold st in Hnt, Hno, Hnf.
  assert (settle_regular i) as Hi.
  { split; try done; try by apply parseFinite_finite.
    - cbn. rewrite field_default. fold b. split_and!; [by apply wf_parseFinite, wf_int|by apply parseFinite_finite|].
      apply (bt_forgave _ _ _ _ _ Hb).
    - cbn. split_and!; [by apply wf_parseFinite, wf_int|by apply parseFinite_finite|]. apply (mt_forgave _ _ _ _ Hm). }
  split; [done|]. pose proof (twins_generation n E key r b Hb Hn) as Hg. destruct Hb as [_ _ _ _ _ Hfo _ _ He].
  destruct Hm as [_ Hc _ Hov Hfi Hge Hfg _ (er & em & Her & Hem & Hmint)]. unfold reads0 in *.
  destruct (same_incarnation_iff n used E ep key _ _ er em Hl Hn He Hmint) as (Hne & Hne' & Hiff).
  assert (si_epochAtClaim i = em) as Eem by (cbn; by rewrite Hem).
  unfold b in *. rewrite <- !field_default in *.
  pose proof (recreated_eq i er (default "" (r !! "epoch")) Hi Hne) as Hrec. rewrite Eem in Hrec.
  specialize (Hrec Hne' Hiff).
  assert (settle_amounts st r rm actual (maxTokens config) (Some maxDebt)
    = if negb (bool_decide (er = "")) && bool_decide (default "" (r !! "epoch") = er)
         && (si_generationNow i =? si_generationAtClaim i)
         && (si_overflowNow i >=? si_overflowAtClaim i) && (si_fillsNow i >=? si_fillsAtClaim i)
      then lua_amounts i else (int 0, int 0, si_forgivenNow i)) as ->.
  { unfold settle_amounts. rewrite Her. cbn [default]. rewrite Hfo, Hg, Hc, Hov, Hfi, Hge, Hfg. reflexivity. }
  rewrite Hrec. destruct (bucket_recreated i) eqn:Er; cbn [negb]; [|by apply lua_amounts_eq].
  unfold settleAmount. by rewrite Er.
Qed.

(** The reply of one settlement, as the operation reads it. *)
Definition settle_result (spec : SettleSpec) (d : settled_reply) : SettleResult :=
  {| sr_key := ss_key spec; sr_settled := sd_settled d;
     sr_applied := parseLuaNumber (sd_applied d); sr_unapplied := parseLuaNumber (sd_unapplied d) |}.

(** What the script is told of a specification. *)
Definition entry_matches (e : settle_entry) (spec : SettleSpec) : Prop :=
  e = {| se_key := ss_key spec; se_markKey := spec_mark spec; se_actual := Some (ss_actual spec);
         se_maxTokens := Some (maxTokens (ss_config spec)); se_tokensToAdd := Some (tokensToAdd (ss_config spec));
         se_interval := Some (interval (ss_config spec)); se_maxDebt := Some (ss_maxDebt spec) |}.

Lemma settle_usable_eq spec :
  settle_usable spec
  = lua_usableCost (Some (ss_actual spec)) && (tokensToAdd (ss_config spec) >? int 0)
    && negb (bad_max (Some (maxTokens (ss_config spec)))) && negb (bad_interval (Some (interval (ss_config spec)))).
Proof.
  unfold settle_usable. rewrite lua_usableCost_eq. unfold usableCost.
  assert (isFinite (ss_actual spec) && negb (ss_actual spec <? int 0)
          = isFinite (ss_actual spec) && (ss_actual spec >=? int 0)) as ->.
  { destruct (isFinite (ss_actual spec)) eqn:E; [|done]. cbn [andb].
    by apply not_nan_negb_ltb; [apply finite_not_nan|]. }
  rewrite unusableBudget_eq, lua_usableCost_eq.
  assert (usableCost (int 0) = true) as -> by (unfold usableCost; by rewrite geb_int).
  destruct (isFinite (ss_actual spec) && (ss_actual spec >=? int 0)); [|done]. cbn [andb negb].
  destruct (tokensToAdd (ss_config spec) >? int 0); [|done].
  destruct (bad_max _); [done|]. by destruct (bad_interval _).
Qed.

Lemma wf_fmin x y : wf_num x -> wf_num y -> wf_num (fmin x y).
Proof. intros Hx Hy. unfold fmin. destruct x, y; try done; by destruct (_ <? _). Qed.

Lemma wf_settleAmount i :
  wf_num (so_applied (settleAmount i)) /\ wf_num (so_unapplied (settleAmount i)).
Proof.
  assert (wf_num (int 0)) as H0 by by apply wf_int.
  unfold settleAmount. destruct (bucket_recreated i); [done|]. cbv zeta.
  destruct (_ >? _); [|destruct (_ && _); [|done]]; cbn [so_applied so_unapplied].
  - split; [|apply wf_sub]. apply wf_fmin; [apply wf_sub|apply wf_fmax0, wf_add].
  - split; [|done]. apply wf_neg, wf_fmin; [apply wf_neg, wf_sub|apply wf_fmax0, wf_sub].
Qed.

Lemma bucket_twins_settled n E key r m b f :
  wf_bucket b -> wf_num f -> (int 0 <=? f) = true -> bucket_twins n E key r m ->
  bucket_twins n E key (put_fields (bucket_kvs b ++ [("forgiven", fmt17 f)]) r)
    (<["forgiven" := num_to_string f]> (bucket_fields b m)).
Proof.
  intros Hb Hf H0 Ht. apply (bucket_twins_write n E key r m b Hb) in Ht as [H1 H2 H3 H4 H5 H6 H7 H8 H9].
  unfold put_fields in *. rewrite fold_left_app. cbn [fold_left fst snd].
  split; rewrite ?lookup_insert_eq, ?lookup_insert_ne by done; try done; [by apply reads0_written|].
  unfold not_negative. rewrite parseFinite_written by done. by destruct (isFinite f).
Qed.

(** The memory backend's writes of a settlement. *)
Lemma settle_writes_holds key b config f now' w m (a : SettleResult) :
  now' = now -> hash_at now w key = Some m ->
  exists w', (writeBucket key b (int 86400) (Some config) ;; hash key ;;
              hash_set key "forgiven" (num_to_string f) ;; mret a) now' w = (Ok a, w') /\ epochs w' = epochs w /\
    exists e, expiresAt e = Some (now + bucketTtl (int 86400) config * int 1000) /\
      e_hash e = Some (<["forgiven" := num_to_string f]> (bucket_fields b m)) /\
      holds now w' (patch key (Some e) (live_at now w)).
Proof.
  intros -> Hh. destruct (bucketTtl_writes (int 86400) config in_range_day) as [Hn Hr].
  destruct (writeBucket_holds key b (int 86400) (Some config) _ now w Hn Hr Hnow) as (w1 & E1 & Ep1 & Hw1).
  set (e1 := bucket_entry b now _ _) in *.
  assert (e_hash e1 = Some (bucket_fields b m)) as He1.
  { unfold hash_at in Hh. destruct (live_at now w key) as [[? ? ? ? ?]|]; [|discriminate Hh]. cbn in Hh.
    unfold e1, bucket_entry, ensure_hash. cbn. by rewrite Hh. }
  assert (hash_at now w1 key = Some (bucket_fields b m)) as Hh1 by (unfold hash_at; by rewrite Hw1, patch_eq).
  rewrite (bind_ok _ _ _ _ _ _ E1), (bind_ok _ _ _ _ _ _ (hash_present_run _ _ _ _ Hh1)).
  eexists. split; [reflexivity|]. split; [exact Ep1|].
  exists (on_hash <["forgiven" := num_to_string f]> e1). split; [by rewrite keeps_on_hash|].
  split; [unfold on_hash; by rewrite He1|]. intros k. rewrite live_at_alter by auto with store.
  unfold patch. case_decide; [subst|by rewrite Hw1, patch_ne]. by rewrite Hw1, patch_eq.
Qed.

Lemma exact_zero : parseLuaNumber (exact (int 0)) = int 0.
Proof. unfold exact. by rewrite parse_fmt17 by by apply wf_int. Qed.

Lemma settle_one_agrees n used E s w e spec :
  alike kind n used E (look now s) (live_at now w) (epochs w) -> (0 <= n)%Z ->
  kind (ss_key spec) = KBucket -> kind (spec_mark spec) = KMark (ss_key spec) ->
  wf_config (ss_config spec) -> entry_matches e spec ->
  exists d s' w', settle_script_one t (int 86400) e s = (Return d, s') /\
    settle_one now spec now w = (Ok (settle_result spec d), w') /\
    alike kind n used E (look now s') (live_at now w') (epochs w').
Proof.
  intros Ha Hn Hk Hmk (Hm & _ & _) ->. set (key := ss_key spec) in *. set (mk := spec_mark spec) in *.
  assert (mk <> key) as Hne by by apply string_app_ne.
  pose proof Ha as (Hkeys & Hl & Hn'). rewrite settle_one_run. fold key mk.
  unfold settle_script_one. cbn [se_markKey se_key se_actual se_maxTokens se_tokensToAdd se_interval se_maxDebt].
  assert (forall b, settle_result spec {| sd_settled := b; sd_applied := exact (int 0); sd_unapplied := exact (int 0) |}
    = {| sr_key := key; sr_settled := b; sr_applied := int 0; sr_unapplied := int 0 |}) as Hzero.
  { intros b. unfold settle_result. cbn [sd_settled sd_applied sd_unapplied]. by rewrite exact_zero. }
  assert (alike kind n used E (look now s) (live_at now (purge_key now mk w)) (epochs (purge_key now mk w))) as Hsame.
  { rewrite purge_key_epochs. eapply alike_ext; [done|intros k; apply live_at_purge_key|exact Ha]. }
  destruct (twins_mark kind n E mk key _ _ (Hkeys mk) Hmk) as [[Hs Hw]|(rm & em & mm & Hs & Hw & Hmm & Hmt)].
  { rewrite (sbind_ok _ _ _ _ _ (HGETALL_run now mk ∅ s ltac:(by rewrite Hs))). unfold hash_at. rewrite Hw.
    cbn [mbind option_bind]. rewrite lookup_empty. eexists _, s, _. split; [reflexivity|]. by rewrite Hzero. }
  rewrite (sbind_ok _ _ _ _ _ (HGETALL_run now mk rm s ltac:(by rewrite Hs))).
  unfold hash_at at 1. rewrite Hw. cbn [mbind option_bind]. rewrite Hmm.
  destruct (mt_present _ _ _ _ Hmt) as [cl Hcl]. rewrite Hcl, <- settle_usable_eq.
  destruct (settle_usable spec) eqn:Husable; cbn [negb].
  2:{ eexists _, s, _. split; [reflexivity|]. by rewrite Hzero. }
  cbv zeta. destruct (DEL_run now Hnow mk s) as (s1 & E1 & Hs1). rewrite (sbind_ok _ _ _ _ _ E1).
  set (w1 := consumed now spec w).
  assert (holds now w1 (patch mk None (live_at now w))) as Hw1.
  { intros k. unfold w1, consumed. fold mk. rewrite live_at_delete, live_at_purge_key. reflexivity. }
  assert (epochs w1 = epochs w) as Hep1 by (unfold w1, consumed; apply purge_key_epochs).
  assert (alike kind n used E (look now s1) (live_at now w1) (epochs w1)) as Ha1.
  { rewrite Hep1. eapply alike_ext; [exact Hs1|exact Hw1|]. by apply alike_patch. }
  clear Hsame. clearbody w1.
  destruct (twins_bucket kind n E key _ _ (proj1 Ha1 key) Hk Hn) as (r & Hr & Hb & Hpres).
  fold (hash_at now w1 key) in Hb.
  rewrite (sbind_ok _ _ _ _ _ (HGETALL_run now key r s1 Hr)). rewrite field_default.
  pose proof (bt_present _ _ _ _ _ Hb) as Hpt.
  destruct (r !! "tokens") as [raw|] eqn:Er.
  2:{ rewrite (proj1 Hpt eq_refl). eexists _, s1, _. split; [reflexivity|]. rewrite Hzero. split; [done|].
      rewrite purge_key_epochs.
      eapply (alike_ext kind _ _ _ (look now s1) _ (live_at now w1)); [done|intros k; apply live_at_purge_key|exact Ha1]. }
  destruct (default ∅ (hash_at now w1 key) !! "tokens") as [raw'|] eqn:Er'; [|by specialize (proj2 Hpt eq_refl)].
  assert (hash_at now w1 key = Some (default ∅ (hash_at now w1 key))) as Hh1.
  { destruct (hash_at now w1 key); [done|]. discriminate Er'. }
  rewrite (sbind_ok _ _ _ _ _ (read_bucket_run t key (maxTokens (ss_config spec)) r s1 Hr)).
  rewrite (refilled_eq t n E key r w1 (ss_config spec) Hb). cbv zeta.
  rewrite (sbind_ok _ _ _ _ _ (HGETALL_run now key r s1 Hr)).
  assert (unusableBudget (int 0) (ss_config spec) = None) as Hu.
  { unfold settle_usable in Husable. apply andb_true_iff in Husable as [_ Hu]. by apply bool_decide_eq_true in Hu. }
  destruct (amounts_agree n used E (epochs w1) w1 key (ss_config spec) r rm mm (ss_actual spec) (ss_maxDebt spec))
    as [Hreg Heq]; [apply Ha1|done|done|done|done|].
  rewrite Heq. fold key in Heq.
  match type of Hreg with settle_regular ?x => change (settle_input now w1 spec mm) with x; set (i := x) in * end.
  set (st := bucket_at now w1 key (ss_config spec)) in *. rewrite lua_bucketTtl_eq.
  destruct (bucketTtl_writes (int 86400) (ss_config spec) in_range_day) as [_ Hrange].
  pose proof (wf_bucket_at t Hnow w1 key (ss_config spec) Hm) as Hwf. fold st in Hwf.
  destruct (wf_settleAmount i) as [Hwa Hwu]. destruct (forgiven_nonneg i Hreg) as [Hf0 Hwff].
  set (b := with_tokens (tokens st - so_applied (settleAmount i)) st) in *.
  assert (wf_bucket b) as Hwb by (apply wf_with_tokens; [apply wf_sub|done]).
  match goal with |- context [call_HSET now key ?kvs ;; call_EXPIRE now key ?ttl ;; mret ?d] =>
    destruct (HSET_EXPIRE_run now Hnow key kvs ttl r (fun _ => mret d : Script R settled_reply) s1 ltac:(done) Hr Hrange)
      as (s2 & E2 & Hs2);
    rewrite E2; exists d, s2 end.
  destruct (settle_writes_holds key b (ss_config spec) (so_forgiven (settleAmount i)) now
    (purge_key now key w1) (default ∅ (hash_at now w1 key))
    {| sr_key := key; sr_settled := true; sr_applied := so_applied (settleAmount i);
       sr_unapplied := so_unapplied (settleAmount i) |} eq_refl) as (w2 & E3 & Ep2 & e2 & He2 & Hh2 & Hw2).
  { by rewrite hash_at_purge_key. }
  exists w2. split; [reflexivity|]. split.
  { rewrite E3. unfold settle_result. cbn [sd_settled sd_applied sd_unapplied]. unfold exact.
    by rewrite !parse_fmt17. }
  rewrite Ep2, purge_key_epochs.
  eapply (alike_ext kind _ _ _ (patch key _ (look now s1)) _ (patch key (Some e2) (live_at now w1))); [exact Hs2| |].
  { intros k. rewrite Hw2. unfold patch. case_decide; [done|apply live_at_purge_key]. }
  apply alike_patch; [|done]. cbn. split; [done|]. eexists. split; [exact Hh2|]. unfold hash_twins. rewrite Hk.
  exact (bucket_twins_settled n E key r _ b _ Hwb Hwff Hf0 Hb).
Qed.

(** ** Many at once *)

Lemma index_of_spec key keys i keys' :
  index_of key keys = (i, keys') -> (exists l, keys' = keys ++ l) /\ keys' !! pred i = Some key /\ (0 < i)%nat.
Proof.
  unfold index_of. destruct (list_find (eq key) keys) as [[j x]|] eqn:E; intros [= <- <-].
  - apply list_find_Some in E as (Hj & <- & _). split; [exists []; by rewrite app_nil_r|]. split; [done|lia].
  - split; [by eexists|]. split; [|lia]. cbn [pred]. by rewrite lookup_app_r, Nat.sub_diag by done.
Qed.

Lemma unwire_wire x : wf_num x -> unwire (wire x) = Some x.
Proof. intros Hx. unfold unwire, wire. destruct (isFinite x); [done|by apply tonumber_string]. Qed.

Definition wf_settle (spec : SettleSpec) : Prop :=
  wf_num (ss_actual spec) /\ wf_num (ss_maxDebt spec) /\ wf_config (ss_config spec).

(** Every entry finds its own keys, whatever keys follow. *)
Lemma encode_settles_spec specs : Forall wf_settle specs -> forall keys entries keys',
  encode_settles specs keys = (entries, keys') ->
  (exists l, keys' = keys ++ l) /\
  forall more, Forall2 (fun e spec => entry_matches (entry_of (keys' ++ more) e) spec) entries specs.
Proof.
  induction 1 as [|spec specs (Hwa & Hwd & Hm & Hadd & Hi) _ IH]; intros keys entries keys'; cbn [encode_settles].
  { intros [= <- <-]. split; [exists []; by rewrite app_nil_r|done]. }
  destruct (index_of (ss_key spec) keys) as [k keys1] eqn:E1.
  destruct (index_of (claimMarkKey _ _) keys1) as [mk keys2] eqn:E2.
  destruct (encode_settles specs keys2) as [rest keys3] eqn:E3. intros [= <- <-].
  apply index_of_spec in E1 as ((l1 & ->) & Hk & _). apply index_of_spec in E2 as ((l2 & ->) & Hmk & _).
  destruct (IH _ _ _ E3) as ((l3 & ->) & Hall). split; [exists (l1 ++ l2 ++ l3); by rewrite <- !(assoc_L (++))|].
  intros more. constructor; [|apply Hall]. unfold entry_matches, entry_of, KEYS_at, spec_mark.
  rewrite !unwire_wire by done.
  assert (((((keys ++ l1) ++ l2) ++ l3) ++ more) !! pred k = Some (ss_key spec)) as ->
    by by do 3 apply lookup_app_l_Some.
  assert (((((keys ++ l1) ++ l2) ++ l3) ++ more) !! pred mk = Some (claimMarkKey (ss_key spec) (ss_markId spec))) as ->
    by by do 2 apply lookup_app_l_Some.
  done.
Qed.

(** A specification's keys are a bucket's and its mark's. *)
Definition settle_fits (spec : SettleSpec) : Prop :=
  kind (ss_key spec) = KBucket /\ kind (spec_mark spec) = KMark (ss_key spec) /\ wf_settle spec.

Lemma settle_all_agree n used E es specs : forall s w,
  alike kind n used E (look now s) (live_at now w) (epochs w) -> (0 <= n)%Z ->
  Forall2 entry_matches es specs -> Forall settle_fits specs ->
  exists ds s' w', scollect es (settle_script_one t (int 86400)) s = (Return ds, s') /\
    mcollect specs (settle_one now) now w = (Ok (zip_with settle_result specs ds), w') /\
    alike kind n used E (look now s') (live_at now w') (epochs w').
Proof.
  intros s w Ha Hn Hm. revert s w Ha. induction Hm as [|e spec es specs He _ IH]; intros s w Ha Hf.
  { exists [], s, w. split_and!; done. }
  apply Forall_cons in Hf as [(Hk & Hmk & _ & _ & Hc) Hf].
  destruct (settle_one_agrees n used E s w e spec Ha Hn Hk Hmk Hc He) as (d & s1 & w1 & E1 & E2 & Ha1).
  destruct (IH s1 w1 Ha1 Hf) as (ds & s2 & w2 & E3 & E4 & Ha2).
  exists (d :: ds), s2, w2. cbn [scollect mcollect zip_with].
  rewrite (sbind_ok _ _ _ _ _ E1), (sbind_ok _ _ _ _ _ E3), (bind_ok _ _ _ _ _ _ E2), (bind_ok _ _ _ _ _ _ E4).
  done.
Qed.

Lemma settle_agrees n used s w specs :
  twins kind n used now s w -> (0 <= n < 2 ^ 50)%Z -> Forall settle_fits specs ->
  agrees kind t (n + 1) (micros t :: used) (redis_settleTokens t specs) (settleTokens specs) s w.
Proof.
  intros (E & Ha) Hn Hf. unfold agrees, redis_settleTokens, settleTokens. rewrite date_now_run.
  assert (forall s' w', alike kind n used E (look now s') (live_at now w') (epochs w') ->
    twins kind (n + 1) (micros t :: used) now s' w') as Hmore.
  { intros s' w' Ha'. exists E. eapply alike_more; [..|exact Ha']; [lia|]. intros y Hy. by apply list_elem_of_further. }
  destruct specs as [|spec specs']; [by exists (Ok []), s, w; split_and!; [..|apply Hmore]|].
  set (specs := spec :: specs') in *.
  destruct (encode_settles specs []) as [entries keys] eqn:Ee.
  assert (Forall wf_settle specs) as Hwf by (eapply Forall_impl; [exact Hf|by intros ? (_ & _ & ?)]).
  destruct (encode_settles_spec specs Hwf [] entries keys Ee) as [_ Hall]. specialize (Hall []).
  rewrite app_nil_r in Hall. rewrite arg_or_wf by by apply wf_int.
  destruct (settle_all_agree n used E (entry_of keys <$> entries) specs s w Ha ltac:(lia)) as (ds & s' & w' & E1 & E2 & Ha');
    [by apply Forall2_fmap_l|done|].
  rewrite (sbind_ok _ _ _ _ _ E1). exists (Ok (zip_with settle_result specs ds)), s', w'.
  split_and!; [done|exact E2|by apply Hmore].
Qed.
End settle.
