(* ===== verification/RedisTwinsProps.v ===== *)
(** * The Redis buckets refine the memory buckets

    Any history of bucket operations, run on a Redis server and on a memory
    backend that start alike, is answered alike. *)
From S2P Require Import Prelude JsNumber JsString Json Shared SharedFacts.
From S2P Require Import MemoryStore StoreFacts TokenBucket TokenBucketFacts Concurrency Queue Freeze.
From S2P Require Import Backend Observe StoreProps Atomicity AdmissionProps SettlementProps.
From S2P Require Import Client RedisServer RedisFacts RedisModel RedisBucket RedisTwins RedisClaims.
From S2P Require Import RedisAgree RedisUpkeep RedisSettle.
Local Open Scope num_scope.

(** ** Histories *)

Inductive bucket_op :=
  | BAcquire (key : string) (cost : num) (config : TokenBucketConfig) (mark : option ClaimMark)
  | BAdmit (queueKey bucketKey freezeKey : string) (cost : num) (config : TokenBucketConfig) (ttl : num)
      (mark : option ClaimMark)
  | BState (key : string) (config : TokenBucketConfig)
  | BReset (key : string) (max : num)
  | BEmpty (key : string) (config : TokenBucketConfig)
  | BRefund (key : string) (cost max : num) (freezeKey : option string)
  | BSettle (specs : list SettleSpec)
  | BTouch (bucketKey markId : string) (ttlSeconds : num).

Inductive bucket_reply :=
  | PAcquired (r : AcquireTokensResult)
  | PAdmitted (admitted : bool)
  | PState (s : num * num)
  | PDone
  | PSettled (rs : list SettleResult)
  | PTouched (held : bool).

Definition redis_op {R} `{RedisServer R} `{LuaRuntime} (t : clock) (op : bucket_op) : Script R bucket_reply :=
  match op with
  | BAcquire key cost config mark => r ← redis_acquireTokens t key cost config mark; mret (PAcquired r)
  | BAdmit q b f cost config ttl mark =>
      r ← redis_tryAdmitImmediately t q b f cost config ttl mark; mret (PAdmitted r)
  | BState key config => r ← redis_getTokenBucketState t key config; mret (PState r)
  | BReset key max => redis_resetTokenBucket t key max ;; mret PDone
  | BEmpty key config => redis_emptyTokenBucket t key config ;; mret PDone
  | BRefund key cost max fk => redis_refundTokens t key cost max fk ;; mret PDone
  | BSettle specs => r ← redis_settleTokens t specs; mret (PSettled r)
  | BTouch b m ttl => r ← redis_touchClaimMark t b m ttl; mret (PTouched r)
  end.

Definition memory_op (op : bucket_op) : M bucket_reply :=
  match op with
  | BAcquire key cost config mark => r ← acquireTokens key cost config mark; mret (PAcquired r)
  | BAdmit q b f cost config ttl mark =>
      r ← tryAdmitImmediately q b f cost config ttl mark; mret (PAdmitted r)
  | BState key config => r ← getTokenBucketState key config; mret (PState r)
  | BReset key max => resetTokenBucket key max ;; mret PDone
  | BEmpty key config => emptyTokenBucket key config ;; mret PDone
  | BRefund key cost max fk => refundTokens key cost max fk ;; mret PDone
  | BSettle specs => r ← settleTokens specs; mret (PSettled r)
  | BTouch b m ttl => r ← touchClaimMark b m ttl; mret (PTouched r)
  end.

Fixpoint redis_history {R} `{RedisServer R} `{LuaRuntime} (h : list (clock * bucket_op)) (s : R)
    : list (outcome bucket_reply) * R :=
  match h with
  | [] => ([], s)
  | (t, op) :: h =>
      let '(r, s) := redis_op t op s in
      let '(rs, s) := redis_history h s in (r :: rs, s)
  end.

Fixpoint memory_history (h : list (clock * bucket_op)) (w : World) : list (result bucket_reply) * World :=
  match h with
  | [] => ([], w)
  | (t, op) :: h =>
      let '(r, w) := memory_op op (ms t) w in
      let '(rs, w) := memory_history h w in (r :: rs, w)
  end.

(** ** Which histories *)

Section fits.
Variable kind : string -> key_kind.

(** Every key is used for one thing, and every number is a double. *)
Definition op_fits (op : bucket_op) : Prop :=
  match op with
  | BAcquire key cost config mark =>
      kind key = KBucket /\ mark_named kind key mark /\ wf_num cost /\ wf_config config
  | BAdmit q b f cost config ttl mark =>
      (kind q = KQueue /\ kind b = KBucket /\ kind f = KFreeze) /\
      mark_named kind b mark /\ wf_num cost /\ wf_config config /\ wf_num ttl
  | BState key config => kind key = KBucket /\ isNaN (maxTokens config) = false
  | BReset key max => kind key = KBucket /\ wf_num max
  | BEmpty key config => kind key = KBucket /\ wf_config config
  | BRefund key cost max fk =>
      kind key = KBucket /\ (forall k, fk = Some k -> k <> "" -> kind k = KFreeze) /\ wf_num cost /\ wf_num max
  | BSettle specs => Forall (settle_fits kind) specs
  | BTouch b m _ => kind (claimMarkKey b m) = KMark b
  end.

(** No key lapses at this very millisecond: Redis still shows it then, and the
    memory backend no longer does. *)
Definition clear (now : num) (w : World) : bool :=
  forallb (fun kv => match expiresAt kv.2 with Some x => (now <? x) || (x <? now) | None => true end)
    (map_to_list (store w)).

(** Time does not go back, and no key lapses at the instant of a step. *)
Fixpoint timely (t0 : num) (h : list (clock * bucket_op)) (w : World) : bool :=
  match h with
  | [] => true
  | (t, op) :: h =>
      (t0 <=? ms t) && clear (ms t) w && timely (ms t) h (memory_op op (ms t) w).2
  end.

Definition step_fits (e : clock * bucket_op) : Prop :=
  instant (ms e.1) /\ micros e.1 <> "" /\ op_fits e.2.

Fixpoint last_time (t0 : num) (h : list (clock * bucket_op)) : num :=
  match h with [] => t0 | (t, _) :: h => last_time (ms t) h end.
End fits.

Section history.
Context {R : Type} `{Srv : RedisServer R} `{!RedisLaws R} `{Lua : LuaRuntime} `{!LuaLaws}.
Variable kind : string -> key_kind.
Implicit Types (s : R).

(** ** Time passes alike *)

Lemma clear_live t0 now w k e x :
  clear now w = true -> live_at t0 w k = Some e -> expiresAt e = Some x -> (now <? x) || (x <? now) = true.
Proof.
  unfold clear. rewrite forallb_forall. intros Hc Hl Hx. apply live_at_lookup in Hl.
  specialize (Hc (k, e)). cbn in Hc. rewrite Hx in Hc. apply Hc.
  by apply list_elem_of_In, elem_of_map_to_list.
Qed.

Lemma twins_advance n used t0 now s w :
  twins kind n used t0 s w -> (t0 <=? now) = true -> clear now w = true -> twins kind n used now s w.
Proof.
  intros (E & Hk & Hl & Hn) Ht Hc. exists E. split_and!; [|done..]. intros k. specialize (Hk k).
  destruct (live_at t0 w k) as [e|] eqn:Ew.
  - destruct (look t0 s k) as [[v x]|] eqn:Es; [|done].
    assert (expiresAt e = x) as Hx by (destruct v; try done; by destruct Hk as [? _]).
    assert (live_at now w k = if expired now e then None else Some e) as Hw.
    { unfold live_at. by rewrite (live_at_lookup _ _ _ _ Ew). }
    destruct x as [x|].
    + pose proof (clear_live _ _ _ _ _ _ Hc Ew Hx) as Hor. unfold expired in Hw. rewrite Hx in Hw.
      destruct (now <? x) eqn:El.
      * rewrite (look_before _ _ _ _ _ _ Ht Es El). rewrite (ltb_not_geb _ _ El) in Hw. by rewrite Hw.
      * cbn in Hor. rewrite (look_after _ _ _ _ _ _ Ht Es Hor). unfold geb in Hw.
        rewrite (ltb_leb _ _ Hor) in Hw. by rewrite Hw.
    + rewrite (look_persistent _ _ _ _ _ Ht Es). unfold expired in Hw. rewrite Hx in Hw. by rewrite Hw.
  - destruct (look t0 s k) as [[[] ?]|] eqn:Es; [done..|].
    rewrite (look_absent _ _ _ _ Ht Es), (live_at_dead_later _ _ _ _ Ht Ew). done.
Qed.

(** ** One operation *)

Lemma agrees_reply {A} t n used (m : Script R A) (m' : M A) (f : A -> bucket_reply) s w :
  agrees kind t n used m m' s w -> agrees kind t n used (x ← m; mret (f x)) (x ← m'; mret (f x)) s w.
Proof.
  intros (r & s' & w' & E1 & E2 & Ht). exists (match r with Ok a => Ok (f a) | Throw e => Throw e end), s', w'.
  unfold mbind, Script_bind, M_bind. rewrite E1, E2. by destruct r.
Qed.

Lemma op_agrees t n used s w op :
  instant (ms t) -> twins kind n used (ms t) s w -> (0 <= n < 2 ^ 50)%Z ->
  micros t ∉ used -> micros t <> "" -> op_fits kind op ->
  agrees kind t (n + 1) (micros t :: used) (redis_op t op) (memory_op op) s w.
Proof.
  intros Hi Htw Hn Hf Hne Hop. destruct op; cbn [redis_op memory_op op_fits] in *.
  - destruct Hop as (? & ? & ? & ?). by apply agrees_reply, acquire_agrees.
  - destruct Hop as ((? & ? & ?) & ? & ? & ? & ?). by apply agrees_reply, admit_agrees.
  - destruct Hop. by apply agrees_reply, state_agrees.
  - destruct Hop. by apply (agrees_reply t _ _ _ _ (fun _ => PDone)), reset_agrees.
  - destruct Hop. by apply (agrees_reply t _ _ _ _ (fun _ => PDone)), empty_agrees.
  - destruct Hop as (? & ? & ? & ?). by apply (agrees_reply t _ _ _ _ (fun _ => PDone)), refund_agrees.
  - by apply agrees_reply, settle_agrees.
  - by apply agrees_reply, touch_agrees.
Qed.

(** ** Histories *)

(** C36.  The Redis backend's token buckets refine the memory backend's.  Start
    a Redis server, of any kind that keeps the documented laws, and a memory
    backend that hold the same buckets, marks, freezes and queues, and run any
    history of bucket operations on both: claims with and without marks, the
    fast path, refunds, resets, emptyings, settlements, keep-alives and
    readings, at any configuration, usable or not.  Then every reply is the same,
    refusals and errors included, and the two hold the same at the end.  The
    history's instants do not go back, no two share a microsecond, and none is the
    very millisecond at which a key lapses. *)
Theorem redis_refines_memory (h : list (clock * bucket_op)) : forall n used t0 (s : R) (w : World),
  twins kind n used t0 s w -> (0 <= n)%Z -> (n + Z.of_nat (length h) <= 2 ^ 50)%Z ->
  Forall (step_fits kind) h -> timely t0 h w = true -> NoDup ((micros ∘ fst <$> h) ++ used) ->
  (redis_history h s).1 = outcome_from <$> (memory_history h w).1 /\
  exists n' used', twins kind n' used' (last_time t0 h) (redis_history h s).2 (memory_history h w).2.
Proof.
  induction h as [|[t op] h IH]; intros n used t0 s w Htw Hn Hlen Hf Hs Hd.
  { split; [done|]. by exists n, used. }
  cbn [timely] in Hs. apply andb_true_iff in Hs as [[Ht Hc]%andb_true_iff Hs].
  apply Forall_cons in Hf as [(Hi & Hne & Hop) Hf].
  cbn [length fmap list_fmap app] in Hlen, Hd. apply NoDup_cons in Hd as [Hfresh Hd]. cbn [compose fst] in Hfresh.
  assert (micros t ∉ used) as Hu by (intros ?; apply Hfresh; apply elem_of_app; by right).
  pose proof (twins_advance n used t0 (ms t) s w Htw Ht Hc) as Htw'.
  destruct (op_agrees t n used s w op Hi Htw' ltac:(lia) Hu Hne Hop) as (r & s1 & w1 & E1 & E2 & Htw1).
  rewrite E2 in Hs. cbn [snd] in Hs.
  destruct (IH (n + 1)%Z (micros t :: used) (ms t) s1 w1 Htw1) as [Hr Hend]; [lia..|done|done| |].
  { rewrite <- Permutation_middle. by apply NoDup_cons. }
  cbn [redis_history memory_history last_time]. rewrite E1, E2.
  destruct (redis_history h s1) as [rs s2], (memory_history h w1) as [rs' w2]. cbn [fst snd] in *.
  split; [by rewrite Hr|done].
Qed.
End history.

(** Nothing stored on either side. *)
Lemma twins_fresh `{!LuaRuntime} kind t0 : twins (R := ModelRedis) kind 0 [] t0 (∅ : ModelRedis) MemoryBackend.
Proof.
  exists []. split_and!; [| |done].
  - intros k. unfold live_at. cbn [look model_server store MemoryBackend]. unfold model_look.
    by rewrite !lookup_empty.
  - split; [exists 0%Z; split_and!; [done|lia|lia|]|]; intros; set_solver.
Qed.

Definition demo_kind (k : string) : key_kind :=
  if bool_decide (k = "b") then KBucket
  else if bool_decide (k = "q") then KQueue
  else if bool_decide (k = "f") then KFreeze
  else KMark "b".

Definition tick (z : Z) (m : string) : clock := {| ms := int z; micros := m |}.
Definition demo_mark (id : string) : option ClaimMark := Some {| mark_id := id; mark_ttlSeconds := int 60 |}.

(** A claim of 4, one too large, the fast path for 3, the first settled at 9, a
    refund, a reset and a reading. *)
Definition demo_history : list (clock * bucket_op) :=
  [(tick 5 "0.005", BAcquire "b" (int 4) demo_bucket (demo_mark "m"));
   (tick 6 "0.006", BAcquire "b" (int 90) demo_bucket None);
   (tick 7 "0.007", BAdmit "q" "b" "f" (int 3) demo_bucket (int 60) (demo_mark "n"));
   (tick 8 "0.008", BSettle [{| ss_key := "b"; ss_markId := "m"; ss_actual := int 9; ss_config := demo_bucket;
                               ss_maxDebt := int 4 |}]);
   (tick 9 "0.009", BRefund "b" (int 1) (int 10) (Some "f"));
   (tick 10 "0.010", BTouch "b" "n" (int 30));
   (tick 11 "0.011", BReset "b" (int 10));
   (tick 12 "0.012", BState "b" demo_bucket)].

Lemma demo_fits : Forall (step_fits demo_kind) demo_history.
Proof.
  assert (forall z, (0 <= z <= 2 ^ 52)%Z -> instant (int z)) as Hi by (intros z Hz; by exists z).
  assert (forall z, safe z -> wf_num (int z)) as Hw by apply wf_int.
  assert (wf_config demo_bucket) as Hc by (split_and!; by apply Hw).
  assert (forall id, demo_kind (claimMarkKey "b" id) = KMark "b") as Hk
    by (intros; unfold demo_kind; by rewrite !bool_decide_eq_false_2 by done).
  assert (forall id, mark_named demo_kind "b" (demo_mark id)) as Hm
    by (intros id m [= <-]; split; [apply Hk|by apply Hw]).
  assert (mark_named demo_kind "b" None) as Hm0 by by intros.
  assert (demo_kind "b" = KBucket /\ demo_kind "q" = KQueue /\ demo_kind "f" = KFreeze) as (Hb & Hq & Hf)
    by by vm_compute.
  repeat (apply Forall_cons; split; [split; [by apply Hi|split; [done|]]|]); [..|by apply Forall_nil].
  - split_and!; [done|apply Hm|by apply Hw|done].
  - split_and!; [done|apply Hm0|by apply Hw|done].
  - split_and!; [done..|apply Hm|by apply Hw|done|by apply Hw].
  - apply Forall_singleton. split; [done|]. split; [apply Hk|]. by split_and!; [apply Hw|apply Hw|].
  - split_and!; [done| |by apply Hw..]. intros k [= <-]. done.
  - apply Hk.
  - split; [done|by apply Hw].
  - done.
Qed.

(** The demonstration history on the model server. *)
Lemma redis_refines_memory_witness :
  (memory_history demo_history MemoryBackend).1
  = [Ok (PAcquired {| at_acquired := true; at_waitTime := None; at_remainingTokens := Some (int 6); at_error := None |});
     Ok (PAcquired {| at_acquired := false; at_waitTime := Some (int 16999); at_remainingTokens := Some (int 6);
                      at_error := None |});
     Ok (PAdmitted true);
     Ok (PSettled [{| sr_key := "b"; sr_settled := true; sr_applied := int 5; sr_unapplied := int 0 |}]);
     Ok PDone; Ok (PTouched true); Ok PDone; Ok (PState (int 10, int 11))] /\
  (redis_history demo_history (∅ : ModelRedis)).1 = outcome_from <$> (memory_history demo_history MemoryBackend).1.
Proof.
  split; [vm_compute; reflexivity|].
  apply (redis_refines_memory demo_kind demo_history 0 [] (int 0) (∅ : ModelRedis) MemoryBackend).
  - apply twins_fresh.
  - lia.
  - vm_compute. discriminate.
  - apply demo_fits.
  - vm_compute. reflexivity.
  - apply (bool_decide_unpack _). vm_compute. exact I.
Defined.
