(* ===== verification/RedisTyped.v ===== *)
(** * Every operation of the Redis backend keeps the types of its keys

    [keys_typed kind c]: the keys a call is given, and those it derives, have
    the types the call uses them at.  Each operation is [sound] under that. *)
From S2P Require Import Prelude JsNumber JsString Json Shared MemoryStore StoreFacts TokenBucket.
From S2P Require Import Concurrency MultiLimit Queue Freeze Backend RateLimit Cost Client Footprint.
From S2P Require Import RedisServer RedisFacts RedisBucket RedisMulti RedisQueue RedisFreeze.
From S2P Require Import RedisBackend RedisSettle RedisTypes.

Create HintDb sound.
#[export] Hint Resolve sound_HGETALL sound_HGET sound_ZRANGE sound_ZRANGE_to sound_ZRANGE_above sound_ZCARD
  sound_ZSCORE sound_SMEMBERS sound_SISMEMBER sound_GET sound_EXISTS sound_HSET sound_HDEL sound_HINCRBY
  sound_HSETNX sound_ZADD sound_ZREM sound_SADD sound_SREM sound_DEL sound_EXPIRE sound_SET sound_SETPX
  sound_script_of : sound.

(** Follow the script: a command's lemma where there is one, else its parts. *)
Ltac sound_step :=
  lazymatch goal with
  | |- sound _ _ _ (mret _) => apply sound_ret
  | |- sound _ _ _ (lua_error _) => apply sound_error; discriminate
  | |- sound _ _ _ (_ ≫= _) =>
      first [eapply sound_bind; [solve [eauto 4 with sound]|intros ? ?]
            |eapply (sound_bind _ _ any); [|intros ? _]]
  | |- sound _ _ _ (let x := _ in _) => cbv zeta
  | |- sound _ _ _ (if ?x then _ else _) => destruct x eqn:?
  | |- sound _ _ _ (match ?x with _ => _ end) => destruct x eqn:?
  | |- sound _ _ _ _ => solve [eauto 4 with sound]
  | |- True => exact I
  end.
Ltac sound_all := repeat (intros; sound_step); eauto 3.

Section operations.
Context {R : Type} `{Srv : !RedisServer R} `{!RedisShapes R} `{Lua : LuaRuntime}.
Variable kind : string -> key_type.
Variable t : clock.
Hypothesis Hnow : instant (ms t).
Local Notation now := (ms t).
Local Notation sound := (sound kind now).

(** ** Fragments *)

Lemma sound_read_bucket key m : kind key = plain -> sound any (read_bucket now key m).
Proof. unfold read_bucket. sound_all. Qed.
Lemma sound_queueEmptyGate key ok : kind key = TZset ok -> sound any (queueEmptyGate now key).
Proof. unfold queueEmptyGate. sound_all. Qed.
Lemma sound_freezeGate key : kind key = plain -> sound any (freezeGate now key).
Proof. unfold freezeGate. sound_all. Qed.
Lemma sound_writeMark clk mk ttl claimed b key :
  kind key = plain -> kind mk = plain -> sound any (lua_writeMark now clk mk ttl claimed b key).
Proof. unfold lua_writeMark. sound_all. Qed.
Local Hint Resolve sound_read_bucket sound_queueEmptyGate sound_freezeGate sound_writeMark : sound.

(** ** Token buckets *)

Lemma sound_spend key mk cost m a i ttl mttl has :
  kind key = plain -> (has = true -> kind mk = plain) -> sound any (spend t key mk cost m a i ttl mttl has).
Proof. intros Hk Hm. unfold spend. sound_all. Qed.
Local Hint Resolve sound_spend : sound.
Lemma sound_tokenBucket key mk cost m a i ttl mttl has :
  kind key = plain -> (has = true -> kind mk = plain) -> sound any (tokenBucket t key mk cost m a i ttl mttl has).
Proof. intros Hk Hm. unfold tokenBucket. sound_all. Qed.
Lemma sound_refund key fk cost m has :
  kind key = plain -> (has = true -> kind fk = plain) -> sound any (refundTokens_script t key fk cost m has).
Proof. intros Hk Hf. unfold refundTokens_script. sound_all. Qed.
Lemma sound_admit q key fk mk cost m a i ttl mttl has ok :
  kind q = TZset ok -> kind key = plain -> kind fk = plain -> (has = true -> kind mk = plain) ->
  sound any (tryAdmitImmediately_script t q key fk mk cost m a i ttl mttl has).
Proof. intros. unfold tryAdmitImmediately_script. sound_all. Qed.
Lemma sound_reset key m : kind key = plain -> sound any (resetTokenBucket_script t key m).
Proof. unfold resetTokenBucket_script. sound_all. Qed.
Lemma sound_empty key m a i ttl : kind key = plain -> sound any (emptyTokenBucket_script t key m a i ttl).
Proof. unfold emptyTokenBucket_script. sound_all. Qed.
Lemma sound_settle_one ttl e :
  kind (se_key e) = plain -> kind (se_markKey e) = plain -> sound any (settle_script_one t ttl e).
Proof. intros. unfold settle_script_one. sound_all. Qed.
Local Hint Resolve sound_tokenBucket sound_refund sound_admit sound_reset sound_empty sound_settle_one : sound.

Definition mark_typed (key : string) (mark : option ClaimMark) : Prop :=
  forall m, mark = Some m -> kind (claimMarkKey key (mark_id m)) = plain.

Lemma sound_markArgs key mark :
  mark_typed key mark -> sound (fun a : string * num * bool => a.2 = true -> kind a.1.1 = plain) (markArgs key mark).
Proof.
  intros Hm. unfold markArgs. destruct mark as [m|]; [|by apply sound_ret].
  eapply sound_bind; [apply sound_script_of|]. intros x _. apply sound_ret. intros _. by apply Hm.
Qed.
Local Hint Resolve sound_markArgs : sound.

Lemma sound_redis_acquire key cost config mark :
  kind key = plain -> mark_typed key mark -> sound any (redis_acquireTokens t key cost config mark).
Proof.
  intros. unfold redis_acquireTokens. sound_step. destruct a as [[mk mt] has]. simpl in *. sound_all.
Qed.
Lemma sound_redis_admit q key fk cost config ttl mark ok :
  kind q = TZset ok -> kind key = plain -> kind fk = plain -> mark_typed key mark ->
  sound any (redis_tryAdmitImmediately t q key fk cost config ttl mark).
Proof.
  intros. unfold redis_tryAdmitImmediately. do 2 sound_step. destruct a0 as [[mk mt] has]. simpl in *. sound_all.
Qed.
Lemma sound_redis_bucketState key config : kind key = plain -> sound any (redis_getTokenBucketState t key config).
Proof. intros. unfold redis_getTokenBucketState. sound_all. Qed.

(** Every position of an encoded settlement is that of a key of its type. *)
Definition settle_typed (spec : SettleSpec) : Prop :=
  kind (ss_key spec) = plain /\ kind (claimMarkKey (ss_key spec) (ss_markId spec)) = plain.

Lemma KEYS_at_prefix key keys i keys' l : index_of key keys = (i, keys') -> KEYS_at (keys' ++ l) i = key.
Proof.
  intros (_ & Hi & _)%index_of_spec. unfold KEYS_at. by rewrite (lookup_app_l_Some _ _ _ _ Hi).
Qed.
Lemma index_of_prefix key keys i keys' : index_of key keys = (i, keys') -> exists l, keys' = keys ++ l.
Proof. by intros (? & _)%index_of_spec. Qed.

Lemma settles_typed specs : Forall settle_typed specs -> forall keys entries keys',
  encode_settles specs keys = (entries, keys') ->
  (exists l, keys' = keys ++ l) /\
  forall l, Forall (fun e => kind (se_key e) = plain /\ kind (se_markKey e) = plain)
              (entry_of (keys' ++ l) <$> entries).
Proof.
  induction 1 as [|spec specs [Hk Hm] _ IH]; intros keys entries keys'; cbn [encode_settles].
  { intros [= <- <-]. split; [exists []; by rewrite app_nil_r|constructor]. }
  destruct (index_of (ss_key spec) keys) as [k keys1] eqn:E1.
  destruct (index_of (claimMarkKey _ _) keys1) as [mk keys2] eqn:E2.
  destruct (encode_settles specs keys2) as [rest keys3] eqn:E3. intros [= <- <-].
  destruct (IH _ _ _ E3) as ((l3 & ->) & Hall). destruct (index_of_prefix _ _ _ _ E2) as (l2 & E2').
  destruct (index_of_prefix _ _ _ _ E1) as (l1 & E1'). split.
  { exists (l1 ++ l2 ++ l3). by rewrite E2', E1', <- !(assoc_L (++)). }
  intros l. constructor; [|apply Hall]. cbn [entry_of se_key se_markKey].
  rewrite <- (assoc_L (++)), (KEYS_at_prefix _ _ _ _ _ E2). split; [|done].
  by rewrite E2', <- (assoc_L (++)), (KEYS_at_prefix _ _ _ _ _ E1).
Qed.

Lemma sound_redis_settle specs : Forall settle_typed specs -> sound any (redis_settleTokens t specs).
Proof.
  intros Hs. unfold redis_settleTokens. destruct specs as [|spec specs']; [by apply sound_ret|].
  set (specs := spec :: specs') in *. destruct (encode_settles specs []) as [entries keys] eqn:E.
  destruct (settles_typed _ Hs _ _ _ E) as [_ Hall]. specialize (Hall []). rewrite app_nil_r in Hall.
  eapply sound_bind; [eapply sound_collect; [exact Hall|]|by intros; apply sound_ret].
  intros e [? ?]. by apply sound_settle_one.
Qed.
Lemma sound_redis_touchMark key id ttl : sound any (redis_touchClaimMark t key id ttl).
Proof. unfold redis_touchClaimMark. sound_all. Qed.
Lemma sound_redis_refund key cost m fk :
  kind key = plain -> (forall f, fk = Some f -> kind f = plain) -> sound any (redis_refundTokens t key cost m fk).
Proof.
  intros Hk Hf. unfold redis_refundTokens. apply sound_refund; [done|].
  destruct fk as [f|]; [|done]. intros ->. by apply Hf.
Qed.

(** ** Slots *)

(** A ledger's sorted set takes any id, and its costs are a hash. *)
Definition slots_typed (key : string) : Prop :=
  (exists ok, kind key = TZset ok /\ forall id, ok id) /\ kind (key +:+ ":costs") = plain.

Lemma sound_slotAccounting key id ttl : slots_typed key -> sound any (slotAccounting now key id ttl).
Proof.
  intros ((ok & Hk & Hok) & Hc). unfold slotAccounting. sound_step. sound_step.
  - sound_step; [|by apply sound_ret]. eapply sound_bind; [by eapply sound_ZREM|]. intros _ _.
    eapply (sound_foreach _ _ any); [by apply Forall_true|]. intros. by apply sound_HDEL.
  - sound_step. eapply (sound_fold _ _ any any); [by apply Forall_true| |done]. intros. sound_all.
Qed.
Lemma sound_take_slot key id cost ttl : slots_typed key -> sound any (take_slot t key id cost ttl).
Proof. intros ((ok & Hk & Hok) & Hc). unfold take_slot. sound_all. Qed.
Local Hint Resolve sound_slotAccounting sound_take_slot : sound.

Lemma sound_claim_slot key id c m ttl kttl queued :
  slots_typed key -> sound any queued -> sound any (claim_slot_script t key id c m ttl kttl queued).
Proof. intros Hs Hq. unfold claim_slot_script. sound_all. Qed.
Lemma sound_acquire_slot key c m id ttl kttl :
  slots_typed key -> sound any (acquireConcurrency_script t key c m id ttl kttl).
Proof.
  intros. unfold acquireConcurrency_script. sound_all. apply sound_claim_slot; [done|]. by apply sound_ret.
Qed.
Lemma sound_status key okf f : kind key = THash okf -> sound any (call_HGET now key f).
Proof. intros. eapply sound_weaken; [by eapply sound_field|done]. Qed.
Lemma sound_acquire_queued key mk okf c m id ttl kttl :
  slots_typed key -> kind mk = THash okf -> sound any (acquireQueuedConcurrency_script t key mk c m id ttl kttl).
Proof.
  intros ? Hmk. pose proof (sound_status _ _ "status" Hmk). unfold acquireQueuedConcurrency_script. sound_all.
  apply sound_claim_slot; [done|]. sound_all.
Qed.
Lemma sound_release_slot key id : slots_typed key -> sound any (releaseConcurrency_script t key id).
Proof. intros ((ok & Hk & Hok) & Hc). unfold releaseConcurrency_script. sound_all. Qed.
Lemma sound_touch_slot key id ttl : slots_typed key -> sound any (touchConcurrency_script t key id ttl).
Proof. intros ((ok & Hk & Hok) & Hc). unfold touchConcurrency_script. sound_all. Qed.
Lemma sound_slot_state key ttl : slots_typed key -> sound any (getConcurrencyState_script t key ttl).
Proof.
  intros ((ok & Hk & Hok) & Hc). unfold getConcurrencyState_script, sum_costs. sound_all.
  eapply (sound_fold _ _ any any); [by apply Forall_true| |done]. intros. sound_all.
Qed.
Lemma sound_admit_slot q key fk c m id ttl kttl ok :
  kind q = TZset ok -> slots_typed key -> kind fk = plain ->
  sound any (tryAdmitConcurrency_script t q key fk c m id ttl kttl).
Proof. intros. unfold tryAdmitConcurrency_script. sound_all. Qed.
Local Hint Resolve sound_acquire_slot sound_acquire_queued sound_release_slot sound_touch_slot sound_slot_state
  sound_admit_slot : sound.

Lemma sound_redis_acquireSlot key c id config :
  slots_typed key -> sound any (redis_acquireConcurrency t key c id config).
Proof. intros. unfold redis_acquireConcurrency. sound_all. Qed.
Lemma sound_redis_acquireQueued key mk okf c id config :
  slots_typed key -> kind mk = THash okf -> sound any (redis_acquireQueuedConcurrency t key mk c id config).
Proof. intros. unfold redis_acquireQueuedConcurrency. sound_all. Qed.
Lemma sound_redis_admitSlot q key fk c id config ttl ok :
  kind q = TZset ok -> slots_typed key -> kind fk = plain ->
  sound any (redis_tryAdmitConcurrency t q key fk c id config ttl).
Proof. intros. unfold redis_tryAdmitConcurrency. sound_all. Qed.
Lemma sound_redis_touchSlot key id ttl : slots_typed key -> sound any (redis_touchConcurrency t key id ttl).
Proof. intros. unfold redis_touchConcurrency. sound_all. Qed.
Lemma sound_redis_slotState key ttl : slots_typed key -> sound any (redis_getConcurrencyState t key ttl).
Proof. intros. unfold redis_getConcurrencyState. sound_all. Qed.

(** ** Several budgets *)

Definition spec_freeze (s : MultiLimitSpec) : option string :=
  match s with TokenBucketSpec fk _ _ _ _ | ConcurrencySpec fk _ _ _ _ => fk end.

Definition spec_typed (s : MultiLimitSpec) : Prop :=
  (forall f, spec_freeze s = Some f -> kind f = plain) /\
  match s with
  | TokenBucketSpec _ _ key _ mark => kind key = plain /\ mark_typed key mark
  | ConcurrencySpec _ _ key _ _ => slots_typed key
  end.

(** What is sent of a specification, its positions looked up. *)
Definition payload_typed (keys : list string) (p : SpecPayload) : Prop :=
  (forall i, fk_ p = Some i -> kind (KEYS_at keys i) = plain) /\
  match kind_ p with
  | inl b => kind (KEYS_at keys (k_ p)) = plain /\
             forall mk mt, bp_mark b = Some (mk, mt) -> kind (KEYS_at keys mk) = plain
  | inr _ => slots_typed (KEYS_at keys (k_ p))
  end.

Definition planned_typed (keys : list string) (p : redis_plan) : Prop :=
  Forall (fun b => kind (rb_key b) = plain /\
                   forall mk mt, rb_mark b = Some (mk, mt) -> kind (KEYS_at keys mk) = plain) (rp_buckets p)
  /\ Forall (fun x => slots_typed (ps_key x)) (rp_slots p).

Lemma sound_plan_spec keys ttl p spec :
  planned_typed keys p -> payload_typed keys spec -> sound (planned_typed keys) (plan_spec t keys ttl p spec).
Proof.
  intros [Hb Hs] [_ Hp]. unfold plan_spec. destruct (kind_ spec) as [b|b].
  - destruct Hp as [Hk Hm]. unfold plan_bucket. cbv zeta.
    destruct (bucket_refusal _ _ _ _); [by apply sound_ret; repeat constructor|].
    repeat (match goal with |- RedisTypes.sound _ _ _ (match ?x with _ => _ end) => destruct x; [|by apply sound_ret] end).
    sound_step.
    assert (forall q, rb_key q = KEYS_at keys (k_ spec) -> rb_mark q = bp_mark b ->
              planned_typed keys (rp_add_bucket q p)) as Hadd.
    { intros q Hq1 Hq2. split; [|done]. simpl. apply Forall_app. split; [done|]. repeat constructor.
      - by rewrite Hq1.
      - by rewrite Hq2. }
    sound_step; [by apply sound_ret, Hadd|]. apply sound_ret. by apply Hadd.
  - unfold plan_slot. cbv zeta.
    destruct (slot_refusal _ _ _); [by apply sound_ret; repeat constructor|].
    repeat (match goal with |- RedisTypes.sound _ _ _ (match ?x with _ => _ end) => destruct x; [|by apply sound_ret] end).
    sound_step. sound_step; [by apply sound_ret|]. apply sound_ret. split; [done|]. simpl. apply Forall_app.
    split; [done|]. by apply Forall_singleton.
Qed.

Lemma sound_plan keys ttl specs : Forall (payload_typed keys) specs -> forall p,
  planned_typed keys p -> sound (planned_typed keys) (planMultiLimit_script t keys ttl p specs).
Proof.
  induction 1 as [|spec specs Hsp Hs IH]; intros p Hp; cbn [planMultiLimit_script]; [by apply sound_ret|].
  eapply sound_bind; [by apply sound_plan_spec|]. intros p' Hp'. destruct (rp_error p'); [by apply sound_ret|].
  by apply IH.
Qed.
Lemma planned_empty keys : planned_typed keys rp_empty.
Proof. split; constructor. Qed.

Lemma sound_commit keys p ttl : planned_typed keys p -> sound any (commitMultiLimit t keys p ttl).
Proof.
  intros [Hb Hs]. unfold commitMultiLimit. eapply (sound_bind _ _ any).
  - eapply sound_foreach; [exact Hb|]. intros b [Hk Hm]. simpl in *. do 2 sound_step.
    destruct (rb_mark b) as [[mk mt]|] eqn:E; [|by apply sound_ret].
    apply sound_writeMark; [done|]. by eapply Hm.
  - intros _ _. eapply sound_foreach; [exact Hs|]. intros x Hx. by apply sound_take_slot.
Qed.
Lemma sound_persist keys p : planned_typed keys p -> sound any (persistRefills_script t p).
Proof.
  intros [Hb Hs]. eapply sound_foreach; [exact Hb|]. intros b [Hk _]. simpl in *. sound_all.
Qed.
Local Hint Resolve sound_commit sound_persist sound_plan planned_empty : sound.

Lemma sound_acquire_several keys specs ttl :
  Forall (payload_typed keys) specs -> sound any (acquireMultiLimit_script t keys specs ttl).
Proof.
  intros Hs. unfold acquireMultiLimit_script.
  eapply sound_bind; [apply sound_plan; [exact Hs|apply planned_empty]|]. intros p Hp. sound_all.
Qed.

Lemma sound_freezes keys is_ :
  Forall (fun i => kind (KEYS_at keys i) = plain) is_ -> sound any (freezes_let_through t keys is_).
Proof.
  induction 1; cbn [freezes_let_through]; [by apply sound_ret|]. sound_all.
Qed.
Lemma sound_admit_several keys fks specs ttl ok :
  kind (KEYS_at keys 1) = TZset ok -> Forall (fun i => kind (KEYS_at keys i) = plain) fks ->
  Forall (payload_typed keys) specs -> sound any (tryAdmitMultiLimit_script t keys fks specs ttl).
Proof.
  intros Hq Hf Hs. unfold tryAdmitMultiLimit_script. do 2 sound_step; [by apply sound_ret|].
  eapply sound_bind; [by apply sound_freezes|]. intros through _. sound_step; [by apply sound_ret|].
  eapply sound_bind; [apply sound_plan; [exact Hs|apply planned_empty]|]. intros p Hp. sound_all.
Qed.

Lemma sound_release_several keys specs :
  Forall (payload_typed keys) specs -> sound any (releaseMultiLimit_script t keys specs).
Proof.
  intros Hs. eapply sound_foreach; [exact Hs|]. intros p [Hf Hp]. unfold release_spec.
  destruct (kind_ p) as [b|b].
  - destruct Hp as [Hk Hm]. destruct (unwire (c_ p)); [|by apply sound_ret]. sound_step; [|by apply sound_ret].
    eapply (sound_bind _ _ any).
    + destruct (fk_ p) as [fk|] eqn:E; [|by apply sound_ret]. specialize (Hf _ eq_refl). sound_all.
    + intros frozen _. sound_all.
  - destruct Hp as ((ok & Hk & Hok) & Hc). cbv zeta. sound_all.
Qed.
(** Positions stay what they were when more keys follow. *)
Lemma index_of_grows key keys i keys' :
  index_of key keys = (i, keys') -> exists l, keys' = keys ++ l /\ forall l', KEYS_at (keys ++ l ++ l') i = key.
Proof.
  intros E. destruct (index_of_prefix _ _ _ _ E) as (l & ->). exists l. split; [done|]. intros l'.
  rewrite (assoc_L (++)). by eapply KEYS_at_prefix.
Qed.

Lemma encode_spec_typed inclF inclM spec keys p keys' :
  spec_typed spec -> encode_spec inclF inclM spec keys = Ok (p, keys') ->
  exists l, keys' = keys ++ l /\ forall l', payload_typed (keys ++ l ++ l') p.
Proof.
  intros [Hf Hs] E.
  assert (forall fk ks i ks', fk = spec_freeze spec ->
    match fk with
    | Some f => if inclF && negb (bool_decide (f = "")) then let '(i, ks) := index_of f ks in (Some i, ks)
                else (None, ks)
    | None => (None, ks)
    end = (i, ks') ->
    exists l, ks' = ks ++ l /\ forall l' j, i = Some j -> kind (KEYS_at (ks ++ l ++ l') j) = plain) as Hfk.
  { intros fk ks i ks' Ef Ei. subst fk. destruct (spec_freeze spec) as [f|]; [|].
    - destruct (inclF && negb (bool_decide (f = ""))).
      + destruct (index_of f ks) as [j ks1] eqn:Ej. injection Ei as <- <-.
        destruct (index_of_grows _ _ _ _ Ej) as (l & -> & Hl). exists l. split; [done|].
        intros l' ? [= <-]. rewrite Hl. by apply Hf.
      + injection Ei as <- <-. exists []. by rewrite app_nil_r.
    - injection Ei as <- <-. exists []. by rewrite app_nil_r. }
  destruct spec as [fk cost key config mark|fk cost key config slotId]; cbn [encode_spec] in E.
  - destruct (index_of key keys) as [k keys1] eqn:E1.
    destruct (match fk with Some _ => _ | None => _ end) as [fki keys2] eqn:E2 in E.
    destruct (index_of_grows _ _ _ _ E1) as (l1 & -> & H1).
    destruct (Hfk _ _ _ _ eq_refl E2) as (l2 & -> & H2). destruct Hs as [Hk Hm].
    destruct (if inclM then mark else None) as [m|] eqn:Em.
    + destruct (index_of (claimMarkKey key (mark_id m)) _) as [mk keys3] eqn:E3.
      destruct (normalizeStateTtlSeconds (mark_ttlSeconds m)) as [mt|]; [|done]. injection E as <- <-.
      destruct (index_of_grows _ _ _ _ E3) as (l3 & -> & H3). exists (l1 ++ l2 ++ l3).
      split; [by rewrite <- !(assoc_L (++))|]. intros l'. rewrite <- !(assoc_L (++)). split; simpl.
      { intros i Hi. specialize (H2 (l3 ++ l') i Hi). by rewrite <- !(assoc_L (++)) in H2. }
      split; [by rewrite H1|]. intros mk' mt' [= <- <-]. specialize (H3 l'). rewrite <- !(assoc_L (++)) in H3.
      rewrite H3. apply Hm. by destruct inclM.
    + injection E as <- <-. exists (l1 ++ l2). split; [by rewrite <- !(assoc_L (++))|].
      intros l'. rewrite <- !(assoc_L (++)). split; simpl.
      { intros i Hi. specialize (H2 l' i Hi). by rewrite <- !(assoc_L (++)) in H2. }
      split; [by rewrite H1|done].
  - destruct (index_of key keys) as [k keys1] eqn:E1.
    destruct (match fk with Some _ => _ | None => _ end) as [fki keys2] eqn:E2 in E.
    destruct (index_of_grows _ _ _ _ E1) as (l1 & -> & H1).
    destruct (Hfk _ _ _ _ eq_refl E2) as (l2 & -> & H2). injection E as <- <-.
    exists (l1 ++ l2). split; [by rewrite <- !(assoc_L (++))|].
    intros l'. rewrite <- !(assoc_L (++)). split; simpl.
    { intros i Hi. specialize (H2 l' i Hi). by rewrite <- !(assoc_L (++)) in H2. }
    by rewrite H1.
Qed.

Lemma encodeSpecs_typed inclF inclM specs : Forall spec_typed specs -> forall keys ps keys',
  encodeSpecs inclF inclM specs keys = Ok (ps, keys') ->
  exists l, keys' = keys ++ l /\ forall l', Forall (payload_typed (keys ++ l ++ l')) ps.
Proof.
  induction 1 as [|spec specs Hsp _ IH]; intros keys ps keys'; cbn [encodeSpecs].
  { intros [= <- <-]. exists []. by rewrite app_nil_r. }
  destruct (encode_spec inclF inclM spec keys) as [[p keys1]|] eqn:E1; [|done]. cbn [rbind].
  destruct (encodeSpecs inclF inclM specs keys1) as [[ps' keys2]|] eqn:E2; [|done]. intros [= <- <-].
  destruct (encode_spec_typed _ _ _ _ _ _ Hsp E1) as (l1 & -> & H1).
  destruct (IH _ _ _ E2) as (l2 & -> & H2). exists (l1 ++ l2). split; [by rewrite (assoc_L (++))|].
  intros l'. constructor.
  - rewrite <- (assoc_L (++)). apply H1.
  - specialize (H2 l'). by rewrite <- !(assoc_L (++)) in H2 |- *.
Qed.

(** Encoding only fails as JavaScript does. *)
Lemma sound_encode {A} inclF inclM specs keys (Q : A -> Prop) (f : list SpecPayload * list string -> Script R A) :
  Forall spec_typed specs ->
  (forall ps l, Forall (payload_typed (keys ++ l)) ps -> sound Q (f (ps, keys ++ l))) ->
  sound Q (script_of (encodeSpecs inclF inclM specs keys) ≫= f).
Proof.
  intros Hs Hf. destruct (encodeSpecs inclF inclM specs keys) as [[ps keys']|e] eqn:E.
  - destruct (encodeSpecs_typed _ _ _ Hs _ _ _ E) as (l & -> & Hall). specialize (Hall []).
    rewrite app_nil_r in Hall. eapply (sound_bind _ _ (fun a => a = (ps, keys ++ l))); [by intros s ?|].
    intros ? ->. by apply Hf.
  - by intros s ?.
Qed.

Lemma sound_redis_several specs : Forall spec_typed specs -> sound any (redis_acquireMultiLimit t specs).
Proof.
  intros Hs. unfold redis_acquireMultiLimit. apply sound_encode; [done|]. intros ps l Hp.
  eapply sound_bind; [by apply sound_acquire_several|]. by intros; apply sound_ret.
Qed.
Lemma sound_redis_release specs : Forall spec_typed specs -> sound any (redis_releaseMultiLimit t specs).
Proof.
  intros Hs. unfold redis_releaseMultiLimit. destruct specs as [|spec specs']; [by apply sound_ret|].
  apply sound_encode; [done|]. intros ps l Hp. by apply sound_release_several.
Qed.

Lemma index_all_typed fks : Forall (fun f => kind f = plain) fks -> forall keys is_ keys',
  index_all fks keys = (is_, keys') ->
  exists l, keys' = keys ++ l /\ forall l', Forall (fun i => kind (KEYS_at (keys ++ l ++ l') i) = plain) is_.
Proof.
  induction 1 as [|f fks Hf _ IH]; intros keys is_ keys'; cbn [index_all].
  { intros [= <- <-]. exists []. by rewrite app_nil_r. }
  destruct (index_of f keys) as [i keys1] eqn:E1. destruct (index_all fks keys1) as [is2 keys2] eqn:E2.
  intros [= <- <-]. destruct (index_of_grows _ _ _ _ E1) as (l1 & -> & H1).
  destruct (IH _ _ _ E2) as (l2 & -> & H2). exists (l1 ++ l2). split; [by rewrite (assoc_L (++))|].
  intros l'. constructor.
  - by rewrite <- (assoc_L (++)), H1.
  - specialize (H2 l'). by rewrite <- !(assoc_L (++)) in H2 |- *.
Qed.

Lemma sound_redis_admitSeveral q fks specs ttl ok :
  kind q = TZset ok -> Forall (fun f => kind f = plain) fks -> Forall spec_typed specs ->
  sound any (redis_tryAdmitMultiLimit t q fks specs ttl).
Proof.
  intros Hq Hf Hs. unfold redis_tryAdmitMultiLimit. sound_step. destruct (index_all fks [q]) as [is_ keys] eqn:E.
  destruct (index_all_typed _ Hf _ _ _ E) as (l & -> & Hi). apply sound_encode; [done|]. intros ps l' Hp.
  rewrite <- (assoc_L (++)) in *. eapply sound_admit_several; [|apply Hi|done]. exact Hq.
Qed.
(** ** The queue *)

(** An entry's [requestId] is a member its queue may have. *)
Definition entry_typed (ok : string -> Prop) (key : string) : Prop :=
  kind key = THash (fun f v => f = "requestId" -> ok v).
Definition queue_typed (q p : string) (ok : string -> Prop) : Prop :=
  kind q = TZset ok /\ forall id, ok id -> entry_typed ok (metadata_key p id).

Lemma sound_entry_get key ok : entry_typed ok key -> sound any (call_HGETALL now key).
Proof. intros Hk. eapply sound_weaken; [by eapply sound_fields|done]. Qed.
Lemma sound_entry_field key f ok : entry_typed ok key -> sound any (call_HGET now key f).
Proof. intros Hk. eapply sound_weaken; [by eapply sound_field|done]. Qed.
Lemma sound_entry_id key ok :
  entry_typed ok key -> sound (fun v => forall x, v = Some x -> ok x) (call_HGET now key "requestId").
Proof. intros Hk. eapply sound_weaken; [by eapply sound_field|]. simpl. eauto. Qed.
Lemma sound_entry_put key kvs ok :
  entry_typed ok key -> Forall (fun kv => kv.1 <> "requestId") kvs -> sound any (call_HSET now key kvs).
Proof. intros Hk Hf. eapply sound_put; [done|exact Hk|]. eapply Forall_impl; [exact Hf|]. by intros ? ? ?. Qed.
Lemma sound_entry_drop key f ok : entry_typed ok key -> sound any (call_HDEL now key f).
Proof. intros Hk. by eapply sound_drop. Qed.
Local Hint Resolve sound_entry_get sound_entry_field sound_entry_drop : sound.
Local Hint Extern 1 (RedisTypes.sound _ _ _ (call_HSET _ _ _)) =>
  (eapply sound_entry_put; [eassumption|by repeat constructor]) : sound.

Lemma sound_float n : sound any (float_arg n : Script R num).
Proof. unfold float_arg. destruct n as [n|]; [destruct (isNaN n)|]; sound_all. Qed.
Lemma sound_integer n : sound any (integer_arg n : Script R num).
Proof. unfold integer_arg. destruct n; sound_all. Qed.
Local Hint Resolve sound_float sound_integer : sound.

Lemma sound_redis_add q p request ttl ok :
  queue_typed q p ok -> ok (q_requestId request) -> sound any (redis_addRequest t q p request ttl).
Proof.
  intros [Hq Hp] Hid. specialize (Hp _ Hid). unfold redis_addRequest, addRequest_script.
  do 3 sound_step. sound_step; [by apply sound_ret|]. sound_step. sound_step; [by apply sound_ret|].
  sound_step. eapply sound_bind; [by eapply sound_ZADD|]. intros _ _.
  eapply sound_bind; [|by sound_all]. eapply sound_put; [done|exact Hp|].
  unfold encodeRequestFields. destruct (q_settles request); repeat constructor; done.
Qed.
Lemma sound_redis_length q ok : kind q = TZset ok -> sound any (redis_getQueueLength t q).
Proof. apply sound_ZCARD. Qed.

Lemma sound_claim_entry key status ok : entry_typed ok key -> sound any (claim_entry t key status).
Proof. intros. unfold claim_entry. sound_all. Qed.
Local Hint Resolve sound_claim_entry : sound.

Lemma sound_next_of ids p gs rs ok :
  (forall id, ok id -> entry_typed ok (metadata_key p id)) -> Forall ok ids -> sound any (next_of t ids p gs rs).
Proof.
  intros Hp. induction 1 as [|id ids Hid _ IH]; cbn [next_of]; [by apply sound_ret|].
  specialize (Hp _ Hid). sound_all.
Qed.
Lemma sound_redis_next q p gs rs ok : queue_typed q p ok -> sound any (redis_getNextRequest t q p gs rs).
Proof.
  intros [Hq Hp]. unfold redis_getNextRequest, getNextRequest_script. eapply (sound_bind _ _ any).
  - eapply sound_bind; [by eapply sound_ZRANGE|]. intros ids Hids. by eapply sound_next_of.
  - intros. sound_all.
Qed.
Lemma sound_redis_confirm p id at_ ok :
  entry_typed ok (metadata_key p id) -> sound any (redis_confirmRequest t p id at_).
Proof. intros. unfold redis_confirmRequest, confirmRequest_script. sound_all. Qed.
Lemma sound_redis_get p id ok : entry_typed ok (metadata_key p id) -> sound any (redis_getRequest t p id).
Proof. intros. unfold redis_getRequest. sound_all. Qed.

Lemma sound_set_some key f v ok :
  entry_typed ok key -> f <> "requestId" -> sound any (set_some t key f v).
Proof.
  intros. unfold set_some. destruct v; [|by apply sound_ret]. eapply sound_entry_put; [done|]. by repeat constructor.
Qed.
Lemma sound_redis_update q p id u ok :
  queue_typed q p ok -> ok id -> sound any (redis_updateRequest t q p id u).
Proof.
  intros [Hq Hp] Hid. specialize (Hp _ Hid). unfold redis_updateRequest. sound_step; [by apply sound_ret|].
  eapply (sound_bind _ _ any); [|by intros; apply sound_ret]. unfold updateRequest_script.
  sound_step. sound_step; [by apply sound_ret|]. cbv zeta.
  eapply (sound_bind _ _ (fun v => forall x, v = Some x -> ok x)).
  { sound_step; [by eapply sound_entry_id|]. by apply sound_ret. }
  intros member Hm. sound_step; [by apply sound_ret|].
  eapply (sound_bind _ _ any); [destruct (u_status u); sound_all|]. intros _ _.
  do 3 (eapply sound_bind; [by eapply sound_set_some|intros _ _]).
  destruct member as [m|]; [|by apply sound_ret]. specialize (Hm _ eq_refl).
  do 3 sound_step. eapply sound_bind; [by eapply sound_ZADD|]. intros. by apply sound_ret.
Qed.
Lemma sound_redis_remove q p id ttl ok :
  queue_typed q p ok -> ok id -> kind (tombstoneKey p id) = TString ->
  sound any (redis_removeRequest t q p id ttl).
Proof.
  intros [Hq Hp] Hid Ht. specialize (Hp _ Hid). unfold redis_removeRequest, removeRequest_script. sound_all.
Qed.

Lemma sound_redis_stats q p ok : queue_typed q p ok -> sound any (redis_getQueueStats t q p).
Proof.
  intros [Hq Hp]. unfold redis_getQueueStats, getQueueStats_script. eapply (sound_bind _ _ any).
  - sound_step. eapply (sound_bind _ _ any); [|by intros; apply sound_ret].
    eapply (sound_fold _ _ ok any); [done| |done]. intros s id _ Hid. specialize (Hp _ Hid).
    unfold lua_stats_step. sound_all.
  - intros. sound_all.
Qed.
Lemma sound_redis_all q p ok : queue_typed q p ok -> sound any (redis_getAllRequests t q p).
Proof.
  intros [Hq Hp]. unfold redis_getAllRequests, getAllRequests_script. eapply (sound_bind _ _ any).
  - sound_step. eapply (sound_fold _ _ ok any); [done| |done]. intros s id _ Hid. specialize (Hp _ Hid). sound_all.
  - intros. sound_all.
Qed.
Lemma sound_redis_cleanup q p alive me ok :
  queue_typed q p ok -> sound any (redis_cleanupOrphanedRequests t q p alive me).
Proof.
  intros [Hq Hp]. unfold redis_cleanupOrphanedRequests, cleanupOrphanedRequests_script.
  sound_step; [by apply sound_ret|]. sound_step. eapply (sound_fold _ _ ok any); [done| |done].
  intros n id _ Hid. specialize (Hp _ Hid). unfold lua_cleanup_step. sound_all.
Qed.
(** ** Freezes and instances *)

Lemma sound_writeFreeze key until count mode e :
  kind key = plain -> sound any (redis_writeFreezeState t key until count mode e).
Proof.
  intros. unfold redis_writeFreezeState, writeFreezeState_script. eapply (sound_bind _ _ any).
  - cbv zeta. eapply (sound_bind _ _ any); [destruct mode; sound_all|]. sound_all.
  - sound_all.
Qed.
Local Hint Resolve sound_writeFreeze : sound.
Lemma sound_setFreeze key until count e :
  kind key = plain -> sound any (redis_setFreezeState t key until count e).
Proof. intros. unfold redis_setFreezeState. sound_all. Qed.
Lemma sound_armFreeze key until count e :
  kind key = plain -> sound any (redis_armFreeze t key until count e).
Proof. intros. by apply sound_writeFreeze. Qed.
Lemma sound_readFreeze key : kind key = plain -> sound any (redis_readFreezeState t key).
Proof. intros. unfold redis_readFreezeState, readFreezeState_script. eapply (sound_bind _ _ any); sound_all. Qed.
Local Hint Resolve sound_readFreeze : sound.
Lemma sound_getFreeze key : kind key = plain -> sound any (redis_getFreezeState t key).
Proof. intros. unfold redis_getFreezeState. sound_all. Qed.
Lemma sound_isFrozen key : kind key = plain -> sound any (redis_isFrozen t key).
Proof. intros. unfold redis_isFrozen. sound_all. Qed.
Lemma sound_canProcess key : kind key = plain -> sound any (redis_canProcessRequest t key).
Proof. intros. unfold redis_canProcessRequest. sound_all. Qed.
Lemma sound_noLimit q fk ok :
  kind q = TZset ok -> kind fk = plain -> sound any (redis_tryAdmitNoLimit t q fk).
Proof. intros. unfold redis_tryAdmitNoLimit, tryAdmitNoLimit_script. sound_all. Qed.

Lemma sound_thaw key success id ok :
  kind key = plain -> kind (completions_key key) = TSet ok -> (forall x, ok x) ->
  sound any (redis_updateThawProgress t key success id).
Proof.
  intros Hk Hc Hok. unfold redis_updateThawProgress, updateThawProgress_script. eapply (sound_bind _ _ any); [|sound_all].
  cbv zeta. eapply (sound_bind _ _ any); [sound_all|]. intros seen _. sound_step; [by sound_all|].
  eapply (sound_bind _ _ any); [sound_all|]. sound_all.
Qed.

Lemma sound_any_probe ids p ex g any_ ok :
  (forall id, ok id -> entry_typed ok (metadata_key p id)) -> Forall ok ids ->
  sound any (any_probe t ids p ex g any_).
Proof.
  intros Hp. induction 1 as [|id ids Hid _ IH]; cbn [any_probe]; [by apply sound_ret|]. specialize (Hp _ Hid). sound_all.
Qed.
Lemma sound_hasThaw q p g any_ ok :
  queue_typed q p ok -> sound any (redis_hasThawRequestInProgress t q p g any_).
Proof.
  intros [Hq Hp]. unfold redis_hasThawRequestInProgress, hasThawRequestInProgress_script.
  eapply sound_bind; [by eapply sound_ZRANGE|]. intros. by eapply sound_any_probe.
Qed.
Lemma sound_startThaw fg q p id g any_ ok okg :
  queue_typed q p ok -> ok id -> kind fg = TSet okg -> (g <> "" -> okg g) ->
  sound any (redis_tryStartThawRequest t fg q p id g any_).
Proof.
  intros [Hq Hp] Hid Hfg Hg. pose proof (Hp _ Hid). unfold redis_tryStartThawRequest, tryStartThawRequest_script.
  eapply (sound_bind _ _ any).
  { case_bool_decide as Eg; [by apply sound_ret|]. specialize (Hg Eg). sound_all. }
  intros _ _. eapply sound_bind; [by eapply sound_ZRANGE|]. intros ids Hids.
  eapply sound_bind; [by eapply sound_any_probe|]. intros competing _. sound_all.
Qed.
Lemma sound_staleGrants kp fg q p prefix ok okg :
  queue_typed q p ok -> kind fg = TSet okg ->
  (forall g, okg g -> kind ((kp +:+ prefix) +:+ g +:+ ":freezeState") = plain) ->
  sound any (redis_cleanupStaleFrozenGrants t kp fg q p prefix).
Proof.
  intros [Hq Hp] Hfg Hg. unfold redis_cleanupStaleFrozenGrants, cleanupStaleFrozenGrants_script.
  eapply sound_bind; [by eapply sound_SMEMBERS|]. intros grants Hgr.
  eapply sound_bind; [by eapply sound_ZRANGE|]. intros ids Hids. eapply (sound_bind _ _ any).
  - eapply (sound_fold _ _ ok any); [done| |done]. intros l id _ Hid. specialize (Hp _ Hid).
    unfold lua_probing_step. sound_all.
  - intros busy _. eapply (sound_fold _ _ okg any); [done| |done]. intros n g _ Hog. specialize (Hg _ Hog).
    unfold lua_stale_step. sound_all.
Qed.
Lemma sound_instances kp set prefix me ok :
  kind set = TSet ok -> (forall id, ok id -> kind ((kp +:+ prefix) +:+ id) = TString) ->
  sound any (redis_getInstances t kp set prefix me).
Proof.
  intros Hs Hi. unfold redis_getInstances, getInstances_script.
  eapply sound_bind; [by eapply sound_SMEMBERS|]. intros ids Hids. eapply (sound_bind _ _ any).
  - eapply (sound_fold _ _ ok any); [done| |done]. intros [found stale] id _ Hid. specialize (Hi _ Hid).
    unfold instance_step. sound_all.
  - intros [found stale] _. eapply (sound_bind _ _ any); [|sound_all].
    eapply (sound_foreach _ _ any); [by apply Forall_true|]. intros. by eapply sound_SREM.
Qed.

(** ** The store *)

Lemma sound_redis_get_ key : kind key = TString -> sound any (redis_get t key).
Proof. apply sound_GET. Qed.
Lemma sound_redis_set key v ttl : kind key = TString -> sound any (redis_set t key v ttl).
Proof. intros. unfold redis_set. sound_all. Qed.
Lemma sound_redis_del keys : sound any (redis_del t keys).
Proof. eapply (sound_foreach _ _ any); [by apply Forall_true|]. intros. by apply sound_DEL. Qed.
Lemma sound_acquireLock key token ttl : kind key = TString -> sound any (redis_acquireLock t key token ttl).
Proof. intros. unfold redis_acquireLock. sound_all. Qed.
Lemma sound_releaseLock key token : kind key = TString -> sound any (redis_releaseLock t key token).
Proof. intros. unfold redis_releaseLock. sound_all. Qed.
End operations.

(** ** Pipelines *)

(** A script over any state that has an invariant. *)
Definition keeps {S A} (I : S -> Prop) (m : Script S A) : Prop := forall s, I s -> I (m s).2 /\
  match (m s).1 with Return _ => True | Raise e => typed_raise e end.

Lemma preserves_bind {S A B} (I : S -> Prop) (m : Script S A) (f : A -> Script S B) :
  keeps I m -> (forall a, keeps I (f a)) -> keeps I (m ≫= f).
Proof.
  intros Hm Hf s Hs. unfold mbind, Script_bind. destruct (Hm s Hs) as [Hs' Ha].
  destruct (m s) as [[a|e] s']; simpl in *; [by apply Hf|done].
Qed.
Lemma preserves_ret {S A} (I : S -> Prop) (a : A) : keeps I (mret a : Script S A).
Proof. by intros s Hs. Qed.

Lemma preserves_chain {S} (I : S -> Prop) chain : Forall (keeps I) chain -> forall failed,
  match failed with Some e => typed_raise e | None => True end -> keeps I (exec_chain chain failed).
Proof.
  induction 1 as [|m chain Hm _ IH]; intros failed Hf s Hs; simpl; [by destruct failed|].
  destruct (Hm s Hs) as [Hs' Ha]. destruct (m s) as [r s'] eqn:E. simpl in *. apply IH; [|done].
  by destruct failed, r.
Qed.
Lemma preserves_collect {S A B} (I : S -> Prop) (l : list A) (f : A -> Script S B) :
  (forall a, keeps I (f a)) -> keeps I (scollect l f).
Proof.
  intros Hf. induction l; simpl; [apply preserves_ret|]. apply preserves_bind; [done|]. intros b.
  apply preserves_bind; [done|]. intros. apply preserves_ret.
Qed.
