(* ===== verification/RedisTypedProps.v ===== *)
(** * Type soundness of the Redis backend

    Over any history of backend calls whose keys are used at one type each, no
    command meets a key of another type. *)
From S2P Require Import Prelude JsNumber JsString Json Shared MemoryStore StoreFacts TokenBucket.
From S2P Require Import Concurrency MultiLimit Queue Freeze Backend RateLimit Cost Client Footprint.
From S2P Require Import RedisServer RedisFacts RedisModel RedisBucket RedisMulti RedisQueue RedisFreeze.
From S2P Require Import RedisBackend RedisSettle RedisTypes RedisTyped.

(** ** What a call asks of the types of its keys *)

Section typed.
Variable kind : string -> key_type.
Variable keyPrefix : string.
Local Notation hash key := (kind key = plain).
Local Notation text key := (kind key = TString).

Definition queue_key (q : string) : Prop := exists ok, kind q = TZset ok.
Definition entry_key (key : string) : Prop := exists ok, entry_typed kind ok key.
(** A queue and its entries, [id] among those it may hold. *)
Definition queue_of (q p : string) : Prop := exists ok, queue_typed kind q p ok.
Definition queue_with (q p id : string) : Prop := exists ok, queue_typed kind q p ok /\ ok id.

Definition put_typed (key : string) (fields : list (string * field_value)) : Prop :=
  exists ok, kind key = THash ok /\ Forall (fun kv => ok kv.1 kv.2) (field_texts fields).
Definition add_typed (key member : string) : Prop := exists ok, kind key = TSet ok /\ ok member.
Definition set_key (key : string) : Prop := exists ok, kind key = TSet ok.

Definition op_typed (op : BatchOp) : Prop :=
  match op with
  | BSet key _ _ => text key
  | BSadd key member => add_typed key member
  | BSrem key _ => set_key key
  | BHset key fields _ => put_typed key fields
  | BDel _ | BExpire _ _ | BPublish _ _ => True
  end.

Definition keys_typed {A} (c : call A) : Prop :=
  match c with
  | CGet key | CSet key _ _ | CAcquireLock key _ _ | CReleaseLock key _ => text key
  | CHgetall key => exists ok, kind key = THash ok
  | CHset key fields _ => put_typed key fields
  | CSadd key member => add_typed key member
  | CSrem key _ | CSmembers key => set_key key
  | CBatch ops => Forall op_typed ops
  | CAcquireTokens key _ _ mark => hash key /\ mark_typed kind key mark
  | CGetTokenBucketState key _ | CResetTokenBucket key _ | CEmptyTokenBucket key _ => hash key
  | CSettleTokens specs => Forall (settle_typed kind) specs
  | CRefundTokens key _ _ fk => hash key /\ forall f, fk = Some f -> hash f
  | CTryAdmitImmediately q key fk _ _ _ mark =>
      queue_key q /\ hash key /\ hash fk /\ mark_typed kind key mark
  | CTryAdmitNoLimit q fk => queue_key q /\ hash fk
  | CAcquireMultiLimit specs | CReleaseMultiLimit specs => Forall (spec_typed kind) specs
  | CTryAdmitMultiLimit q fks specs _ =>
      queue_key q /\ Forall (fun f => hash f) fks /\ Forall (spec_typed kind) specs
  | CAcquireConcurrency key _ _ _ | CReleaseConcurrency key _ | CTouchConcurrency key _ _
  | CGetConcurrencyState key _ => slots_typed kind key
  | CAcquireQueuedConcurrency key mk _ _ _ => slots_typed kind key /\ entry_key mk
  | CTryAdmitConcurrency q key fk _ _ _ _ => queue_key q /\ slots_typed kind key /\ hash fk
  | CAddRequest q p request _ => queue_with q p (q_requestId request)
  | CGetQueueLength q => queue_key q
  | CGetNextRequest q p _ _ | CGetQueueStats q p | CGetAllRequests q p
  | CCleanupOrphanedRequests q p _ _ | CHasThawRequestInProgress q p _ _ => queue_of q p
  | CConfirmRequest p id _ | CGetRequest p id => entry_key (metadata_key p id)
  | CUpdateRequest q p id _ => queue_with q p id
  | CRemoveRequest q p id _ => queue_with q p id /\ text (tombstoneKey p id)
  | CSetFreezeState key _ _ _ | CArmFreeze key _ _ _ | CGetFreezeState key | CIsFrozen key
  | CCanProcessRequest key => hash key
  | CUpdateThawProgress key _ _ =>
      hash key /\ exists ok, kind (completions_key key) = TSet ok /\ forall x, ok x
  | CTryStartThawRequest fg q p id g _ =>
      queue_with q p id /\ exists ok, kind fg = TSet ok /\ (g <> "" -> ok g)
  | CCleanupStaleFrozenGrants fg q p prefix =>
      queue_of q p /\ exists ok, kind fg = TSet ok /\
        forall g, ok g -> hash ((keyPrefix +:+ prefix) +:+ g +:+ ":freezeState")
  | CGetInstances set prefix _ =>
      exists ok, kind set = TSet ok /\ forall id, ok id -> text ((keyPrefix +:+ prefix) +:+ id)
  | CDel _ | CPublish _ _ | CSubscribe _ _ | CTouchClaimMark _ _ _ | CClearConcurrency _
  | CClearFreezeState _ | CNow | CClose | CRunMicrotask => True
  end.
End typed.

(** ** Every call keeps the types *)

Create HintDb calls.
#[export] Hint Resolve sound_redis_acquire sound_redis_admit sound_redis_bucketState sound_redis_settle
  sound_redis_touchMark sound_redis_refund sound_redis_acquireSlot sound_redis_acquireQueued
  sound_redis_admitSlot sound_redis_touchSlot sound_redis_slotState sound_redis_several sound_redis_release
  sound_redis_admitSeveral sound_redis_add sound_redis_length sound_redis_next sound_redis_confirm
  sound_redis_get sound_redis_update sound_redis_remove sound_redis_stats sound_redis_all sound_redis_cleanup
  sound_setFreeze sound_armFreeze sound_getFreeze sound_isFrozen sound_canProcess sound_noLimit sound_thaw
  sound_hasThaw sound_startThaw sound_staleGrants sound_instances sound_redis_get_ sound_redis_set
  sound_redis_del sound_acquireLock sound_releaseLock sound_SADD sound_SREM sound_DEL : calls.

Section calls.
Context {R : Type} `{Srv : !RedisServer R} `{!RedisShapes R} `{Lua : LuaRuntime}.
Variable kind : string -> key_type.
Variable keyPrefix : string.
Variable t : clock.
Hypothesis Hnow : instant (ms t).

Definition typed_wire (w : Wire R) : Prop := well_typed kind (ms t) (server w).
Definition typed_state (s : RedisState R) : Prop := typed_wire (wire_ s).

Lemma sound_keeps {A} (m : Script R A) : sound kind (ms t) any m -> keeps (well_typed kind (ms t)) m.
Proof. intros Hm s Hs. exact (Hm s Hs). Qed.
Lemma preserves_server {A} (m : Script R A) : keeps (well_typed kind (ms t)) m -> keeps typed_wire (on_server m).
Proof.
  intros Hm w Hw. unfold on_server. specialize (Hm _ Hw). by destruct (m (server w)) as [r s'].
Qed.
Lemma preserves_wire {A} (m : Script (Wire R) A) : keeps typed_wire m -> keeps typed_state (on_wire m).
Proof.
  intros Hm s Hs. unfold on_wire. specialize (Hm _ Hs). by destruct (m (wire_ s)) as [r w'].
Qed.
Lemma preserves_redis {A} (m : Script R A) : sound kind (ms t) any m -> keeps typed_state (on_redis m).
Proof. intros. by apply preserves_wire, preserves_server, sound_keeps. Qed.
Lemma preserves_listener f : keeps typed_state (on_listener f : Script (RedisState R) unit).
Proof. by intros s Hs. Qed.

Lemma hset_typed key fields ttl :
  put_typed kind key fields -> Forall (keeps (well_typed kind (ms t))) (hset_commands t key fields ttl).
Proof.
  intros (ok & Hk & Hf). unfold hset_commands. apply Forall_app. split.
  - destruct fields; [constructor|]. apply Forall_singleton, sound_keeps. by eapply sound_put.
  - destruct ttl; [|constructor]. apply Forall_singleton, sound_keeps. by apply sound_EXPIRE.
Qed.
Lemma preserves_hset key fields ttl : put_typed kind key fields -> keeps (well_typed kind (ms t)) (redis_hset t key fields ttl).
Proof.
  intros Hp. unfold redis_hset. apply preserves_bind.
  { destruct ttl as [x|]; simpl; [|apply preserves_ret]. apply sound_keeps.
    eapply sound_bind; [apply sound_script_of|]. by intros; apply sound_ret. }
  intros [x|]; [by apply preserves_chain; [apply hset_typed|]|]. destruct fields as [|f fields]; [apply preserves_ret|].
  destruct Hp as (ok & Hk & Hf). apply sound_keeps. by eapply sound_put.
Qed.
Lemma preserves_batch ops : Forall (op_typed kind) ops -> keeps typed_wire (redis_batch t keyPrefix ops).
Proof.
  intros Hops. unfold redis_batch. destruct ops as [|op ops']; [apply preserves_ret|].
  set (ops := op :: ops') in *. apply preserves_bind.
  { apply preserves_collect. intros o. apply preserves_server, sound_keeps. destruct (batch_ttl o); simpl; [|by apply sound_ret].
    eapply sound_bind; [apply sound_script_of|]. by intros; apply sound_ret. }
  intros ttls. apply preserves_chain; [|done]. clearbody ops. revert ttls.
  induction Hops as [|o os Ho _ IH]; intros [|x ttls]; simpl; try by constructor.
  apply Forall_app. split; [|apply IH]. destruct o; simpl in *.
  - apply Forall_singleton, preserves_server, sound_keeps. destruct x; [destruct (_ <=? _)%num|]; eauto with sound.
  - apply Forall_singleton, preserves_server, sound_keeps. eauto with sound.
  - apply Forall_singleton, preserves_server, sound_keeps. eauto with sound.
  - destruct Ho as (ok & Hk & Hm). apply Forall_singleton, preserves_server, sound_keeps. eauto with sound.
  - destruct Ho as (ok & Hk). apply Forall_singleton, preserves_server, sound_keeps. eauto with sound.
  - apply Forall_fmap. eapply Forall_impl; [by apply hset_typed|]. intros m Hm. by apply preserves_server.
  - apply Forall_singleton. by intros w Hw.
Qed.

Lemma sound_hgetall key ok : kind key = THash ok -> sound kind (ms t) any (redis_hgetall t key).
Proof. intros. eapply sound_weaken; [by eapply sound_fields|done]. Qed.
Lemma sound_smembers key ok : kind key = TSet ok -> sound kind (ms t) any (redis_smembers t key).
Proof. intros. eapply sound_weaken; [by eapply sound_SMEMBERS|done]. Qed.
Lemma sound_clear key : sound kind (ms t) any (redis_clearConcurrency t key).
Proof. unfold redis_clearConcurrency. sound_all. Qed.
Lemma sound_redis_releaseSlot key id :
  slots_typed kind key -> sound kind (ms t) any (redis_releaseConcurrency t key id).
Proof. by apply sound_release_slot. Qed.
Lemma sound_redis_reset key m : kind key = plain -> sound kind (ms t) any (redis_resetTokenBucket t key m).
Proof. by apply sound_reset. Qed.
Lemma sound_redis_empty key c : kind key = plain -> sound kind (ms t) any (redis_emptyTokenBucket t key c).
Proof. by apply sound_empty. Qed.
#[local] Hint Resolve sound_hgetall sound_smembers sound_clear sound_redis_releaseSlot sound_redis_reset
  sound_redis_empty : calls.

Lemma preserves_exec {A} (c : call A) : keys_typed kind keyPrefix c -> keeps typed_state (redis_exec t keyPrefix c).
Proof.
  destruct c; cbn [keys_typed redis_exec]; intros Hc; try apply preserves_redis; try (by intros s Hs);
    unfold queue_key, queue_of, queue_with, entry_key, set_key, add_typed in *;
    repeat match goal with H : _ /\ _ |- _ => destruct H | H : exists _, _ |- _ => destruct H end;
    try solve [eauto with calls].
  - intros s Hs. by apply preserves_hset.
  - by apply preserves_wire, preserves_batch.
Qed.
End calls.

(** ** Histories *)

(** A call at an instant of the server's clock, and what it answered. *)
Definition redis_event : Type := clock * {A : Type & call A}.
Definition redis_answer : Type := {A : Type & outcome A}.

Definition no_wrongtype (a : redis_answer) : Prop :=
  match projT2 a with Raise e => e <> ForeignError wrongtype | Return _ => True end.

Section histories.
Context {R : Type} `{Srv : !RedisServer R} `{Lua : LuaRuntime}.
Variable keyPrefix : string.

Fixpoint redis_run (h : list redis_event) (s : RedisState R) : list redis_answer * RedisState R :=
  match h with
  | [] => ([], s)
  | (t, existT A c) :: h =>
      let '(r, s) := redis_exec t keyPrefix c s in
      let '(answers, s) := redis_run h s in
      (existT A r :: answers, s)
  end.
End histories.

(** The server's clock does not run backwards. *)
Fixpoint in_time (t0 : num) (h : list redis_event) : Prop :=
  match h with
  | [] => True
  | (t, _) :: h => instant (ms t) /\ (t0 <=? ms t)%num = true /\ in_time (ms t) h
  end.

Definition at_end (t0 : num) (h : list redis_event) : num := fold_left (fun _ (e : redis_event) => ms e.1) h t0.

Lemma well_typed_later {R : Type} `{Srv : !RedisServer R} `{!RedisShapes R} kind now now' (s : R) :
  (now <=? now')%num = true -> well_typed kind now s -> well_typed kind now' s.
Proof.
  intros Hle Hs k. destruct (look_later now now' s k Hle) as [->| ->]; [done|apply Hs].
Qed.

(** C37.  The keys of the Redis backend are typed: give each key one type for
    good (a string; a hash; a sorted set or a set, with what its members may
    be; an entry of a queue, whose [requestId] is a member that queue may
    have), and take any history of backend calls, of every kind, each of which
    is handed keys of the types it works on.  On any server that behaves as
    documented, no call of the history is answered [WRONGTYPE], and afterwards
    every key is absent or of its type, whatever the calls' numbers, costs,
    lifetimes and configurations are and whichever of them throw. *)
Theorem redis_keys_keep_types {R : Type} `{Srv : !RedisServer R} `{!RedisShapes R} `{Lua : LuaRuntime}
    (kind : string -> key_type) (keyPrefix : string) (h : list redis_event) (t0 : num) (s : RedisState R)
    (Htime : in_time t0 h) (Hcalls : Forall (fun e : redis_event => keys_typed kind keyPrefix (projT2 e.2)) h)
    (Hs : well_typed kind t0 (server (wire_ s))) :
  Forall no_wrongtype (redis_run keyPrefix h s).1 /\
  forall now, (at_end t0 h <=? now)%num = true ->
    well_typed kind now (server (wire_ (redis_run keyPrefix h s).2)).
Proof.
  revert t0 s Htime Hs. induction h as [|[t [A c]] h IH]; intros t0 s Htime Hs; simpl.
  { split; [constructor|]. intros now Hn. by eapply well_typed_later. }
  destruct Htime as (Hi & Hle & Htime). apply Forall_cons in Hcalls as [Hc Hcalls].
  destruct (preserves_exec kind keyPrefix t Hi c Hc s (well_typed_later _ _ _ _ Hle Hs)) as [Hs' Ha].
  destruct (redis_exec t keyPrefix c s) as [r s1]. simpl in *.
  destruct (IH Hcalls (ms t) s1 Htime Hs') as [Hans Hend].
  destruct (redis_run keyPrefix h s1) as [answers s2]. simpl in *. split; [|exact Hend].
  constructor; [|done]. unfold no_wrongtype. simpl. by destruct r.
Qed.

(** A queue [q] of one request [r1] under the prefix [m], grants, slots and a
    lock, beside hashes. *)
Definition demo_types (k : string) : key_type :=
  if bool_decide (k = "q") then TZset (fun id => id = "r1")
  else if bool_decide (k = "m:r1") then THash (fun f v => f = "requestId" -> v = "r1")
  else if bool_decide (k = "m:r1:removed") then TString
  else if bool_decide (k = "lock") then TString
  else if bool_decide (k = "grants") then TSet (fun g => g = "g1")
  else if bool_decide (k = "s") then TZset (fun _ => True)
  else plain.

Definition demo_request : QueuedRequest :=
  {| q_requestId := "r1"; q_clientName := "client"; q_requestName := "name"; q_status := "pending";
     q_priority := int 2; q_cost := CostNumber (int 1); q_retries := int 0; q_timestamp := int 7;
     q_grantId := Some "g1"; q_isThawRequest := false; q_settles := false; q_ownerId := "o"; q_claimedAt := None |}.

Definition demo_limit : TokenBucketConfig :=
  {| maxTokens := int 10; tokensToAdd := int 1; interval := int 1000 |}.

Definition at_ (z : Z) {A} (c : call A) : redis_event := ({| ms := int z; micros := "1.5" |}, existT A c).

(** A request queued and claimed, a freeze armed and probed, a bucket, a slot
    and a lock taken, and the request removed. *)
Definition demo_calls : list redis_event :=
  [at_ 10 (CAddRequest "q" "m" demo_request (int 60));
   at_ 11 (CAcquireLock "lock" "me" (int 500));
   at_ 12 (CGetNextRequest "q" "m" [] []);
   at_ 13 (CArmFreeze "f" (int 14) (int 1) None);
   at_ 14 (CTryStartThawRequest "grants" "q" "m" "r1" "g1" false);
   at_ 15 (CAcquireTokens "b" (int 3) demo_limit None);
   at_ 16 (CTryAdmitConcurrency "q" "s" "f" (int 1) "x" {| maxConcurrency := int 2; requestTtl := int 100 |} (int 60));
   at_ 17 (CUpdateRequest "q" "m" "r1"
             {| u_status := Some "pending"; u_retries := Some (int 1); u_priority := None; u_isThawRequest := None |});
   at_ 18 (CRemoveRequest "q" "m" "r1" (int 60));
   at_ 19 (CAddRequest "q" "m" demo_request (int 60))].

Definition raised (a : redis_answer) : option string :=
  match projT2 a with Raise (ForeignError message) => Some message | _ => None end.

Lemma redis_keys_keep_types_witness :
  Forall no_wrongtype (redis_run "" demo_calls (new_backend (∅ : ModelRedis))).1 /\
  (* a key at two types is what the theorem rules out *)
  map raised (redis_run "" [at_ 1 (CSet "b" "text" None); at_ 2 (CAcquireTokens "b" (int 3) demo_limit None)]
                (new_backend (∅ : ModelRedis))).1
  = [None; Some wrongtype].
Proof.
  split; [|vm_compute; reflexivity].
  apply (redis_keys_keep_types demo_types "" demo_calls (int 0) (new_backend (∅ : ModelRedis))).
  - assert (forall z, (0 <= z <= 2 ^ 52)%Z -> instant (int z)) as Hi by (intros z Hz; by exists z).
    unfold demo_calls, in_time, at_. split_and!; try (by apply Hi); by vm_compute.
  - assert (queue_with demo_types "q" "m" "r1") as Hq.
    { exists (fun id => id = "r1"). split; [split; [by vm_compute|]|done]. by intros id ->. }
    unfold demo_calls, at_.
    repeat (apply Forall_cons; split; cbn [projT2 snd keys_typed q_requestId demo_request]); [..|by apply Forall_nil];
      try exact Hq; try by vm_compute.
    + destruct Hq as (ok & ? & _). by exists ok.
    + split; [exact Hq|]. exists (fun g => g = "g1"). by split; [vm_compute|].
    + split; [by eexists; vm_compute|]. split; [|by vm_compute].
      split; [by exists (fun _ => True); split; [vm_compute|]|by vm_compute].
  - intros k. cbn [server wire_ new_backend look model_server]. unfold model_look. by rewrite lookup_empty.
Defined.
